(* ===== verification/_CoqProject ===== *)
-Q . S2P
Prelude.v
SamplingParams.v
Sequence.v
Heap.v
BlockManager.v
Reservation.v
AllocatorInv.v
BlockManagerInv.v
BlockManagerSpec.v
ReservationInv.v
ReservationSpec.v
FinalizeSpec.v
CacheInv.v
SpecMemory.v
SpecRoutes.v
RouteInv.v
RouteSpec.v
SpecPlan.v
PlanSpec.v
SpecResult.v
ResultSpec.v
Scheduler.v
KVContract.v
SchedInv.v
Frame.v
KVFrame.v
ScheduleSpec.v
PrefillSpec.v
StepSpec.v
Progress.v
CancelSpec.v
EngineLoop.v
SpecScheduler.v
SpecCommit.v
SpecFrame.v
CommitSpec.v
UndoSpec.v
AbortSpec.v
TransactionSpec.v
Metrics.v
Engine.v
EngineSpec.v
SpecStep.v
GenerateSpec.v
Stream.v
StreamSpec.v
StreamLive.v
Detokenizer.v
TpTransport.v
RunnerTransport.v
RunnerInput.v
RunnerGraph.v
RunnerRun.v
RunnerSpec.v
RunnerRunSpec.v
RunnerDraft.v
RunnerDraftSpec.v
InvariantOps.v
Layers.v
Linear.v
Qwen3.v
LayerSpec.v
ModelSpec.v
Sampler.v
SamplerSpec.v
SpecLaw.v
AcceptSpec.v
FilterSpec.v
Verifier.v
VerifierSpec.v
Policy.v
PolicySpec.v
Demo.v
Witnesses.v
EngineWitnesses.v
SpecWitnesses.v
RunnerWitnesses.v
SamplerWitnesses.v
VerifierWitnesses.v
PolicyWitnesses.v
