(* ===== verification/Prelude.v ===== *)
(** * A verification of nano-vllm's serving engine

    nano-vllm (src/nanovllm/) serves a language model: requests enter queues, a
    scheduler forms batches under token and sequence budgets, a paged allocator
    gives each sequence KV-cache blocks and shares equal prefixes, a runner
    turns a batch into the inputs of the model, and an optional draft model
    proposes tokens that the target verifies.  This development translates the
    host-side code into executable definitions and proves what makes it correct.
    A definition has the name of the code it translates.

    ** Conventions

    Code that mutates objects and raises runs in the monad [M S A] of this file:
    it takes the store and answers a value or an exception TOGETHER WITH the
    store it leaves, so the state left by a raising call is in the theorems.
    Pure fallible code is in [outcome].  Python integers are [Z]; the machine
    widths that matter (the 32-bit frame length) are written out.  Finite floats
    that are only compared are rationals.  A [Sequence] object, aliased by the
    queues, the tables and the lease, is a reference into one store.  Tests on
    Python types are decided by the Rocq types, except where the code receives
    untyped values ([pyval]).

    ** Files and the code they model

    - This file: exceptions, the monad and its weakest-precondition rules ([wp]),
      the translated loop forms, lemmas on lists, ranges, slices, ceilings.
    - SamplingParams (sampling_params.py), Sequence (engine/sequence.py), Metrics
      (metrics.py), Detokenizer (utils/streaming_detokenizer.py), TpTransport
      (engine/tp_transport.py): one small component each.
    - Heap, BlockManager, Reservation: engine/block_manager.py.  [heap] is the
      manager (blocks, free list, used set, prefix-cache index, lease) with the
      sequence store.  AllocatorInv states the ledger invariant [alloc_ok],
      BlockManagerInv that every operation keeps it, CacheInv the soundness of
      the prefix cache [cache_ok], ReservationInv the live lease; the contracts
      are in BlockManagerSpec, ReservationSpec and FinalizeSpec.
    - Scheduler, SpecScheduler: engine/scheduler.py; the second file has the
      speculative planning, staging, commit and roll back.  The scheduler's
      theorems use the allocator only through the class [KVAllocator] of
      KVContract, which the block manager implements.  SchedInv has the
      invariant [sinv]; ScheduleSpec, PrefillSpec, StepSpec and CancelSpec prove
      that each operation keeps it; Progress has the termination measure; Frame
      and SpecFrame say what no operation changes; EngineLoop defines the
      transition relation of the serving loop and states its properties.
      SpecCommit, CommitSpec, UndoSpec, AbortSpec and TransactionSpec follow one
      speculative transaction from plan to commit or abort.
    - SpecMemory, SpecRoutes, SpecPlan, SpecResult (the four
      engine/speculative_*.py files of the same names): the workspace planner,
      the registry of warmed routes, the plan with its certificate, and the
      validation of a result; proofs in SpecMemory, RouteInv, RouteSpec,
      PlanSpec and ResultSpec.
    - Engine: engine/llm_engine.py, the facade (admission, the exclusive
      session, one step on its three paths, [generate]).  EngineSpec and SpecStep
      prove the steps, GenerateSpec proves [generate] against the interface
      [SafeSteps], implemented by the ordinary runner.
    - RunnerInput, RunnerGraph, RunnerRun, RunnerDraft, RunnerTransport:
      engine/model_runner.py, utils/context.py and the row selection of
      layers/embed_head.py.  The inputs of a step, the captured graphs' padded
      buffers, one whole step with its sampling branches, the validation and
      execution of a draft cycle, the shared-memory channel to the workers.
      RunnerSpec, RunnerRunSpec and RunnerDraftSpec relate them to the
      scheduler's and the planner's theorems; [BatchRow] is the interface that
      rank zero's sequences and the workers' wire records share.
    - Demo and the four files of witnesses evaluate the definitions on concrete
      states and apply every property there.

    ** How the parts interact

    [Engine._step] calls [schedule]; the runner's answer (an environment: any
    tokens, any exception) goes to [postprocess] or, on a speculative path,
    through [plan_speculative_step], the result's validation and
    [commit_speculative]; a failure runs the clean-up of [step_cleanup].  The
    batch [schedule] answers satisfies [row_ready], from which RunnerSpec
    computes the inputs.  A plan that RunnerDraft validates against live rows is
    executed by the draft model, and its reported result is what
    [Engine._validate_draft_discard_result] accepts.

    ** Groups of theorems

    - Safety of the loop: every reachable state satisfies [sinv]; blocks are
      conserved, shared blocks hold equal prefixes, batches fit their budgets,
      the only errors are the two documented refusals.
    - Liveness: every step of an admissible load advances; [generate] answers
      every request in order and always leaves the engine at rest.
    - Transactions: a lease and its roll back are inverse; a speculative plan
      falls back or opens one lease that covers every burst it allows; a commit
      appends exactly the trimmed burst; an abort restores the decode batch.
    - Inputs: the model runs exactly the scheduled tokens, at their positions,
      and writes only private slots; workers compute the same inputs; a captured
      graph replays the same step; a validated draft cycle stays in its pool.
    - Device step: each row is answered from its own last token, graphs change
      no answer, and every answer is one [postprocess] commits.
    - Planning: derived K and catch-up witness are optimal, registries resolve,
      certificates fit the reserved workspace, an admitted cycle builds.
    - Data: streamed text equals the decoded text, frames and wire records round
      trip, validators accept exactly the consistent inputs.

    ** Bounds and fuel

    [for] loops are folds over their list.  A [while] loop takes fuel, and
    [OutOfFuel] is excluded by the theorems: the decode loop has one unit per
    running row and one more, making room one per row that can be preempted and
    two more, the prefill loop two per waiting row and one more (a row is
    promoted or ends the loop).  [generate] is proved to answer with enough fuel
    by the measure of Progress.smaller (tokens left to produce, then the rest of
    the partial prefill).

    ** Assumptions

    Code outside src/ is an argument: the content hash (xxhash), SHA-256, the
    tokenizer, pickle, the torch data types, the clock.  Sharing soundness is
    stated up to a collision of the content hash, and hashes are assumed not
    negative, as the 64-bit digest is.  The forward passes and the samplers are
    arbitrary functions that may raise; theorems on captured graphs assume that
    replaying a graph on buffers that hold a call is running that call.

    ** Not modelled

    Numerical kernels and GPU memory (layers/, models/, sampler, loader, graph
    capture, pre-touch passes, memory audits): they compute on tensors.  Process
    start-up, locks and worker loops: the model is sequential.  Warnings, notes
    on exceptions, progress bars: presentation.  Message texts keep only their
    literal part. *)
From stdpp Require Export prelude gmap sets list strings.
From Stdlib Require Export ZArith Lia.

#[global] Open Scope Z_scope.

Declare Scope py_scope.
Delimit Scope py_scope with py.

(** ** Exceptions and outcomes *)

(** The exception classes the modelled code raises.  The string is the message
    of the [raise] statement (the literal text; interpolated values are left
    out).  [Dangling] and [OutOfFuel] are not Python exceptions: the first
    marks a reference outside the modelled object store, which Python cannot
    form, the second a loop whose fuel was too small, which the termination
    theorems exclude. *)
Inductive exn :=
  | ValueError (msg : string)
  | TypeError (msg : string)
  | RuntimeError (msg : string)
  | KeyError
  | IndexError
  | AssertionError
  | StopIteration
  | ZeroDivisionError
  | AttributeError
  | SchedulerCapacityError (requested available capacity : Z)
  | SpeculativeMemoryPlanningError (msg : string)
  | SpeculativeDiscardResultError (msg : string)
  | SpeculativeDraftPlanError (msg : string)
  | TensorParallelTransportError (msg : string)
  | StructError
  | SpeculativeSamplingInvariantError (msg : string)
  | Dangling
  | OutOfFuel.

Inductive outcome (A : Type) :=
  | Ok (a : A)
  | Raise (e : exn).
Arguments Ok {A} _.
Arguments Raise {A} _.

Definition obind {A B} (m : outcome A) (k : A → outcome B) : outcome B :=
  match m with Ok a => k a | Raise e => Raise e end.

(** [if c: raise e] followed by the rest of the function. *)
Definition oraise_if (c : bool) (e : exn) : outcome unit :=
  if c then Raise e else Ok tt.

Notation "'let?' x ':=' m 'in' k" := (obind m (fun x => k))
  (at level 10, x pattern, m at level 100, k at level 200,
   format "'let?'  x  ':='  m  'in' '//' k") : py_scope.
Notation "m ;? k" := (obind m (fun _ => k))
  (at level 100, right associativity, format "m  ;? '//' k") : py_scope.
#[global] Open Scope py_scope.

Fixpoint omap_all {A B} (f : A → outcome B) (l : list A) : outcome (list B) :=
  match l with
  | [] => Ok []
  | x :: l' => let? y := f x in let? ys := omap_all f l' in Ok (y :: ys)
  end.

Fixpoint ofor_each {A} (f : A → outcome unit) (l : list A) : outcome unit :=
  match l with
  | [] => Ok tt
  | x :: l' => f x ;? ofor_each f l'
  end.

(** [for x in xs] over an accumulator. *)
Fixpoint ofold {A B} (f : B → A → outcome B) (xs : list A) (b : B) : outcome B :=
  match xs with
  | [] => Ok b
  | x :: xs' => let? b' := f b x in ofold f xs' b'
  end.

Definition is_ok {A} (m : outcome A) : bool :=
  match m with Ok _ => true | Raise _ => false end.

Lemma oraise_if_ok c e : oraise_if c e = Ok tt ↔ c = false.
Proof. by destruct c. Qed.

Lemma obind_ok {A B} (m : outcome A) (k : A → outcome B) b :
  obind m k = Ok b ↔ ∃ a, m = Ok a ∧ k a = Ok b.
Proof. destruct m; simpl; naive_solver. Qed.

Lemma obind_unit_ok {B} (m : outcome unit) (k : outcome B) b :
  (m ;? k) = Ok b ↔ m = Ok tt ∧ k = Ok b.
Proof. destruct m as [[]|]; simpl; naive_solver. Qed.

Lemma ofor_each_ok {A} (f : A → outcome unit) l :
  ofor_each f l = Ok tt ↔ Forall (λ x, f x = Ok tt) l.
Proof.
  induction l as [|x l IH]; simpl; [by split; [constructor|]|].
  by rewrite obind_unit_ok, IH, Forall_cons.
Qed.

Lemma omap_all_ok {A B} (f : A → outcome B) l ys :
  omap_all f l = Ok ys ↔ Forall2 (λ x y, f x = Ok y) l ys.
Proof.
  revert ys. induction l as [|x l IH]; intros ys; simpl.
  { split; [intros [= <-]; constructor|by inversion 1]. }
  rewrite obind_ok. setoid_rewrite obind_ok. setoid_rewrite IH. split.
  - intros (y & Hy & ys' & Hys & [= <-]). by constructor.
  - inversion 1; subst. eauto 10.
Qed.

(** A total function on the elements. *)
Lemma omap_all_eq {A B} (f : A → outcome B) (g : A → B) l :
  (∀ x, x ∈ l → f x = Ok (g x)) → omap_all f l = Ok (g <$> l).
Proof.
  intros Hf. apply omap_all_ok. apply Forall2_fmap_r, Forall_Forall2_diag, Forall_forall. exact Hf.
Qed.

Lemma omap_all_total {A B} (f : A → outcome B) l :
  (∀ x, x ∈ l → ∃ y, f x = Ok y) → ∃ ys, omap_all f l = Ok ys.
Proof.
  induction l as [|x l IH]; intros Hf; [by eexists|]. simpl.
  destruct (Hf x ltac:(set_solver)) as [y ->].
  destruct IH as [ys ->]; [intros; apply Hf; set_solver|]. by eexists.
Qed.

(** ** The state and exception monad *)

Definition M (S A : Type) : Type := S → outcome A * S.

Section monad.
Context {S : Type}.

Definition ret {A} (a : A) : M S A := λ s, (Ok a, s).
Definition raise {A} (e : exn) : M S A := λ s, (Raise e, s).
Definition bind {A B} (m : M S A) (k : A → M S B) : M S B := λ s,
  match m s with
  | (Ok a, s') => k a s'
  | (Raise e, s') => (Raise e, s')
  end.
Definition get : M S S := λ s, (Ok s, s).
Definition gets {A} (f : S → A) : M S A := λ s, (Ok (f s), s).
Definition modify (f : S → S) : M S unit := λ s, (Ok tt, f s).
Definition lift {A} (m : outcome A) : M S A := λ s, (m, s).
(** A read-only, fallible inspection of the store. *)
Definition inspect {A} (f : S → outcome A) : M S A := λ s, (f s, s).

Definition raise_if (c : bool) (e : exn) : M S unit :=
  if c then raise e else ret tt.
Definition assert (c : bool) : M S unit := raise_if (negb c) AssertionError.
Definition when (c : bool) (m : M S unit) : M S unit :=
  if c then m else ret tt.

(** [try: m except BaseException: h; raise]: the handler changes the store,
    then the original exception goes on. *)
Definition try_reraise {A} (m : M S A) (h : S → S) : M S A := λ s,
  match m s with
  | (Ok a, s') => (Ok a, s')
  | (Raise e, s') => (Raise e, h s')
  end.
(** [try: m except BaseException: h; raise] with a handler that is itself
    code: an exception of the handler replaces the original one. *)
Definition try_handler {A} (m : M S A) (h : M S unit) : M S A := λ s,
  match m s with
  | (Ok a, s') => (Ok a, s')
  | (Raise e, s') =>
      match h s' with
      | (Ok _, s'') => (Raise e, s'')
      | (Raise e', s'') => (Raise e', s'')
      end
  end.
(** [try: m finally: f]. *)
Definition try_finally {A} (m : M S A) (f : S → S) : M S A := λ s,
  let '(o, s') := m s in (o, f s').

Fixpoint for_each {A} (f : A → M S unit) (l : list A) : M S unit :=
  match l with
  | [] => ret tt
  | x :: l' => bind (f x) (λ _, for_each f l')
  end.
Fixpoint for_fold {A B} (f : B → A → M S B) (b : B) (l : list A) : M S B :=
  match l with
  | [] => ret b
  | x :: l' => bind (f b x) (λ b', for_fold f b' l')
  end.
Fixpoint map_all {A B} (f : A → M S B) (l : list A) : M S (list B) :=
  match l with
  | [] => ret []
  | x :: l' =>
      bind (f x) (λ y, bind (map_all f l') (λ ys, ret (y :: ys)))
  end.
Fixpoint repeat_m {A} (n : nat) (m : M S A) : M S (list A) :=
  match n with
  | O => ret []
  | Datatypes.S n' =>
      bind m (λ y, bind (repeat_m n' m) (λ ys, ret (y :: ys)))
  end.
End monad.

Notation "'let*' x ':=' m 'in' k" := (bind m (fun x => k))
  (at level 10, x pattern, m at level 100, k at level 200,
   format "'let*'  x  ':='  m  'in' '//' k") : py_scope.
Notation "m ;;; k" := (bind m (fun _ => k))
  (at level 100, right associativity, format "m  ;;; '//' k") : py_scope.

(** A component's computation run on a part of a larger store. *)
Definition zoom {S T A} (get_part : S → T) (set_part : T → S → S) (m : M T A)
    : M S A := λ s,
  let '(o, t) := m (get_part s) in (o, set_part t s).

(** ** Weakest preconditions *)

Definition wp {S A} (m : M S A) (Q : A → S → Prop) (E : exn → S → Prop)
    (s : S) : Prop :=
  match m s with
  | (Ok a, s') => Q a s'
  | (Raise e, s') => E e s'
  end.

(** [m] keeps [I] whatever it returns or raises. *)
Definition preserves {S A} (I : S → Prop) (m : M S A) : Prop :=
  ∀ s, I s → wp m (λ _, I) (λ _, I) s.

Section wp_rules.
Context {S : Type}.

Lemma wp_ret {A} (a : A) Q E (s : S) : Q a s → wp (ret a) Q E s.
Proof. done. Qed.

Lemma wp_eq {A} (m : M S A) a s s' (Q : A → S → Prop) E :
  m s = (Ok a, s') → Q a s' → wp m Q E s.
Proof. unfold wp. by intros ->. Qed.

Lemma wp_raise {A} e (Q : A → S → Prop) E s : E e s → wp (raise e) Q E s.
Proof. done. Qed.

Lemma wp_bind {A B} (m : M S A) (k : A → M S B) Q E s :
  wp m (λ a, wp (k a) Q E) E s ↔ wp (bind m k) Q E s.
Proof. unfold wp, bind. by destruct (m s) as [[a|e] s']. Qed.

Lemma wp_mono {A} (m : M S A) (Q Q' : A → S → Prop) (E E' : exn → S → Prop) s :
  wp m Q E s → (∀ a s', Q a s' → Q' a s') → (∀ e s', E e s' → E' e s') →
  wp m Q' E' s.
Proof. unfold wp. destruct (m s) as [[a|e] s']; eauto. Qed.

Lemma wp_raise_if c e (Q : unit → S → Prop) E s :
  (c = true → E e s) → (c = false → Q tt s) → wp (raise_if c e) Q E s.
Proof. destruct c; unfold wp; simpl; auto. Qed.

Lemma wp_for_each {A} (I : list A → S → Prop) (E : exn → S → Prop)
    (f : A → M S unit) l s :
  I l s →
  (∀ x l' s, I (x :: l') s → wp (f x) (λ _, I l') E s) →
  wp (for_each f l) (λ _, I []) E s.
Proof.
  intros Hs Hstep. revert s Hs. induction l as [|x l IH]; intros s Hs; [done|].
  apply wp_bind. eapply wp_mono; [by apply Hstep|by intros [] ? ?; apply IH|done].
Qed.

Lemma bind_ok {A B} (m : M S A) (k : A → M S B) s a s' :
  m s = (Ok a, s') → bind m k s = k a s'.
Proof. unfold bind. by intros ->. Qed.

Lemma bind_raise {A B} (m : M S A) (k : A → M S B) s e s' :
  m s = (Raise e, s') → bind m k s = (Raise e, s').
Proof. unfold bind. by intros ->. Qed.

Lemma bind_ok_inv {A B} (m : M S A) (k : A → M S B) s b s' :
  bind m k s = (Ok b, s') → ∃ a t, m s = (Ok a, t) ∧ k a t = (Ok b, s').
Proof. unfold bind. destruct (m s) as [[a|e] t]; naive_solver. Qed.

Lemma try_handler_ok {A} (m : M S A) h s a s' :
  m s = (Ok a, s') → try_handler m h s = (Ok a, s').
Proof. unfold try_handler. by intros ->. Qed.

(** The handler completes, and the exception goes on. *)
Lemma try_handler_raise {A} (m : M S A) h s e s' s'' :
  m s = (Raise e, s') → h s' = (Ok tt, s'') → try_handler m h s = (Raise e, s'').
Proof. unfold try_handler. by intros -> ->. Qed.

Lemma wp_lift {A} (m : outcome A) Q E (s : S) :
  (∀ a, m = Ok a → Q a s) → (∀ e, m = Raise e → E e s) → wp (lift m) Q E s.
Proof. unfold wp, lift. destruct m; auto. Qed.

(** A handler that completes. *)
Lemma wp_try_handler {A} (m : M S A) h (Q : A → S → Prop) E s :
  wp m Q (λ e s', ∃ s'', h s' = (Ok tt, s'') ∧ E e s'') s → wp (try_handler m h) Q E s.
Proof.
  unfold wp, try_handler. destruct (m s) as [[a|e] s']; [done|]. by intros (s'' & -> & ?).
Qed.

Lemma raise_if_inv c e (s : S) u s' :
  raise_if c e s = (Ok u, s') → c = false ∧ s' = s.
Proof. unfold raise_if. destruct c; inversion 1; auto. Qed.
End wp_rules.

Section preserves_rules.
Context {S : Type} (I : S → Prop).

Lemma preserves_ret {A} (a : A) : preserves I (ret a).
Proof. by intros s Hs. Qed.
Lemma preserves_raise {A} e : preserves I (raise (A:=A) e).
Proof. by intros s Hs. Qed.
Lemma preserves_get : preserves I get.
Proof. by intros s Hs. Qed.
Lemma preserves_gets {A} (f : S → A) : preserves I (gets f).
Proof. by intros s Hs. Qed.
Lemma preserves_lift {A} (m : outcome A) : preserves I (lift m).
Proof. intros s Hs. unfold wp, lift. by destruct m. Qed.
Lemma preserves_inspect {A} (f : S → outcome A) : preserves I (inspect f).
Proof. intros s Hs. unfold wp, inspect. by destruct (f s). Qed.
Lemma preserves_raise_if c e : preserves I (raise_if c e).
Proof. by destruct c; intros s Hs. Qed.
Lemma preserves_assert c : preserves I (assert c).
Proof. by destruct c; intros s Hs. Qed.
Lemma preserves_modify f : (∀ s, I s → I (f s)) → preserves I (modify f).
Proof. intros Hf s Hs. by apply Hf. Qed.
Lemma preserves_bind {A B} (m : M S A) (k : A → M S B) :
  preserves I m → (∀ a, preserves I (k a)) → preserves I (bind m k).
Proof.
  intros Hm Hk s Hs. apply wp_bind.
  eapply wp_mono; [by apply Hm|by intros a t ?; apply Hk|done].
Qed.
Lemma preserves_when c (m : M S unit) :
  preserves I m → preserves I (when c m).
Proof. by destruct c; [|intros _ s Hs]. Qed.
Lemma preserves_for_each {A} (f : A → M S unit) l :
  (∀ x, preserves I (f x)) → preserves I (for_each f l).
Proof.
  intros Hf. induction l; simpl; [apply preserves_ret|].
  apply preserves_bind; eauto.
Qed.
End preserves_rules.

Create HintDb preserve.
#[export] Hint Resolve preserves_ret preserves_raise preserves_get
  preserves_gets preserves_lift preserves_inspect preserves_raise_if
  preserves_assert preserves_modify preserves_bind preserves_when
  preserves_for_each : preserve.

(** [mstep] runs one statement of a monadic body whose outcome is known. *)
Ltac mstep :=
  first
    [ erewrite bind_ok; [|reflexivity]
    | erewrite bind_ok; [|eassumption] ].
Ltac mstep_with H := erewrite bind_ok; [|apply H].

(** ** Booleans, options and integers *)

Lemma bool_decide_negb_eq {A} `{EqDecision A} (x y : A) :
  negb (bool_decide (x = y)) = false ↔ x = y.
Proof. rewrite negb_false_iff. apply bool_decide_eq_true. Qed.

(** [//] of the source on non-negative operands, rounding up. *)
Definition ceil_div (n d : Z) : Z := (n + d - 1) `div` d.

Lemma ceil_div_spec n d : 0 < d → n <= ceil_div n d * d < n + d.
Proof.
  intros Hd. unfold ceil_div.
  pose proof (Z.div_mod (n + d - 1) d ltac:(lia)).
  pose proof (Z.mod_pos_bound (n + d - 1) d Hd). nia.
Qed.

Lemma ceil_div_le n d k : 0 < d → ceil_div n d <= k ↔ n <= k * d.
Proof.
  intros Hd. pose proof (ceil_div_spec n d Hd). split; [nia|].
  intros. assert (ceil_div n d * d < (k + 1) * d) by lia. nia.
Qed.

Lemma ceil_div_nonneg n d : 0 < d → 0 <= n → 0 <= ceil_div n d.
Proof. intros. unfold ceil_div. apply Z.div_pos; lia. Qed.

Lemma ceil_div_mono n m d : 0 < d → n <= m → ceil_div n d <= ceil_div m d.
Proof. intros. unfold ceil_div. apply Z.div_le_mono; lia. Qed.

Lemma mul_le_div k n d : 0 < d → k * d <= n ↔ k <= n `div` d.
Proof.
  intros Hd. split.
  - intros. apply Z.div_le_lower_bound; lia.
  - intros. pose proof (Z.mul_div_le n d Hd). nia.
Qed.

(** ** Ranges and slices *)

Definition py_range (a b : Z) : list Z :=
  (λ k : nat, a + Z.of_nat k) <$> seq 0 (Z.to_nat (b - a)).

Lemma elem_of_py_range a b i : i ∈ py_range a b ↔ a <= i < b.
Proof.
  unfold py_range. rewrite list_elem_of_fmap. split.
  - intros (k & -> & Hk%elem_of_seq). lia.
  - intros. exists (Z.to_nat (i - a)). rewrite elem_of_seq. lia.
Qed.

Lemma length_py_range a b : length (py_range a b) = Z.to_nat (b - a).
Proof. unfold py_range. by rewrite length_fmap, length_seq. Qed.

Lemma py_range_app a b c : a <= b <= c → py_range a c = py_range a b ++ py_range b c.
Proof.
  intros H. unfold py_range. replace (Z.to_nat (c - a)) with (Z.to_nat (b - a) + Z.to_nat (c - b))%nat
    by lia. rewrite seq_app, fmap_app. f_equal.
  replace (0 + Z.to_nat (b - a))%nat with (Z.to_nat (b - a) + 0)%nat by lia.
  rewrite <-fmap_add_seq, <-list_fmap_compose.
  apply list_fmap_ext. intros _ k _. simpl. lia.
Qed.

Lemma py_range_empty a b : b <= a → py_range a b = [].
Proof. intros. unfold py_range. by replace (Z.to_nat (b - a)) with 0%nat by lia. Qed.

Lemma py_range_cons a b : a < b → py_range a b = a :: py_range (a + 1) b.
Proof.
  intros. rewrite (py_range_app a (a + 1) b) by lia.
  unfold py_range at 1. replace (Z.to_nat (a + 1 - a)) with 1%nat by lia. simpl.
  by rewrite Z.add_0_r.
Qed.

Lemma py_range_snoc a b : a <= b → py_range a (b + 1) = py_range a b ++ [b].
Proof.
  intros. rewrite (py_range_app a b (b + 1)) by lia. f_equal.
  rewrite py_range_cons by lia. by rewrite py_range_empty by lia.
Qed.

Lemma py_range_shift c a b : (λ x, x + c) <$> py_range a b = py_range (a + c) (b + c).
Proof.
  unfold py_range. replace (b + c - (a + c)) with (b - a) by lia. rewrite <-list_fmap_compose.
  apply list_fmap_ext. intros _ k _. simpl. lia.
Qed.

Lemma fmap_concat {A B} (f : A → B) (ll : list (list A)) : fmap (M:=list) f (concat ll) = concat (fmap (M:=list) (fmap (M:=list) f) ll).
Proof. induction ll as [|l ll IH]; [done|]. simpl. by rewrite fmap_app, IH. Qed.

(** A range cut at the multiples of [d]. *)
Lemma py_range_blocks d s t (n : nat) :
  0 < d → s <= t →
  concat ((λ i, py_range (Z.max s (i * d)) (Z.min t ((i + 1) * d)))
            <$> py_range (s `div` d) (s `div` d + Z.of_nat n)) =
  py_range s (Z.max s (Z.min t ((s `div` d + Z.of_nat n) * d))).
Proof.
  intros Hd Hst. pose proof (Z.mul_div_le s d Hd). pose proof (Z.mul_succ_div_gt s d Hd).
  induction n as [|n IH].
  { rewrite !py_range_empty by lia. done. }
  replace (s `div` d + Z.of_nat (S n)) with (s `div` d + Z.of_nat n + 1) by lia.
  rewrite py_range_snoc by lia. rewrite fmap_app, concat_app, IH. simpl. rewrite app_nil_r.
  set (i := s `div` d + Z.of_nat n) in *.
  assert (s `div` d <= i) as Hi by lia.
  destruct (decide (t <= i * d)).
  - rewrite (py_range_empty (Z.max s (i * d))) by nia. rewrite app_nil_r. f_equal. nia.
  - destruct (decide (n = 0%nat)) as [->|].
    + replace i with (s `div` d) in * by lia. rewrite (py_range_empty s) by nia. simpl.
      f_equal; nia.
    + assert (s <= i * d) by nia.
      replace (Z.max s (Z.min t (i * d))) with (i * d) by lia.
      replace (Z.max s (i * d)) with (i * d) by lia.
      rewrite <-(py_range_app s) by nia. f_equal. nia.
Qed.

(** [l[a:b]] for non-negative bounds. *)
Definition slice {A} (l : list A) (a b : Z) : list A :=
  take (Z.to_nat (b - a)) (drop (Z.to_nat a) l).

Lemma length_slice {A} (l : list A) a b :
  0 <= a → a <= b → b <= Z.of_nat (length l) →
  Z.of_nat (length (slice l a b)) = b - a.
Proof. intros. unfold slice. rewrite length_take, length_drop. lia. Qed.

Lemma slice_app {A} (l k : list A) a b :
  0 <= a → b <= Z.of_nat (length l) → slice (l ++ k) a b = slice l a b.
Proof.
  intros. unfold slice. destruct (decide (a <= b)).
  - rewrite drop_app_le by lia. rewrite take_app_le; [done|].
    rewrite length_drop. lia.
  - by replace (Z.to_nat (b - a)) with 0%nat by lia.
Qed.

(** ** Counting *)

Definition count (i : nat) (l : list nat) : nat := count_occ Nat.eq_dec l i.

Lemma count_app i l k : count i (l ++ k) = (count i l + count i k)%nat.
Proof. apply count_occ_app. Qed.

Lemma count_nil i : count i [] = 0%nat.
Proof. done. Qed.

Lemma count_cons i j l :
  count i (j :: l) = ((if decide (j = i) then 1 else 0) + count i l)%nat.
Proof.
  unfold count. simpl. destruct (Nat.eq_dec j i); by case_decide.
Qed.

Lemma count_reverse i l : count i (reverse l) = count i l.
Proof.
  induction l as [|j l IH]; [done|].
  rewrite reverse_cons, count_app, !count_cons, IH, count_nil. lia.
Qed.

Lemma count_pos i l : (0 < count i l)%nat ↔ i ∈ l.
Proof.
  unfold count. rewrite list_elem_of_In. symmetry. apply count_occ_In.
Qed.

Lemma count_zero i l : i ∉ l → count i l = 0%nat.
Proof. intros Hi. rewrite <-count_pos in Hi. lia. Qed.

Lemma count_two l i j j' :
  l !! j = Some i → l !! j' = Some i → j ≠ j' → (2 <= count i l)%nat.
Proof.
  revert j j'. induction l as [|x l IH]; intros [|j] [|j'] H1 H2 Hne; try done;
    pose proof (count_cons i x l) as Hc; rewrite Hc; simpl in H1, H2.
  - injection H1 as ->. rewrite decide_True by done.
    apply list_elem_of_lookup_2, count_pos in H2. lia.
  - injection H2 as ->. rewrite decide_True by done.
    apply list_elem_of_lookup_2, count_pos in H1. lia.
  - specialize (IH _ _ H1 H2 ltac:(congruence)). lia.
Qed.

#[export] Hint Rewrite count_app count_nil count_cons count_reverse : count.

(** ** Sorted sets: [sorted(set(xs))] *)

Definition sorted_set (xs : list nat) : list nat :=
  filter (λ i, i ∈ xs) (seq 0 (Datatypes.S (max_list xs))).

Lemma elem_of_sorted_set xs i : i ∈ sorted_set xs ↔ i ∈ xs.
Proof.
  unfold sorted_set. rewrite list_elem_of_filter, elem_of_seq. split; [naive_solver|].
  intros Hi. split; [done|]. pose proof (max_list_elem_of_le _ _ Hi). lia.
Qed.

Lemma NoDup_sorted_set xs : NoDup (sorted_set xs).
Proof. apply NoDup_filter, NoDup_seq. Qed.

Lemma sorted_set_ext xs ys :
  (∀ i, i ∈ xs ↔ i ∈ ys) → sorted_set xs = sorted_set ys.
Proof.
  intros Hext. unfold sorted_set.
  assert (∀ us vs : list nat, (∀ i, i ∈ us → i ∈ vs) →
    (max_list us <= max_list vs)%nat) as Hle.
  { intros us vs Hin. induction us as [|u us IH]; simpl; [lia|].
    pose proof (max_list_elem_of_le u vs (Hin u ltac:(set_solver))).
    pose proof (IH (λ i Hi, Hin i ltac:(set_solver))). lia. }
  assert (max_list xs = max_list ys) as ->.
  { apply Nat.le_antisymm; apply Hle; intros; by apply Hext. }
  apply list_filter_iff. done.
Qed.

Lemma filter_all {A} (P : A → Prop) `{!∀ x, Decision (P x)} (l : list A) :
  (∀ x, x ∈ l → P x) → filter P l = l.
Proof.
  induction l as [|x l IH]; intros HP; [done|].
  rewrite filter_cons, decide_True by (apply HP; set_solver).
  f_equal. apply IH. intros. apply HP. set_solver.
Qed.

Lemma filter_none {A} (P : A → Prop) `{!∀ x, Decision (P x)} (l : list A) :
  (∀ x, x ∈ l → ¬ P x) → filter P l = [].
Proof.
  induction l as [|x l IH]; intros HP; [done|].
  rewrite filter_cons, decide_False by (apply HP; set_solver).
  apply IH. intros. apply HP. set_solver.
Qed.

(** Removing a prefix of a list without repetition. *)
Lemma filter_app_prefix (new rest : list nat) :
  NoDup (new ++ rest) → filter (λ i, i ∉ new) (new ++ rest) = rest.
Proof.
  intros (_ & Hd & _)%NoDup_app. rewrite filter_app, filter_none, filter_all; [done| |].
  - intros i Hi Hn. by apply (Hd i).
  - intros i Hi Hn. done.
Qed.

(** ** Lists as deques *)

(** [deque.remove(x)]: the first occurrence, or [None] ([ValueError]). *)
Fixpoint remove_first (x : nat) (l : list nat) : option (list nat) :=
  match l with
  | [] => None
  | y :: l' =>
      if decide (y = x) then Some l' else (λ r, y :: r) <$> remove_first x l'
  end.

Lemma remove_first_elem x l : x ∈ l → ∃ l', remove_first x l = Some l'.
Proof.
  induction l as [|y l IH]; [set_solver|]. simpl. intros Hin.
  case_decide; [by eauto|]. destruct IH as [l' ->]; [set_solver|]. by eexists.
Qed.

Lemma remove_first_Permutation x l l' :
  remove_first x l = Some l' → l ≡ₚ x :: l'.
Proof.
  revert l'. induction l as [|y l IH]; intros l' H; simplify_eq/=.
  case_decide; simplify_eq; [done|].
  destruct (remove_first x l) as [r|]; simplify_eq/=.
  rewrite (IH r eq_refl). apply Permutation_swap.
Qed.

Lemma remove_first_filter i l l' :
  NoDup l → remove_first i l = Some l' → l' = filter (λ j, j ≠ i) l.
Proof.
  revert l'. induction l as [|j l IH]; intros l' Hnd H; simplify_eq/=.
  apply NoDup_cons in Hnd as [Hj Hnd]. rewrite filter_cons.
  case_decide as E; simplify_eq.
  - rewrite decide_False by tauto. symmetry. apply filter_all.
    intros j' Hj' ->. done.
  - destruct (remove_first i l) as [r|]; simplify_eq/=.
    rewrite decide_True by done. f_equal. by apply IH.
Qed.

Lemma remove_first_member i l :
  NoDup l → i ∈ l → remove_first i l = Some (filter (λ j, j ≠ i) l).
Proof.
  intros Hnd Hi. destruct (remove_first_elem i l Hi) as [l' E].
  by rewrite E, (remove_first_filter i l l').
Qed.
