(* ===== verification/SamplingParams.v ===== *)
(** * SamplingParams: per-request sampling parameters and their validation

    Models src/nanovllm/sampling_params.py.  The dataclass does not coerce its
    fields, so the raw record holds dynamic Python values ([pyval]);
    [SamplingParams.validate] is the cascade of checks of the source, in its
    order, and [typed] is the view the rest of the engine reads from a
    validated record.  A finite Python float is the rational it denotes: the
    checks only compare, so no rounding is involved. *)
From Stdlib Require Import QArith.
From S2P Require Import Prelude.
#[local] Open Scope Z_scope.

(** ** Dynamic Python values *)

Inductive pyfloat := Finite (q : Q) | PosInf | NegInf | NaN.

Inductive pyval :=
  | VInt (z : Z)
  | VBool (b : bool)
  | VFloat (f : pyfloat)
  | VStr (s : string)
  | VNone.

(** [isinstance(v, bool)]. *)
Definition is_bool (v : pyval) : bool := match v with VBool _ => true | _ => false end.
(** [isinstance(v, (int, float))]: in Python a bool is an int. *)
Definition is_int_or_float (v : pyval) : bool :=
  match v with VInt _ | VBool _ | VFloat _ => true | _ => false end.
(** [type(v) is int]: excludes bool. *)
Definition type_is_int (v : pyval) : bool := match v with VInt _ => true | _ => false end.
Definition type_is_bool (v : pyval) : bool := is_bool v.

(** The real number a numeric value denotes, [None] for a non-finite float. *)
Definition finite_value (v : pyval) : option Q :=
  match v with
  | VInt z => Some (inject_Z z)
  | VBool b => Some (if b then 1%Q else 0%Q)
  | VFloat (Finite q) => Some q
  | _ => None
  end.

Definition int_value (v : pyval) : Z :=
  match v with VInt z => z | VBool true => 1 | _ => 0 end.

Record SamplingParams := mk_SamplingParams {
  temperature : pyval;
  max_tokens : pyval;
  ignore_eos : pyval;
  top_k : pyval;
  top_p : pyval;
}.

(** The dataclass defaults. *)
Definition default_SamplingParams : SamplingParams :=
  mk_SamplingParams (VFloat (Finite 1%Q)) (VInt 64) (VBool false) (VInt (-1))
    (VFloat (Finite 1%Q)).

Definition Qlt_bool (p q : Q) : bool := Qle_bool p q && negb (Qeq_bool p q).

(** A finite-float test: [not isfinite(v)] raises [ValueError]. *)
Definition require_finite (name : string) (v : pyval) : outcome Q :=
  match finite_value v with
  | Some q => Ok q
  | None => Raise (ValueError (name +:+ " must be finite"))
  end.

Definition validate (p : SamplingParams) : outcome unit :=
  oraise_if (is_bool (temperature p) || negb (is_int_or_float (temperature p)))
    (TypeError "temperature must be a number") ;?
  let? t := require_finite "temperature" (temperature p) in
  oraise_if (Qlt_bool t 0%Q) (ValueError "temperature must be non-negative") ;?
  oraise_if (negb (type_is_int (top_k p))) (TypeError "top_k must be an integer") ;?
  oraise_if (negb (int_value (top_k p) =? -1) && (int_value (top_k p) <? 1))
    (ValueError "top_k must be -1 (disabled) or >= 1") ;?
  oraise_if (is_bool (top_p p) || negb (is_int_or_float (top_p p)))
    (TypeError "top_p must be a number") ;?
  let? q := require_finite "top_p" (top_p p) in
  oraise_if (negb (Qlt_bool 0%Q q && Qle_bool q 1%Q))
    (ValueError "top_p must be in (0, 1]") ;?
  oraise_if (negb (type_is_int (max_tokens p))) (TypeError "max_tokens must be an integer") ;?
  oraise_if (int_value (max_tokens p) <? 1) (ValueError "max_tokens must be >= 1") ;?
  oraise_if (negb (type_is_bool (ignore_eos p))) (TypeError "ignore_eos must be a bool").

(** ** The typed view of validated parameters *)

Record sampling := mk_sampling {
  sp_temperature : Q;
  sp_max_tokens : Z;
  sp_ignore_eos : bool;
  sp_top_k : Z;
  sp_top_p : Q;
}.

(** A plain number: an int that is not a bool, or a finite float. *)
Definition number_of (v : pyval) : option Q :=
  match v with VInt _ | VFloat _ => finite_value v | _ => None end.

Definition typed (p : SamplingParams) : option sampling :=
  match number_of (temperature p), max_tokens p, ignore_eos p, top_k p,
        number_of (top_p p) with
  | Some t, VInt m, VBool e, VInt k, Some q => Some (mk_sampling t m e k q)
  | _, _, _, _, _ => None
  end.

(** The documented ranges. *)
Definition sampling_ok (s : sampling) : Prop :=
  (0 <= sp_temperature s)%Q ∧ 1 <= sp_max_tokens s ∧
  (sp_top_k s = -1 ∨ 1 <= sp_top_k s) ∧
  (0 < sp_top_p s)%Q ∧ (sp_top_p s <= 1)%Q.

(** ** Properties *)

Lemma Qlt_bool_spec p q : Qlt_bool p q = true ↔ (p < q)%Q.
Proof.
  unfold Qlt_bool. rewrite andb_true_iff, negb_true_iff, Qle_bool_iff.
  rewrite <-not_true_iff_false, Qeq_bool_iff. split.
  - intros [Hle Hne]. apply Qle_lteq in Hle as [|]; [done|contradiction].
  - intros Hlt. split; [by apply Qlt_le_weak|].
    intros Heq. rewrite Heq in Hlt. by apply Qlt_irrefl in Hlt.
Qed.

Lemma number_check name v q :
  (is_bool v || negb (is_int_or_float v) = false ∧ require_finite name v = Ok q)
  ↔ number_of v = Some q.
Proof. destruct v as [z|b|[]|s|]; unfold require_finite; simpl; naive_solver. Qed.

Lemma type_is_int_value v : type_is_int v = true ↔ v = VInt (int_value v).
Proof. destruct v; naive_solver. Qed.

Lemma Qlt_bool_false p q : Qlt_bool p q = false ↔ (q <= p)%Q.
Proof.
  rewrite <-not_true_iff_false, Qlt_bool_spec. split; [apply Qnot_lt_le|].
  apply Qle_not_lt.
Qed.

(** [validate] accepts exactly the records whose typed view exists (numbers
    that are neither bools nor non-finite, an int for [top_k] and [max_tokens], a
    bool for [ignore_eos]) and lies in the documented ranges. *)
Lemma validate_ok_iff p :
  validate p = Ok tt ↔ ∃ s, typed p = Some s ∧ sampling_ok s.
Proof.
  destruct p as [t m e k q]. unfold validate, typed, sampling_ok; simpl.
  repeat (setoid_rewrite obind_unit_ok || setoid_rewrite obind_ok).
  setoid_rewrite oraise_if_ok. split.
  - intros (Ht & tq & Htq & Ht0 & Hk & Hk1 & Hq & qq & Hqq & Hq01 & Hm & Hm1 & He).
    rewrite (proj1 (number_check _ _ _) (conj Ht Htq)).
    rewrite (proj1 (number_check _ _ _) (conj Hq Hqq)).
    apply negb_false_iff, andb_true_iff in Hq01 as [Hq0 Hq1].
    destruct m as [mz| | | |]; try done. destruct k as [kz| | | |]; try done.
    destruct e as [|eb| | |]; try done. eexists. split; [done|]. simpl in *.
    apply Qlt_bool_false in Ht0. apply Qlt_bool_spec in Hq0. apply Qle_bool_iff in Hq1.
    repeat split; try done; lia.
  - intros (s & Hs & Ht & Hm & Hk & Hq0 & Hq1).
    destruct (number_of t) as [tq|] eqn:Et; [|done].
    destruct m as [mz| | | |]; try done. destruct e as [|eb| | |]; try done.
    destruct k as [kz| | | |]; try done.
    destruct (number_of q) as [qq|] eqn:Eq; [|done]. simplify_eq/=.
    apply (number_check "temperature") in Et as [-> Et].
    apply (number_check "top_p") in Eq as [-> Eq].
    apply Qlt_bool_false in Ht. apply Qlt_bool_spec in Hq0. apply Qle_bool_iff in Hq1.
    assert (negb (kz =? -1) && (kz <? 1) = false) as Hkz.
    { destruct Hk as [->|]; [done|]. rewrite andb_false_iff. right. lia. }
    split; [done|]. exists tq. do 3 (split; [done|]). do 2 (split; [done|]).
    exists qq. rewrite Hq0, Hq1. repeat split; first [done | lia].
Qed.
