(* ===== verification/Sequence.v ===== *)
(** * Sequence: one request's tokens, coverage counters and block table

    Models src/nanovllm/engine/sequence.py.  A [sequence] is the mutable object
    of the source as a record; the methods that mutate it are functions from
    record to record, applied to the object store by the components that hold
    references.  [Sequence.block_size] is a class attribute, so it is an
    argument here.  Clock readings are integers (ticks). *)
From S2P Require Import Prelude SamplingParams.

Inductive SequenceStatus := WAITING | RUNNING | FINISHED | CANCELLED.

#[export] Instance SequenceStatus_eq_dec : EqDecision SequenceStatus.
Proof. solve_decision. Defined.

Record StreamOutput := mk_StreamOutput {
  so_seq_id : nat;
  so_token_id : Z;
  so_finished : bool;
}.

(** The request-metric timestamps of a sequence. *)
Record timing := mk_timing {
  submission_time : Z;
  engine_arrival_time : Z;
  first_scheduled_time : option Z;
  first_token_time : option Z;
  finish_time : option Z;
  first_delivery_time : option Z;
  delivery_time : option Z;
  token_times : list Z;
}.

(** The counters of [spec_metrics], in the order of [SPEC_METRIC_KEYS]. *)
Record spec_counters := mk_spec_counters {
  spec_cycles : Z;
  spec_proposed_draft_tokens : Z;
  spec_accepted_draft_tokens : Z;
  spec_committed_tokens : Z;
  spec_bonus_tokens : Z;
  spec_draft_positions : Z;
  spec_target_verification_positions : Z;
  spec_residual_numerical_fallbacks : Z;
}.

Definition spec_counters_zero : spec_counters := mk_spec_counters 0 0 0 0 0 0 0 0.

Definition spec_counters_add (a b : spec_counters) : spec_counters :=
  mk_spec_counters
    (spec_cycles a + spec_cycles b)
    (spec_proposed_draft_tokens a + spec_proposed_draft_tokens b)
    (spec_accepted_draft_tokens a + spec_accepted_draft_tokens b)
    (spec_committed_tokens a + spec_committed_tokens b)
    (spec_bonus_tokens a + spec_bonus_tokens b)
    (spec_draft_positions a + spec_draft_positions b)
    (spec_target_verification_positions a + spec_target_verification_positions b)
    (spec_residual_numerical_fallbacks a + spec_residual_numerical_fallbacks b).

Record sequence := mk_sequence {
  seq_id : nat;
  status : SequenceStatus;
  token_ids : list Z;
  last_token : Z;
  num_tokens : Z;
  num_prompt_tokens : Z;
  num_cached_tokens : Z;
  num_draft_cached_tokens : Z;
  num_scheduled_tokens : Z;
  is_prefill : bool;
  block_table : list nat;
  params : sampling;
  times : timing;
  (** the [spec_metrics] attribute, which [Scheduler.add] may create *)
  spec_metrics : option spec_counters;
}.

(** ** Attribute assignments *)

Definition set_status v s := mk_sequence (seq_id s) v (token_ids s) (last_token s)
  (num_tokens s) (num_prompt_tokens s) (num_cached_tokens s)
  (num_draft_cached_tokens s) (num_scheduled_tokens s) (is_prefill s)
  (block_table s) (params s) (times s) (spec_metrics s).
Definition set_num_cached_tokens v s := mk_sequence (seq_id s) (status s)
  (token_ids s) (last_token s) (num_tokens s) (num_prompt_tokens s) v
  (num_draft_cached_tokens s) (num_scheduled_tokens s) (is_prefill s)
  (block_table s) (params s) (times s) (spec_metrics s).
Definition set_num_draft_cached_tokens v s := mk_sequence (seq_id s) (status s)
  (token_ids s) (last_token s) (num_tokens s) (num_prompt_tokens s)
  (num_cached_tokens s) v (num_scheduled_tokens s) (is_prefill s)
  (block_table s) (params s) (times s) (spec_metrics s).
Definition set_num_scheduled_tokens v s := mk_sequence (seq_id s) (status s)
  (token_ids s) (last_token s) (num_tokens s) (num_prompt_tokens s)
  (num_cached_tokens s) (num_draft_cached_tokens s) v (is_prefill s)
  (block_table s) (params s) (times s) (spec_metrics s).
Definition set_is_prefill v s := mk_sequence (seq_id s) (status s)
  (token_ids s) (last_token s) (num_tokens s) (num_prompt_tokens s)
  (num_cached_tokens s) (num_draft_cached_tokens s) (num_scheduled_tokens s) v
  (block_table s) (params s) (times s) (spec_metrics s).
Definition set_block_table v s := mk_sequence (seq_id s) (status s)
  (token_ids s) (last_token s) (num_tokens s) (num_prompt_tokens s)
  (num_cached_tokens s) (num_draft_cached_tokens s) (num_scheduled_tokens s)
  (is_prefill s) v (params s) (times s) (spec_metrics s).
Definition set_times v s := mk_sequence (seq_id s) (status s)
  (token_ids s) (last_token s) (num_tokens s) (num_prompt_tokens s)
  (num_cached_tokens s) (num_draft_cached_tokens s) (num_scheduled_tokens s)
  (is_prefill s) (block_table s) (params s) v (spec_metrics s).
Definition set_spec_metrics v s := mk_sequence (seq_id s) (status s)
  (token_ids s) (last_token s) (num_tokens s) (num_prompt_tokens s)
  (num_cached_tokens s) (num_draft_cached_tokens s) (num_scheduled_tokens s)
  (is_prefill s) (block_table s) (params s) (times s) v.

Definition set_first_scheduled_time v t := mk_timing (submission_time t)
  (engine_arrival_time t) v (first_token_time t) (finish_time t)
  (first_delivery_time t) (delivery_time t) (token_times t).
Definition set_first_token_time v t := mk_timing (submission_time t)
  (engine_arrival_time t) (first_scheduled_time t) v (finish_time t)
  (first_delivery_time t) (delivery_time t) (token_times t).
Definition set_finish_time v t := mk_timing (submission_time t)
  (engine_arrival_time t) (first_scheduled_time t) (first_token_time t) v
  (first_delivery_time t) (delivery_time t) (token_times t).
Definition set_token_times v t := mk_timing (submission_time t)
  (engine_arrival_time t) (first_scheduled_time t) (first_token_time t)
  (finish_time t) (first_delivery_time t) (delivery_time t) v.

(** ** Construction and methods *)

(** [Sequence.__init__]; [id] is [next(Sequence.counter)] and [now] the clock
    reading used for the timestamps the caller leaves out. *)
Definition Sequence_init (id : nat) (toks : list Z) (p : sampling)
    (submission arrival : option Z) (now : Z) : outcome sequence :=
  match last toks with
  | None => Raise (ValueError "prompt must contain at least one token")
  | Some lt =>
      Ok (mk_sequence id WAITING toks lt
        (Z.of_nat (length toks)) (Z.of_nat (length toks))
        0 0 0 true [] p
        (mk_timing (default now submission) (default now arrival)
           None None None None None [])
        None)
  end.

Definition is_finished (s : sequence) : bool := bool_decide (status s = FINISHED).

Definition num_completion_tokens (s : sequence) : Z :=
  num_tokens s - num_prompt_tokens s.

Definition prompt_token_ids (s : sequence) : list Z :=
  take (Z.to_nat (num_prompt_tokens s)) (token_ids s).

Definition completion_token_ids (s : sequence) : list Z :=
  drop (Z.to_nat (num_prompt_tokens s)) (token_ids s).

Definition num_blocks (bs : Z) (s : sequence) : Z := (num_tokens s + bs - 1) `div` bs.

Definition last_block_num_tokens (bs : Z) (s : sequence) : Z :=
  num_tokens s - (num_blocks bs s - 1) * bs.

Definition seq_block (bs : Z) (s : sequence) (i : Z) : outcome (list Z) :=
  oraise_if (negb ((0 <=? i) && (i <? num_blocks bs s))) AssertionError ;?
  Ok (slice (token_ids s) (i * bs) ((i + 1) * bs)).

Definition append_token (tok : Z) (s : sequence) : sequence :=
  mk_sequence (seq_id s) (status s) (token_ids s ++ [tok]) tok
    (num_tokens s + 1) (num_prompt_tokens s) (num_cached_tokens s)
    (num_draft_cached_tokens s) (num_scheduled_tokens s) (is_prefill s)
    (block_table s) (params s) (times s) (spec_metrics s).

(** ** The representation invariant *)

Record seq_wf (s : sequence) : Prop := {
  swf_len : num_tokens s = Z.of_nat (length (token_ids s));
  swf_prompt : 1 <= num_prompt_tokens s <= num_tokens s;
  swf_last : last (token_ids s) = Some (last_token s);
}.

Lemma Sequence_init_wf id toks p sub arr now s :
  Sequence_init id toks p sub arr now = Ok s → seq_wf s ∧ block_table s = [].
Proof.
  unfold Sequence_init. destruct (last toks) as [lt|] eqn:E; [|done].
  intros ?; simplify_eq. split; [|done]. split; simpl; [done| |done].
  destruct toks; simpl in *; [done|lia].
Qed.

Lemma append_token_wf tok s : seq_wf s → seq_wf (append_token tok s).
Proof.
  intros [Hl Hp Hlast]. split; simpl.
  - rewrite length_app. simpl. lia.
  - lia.
  - by rewrite last_snoc.
Qed.

(** [append_token] extends the completion by exactly the new token and leaves
    the prompt alone. *)
Lemma append_token_tokens tok s :
  seq_wf s →
  prompt_token_ids (append_token tok s) = prompt_token_ids s ∧
  completion_token_ids (append_token tok s) = completion_token_ids s ++ [tok] ∧
  num_completion_tokens (append_token tok s) = num_completion_tokens s + 1.
Proof.
  intros [Hl Hp _]. unfold prompt_token_ids, completion_token_ids, num_completion_tokens.
  simpl. split; [by rewrite take_app_le by lia|]. split; [by rewrite drop_app_le by lia|lia].
Qed.

(** The blocks of a sequence tile its tokens: every block but the last is full,
    the last one holds [last_block_num_tokens] tokens. *)
Lemma seq_block_length bs s i b :
  0 < bs → seq_wf s → seq_block bs s i = Ok b →
  Z.of_nat (length b) =
    if i =? num_blocks bs s - 1 then last_block_num_tokens bs s else bs.
Proof.
  intros Hbs [Hl Hp _]. unfold seq_block.
  rewrite obind_unit_ok, oraise_if_ok, negb_false_iff, andb_true_iff.
  intros [[H0 H1] ?]; simplify_eq. apply Z.leb_le in H0. apply Z.ltb_lt in H1.
  pose proof (ceil_div_spec (num_tokens s) bs Hbs) as Hc.
  unfold last_block_num_tokens, num_blocks in *. unfold ceil_div in Hc.
  set (n := (num_tokens s + bs - 1) `div` bs) in *.
  unfold slice. rewrite length_take, length_drop.
  destruct (i =? n - 1) eqn:Ei.
  - assert (i = n - 1) as -> by lia. nia.
  - assert (i + 1 <= n - 1) by lia. nia.
Qed.

(** A block that lies inside the old tokens is unchanged by an append. *)
Lemma seq_block_append bs s tok i :
  0 < bs → seq_wf s → 0 <= i → (i + 1) * bs <= num_tokens s →
  seq_block bs (append_token tok s) i = seq_block bs s i.
Proof.
  intros Hbs [Hl Hp _] Hi Hfull. unfold seq_block, num_blocks. simpl.
  assert (i + 1 <= (num_tokens s + bs - 1) `div` bs)
    by (apply Z.div_le_lower_bound; lia).
  assert (i + 1 <= (num_tokens s + 1 + bs - 1) `div` bs)
    by (apply Z.div_le_lower_bound; lia).
  rewrite !(proj2 (Z.leb_le _ _)), !(proj2 (Z.ltb_lt _ _)) by lia. simpl.
  rewrite slice_app by lia. done.
Qed.
