(* ===== verification/Heap.v ===== *)
(** * Heap: the block allocator's state and the sequence store

    The data of src/nanovllm/engine/block_manager.py: [block] (class Block),
    the snapshot records of a temporary reservation, and [block_manager] (the
    attributes of class BlockManager).  Block-manager methods mutate the
    [Sequence] objects they receive, which the scheduler's queues and the
    reservation rows alias: a Sequence is therefore a reference (its [seq_id],
    unique by construction) into the store [hp_seqs], and a [heap] is the
    manager together with that store. *)
From S2P Require Import Prelude SamplingParams Sequence.

(** ** Blocks *)

Record block := mk_block {
  b_block_id : nat;
  b_ref_count : Z;
  b_hash : Z;
  b_token_ids : list Z;
}.

Definition Block_init (i : nat) : block := mk_block i 0 (-1) [].
Definition Block_update (h : Z) (toks : list Z) (b : block) : block :=
  mk_block (b_block_id b) (b_ref_count b) h toks.
Definition Block_reset (b : block) : block := mk_block (b_block_id b) 1 (-1) [].
Definition set_ref_count (r : Z) (b : block) : block :=
  mk_block (b_block_id b) r (b_hash b) (b_token_ids b).

(** ** Reservation records *)

Record _TemporaryBlockState := mk_block_state {
  bst_block_id : nat;
  bst_ref_count : Z;
  bst_hash : Z;
  bst_token_ids : list Z;
}.

Record _TemporaryReservationRow := mk_row {
  row_sequence : nat;
  row_block_table_before : list nat;
  row_appended_block_ids : list nat;
  row_num_cached_tokens_before : Z;
  row_num_draft_cached_tokens_before : Z;
}.

Record _TemporaryReservationRowSpec := mk_row_spec {
  spec_sequence : nat;
  spec_block_table_before : list nat;
  spec_new_blocks : Z;
  spec_num_cached_tokens_before : Z;
  spec_num_draft_cached_tokens_before : Z;
}.

(** [rv_object] is the identity of the Python object: [is] compares it, and
    [dataclasses.replace] makes a record with a new one.  The field
    [hash_to_block_id_before] of the source is the sorted tuple of a dict's
    items, from which a dict is rebuilt; it is kept as the map itself. *)
Record TemporaryBlockReservation := mk_reservation {
  rv_object : nat;
  rv_reservation_id : nat;
  rv_rows : list _TemporaryReservationRow;
  rv_allocation_order : list nat;
  rv_free_block_ids_before : list nat;
  rv_used_block_ids_before : gset nat;
  rv_hash_to_block_id_before : gmap Z nat;
  rv_block_states_before : list _TemporaryBlockState;
}.

(** ** The manager *)

Record block_manager := mk_block_manager {
  block_size : Z;
  blocks : list block;
  hash_to_block_id : gmap Z nat;
  free_block_ids : list nat;
  used_block_ids : gset nat;
  (** the next value of [_temporary_reservation_ids], and the next fresh
      object identity *)
  _temporary_reservation_ids : nat;
  next_object : nat;
  _active_temporary_reservations : gmap nat TemporaryBlockReservation;
  _temporary_reservation_by_seq_id : gmap nat nat;
  _temporary_reservation_in_progress : bool;
  _temporary_internal_allocation : bool;
}.

Definition BlockManager_init (num_blocks : nat) (bs : Z) : block_manager :=
  mk_block_manager bs (Block_init <$> seq 0 num_blocks) ∅ (seq 0 num_blocks) ∅
    0 0 ∅ ∅ false false.

Section setters.
Implicit Types m : block_manager.
Definition set_blocks v m := mk_block_manager (block_size m) v
  (hash_to_block_id m) (free_block_ids m) (used_block_ids m)
  (_temporary_reservation_ids m) (next_object m)
  (_active_temporary_reservations m) (_temporary_reservation_by_seq_id m)
  (_temporary_reservation_in_progress m) (_temporary_internal_allocation m).
Definition set_hash_to_block_id v m := mk_block_manager (block_size m) (blocks m)
  v (free_block_ids m) (used_block_ids m)
  (_temporary_reservation_ids m) (next_object m)
  (_active_temporary_reservations m) (_temporary_reservation_by_seq_id m)
  (_temporary_reservation_in_progress m) (_temporary_internal_allocation m).
Definition set_free_block_ids v m := mk_block_manager (block_size m) (blocks m)
  (hash_to_block_id m) v (used_block_ids m)
  (_temporary_reservation_ids m) (next_object m)
  (_active_temporary_reservations m) (_temporary_reservation_by_seq_id m)
  (_temporary_reservation_in_progress m) (_temporary_internal_allocation m).
Definition set_used_block_ids v m := mk_block_manager (block_size m) (blocks m)
  (hash_to_block_id m) (free_block_ids m) v
  (_temporary_reservation_ids m) (next_object m)
  (_active_temporary_reservations m) (_temporary_reservation_by_seq_id m)
  (_temporary_reservation_in_progress m) (_temporary_internal_allocation m).
Definition set_reservation_ids v m := mk_block_manager (block_size m) (blocks m)
  (hash_to_block_id m) (free_block_ids m) (used_block_ids m)
  v (next_object m)
  (_active_temporary_reservations m) (_temporary_reservation_by_seq_id m)
  (_temporary_reservation_in_progress m) (_temporary_internal_allocation m).
Definition set_next_object v m := mk_block_manager (block_size m) (blocks m)
  (hash_to_block_id m) (free_block_ids m) (used_block_ids m)
  (_temporary_reservation_ids m) v
  (_active_temporary_reservations m) (_temporary_reservation_by_seq_id m)
  (_temporary_reservation_in_progress m) (_temporary_internal_allocation m).
Definition set_active v m := mk_block_manager (block_size m) (blocks m)
  (hash_to_block_id m) (free_block_ids m) (used_block_ids m)
  (_temporary_reservation_ids m) (next_object m)
  v (_temporary_reservation_by_seq_id m)
  (_temporary_reservation_in_progress m) (_temporary_internal_allocation m).
Definition set_by_seq_id v m := mk_block_manager (block_size m) (blocks m)
  (hash_to_block_id m) (free_block_ids m) (used_block_ids m)
  (_temporary_reservation_ids m) (next_object m)
  (_active_temporary_reservations m) v
  (_temporary_reservation_in_progress m) (_temporary_internal_allocation m).
Definition set_in_progress v m := mk_block_manager (block_size m) (blocks m)
  (hash_to_block_id m) (free_block_ids m) (used_block_ids m)
  (_temporary_reservation_ids m) (next_object m)
  (_active_temporary_reservations m) (_temporary_reservation_by_seq_id m)
  v (_temporary_internal_allocation m).
Definition set_internal v m := mk_block_manager (block_size m) (blocks m)
  (hash_to_block_id m) (free_block_ids m) (used_block_ids m)
  (_temporary_reservation_ids m) (next_object m)
  (_active_temporary_reservations m) (_temporary_reservation_by_seq_id m)
  (_temporary_reservation_in_progress m) v.
End setters.

(** ** The heap and its accessors *)

Record heap := mk_heap {
  hp_bm : block_manager;
  hp_seqs : gmap nat sequence;
  (** the class attribute [Sequence.block_size] *)
  hp_seq_block_size : Z;
}.

Definition set_bm (f : block_manager → block_manager) (h : heap) : heap :=
  mk_heap (f (hp_bm h)) (hp_seqs h) (hp_seq_block_size h).
Definition set_seqs (f : gmap nat sequence → gmap nat sequence) (h : heap) : heap :=
  mk_heap (hp_bm h) (f (hp_seqs h)) (hp_seq_block_size h).

Definition MH (A : Type) : Type := M heap A.

Definition get_bm : MH block_manager := gets hp_bm.
Definition upd_bm (f : block_manager → block_manager) : MH unit := modify (set_bm f).

Definition get_seq (k : nat) : MH sequence := inspect (λ h,
  match hp_seqs h !! k with Some s => Ok s | None => Raise Dangling end).
Definition upd_seq (k : nat) (f : sequence → sequence) : MH unit :=
  modify (set_seqs (alter f k)).

(** [self.blocks[i]], and an attribute assignment on that object. *)
Definition get_block (i : nat) : MH block := inspect (λ h,
  match blocks (hp_bm h) !! i with Some b => Ok b | None => Raise IndexError end).
Definition alter_block (i : nat) (f : block → block) : heap → heap :=
  set_bm (λ m, set_blocks (alter f i (blocks m)) m).
Definition upd_block (i : nat) (f : block → block) : MH unit :=
  get_block i ;;; modify (alter_block i f).

(** [seq.block_table.append(i)]. *)
Definition push_block (k : nat) (i : nat) : MH unit :=
  upd_seq k (λ s, set_block_table (block_table s ++ [i]) s).

Lemma heap_ext h h' :
  block_size (hp_bm h) = block_size (hp_bm h') →
  blocks (hp_bm h) = blocks (hp_bm h') →
  hash_to_block_id (hp_bm h) = hash_to_block_id (hp_bm h') →
  free_block_ids (hp_bm h) = free_block_ids (hp_bm h') →
  used_block_ids (hp_bm h) = used_block_ids (hp_bm h') →
  _temporary_reservation_ids (hp_bm h) = _temporary_reservation_ids (hp_bm h') →
  next_object (hp_bm h) = next_object (hp_bm h') →
  _active_temporary_reservations (hp_bm h) = _active_temporary_reservations (hp_bm h') →
  _temporary_reservation_by_seq_id (hp_bm h) = _temporary_reservation_by_seq_id (hp_bm h') →
  _temporary_reservation_in_progress (hp_bm h) = _temporary_reservation_in_progress (hp_bm h') →
  _temporary_internal_allocation (hp_bm h) = _temporary_internal_allocation (hp_bm h') →
  hp_seqs h = hp_seqs h' → hp_seq_block_size h = hp_seq_block_size h' → h = h'.
Proof. destruct h as [[]], h' as [[]]; simpl. congruence. Qed.
