(* ===== verification/BlockManager.v ===== *)
(** * BlockManager: the operations of the paged KV-cache allocator

    Models every method of class BlockManager in
    src/nanovllm/engine/block_manager.py.  Each method is one definition with
    the source's name, in the monad [MH] over the [heap]: its guards, its early
    returns and its [try]/[except]/[finally] blocks are the source's, in the
    source's order.  Type tests ([isinstance], [type(x) is int]) are decided by
    the Rocq types of the arguments and do not appear.  The content hash comes
    from a third-party package and is the parameter [compute_hash]. *)
From S2P Require Import Prelude SamplingParams Sequence Heap.

Section block_manager.
(** [BlockManager.compute_hash(token_ids, prefix)]: xxh64 over the little
    endian prefix (absent when it is -1) and the token bytes. *)
Variable compute_hash : list Z → Z → Z.

(** ** The fence *)

Definition _active_temporary_reservation : MH (option TemporaryBlockReservation) :=
  let* m := get_bm in
  raise_if (bool_decide (1 < size (_active_temporary_reservations m))%nat)
    (RuntimeError "multiple temporary reservations are active") ;;;
  ret (snd <$> head (map_to_list (_active_temporary_reservations m))).

Definition _assert_allocator_mutation_allowed (allow_internal_allocation : bool)
    : MH unit :=
  let* active := _active_temporary_reservation in
  let* m := get_bm in
  let internal :=
    allow_internal_allocation && _temporary_reservation_in_progress m
    && _temporary_internal_allocation m && bool_decide (active = None) in
  raise_if
    ((negb (bool_decide (active = None)) || _temporary_reservation_in_progress m)
     && negb internal)
    (RuntimeError "cannot mutate while a temporary reservation is active").

(** ** Single blocks *)

Definition _allocate_block : MH nat :=
  _assert_allocator_mutation_allowed true ;;;
  let* m := get_bm in
  match free_block_ids m with
  | [] => raise IndexError
  | block_id :: rest =>
      upd_bm (set_free_block_ids rest) ;;;
      let* b := get_block block_id in
      assert (b_ref_count b =? 0) ;;;
      when (negb (b_hash b =? -1) &&
            bool_decide (hash_to_block_id m !! b_hash b = Some block_id))
        (upd_bm (λ m, set_hash_to_block_id (delete (b_hash b) (hash_to_block_id m)) m)) ;;;
      upd_block block_id Block_reset ;;;
      upd_bm (λ m, set_used_block_ids ({[block_id]} ∪ used_block_ids m) m) ;;;
      ret block_id
  end.

Definition _deallocate_block (block_id : nat) : MH unit :=
  _assert_allocator_mutation_allowed false ;;;
  let* b := get_block block_id in
  assert (b_ref_count b =? 0) ;;;
  let* m := get_bm in
  raise_if (negb (bool_decide (block_id ∈ used_block_ids m))) KeyError ;;;
  upd_bm (λ m, set_used_block_ids (used_block_ids m ∖ {[block_id]}) m) ;;;
  upd_bm (λ m, set_free_block_ids (free_block_ids m ++ [block_id]) m).

(** The lookup of one full prompt block in the prefix cache:
    [hash_to_block_id.get(h, -1)] and the token comparison; [None] is the
    miss that breaks the loop of the callers. *)
Definition cached_block (m : block_manager) (h : Z) (toks : list Z) : option nat :=
  match hash_to_block_id m !! h with
  | None => None
  | Some i =>
      match blocks m !! i with
      | Some b => if bool_decide (b_token_ids b = toks) then Some i else None
      | None => None
      end
  end.

(** ** Admission *)

Fixpoint can_allocate_loop (bs : Z) (m : block_manager) (s : sequence)
    (idx : list Z) (h cached new : Z) : outcome (Z * Z) :=
  match idx with
  | [] => Ok (cached, new)
  | i :: idx' =>
      let? toks := seq_block bs s i in
      let h' := compute_hash toks h in
      match cached_block m h' toks with
      | None => Ok (cached, new)
      | Some b =>
          can_allocate_loop bs m s idx' h' (cached + 1)
            (if bool_decide (b ∈ used_block_ids m) then new - 1 else new)
      end
  end.

Definition can_allocate (k : nat) : MH Z :=
  let* s := get_seq k in
  inspect (λ h,
    let bs := hp_seq_block_size h in
    let m := hp_bm h in
    let? (cached, new) :=
      can_allocate_loop bs m s (py_range 0 (num_blocks bs s - 1)) (-1) 0
        (num_blocks bs s) in
    if Z.of_nat (length (free_block_ids m)) <? new then Ok (-1) else Ok cached).

(** Take one more reference on a cached block, reviving it when it is free. *)
Definition pin_block (block_id : nat) : MH unit :=
  let* m := get_bm in
  if bool_decide (block_id ∈ used_block_ids m) then
    upd_block block_id (λ b, set_ref_count (b_ref_count b + 1) b)
  else
    upd_block block_id (set_ref_count 1) ;;;
    match remove_first block_id (free_block_ids m) with
    | None => raise (ValueError "deque.remove(x): x not in deque")
    | Some rest =>
        upd_bm (set_free_block_ids rest) ;;;
        upd_bm (λ m, set_used_block_ids ({[block_id]} ∪ used_block_ids m) m)
    end.

Definition allocate (k : nat) (num_cached_blocks : Z) : MH unit :=
  _assert_allocator_mutation_allowed false ;;;
  let* s := get_seq k in
  assert (bool_decide (block_table s = [])) ;;;
  let* bs := gets hp_seq_block_size in
  for_fold (λ h i,
    let* toks := lift (seq_block bs s i) in
    let h' := compute_hash toks h in
    let* m := get_bm in
    match hash_to_block_id m !! h' with
    | None => raise KeyError
    | Some block_id => pin_block block_id ;;; push_block k block_id ;;; ret h'
    end) (-1) (py_range 0 num_cached_blocks) ;;;
  for_each (λ _, let* i := _allocate_block in push_block k i)
    (py_range num_cached_blocks (num_blocks bs s)) ;;;
  let* m := get_bm in
  upd_seq k (set_num_cached_tokens (num_cached_blocks * block_size m)) ;;;
  upd_seq k (set_num_draft_cached_tokens 0).

(** ** Snapshots *)

Definition _snapshot_block_states (m : block_manager) (ids : list nat)
    : outcome (list _TemporaryBlockState) :=
  omap_all (λ i, match blocks m !! i with
                 | Some b => Ok (mk_block_state i (b_ref_count b) (b_hash b) (b_token_ids b))
                 | None => Raise IndexError
                 end) (sorted_set ids).

Definition restore_block_state (st : _TemporaryBlockState) (b : block) : block :=
  mk_block (b_block_id b) (bst_ref_count st) (bst_hash st) (bst_token_ids st).

Definition restore_block_states (sts : list _TemporaryBlockState) (bl : list block)
    : list block :=
  foldl (λ bl st, alter (restore_block_state st) (bst_block_id st) bl) bl sts.

(** The handler of [allocate_incremental] and [extend]: put the table, the
    coverage counters and the allocator back. *)
Definition restore_allocation (k : nat) (table : list nat) (cached draft : Z)
    (sts : list _TemporaryBlockState) (free : list nat) (used : gset nat)
    (hashes : gmap Z nat) (h : heap) : heap :=
  set_bm (λ m, set_hash_to_block_id hashes (set_used_block_ids used
            (set_free_block_ids free
              (set_blocks (restore_block_states sts (blocks m)) m))))
    (set_seqs (alter (λ s, set_num_draft_cached_tokens draft
                (set_num_cached_tokens cached (set_block_table table s))) k) h).

(** ** Incremental allocation *)

Fixpoint reusable_prefix (bs : Z) (m : block_manager) (s : sequence)
    (idx : list Z) (h : Z) : outcome (list nat) :=
  match idx with
  | [] => Ok []
  | i :: idx' =>
      let? toks := seq_block bs s i in
      let h' := compute_hash toks h in
      match cached_block m h' toks with
      | None => Raise (RuntimeError "reusable prefix changed after admission")
      | Some b => let? bs' := reusable_prefix bs m s idx' h' in Ok (b :: bs')
      end
  end.

(** The [try] body: pin the cached prefix, then take fresh blocks. *)
Definition attach_blocks (k : nat) (cached_ids : list nat)
    (num_cached_blocks required_blocks : Z) : MH unit :=
  for_each (λ i, pin_block i ;;; push_block k i) cached_ids ;;;
  for_each (λ _, let* i := _allocate_block in push_block k i)
    (py_range num_cached_blocks required_blocks) ;;;
  let* m := get_bm in
  upd_seq k (set_num_cached_tokens (num_cached_blocks * block_size m)) ;;;
  upd_seq k (set_num_draft_cached_tokens 0).

Definition allocate_incremental (k : nat) (num_cached_blocks through_tokens : Z)
    : MH bool :=
  _assert_allocator_mutation_allowed false ;;;
  let* s := get_seq k in
  let* bs := gets hp_seq_block_size in
  raise_if (negb (bool_decide (block_table s = [])))
    (ValueError "incremental allocation requires an empty block table") ;;;
  raise_if (negb ((0 <=? num_cached_blocks) && (num_cached_blocks <? num_blocks bs s)))
    (ValueError "num_cached_blocks is outside the reusable prefix") ;;;
  raise_if (negb ((1 <=? through_tokens) && (through_tokens <=? num_tokens s)))
    (ValueError "through_tokens must be within the sequence") ;;;
  let* m := get_bm in
  let required_blocks := (through_tokens + block_size m - 1) `div` block_size m in
  raise_if (required_blocks <=? num_cached_blocks)
    (ValueError "scheduled coverage must extend beyond the cached prefix") ;;;
  let* cached_ids := lift (reusable_prefix bs m s (py_range 0 num_cached_blocks) (-1)) in
  let free_needed := required_blocks - num_cached_blocks +
    Z.of_nat (length (filter (λ i, i ∉ used_block_ids m) cached_ids)) in
  if Z.of_nat (length (free_block_ids m)) <? free_needed then ret false else
  let cached_free : gset nat := list_to_set cached_ids ∖ used_block_ids m in
  let candidate_ids :=
    take (Z.to_nat (required_blocks - num_cached_blocks))
      (filter (λ i, i ∉ cached_free) (free_block_ids m)) in
  let* sts := lift (_snapshot_block_states m (cached_ids ++ candidate_ids)) in
  try_reraise (attach_blocks k cached_ids num_cached_blocks required_blocks)
    (restore_allocation k [] (num_cached_tokens s) (num_draft_cached_tokens s)
       sts (free_block_ids m) (used_block_ids m) (hash_to_block_id m)) ;;;
  ret true.

Definition extend (k : nat) (through_tokens : Z) : MH bool :=
  _assert_allocator_mutation_allowed false ;;;
  let* s := get_seq k in
  raise_if (bool_decide (block_table s = []))
    (ValueError "cannot extend an unallocated sequence") ;;;
  raise_if (negb ((1 <=? through_tokens) && (through_tokens <=? num_tokens s)))
    (ValueError "through_tokens must be within the sequence") ;;;
  let* m := get_bm in
  let required_blocks := (through_tokens + block_size m - 1) `div` block_size m in
  let current_blocks := Z.of_nat (length (block_table s)) in
  if required_blocks <=? current_blocks then ret true else
  let new_blocks := required_blocks - current_blocks in
  if Z.of_nat (length (free_block_ids m)) <? new_blocks then ret false else
  let candidate_ids := take (Z.to_nat new_blocks) (free_block_ids m) in
  let* sts := lift (_snapshot_block_states m candidate_ids) in
  try_reraise
    (for_each (λ _, let* i := _allocate_block in push_block k i)
       (py_range 0 new_blocks))
    (restore_allocation k (block_table s) (num_cached_tokens s)
       (num_draft_cached_tokens s) sts (free_block_ids m) (used_block_ids m)
       (hash_to_block_id m)) ;;;
  ret true.

(** ** Decode appends *)

Definition can_append (k : nat) : MH bool :=
  let* s := get_seq k in
  let* m := get_bm in
  ret ((if num_tokens s `mod` block_size m =? 1 then 1 else 0)
         <=? Z.of_nat (length (free_block_ids m))).

Definition may_append (k : nat) : MH unit :=
  _assert_allocator_mutation_allowed false ;;;
  let* s := get_seq k in
  let* m := get_bm in
  when (num_tokens s `mod` block_size m =? 1)
    (let* i := _allocate_block in push_block k i).

(** [blocks[seq.block_table[i]]]. *)
Definition table_block (s : sequence) (i : Z) : MH (nat * block) :=
  match block_table s !! Z.to_nat i with
  | None => raise IndexError
  | Some id => let* b := get_block id in ret (id, b)
  end.

Definition hash_blocks (k : nat) : MH unit :=
  _assert_allocator_mutation_allowed false ;;;
  let* s := get_seq k in
  let* m := get_bm in
  let* bs := gets hp_seq_block_size in
  let first := num_cached_tokens s `div` block_size m in
  let stop := (num_cached_tokens s + num_scheduled_tokens s) `div` block_size m in
  if first =? stop then ret tt else
  let* h0 := (if 0 <? first
              then let* ib := table_block s (first - 1) in ret (b_hash ib.2)
              else ret (-1)) in
  for_fold (λ h i,
    let* ib := table_block s i in
    let* toks := lift (seq_block bs s i) in
    let h' := compute_hash toks h in
    upd_block ib.1 (Block_update h' toks) ;;;
    upd_bm (λ m, set_hash_to_block_id
                   (<[h' := b_block_id ib.2]> (hash_to_block_id m)) m) ;;;
    ret h') h0 (py_range first stop) ;;;
  ret tt.

(** ** Rolling back uncommitted decode appends *)

(** The validation loop: per row, the table as found and the block to remove. *)
Fixpoint validate_uncommitted (h : heap) (rows : list (nat * Z))
    (seen : gset nat) (appended : gset nat)
    : outcome (list (nat * list nat * option nat) * gset nat) :=
  match rows with
  | [] => Ok ([], appended)
  | (k, expected) :: rows' =>
      let m := hp_bm h in
      let? s := match hp_seqs h !! k with Some s => Ok s | None => Raise Dangling end in
      oraise_if (expected <? 0)
        (ValueError "expected block-table length must be non-negative") ;?
      oraise_if (bool_decide (seq_id s ∈ seen))
        (ValueError "uncommitted append rollback rows must be unique") ;?
      let seen' := {[seq_id s]} ∪ seen in
      let table := block_table s in
      let actual := Z.of_nat (length table) in
      if actual =? expected then
        let? (vs, ap) := validate_uncommitted h rows' seen' appended in
        Ok ((k, table, None) :: vs, ap)
      else
        oraise_if (negb (actual =? expected + 1))
          (RuntimeError "uncommitted append rollback requires exactly one suffix block per changed row") ;?
        match last table with
        | None => Raise IndexError
        | Some i =>
            match blocks m !! i with
            | None => Raise (RuntimeError "uncommitted suffix has an invalid block ID")
            | Some b =>
                oraise_if (bool_decide (i ∈ removelast table)
                           || bool_decide (i ∈ appended))
                  (RuntimeError "uncommitted suffix aliases another block") ;?
                oraise_if (negb (bool_decide (i ∈ used_block_ids m))
                           || bool_decide (i ∈ free_block_ids m))
                  (RuntimeError "uncommitted suffix is not exclusively allocated") ;?
                oraise_if (negb (b_ref_count b =? 1) || negb (b_hash b =? -1)
                           || negb (bool_decide (b_token_ids b = [])))
                  (RuntimeError "uncommitted suffix is not a fresh, unshared block") ;?
                let? (vs, ap) :=
                  validate_uncommitted h rows' seen' ({[i]} ∪ appended) in
                Ok ((k, table, Some i) :: vs, ap)
            end
        end
  end.

Definition check_prefix_aliases (vs : list (nat * list nat * option nat))
    (appended : gset nat) : outcome unit :=
  ofor_each (λ '(k, table, b),
    let prefix := if b is Some _ then removelast table else table in
    oraise_if (bool_decide (Exists (.∈ appended) prefix))
      (RuntimeError "uncommitted suffix aliases a participating row prefix")) vs.

Definition undo_append (v : nat * list nat * option nat) : MH unit :=
  let '(k, _, b) := v in
  match b with
  | None => ret tt
  | Some i =>
      upd_seq k (λ s, set_block_table (removelast (block_table s)) s) ;;;
      upd_block i (set_ref_count 0) ;;;
      let* m := get_bm in
      raise_if (negb (bool_decide (i ∈ used_block_ids m))) KeyError ;;;
      upd_bm (λ m, set_used_block_ids (used_block_ids m ∖ {[i]}) m) ;;;
      upd_bm (λ m, set_free_block_ids (i :: free_block_ids m) m)
  end.

Definition restore_uncommitted (vs : list (nat * list nat * option nat))
    (refs : list (nat * Z)) (free : list nat) (used : gset nat) (h : heap) : heap :=
  set_bm (λ m, set_used_block_ids used (set_free_block_ids free
            (set_blocks (foldl (λ bl '(i, r), alter (set_ref_count r) i bl)
                           (blocks m) refs) m)))
    (set_seqs (λ ss, foldl (λ ss '(k, table, _),
                 alter (set_block_table table) k ss) ss vs) h).

Definition rollback_uncommitted_appends (rows : list (nat * Z)) : MH bool :=
  _assert_allocator_mutation_allowed false ;;;
  let* (vs, appended) := inspect (λ h, validate_uncommitted h rows ∅ ∅) in
  lift (check_prefix_aliases vs appended) ;;;
  let* m := get_bm in
  let refs := omap (λ '(_, _, b), match b with
                      | Some i => (λ bl, (i, b_ref_count bl)) <$> blocks m !! i
                      | None => None end) vs in
  try_reraise (for_each undo_append (reverse vs))
    (restore_uncommitted vs refs (free_block_ids m) (used_block_ids m)) ;;;
  ret (negb (bool_decide (appended = ∅))).

Definition rollback_uncommitted_append (k : nat) (expected : Z) : MH bool :=
  rollback_uncommitted_appends [(k, expected)].
End block_manager.
