(* ===== verification/Reservation.v ===== *)
(** * Reservation: the temporary block lease of speculative decoding

    The lease half of class BlockManager (src/nanovllm/engine/block_manager.py):
    reserving cycle-local blocks, validating the live lease, rolling it back,
    finalizing it with a retained prefix per row, and evicting recycled cache
    entries before target writes; then [deallocate], which consumes a lease it
    meets.  A lease is published in [_active_temporary_reservations]; [is]
    tests compare [rv_object]. *)
From S2P Require Import Prelude SamplingParams Sequence Heap BlockManager.

(** ** Restoring and unpublishing *)

(** A row of either record type, as [_restore_temporary_snapshot] reads it:
    sequence, table, target coverage, draft coverage. *)
Definition row_view : Type := nat * list nat * Z * Z.
Definition view_of_row (r : _TemporaryReservationRow) : row_view :=
  (row_sequence r, row_block_table_before r, row_num_cached_tokens_before r,
   row_num_draft_cached_tokens_before r).
Definition view_of_spec (r : _TemporaryReservationRowSpec) : row_view :=
  (spec_sequence r, spec_block_table_before r, spec_num_cached_tokens_before r,
   spec_num_draft_cached_tokens_before r).

Definition restore_row (ss : gmap nat sequence) (v : row_view) : gmap nat sequence :=
  let '(k, table, cached, draft) := v in
  alter (λ s, set_num_draft_cached_tokens draft
          (set_num_cached_tokens cached (set_block_table table s))) k ss.

Definition _restore_temporary_snapshot (rows : list row_view)
    (free : list nat) (used : gset nat) (hashes : gmap Z nat)
    (sts : list _TemporaryBlockState) (h : heap) : heap :=
  set_bm (λ m, set_hash_to_block_id hashes (set_used_block_ids used
            (set_free_block_ids free
              (set_blocks (restore_block_states sts (blocks m)) m))))
    (set_seqs (λ ss, foldl restore_row ss rows) h).

(** The snapshot of a published lease, restored. *)
Definition restore_reservation (r : TemporaryBlockReservation) : heap → heap :=
  _restore_temporary_snapshot (view_of_row <$> rv_rows r)
    (rv_free_block_ids_before r) (rv_used_block_ids_before r)
    (rv_hash_to_block_id_before r) (rv_block_states_before r).

Definition row_seq_id (h : heap) (r : _TemporaryReservationRow) : nat :=
  default (row_sequence r) (seq_id <$> hp_seqs h !! row_sequence r).

Definition _unpublish_temporary_reservation (r : TemporaryBlockReservation) (h : heap)
    : heap :=
  set_bm (λ m,
    set_by_seq_id
      (foldl (λ idx row,
         let id := row_seq_id h row in
         if bool_decide (idx !! id = Some (rv_reservation_id r)) then delete id idx else idx)
         (_temporary_reservation_by_seq_id m) (rv_rows r))
      (set_active (delete (rv_reservation_id r) (_active_temporary_reservations m)) m)) h.

(** ** Validating the live lease *)

Definition state_by_id (sts : list _TemporaryBlockState)
    : gmap nat _TemporaryBlockState :=
  list_to_map ((λ st, (bst_block_id st, st)) <$> sts).

Definition lookup_state (sts : list _TemporaryBlockState) (i : nat)
    : outcome _TemporaryBlockState :=
  match state_by_id sts !! i with Some st => Ok st | None => Raise KeyError end.

(** The hashes expected while the lease is live: recycled entries are gone. *)
Fixpoint expected_hashes (sts : list _TemporaryBlockState) (ids : list nat)
    (hashes : gmap Z nat) : outcome (gmap Z nat) :=
  match ids with
  | [] => Ok hashes
  | i :: ids' =>
      let? st := lookup_state sts i in
      expected_hashes sts ids'
        (if negb (bst_hash st =? -1)
            && bool_decide (hashes !! bst_hash st = Some (bst_block_id st))
         then delete (bst_hash st) hashes else hashes)
  end.

Definition same_reservation (o : option TemporaryBlockReservation)
    (r : TemporaryBlockReservation) : bool :=
  match o with Some a => (rv_object a =? rv_object r)%nat | None => false end.

(** [next(iter(values()), None)] after the size check. *)
Definition active_of (m : block_manager) : outcome (option TemporaryBlockReservation) :=
  oraise_if (bool_decide (1 < size (_active_temporary_reservations m))%nat)
    (RuntimeError "multiple temporary reservations are active") ;?
  Ok (snd <$> head (map_to_list (_active_temporary_reservations m))).

Definition block_at (m : block_manager) (i : nat) : outcome block :=
  match blocks m !! i with Some b => Ok b | None => Raise IndexError end.

Definition check_block_state (m : block_manager) (allocated : gset nat)
    (st : _TemporaryBlockState) : outcome unit :=
  let? b := block_at m (bst_block_id st) in
  if bool_decide (bst_block_id st ∈ allocated) then
    oraise_if (negb (b_ref_count b =? 1) || negb (b_hash b =? -1)
               || negb (bool_decide (b_token_ids b = [])))
      (RuntimeError "temporary block metadata drifted")
  else
    oraise_if (negb (b_ref_count b =? bst_ref_count st)
               || negb (b_hash b =? bst_hash st)
               || negb (bool_decide (b_token_ids b = bst_token_ids st)))
      (RuntimeError "non-temporary block metadata drifted during reservation").

Definition check_row (h : heap) (r : _TemporaryReservationRow) : outcome unit :=
  let? s := match hp_seqs h !! row_sequence r with Some s => Ok s | None => Raise Dangling end in
  oraise_if (negb (bool_decide (block_table s =
      row_block_table_before r ++ row_appended_block_ids r)))
    (RuntimeError "temporary block table drifted") ;?
  oraise_if (negb (num_cached_tokens s =? row_num_cached_tokens_before r))
    (RuntimeError "target cache coverage changed during reservation") ;?
  oraise_if (negb (num_draft_cached_tokens s =? row_num_draft_cached_tokens_before r))
    (RuntimeError "draft cache coverage changed during reservation").

(** Publication, sequence index and snapshot shape. *)
Definition validate_publication (h : heap) (r : TemporaryBlockReservation)
    : outcome unit :=
  let m := hp_bm h in
  let? active := active_of m in
  oraise_if (negb (same_reservation active r))
    (RuntimeError "temporary reservation publication drifted") ;?
  let expected_index : gmap nat nat :=
    list_to_map ((λ row, (row_seq_id h row, rv_reservation_id r)) <$> rv_rows r) in
  oraise_if (negb (bool_decide (_temporary_reservation_by_seq_id m = expected_index)))
    (RuntimeError "temporary reservation sequence index drifted") ;?
  oraise_if (negb (bool_decide
      ((bst_block_id <$> rv_block_states_before r) =
       sorted_set (rv_allocation_order r ++ (rv_rows r ≫= row_block_table_before)))))
    (RuntimeError "temporary reservation block snapshot is invalid") ;?
  oraise_if (negb (bool_decide (NoDup (rv_allocation_order r))))
    (RuntimeError "temporary reservation repeats an allocated block").

(** Allocator membership, prefix hashes, block metadata and row ownership. *)
Definition validate_contents (h : heap) (r : TemporaryBlockReservation)
    : outcome unit :=
  let m := hp_bm h in
  oraise_if (negb (bool_decide (free_block_ids m =
      drop (length (rv_allocation_order r)) (rv_free_block_ids_before r))))
    (RuntimeError "temporary reservation free-block snapshot drifted") ;?
  oraise_if (negb (bool_decide (used_block_ids m =
      rv_used_block_ids_before r ∪ list_to_set (rv_allocation_order r))))
    (RuntimeError "temporary reservation used-block snapshot drifted") ;?
  let? expected := expected_hashes (rv_block_states_before r) (rv_allocation_order r)
                     (rv_hash_to_block_id_before r) in
  oraise_if (negb (bool_decide (hash_to_block_id m = expected)))
    (RuntimeError "temporary reservation prefix-hash snapshot drifted") ;?
  ofor_each (check_block_state m (list_to_set (rv_allocation_order r)))
    (rv_block_states_before r) ;?
  oraise_if (negb (bool_decide
      (rv_rows r ≫= row_appended_block_ids = rv_allocation_order r)))
    (RuntimeError "temporary reservation row ownership drifted") ;?
  ofor_each (check_row h) (rv_rows r).

Definition _validate_live_temporary_reservation (h : heap)
    (r : TemporaryBlockReservation) : outcome unit :=
  validate_publication h r ;? validate_contents h r.

(** ** Reserving *)

(** The row loop: checks of one row and its specification. *)
Fixpoint row_specs (h : heap) (rows : list (nat * Z)) (seen : gset nat)
    : outcome (list _TemporaryReservationRowSpec) :=
  match rows with
  | [] => Ok []
  | (k, highest) :: rows' =>
      let m := hp_bm h in
      let? s := match hp_seqs h !! k with Some s => Ok s | None => Raise Dangling end in
      oraise_if (highest <? 0)
        (ValueError "highest_written_position must be non-negative") ;?
      oraise_if (bool_decide (seq_id s ∈ seen))
        (ValueError "temporary reservation rows must be unique") ;?
      ofor_each (λ i,
        oraise_if
          match blocks m !! i with
          | None => true
          | Some b => negb (bool_decide (i ∈ used_block_ids m)) || (b_ref_count b <=? 0)
          end (RuntimeError "block table contains an unowned block")) (block_table s) ;?
      let owned := Z.of_nat (length (block_table s)) in
      let required := Z.max (highest `div` block_size m + 1) owned in
      let? specs := row_specs h rows' ({[seq_id s]} ∪ seen) in
      Ok (mk_row_spec k (block_table s) (required - owned)
            (num_cached_tokens s) (num_draft_cached_tokens s) :: specs)
  end.

Definition total_new_blocks (specs : list _TemporaryReservationRowSpec) : Z :=
  foldr Z.add 0 (spec_new_blocks <$> specs).

(** [set(free) | set(used) == set(range(len(blocks)))] and no repetition. *)
Definition membership_ok (m : block_manager) : bool :=
  let free : gset nat := list_to_set (free_block_ids m) in
  bool_decide (NoDup (free_block_ids m)) &&
  bool_decide (free ∩ used_block_ids m = ∅) &&
  bool_decide (free ∪ used_block_ids m = list_to_set (seq 0 (length (blocks m)))).

(** One internal block: the flag is cleared whatever happens. *)
Definition allocate_internal : MH nat :=
  upd_bm (set_internal true) ;;;
  try_finally _allocate_block (set_bm (set_internal false)).

Definition reserve_row (sp : _TemporaryReservationRowSpec)
    : MH _TemporaryReservationRow :=
  let* appended := repeat_m (Z.to_nat (spec_new_blocks sp))
    (let* i := allocate_internal in push_block (spec_sequence sp) i ;;; ret i) in
  ret (mk_row (spec_sequence sp) (spec_block_table_before sp) appended
         (spec_num_cached_tokens_before sp) (spec_num_draft_cached_tokens_before sp)).

Definition reserve_rows (specs : list _TemporaryReservationRowSpec)
    (candidate_ids : list nat) : MH (list _TemporaryReservationRow) :=
  let* rows := map_all reserve_row specs in
  raise_if (negb (bool_decide (rows ≫= row_appended_block_ids = candidate_ids)))
    (RuntimeError "temporary allocation order differs from free-list order") ;;;
  ret rows.

(** Build the lease, publish it, and validate it. *)
Definition publish_reservation (rows : list _TemporaryReservationRow)
    (free : list nat) (used : gset nat) (hashes : gmap Z nat)
    (sts : list _TemporaryBlockState) : MH TemporaryBlockReservation :=
  let* m := get_bm in
  let r := mk_reservation (next_object m) (_temporary_reservation_ids m) rows
             (rows ≫= row_appended_block_ids) free used hashes sts in
  upd_bm (λ m, set_next_object (S (next_object m))
                 (set_reservation_ids (S (_temporary_reservation_ids m)) m)) ;;;
  upd_bm (λ m, set_active (<[rv_reservation_id r := r]>
                 (_active_temporary_reservations m)) m) ;;;
  for_each (λ row,
    let* s := get_seq (row_sequence row) in
    upd_bm (λ m, set_by_seq_id (<[seq_id s := rv_reservation_id r]>
                   (_temporary_reservation_by_seq_id m)) m)) rows ;;;
  inspect (λ h, _validate_live_temporary_reservation h r) ;;;
  ret r.

(** The body guarded by the [_temporary_reservation_in_progress] flag. *)
Definition reserve_body (rows : list (nat * Z))
    : MH (option TemporaryBlockReservation) :=
  let* specs := inspect (λ h, row_specs h rows ∅) in
  let* m := get_bm in
  let total := total_new_blocks specs in
  if Z.of_nat (length (free_block_ids m)) <? total then ret None else
  raise_if (negb (membership_ok m))
    (RuntimeError "allocator membership snapshot is invalid") ;;;
  let candidate_ids := take (Z.to_nat total) (free_block_ids m) in
  let* sts := lift (_snapshot_block_states m
                (candidate_ids ++ (specs ≫= spec_block_table_before))) in
  lift (ofor_each (λ i,
    let? st := lookup_state sts i in
    oraise_if (negb (bst_ref_count st =? 0))
      (RuntimeError "candidate free block has a nonzero reference count"))
    candidate_ids) ;;;
  let restore := _restore_temporary_snapshot (view_of_spec <$> specs)
    (free_block_ids m) (used_block_ids m) (hash_to_block_id m) sts in
  let* rrows := try_reraise (reserve_rows specs candidate_ids) restore in
  let* m' := get_bm in
  let* r := try_reraise
    (publish_reservation rrows (free_block_ids m) (used_block_ids m)
       (hash_to_block_id m) sts)
    (λ h, restore
      (set_bm (λ m, set_by_seq_id (_temporary_reservation_by_seq_id m')
                (set_active (_active_temporary_reservations m') m)) h)) in
  ret (Some r).

Definition reserve_temporary_append (rows : list (nat * Z))
    : MH (option TemporaryBlockReservation) :=
  let* active := _active_temporary_reservation in
  let* m := get_bm in
  raise_if (negb (bool_decide (active = None)) || _temporary_reservation_in_progress m)
    (RuntimeError "a temporary reservation is already active") ;;;
  raise_if (negb (bool_decide (_temporary_reservation_by_seq_id m = ∅)))
    (RuntimeError "temporary reservation sequence index is stale") ;;;
  upd_bm (set_in_progress true) ;;;
  try_finally (reserve_body rows)
    (set_bm (λ m, set_in_progress false (set_internal false m))).

(** ** Rolling back *)

Definition rollback_temporary_append (r : TemporaryBlockReservation) : MH bool :=
  let* m := get_bm in
  match _active_temporary_reservations m !! rv_reservation_id r with
  | None => ret false
  | Some a =>
      raise_if (negb (same_reservation (Some a) r))
        (RuntimeError "temporary reservation identity mismatch") ;;;
      inspect (λ h, _validate_live_temporary_reservation h r) ;;;
      modify (restore_reservation r) ;;;
      modify (_unpublish_temporary_reservation r) ;;;
      ret true
  end.

(** ** Finalizing: keep a prefix of every row's appended blocks *)

(** The requested counts: every item once, one per reservation row. *)
Fixpoint collect_counts (items : list (nat * Z)) (acc : gmap nat Z)
    : outcome (gmap nat Z) :=
  match items with
  | [] => Ok acc
  | (id, n) :: items' =>
      oraise_if (bool_decide (is_Some (acc !! id)))
        (ValueError "retained-block sequence IDs must be unique") ;?
      collect_counts items' (<[id := n]> acc)
  end.

Definition retained_counts (h : heap) (r : TemporaryBlockReservation)
    (items : list (nat * Z)) : outcome (gmap nat Z) :=
  oraise_if (negb (length items =? length (rv_rows r))%nat)
    (ValueError "retained-block counts must name every reservation row") ;?
  let? counts := collect_counts items ∅ in
  oraise_if (negb (bool_decide
      (dom counts = list_to_set (row_seq_id h <$> rv_rows r))))
    (ValueError "retained-block counts must name every reservation row") ;?
  Ok counts.

(** One row's decision: the row, its desired table, kept and released blocks. *)
Definition retention : Type :=
  _TemporaryReservationRow * list nat * list nat * list nat.

Definition retain_row (h : heap) (counts : gmap nat Z)
    (row : _TemporaryReservationRow) : outcome retention :=
  let? keep := match counts !! row_seq_id h row with
               | Some n => Ok n | None => Raise KeyError end in
  oraise_if ((keep <? 0) || (Z.of_nat (length (row_appended_block_ids row)) <? keep))
    (ValueError "retained-block count is outside its appended suffix") ;?
  let kept := take (Z.to_nat keep) (row_appended_block_ids row) in
  let released := drop (Z.to_nat keep) (row_appended_block_ids row) in
  Ok (row, row_block_table_before row ++ kept, kept, released).

Definition ret_row (d : retention) : _TemporaryReservationRow := d.1.1.1.
Definition ret_table (d : retention) : list nat := d.1.1.2.
Definition ret_kept (d : retention) : list nat := d.1.2.
Definition ret_released (d : retention) : list nat := d.2.

(** The allocator state a finalization asks for. *)
Record final_state := mk_final_state {
  fin_rows : list retention;
  fin_kept : gset nat;
  fin_released : gset nat;
  fin_free : list nat;
  fin_used : gset nat;
  fin_hashes : gmap Z nat;
}.

Definition desired_state (r : TemporaryBlockReservation) (ds : list retention)
    : outcome final_state :=
  let kept : gset nat := list_to_set (ds ≫= ret_kept) in
  let released : gset nat := list_to_set (ds ≫= ret_released) in
  oraise_if (negb (bool_decide (kept ∩ released = ∅))
             || negb (bool_decide (kept ∪ released =
                        list_to_set (rv_allocation_order r))))
    (RuntimeError "temporary reservation retention partition is invalid") ;?
  Ok (mk_final_state ds kept released
        (filter (λ i, i ∉ kept) (rv_free_block_ids_before r))
        (rv_used_block_ids_before r ∪ kept)
        (filter (λ hb, hb.2 ∉ kept) (rv_hash_to_block_id_before r))).

Definition plan_finalize (h : heap) (r : TemporaryBlockReservation)
    (items : list (nat * Z)) : outcome final_state :=
  let? counts := retained_counts h r items in
  let? ds := omap_all (retain_row h counts) (rv_rows r) in
  desired_state r ds.

(** The physical assignments. *)
Definition apply_final (r : TemporaryBlockReservation) (f : final_state) : MH unit :=
  for_each (λ d, upd_seq (row_sequence (ret_row d)) (set_block_table (ret_table d)))
    (fin_rows f) ;;;
  for_each (λ i,
    let* st := lift (lookup_state (rv_block_states_before r) i) in
    upd_block (bst_block_id st) (restore_block_state st)) (elements (fin_released f)) ;;;
  upd_bm (λ m, set_hash_to_block_id (fin_hashes f)
                 (set_used_block_ids (fin_used f) (set_free_block_ids (fin_free f) m))).

(** The checks of the physical post-state. *)
Definition check_final (h : heap) (r : TemporaryBlockReservation) (f : final_state)
    : outcome unit :=
  let m := hp_bm h in
  oraise_if (negb (bool_decide (free_block_ids m = fin_free f))
             || negb (bool_decide (used_block_ids m = fin_used f))
             || negb (bool_decide (hash_to_block_id m = fin_hashes f)))
    (RuntimeError "temporary reservation final allocator state drifted") ;?
  ofor_each (λ d,
    let? s := match hp_seqs h !! row_sequence (ret_row d) with
              | Some s => Ok s | None => Raise Dangling end in
    oraise_if (negb (bool_decide (block_table s = ret_table d)))
      (RuntimeError "temporary reservation final block table drifted") ;?
    oraise_if (negb (num_cached_tokens s =? row_num_cached_tokens_before (ret_row d))
               || negb (num_draft_cached_tokens s =?
                          row_num_draft_cached_tokens_before (ret_row d)))
      (RuntimeError "temporary reservation final cache coverage drifted")) (fin_rows f) ;?
  ofor_each (λ i,
    let? b := block_at m i in
    oraise_if (negb (b_ref_count b =? 1) || negb (b_hash b =? -1)
               || negb (bool_decide (b_token_ids b = [])))
      (RuntimeError "retained temporary block metadata drifted"))
    (elements (fin_kept f)) ;?
  ofor_each (λ i,
    let? st := lookup_state (rv_block_states_before r) i in
    let? b := block_at m i in
    oraise_if (negb (b_ref_count b =? bst_ref_count st)
               || negb (b_hash b =? bst_hash st)
               || negb (bool_decide (b_token_ids b = bst_token_ids st)))
      (RuntimeError "released temporary block metadata was not restored"))
    (elements (fin_released f)).

Definition check_consumed (h : heap) (r : TemporaryBlockReservation) : outcome unit :=
  let m := hp_bm h in
  oraise_if (bool_decide (is_Some (_active_temporary_reservations m !! rv_reservation_id r))
             || bool_decide (Exists (λ kv : nat * nat, kv.2 = rv_reservation_id r)
                   (map_to_list (_temporary_reservation_by_seq_id m))))
    (RuntimeError "temporary reservation finalization did not consume lease").

(** The live-lease snapshot restored by the handler. *)
Definition restore_live (rows : list row_view) (sts : list _TemporaryBlockState)
    (m0 : block_manager) (h : heap) : heap :=
  set_bm (λ m, set_by_seq_id (_temporary_reservation_by_seq_id m0)
            (set_active (_active_temporary_reservations m0) m))
    (_restore_temporary_snapshot rows (free_block_ids m0) (used_block_ids m0)
       (hash_to_block_id m0) sts h).

Definition live_row (h : heap) (r : _TemporaryReservationRow) : outcome row_view :=
  match hp_seqs h !! row_sequence r with
  | Some s => Ok (row_sequence r, block_table s, num_cached_tokens s,
                  num_draft_cached_tokens s)
  | None => Raise Dangling
  end.

Definition finalize_temporary_append (r : TemporaryBlockReservation)
    (keep_block_counts_by_seq_id : list (nat * Z)) : MH bool :=
  let* m := get_bm in
  match _active_temporary_reservations m !! rv_reservation_id r with
  | None => ret false
  | Some a =>
      raise_if (negb (same_reservation (Some a) r))
        (RuntimeError "temporary reservation identity mismatch") ;;;
      inspect (λ h, _validate_live_temporary_reservation h r) ;;;
      let* f := inspect (λ h, plan_finalize h r keep_block_counts_by_seq_id) in
      let* live := inspect (λ h, omap_all (live_row h) (rv_rows r)) in
      let* sts := lift (_snapshot_block_states m
                    (bst_block_id <$> rv_block_states_before r)) in
      try_reraise
        (apply_final r f ;;;
         inspect (λ h, check_final h r f) ;;;
         modify (_unpublish_temporary_reservation r) ;;;
         inspect (λ h, check_consumed h r))
        (restore_live live sts m) ;;;
      ret true
  end.

(** ** Evicting recycled cache entries before target writes *)

Definition evict_state (overwritten : gset nat) (st : _TemporaryBlockState)
    : _TemporaryBlockState :=
  if bool_decide (bst_block_id st ∈ overwritten)
  then mk_block_state (bst_block_id st) (bst_ref_count st) (-1) [] else st.

Definition prepare_temporary_target_writes (r : TemporaryBlockReservation)
    : MH TemporaryBlockReservation :=
  inspect (λ h, _validate_live_temporary_reservation h r) ;;;
  let* m := get_bm in
  raise_if (negb (same_reservation
      (_active_temporary_reservations m !! rv_reservation_id r) r))
    (RuntimeError "target write lease identity mismatch") ;;;
  let overwritten : gset nat := list_to_set (rv_allocation_order r) in
  let updated := mk_reservation (next_object m) (rv_reservation_id r) (rv_rows r)
    (rv_allocation_order r) (rv_free_block_ids_before r) (rv_used_block_ids_before r)
    (filter (λ hb, hb.2 ∉ overwritten) (rv_hash_to_block_id_before r))
    (evict_state overwritten <$> rv_block_states_before r) in
  upd_bm (λ m, set_next_object (S (next_object m))
            (set_active (<[rv_reservation_id r := updated]>
               (_active_temporary_reservations m)) m)) ;;;
  ret updated.

(** ** Deallocation *)

Definition release_block (block_id : nat) : MH unit :=
  upd_block block_id (λ b, set_ref_count (b_ref_count b - 1) b) ;;;
  let* b := get_block block_id in
  when (b_ref_count b =? 0) (_deallocate_block block_id).

Definition deallocate (k : nat) : MH unit :=
  let* active := _active_temporary_reservation in
  match active with
  | None => ret tt
  | Some a =>
      let* s := get_seq k in
      let* m := get_bm in
      raise_if (negb (bool_decide
          (_temporary_reservation_by_seq_id m !! seq_id s = Some (rv_reservation_id a))))
        (RuntimeError "cannot deallocate an unrelated sequence while a temporary reservation is active") ;;;
      rollback_temporary_append a ;;; ret tt
  end ;;;
  _assert_allocator_mutation_allowed false ;;;
  let* s := get_seq k in
  for_each release_block (reverse (block_table s)) ;;;
  upd_seq k (set_num_cached_tokens 0) ;;;
  upd_seq k (set_num_draft_cached_tokens 0) ;;;
  upd_seq k (set_block_table []).
