(* ===== verification/AllocatorInv.v ===== *)
(** * AllocatorInv: the allocator invariant

    [alloc_ok ex h] is the ledger invariant of the allocator: the free list and
    the used set partition the block ids, the free list has no repetition, the
    reference count of a block is exactly the number of times the tables of
    the store name it (plus the adjustment [ex], zero between operations), a
    block is used iff that count is positive, and the prefix-cache index only
    names blocks that carry the indexed hash.  This file relates the primitive
    operations of BlockManager to it: each one's effect is given as a pure
    function of the heap. *)
From S2P Require Import Prelude SamplingParams Sequence Heap BlockManager Reservation.

(** ** Reference counting over the store *)

Definition refs (ss : gmap nat sequence) (i : nat) : nat :=
  map_fold (λ _ s n, (count i (block_table s) + n)%nat) 0%nat ss.

Lemma refs_insert_new ss k s i :
  ss !! k = None → refs (<[k:=s]> ss) i = (count i (block_table s) + refs ss i)%nat.
Proof.
  intros Hk. unfold refs.
  rewrite (map_fold_insert_L (λ _ s n, (count i (block_table s) + n)%nat)); [done| |done].
  intros; lia.
Qed.

Lemma refs_insert ss k s s' i :
  ss !! k = Some s →
  (refs (<[k:=s']> ss) i + count i (block_table s) =
   refs ss i + count i (block_table s'))%nat.
Proof.
  intros Hk. rewrite <-(insert_delete_id ss k s Hk) at 2.
  rewrite <-(insert_delete_eq ss k s').
  rewrite !refs_insert_new by apply lookup_delete_eq. lia.
Qed.

Lemma refs_empty i : refs ∅ i = 0%nat.
Proof. done. Qed.

Lemma refs_ge ss k s i : ss !! k = Some s → (count i (block_table s) <= refs ss i)%nat.
Proof.
  intros Hk. rewrite <-(insert_delete_id ss k s Hk).
  rewrite refs_insert_new by apply lookup_delete_eq. lia.
Qed.

Lemma alter_insert_eq {A} (f : A → A) (k : nat) (m : gmap nat A) x :
  m !! k = Some x → alter f k m = <[k:=f x]> m.
Proof.
  intros Hk. apply map_eq. intros j. rewrite lookup_alter, lookup_insert.
  case_decide; subst; [by rewrite Hk|done].
Qed.

(** Rewriting a sequence without touching its table keeps the counts. *)
Lemma refs_alter_same f ss k i :
  (∀ s, block_table (f s) = block_table s) → refs (alter f k ss) i = refs ss i.
Proof.
  intros Hf. destruct (ss !! k) as [s|] eqn:Hk.
  - rewrite (alter_insert_eq _ _ _ _ Hk).
    pose proof (refs_insert ss k s (f s) i Hk). rewrite Hf in H. lia.
  - f_equal. apply map_eq. intros j. rewrite lookup_alter.
    case_decide; subst; [by rewrite Hk|done].
Qed.

(** ** The invariant *)

Record block_ok (ex : nat → Z) (h : heap) (i : nat) (b : block) : Prop := {
  bo_id : b_block_id b = i;
  bo_refs : b_ref_count b = Z.of_nat (refs (hp_seqs h) i) + ex i;
  bo_free : i ∈ free_block_ids (hp_bm h) → b_ref_count b = 0;
  bo_used : i ∈ used_block_ids (hp_bm h) → 0 < b_ref_count b;
}.

Record alloc_ok (ex : nat → Z) (h : heap) : Prop := {
  ok_size : 0 < block_size (hp_bm h) ∧ hp_seq_block_size h = block_size (hp_bm h);
  ok_nodup : NoDup (free_block_ids (hp_bm h));
  ok_part : ∀ i, (i < length (blocks (hp_bm h)))%nat ↔
              i ∈ free_block_ids (hp_bm h) ∨ i ∈ used_block_ids (hp_bm h);
  ok_disj : ∀ i, i ∈ free_block_ids (hp_bm h) → i ∉ used_block_ids (hp_bm h);
  ok_block : ∀ i b, blocks (hp_bm h) !! i = Some b → block_ok ex h i b;
  ok_hash : ∀ hs i, hash_to_block_id (hp_bm h) !! hs = Some i →
              ∃ b, blocks (hp_bm h) !! i = Some b ∧ b_hash b = hs ∧ hs ≠ -1;
  ok_table : ∀ k s i, hp_seqs h !! k = Some s → i ∈ block_table s →
              (i < length (blocks (hp_bm h)))%nat;
  ok_seqs : ∀ k s, hp_seqs h !! k = Some s → seq_id s = k ∧ seq_wf s;
}.

(** No adjustment: what holds between operations. *)
Definition none : nat → Z := λ _, 0.
Definition plus_one (ex : nat → Z) (i : nat) : nat → Z :=
  λ j, ex j + if decide (j = i) then 1 else 0.
Definition minus_one (ex : nat → Z) (i : nat) : nat → Z :=
  λ j, ex j - if decide (j = i) then 1 else 0.

Lemma alloc_ok_ext ex ex' h : (∀ i, ex i = ex' i) → alloc_ok ex h → alloc_ok ex' h.
Proof.
  intros Hex [? ? ? ? Hb ? ? ?]. split; try done.
  intros i b Hi. destruct (Hb i b Hi). split; try done. by rewrite <-Hex.
Qed.

(** Mutations of allocator-irrelevant attributes. *)
Definition same_ledger (m m' : block_manager) : Prop :=
  block_size m' = block_size m ∧ blocks m' = blocks m ∧
  hash_to_block_id m' = hash_to_block_id m ∧
  free_block_ids m' = free_block_ids m ∧ used_block_ids m' = used_block_ids m.

Lemma alloc_ok_same_ledger ex h f :
  same_ledger (hp_bm h) (f (hp_bm h)) → alloc_ok ex h → alloc_ok ex (set_bm f h).
Proof.
  intros (E1 & E2 & E3 & E4 & E5) [? ? ? ? Hb ? ? ?].
  split; simpl; rewrite ?E1, ?E2, ?E3, ?E4, ?E5; try done.
  intros i b Hi. destruct (Hb i b Hi). split; simpl; rewrite ?E4, ?E5; done.
Qed.

(** Assignments to a sequence that keep its identity, tokens and table. *)
Lemma alloc_ok_upd_seq ex h k f :
  (∀ s, block_table (f s) = block_table s ∧ seq_id (f s) = seq_id s ∧
        (seq_wf s → seq_wf (f s))) →
  alloc_ok ex h → alloc_ok ex (set_seqs (alter f k) h).
Proof.
  intros Hf [? ? ? ? Hb ? Ht Hs]. split; simpl; try done.
  - intros i b Hi. destruct (Hb i b Hi). split; simpl; try done.
    rewrite refs_alter_same by (intros; apply Hf). done.
  - intros j s i. rewrite lookup_alter. case_decide as Hj; [|by eauto]. subst j.
    destruct (hp_seqs h !! k) as [s0|] eqn:E; [|done]. intros ?; simplify_eq/=.
    rewrite (proj1 (Hf s0)). eauto.
  - intros j s. rewrite lookup_alter. case_decide as Hj; [|by eauto]. subst j.
    destruct (hp_seqs h !! k) as [s0|] eqn:E; [|done]. intros ?; simplify_eq/=.
    destruct (Hf s0) as (_ & -> & Hw). destruct (Hs _ _ E). auto.
Qed.

(** ** The fence *)

Definition unfenced (h : heap) : Prop :=
  _active_temporary_reservations (hp_bm h) = ∅ ∧
  _temporary_reservation_in_progress (hp_bm h) = false.

(** Allocation is open: no lease, and inside a reservation only with the
    internal flag. *)
Definition may_allocate (h : heap) : Prop :=
  _active_temporary_reservations (hp_bm h) = ∅ ∧
  (_temporary_reservation_in_progress (hp_bm h) = true →
   _temporary_internal_allocation (hp_bm h) = true).

Lemma unfenced_may_allocate h : unfenced h → may_allocate h.
Proof. intros [? E]. split; [done|]. by rewrite E. Qed.

Lemma active_empty h :
  _active_temporary_reservations (hp_bm h) = ∅ →
  _active_temporary_reservation h = (Ok None, h).
Proof.
  intros E. unfold _active_temporary_reservation, get_bm, bind, gets, raise_if, ret.
  by rewrite E.
Qed.

Lemma assert_allowed_internal h :
  may_allocate h → _assert_allocator_mutation_allowed true h = (Ok tt, h).
Proof.
  intros [E Hi]. unfold _assert_allocator_mutation_allowed.
  rewrite (bind_ok _ _ _ _ _ (active_empty h E)).
  unfold bind, get_bm, gets. simpl.
  destruct (_temporary_reservation_in_progress (hp_bm h)); [|done].
  by rewrite Hi.
Qed.

Lemma assert_allowed h :
  unfenced h → _assert_allocator_mutation_allowed false h = (Ok tt, h).
Proof.
  intros [E Hi]. unfold _assert_allocator_mutation_allowed.
  rewrite (bind_ok _ _ _ _ _ (active_empty h E)).
  unfold bind, get_bm, gets. simpl. by rewrite Hi.
Qed.

(** The fence never changes the heap, and refuses whenever a lease is live. *)
Lemma assert_allowed_state allow h o h' :
  _assert_allocator_mutation_allowed allow h = (o, h') → h' = h.
Proof.
  unfold _assert_allocator_mutation_allowed, _active_temporary_reservation, bind,
    get_bm, gets, raise_if, ret, raise.
  repeat (case_match; simplify_eq/=); naive_solver.
Qed.

Lemma fenced_refuses allow h :
  _active_temporary_reservations (hp_bm h) ≠ ∅ →
  ∃ e, _assert_allocator_mutation_allowed allow h = (Raise e, h).
Proof.
  intros Hne. unfold _assert_allocator_mutation_allowed, _active_temporary_reservation,
    bind, get_bm, gets.
  destruct (bool_decide _); simpl; [by eexists|].
  destruct (map_to_list (_active_temporary_reservations (hp_bm h))) as [|x l] eqn:E.
  { by apply map_to_list_empty_iff in E. }
  unfold ret, raise_if. simpl. rewrite !andb_false_r. simpl. by eexists.
Qed.

(** ** The effect of each primitive, as a function of the heap *)

(** [_allocate_block] taking block [i] at the head of the free list. *)
Definition evicted (m : block_manager) (i : nat) : gmap Z nat :=
  match blocks m !! i with
  | Some b =>
      if negb (b_hash b =? -1)
         && bool_decide (hash_to_block_id m !! b_hash b = Some i)
      then delete (b_hash b) (hash_to_block_id m) else hash_to_block_id m
  | None => hash_to_block_id m
  end.

Definition take_block (i : nat) : heap → heap :=
  set_bm (λ m, set_used_block_ids ({[i]} ∪ used_block_ids m)
    (set_blocks (alter Block_reset i (blocks m))
      (set_hash_to_block_id (evicted m i)
        (set_free_block_ids (tail (free_block_ids m)) m)))).

Definition push (k i : nat) : heap → heap :=
  set_seqs (alter (λ s, set_block_table (block_table s ++ [i]) s) k).

Definition pin (i : nat) (h : heap) : heap :=
  if bool_decide (i ∈ used_block_ids (hp_bm h))
  then alter_block i (λ b, set_ref_count (b_ref_count b + 1) b) h
  else set_bm (λ m, set_used_block_ids ({[i]} ∪ used_block_ids m)
         (set_free_block_ids (default [] (remove_first i (free_block_ids m)))
           (set_blocks (alter (set_ref_count 1) i (blocks m)) m))) h.

Definition release (i : nat) (h : heap) : heap :=
  match blocks (hp_bm h) !! i with
  | Some b =>
      if b_ref_count b - 1 =? 0
      then set_bm (λ m, set_free_block_ids (free_block_ids m ++ [i])
             (set_used_block_ids (used_block_ids m ∖ {[i]})
               (set_blocks (alter (set_ref_count 0) i (blocks m)) m))) h
      else alter_block i (λ b, set_ref_count (b_ref_count b - 1) b) h
  | None => h
  end.

Lemma lookup_alter_block (l : list block) f i j b :
  alter f i l !! j = Some b →
  (j = i ∧ ∃ b0, l !! i = Some b0 ∧ b = f b0) ∨ (j ≠ i ∧ l !! j = Some b).
Proof.
  destruct (decide (j = i)) as [->|Hne].
  - rewrite list_lookup_alter_eq. destruct (l !! i) eqn:E; [|done].
    intros ?; simplify_eq/=. left. eauto.
  - rewrite list_lookup_alter_ne by done. eauto.
Qed.

Lemma alloc_ok_block ex h i :
  alloc_ok ex h → (i < length (blocks (hp_bm h)))%nat →
  ∃ b, blocks (hp_bm h) !! i = Some b ∧ block_ok ex h i b.
Proof.
  intros Hok Hi. apply lookup_lt_is_Some_2 in Hi as [b Hb].
  exists b. split; [done|]. by apply ok_block.
Qed.

Lemma alloc_ok_free_lt ex h i :
  alloc_ok ex h → i ∈ free_block_ids (hp_bm h) → (i < length (blocks (hp_bm h)))%nat.
Proof. intros Hok Hi. apply (ok_part _ _ Hok). by left. Qed.

Lemma alloc_ok_used_lt ex h i :
  alloc_ok ex h → i ∈ used_block_ids (hp_bm h) → (i < length (blocks (hp_bm h)))%nat.
Proof. intros Hok Hi. apply (ok_part _ _ Hok). by right. Qed.

(** The evicted index no longer names [i], and is otherwise unchanged. *)
Lemma evicted_lookup ex h i hs j :
  alloc_ok ex h → evicted (hp_bm h) i !! hs = Some j →
  j ≠ i ∧ hash_to_block_id (hp_bm h) !! hs = Some j.
Proof.
  intros Hok He. unfold evicted in He.
  destruct (blocks (hp_bm h) !! i) as [b|] eqn:Hb; last first.
  { split; [|done]. intros ->. apply (ok_hash _ _ Hok) in He as (? & ? & _). congruence. }
  destruct (negb (b_hash b =? -1)) eqn:E1; simpl in He.
  - case_bool_decide as E2.
    + rewrite lookup_delete in He. case_decide as E3; [done|]. split; [|done].
      intros ->. apply (ok_hash _ _ Hok) in He as (? & ? & ? & _). congruence.
    + split; [|done]. intros ->.
      pose proof (ok_hash _ _ Hok _ _ He) as (? & ? & ? & _). congruence.
  - split; [|done]. intros ->. pose proof (ok_hash _ _ Hok _ _ He) as (? & ? & ? & ?).
    apply negb_false_iff, Z.eqb_eq in E1. congruence.
Qed.

Lemma alloc_ok_take ex h i rest :
  alloc_ok ex h → free_block_ids (hp_bm h) = i :: rest →
  alloc_ok (plus_one ex i) (take_block i h).
Proof.
  intros Hok Hfree. pose proof Hok as [Hs Hnd Hp Hd Hb Hh Ht Hq].
  rewrite Hfree in Hnd. apply NoDup_cons in Hnd as [Hni Hnd].
  assert (i ∉ used_block_ids (hp_bm h)) as Hnu by (apply Hd; rewrite Hfree; set_solver).
  split; simpl; rewrite ?Hfree, ?length_alter; simpl; try done.
  - intros j. rewrite Hp, Hfree, elem_of_cons. set_solver.
  - intros j Hj. rewrite elem_of_union, elem_of_singleton.
    intros [->|Hu]; [done|]. apply (Hd j); [rewrite Hfree; set_solver|done].
  - intros j b Hj. unfold plus_one.
    apply lookup_alter_block in Hj as [(-> & b0 & Hb0 & ->)|(Hne & Hj)].
    + destruct (Hb _ _ Hb0) as [Hid Hr Hf Hu]. split; simpl; try done; rewrite ?Hfree; simpl.
      * rewrite decide_True by done. rewrite Hfree in Hf.
        specialize (Hf ltac:(set_solver)). lia.
      * set_solver.
    + destruct (Hb _ _ Hj) as [Hid Hr Hf Hu]. rewrite Hfree in Hf.
      split; simpl; rewrite ?Hfree; simpl; [done| |set_solver..].
      rewrite decide_False by done. lia.
  - intros hs j He. apply (evicted_lookup _ _ _ _ _ Hok) in He as [Hne He].
    rewrite list_lookup_alter_ne by done. by apply Hh.
Qed.

Lemma alloc_ok_push ex h k i s :
  alloc_ok (plus_one ex i) h → hp_seqs h !! k = Some s →
  (i < length (blocks (hp_bm h)))%nat → alloc_ok ex (push k i h).
Proof.
  intros [Hs Hnd Hp Hd Hb Hh Ht Hq] Hk Hi. unfold push.
  split; simpl; rewrite ?(alter_insert_eq _ _ _ _ Hk); try done.
  - intros j b Hj. destruct (Hb _ _ Hj) as [Hid Hr Hf Hu]. split; simpl; try done.
    rewrite (alter_insert_eq _ _ _ _ Hk). unfold plus_one in Hr.
    pose proof (refs_insert (hp_seqs h) k s (set_block_table (block_table s ++ [i]) s) j Hk).
    simpl in *. rewrite count_app, count_cons, count_nil in *.
    repeat case_decide; simplify_eq; lia.
  - intros k' s' j. rewrite lookup_insert. case_decide as Hk'; [|by eauto].
    intros ?; simplify_eq/=. rewrite elem_of_app, list_elem_of_singleton.
    intros [?| ->]; [by eauto|done].
  - intros k' s'. rewrite lookup_insert. case_decide as Hk'; [|by eauto].
    intros ?; simplify_eq/=. destruct (Hq _ _ Hk) as [? [? ? ?]]. split; [done|by split].
Qed.

Lemma alloc_ok_pin ex h i :
  alloc_ok ex h → (i < length (blocks (hp_bm h)))%nat →
  alloc_ok (plus_one ex i) (pin i h).
Proof.
  intros Hok Hi. destruct (alloc_ok_block _ _ _ Hok Hi) as (bi & Hbi & Hboki).
  pose proof Hok as [Hs Hnd Hp Hd Hb Hh Ht Hq]. unfold pin.
  case_bool_decide as Hu.
  - (* already used: one more reference *)
    split; simpl; rewrite ?length_alter; try done.
    + intros j b Hj. unfold plus_one.
      apply lookup_alter_block in Hj as [(-> & b0 & Hb0 & ->)|(Hne & Hj)].
      * destruct (Hb _ _ Hb0) as [Hid Hr Hf Hu']. split; simpl; try done.
        -- rewrite decide_True by done. lia.
        -- intros Hfr. by destruct (Hd _ Hfr).
        -- intros _. specialize (Hu' Hu). lia.
      * destruct (Hb _ _ Hj) as [Hid Hr Hf Hu']. split; simpl; try done.
        rewrite decide_False by done. lia.
    + intros hs j Hj. destruct (Hh _ _ Hj) as (b & Hb' & <- & Hn).
      destruct (decide (j = i)) as [->|Hne].
      * rewrite list_lookup_alter_eq, Hb'. by eexists.
      * rewrite list_lookup_alter_ne by done. eauto.
  - (* free: revived with one reference *)
    assert (i ∈ free_block_ids (hp_bm h)) as Hfr
      by (destruct (proj1 (Hp i) Hi); [done|contradiction]).
    destruct (remove_first_elem _ _ Hfr) as [rest Hrest].
    pose proof (remove_first_Permutation _ _ _ Hrest) as Hperm.
    rewrite Hperm in Hnd. apply NoDup_cons in Hnd as [Hni Hnd].
    assert (∀ j, j ∈ free_block_ids (hp_bm h) ↔ j = i ∨ j ∈ rest) as Hin
      by (intros j; rewrite Hperm, elem_of_cons; done).
    split; simpl; rewrite ?Hrest, ?length_alter; simpl; try done.
    + intros j. rewrite Hp, Hin. set_solver.
    + intros j Hj. rewrite elem_of_union, elem_of_singleton.
      intros [->|Hu']; [done|]. apply (Hd j); [rewrite Hin; by right|done].
    + intros j b Hj. unfold plus_one.
      apply lookup_alter_block in Hj as [(-> & b0 & Hb0 & ->)|(Hne & Hj)].
      * destruct (Hb _ _ Hb0) as [Hid Hr Hf Hu']. specialize (Hf Hfr).
        split; simpl; rewrite ?Hrest; simpl; try done.
        rewrite decide_True by done. lia.
      * destruct (Hb _ _ Hj) as [Hid Hr Hf Hu'].
        split; simpl; rewrite ?Hrest; simpl; [done| | |set_solver].
        -- rewrite decide_False by done. lia.
        -- intros Hjr. apply Hf. rewrite Hin. by right.
    + intros hs j Hj. destruct (Hh _ _ Hj) as (b & Hb' & <- & Hn).
      destruct (decide (j = i)) as [->|Hne].
      * rewrite list_lookup_alter_eq, Hb'. by eexists.
      * rewrite list_lookup_alter_ne by done. eauto.
Qed.

Lemma alloc_ok_release ex h i :
  alloc_ok ex h → i ∈ used_block_ids (hp_bm h) →
  alloc_ok (minus_one ex i) (release i h).
Proof.
  intros Hok Hu. pose proof (alloc_ok_used_lt _ _ _ Hok Hu) as Hi.
  destruct (alloc_ok_block _ _ _ Hok Hi) as (bi & Hbi & Hboki).
  pose proof Hok as [Hs Hnd Hp Hd Hb Hh Ht Hq]. unfold release. rewrite Hbi.
  pose proof (bo_used _ _ _ _ Hboki Hu) as Hpos.
  pose proof (bo_refs _ _ _ _ Hboki) as Hrefs.
  assert (i ∉ free_block_ids (hp_bm h)) as Hnf by (intros Hf; by destruct (Hd _ Hf)).
  case_match eqn:Hz.
  - apply Z.eqb_eq in Hz.
    split; simpl; rewrite ?length_alter; try done.
    + apply NoDup_app. split; [done|]. split; [set_solver|apply NoDup_singleton].
    + intros j. rewrite Hp, elem_of_app, list_elem_of_singleton.
      destruct (decide (j = i)) as [->|]; set_solver.
    + intros j. rewrite elem_of_app, list_elem_of_singleton.
      intros [Hj| ->]; [|set_solver]. specialize (Hd _ Hj). set_solver.
    + intros j b Hj. unfold minus_one.
      apply lookup_alter_block in Hj as [(-> & b0 & Hb0 & ->)|(Hne & Hj)].
      * destruct (Hb _ _ Hb0) as [Hid Hr Hf Hu']. simplify_eq.
        split; simpl; try done; [|set_solver]. rewrite decide_True by done. lia.
      * destruct (Hb _ _ Hj) as [Hid Hr Hf Hu'].
        split; simpl; [done| | |set_solver].
        -- rewrite decide_False by done. lia.
        -- rewrite elem_of_app, list_elem_of_singleton. intros [?| ->]; [auto|done].
    + intros hs j Hj. destruct (Hh _ _ Hj) as (b & Hb' & <- & Hn).
      destruct (decide (j = i)) as [->|Hne].
      * rewrite list_lookup_alter_eq, Hb'. by eexists.
      * rewrite list_lookup_alter_ne by done. eauto.
  - apply Z.eqb_neq in Hz.
    split; simpl; rewrite ?length_alter; try done.
    + intros j b Hj. unfold minus_one.
      apply lookup_alter_block in Hj as [(-> & b0 & Hb0 & ->)|(Hne & Hj)].
      * destruct (Hb _ _ Hb0) as [Hid Hr Hf Hu']. simplify_eq.
        split; simpl; try done; [|intros; lia]. rewrite decide_True by done. lia.
      * destruct (Hb _ _ Hj) as [Hid Hr Hf Hu']. split; simpl; try done.
        rewrite decide_False by done. lia.
    + intros hs j Hj. destruct (Hh _ _ Hj) as (b & Hb' & <- & Hn).
      destruct (decide (j = i)) as [->|Hne].
      * rewrite list_lookup_alter_eq, Hb'. by eexists.
      * rewrite list_lookup_alter_ne by done. eauto.
Qed.

(** ** The monadic primitives compute those functions *)

Lemma get_block_ok h i b : blocks (hp_bm h) !! i = Some b → get_block i h = (Ok b, h).
Proof. intros E. unfold get_block, inspect. by rewrite E. Qed.

Lemma upd_block_ok h i f b :
  blocks (hp_bm h) !! i = Some b → upd_block i f h = (Ok tt, alter_block i f h).
Proof. intros E. unfold upd_block. by rewrite (bind_ok _ _ _ _ _ (get_block_ok _ _ _ E)). Qed.

Lemma get_seq_ok h k s : hp_seqs h !! k = Some s → get_seq k h = (Ok s, h).
Proof. intros E. unfold get_seq, inspect. by rewrite E. Qed.

Lemma _allocate_block_ok ex h i rest :
  alloc_ok ex h → may_allocate h → free_block_ids (hp_bm h) = i :: rest →
  _allocate_block h = (Ok i, take_block i h).
Proof.
  intros Hok Hm Hf. unfold _allocate_block.
  rewrite (bind_ok _ _ _ _ _ (assert_allowed_internal h Hm)).
  unfold get_bm, gets. unfold bind at 1. rewrite Hf.
  destruct (alloc_ok_block ex h i Hok) as (b & Hb & Hbok).
  { eapply alloc_ok_free_lt; [done|]. rewrite Hf. set_solver. }
  pose proof (bo_free _ _ _ _ Hbok ltac:(rewrite Hf; set_solver)) as Hz.
  unfold take_block, evicted, set_bm at 1. rewrite Hb, Hf.
  unfold upd_bm at 1. unfold modify at 1. unfold bind at 1.
  rewrite (bind_ok _ _ _ b _
             (get_block_ok (set_bm (set_free_block_ids rest) h) i b Hb)).
  unfold assert. rewrite Hz. simpl.
  unfold raise_if, ret, when, bind, upd_bm, modify, upd_block, bind, get_block, inspect.
  destruct (negb (b_hash b =? -1) && bool_decide (hash_to_block_id (hp_bm h) !! b_hash b = Some i));
    simpl; rewrite Hb; reflexivity.
Qed.

(** With nothing free, it raises and changes nothing. *)
Lemma _allocate_block_empty h :
  may_allocate h → free_block_ids (hp_bm h) = [] →
  _allocate_block h = (Raise IndexError, h).
Proof.
  intros Hm Hf. unfold _allocate_block.
  rewrite (bind_ok _ _ _ _ _ (assert_allowed_internal h Hm)).
  unfold get_bm, gets. unfold bind at 1. by rewrite Hf.
Qed.

Lemma pin_block_ok ex h i :
  alloc_ok ex h → (i < length (blocks (hp_bm h)))%nat →
  pin_block i h = (Ok tt, pin i h).
Proof.
  intros Hok Hi. destruct (alloc_ok_block _ _ _ Hok Hi) as (b & Hb & _).
  unfold pin_block, pin, get_bm, gets. unfold bind at 1. case_bool_decide as Hu.
  - by apply (upd_block_ok _ _ _ _ Hb).
  - rewrite (bind_ok _ _ _ _ _ (upd_block_ok _ _ _ _ Hb)).
    destruct (proj1 (ok_part _ _ Hok i) Hi) as [Hf|]; [|contradiction].
    destruct (remove_first_elem _ _ Hf) as [rest Hrest].
    unfold set_bm, alter_block, upd_bm, modify, bind. simpl.
    rewrite Hrest. reflexivity.
Qed.

Lemma _deallocate_block_ok h i b :
  unfenced h → blocks (hp_bm h) !! i = Some b → b_ref_count b = 0 →
  i ∈ used_block_ids (hp_bm h) →
  _deallocate_block i h =
    (Ok tt, set_bm (λ m, set_free_block_ids (free_block_ids m ++ [i])
                     (set_used_block_ids (used_block_ids m ∖ {[i]}) m)) h).
Proof.
  intros Hun Hb Hz Hu. unfold _deallocate_block.
  rewrite (bind_ok _ _ _ _ _ (assert_allowed h Hun)).
  rewrite (bind_ok _ _ _ _ _ (get_block_ok _ _ _ Hb)).
  unfold assert. rewrite Hz. simpl. unfold raise_if at 1, ret, get_bm, gets.
  unfold bind at 1 2. unfold raise_if. rewrite bool_decide_eq_true_2 by done. reflexivity.
Qed.

Lemma release_block_ok ex h i :
  alloc_ok ex h → unfenced h → i ∈ used_block_ids (hp_bm h) →
  release_block i h = (Ok tt, release i h).
Proof.
  intros Hok Hun Hu. pose proof (alloc_ok_used_lt _ _ _ Hok Hu) as Hi.
  destruct (alloc_ok_block _ _ _ Hok Hi) as (b & Hb & Hbok).
  unfold release_block, release. rewrite Hb.
  rewrite (bind_ok _ _ _ _ _ (upd_block_ok _ _ _ _ Hb)).
  set (b' := set_ref_count (b_ref_count b - 1) b).
  set (h' := alter_block i _ h).
  assert (blocks (hp_bm h') !! i = Some b') as Hb'
    by (simpl; rewrite list_lookup_alter_eq, Hb; done).
  rewrite (bind_ok _ _ _ _ _ (get_block_ok _ _ _ Hb')). simpl.
  destruct (b_ref_count b - 1 =? 0) eqn:Hz; [|done]. simpl.
  rewrite (_deallocate_block_ok h' i b'); [|done|done|simpl; lia|done].
  unfold h', alter_block, set_bm. simpl. do 3 f_equal.
  unfold set_blocks, set_used_block_ids, set_free_block_ids. simpl. f_equal.
  apply list_eq. intros j. destruct (decide (j = i)) as [->|].
  - rewrite !list_lookup_alter_eq, Hb. simpl. unfold set_ref_count. do 2 f_equal. lia.
  - by rewrite !list_lookup_alter_ne.
Qed.
