(* ===== verification/BlockManagerInv.v ===== *)
(** * BlockManagerInv: whole allocator operations keep the ledger

    Built on AllocatorInv: growing a table by fresh blocks, pinning a cached
    prefix, and releasing a table are described by what they change ([grown],
    [pinned]); every public operation of BlockManager keeps [alloc_ok] whatever
    it returns or raises, and the operations the source documents as atomic
    leave the heap exactly as it was when they raise or refuse. *)
From S2P Require Import Prelude SamplingParams Sequence Heap BlockManager Reservation.
From S2P Require Import AllocatorInv.

(** ** Frames *)

(** What no allocation touches: sizes and the reservation bookkeeping. *)
Record same_frame (h h' : heap) : Prop := {
  fr_size : block_size (hp_bm h') = block_size (hp_bm h);
  fr_seq_size : hp_seq_block_size h' = hp_seq_block_size h;
  fr_len : length (blocks (hp_bm h')) = length (blocks (hp_bm h));
  fr_active : _active_temporary_reservations (hp_bm h') =
              _active_temporary_reservations (hp_bm h);
  fr_by_seq : _temporary_reservation_by_seq_id (hp_bm h') =
              _temporary_reservation_by_seq_id (hp_bm h);
  fr_progress : _temporary_reservation_in_progress (hp_bm h') =
                _temporary_reservation_in_progress (hp_bm h);
  fr_internal : _temporary_internal_allocation (hp_bm h') =
                _temporary_internal_allocation (hp_bm h);
  fr_ids : _temporary_reservation_ids (hp_bm h') = _temporary_reservation_ids (hp_bm h);
  fr_object : next_object (hp_bm h') = next_object (hp_bm h);
}.

#[export] Instance same_frame_preorder : PreOrder same_frame.
Proof.
  split; [by split|]. intros ??? [] []. split; congruence.
Qed.

Lemma same_frame_may_allocate h h' : same_frame h h' → may_allocate h → may_allocate h'.
Proof. intros [] [? ?]. unfold may_allocate. split; [congruence|]. by rewrite fr_progress0, fr_internal0. Qed.

Lemma same_frame_unfenced h h' : same_frame h h' → unfenced h → unfenced h'.
Proof. intros [] [? ?]. unfold unfenced. split; congruence. Qed.

Lemma same_frame_push k i h : same_frame h (push k i h).
Proof. by split. Qed.
Lemma same_frame_take i h : same_frame h (take_block i h).
Proof. split; try done. simpl. by rewrite length_alter. Qed.
Lemma same_frame_pin i h : same_frame h (pin i h).
Proof. unfold pin. case_bool_decide; split; try done; simpl; by rewrite length_alter. Qed.
Lemma same_frame_release i h : same_frame h (release i h).
Proof.
  unfold release. repeat case_match; split; try done; simpl; by rewrite length_alter.
Qed.

Create HintDb frame.
#[export] Hint Resolve same_frame_push same_frame_take same_frame_pin
  same_frame_release same_frame_may_allocate same_frame_unfenced : frame.

(** ** Growing a table by fresh blocks *)

Definition fresh_block (i : nat) : block := mk_block i 1 (-1) [].

(** [h'] is [h] with the fresh blocks [new] appended to the table of [k]. *)
Record grown (k : nat) (new : list nat) (h h' : heap) : Prop := {
  gr_frame : same_frame h h';
  gr_seqs : hp_seqs h' =
    alter (λ s, set_block_table (block_table s ++ new) s) k (hp_seqs h);
  gr_free : free_block_ids (hp_bm h) = new ++ free_block_ids (hp_bm h');
  gr_used : used_block_ids (hp_bm h') = list_to_set new ∪ used_block_ids (hp_bm h);
  gr_new : ∀ i, i ∈ new → blocks (hp_bm h') !! i = Some (fresh_block i);
  gr_old : ∀ i, i ∉ new → blocks (hp_bm h') !! i = blocks (hp_bm h) !! i;
  gr_hash : ∀ hs i, hash_to_block_id (hp_bm h') !! hs = Some i ↔
    hash_to_block_id (hp_bm h) !! hs = Some i ∧ i ∉ new;
}.

Lemma grown_nil k h : grown k [] h h.
Proof.
  split; try done; [| |set_solver..].
  - apply map_eq. intros j. rewrite lookup_alter. case_decide; [|done]. subst.
    destruct (hp_seqs h !! j) as [[]|]; [|done]. simpl. by rewrite app_nil_r.
  - set_solver.
Qed.

Lemma evicted_keeps ex h i hs j :
  alloc_ok ex h → hash_to_block_id (hp_bm h) !! hs = Some j → j ≠ i →
  evicted (hp_bm h) i !! hs = Some j.
Proof.
  intros Hok Hj Hne. unfold evicted. destruct (blocks (hp_bm h) !! i) as [b|]; [|done].
  destruct (negb (b_hash b =? -1)); simpl; [|done].
  case_bool_decide as E; [|done]. rewrite lookup_delete. case_decide; congruence.
Qed.

(** Taking the head of the free list and appending it. *)
Lemma grown_one ex k i rest h s :
  alloc_ok ex h → free_block_ids (hp_bm h) = i :: rest → hp_seqs h !! k = Some s →
  grown k [i] h (push k i (take_block i h)) ∧ alloc_ok ex (push k i (take_block i h)).
Proof.
  intros Hok Hf Hk.
  assert (i < length (blocks (hp_bm h)))%nat as Hi
    by (eapply alloc_ok_free_lt; [done|]; rewrite Hf; set_solver).
  split.
  - destruct (alloc_ok_block _ _ _ Hok Hi) as (b & Hb & Hbok).
    split; simpl.
    + etrans; [apply same_frame_take|apply same_frame_push].
    + done.
    + by rewrite Hf.
    + set_solver.
    + intros j Hj%list_elem_of_singleton. subst j.
      rewrite list_lookup_alter_eq, Hb. simpl. unfold Block_reset, fresh_block.
      by rewrite (bo_id _ _ _ _ Hbok).
    + intros j Hj. apply list_lookup_alter_ne. set_solver.
    + intros hs j. rewrite list_elem_of_singleton. split.
      * intros He. apply (evicted_lookup _ _ _ _ _ Hok) in He. tauto.
      * intros [He Hne]. by eapply evicted_keeps.
  - eapply alloc_ok_push; [by eapply alloc_ok_take|exact Hk|].
    simpl. by rewrite length_alter.
Qed.

Lemma grown_trans k new1 new2 h1 h2 h3 :
  NoDup (new1 ++ new2) → grown k new1 h1 h2 → grown k new2 h2 h3 →
  grown k (new1 ++ new2) h1 h3.
Proof.
  intros Hnd [F1 S1 R1 U1 N1 O1 H1] [F2 S2 R2 U2 N2 O2 H2].
  apply NoDup_app in Hnd as (_ & Hdisj & _).
  split.
  - by etrans.
  - rewrite S2, S1. apply map_eq. intros j. rewrite !lookup_alter.
    repeat case_decide; simplify_eq/=; [|done].
    destruct (hp_seqs h1 !! _) as [s|]; [|done]. simpl.
    unfold set_block_table. simpl. by rewrite app_assoc.
  - by rewrite R1, R2, app_assoc.
  - rewrite U2, U1, list_to_set_app_L. set_solver.
  - intros i [Hi|Hi]%elem_of_app; [|by apply N2].
    rewrite O2 by (intros ?; by apply (Hdisj i)). by apply N1.
  - intros i Hi. rewrite elem_of_app in Hi. rewrite O2, O1 by tauto. done.
  - intros hs i. rewrite H2, H1, elem_of_app. tauto.
Qed.

(** The loop [for _ in range(n): table.append(self._allocate_block())]. *)
Lemma grow_loop {X} ex k (l : list X) h s :
  alloc_ok ex h → may_allocate h → hp_seqs h !! k = Some s →
  (length l <= length (free_block_ids (hp_bm h)))%nat →
  ∃ h', for_each (λ _, let* i := _allocate_block in push_block k i) l h = (Ok tt, h') ∧
        grown k (take (length l) (free_block_ids (hp_bm h))) h h' ∧ alloc_ok ex h'.
Proof.
  revert h s. induction l as [|x l IH]; intros h s Hok Hm Hk Hlen.
  { exists h. split; [done|]. split; [apply grown_nil|done]. }
  simpl in *. destruct (free_block_ids (hp_bm h)) as [|i rest] eqn:Hf; simpl in *; [lia|].
  destruct (grown_one ex k i rest h s Hok Hf Hk) as [Hg Hok1].
  set (h1 := push k i (take_block i h)) in *.
  assert (for_each (λ _, let* j := _allocate_block in push_block k j) (x :: l) h =
          for_each (λ _ : X, let* j := _allocate_block in push_block k j) l h1) as Heq.
  { simpl. unfold bind at 1. unfold bind at 1.
    by rewrite (_allocate_block_ok ex h i rest Hok Hm Hf). }
  assert (free_block_ids (hp_bm h1) = rest) as Hfree by (simpl; by rewrite Hf).
  destruct (IH h1 (set_block_table (block_table s ++ [i]) s)) as (h' & E & Hg' & Hok').
  - done.
  - eapply same_frame_may_allocate; [apply Hg|done].
  - simpl. by rewrite lookup_alter, decide_True, Hk.
  - rewrite Hfree. lia.
  - exists h'. split; [by rewrite <-E|]. split; [|done].
    rewrite Hfree in Hg'. apply (grown_trans k [i] _ _ h1); [|done|done].
    pose proof (ok_nodup _ _ Hok) as Hnd. rewrite Hf in Hnd.
    eapply sublist_NoDup; [exact Hnd|]. apply sublist_skip, sublist_take.
Qed.

(** ** Pinning a cached prefix *)

Definition content (b : block) : nat * Z * list Z :=
  (b_block_id b, b_hash b, b_token_ids b).

(** [h'] is [h] with one more reference on each of [ids], appended to the table
    of [k]; no block content and no index entry changes. *)
Record pinned (k : nat) (ids : list nat) (h h' : heap) : Prop := {
  pi_frame : same_frame h h';
  pi_seqs : hp_seqs h' =
    alter (λ s, set_block_table (block_table s ++ ids) s) k (hp_seqs h);
  pi_free : free_block_ids (hp_bm h') = filter (λ i, i ∉ ids) (free_block_ids (hp_bm h));
  pi_used : used_block_ids (hp_bm h') = list_to_set ids ∪ used_block_ids (hp_bm h);
  pi_content : ∀ i, content <$> blocks (hp_bm h') !! i = content <$> blocks (hp_bm h) !! i;
  pi_old : ∀ i, i ∉ ids → blocks (hp_bm h') !! i = blocks (hp_bm h) !! i;
  pi_hash : hash_to_block_id (hp_bm h') = hash_to_block_id (hp_bm h);
}.

Lemma pinned_nil k h : pinned k [] h h.
Proof.
  split; try done; [| |set_solver].
  - apply map_eq. intros j. rewrite lookup_alter. case_decide; [|done]. subst.
    destruct (hp_seqs h !! j) as [[]|]; [|done]. simpl. by rewrite app_nil_r.
  - symmetry. apply filter_all. intros i _. set_solver.
Qed.

Lemma pinned_one ex k i h s :
  alloc_ok ex h → (i < length (blocks (hp_bm h)))%nat → hp_seqs h !! k = Some s →
  pinned k [i] h (push k i (pin i h)) ∧ alloc_ok ex (push k i (pin i h)).
Proof.
  intros Hok Hi Hk. split; last first.
  { eapply alloc_ok_push; [by apply alloc_ok_pin| |].
    - unfold pin. case_bool_decide; exact Hk.
    - by rewrite (fr_len _ _ (same_frame_pin i h)). }
  assert (∀ f, (∀ b, content (f b) = content b) → ∀ j,
    content <$> alter f i (blocks (hp_bm h)) !! j = content <$> blocks (hp_bm h) !! j) as Hc.
  { intros f Hf j. destruct (decide (j = i)) as [->|].
    - rewrite list_lookup_alter_eq. destruct (blocks (hp_bm h) !! i); simpl; by rewrite ?Hf.
    - by rewrite list_lookup_alter_ne. }
  assert (filter (λ j, j ∉ [i]) (free_block_ids (hp_bm h)) =
          filter (λ j, j ≠ i) (free_block_ids (hp_bm h))) as Hfil
    by (apply list_filter_iff; intros j; set_solver).
  split.
  - etrans; [apply same_frame_pin|apply same_frame_push].
  - simpl. unfold pin. by case_bool_decide.
  - rewrite Hfil. simpl. unfold pin. case_bool_decide as Hu; simpl.
    + symmetry. apply filter_all. intros j Hj ->. by apply (ok_disj _ _ Hok i).
    + destruct (proj1 (ok_part _ _ Hok i) Hi) as [Hf|]; [|contradiction].
      destruct (remove_first_elem _ _ Hf) as [rest Hrest]. rewrite Hrest. simpl.
      apply remove_first_filter; [apply Hok|done].
  - unfold pin. case_bool_decide as Hu; simpl; set_solver.
  - simpl. unfold pin. case_bool_decide; simpl; by apply Hc.
  - intros j Hj. simpl. unfold pin.
    case_bool_decide; simpl; apply list_lookup_alter_ne; set_solver.
  - simpl. unfold pin. by case_bool_decide.
Qed.

Lemma pinned_trans k ids1 ids2 h1 h2 h3 :
  pinned k ids1 h1 h2 → pinned k ids2 h2 h3 → pinned k (ids1 ++ ids2) h1 h3.
Proof.
  intros [F1 S1 R1 U1 C1 O1 H1] [F2 S2 R2 U2 C2 O2 H2]. split.
  - by etrans.
  - rewrite S2, S1. apply map_eq. intros j. rewrite !lookup_alter.
    repeat case_decide; simplify_eq/=; [|done].
    destruct (hp_seqs h1 !! _) as [s|]; [|done]. simpl.
    unfold set_block_table. simpl. by rewrite app_assoc.
  - rewrite R2, R1, list_filter_filter. apply list_filter_iff.
    intros i. rewrite elem_of_app. tauto.
  - rewrite U2, U1, list_to_set_app_L. set_solver.
  - intros i. by rewrite C2, C1.
  - intros i Hi. rewrite elem_of_app in Hi. rewrite O2, O1 by tauto. done.
  - congruence.
Qed.

Lemma pin_loop ex k ids h s :
  alloc_ok ex h → hp_seqs h !! k = Some s →
  (∀ i, i ∈ ids → (i < length (blocks (hp_bm h)))%nat) →
  ∃ h', for_each (λ i, pin_block i ;;; push_block k i) ids h = (Ok tt, h') ∧
        pinned k ids h h' ∧ alloc_ok ex h'.
Proof.
  revert h s. induction ids as [|i ids IH]; intros h s Hok Hk Hlt.
  { exists h. split; [done|]. split; [apply pinned_nil|done]. }
  assert (i < length (blocks (hp_bm h)))%nat as Hi by (apply Hlt; set_solver).
  destruct (pinned_one ex k i h s Hok Hi Hk) as [Hp Hok1].
  set (h1 := push k i (pin i h)) in *.
  destruct (IH h1 (set_block_table (block_table s ++ [i]) s)) as (h' & E & Hp' & Hok').
  - done.
  - rewrite (pi_seqs _ _ _ _ Hp), lookup_alter, decide_True, Hk; done.
  - intros j Hj. rewrite (fr_len _ _ (pi_frame _ _ _ _ Hp)). apply Hlt. set_solver.
  - exists h'. split.
    + simpl. unfold bind at 1. unfold bind at 1.
      by rewrite (pin_block_ok ex h i Hok Hi).
    + split; [|done]. by apply (pinned_trans k [i] _ _ h1).
Qed.

(** Pinning frees up at most the revived blocks. *)
Lemma pinned_free_length ex k ids h h' :
  alloc_ok ex h → pinned k ids h h' →
  (length (free_block_ids (hp_bm h)) <=
   length (free_block_ids (hp_bm h')) +
   length (filter (λ i, i ∉ used_block_ids (hp_bm h)) ids))%nat.
Proof.
  intros Hok Hp. rewrite (pi_free _ _ _ _ Hp).
  set (free := free_block_ids (hp_bm h)).
  pose proof (Permutation_length (filter_app_complement (λ i, i ∉ ids) free)) as Hl.
  rewrite length_app in Hl.
  assert (length (filter (λ i : nat, ¬ (i ∉ ids)) free) <=
          length (filter (λ i, i ∉ used_block_ids (hp_bm h)) ids))%nat; [|lia].
  apply submseteq_length, NoDup_submseteq; [apply NoDup_filter, Hok|].
  intros i. rewrite !list_elem_of_filter. intros [Hi Hf].
  split; [by apply (ok_disj _ _ Hok)|]. by destruct (decide (i ∈ ids)).
Qed.

(** ** The fence, as a rule *)

Lemma wp_fence (Q : unit → heap → Prop) (E : exn → heap → Prop) h :
  (unfenced h → Q tt h) → (∀ e, E e h) →
  wp (_assert_allocator_mutation_allowed false) Q E h.
Proof.
  intros HQ HE. unfold wp.
  destruct (_assert_allocator_mutation_allowed false h) as [[[]|e] h'] eqn:Heq;
    pose proof (assert_allowed_state _ _ _ _ Heq); subst; [|by apply HE].
  apply HQ. unfold _assert_allocator_mutation_allowed, _active_temporary_reservation,
    get_bm, gets, bind, raise_if, ret, raise in Heq.
  destruct (bool_decide (1 < _)%nat); simplify_eq/=.
  destruct (map_to_list (_active_temporary_reservations (hp_bm h))) eqn:El; simpl in *.
  - split; [by apply map_to_list_empty_iff|].
    by destruct (_temporary_reservation_in_progress (hp_bm h)); simplify_eq/=.
  - by destruct (_temporary_reservation_in_progress (hp_bm h)); simplify_eq/=.
Qed.

(** The same rule with the exception known to come from a held fence. *)
Lemma wp_fence' (Q : unit → heap → Prop) (E : exn → heap → Prop) h :
  (unfenced h → Q tt h) → (∀ e, ¬ unfenced h → E e h) →
  wp (_assert_allocator_mutation_allowed false) Q E h.
Proof.
  intros HQ HE. destruct (decide (_active_temporary_reservations (hp_bm h) = ∅)) as [Ha|Ha];
    [destruct (_temporary_reservation_in_progress (hp_bm h)) eqn:Ep|].
  - unfold wp. destruct (_assert_allocator_mutation_allowed false h) as [[[]|e] h'] eqn:Heq;
      pose proof (assert_allowed_state _ _ _ _ Heq); subst; [|apply HE; intros [? ?]; congruence].
    exfalso. unfold _assert_allocator_mutation_allowed in Heq.
    rewrite (bind_ok _ _ _ _ _ (active_empty h Ha)) in Heq.
    unfold bind, get_bm, gets in Heq. simpl in Heq. by rewrite Ep in Heq.
  - assert (unfenced h) by done. unfold wp. rewrite assert_allowed; auto.
  - unfold wp. destruct (fenced_refuses false h Ha) as [e ->]. apply HE. by intros [? _].
Qed.

Lemma wp_get_seq k (Q : sequence → heap → Prop) (E : exn → heap → Prop) h :
  (∀ s, hp_seqs h !! k = Some s → Q s h) → (hp_seqs h !! k = None → E Dangling h) →
  wp (get_seq k) Q E h.
Proof.
  intros HQ HE. unfold wp, get_seq, inspect. destruct (hp_seqs h !! k); eauto.
Qed.

Lemma wp_gets {S A} (f : S → A) (Q : A → S → Prop) E s : Q (f s) s → wp (gets f) Q E s.
Proof. done. Qed.

(** Running the next statement of a goal [wp (bind m k) Q E s]; the goal for
    the exception of the statement is tried with [done]. *)
Tactic Notation "wfence" ident(H) :=
  apply wp_bind, wp_fence; [intros H|try done].
Tactic Notation "wseq" ident(s) ident(H) :=
  apply wp_bind, wp_get_seq; [intros s H|first [done | intros; exfalso; congruence | idtac]].
Tactic Notation "wread" := apply wp_bind, wp_gets.
Tactic Notation "wguard" ident(H) :=
  apply wp_bind, wp_raise_if; [try done|intros H].
Tactic Notation "wlift" ident(a) ident(H) :=
  apply wp_bind, wp_lift; [intros a H|try done].

(** ** The reusable prefix *)

Lemma cached_block_Some ex h hs toks i :
  alloc_ok ex h → cached_block (hp_bm h) hs toks = Some i →
  hash_to_block_id (hp_bm h) !! hs = Some i ∧
  ∃ b, blocks (hp_bm h) !! i = Some b ∧ b_token_ids b = toks ∧ b_hash b = hs.
Proof.
  intros Hok. unfold cached_block.
  destruct (hash_to_block_id (hp_bm h) !! hs) as [j|] eqn:Ej; [|done].
  destruct (ok_hash _ _ Hok _ _ Ej) as (b & Hb & Hh & _). rewrite Hb.
  case_bool_decide; [|done]. intros ?; simplify_eq. eauto.
Qed.

Lemma reusable_prefix_lt H ex h bs s idx h0 ids :
  alloc_ok ex h → reusable_prefix H bs (hp_bm h) s idx h0 = Ok ids →
  length ids = length idx ∧ ∀ i, i ∈ ids → (i < length (blocks (hp_bm h)))%nat.
Proof.
  intros Hok. revert h0 ids. induction idx as [|x idx IH]; intros h0 ids; simpl.
  { intros ?; simplify_eq. split; [done|set_solver]. }
  destruct (seq_block bs s x) as [toks|]; simpl; [|done].
  destruct (cached_block (hp_bm h) (H toks h0) toks) as [b|] eqn:Eb; [|done].
  destruct (reusable_prefix H bs (hp_bm h) s idx (H toks h0)) as [ids'|] eqn:Er; simpl; [|done].
  intros ?; simplify_eq. destruct (IH _ _ Er) as [Hl Hlt]. split; [simpl; by rewrite Hl|].
  intros i [->|Hi]%elem_of_cons; [|by apply Hlt].
  destruct (cached_block_Some _ _ _ _ _ Hok Eb) as (_ & b' & Hb' & _).
  by eapply lookup_lt_Some.
Qed.

Lemma snapshot_ok ex h ids :
  alloc_ok ex h → (∀ i, i ∈ ids → (i < length (blocks (hp_bm h)))%nat) →
  ∃ sts, _snapshot_block_states (hp_bm h) ids = Ok sts.
Proof.
  intros Hok Hlt. apply omap_all_total. intros i Hi. rewrite elem_of_sorted_set in Hi.
  destruct (alloc_ok_block _ _ _ Hok (Hlt i Hi)) as (b & -> & _). by eexists.
Qed.

(** ** Attaching: the body of [allocate_incremental] *)

(** [h'] is [h] with the cached blocks [ids] pinned, then the blocks [new]
    taken fresh, both appended to the table of [k], whose target coverage is
    then [cached] and draft coverage zero. *)
Definition attached (k : nat) (ids new : list nat) (cached : Z) (h h' : heap) : Prop :=
  ∃ h1 h2, pinned k ids h h1 ∧ grown k new h1 h2 ∧
    h' = set_seqs (alter (set_num_draft_cached_tokens 0) k)
           (set_seqs (alter (set_num_cached_tokens cached) k) h2).

Lemma coverage_ok ex k h f :
  (∀ s, block_table (f s) = block_table s ∧ seq_id (f s) = seq_id s ∧
        token_ids (f s) = token_ids s ∧ num_tokens (f s) = num_tokens s ∧
        num_prompt_tokens (f s) = num_prompt_tokens s ∧ last_token (f s) = last_token s) →
  alloc_ok ex h → alloc_ok ex (set_seqs (alter f k) h).
Proof.
  intros Hf. apply alloc_ok_upd_seq. intros s.
  destruct (Hf s) as (E1 & E2 & E3 & E4 & E5 & E6). split; [done|]. split; [done|].
  intros [Hl Hp Hlast]. split; rewrite ?E3, ?E4, ?E5, ?E6; done.
Qed.

Lemma attach_blocks_ok ex k ids nc req h s :
  alloc_ok ex h → unfenced h → hp_seqs h !! k = Some s →
  (∀ i, i ∈ ids → (i < length (blocks (hp_bm h)))%nat) → nc <= req →
  req - nc + Z.of_nat (length (filter (λ i, i ∉ used_block_ids (hp_bm h)) ids))
    <= Z.of_nat (length (free_block_ids (hp_bm h))) →
  ∃ h' new, attach_blocks k ids nc req h = (Ok tt, h') ∧
    attached k ids new (nc * block_size (hp_bm h)) h h' ∧
    Z.of_nat (length new) = req - nc ∧ alloc_ok ex h'.
Proof.
  intros Hok Hun Hk Hlt Hnc Hfree.
  destruct (pin_loop ex k ids h s Hok Hk Hlt) as (h1 & E1 & Hp & Hok1).
  pose proof (pinned_free_length _ _ _ _ _ Hok Hp) as Hlen.
  assert (hp_seqs h1 !! k = Some (set_block_table (block_table s ++ ids) s)) as Hk1
    by (rewrite (pi_seqs _ _ _ _ Hp), lookup_alter, decide_True, Hk; done).
  destruct (grow_loop ex k (py_range nc req) h1 _ Hok1
    (same_frame_may_allocate _ _ (pi_frame _ _ _ _ Hp) (unfenced_may_allocate _ Hun)) Hk1)
    as (h2 & E2 & Hg & Hok2).
  { rewrite length_py_range. lia. }
  eexists _, _. split; [|split; [|split]].
  - unfold attach_blocks. rewrite (bind_ok _ _ _ _ _ E1), (bind_ok _ _ _ _ _ E2).
    reflexivity.
  - exists h1, h2. split; [done|]. split; [exact Hg|].
    rewrite (fr_size _ _ (gr_frame _ _ _ _ Hg)), (fr_size _ _ (pi_frame _ _ _ _ Hp)). done.
  - rewrite length_take, length_py_range. lia.
  - apply coverage_ok; [done|]. apply coverage_ok; [done|exact Hok2].
Qed.

(** ** Replacing a table *)

Lemma alloc_ok_set_table ex ex' h k s t :
  alloc_ok ex h → hp_seqs h !! k = Some s →
  (∀ i, i ∈ t → (i < length (blocks (hp_bm h)))%nat) →
  (∀ i, ex' i = ex i + Z.of_nat (count i (block_table s)) - Z.of_nat (count i t)) →
  alloc_ok ex' (set_seqs (alter (set_block_table t) k) h).
Proof.
  intros [Hs Hnd Hp Hd Hb Hh Ht Hq] Hk Hlt Hex.
  split; simpl; rewrite ?(alter_insert_eq _ _ _ _ Hk); try done.
  - intros j b Hj. destruct (Hb _ _ Hj) as [Hid Hr Hf Hu]. split; simpl; try done.
    rewrite (alter_insert_eq _ _ _ _ Hk), Hex.
    pose proof (refs_insert (hp_seqs h) k s (set_block_table t s) j Hk). simpl in *. lia.
  - intros k' s' j. rewrite lookup_insert. case_decide as Hk'; [|by eauto].
    intros ?; simplify_eq/=. apply Hlt.
  - intros k' s'. rewrite lookup_insert. case_decide as Hk'; [|by eauto].
    intros ?; simplify_eq/=. destruct (Hq _ _ Hk) as [? [? ? ?]]. split; [done|by split].
Qed.

(** ** Releasing a table *)

(** [h'] is [h] with one reference less per element of [ids]: contents, index
    and sequences stay. *)
Record released (ids : list nat) (h h' : heap) : Prop := {
  rl_frame : same_frame h h';
  rl_seqs : hp_seqs h' = hp_seqs h;
  rl_free : ∃ tail, free_block_ids (hp_bm h') = free_block_ids (hp_bm h) ++ tail ∧
    (∀ i, i ∈ tail → i ∈ ids);
  rl_content : ∀ i, content <$> blocks (hp_bm h') !! i = content <$> blocks (hp_bm h) !! i;
  rl_old : ∀ i, i ∉ ids → blocks (hp_bm h') !! i = blocks (hp_bm h) !! i;
  rl_hash : hash_to_block_id (hp_bm h') = hash_to_block_id (hp_bm h);
}.

Definition minus_all (ex : nat → Z) (l : list nat) : nat → Z :=
  λ i, ex i - Z.of_nat (count i l).

Lemma released_one i h :
  released [i] h (release i h).
Proof.
  unfold release. destruct (blocks (hp_bm h) !! i) as [b|] eqn:Hb; last first.
  { split; try done. exists []. rewrite app_nil_r. set_solver. }
  assert (∀ f : block → block, (∀ b, content (f b) = content b) → ∀ j,
    content <$> alter f i (blocks (hp_bm h)) !! j = content <$> blocks (hp_bm h) !! j) as Hc.
  { intros f Hf j. destruct (decide (j = i)) as [->|].
    - rewrite list_lookup_alter_eq, Hb. simpl. by rewrite Hf.
    - by rewrite list_lookup_alter_ne. }
  case_match; split; simpl; try done; try (by apply Hc);
    try (split; simpl; by rewrite ?length_alter);
    try (intros j Hj; apply list_lookup_alter_ne; set_solver).
  - exists [i]. set_solver.
  - exists []. rewrite app_nil_r. set_solver.
Qed.

Lemma released_trans ids1 ids2 h1 h2 h3 :
  released ids1 h1 h2 → released ids2 h2 h3 → released (ids1 ++ ids2) h1 h3.
Proof.
  intros [F1 S1 (t1 & R1 & I1) C1 O1 H1] [F2 S2 (t2 & R2 & I2) C2 O2 H2]. split.
  - by etrans.
  - congruence.
  - exists (t1 ++ t2). rewrite R2, R1, app_assoc. split; [done|]. set_solver.
  - intros i. by rewrite C2, C1.
  - intros i Hi. rewrite elem_of_app in Hi. rewrite O2, O1 by tauto. done.
  - congruence.
Qed.

Lemma release_loop ex l h :
  alloc_ok ex h → unfenced h →
  (∀ i, i ∈ l → (i < length (blocks (hp_bm h)))%nat) →
  (∀ i, Z.of_nat (count i l) <= Z.of_nat (refs (hp_seqs h) i) + ex i) →
  ∃ h', for_each release_block l h = (Ok tt, h') ∧ released l h h' ∧
        alloc_ok (minus_all ex l) h'.
Proof.
  revert ex h. induction l as [|i l IH]; intros ex h Hok Hun Hlt Hle.
  { exists h. split; [done|]. split.
    - split; try done. exists []. rewrite app_nil_r. set_solver.
    - eapply alloc_ok_ext; [|done]. intros j. unfold minus_all. rewrite count_nil. lia. }
  assert (i ∈ used_block_ids (hp_bm h)) as Hu.
  { assert (i < length (blocks (hp_bm h)))%nat as Hi by (apply Hlt; set_solver).
    destruct (proj1 (ok_part _ _ Hok i) Hi) as [Hf|]; [|done].
    destruct (alloc_ok_block _ _ _ Hok Hi) as (b & Hb & [_ Hr Hf' _]).
    specialize (Hf' Hf). specialize (Hle i). rewrite count_cons, decide_True in Hle; [lia|done]. }
  pose proof (released_one i h) as Hr1.
  destruct (IH (minus_one ex i) (release i h)) as (h' & E & Hr & Hok').
  - by apply alloc_ok_release.
  - eapply same_frame_unfenced; [apply Hr1|done].
  - intros j Hj. rewrite (fr_len _ _ (rl_frame _ _ _ Hr1)). apply Hlt. set_solver.
  - intros j. rewrite (rl_seqs _ _ _ Hr1). specialize (Hle j). unfold minus_one.
    rewrite count_cons in Hle. repeat case_decide; simplify_eq; lia.
  - exists h'. split.
    + simpl. unfold bind. rewrite (release_block_ok ex h i Hok Hun Hu). exact E.
    + split; [by apply (released_trans [i] _ _ (release i h))|].
      eapply alloc_ok_ext; [|exact Hok']. intros j. unfold minus_all, minus_one.
      rewrite count_cons. repeat case_decide; simplify_eq; lia.
Qed.

(** The body of [deallocate] once no lease is in the way. *)
Definition deallocated (k : nat) (s : sequence) (h h' : heap) : Prop :=
  ∃ h1, released (reverse (block_table s)) h h1 ∧
    h' = set_seqs (alter (set_block_table []) k)
          (set_seqs (alter (set_num_draft_cached_tokens 0) k)
            (set_seqs (alter (set_num_cached_tokens 0) k) h1)).

Lemma release_table_ok h k s :
  alloc_ok none h → unfenced h → hp_seqs h !! k = Some s →
  ∃ h', (for_each release_block (reverse (block_table s)) ;;;
         upd_seq k (set_num_cached_tokens 0) ;;;
         upd_seq k (set_num_draft_cached_tokens 0) ;;;
         upd_seq k (set_block_table [])) h = (Ok tt, h') ∧
    deallocated k s h h' ∧ alloc_ok none h' ∧ unfenced h'.
Proof.
  intros Hok Hun Hk.
  destruct (release_loop none (reverse (block_table s)) h Hok Hun) as (h1 & E & Hr & Hok1).
  - intros i Hi. eapply (ok_table _ _ Hok k s); [done|]. by apply elem_of_reverse.
  - intros i. rewrite count_reverse. unfold none. pose proof (refs_ge _ _ _ i Hk). lia.
  - eexists. split; [|split; [by exists h1|split]].
    + rewrite (bind_ok _ _ _ _ _ E). reflexivity.
    + assert (hp_seqs (set_seqs (alter (set_num_draft_cached_tokens 0) k)
        (set_seqs (alter (set_num_cached_tokens 0) k) h1)) !! k =
        Some (set_num_draft_cached_tokens 0 (set_num_cached_tokens 0 s))) as Hk1.
      { simpl. by rewrite !lookup_alter, !decide_True, (rl_seqs _ _ _ Hr), Hk. }
      eapply alloc_ok_set_table; [| exact Hk1|set_solver|].
      * apply coverage_ok; [done|]. apply coverage_ok; [done|exact Hok1].
      * intros i. unfold minus_all, none. cbn -[count Z.of_nat Z.add Z.sub]. rewrite count_reverse, count_nil. lia.
    + destruct (same_frame_unfenced _ _ (rl_frame _ _ _ Hr) Hun). by split.
Qed.
