(* ===== verification/BlockManagerSpec.v ===== *)
(** * BlockManagerSpec: what each allocator operation promises

    The contracts of the ordinary (lease-free) operations of BlockManager,
    proved from the invariant lemmas of BlockManagerInv: the effect when the
    operation succeeds, the exact condition under which it refuses, and the
    untouched heap when it refuses or raises. *)
From S2P Require Import Prelude SamplingParams Sequence Heap BlockManager Reservation.
From S2P Require Import AllocatorInv BlockManagerInv.

Section spec.
Variable compute_hash : list Z → Z → Z.

(** ** Incremental allocation *)

(** The guards of [allocate_incremental]. *)
Definition incremental_pre (h : heap) (s : sequence) (nc through : Z) : Prop :=
  unfenced h ∧ block_table s = [] ∧
  0 <= nc < num_blocks (block_size (hp_bm h)) s ∧ 1 <= through <= num_tokens s ∧
  nc < ceil_div through (block_size (hp_bm h)) ∧
  is_ok (reusable_prefix compute_hash (block_size (hp_bm h)) (hp_bm h) s
           (py_range 0 nc) (-1)) = true.

Lemma allocate_incremental_wp h k s nc through :
  alloc_ok none h → hp_seqs h !! k = Some s →
  wp (allocate_incremental compute_hash k nc through)
    (λ ok h', incremental_pre h s nc through ∧
      let bs := block_size (hp_bm h) in
      ∃ ids, reusable_prefix compute_hash bs (hp_bm h) s (py_range 0 nc) (-1) = Ok ids ∧
      let needed := ceil_div through bs - nc +
        Z.of_nat (length (filter (λ i, i ∉ used_block_ids (hp_bm h)) ids)) in
      if ok : bool then
        alloc_ok none h' ∧ needed <= Z.of_nat (length (free_block_ids (hp_bm h))) ∧
        ∃ new, attached k ids new (nc * bs) h h' ∧
          Z.of_nat (length (ids ++ new)) = ceil_div through bs
      else h' = h ∧ Z.of_nat (length (free_block_ids (hp_bm h))) < needed)
    (λ _ h', h' = h ∧ ¬ incremental_pre h s nc through) h.
Proof.
  intros Hok Hk. unfold allocate_incremental, incremental_pre.
  destruct (ok_size _ _ Hok) as [Hbs Hsz].
  apply wp_bind, wp_fence'; [intros Hun|naive_solver].
  wseq s' Hk'; rewrite Hk in Hk'; simplify_eq. wread. rewrite Hsz.
  wguard Htab; [intros ?%negb_true_iff%bool_decide_eq_false; naive_solver|].
  wguard Hnc; [intros ?%negb_true_iff%andb_false_iff; rewrite Z.leb_gt, Z.ltb_ge in *; naive_solver lia|].
  wguard Hthr; [intros ?%negb_true_iff%andb_false_iff; rewrite !Z.leb_gt in *; naive_solver lia|].
  wread.
  change ((through + block_size (hp_bm h) - 1) `div` block_size (hp_bm h))
    with (ceil_div through (block_size (hp_bm h))).
  wguard Hreq; [intros ?%Z.leb_le; naive_solver lia|].
  wlift ids Hids; [|intros e He; rewrite He; naive_solver].
  apply negb_false_iff, bool_decide_eq_true in Htab.
  apply negb_false_iff, andb_true_iff in Hnc as [?%Z.leb_le ?%Z.ltb_lt].
  apply negb_false_iff, andb_true_iff in Hthr as [?%Z.leb_le ?%Z.leb_le].
  apply Z.leb_gt in Hreq.
  destruct (reusable_prefix_lt _ _ _ _ _ _ _ _ Hok Hids) as [Hl Hlt].
  rewrite length_py_range in Hl. rewrite Hids.
  case_match eqn:Hf.
  { apply wp_ret. split; [done|]. eexists. split; [done|]. split; [done|lia]. }
  apply Z.ltb_ge in Hf.
  destruct (snapshot_ok none h (ids ++ take (Z.to_nat (ceil_div through (block_size (hp_bm h)) - nc))
    (filter (λ i, i ∉ (list_to_set ids ∖ used_block_ids (hp_bm h) : gset nat))
       (free_block_ids (hp_bm h))))) as [sts Hsts]; [done| |].
  { intros i [Hi|Hi]%elem_of_app; [by apply Hlt|].
    apply elem_of_take in Hi as (j & Hj & _). apply list_elem_of_lookup_2 in Hj.
    apply list_elem_of_filter in Hj as [_ Hj]. by eapply alloc_ok_free_lt. }
  rewrite Hsts. apply wp_bind. unfold lift, wp at 1. cbv beta iota.
  destruct (attach_blocks_ok none k ids nc (ceil_div through (block_size (hp_bm h))) h s'
    Hok Hun Hk Hlt)
    as (h' & new & E & Hat & Hlen & Hok'); [lia|exact Hf|].
  apply wp_bind. unfold try_reraise, wp at 1. rewrite E. apply wp_ret.
  split; [done|]. eexists. split; [done|]. split; [done|]. split; [lia|].
  exists new. split; [done|]. rewrite length_app. lia.
Qed.

(** [allocate_incremental] is atomic and keeps the ledger: when its
    guards hold it either attaches the reusable prefix [ids] followed by fresh
    blocks, up to exactly [ceil(through_tokens / block_size)] blocks, or
    returns [False] because the free list cannot cover them; it raises iff a
    guard fails.  Refusing and raising leave the heap untouched. *)
Theorem allocate_incremental_spec h k s nc through :
  alloc_ok none h → hp_seqs h !! k = Some s →
  wp (allocate_incremental compute_hash k nc through)
    (λ ok h', incremental_pre h s nc through ∧
      let bs := block_size (hp_bm h) in
      ∃ ids, reusable_prefix compute_hash bs (hp_bm h) s (py_range 0 nc) (-1) = Ok ids ∧
      let needed := ceil_div through bs - nc +
        Z.of_nat (length (filter (λ i, i ∉ used_block_ids (hp_bm h)) ids)) in
      if ok : bool then
        alloc_ok none h' ∧ needed <= Z.of_nat (length (free_block_ids (hp_bm h))) ∧
        ∃ new, attached k ids new (nc * bs) h h' ∧
          Z.of_nat (length (ids ++ new)) = ceil_div through bs
      else h' = h ∧ Z.of_nat (length (free_block_ids (hp_bm h))) < needed)
    (λ _ h', h' = h ∧ ¬ incremental_pre h s nc through) h.
Proof. apply allocate_incremental_wp. Qed.

(** ** Admission *)

Lemma can_allocate_loop_total bs m s idx h cached new :
  (∀ i, i ∈ idx → 0 <= i < num_blocks bs s) →
  ∃ r, can_allocate_loop compute_hash bs m s idx h cached new = Ok r.
Proof.
  revert h cached new. induction idx as [|i idx IH]; intros h cached new Hi; [by eexists|].
  simpl. unfold seq_block. destruct (Hi i ltac:(set_solver)) as [H0 H1].
  rewrite (proj2 (Z.leb_le _ _) H0), (proj2 (Z.ltb_lt _ _) H1). simpl.
  case_match; [|by eexists]. apply IH. intros j Hj. apply Hi. set_solver.
Qed.

(** The loop counts the reusable prefix and the blocks it saves. *)
Lemma can_allocate_loop_prefix bs m s idx h cached new c n :
  can_allocate_loop compute_hash bs m s idx h cached new = Ok (c, n) →
  ∃ ids, reusable_prefix compute_hash bs m s (take (length ids) idx) h = Ok ids ∧
    c = cached + Z.of_nat (length ids) ∧
    n = new - Z.of_nat (length (filter (λ i, i ∈ used_block_ids m) ids)) ∧
    (length ids <= length idx)%nat.
Proof.
  revert h cached new. induction idx as [|i idx IH]; intros h cached new; simpl.
  { intros ?; simplify_eq. exists []. repeat split; simpl; lia. }
  destruct (seq_block bs s i) as [toks|] eqn:Et; simpl; [|done].
  destruct (cached_block m (compute_hash toks h) toks) as [b|] eqn:Eb; last first.
  { intros ?; simplify_eq. exists []. repeat split; simpl; lia. }
  intros (ids & E & -> & -> & Hl)%IH. exists (b :: ids).
  simpl. rewrite Et. simpl. rewrite Eb, E. simpl. split; [done|]. split; [lia|].
  rewrite filter_cons. repeat case_bool_decide; repeat case_decide; try done; simpl; split; lia.
Qed.

Lemma take_py_range n a b :
  (n <= length (py_range a b))%nat → take n (py_range a b) = py_range a (a + Z.of_nat n).
Proof.
  rewrite length_py_range. intros Hn. unfold py_range.
  rewrite <-fmap_take, take_seq. do 2 f_equal. lia.
Qed.

Lemma filter_complement_length (P : nat → Prop) `{!∀ x, Decision (P x)} l :
  (length (filter P l) + length (filter (λ x, ¬ P x) l) = length l)%nat.
Proof. by rewrite <-length_app, (filter_app_complement P l). Qed.

Lemma can_allocate_run h k s :
  alloc_ok none h → hp_seqs h !! k = Some s →
  ∃ nc, can_allocate compute_hash k h = (Ok nc, h) ∧
    (nc = -1 ∨
     0 <= nc < num_blocks (block_size (hp_bm h)) s ∧
     (unfenced h → block_table s = [] →
      ∀ through, nc * block_size (hp_bm h) < through <= num_tokens s →
      ∃ h', allocate_incremental compute_hash k nc through h = (Ok true, h'))).
Proof.
  intros Hok Hk. destruct (ok_size _ _ Hok) as [Hbs Hsz].
  destruct (ok_seqs _ _ Hok _ _ Hk) as [_ [Hlen Hprompt _]].
  pose proof (ceil_div_spec (num_tokens s) (block_size (hp_bm h)) Hbs) as Hnb.
  change (ceil_div (num_tokens s) (block_size (hp_bm h)))
    with (num_blocks (block_size (hp_bm h)) s) in Hnb.
  destruct (can_allocate_loop_total (block_size (hp_bm h)) (hp_bm h) s
    (py_range 0 (num_blocks (block_size (hp_bm h)) s - 1)) (-1) 0
    (num_blocks (block_size (hp_bm h)) s)) as [[c n] E].
  { intros i Hi%elem_of_py_range. lia. }
  unfold can_allocate. rewrite (bind_ok _ _ _ _ _ (get_seq_ok _ _ _ Hk)).
  unfold inspect. rewrite Hsz, E. simpl.
  destruct (Z.of_nat (length (free_block_ids (hp_bm h))) <? n) eqn:Hf.
  { exists (-1). by split; [|left]. }
  exists c. split; [done|]. right.
  destruct (can_allocate_loop_prefix _ _ _ _ _ _ _ _ _ E) as (ids & Hids & -> & -> & Hl).
  rewrite take_py_range in Hids by done. rewrite length_py_range in Hl.
  assert (0 <= 0 + Z.of_nat (length ids) <
    num_blocks (block_size (hp_bm h)) s) as Hnc by nia.
  split; [exact Hnc|]. intros Hun Ht through Hthr.
  pose proof (allocate_incremental_wp h k s (0 + Z.of_nat (length ids)) through Hok Hk) as Hspec.
  unfold wp in Hspec.
  pose proof (ceil_div_spec through (block_size (hp_bm h)) Hbs).
  destruct (allocate_incremental compute_hash k _ through h) as [[[]|e] h'] eqn:Ha; [by eexists| |].
  - exfalso. destruct Hspec as (_ & ids' & Hids' & _ & Hlt). rewrite Hids in Hids'.
    injection Hids' as <-.
    pose proof (ceil_div_mono through (num_tokens s) (block_size (hp_bm h)) Hbs ltac:(lia)).
    change (ceil_div (num_tokens s) (block_size (hp_bm h)))
      with (num_blocks (block_size (hp_bm h)) s) in *.
    pose proof (filter_complement_length (λ i, i ∈ used_block_ids (hp_bm h)) ids). lia.
  - exfalso. destruct Hspec as [_ []]. unfold incremental_pre. rewrite Hids.
    split_and!; try done; nia.
Qed.

(** [can_allocate] never raises on a stored sequence and changes nothing;
    a non-negative answer [nc] is the length of a reusable prefix shorter
    than the sequence, and the free list then covers the WHOLE sequence:
    allocating incrementally through any number of tokens beyond that prefix
    succeeds, so the scheduler's "changed after admission" error cannot be
    raised. *)
Theorem can_allocate_admits h k s :
  alloc_ok none h → hp_seqs h !! k = Some s →
  ∃ nc, can_allocate compute_hash k h = (Ok nc, h) ∧
    (nc = -1 ∨
     0 <= nc < num_blocks (block_size (hp_bm h)) s ∧
     (unfenced h → block_table s = [] →
      ∀ through, nc * block_size (hp_bm h) < through <= num_tokens s →
      ∃ h', allocate_incremental compute_hash k nc through h = (Ok true, h'))).
Proof. apply can_allocate_run. Qed.
End spec.

(** ** Extension and decode appends *)

Definition extend_pre (h : heap) (s : sequence) (through : Z) : Prop :=
  unfenced h ∧ block_table s ≠ [] ∧ 1 <= through <= num_tokens s.

Lemma extend_wp h k s through :
  alloc_ok none h → hp_seqs h !! k = Some s →
  wp (extend k through)
    (λ ok h', extend_pre h s through ∧
      let missing := ceil_div through (block_size (hp_bm h))
                     - Z.of_nat (length (block_table s)) in
      if ok : bool then
        alloc_ok none h' ∧ ∃ new, grown k new h h' ∧
          Z.of_nat (length new) = Z.max 0 missing
      else h' = h ∧ Z.of_nat (length (free_block_ids (hp_bm h))) < missing)
    (λ _ h', h' = h ∧ ¬ extend_pre h s through) h.
Proof.
  intros Hok Hk. unfold extend, extend_pre. destruct (ok_size _ _ Hok) as [Hbs Hsz].
  apply wp_bind, wp_fence'; [intros Hun|naive_solver].
  wseq s' Hk'; rewrite Hk in Hk'; simplify_eq.
  wguard Htab; [intros ?%bool_decide_eq_true; naive_solver|].
  wguard Hthr; [intros ?%negb_true_iff%andb_false_iff; rewrite !Z.leb_gt in *; naive_solver lia|].
  wread.
  change ((through + block_size (hp_bm h) - 1) `div` block_size (hp_bm h))
    with (ceil_div through (block_size (hp_bm h))).
  apply bool_decide_eq_false in Htab.
  apply negb_false_iff, andb_true_iff in Hthr as [?%Z.leb_le ?%Z.leb_le].
  set (missing := ceil_div _ _ - _).
  case_match eqn:Hr.
  { apply Z.leb_le in Hr. apply wp_ret. split; [done|]. split; [done|].
    exists []. split; [apply grown_nil|]. simpl. lia. }
  apply Z.leb_gt in Hr. case_match eqn:Hf.
  { apply Z.ltb_lt in Hf. apply wp_ret. split; [done|]. split; [done|lia]. }
  apply Z.ltb_ge in Hf.
  destruct (snapshot_ok none h (take (Z.to_nat missing) (free_block_ids (hp_bm h))))
    as [sts Hsts]; [done| |].
  { intros i Hi. apply elem_of_take in Hi as (j & Hj & _).
    apply list_elem_of_lookup_2 in Hj. by eapply alloc_ok_free_lt. }
  rewrite Hsts. apply wp_bind. unfold lift, wp at 1. cbv beta iota.
  destruct (grow_loop none k (py_range 0 missing) h s' Hok (unfenced_may_allocate _ Hun) Hk)
    as (h' & E & Hg & Hok').
  { rewrite length_py_range. lia. }
  apply wp_bind. unfold try_reraise, wp at 1. rewrite E. apply wp_ret.
  split; [done|]. split; [done|]. eexists. split; [exact Hg|].
  rewrite length_take, length_py_range. lia.
Qed.

(** [extend] is atomic: when its guards hold it grows the table by exactly
    the fresh blocks missing up to [through_tokens] (none when the table already
    covers it), or returns [False] because the free list is too short; it raises
    iff a guard fails.  Refusing and raising leave the heap untouched. *)
Theorem extend_spec h k s through :
  alloc_ok none h → hp_seqs h !! k = Some s →
  wp (extend k through)
    (λ ok h', extend_pre h s through ∧
      let missing := ceil_div through (block_size (hp_bm h))
                     - Z.of_nat (length (block_table s)) in
      if ok : bool then
        alloc_ok none h' ∧ ∃ new, grown k new h h' ∧
          Z.of_nat (length new) = Z.max 0 missing
      else h' = h ∧ Z.of_nat (length (free_block_ids (hp_bm h))) < missing)
    (λ _ h', h' = h ∧ ¬ extend_pre h s through) h.
Proof. apply extend_wp. Qed.

Lemma may_append_run h k s :
  alloc_ok none h → unfenced h → hp_seqs h !! k = Some s →
  let opens := num_tokens s `mod` block_size (hp_bm h) =? 1 in
  ∃ ok, can_append k h = (Ok ok, h) ∧
    (if ok : bool then
       ∃ h' new, may_append k h = (Ok tt, h') ∧ grown k new h h' ∧
         length new = (if opens then 1 else 0)%nat ∧ alloc_ok none h'
     else may_append k h = (Raise IndexError, h)).
Proof.
  intros Hok Hun Hk opens. unfold can_append.
  rewrite (bind_ok _ _ _ _ _ (get_seq_ok _ _ _ Hk)). eexists. split; [done|].
  assert (may_append k h =
    if opens then (let* i := _allocate_block in push_block k i) h else (Ok tt, h)) as ->.
  { unfold may_append. rewrite (bind_ok _ _ _ _ _ (assert_allowed h Hun)).
    rewrite (bind_ok _ _ _ _ _ (get_seq_ok _ _ _ Hk)).
    unfold bind at 1, get_bm, gets. fold opens. by destruct opens. }
  fold opens. destruct opens; simpl; last first.
  { rewrite (proj2 (Z.leb_le 0 _)) by lia. exists h, [].
    split; [done|]. split; [apply grown_nil|done]. }
  unfold bind.
  destruct (free_block_ids (hp_bm h)) as [|i rest] eqn:Hf; simpl.
  - by rewrite (_allocate_block_empty h (unfenced_may_allocate h Hun) Hf).
  - rewrite (proj2 (Z.leb_le 1 _)) by lia.
    destruct (grown_one none k i rest h s Hok Hf Hk) as [Hg Hok'].
    exists (push k i (take_block i h)), [i]. split; [|done].
    by rewrite (_allocate_block_ok none h i rest Hok (unfenced_may_allocate h Hun) Hf).
Qed.

(** [can_append] answers exactly whether [may_append] can run: it changes
    nothing, and when it answers yes [may_append] appends one fresh block if
    the last token opens a block and nothing otherwise. *)
Theorem may_append_spec h k s :
  alloc_ok none h → unfenced h → hp_seqs h !! k = Some s →
  let opens := num_tokens s `mod` block_size (hp_bm h) =? 1 in
  ∃ ok, can_append k h = (Ok ok, h) ∧
    (if ok : bool then
       ∃ h' new, may_append k h = (Ok tt, h') ∧ grown k new h h' ∧
         length new = (if opens then 1 else 0)%nat ∧ alloc_ok none h'
     else may_append k h = (Raise IndexError, h)).
Proof. apply may_append_run. Qed.

(** ** Deallocation *)

(** A block is free exactly when no table names it. *)
Lemma alloc_ok_free_iff h i :
  alloc_ok none h → (i < length (blocks (hp_bm h)))%nat →
  i ∈ free_block_ids (hp_bm h) ↔ refs (hp_seqs h) i = 0%nat.
Proof.
  intros Hok Hi. destruct (alloc_ok_block _ _ _ Hok Hi) as (b & Hb & [_ Hr Hf Hu]).
  unfold none in Hr. split; [intros Hin; specialize (Hf Hin); lia|].
  intros Hz. destruct (proj1 (ok_part _ _ Hok i) Hi) as [|Hu']; [done|].
  specialize (Hu Hu'). lia.
Qed.

Lemma deallocate_effect h k s :
  alloc_ok none h → unfenced h → hp_seqs h !! k = Some s →
  ∃ h', deallocate k h = (Ok tt, h') ∧ deallocated k s h h' ∧ alloc_ok none h' ∧
        unfenced h'.
Proof.
  intros Hok Hun Hk.
  destruct (release_table_ok h k s Hok Hun Hk) as (h' & E & Hd & Hok' & Hun').
  exists h'. split; [|done]. unfold deallocate. destruct Hun as [Ha Hp].
  rewrite (bind_ok _ _ _ _ _ (active_empty h Ha)).
  unfold bind at 1, ret at 1. rewrite (bind_ok _ _ _ _ _ (assert_allowed h (conj Ha Hp))).
  rewrite (bind_ok _ _ _ _ _ (get_seq_ok _ _ _ Hk)). exact E.
Qed.

Lemma deallocate_run h k s :
  alloc_ok none h → unfenced h → hp_seqs h !! k = Some s →
  ∃ h', deallocate k h = (Ok tt, h') ∧ alloc_ok none h' ∧ unfenced h' ∧
    hp_seqs h' = <[k := set_block_table [] (set_num_draft_cached_tokens 0
                          (set_num_cached_tokens 0 s))]> (hp_seqs h) ∧
    hash_to_block_id (hp_bm h') = hash_to_block_id (hp_bm h) ∧
    (∀ i, content <$> blocks (hp_bm h') !! i = content <$> blocks (hp_bm h) !! i) ∧
    (∀ i, i ∈ block_table s →
       i ∈ free_block_ids (hp_bm h') ↔
       refs (hp_seqs h) i = count i (block_table s)).
Proof.
  intros Hok Hun Hk.
  destruct (deallocate_effect h k s Hok Hun Hk) as (h' & E & (h1 & Hr & ->) & Hok' & Hun').
  eexists. split; [exact E|split; [exact Hok'|split; [done|]]].
  assert (hp_seqs (set_seqs (alter (set_block_table []) k)
      (set_seqs (alter (set_num_draft_cached_tokens 0) k)
        (set_seqs (alter (set_num_cached_tokens 0) k) h1))) =
    <[k := set_block_table [] (set_num_draft_cached_tokens 0
             (set_num_cached_tokens 0 s))]> (hp_seqs h)) as Hseqs.
  { simpl. rewrite (rl_seqs _ _ _ Hr). apply map_eq. intros j.
    rewrite !lookup_alter, lookup_insert. repeat case_decide; simplify_eq; [|done].
    by rewrite Hk. }
  split; [exact Hseqs|]. split; [apply Hr|]. split; [apply Hr|].
  intros i Hi. rewrite (alloc_ok_free_iff _ _ Hok'), Hseqs; last first.
  { simpl. rewrite (fr_len _ _ (rl_frame _ _ _ Hr)). by eapply ok_table. }
  pose proof (refs_insert (hp_seqs h) k s (set_block_table []
    (set_num_draft_cached_tokens 0 (set_num_cached_tokens 0 s))) i Hk) as Hri.
  cbn [block_table set_block_table] in Hri. rewrite count_nil in Hri. lia.
Qed.

(** With no lease in the way, [deallocate] always succeeds: it drops one
    reference per table entry, empties the table and both coverages, keeps the
    prefix-cache index and every block's contents (so the prefix can be reused),
    and returns to the free list exactly the blocks no other table names. *)
Theorem deallocate_spec h k s :
  alloc_ok none h → unfenced h → hp_seqs h !! k = Some s →
  ∃ h', deallocate k h = (Ok tt, h') ∧ alloc_ok none h' ∧ unfenced h' ∧
    hp_seqs h' = <[k := set_block_table [] (set_num_draft_cached_tokens 0
                          (set_num_cached_tokens 0 s))]> (hp_seqs h) ∧
    hash_to_block_id (hp_bm h') = hash_to_block_id (hp_bm h) ∧
    (∀ i, content <$> blocks (hp_bm h') !! i = content <$> blocks (hp_bm h) !! i) ∧
    (∀ i, i ∈ block_table s →
       i ∈ free_block_ids (hp_bm h') ↔
       refs (hp_seqs h) i = count i (block_table s)).
Proof. apply deallocate_run. Qed.

(** ** The initial state *)

Lemma init_alloc_ok n bs ss :
  0 < bs →
  (∀ k s, ss !! k = Some s → seq_id s = k ∧ seq_wf s ∧ block_table s = []) →
  let h := mk_heap (BlockManager_init n bs) ss bs in
  alloc_ok none h ∧ unfenced h.
Proof.
  intros Hbs Hss h. split; [|done].
  assert (∀ i, refs ss i = 0%nat) as Hz.
  { intros i. induction ss as [|k s ss Hn IH] using map_ind; [done|].
    rewrite refs_insert_new by done.
    destruct (Hss k s) as (_ & _ & ->); [by rewrite lookup_insert_eq|].
    rewrite IH; [done|done..|].
    intros k' s' Hk'. apply Hss. rewrite lookup_insert_ne; congruence. }
  split; simpl; try done.
  - apply NoDup_seq.
  - intros i. rewrite length_fmap, length_seq, elem_of_seq. set_solver by lia.
  - intros i b. rewrite list_lookup_fmap. intros (j & Hj & ->)%fmap_Some.
    apply lookup_seq in Hj as [-> _]. split; simpl; try done; first [by rewrite Hz | set_solver].
  - intros k s i Hk. destruct (Hss _ _ Hk) as (_ & _ & ->). set_solver.
  - intros k s Hk. destruct (Hss _ _ Hk) as (? & ? & _). done.
Qed.

(** A new BlockManager over a store whose sequences own no block satisfies
    the ledger invariant, and is unfenced. *)
Lemma BlockManager_init_ok n bs ss :
  0 < bs →
  (∀ k s, ss !! k = Some s → seq_id s = k ∧ seq_wf s ∧ block_table s = []) →
  let h := mk_heap (BlockManager_init n bs) ss bs in
  alloc_ok none h ∧ unfenced h.
Proof. apply init_alloc_ok. Qed.
