(* ===== verification/ReservationInv.v ===== *)
(** * ReservationInv: what a live lease is

    [grown_rows ps h h'] says that [h'] is [h] with fresh blocks appended to the
    tables of several sequences; it describes the ledger under a lease and the
    ledger a finalization leaves, keeps [alloc_ok] and, with CacheInv, the prefix
    cache.  [leased h r h'] says that [r] is the live lease taken at [h]; the
    file proves that reserving establishes it, that it implies the source's own
    validation, and that rolling back and preparing target writes act on it as
    promised. *)
From S2P Require Import Prelude SamplingParams Sequence Heap BlockManager Reservation.
From S2P Require Import AllocatorInv BlockManagerInv.

(** ** Growing several tables *)

Definition append_rows (ps : list (nat * list nat)) (ss : gmap nat sequence)
    : gmap nat sequence :=
  foldl (λ ss p, alter (λ s, set_block_table (block_table s ++ p.2) s) p.1 ss) ss ps.

Definition news (ps : list (nat * list nat)) : list nat := ps ≫= snd.

Record grown_rows (ps : list (nat * list nat)) (h h' : heap) : Prop := {
  gg_frame : same_frame h h';
  gg_seqs : hp_seqs h' = append_rows ps (hp_seqs h);
  gg_nodup : NoDup (news ps);
  gg_sub : ∀ i, i ∈ news ps → i ∈ free_block_ids (hp_bm h);
  gg_free : free_block_ids (hp_bm h') = filter (λ i, i ∉ news ps) (free_block_ids (hp_bm h));
  gg_used : used_block_ids (hp_bm h') = list_to_set (news ps) ∪ used_block_ids (hp_bm h);
  gg_new : ∀ i, i ∈ news ps → blocks (hp_bm h') !! i = Some (fresh_block i);
  gg_old : ∀ i, i ∉ news ps → blocks (hp_bm h') !! i = blocks (hp_bm h) !! i;
  gg_hash : ∀ hs i, hash_to_block_id (hp_bm h') !! hs = Some i ↔
    hash_to_block_id (hp_bm h) !! hs = Some i ∧ i ∉ news ps;
}.

Lemma grown_rows_nil h : grown_rows [] h h.
Proof.
  split; try done; [apply NoDup_nil_2|set_solver| |set_solver|set_solver|set_solver].
  symmetry. apply filter_all. intros i _. set_solver.
Qed.

Lemma grown_rows_cons k new ps h1 h2 h3 :
  NoDup (free_block_ids (hp_bm h1)) →
  grown k new h1 h2 → grown_rows ps h2 h3 → grown_rows ((k, new) :: ps) h1 h3.
Proof.
  intros Hnd [F1 S1 R1 U1 N1 O1 H1] [F2 S2 D2 B2 R2 U2 N2 O2 H2].
  assert (∀ i, i ∈ new → i ∉ news ps) as Hdisj.
  { intros i Hi Hi'. apply B2 in Hi'. rewrite R1 in Hnd.
    apply NoDup_app in Hnd as (_ & Hd & _). by apply (Hd i). }
  unfold news in *. split; simpl.
  - by etrans.
  - rewrite S2, S1. done.
  - apply NoDup_app. rewrite R1 in Hnd. apply NoDup_app in Hnd as (? & _ & _). done.
  - intros i [Hi|Hi]%elem_of_app; rewrite R1, elem_of_app; auto.
  - rewrite R2. transitivity (filter (λ i, i ∉ ps ≫= snd) (filter (λ i, i ∉ new)
      (free_block_ids (hp_bm h1)))).
    + rewrite R1 at 1. rewrite R1 in Hnd. by rewrite filter_app_prefix.
    + rewrite list_filter_filter. apply list_filter_iff. intros i. rewrite elem_of_app. tauto.
  - rewrite U2, U1, list_to_set_app_L. set_solver.
  - intros i [Hi|Hi]%elem_of_app; [|by apply N2]. rewrite O2 by auto. by apply N1.
  - intros i Hi. rewrite elem_of_app in Hi. rewrite O2, O1 by tauto. done.
  - intros hs i. rewrite H2, H1, elem_of_app. tauto.
Qed.

(** ** Lookups and counts after the rows were appended *)

Lemma append_rows_lookup_ne ps ss k :
  k ∉ ps.*1 → append_rows ps ss !! k = ss !! k.
Proof.
  revert ss. induction ps as [|[k' new] ps IH]; intros ss Hk; [done|].
  simpl in *. rewrite IH by set_solver. rewrite lookup_alter, decide_False; [done|set_solver].
Qed.

Lemma append_rows_lookup ps ss k new s :
  NoDup ps.*1 → (k, new) ∈ ps → ss !! k = Some s →
  append_rows ps ss !! k = Some (set_block_table (block_table s ++ new) s).
Proof.
  revert ss. induction ps as [|[k' new'] ps IH]; intros ss Hnd Hin Hk; [set_solver|].
  simpl in Hnd. apply NoDup_cons in Hnd as [Hk' Hnd]. simpl.
  apply elem_of_cons in Hin as [[= -> ->]|Hin].
  - rewrite append_rows_lookup_ne by done. by rewrite lookup_alter, decide_True, Hk.
  - apply IH; [done|done|]. rewrite lookup_alter, decide_False; [done|].
    intros ->. apply Hk'. apply list_elem_of_fmap. by exists (k, new).
Qed.

Lemma append_rows_refs ps ss i :
  NoDup ps.*1 → (∀ k, k ∈ ps.*1 → is_Some (ss !! k)) →
  refs (append_rows ps ss) i = (refs ss i + count i (news ps))%nat.
Proof.
  revert ss. induction ps as [|[k new] ps IH]; intros ss Hnd Hs.
  { simpl. lia. }
  simpl in Hnd. apply NoDup_cons in Hnd as [Hk Hnd].
  destruct (Hs k) as [s Hss]; [set_solver|]. simpl.
  rewrite IH; [|done|].
  - rewrite (alter_insert_eq _ _ _ _ Hss).
    pose proof (refs_insert ss k s (set_block_table (block_table s ++ new) s) i Hss) as Hr.
    unfold news in *. simpl in *. rewrite !count_app in *. lia.
  - intros k' Hk'. rewrite lookup_alter. case_decide; [subst; by rewrite Hss|].
    apply Hs. set_solver.
Qed.

(** A sequence of the grown store: the old one, its table possibly extended. *)
Lemma append_rows_inv ps ss k s' :
  NoDup ps.*1 → append_rows ps ss !! k = Some s' →
  ∃ s, ss !! k = Some s ∧
    (((k ∉ ps.*1) ∧ s' = s) ∨
     (∃ new, (k, new) ∈ ps ∧ s' = set_block_table (block_table s ++ new) s)).
Proof.
  intros Hnd Hk. destruct (decide (k ∈ ps.*1)) as [Hin|Hin]; last first.
  { rewrite append_rows_lookup_ne in Hk by done. eauto. }
  destruct (ss !! k) as [s|] eqn:Hs.
  - apply list_elem_of_fmap in Hin as ([k' new] & -> & Hin). simpl in *.
    rewrite (append_rows_lookup _ _ _ _ _ Hnd Hin Hs) in Hk. simplify_eq. eauto 10.
  - exfalso. clear Hin Hnd. revert ss Hk Hs. induction ps as [|[k' new] ps IH]; intros ss Hk Hs;
      simpl in *; [congruence|].
    eapply IH; [exact Hk|]. rewrite lookup_alter. case_decide; [subst; by rewrite Hs|done].
Qed.

Lemma count_NoDup i l : NoDup l → i ∈ l → count i l = 1%nat.
Proof.
  induction 1 as [|j l Hj Hnd IH]; intros Hi; [set_solver|]. rewrite count_cons.
  apply elem_of_cons in Hi as [->|Hi].
  - rewrite decide_True, count_zero by done. done.
  - rewrite decide_False, IH by set_solver. done.
Qed.

(** Growing several tables keeps the ledger. *)
Lemma grown_rows_ok ps h h' :
  alloc_ok none h → NoDup ps.*1 → (∀ k, k ∈ ps.*1 → is_Some (hp_seqs h !! k)) →
  grown_rows ps h h' → alloc_ok none h'.
Proof.
  intros Hok Hnd Hks [Hf Hs Hn Hsub Hfree Hu Hnew Hold Hh].
  assert (∀ i, i ∈ news ps → (i < length (blocks (hp_bm h)))%nat) as Hlt
    by (intros i Hi; eapply alloc_ok_free_lt; eauto).
  destruct Hok as [Hsz Hndf Hp Hd Hb Hhash Ht Hq]. split.
  - rewrite (fr_size _ _ Hf), (fr_seq_size _ _ Hf). done.
  - rewrite Hfree. by apply NoDup_filter.
  - intros i. rewrite (fr_len _ _ Hf), Hp, Hfree, Hu, list_elem_of_filter.
    destruct (decide (i ∈ news ps)); set_solver.
  - intros i. rewrite Hfree, Hu, list_elem_of_filter. set_solver.
  - intros i b Hi. destruct (decide (i ∈ news ps)) as [Hin|Hin].
    + rewrite Hnew in Hi by done. simplify_eq.
      destruct (lookup_lt_is_Some_2 _ _ (Hlt i Hin)) as [b0 Hb0].
      destruct (Hb _ _ Hb0) as [_ Hr Hz _]. specialize (Hz (Hsub _ Hin)).
      split; simpl; [done| | |done].
      * rewrite Hs, append_rows_refs, (count_NoDup i) by done. unfold none in *. lia.
      * rewrite Hfree, list_elem_of_filter. tauto.
    + rewrite Hold in Hi by done. destruct (Hb _ _ Hi) as [Hid Hr Hz Hpos]. split; [done| | |].
      * rewrite Hs, append_rows_refs, (count_zero i) by done. lia.
      * rewrite Hfree, list_elem_of_filter. naive_solver.
      * rewrite Hu. set_solver.
  - intros hs i (He & Hin)%Hh. destruct (Hhash _ _ He) as (b & Hbi & ?).
    exists b. by rewrite Hold.
  - intros k s' i Hk. rewrite Hs in Hk. rewrite (fr_len _ _ Hf).
    apply append_rows_inv in Hk as (s & Hks' & [[_ ->]|(new & Hin & ->)]); [by eauto| |done].
    simpl. intros [Hi|Hi]%elem_of_app; [by eauto|]. apply Hlt.
    apply list_elem_of_bind. exists (k, new). done.
  - intros k s' Hk. rewrite Hs in Hk.
    apply append_rows_inv in Hk as (s & Hks' & [[_ ->]|(new & Hin & ->)]); [by eauto| |done].
    destruct (Hq _ _ Hks') as [? [? ? ?]]. split; [done|by split].
Qed.

(** ** Taking the blocks of a lease *)

(** Inside [reserve_temporary_append], between two internal allocations. *)
Definition leasing (h : heap) : Prop :=
  _active_temporary_reservations (hp_bm h) = ∅ ∧
  _temporary_internal_allocation (hp_bm h) = false.

Lemma same_frame_leasing h h' : same_frame h h' → leasing h → leasing h'.
Proof. intros [] [? ?]. split; congruence. Qed.

Lemma set_internal_take i h :
  _temporary_internal_allocation (hp_bm h) = false →
  set_bm (set_internal false) (take_block i (set_bm (set_internal true) h)) = take_block i h.
Proof. destruct h as [[]]; simpl. by intros ->. Qed.

Lemma allocate_internal_ok ex h i rest :
  alloc_ok ex h → leasing h → free_block_ids (hp_bm h) = i :: rest →
  allocate_internal h = (Ok i, take_block i h).
Proof.
  intros Hok [Ha Hi] Hf. unfold allocate_internal, try_finally. unfold bind at 1, upd_bm, modify.
  rewrite (_allocate_block_ok ex (set_bm (set_internal true) h) i rest);
    [by rewrite set_internal_take|by apply alloc_ok_same_ledger|by split|exact Hf].
Qed.

(** One row: [n] fresh blocks from the head of the free list. *)
Lemma reserve_blocks_ok ex k n h s :
  alloc_ok ex h → leasing h → hp_seqs h !! k = Some s →
  (n <= length (free_block_ids (hp_bm h)))%nat →
  ∃ h', repeat_m n (let* i := allocate_internal in push_block k i ;;; ret i) h =
          (Ok (take n (free_block_ids (hp_bm h))), h') ∧
    grown k (take n (free_block_ids (hp_bm h))) h h' ∧ alloc_ok ex h'.
Proof.
  revert h s. induction n as [|n IH]; intros h s Hok Hl Hk Hlen.
  { exists h. split; [done|]. split; [apply grown_nil|done]. }
  destruct (free_block_ids (hp_bm h)) as [|i rest] eqn:Hf; simpl in Hlen; [lia|].
  destruct (grown_one ex k i rest h s Hok Hf Hk) as [Hg Hok1].
  set (h1 := push k i (take_block i h)) in *.
  assert (free_block_ids (hp_bm h1) = rest) as Hfree by (simpl; by rewrite Hf).
  destruct (IH h1 (set_block_table (block_table s ++ [i]) s)) as (h' & E & Hg' & Hok').
  - done.
  - eapply same_frame_leasing; [apply Hg|done].
  - simpl. by rewrite lookup_alter, decide_True, Hk.
  - rewrite Hfree. lia.
  - exists h'. rewrite Hfree in E, Hg'. split; [|split; [|done]].
    + assert ((let* j := allocate_internal in push_block k j ;;; ret j) h = (Ok i, h1)) as Hstep
        by by rewrite (bind_ok _ _ _ _ _ (allocate_internal_ok ex h i rest Hok Hl Hf)).
      cbn [repeat_m]. rewrite (bind_ok _ _ _ _ _ Hstep). by rewrite (bind_ok _ _ _ _ _ E).
    + simpl. apply (grown_trans k [i] _ _ h1); [|done|done].
      pose proof (ok_nodup _ _ Hok) as Hnd. rewrite Hf in Hnd.
      eapply sublist_NoDup; [exact Hnd|]. apply sublist_skip, sublist_take.
Qed.

(** The rows of a lease and their specifications. *)
Definition row_of (sp : _TemporaryReservationRowSpec) (appended : list nat)
    : _TemporaryReservationRow :=
  mk_row (spec_sequence sp) (spec_block_table_before sp) appended
    (spec_num_cached_tokens_before sp) (spec_num_draft_cached_tokens_before sp).

Definition row_pair (r : _TemporaryReservationRow) : nat * list nat :=
  (row_sequence r, row_appended_block_ids r).

Lemma total_new_blocks_cons sp specs :
  total_new_blocks (sp :: specs) = spec_new_blocks sp + total_new_blocks specs.
Proof. done. Qed.

Lemma total_new_blocks_nonneg specs :
  Forall (λ sp, 0 <= spec_new_blocks sp) specs → 0 <= total_new_blocks specs.
Proof.
  induction 1; [done|]. rewrite total_new_blocks_cons. lia.
Qed.

Lemma reserve_rows_loop specs h :
  alloc_ok none h → leasing h →
  Forall (λ sp, 0 <= spec_new_blocks sp ∧ is_Some (hp_seqs h !! spec_sequence sp)) specs →
  total_new_blocks specs <= Z.of_nat (length (free_block_ids (hp_bm h))) →
  ∃ rows h', map_all reserve_row specs h = (Ok rows, h') ∧
    Forall2 (λ sp r, r = row_of sp (row_appended_block_ids r) ∧
               Z.of_nat (length (row_appended_block_ids r)) = spec_new_blocks sp) specs rows ∧
    grown_rows (row_pair <$> rows) h h' ∧ alloc_ok none h' ∧
    rows ≫= row_appended_block_ids =
      take (Z.to_nat (total_new_blocks specs)) (free_block_ids (hp_bm h)) ∧
    free_block_ids (hp_bm h') =
      drop (Z.to_nat (total_new_blocks specs)) (free_block_ids (hp_bm h)).
Proof.
  revert h. induction specs as [|sp specs IH]; intros h Hok Hl Hsp Ht.
  { exists [], h. split; [done|]. split; [constructor|]. split; [apply grown_rows_nil|]. done. }
  apply Forall_cons in Hsp as [[H0 [s Hs]] Hsp]. rewrite total_new_blocks_cons in *.
  assert (0 <= total_new_blocks specs)
    by (apply total_new_blocks_nonneg; eapply Forall_impl; [exact Hsp|]; naive_solver).
  set (n := Z.to_nat (spec_new_blocks sp)).
  destruct (reserve_blocks_ok none (spec_sequence sp) n h s Hok Hl Hs) as (h1 & E & Hg & Hok1);
    [lia|].
  set (new := take n (free_block_ids (hp_bm h))) in *.
  assert (length new = n) as Hnew by (unfold new; rewrite length_take; lia).
  assert (free_block_ids (hp_bm h1) = drop n (free_block_ids (hp_bm h))) as Hf1.
  { pose proof (gr_free _ _ _ _ Hg) as Hf. rewrite Hf at 1.
    by rewrite <-Hnew, drop_app_length. }
  destruct (IH h1) as (rows & h' & E' & Hrows & Hg' & Hok' & Happ & Hfree).
  - done.
  - eapply same_frame_leasing; [apply Hg|done].
  - eapply Forall_impl; [exact Hsp|]. intros sp' [? Hx]. split; [done|].
    rewrite (gr_seqs _ _ _ _ Hg), lookup_alter. case_decide; [|done].
    subst. rewrite Hs. by eexists.
  - rewrite Hf1, length_drop. lia.
  - exists (row_of sp new :: rows), h'. split_and!.
    + assert (reserve_row sp h = (Ok (row_of sp new), h1)) as Hstep
        by (unfold reserve_row; fold n; by rewrite (bind_ok _ _ _ _ _ E)).
      cbn [map_all]. rewrite (bind_ok _ _ _ _ _ Hstep). by rewrite (bind_ok _ _ _ _ _ E').
    + constructor; [|done]. split; [done|]. simpl. lia.
    + simpl. apply (grown_rows_cons _ new _ h h1 h'); [apply Hok|done|done].
    + done.
    + change (new ++ (rows ≫= row_appended_block_ids) =
        take (Z.to_nat (spec_new_blocks sp + total_new_blocks specs)) (free_block_ids (hp_bm h))).
      rewrite Happ, Hf1. unfold new.
      replace (Z.to_nat (spec_new_blocks sp + total_new_blocks specs))
        with (n + Z.to_nat (total_new_blocks specs))%nat by lia.
      by rewrite take_take_drop.
    + rewrite Hfree, Hf1, drop_drop. f_equal. lia.
Qed.

(** ** Snapshots *)

(** A recorded state agrees with the block. *)
Definition state_of (st : _TemporaryBlockState) (b : block) : Prop :=
  bst_ref_count st = b_ref_count b ∧ bst_hash st = b_hash b ∧
  bst_token_ids st = b_token_ids b.

Lemma snapshot_states m ids sts :
  _snapshot_block_states m ids = Ok sts →
  bst_block_id <$> sts = sorted_set ids ∧
  Forall (λ st, ∃ b, blocks m !! bst_block_id st = Some b ∧ state_of st b) sts.
Proof.
  unfold _snapshot_block_states. rewrite omap_all_ok.
  induction 1 as [|i st l sts Hi _ IH]; [done|].
  destruct (blocks m !! i) as [b|] eqn:Hb; simplify_eq/=. destruct IH as [<- HF].
  split; [done|]. constructor; [|done]. by exists b.
Qed.

Lemma lookup_state_ok sts i :
  NoDup (bst_block_id <$> sts) → i ∈ bst_block_id <$> sts →
  ∃ st, lookup_state sts i = Ok st ∧ st ∈ sts ∧ bst_block_id st = i.
Proof.
  intros Hnd Hi. apply list_elem_of_fmap in Hi as (st & -> & Hin).
  exists st. split; [|done]. unfold lookup_state, state_by_id.
  rewrite (elem_of_list_to_map_1 _ (bst_block_id st) st); [done| |].
  - by rewrite <-list_fmap_compose.
  - apply list_elem_of_fmap. by exists st.
Qed.

(** Restoring a snapshot, block by block. *)
Lemma restore_block_states_lookup sts bl i :
  NoDup (bst_block_id <$> sts) →
  restore_block_states sts bl !! i =
    match list_find (λ st, bst_block_id st = i) sts with
    | Some (_, st) => restore_block_state st <$> bl !! i
    | None => bl !! i
    end.
Proof.
  revert bl. induction sts as [|st sts IH]; intros bl Hnd; [done|].
  simpl in Hnd. apply NoDup_cons in Hnd as [Hst Hnd]. simpl.
  rewrite IH by done. case_decide as Hi.
  - destruct (list_find _ sts) as [[j st']|] eqn:E; simpl.
    { exfalso. apply list_find_Some in E as (Hj & Hst' & _). apply Hst.
      apply list_elem_of_fmap. exists st'. split; [congruence|]. by eapply list_elem_of_lookup_2. }
    subst i. rewrite list_lookup_alter_eq. done.
  - destruct (list_find _ sts) as [[j st']|] eqn:E; simpl; by rewrite list_lookup_alter_ne.
Qed.

(** The snapshot of [m] brings blocks that only changed inside it back. *)
Lemma restore_snapshot m ids sts bl :
  _snapshot_block_states m ids = Ok sts →
  (∀ i b, blocks m !! i = Some b → b_block_id b = i) →
  (∀ i, b_block_id <$> bl !! i = b_block_id <$> blocks m !! i) →
  (∀ i, i ∉ ids → bl !! i = blocks m !! i) →
  restore_block_states sts bl = blocks m.
Proof.
  intros Hs Hid Hids Hsame. apply snapshot_states in Hs as [Heq HF].
  assert (NoDup (bst_block_id <$> sts)) as Hnd by (rewrite Heq; apply NoDup_sorted_set).
  apply list_eq. intros i. rewrite restore_block_states_lookup by done.
  destruct (list_find _ sts) as [[j st]|] eqn:E.
  - apply list_find_Some in E as (Hj & <- & _).
    apply list_elem_of_lookup_2 in Hj. rewrite Forall_forall in HF.
    destruct (HF _ Hj) as (b & Hb & E1 & E2 & E3). specialize (Hids (bst_block_id st)).
    rewrite Hb in Hids |- *. destruct (bl !! bst_block_id st) as [b'|]; simplify_eq/=.
    unfold restore_block_state. rewrite Hids, E1, E2, E3. by destruct b.
  - apply Hsame. intros Hi. rewrite <-elem_of_sorted_set, <-Heq in Hi.
    apply list_elem_of_fmap in Hi as (st & -> & Hst). apply list_find_None in E.
    rewrite Forall_forall in E. by eapply E.
Qed.

(** The hash index expected under a lease. *)
Lemma expected_hashes_ok sts ids hashes :
  (∀ i, i ∈ ids → ∃ st, lookup_state sts i = Ok st ∧ bst_block_id st = i) →
  (∀ hs i st, hashes !! hs = Some i → lookup_state sts i = Ok st →
     bst_hash st = hs ∧ hs ≠ -1) →
  ∃ res, expected_hashes sts ids hashes = Ok res ∧
    ∀ hs i, res !! hs = Some i ↔ hashes !! hs = Some i ∧ i ∉ ids.
Proof.
  revert hashes. induction ids as [|i ids IH]; intros hashes Hst Hh.
  { exists hashes. split; [done|]. set_solver. }
  simpl. destruct (Hst i ltac:(set_solver)) as (st & E & Hi). rewrite E. simpl.
  match goal with |- context [expected_hashes sts ids ?x] => set (hashes' := x) end.
  assert (∀ hs j, hashes' !! hs = Some j ↔ hashes !! hs = Some j ∧ j ≠ i) as Hl.
  { intros hs j. unfold hashes'. destruct (_ && _) eqn:Ec.
    - apply andb_true_iff in Ec as [Hn%negb_true_iff%Z.eqb_neq Hb%bool_decide_eq_true].
      rewrite lookup_delete. case_decide as Hhs; [subst hs|].
      + split; [done|]. intros [Hj Hne]. congruence.
      + split; [|tauto]. intros Hj. split; [done|]. intros ->.
        destruct (Hh _ _ _ Hj E). congruence.
    - split; [|tauto]. intros Hj. split; [done|]. intros ->.
      destruct (Hh _ _ _ Hj E) as [<- Hn]. rewrite Hi, bool_decide_eq_true_2 in Ec by done.
      rewrite andb_true_r in Ec. apply negb_false_iff, Z.eqb_eq in Ec. done. }
  destruct (IH hashes') as (res & Eres & Hres).
  - intros j Hj. apply Hst. set_solver.
  - intros hs j st' Hj E'. apply Hl in Hj as [Hj _]. by eapply Hh.
  - exists res. split; [done|]. intros hs j. rewrite Hres, Hl. set_solver.
Qed.

(** ** A live lease *)

Definition row_index (r : TemporaryBlockReservation) : gmap nat nat :=
  list_to_map ((λ row, (row_sequence row, rv_reservation_id r)) <$> rv_rows r).

(** Publishing [r]: the counters move on, the lease and its index are live. *)
Definition published (r : TemporaryBlockReservation) : heap → heap :=
  set_bm (λ m, set_by_seq_id (row_index r) (set_active {[rv_reservation_id r := r]}
    (set_next_object (S (next_object m))
      (set_reservation_ids (S (_temporary_reservation_ids m)) m)))).

(** [row] records the sequence as it is in [h]. *)
Definition row_records (h : heap) (row : _TemporaryReservationRow) : Prop :=
  ∃ s, hp_seqs h !! row_sequence row = Some s ∧
    row_block_table_before row = block_table s ∧
    row_num_cached_tokens_before row = num_cached_tokens s ∧
    row_num_draft_cached_tokens_before row = num_draft_cached_tokens s.

Record leased (h : heap) (r : TemporaryBlockReservation) (h' : heap) : Prop := {
  le_rows : Forall (row_records h) (rv_rows r);
  le_nodup : NoDup (row_sequence <$> rv_rows r);
  le_order : rv_rows r ≫= row_appended_block_ids = rv_allocation_order r;
  le_free : rv_free_block_ids_before r = free_block_ids (hp_bm h);
  le_used : rv_used_block_ids_before r = used_block_ids (hp_bm h);
  le_hash : rv_hash_to_block_id_before r = hash_to_block_id (hp_bm h);
  le_states : _snapshot_block_states (hp_bm h)
      (rv_allocation_order r ++ (rv_rows r ≫= row_block_table_before)) =
    Ok (rv_block_states_before r);
  le_heap : ∃ h2, grown_rows (row_pair <$> rv_rows r) h h2 ∧
    free_block_ids (hp_bm h) = rv_allocation_order r ++ free_block_ids (hp_bm h2) ∧
    h' = published r h2;
}.

Lemma news_rows rows : news (row_pair <$> rows) = rows ≫= row_appended_block_ids.
Proof. induction rows as [|row rows IH]; [done|]. unfold news in *. csimpl. by rewrite IH. Qed.

Lemma row_pair_fst rows : (row_pair <$> rows).*1 = row_sequence <$> rows.
Proof. by rewrite <-list_fmap_compose. Qed.

Lemma row_seq_ids (h : heap) (rows : list _TemporaryReservationRow) :
  (∀ k s, hp_seqs h !! k = Some s → seq_id s = k) →
  row_seq_id h <$> rows = row_sequence <$> rows.
Proof.
  intros Hid. apply list_fmap_ext. intros _ row _. unfold row_seq_id.
  destruct (hp_seqs h !! row_sequence row) as [s|] eqn:E; [|done]. simpl. by apply Hid.
Qed.

Lemma active_of_singleton m i r :
  _active_temporary_reservations m = {[i := r]} → active_of m = Ok (Some r).
Proof.
  intros E. unfold active_of. rewrite E, map_size_singleton, map_to_list_singleton. done.
Qed.

Section leased.
Context (h : heap) (r : TemporaryBlockReservation) (h' : heap).
Hypotheses (Hok : alloc_ok none h) (Hl : leased h r h').

Lemma leased_keys k : k ∈ (row_pair <$> rv_rows r).*1 → is_Some (hp_seqs h !! k).
Proof.
  rewrite row_pair_fst. intros (row & -> & Hin)%list_elem_of_fmap.
  pose proof (le_rows _ _ _ Hl) as HF. rewrite Forall_forall in HF.
  destruct (HF _ Hin) as (s & -> & _). by eexists.
Qed.

Lemma leased_ledger : alloc_ok none h'.
Proof.
  destruct (le_heap _ _ _ Hl) as (h2 & Hg & _ & E). rewrite E.
  apply alloc_ok_same_ledger; [done|].
  eapply grown_rows_ok; [exact Hok| |apply leased_keys|exact Hg].
  rewrite row_pair_fst. apply Hl.
Qed.

Lemma leased_states_ids :
  bst_block_id <$> rv_block_states_before r =
  sorted_set (rv_allocation_order r ++ (rv_rows r ≫= row_block_table_before)).
Proof. exact (proj1 (snapshot_states _ _ _ (le_states _ _ _ Hl))). Qed.

Lemma leased_states_nodup : NoDup (bst_block_id <$> rv_block_states_before r).
Proof. rewrite leased_states_ids. apply NoDup_sorted_set. Qed.

Lemma leased_state i :
  i ∈ rv_allocation_order r ++ (rv_rows r ≫= row_block_table_before) →
  ∃ st b, lookup_state (rv_block_states_before r) i = Ok st ∧ bst_block_id st = i ∧
    blocks (hp_bm h) !! i = Some b ∧ state_of st b.
Proof.
  intros Hi. destruct (lookup_state_ok (rv_block_states_before r) i) as (st & E & Hin & <-);
    [apply leased_states_nodup|by rewrite leased_states_ids, elem_of_sorted_set|].
  pose proof (snapshot_states _ _ _ (le_states _ _ _ Hl)) as [_ HF].
  rewrite Forall_forall in HF. destruct (HF _ Hin) as (b & Hb & Hst).
  by exists st, b.
Qed.

Lemma leased_nodup_order : NoDup (rv_allocation_order r).
Proof.
  destruct (le_heap _ _ _ Hl) as (h2 & Hg & _ & _).
  pose proof (gg_nodup _ _ _ Hg) as Hnd. by rewrite news_rows, (le_order _ _ _ Hl) in Hnd.
Qed.

Lemma leased_publication : validate_publication h' r = Ok tt.
Proof.
  destruct (le_heap _ _ _ Hl) as (h2 & Hg & _ & E).
  unfold validate_publication. rewrite !obind_ok.
  exists (Some r). split; [rewrite E; by eapply active_of_singleton|].
  rewrite !obind_unit_ok, !oraise_if_ok. split_and!.
  - simpl. by rewrite Nat.eqb_refl.
  - apply negb_false_iff, bool_decide_eq_true. rewrite E at 1. simpl. unfold row_index.
    f_equal. apply list_fmap_ext. intros _ row _. f_equal. unfold row_seq_id.
    destruct (hp_seqs h' !! row_sequence row) as [s|] eqn:Es; [|done]. simpl.
    symmetry. by apply (ok_seqs _ _ leased_ledger).
  - apply negb_false_iff, bool_decide_eq_true, leased_states_ids.
  - apply negb_false_iff, bool_decide_eq_true, leased_nodup_order.
Qed.

(** The sequence of a row, under the lease. *)
Lemma leased_row row :
  row ∈ rv_rows r → ∃ s, hp_seqs h !! row_sequence row = Some s ∧
    hp_seqs h' !! row_sequence row =
      Some (set_block_table (block_table s ++ row_appended_block_ids row) s) ∧
    row_block_table_before row = block_table s ∧
    row_num_cached_tokens_before row = num_cached_tokens s ∧
    row_num_draft_cached_tokens_before row = num_draft_cached_tokens s.
Proof.
  intros Hin. destruct (le_heap _ _ _ Hl) as (h2 & Hg & _ & E). rewrite E.
  pose proof (le_rows _ _ _ Hl) as HF. rewrite Forall_forall in HF.
  destruct (HF _ Hin) as (s & Hs & ? & ? & ?). exists s. split; [done|]. split; [|done].
  simpl. rewrite (gg_seqs _ _ _ Hg). apply append_rows_lookup; [|  |done].
  - rewrite row_pair_fst. apply Hl.
  - apply list_elem_of_fmap. by exists row.
Qed.

Lemma leased_contents : validate_contents h' r = Ok tt.
Proof.
  destruct (le_heap _ _ _ Hl) as (h2 & Hg & Hfree & E).
  pose proof (gg_hash _ _ _ Hg) as Hh. rewrite news_rows, (le_order _ _ _ Hl) in Hh.
  unfold validate_contents. rewrite !obind_unit_ok, !oraise_if_ok. split_and!.
  - apply negb_false_iff, bool_decide_eq_true. rewrite E, (le_free _ _ _ Hl), Hfree.
    simpl. by rewrite drop_app_length.
  - apply negb_false_iff, bool_decide_eq_true. rewrite E, (le_used _ _ _ Hl). simpl.
    rewrite (gg_used _ _ _ Hg), news_rows, (le_order _ _ _ Hl). set_solver.
  - rewrite (le_hash _ _ _ Hl).
    destruct (expected_hashes_ok (rv_block_states_before r) (rv_allocation_order r)
      (hash_to_block_id (hp_bm h))) as (res & Eres & Hres).
    + intros i Hi. destruct (leased_state i) as (st & b & ? & ? & _); [set_solver|eauto].
    + intros hs i st Hi Est. destruct (ok_hash _ _ Hok _ _ Hi) as (b & Hb & Hbh & Hn).
      split; [|done]. unfold lookup_state in Est. case_match eqn:El; simplify_eq.
      apply elem_of_list_to_map_2, list_elem_of_fmap in El as (st' & [= -> ->] & Hin).
      pose proof (snapshot_states _ _ _ (le_states _ _ _ Hl)) as [_ HF].
      rewrite Forall_forall in HF. destruct (HF _ Hin) as (b' & Hb' & _ & Eh & _).
      congruence.
    + rewrite Eres. simpl. rewrite !obind_unit_ok, !oraise_if_ok, !ofor_each_ok. split_and!.
      * apply negb_false_iff, bool_decide_eq_true. rewrite E. simpl.
        apply map_eq. intros hs. apply option_eq. intros i. by rewrite Hh, Hres.
      * apply Forall_forall. intros st Hst.
        pose proof (snapshot_states _ _ _ (le_states _ _ _ Hl)) as [_ HF].
        rewrite Forall_forall in HF. destruct (HF _ Hst) as (b & Hb & E1 & E2 & E3).
        unfold check_block_state, block_at. rewrite E. simpl. case_bool_decide as Hin.
        -- apply elem_of_list_to_set in Hin.
           rewrite (gg_new _ _ _ Hg) by (by rewrite news_rows, (le_order _ _ _ Hl)). done.
        -- rewrite elem_of_list_to_set in Hin.
           rewrite (gg_old _ _ _ Hg), Hb by (by rewrite news_rows, (le_order _ _ _ Hl)).
           simpl. rewrite E1, E2, E3, !Z.eqb_refl, bool_decide_eq_true_2 by done. done.
      * apply negb_false_iff, bool_decide_eq_true, Hl.
      * apply Forall_forall. intros row Hin. destruct (leased_row row Hin) as (s & _ & Hs & E1 & E2 & E3).
        unfold check_row. rewrite Hs. simpl.
        rewrite E1, E2, E3, !Z.eqb_refl, bool_decide_eq_true_2 by done. done.
Qed.

Lemma leased_valid : _validate_live_temporary_reservation h' r = Ok tt.
Proof.
  unfold _validate_live_temporary_reservation.
  rewrite leased_publication. apply leased_contents.
Qed.
End leased.

(** ** Rolling a lease back *)

(** No lease, no reservation running: what holds between scheduler steps. *)
Record quiescent (h : heap) : Prop := {
  qu_active : _active_temporary_reservations (hp_bm h) = ∅;
  qu_by_seq : _temporary_reservation_by_seq_id (hp_bm h) = ∅;
  qu_progress : _temporary_reservation_in_progress (hp_bm h) = false;
  qu_internal : _temporary_internal_allocation (hp_bm h) = false;
}.

Lemma quiescent_unfenced h : quiescent h → unfenced h.
Proof. intros []. by split. Qed.

(** The same heap with the identity counters of the next lease moved on. *)
Definition bump : heap → heap :=
  set_bm (λ m, set_next_object (S (next_object m))
                 (set_reservation_ids (S (_temporary_reservation_ids m)) m)).

Lemma bump_quiescent h : quiescent h → quiescent (bump h).
Proof. by intros []. Qed.

Lemma bump_ok ex h : alloc_ok ex h → alloc_ok ex (bump h).
Proof. by apply alloc_ok_same_ledger. Qed.

Definition rv_key (v : row_view) : nat := v.1.1.1.
Definition restored (v : row_view) (s : sequence) : sequence :=
  set_num_draft_cached_tokens v.2 (set_num_cached_tokens v.1.2 (set_block_table v.1.1.2 s)).

Lemma restore_row_alter ss v : restore_row ss v = alter (restored v) (rv_key v) ss.
Proof. by destruct v as [[[]]]. Qed.

Lemma restore_rows_lookup vs ss k :
  NoDup (rv_key <$> vs) →
  foldl restore_row ss vs !! k =
    match list_find (λ v, rv_key v = k) vs with
    | Some (_, v) => restored v <$> ss !! k
    | None => ss !! k
    end.
Proof.
  revert ss. induction vs as [|v vs IH]; intros ss Hnd; [done|].
  simpl in Hnd. apply NoDup_cons in Hnd as [Hv Hnd]. simpl.
  rewrite IH, restore_row_alter by done. case_decide as Hk.
  - destruct (list_find _ vs) as [[j v']|] eqn:E; simpl.
    { exfalso. apply list_find_Some in E as (Hj & Hv' & _). apply Hv.
      apply list_elem_of_fmap. exists v'. split; [congruence|]. by eapply list_elem_of_lookup_2. }
    subst k. by rewrite lookup_alter, decide_True.
  - destruct (list_find _ vs) as [[j v']|] eqn:E; simpl;
      rewrite lookup_alter, decide_False by congruence; done.
Qed.

(** Deleting the entries of a list of rows from the index. *)
Definition drop_index (rid : nat) (idx : gmap nat nat) (k : nat) : gmap nat nat :=
  if bool_decide (idx !! k = Some rid) then delete k idx else idx.

Lemma drop_index_lookup rid ks idx k :
  foldl (drop_index rid) idx ks !! k =
    if bool_decide (k ∈ ks ∧ idx !! k = Some rid) then None else idx !! k.
Proof.
  revert idx. induction ks as [|k' ks IH]; intros idx; cbn [foldl].
  { rewrite bool_decide_eq_false_2; [done|set_solver]. }
  assert (drop_index rid idx k' !! k =
    if bool_decide (k = k' ∧ idx !! k = Some rid) then None else idx !! k) as Hd.
  { unfold drop_index. destruct (decide (idx !! k' = Some rid)) as [E|E].
    - rewrite (bool_decide_eq_true_2 (idx !! k' = _)), lookup_delete by done.
      destruct (decide (k = k')) as [->|Hne].
      + by rewrite decide_True, bool_decide_eq_true_2.
      + rewrite decide_False, bool_decide_eq_false_2 by naive_solver. done.
    - rewrite (bool_decide_eq_false_2 (idx !! k' = _)) by done.
      rewrite bool_decide_eq_false_2; [done|naive_solver]. }
  rewrite IH, Hd. repeat case_bool_decide; set_solver.
Qed.

Lemma foldl_fmap {A B C} (f : C → B → C) (g : A → B) c l :
  foldl f c (g <$> l) = foldl (λ c x, f c (g x)) c l.
Proof. revert c. induction l; simpl; auto. Qed.

Lemma row_index_dropped r ks :
  (∀ k, k ∈ row_sequence <$> rv_rows r → k ∈ ks) →
  foldl (drop_index (rv_reservation_id r)) (row_index r) ks = ∅.
Proof.
  intros Hks. apply map_empty. intros k. rewrite drop_index_lookup.
  case_bool_decide as Hk; [done|]. apply eq_None_not_Some. intros [rid' E].
  apply Hk. assert ((k, rid') ∈ (λ row, (row_sequence row, rv_reservation_id r)) <$> rv_rows r) as Hin
    by by apply elem_of_list_to_map_2.
  apply list_elem_of_fmap in Hin as (row & [= -> ->] & Hin). split; [|done].
  apply Hks, list_elem_of_fmap. eauto.
Qed.

Lemma unpublish_eq r h :
  _unpublish_temporary_reservation r h =
  set_bm (λ m, set_by_seq_id
      (foldl (drop_index (rv_reservation_id r)) (_temporary_reservation_by_seq_id m)
         (row_seq_id h <$> rv_rows r))
      (set_active (delete (rv_reservation_id r) (_active_temporary_reservations m)) m)) h.
Proof. unfold _unpublish_temporary_reservation, set_bm. cbv beta. by rewrite foldl_fmap. Qed.

Section rollback.
Context (h : heap) (r : TemporaryBlockReservation) (h' : heap).
Hypotheses (Hok : alloc_ok none h) (Hq : quiescent h) (Hl : leased h r h').

Lemma leased_restored_seqs :
  foldl restore_row (hp_seqs h') (view_of_row <$> rv_rows r) = hp_seqs h.
Proof.
  apply map_eq. intros k. rewrite restore_rows_lookup; last first.
  { rewrite <-list_fmap_compose. exact (le_nodup _ _ _ Hl). }
  destruct (list_find _ _) as [[j v]|] eqn:Ef.
  - apply list_find_Some in Ef as (Hj & <- & _). rewrite list_lookup_fmap in Hj.
    destruct (rv_rows r !! j) as [row|] eqn:Erow; simplify_eq/=.
    destruct (leased_row h r h' Hl row) as (s & Hs & Hs' & E1 & E2 & E3);
      [by eapply list_elem_of_lookup_2|].
    unfold view_of_row, rv_key. simpl. rewrite Hs, Hs'. simpl.
    unfold restored. simpl. rewrite E1, E2, E3. by destruct s.
  - destruct (le_heap _ _ _ Hl) as (h2 & Hg & _ & ->).
    simpl. rewrite (gg_seqs _ _ _ Hg), append_rows_lookup_ne; [done|].
    rewrite row_pair_fst. intros (row & -> & Hin)%list_elem_of_fmap.
    apply list_find_None in Ef. rewrite Forall_forall in Ef.
    apply (Ef (view_of_row row)); [|done]. apply list_elem_of_fmap. eauto.
Qed.

Lemma leased_restored_blocks bl :
  (∀ i, i ∉ rv_allocation_order r → bl !! i = blocks (hp_bm h) !! i) →
  (∀ i, b_block_id <$> bl !! i = b_block_id <$> blocks (hp_bm h) !! i) →
  restore_block_states (rv_block_states_before r) bl = blocks (hp_bm h).
Proof.
  intros Hsame Hid. eapply restore_snapshot; [exact (le_states _ _ _ Hl)| |done|].
  - intros i b Hb. by destruct (ok_block _ _ Hok _ _ Hb).
  - intros i Hi. apply Hsame. set_solver.
Qed.

Lemma leased_block_ids i :
  b_block_id <$> blocks (hp_bm h') !! i = b_block_id <$> blocks (hp_bm h) !! i.
Proof.
  pose proof (leased_ledger h r h' Hok Hl) as Hok'.
  assert (length (blocks (hp_bm h')) = length (blocks (hp_bm h))) as Hlen.
  { destruct (le_heap _ _ _ Hl) as (h2 & Hg & _ & ->). apply Hg. }
  destruct (decide (i < length (blocks (hp_bm h)))%nat) as [Hi|Hi].
  - destruct (alloc_ok_block _ _ _ Hok Hi) as (b & -> & [Hb _ _ _]).
    destruct (alloc_ok_block _ _ i Hok') as (b' & -> & [Hb' _ _ _]); [lia|].
    simpl. congruence.
  - rewrite !lookup_ge_None_2 by lia. done.
Qed.

Lemma leased_rollback : rollback_temporary_append r h' = (Ok true, bump h).
Proof.
  pose proof (leased_valid h r h' Hok Hl) as Hvalid.
  pose proof (leased_restored_seqs) as Hseqs.
  pose proof (leased_block_ids) as Hids.
  destruct (le_heap _ _ _ Hl) as (h2 & Hg & Hfree & E).
  assert (_active_temporary_reservations (hp_bm h') !! rv_reservation_id r = Some r) as Ha
    by (rewrite E; apply lookup_singleton_eq).
  unfold rollback_temporary_append, get_bm, gets. unfold bind at 1. rewrite Ha.
  unfold same_reservation. rewrite Nat.eqb_refl. unfold raise_if, ret at 1. unfold bind at 1. simpl.
  unfold bind at 1, inspect. rewrite Hvalid. unfold bind, modify, ret. f_equal.
  rewrite unpublish_eq.
  assert (hp_seqs (restore_reservation r h') = hp_seqs h) as Hs by exact Hseqs.
  assert (row_seq_id (restore_reservation r h') <$> rv_rows r = row_sequence <$> rv_rows r) as Hrows.
  { apply row_seq_ids. rewrite Hs. intros k s Hk. by apply (ok_seqs _ _ Hok). }
  apply heap_ext; simpl; rewrite ?E; simpl.
  - apply (fr_size _ _ (gg_frame _ _ _ Hg)).
  - rewrite E in Hids. apply leased_restored_blocks; [|exact Hids].
    intros i Hi. apply (gg_old _ _ _ Hg). by rewrite news_rows, (le_order _ _ _ Hl).
  - apply Hl.
  - apply Hl.
  - apply Hl.
  - by rewrite (fr_ids _ _ (gg_frame _ _ _ Hg)).
  - by rewrite (fr_object _ _ (gg_frame _ _ _ Hg)).
  - rewrite delete_singleton_eq. by rewrite (qu_active _ Hq).
  - rewrite E in Hrows. rewrite Hrows, row_index_dropped by done.
    by rewrite (qu_by_seq _ Hq).
  - apply (fr_progress _ _ (gg_frame _ _ _ Hg)).
  - apply (fr_internal _ _ (gg_frame _ _ _ Hg)).
  - by rewrite E in Hseqs.
  - apply (fr_seq_size _ _ (gg_frame _ _ _ Hg)).
Qed.
End rollback.
