(* ===== verification/ReservationSpec.v ===== *)
(** * ReservationSpec: the contract of the temporary block lease

    What reserving, rolling back, finalizing and preparing target writes
    promise, on every branch, from the description of a live lease in
    ReservationInv: reservation is all-or-nothing and refuses exactly when the
    free list is short, rolling back is its exact inverse, finalizing keeps
    exactly the requested prefix of every row, and no ordinary allocator
    operation runs while a lease is live. *)
From S2P Require Import Prelude SamplingParams Sequence Heap BlockManager Reservation.
From S2P Require Import AllocatorInv BlockManagerInv BlockManagerSpec ReservationInv.

(** ** The rows asked for *)

(** The blocks a row needs beyond its table, for writes up to [highest]. *)
Definition missing_blocks (bs : Z) (s : sequence) (highest : Z) : Z :=
  Z.max (highest `div` bs + 1) (Z.of_nat (length (block_table s)))
  - Z.of_nat (length (block_table s)).

Definition row_request (h : heap) (kh : nat * Z) (sp : _TemporaryReservationRowSpec) : Prop :=
  ∃ s, hp_seqs h !! kh.1 = Some s ∧
    sp = mk_row_spec kh.1 (block_table s) (missing_blocks (block_size (hp_bm h)) s kh.2)
           (num_cached_tokens s) (num_draft_cached_tokens s).

(** Stored, distinct sequences and non-negative positions. *)
Definition rows_ok (h : heap) (rows : list (nat * Z)) : Prop :=
  NoDup rows.*1 ∧
  Forall (λ kh : nat * Z, is_Some (hp_seqs h !! kh.1) ∧ 0 <= kh.2) rows.

Lemma table_owned h k s :
  alloc_ok none h → hp_seqs h !! k = Some s →
  ofor_each (λ i,
    oraise_if
      match blocks (hp_bm h) !! i with
      | None => true
      | Some b => negb (bool_decide (i ∈ used_block_ids (hp_bm h))) || (b_ref_count b <=? 0)
      end (RuntimeError "block table contains an unowned block")) (block_table s) = Ok tt.
Proof.
  intros Hok Hk. apply ofor_each_ok, Forall_forall. intros i Hi. apply oraise_if_ok.
  destruct (alloc_ok_block _ _ i Hok) as (b & -> & [_ Hr Hf Hu]); [by eapply ok_table|].
  pose proof (refs_ge _ _ _ i Hk). apply count_pos in Hi as Hc. unfold none in Hr.
  destruct (proj1 (ok_part _ _ Hok i)) as [Hfree|Hused]; [by eapply ok_table| |].
  - specialize (Hf Hfree). lia.
  - rewrite bool_decide_eq_true_2 by done. simpl. apply Z.leb_gt. lia.
Qed.

(** The row loop accepts exactly the good rows not seen before. *)
Lemma row_specs_run h rows seen :
  alloc_ok none h →
  match row_specs h rows seen with
  | Ok specs => rows_ok h rows ∧ Forall (λ kh, kh.1 ∉ seen) rows ∧
                Forall2 (row_request h) rows specs
  | Raise _ => ¬ (rows_ok h rows ∧ Forall (λ kh, kh.1 ∉ seen) rows)
  end.
Proof.
  intros Hok. unfold rows_ok. revert seen.
  induction rows as [|[k highest] rows IH]; intros seen; simpl.
  { split_and!; constructor. }
  destruct (hp_seqs h !! k) as [s|] eqn:Hk; simpl; last first.
  { intros [[_ HF] _]. apply Forall_cons in HF as [[[? ?] _] _]. simpl in *. congruence. }
  destruct (highest <? 0) eqn:Hh; simpl.
  { apply Z.ltb_lt in Hh. intros [[_ HF] _]. apply Forall_cons in HF as [[_ ?] _]. simpl in *. lia. }
  apply Z.ltb_ge in Hh. destruct (ok_seqs _ _ Hok _ _ Hk) as [Hid _]. rewrite Hid.
  case_bool_decide as Hseen; simpl.
  { intros [_ HF]. by apply Forall_cons in HF as [? _]. }
  rewrite (table_owned _ _ _ Hok Hk). simpl.
  specialize (IH ({[k]} ∪ seen)).
  destruct (row_specs h rows ({[k]} ∪ seen)) as [specs|e]; simpl.
  - destruct IH as ([Hnd HF] & Hs & H2). split_and!.
    + constructor; [|done]. rewrite list_elem_of_fmap. intros ([k' ?] & -> & Hin).
      rewrite Forall_forall in Hs. specialize (Hs _ Hin). set_solver.
    + constructor; [|done]. simpl. rewrite Hk. split; [by eexists|done].
    + constructor; [done|]. eapply Forall_impl; [exact Hs|]. set_solver.
    + constructor; [|done]. by exists s.
  - intros [[Hnd HF] Hs]. apply IH. apply NoDup_cons in Hnd as [Hn Hnd].
    apply Forall_cons in HF as [_ HF]. apply Forall_cons in Hs as [_ Hs].
    split; [done|]. rewrite Forall_forall in Hs |- *. intros kh Hin.
    rewrite elem_of_union, elem_of_singleton. intros [E|?]; [|by apply (Hs kh)].
    apply Hn. rewrite <-E. apply list_elem_of_fmap. eauto.
Qed.

Lemma membership_ok_holds ex h : alloc_ok ex h → membership_ok (hp_bm h) = true.
Proof.
  intros Hok. unfold membership_ok. rewrite !andb_true_iff, !bool_decide_eq_true. split_and!.
  - apply Hok.
  - apply set_eq. intros i. rewrite elem_of_intersection, elem_of_list_to_set, elem_of_empty.
    pose proof (ok_disj _ _ Hok i). tauto.
  - apply set_eq. intros i. rewrite elem_of_union, !elem_of_list_to_set, elem_of_seq.
    rewrite <-(ok_part _ _ Hok). lia.
Qed.

Lemma candidates_unreferenced h ids sts n :
  alloc_ok none h → _snapshot_block_states (hp_bm h) ids = Ok sts →
  (∀ i, i ∈ take n (free_block_ids (hp_bm h)) → i ∈ ids) →
  ofor_each (λ i,
    let? st := lookup_state sts i in
    oraise_if (negb (bst_ref_count st =? 0))
      (RuntimeError "candidate free block has a nonzero reference count"))
    (take n (free_block_ids (hp_bm h))) = Ok tt.
Proof.
  intros Hok Hs Hin. apply ofor_each_ok, Forall_forall. intros i Hi.
  pose proof (snapshot_states _ _ _ Hs) as [Heq HF].
  destruct (lookup_state_ok sts i) as (st & -> & Hst & <-).
  - rewrite Heq. apply NoDup_sorted_set.
  - rewrite Heq, elem_of_sorted_set. by apply Hin.
  - simpl. rewrite Forall_forall in HF. destruct (HF _ Hst) as (b & Hb & -> & _).
    destruct (ok_block _ _ Hok _ _ Hb) as [_ _ Hf _]. rewrite Hf; [done|].
    apply elem_of_take in Hi as (j & Hj & _). by eapply list_elem_of_lookup_2.
Qed.

(** The blocks all rows need together. *)
Definition needed_blocks (h : heap) (rows : list (nat * Z)) : Z :=
  foldr (λ kh n, match hp_seqs h !! kh.1 with
                 | Some s => missing_blocks (block_size (hp_bm h)) s kh.2
                 | None => 0 end + n) 0 rows.

Lemma needed_total h rows specs :
  Forall2 (row_request h) rows specs → total_new_blocks specs = needed_blocks h rows.
Proof.
  induction 1 as [|kh sp rows specs (s & Hs & ->) _ IH]; [done|].
  rewrite total_new_blocks_cons, IH. simpl. by rewrite Hs.
Qed.

(** Each row of the lease extends the asked table by exactly what is missing. *)
Definition row_covers (h : heap) (kh : nat * Z) (row : _TemporaryReservationRow) : Prop :=
  row_sequence row = kh.1 ∧ ∃ s, hp_seqs h !! kh.1 = Some s ∧
    Z.of_nat (length (row_appended_block_ids row)) =
      missing_blocks (block_size (hp_bm h)) s kh.2.

(** ** Publishing *)

Lemma index_loop rid rows h :
  (∀ row, row ∈ rows → ∃ s, hp_seqs h !! row_sequence row = Some s ∧
     seq_id s = row_sequence row) →
  for_each (λ row,
    let* s := get_seq (row_sequence row) in
    upd_bm (λ m, set_by_seq_id (<[seq_id s := rid]>
      (_temporary_reservation_by_seq_id m)) m)) rows h =
  (Ok tt, set_bm (λ m, set_by_seq_id
     (foldl (λ idx row, <[row_sequence row := rid]> idx)
        (_temporary_reservation_by_seq_id m) rows) m) h).
Proof.
  revert h. induction rows as [|row rows IH]; intros h Hrows.
  { by destruct h as [[]]. }
  destruct (Hrows row ltac:(set_solver)) as (s & Hs & Hid).
  cbn [for_each foldl]. unfold bind at 1. rewrite (bind_ok _ _ _ _ _ (get_seq_ok _ _ _ Hs)).
  unfold upd_bm, modify. rewrite Hid. rewrite IH; [done|].
  intros row' Hin. apply Hrows. set_solver.
Qed.

Lemma foldl_insert_index (rid : nat) rows (idx : gmap nat nat) (k : nat) :
  NoDup (row_sequence <$> rows) →
  foldl (λ idx row, <[row_sequence row := rid]> idx) idx rows !! k =
    ((list_to_map ((λ row, (row_sequence row, rid)) <$> rows) : gmap nat nat) ∪ idx) !! k.
Proof.
  revert idx. induction rows as [|row rows IH]; intros idx Hnd.
  { simpl. by rewrite (left_id_L ∅ (∪)). }
  simpl in Hnd. apply NoDup_cons in Hnd as [Hn Hnd]. simpl. rewrite IH by done.
  rewrite !lookup_union, !lookup_insert. case_decide as Hk; [|done]. subst k.
  assert ((list_to_map ((λ row, (row_sequence row, rid)) <$> rows) : gmap nat nat)
    !! row_sequence row = None) as ->; [|by destruct (idx !! row_sequence row)].
  apply not_elem_of_list_to_map_1. by rewrite <-list_fmap_compose.
Qed.

Lemma publish_ok h r h2 :
  alloc_ok none h → alloc_ok none h2 → leased h r (published r h2) →
  rv_object r = next_object (hp_bm h2) →
  rv_reservation_id r = _temporary_reservation_ids (hp_bm h2) →
  _active_temporary_reservations (hp_bm h2) = ∅ →
  _temporary_reservation_by_seq_id (hp_bm h2) = ∅ →
  publish_reservation (rv_rows r) (rv_free_block_ids_before r) (rv_used_block_ids_before r)
    (rv_hash_to_block_id_before r) (rv_block_states_before r) h2 = (Ok r, published r h2).
Proof.
  intros Hok Hok2 Hl Hobj Hid Ha Hb.
  unfold publish_reservation. unfold bind at 1, get_bm, gets.
  rewrite <-Hobj, <-Hid, (le_order _ _ _ Hl).
  replace (mk_reservation (rv_object r) (rv_reservation_id r) (rv_rows r)
    (rv_allocation_order r) (rv_free_block_ids_before r) (rv_used_block_ids_before r)
    (rv_hash_to_block_id_before r) (rv_block_states_before r)) with r by (by destruct r).
  unfold bind at 1, upd_bm at 1, modify. unfold bind at 1, upd_bm at 1, modify.
  unfold bind at 1. rewrite index_loop.
  - match goal with |- context [inspect _ _ ?x] => idtac | _ => idtac end.
    match goal with |- (let* _ := _ in _) ?x = _ => assert (x = published r h2) as -> end.
    { apply heap_ext; try done; simpl; rewrite ?Ha, ?Hb; [done|].
      apply map_eq. intros k. rewrite foldl_insert_index by apply Hl.
      by rewrite (right_id_L ∅ (∪)). }
    unfold bind, inspect. by rewrite (leased_valid _ _ _ Hok Hl).
  - intros row Hin. simpl. destruct (leased_row _ _ _ Hl row Hin) as (s & _ & Hs & _).
    eexists. split; [exact Hs|]. by apply (ok_seqs _ _ Hok2).
Qed.

(** ** Reserving *)

Lemma rows_of_specs h rows specs rrows :
  Forall2 (row_request h) rows specs →
  Forall2 (λ sp r, r = row_of sp (row_appended_block_ids r) ∧
    Z.of_nat (length (row_appended_block_ids r)) = spec_new_blocks sp) specs rrows →
  Forall (row_records h) rrows ∧ row_sequence <$> rrows = rows.*1 ∧
  rrows ≫= row_block_table_before = specs ≫= spec_block_table_before ∧
  Forall2 (row_covers h) rows rrows.
Proof.
  intros H1. revert rrows. induction H1 as [|kh sp rows specs (s & Hs & ->) _ IH]; intros rrows H2.
  { apply Forall2_nil_inv_l in H2 as ->. split_and!; [constructor|done|done|constructor]. }
  apply Forall2_cons_inv_l in H2 as (row & rrows' & [-> Hlen] & H2 & ->).
  destruct (IH _ H2) as (HF & Hseq & Hb & Hc). split_and!.
  - constructor; [|done]. by exists s.
  - csimpl. by rewrite Hseq.
  - csimpl. by rewrite Hb.
  - constructor; [|done]. split; [done|]. exists s. simpl in *. eauto.
Qed.

Lemma reserve_body_wp h rows :
  alloc_ok none h → leasing h → _temporary_reservation_by_seq_id (hp_bm h) = ∅ →
  wp (reserve_body rows)
    (λ o h', rows_ok h rows ∧
      match o with
      | Some r => leased h r h' ∧ Forall2 (row_covers h) rows (rv_rows r) ∧
                  needed_blocks h rows <= Z.of_nat (length (free_block_ids (hp_bm h)))
      | None => h' = h ∧
                Z.of_nat (length (free_block_ids (hp_bm h))) < needed_blocks h rows
      end)
    (λ _ h', h' = h ∧ ¬ rows_ok h rows) h.
Proof.
  intros Hok Hl Hidx. unfold reserve_body, wp.
  pose proof (row_specs_run h rows ∅ Hok) as Hspecs.
  assert (Forall (λ kh : nat * Z, kh.1 ∉ (∅ : gset nat)) rows) as Hnone
    by (apply Forall_forall; set_solver).
  unfold bind at 1, inspect. destruct (row_specs h rows ∅) as [specs|e]; [|tauto].
  destruct Hspecs as (Hrows & _ & Hreq). unfold bind at 1, get_bm, gets.
  rewrite (needed_total _ _ _ Hreq).
  destruct (Z.of_nat (length (free_block_ids (hp_bm h))) <? needed_blocks h rows) eqn:Hshort.
  { apply Z.ltb_lt in Hshort. done. }
  apply Z.ltb_ge in Hshort. rewrite (membership_ok_holds _ _ Hok).
  mstep.
  set (n := Z.to_nat (needed_blocks h rows)).
  set (ids := take n (free_block_ids (hp_bm h)) ++ (specs ≫= spec_block_table_before)).
  destruct (snapshot_ok none h ids) as [sts Hsts]; [done| |].
  { intros i [Hi|Hi]%elem_of_app.
    - apply elem_of_take in Hi as (j & Hj & _). apply list_elem_of_lookup_2 in Hj.
      by eapply alloc_ok_free_lt.
    - apply list_elem_of_bind in Hi as (sp & Hi & Hsp).
      apply list_elem_of_lookup in Hsp as [j Hj].
      destruct (Forall2_lookup_r _ _ _ _ _ Hreq Hj) as (kh & _ & s & Hs & ->).
      by eapply ok_table. }
  rewrite Hsts. unfold bind at 1, lift. unfold bind at 1.
  rewrite (candidates_unreferenced h ids sts n Hok Hsts) by set_solver.
  destruct (reserve_rows_loop specs h Hok Hl) as (rrows & h2 & E & Hrr & Hg & Hok2 & Happ & Hfree).
  { apply Forall_forall. intros sp Hsp. apply list_elem_of_lookup in Hsp as [j Hj].
    destruct (Forall2_lookup_r _ _ _ _ _ Hreq Hj) as (kh & _ & s & Hs & ->).
    simpl. split; [unfold missing_blocks; lia|by eexists]. }
  { rewrite (needed_total _ _ _ Hreq). lia. }
  rewrite (needed_total _ _ _ Hreq) in Happ, Hfree. fold n in Happ, Hfree.
  assert (reserve_rows specs (take n (free_block_ids (hp_bm h))) h = (Ok rrows, h2)) as Er.
  { unfold reserve_rows. rewrite (bind_ok _ _ _ _ _ E), Happ, bool_decide_eq_true_2; done. }
  unfold bind at 1, try_reraise at 1. rewrite Er. unfold bind at 1.
  destruct (rows_of_specs _ _ _ _ Hreq Hrr) as (Hrec & Hseqs & Hbefore & Hcov).
  set (r := mk_reservation (next_object (hp_bm h2)) (_temporary_reservation_ids (hp_bm h2)) rrows
    (take n (free_block_ids (hp_bm h))) (free_block_ids (hp_bm h)) (used_block_ids (hp_bm h))
    (hash_to_block_id (hp_bm h)) sts).
  assert (leased h r (published r h2)) as Hleased.
  { split; simpl; try done.
    - rewrite Hseqs. apply Hrows.
    - by rewrite Hbefore.
    - exists h2. split; [done|]. split; [|done]. by rewrite Hfree, take_drop. }
  pose proof (publish_ok h r h2 Hok Hok2 Hleased eq_refl eq_refl) as Hp. simpl in Hp.
  unfold bind at 1, try_reraise. rewrite Hp; [done| |].
  - rewrite (fr_active _ _ (gg_frame _ _ _ Hg)). apply Hl.
  - by rewrite (fr_by_seq _ _ (gg_frame _ _ _ Hg)).
Qed.

(** The [finally] of [reserve_temporary_append]. *)
Definition reservation_done : heap → heap :=
  set_bm (λ m, set_in_progress false (set_internal false m)).

Lemma reservation_done_id h :
  quiescent h → reservation_done (set_bm (set_in_progress true) h) = h.
Proof. intros []. by apply heap_ext. Qed.

Lemma leased_done h r h' :
  quiescent h → leased (set_bm (set_in_progress true) h) r h' →
  leased h r (reservation_done h').
Proof.
  intros Hq [Hr Hnd Hord Hfree Hused Hh Hst (h2 & Hg & Hf & ->)]. split; try done.
  exists (reservation_done h2). split; [|done].
  destruct Hg as [[F1 F2 F3 F4 F5 F6 F7 F8 F9] ? ? ? ? ? ? ? ?]. destruct Hq. split; try done.
Qed.

Lemma reserve_run h rows :
  alloc_ok none h → quiescent h →
  wp (reserve_temporary_append rows)
    (λ o h', rows_ok h rows ∧
      match o with
      | Some r => leased h r h' ∧ Forall2 (row_covers h) rows (rv_rows r) ∧
                  needed_blocks h rows <= Z.of_nat (length (free_block_ids (hp_bm h)))
      | None => h' = h ∧
                Z.of_nat (length (free_block_ids (hp_bm h))) < needed_blocks h rows
      end)
    (λ _ h', h' = h ∧ ¬ rows_ok h rows) h.
Proof.
  intros Hok Hq. unfold reserve_temporary_append.
  apply wp_bind. eapply wp_eq; [by apply active_empty, Hq|]. wread.
  rewrite (qu_progress _ Hq), (qu_by_seq _ Hq), !bool_decide_eq_true_2 by done.
  apply wp_bind, wp_ret, wp_bind, wp_ret.
  apply wp_bind. eapply wp_eq; [reflexivity|].
  pose proof (reserve_body_wp (set_bm (set_in_progress true) h) rows) as Hb.
  unfold wp in *. unfold try_finally.
  destruct (reserve_body rows (set_bm (set_in_progress true) h)) as [o h'] eqn:E.
  specialize (Hb (alloc_ok_same_ledger _ _ (set_in_progress true) ltac:(done) Hok)
    (conj (qu_active _ Hq) (qu_internal _ Hq)) (qu_by_seq _ Hq)).
  destruct o as [[r|]|e].
  - destruct Hb as (Hr & Hl & Hc & Hn). split; [exact Hr|].
    split; [by apply leased_done|]. done.
  - destruct Hb as (Hr & -> & Hn). split; [exact Hr|]. split; [by apply reservation_done_id|done].
  - destruct Hb as [-> Hr]. split; [by apply reservation_done_id|exact Hr].
Qed.

(** Reserving is all-or-nothing.  Between steps, [reserve_temporary_append]
    raises iff the rows repeat a sequence or ask for a negative position;
    otherwise it refuses iff the free list is shorter than what all rows
    together miss.  In both cases the heap is exactly as before (the fence
    flags included).  When it answers a lease, that lease is live and valid, it
    keeps the ledger, and every row got exactly its missing blocks. *)
Theorem reserve_temporary_append_spec h rows :
  alloc_ok none h → quiescent h →
  wp (reserve_temporary_append rows)
    (λ o h', rows_ok h rows ∧
      match o with
      | Some r => leased h r h' ∧ alloc_ok none h' ∧
                  _validate_live_temporary_reservation h' r = Ok tt ∧
                  Forall2 (row_covers h) rows (rv_rows r) ∧
                  needed_blocks h rows <= Z.of_nat (length (free_block_ids (hp_bm h)))
      | None => h' = h ∧
                Z.of_nat (length (free_block_ids (hp_bm h))) < needed_blocks h rows
      end)
    (λ _ h', h' = h ∧ ¬ rows_ok h rows) h.
Proof.
  intros Hok Hq. eapply wp_mono; [by apply reserve_run| |done].
  intros [r|] h'; [|done]. intros (Hr & Hl & Hc & Hn).
  split; [done|]. split; [done|]. split; [by eapply leased_ledger|].
  split; [by apply (leased_valid h)|done].
Qed.

(** ** Rolling back *)

(** C34: a rollback is the exact inverse of the reservation: the heap (tables,
    coverage, block metadata and contents, free list in order, used set and
    prefix cache) is restored and only the two identity counters have moved on;
    rolling the same lease back again is a no-op that answers [False]. *)
Theorem reserve_rollback_roundtrip h rows r h' :
  alloc_ok none h → quiescent h →
  reserve_temporary_append rows h = (Ok (Some r), h') →
  rollback_temporary_append r h' = (Ok true, bump h) ∧
  quiescent (bump h) ∧
  rollback_temporary_append r (bump h) = (Ok false, bump h).
Proof.
  intros Hok Hq E. pose proof (reserve_run h rows Hok Hq) as Hr. unfold wp in Hr. rewrite E in Hr.
  destruct Hr as (_ & Hl & _). split; [by apply leased_rollback|].
  split; [by apply bump_quiescent|].
  unfold rollback_temporary_append, bind, get_bm, gets. simpl.
  by rewrite (qu_active _ Hq), lookup_empty.
Qed.

(** ** The fence *)

Lemma leased_fenced h r h' :
  leased h r h' → _active_temporary_reservations (hp_bm h') ≠ ∅.
Proof.
  intros Hl. destruct (le_heap _ _ _ Hl) as (h2 & _ & _ & ->). simpl.
  intros E. by apply map_non_empty_singleton in E.
Qed.

Lemma fenced_bind {A} allow (k : unit → MH A) h :
  _active_temporary_reservations (hp_bm h) ≠ ∅ →
  ∃ e, bind (_assert_allocator_mutation_allowed allow) k h = (Raise e, h).
Proof.
  intros Hne. destruct (fenced_refuses allow h Hne) as [e He].
  exists e. by rewrite (bind_raise _ _ _ _ _ He).
Qed.
#[local] Hint Resolve fenced_bind : core.

(** While a lease is live every ordinary allocator operation that could
    move a block raises and changes nothing: the lease fences the allocator. *)
Theorem lease_fences_allocator H h r h' k i n rows :
  leased h r h' →
  Forall (λ m : MH unit, ∃ e, m h' = (Raise e, h'))
    [allocate H k n; may_append k; hash_blocks H k; _deallocate_block i;
     (allocate_incremental H k n n ;;; ret tt); (extend k n ;;; ret tt);
     (_allocate_block ;;; ret tt); (rollback_uncommitted_appends rows ;;; ret tt)].
Proof.
  intros Hl. apply leased_fenced in Hl as Hne.
  assert (∀ A (m : MH A), (∃ e, m h' = (Raise e, h')) →
    ∃ e, (m ;;; ret tt) h' = (Raise e, h')) as Hk.
  { intros A m [e E]. exists e. by rewrite (bind_raise _ _ _ _ _ E). }
  repeat constructor; try apply Hk; by apply fenced_bind.
Qed.

(** ** Deallocating under a lease *)

Lemma row_index_lookup r k :
  NoDup (row_sequence <$> rv_rows r) →
  row_index r !! k = (if decide (k ∈ row_sequence <$> rv_rows r)
                      then Some (rv_reservation_id r) else None).
Proof.
  intros Hnd. unfold row_index. case_decide as Hk.
  - apply list_elem_of_fmap in Hk as (row & -> & Hin).
    apply elem_of_list_to_map_1; [by rewrite <-list_fmap_compose|].
    apply list_elem_of_fmap. eauto.
  - apply not_elem_of_list_to_map_1. by rewrite <-list_fmap_compose.
Qed.

(** What [deallocate] meets under the lease [r]. *)
Lemma leased_meets h r h' k :
  alloc_ok none h → leased h r h' → is_Some (hp_seqs h !! k) →
  _active_temporary_reservation h' = (Ok (Some r), h') ∧
  ∃ s', hp_seqs h' !! k = Some s' ∧
    _temporary_reservation_by_seq_id (hp_bm h') !! seq_id s' =
      if decide (k ∈ row_sequence <$> rv_rows r) then Some (rv_reservation_id r) else None.
Proof.
  intros Hok Hl [s Hs]. pose proof (leased_ledger h r h' Hok Hl) as Hok'.
  destruct (le_heap _ _ _ Hl) as (h2 & Hg & _ & Eh). split.
  { unfold _active_temporary_reservation, bind, get_bm, gets, raise_if, ret. rewrite Eh. simpl.
    by rewrite map_size_singleton, map_to_list_singleton. }
  assert (is_Some (hp_seqs h' !! k)) as [s' Hs'].
  { destruct (decide (k ∈ (row_pair <$> rv_rows r).*1)) as [Hin|Hin].
    - rewrite row_pair_fst in Hin. apply list_elem_of_fmap in Hin as (row & -> & Hin).
      destruct (leased_row _ _ _ Hl row Hin) as (? & _ & -> & _). by eexists.
    - rewrite Eh. simpl. rewrite (gg_seqs _ _ _ Hg), append_rows_lookup_ne, Hs; [by eexists|done]. }
  exists s'. split; [done|]. destruct (ok_seqs _ _ Hok' _ _ Hs') as [-> _].
  rewrite Eh. simpl. apply row_index_lookup, Hl.
Qed.

Lemma covers_keys h rows rrows :
  Forall2 (row_covers h) rows rrows → row_sequence <$> rrows = rows.*1.
Proof. induction 1 as [|kh row ? ? [E _] _ IH]; [done|]. csimpl. by rewrite IH, E. Qed.

(** [deallocate] under a live lease consumes it when the sequence takes part
    in it: it acts exactly as it would on the heap of before the reservation (so
    no leased block leaks).  For any other sequence it raises and changes nothing. *)
Theorem deallocate_under_lease h rows r h' k :
  alloc_ok none h → quiescent h →
  reserve_temporary_append rows h = (Ok (Some r), h') → is_Some (hp_seqs h !! k) →
  if decide (k ∈ rows.*1)
  then deallocate k h' = deallocate k (bump h) ∧
       ∃ h2, deallocate k h' = (Ok tt, h2) ∧ alloc_ok none h2 ∧ unfenced h2
  else ∃ e, deallocate k h' = (Raise e, h').
Proof.
  intros Hok Hq E Hk.
  pose proof (reserve_run h rows Hok Hq) as Hr. unfold wp in Hr. rewrite E in Hr.
  destruct Hr as (_ & Hl & Hcov & _). rewrite <-(covers_keys _ _ _ Hcov).
  destruct (leased_meets h r h' k Hok Hl Hk) as (Ha & s' & Hs' & Hidx).
  pose proof (bump_quiescent h Hq) as Hqb.
  assert (∀ c, (if decide (k ∈ row_sequence <$> rv_rows r) then c = false else c = true) →
    c = negb (bool_decide (_temporary_reservation_by_seq_id (hp_bm h') !! seq_id s' =
                 Some (rv_reservation_id r)))) as Hc.
  { intros c. rewrite Hidx. case_decide; intros ->; symmetry;
      [by rewrite bool_decide_eq_true_2|by rewrite bool_decide_eq_false_2]. }
  case_decide as Hin.
  - assert (deallocate k h' = deallocate k (bump h)) as ->.
    { unfold deallocate at 1. rewrite (bind_ok _ _ _ _ _ Ha).
      unfold bind at 1. rewrite (bind_ok _ _ _ _ _ (get_seq_ok _ _ _ Hs')).
      unfold bind at 1, get_bm, gets. rewrite <-(Hc false eq_refl). mstep.
      rewrite (bind_ok _ _ _ _ _ (leased_rollback h r h' Hok Hq Hl)).
      unfold deallocate. by rewrite (bind_ok _ _ _ _ _ (active_empty (bump h) (qu_active _ Hqb))). }
    split; [done|]. destruct Hk as [s Hs].
    destruct (deallocate_run (bump h) k s) as (h2 & E2 & ? & ? & _);
      [by apply bump_ok|by apply quiescent_unfenced|done|]. eauto.
  - eexists. unfold deallocate. rewrite (bind_ok _ _ _ _ _ Ha).
    apply bind_raise. rewrite (bind_ok _ _ _ _ _ (get_seq_ok _ _ _ Hs')).
    unfold bind at 1, get_bm, gets. rewrite <-(Hc true eq_refl). reflexivity.
Qed.
