(* ===== verification/FinalizeSpec.v ===== *)
(** * FinalizeSpec: finalizing a lease and preparing target writes

    [finalize_temporary_append] keeps, per row, the asked prefix of the leased
    blocks and undoes the rest: the heap it leaves is the one before the lease
    with those prefixes appended ([grown_rows]).
    [prepare_temporary_target_writes] amends the lease so that a later rollback
    no longer revives the cache entries of the recycled blocks. *)
From S2P Require Import Prelude SamplingParams Sequence Heap BlockManager Reservation.
From S2P Require Import AllocatorInv BlockManagerInv ReservationInv ReservationSpec.

(** ** The requested counts *)

Lemma collect_counts_run items acc :
  match collect_counts items acc with
  | Ok m => NoDup items.*1 ∧ (∀ k, k ∈ items.*1 → acc !! k = None) ∧
            m = list_to_map items ∪ acc
  | Raise _ => ¬ (NoDup items.*1 ∧ ∀ k, k ∈ items.*1 → acc !! k = None)
  end.
Proof.
  revert acc. induction items as [|[k n] items IH]; intros acc; simpl.
  { split; [constructor|]. split; [set_solver|]. by rewrite (left_id_L ∅ (∪)). }
  case_bool_decide as Hk; simpl.
  { intros [_ Hnone]. rewrite (Hnone k) in Hk by set_solver. by apply is_Some_None in Hk. }
  specialize (IH (<[k:=n]> acc)). apply eq_None_not_Some in Hk.
  destruct (collect_counts items (<[k:=n]> acc)) as [m|e].
  - destruct IH as (Hnd & Hnone & ->).
    assert (k ∉ items.*1) as Hn by (intros Hin; specialize (Hnone k Hin); by rewrite lookup_insert_eq in Hnone).
    split; [by constructor|]. split.
    + intros k' [->|Hin]%elem_of_cons; [done|]. specialize (Hnone k' Hin).
      rewrite lookup_insert_None in Hnone. tauto.
    + rewrite <-insert_union_r by (by apply not_elem_of_list_to_map_1).
      by rewrite insert_union_l.
  - intros [[Hn Hnd]%NoDup_cons Hnone]. apply IH. split; [done|]. intros k' Hin.
    rewrite lookup_insert_ne by (intros ->; done). apply Hnone. set_solver.
Qed.

(** One count per row, each within the row's suffix. *)
Definition counts_ok (r : TemporaryBlockReservation) (items : list (nat * Z)) : Prop :=
  items.*1 ≡ₚ row_sequence <$> rv_rows r ∧
  ∀ row n, row ∈ rv_rows r → (row_sequence row, n) ∈ items →
    0 <= n <= Z.of_nat (length (row_appended_block_ids row)).

Lemma retained_counts_run h r items :
  NoDup (row_sequence <$> rv_rows r) →
  row_seq_id h <$> rv_rows r = row_sequence <$> rv_rows r →
  match retained_counts h r items with
  | Ok m => items.*1 ≡ₚ row_sequence <$> rv_rows r ∧ m = list_to_map items
  | Raise _ => ¬ items.*1 ≡ₚ row_sequence <$> rv_rows r
  end.
Proof.
  intros Hnd Hids. unfold retained_counts. rewrite Hids.
  destruct (length items =? length (rv_rows r))%nat eqn:Hlen; simpl; last first.
  { apply Nat.eqb_neq in Hlen. intros Hp. apply Hlen. apply Permutation_length in Hp.
    by rewrite !length_fmap in Hp. }
  pose proof (collect_counts_run items ∅) as Hc.
  destruct (collect_counts items ∅) as [m|e]; simpl; last first.
  { intros Hp. apply Hc. split; [by rewrite Hp|]. intros; apply lookup_empty. }
  destruct Hc as (Hndi & _ & ->). rewrite (right_id_L ∅ (∪)).
  rewrite dom_list_to_map_L. case_bool_decide as Hd; simpl.
  - split; [|done]. apply NoDup_Permutation; [done|done|]. intros k.
    rewrite <-!(elem_of_list_to_set (C := gset nat)), Hd. done.
  - intros Hp. apply Hd. by rewrite Hp.
Qed.

(** ** The rows' decisions *)

Definition keep_of (counts : gmap nat Z) (row : _TemporaryReservationRow) : nat :=
  Z.to_nat (default 0 (counts !! row_sequence row)).
Definition kept_of (counts : gmap nat Z) (row : _TemporaryReservationRow) : list nat :=
  take (keep_of counts row) (row_appended_block_ids row).
Definition released_of (counts : gmap nat Z) (row : _TemporaryReservationRow) : list nat :=
  drop (keep_of counts row) (row_appended_block_ids row).
Definition decision (counts : gmap nat Z) (row : _TemporaryReservationRow) : retention :=
  (row, row_block_table_before row ++ kept_of counts row, kept_of counts row,
   released_of counts row).

Lemma retain_rows_run h counts rows :
  row_seq_id h <$> rows = row_sequence <$> rows →
  (∀ row, row ∈ rows → is_Some (counts !! row_sequence row)) →
  match omap_all (retain_row h counts) rows with
  | Ok ds => ds = decision counts <$> rows ∧
             ∀ row n, row ∈ rows → counts !! row_sequence row = Some n →
               0 <= n <= Z.of_nat (length (row_appended_block_ids row))
  | Raise _ => ¬ ∀ row n, row ∈ rows → counts !! row_sequence row = Some n →
               0 <= n <= Z.of_nat (length (row_appended_block_ids row))
  end.
Proof.
  induction rows as [|row rows IH]; intros Hids Hs.
  { split; [done|]. set_solver. }
  csimpl in Hids. injection Hids as Hid Hids.
  specialize (IH Hids ltac:(intros; apply Hs; set_solver)).
  destruct (Hs row ltac:(set_solver)) as [n Hn]. simpl. unfold retain_row at 1.
  rewrite Hid, Hn. simpl.
  destruct ((n <? 0) || (Z.of_nat (length (row_appended_block_ids row)) <? n)) eqn:Hb; simpl.
  { intros Hall. specialize (Hall row n ltac:(set_solver) Hn).
    rewrite orb_true_iff, !Z.ltb_lt in Hb. lia. }
  apply orb_false_iff in Hb as [Hb1%Z.ltb_ge Hb2%Z.ltb_ge].
  destruct (omap_all (retain_row h counts) rows) as [ds|e]; simpl.
  - destruct IH as [-> Hall]. split.
    + csimpl. unfold decision, kept_of, released_of, keep_of. by rewrite Hn.
    + intros row' n' [->|Hin]%elem_of_cons ?; [|by eauto]. simplify_eq. lia.
  - intros Hall. apply IH. intros row' n' Hin. apply Hall. set_solver.
Qed.

Lemma kept_released_perm counts rows :
  (rows ≫= kept_of counts) ++ (rows ≫= released_of counts)
    ≡ₚ rows ≫= row_appended_block_ids.
Proof.
  induction rows as [|row rows IH]; [done|]. csimpl.
  rewrite <-(take_drop (keep_of counts row) (row_appended_block_ids row)) at 1.
  change (take (keep_of counts row) (row_appended_block_ids row)) with (kept_of counts row).
  change (drop (keep_of counts row) (row_appended_block_ids row)) with (released_of counts row).
  rewrite <-IH. solve_Permutation.
Qed.

Lemma bind_fmap {A B C} (f : A → B) (g : B → list C) l :
  (f <$> l) ≫= g = l ≫= λ x, g (f x).
Proof. induction l as [|x l IH]; [done|]. csimpl. by rewrite IH. Qed.

Lemma desired_state_run r counts :
  rv_rows r ≫= row_appended_block_ids = rv_allocation_order r →
  NoDup (rv_allocation_order r) →
  let kept := rv_rows r ≫= kept_of counts in
  desired_state r (decision counts <$> rv_rows r) =
  Ok (mk_final_state (decision counts <$> rv_rows r) (list_to_set kept)
        (list_to_set (rv_rows r ≫= released_of counts))
        (filter (λ i, i ∉ (list_to_set kept : gset nat)) (rv_free_block_ids_before r))
        (rv_used_block_ids_before r ∪ list_to_set kept)
        (filter (λ hb, hb.2 ∉ (list_to_set kept : gset nat)) (rv_hash_to_block_id_before r))).
Proof.
  intros Hord Hnd kept. unfold desired_state. rewrite !bind_fmap.
  change (rv_rows r ≫= λ x, ret_kept (decision counts x)) with kept.
  change (rv_rows r ≫= λ x, ret_released (decision counts x)) with (rv_rows r ≫= released_of counts).
  pose proof (kept_released_perm counts (rv_rows r)) as Hp. rewrite Hord in Hp. fold kept in Hp.
  rewrite <-Hp in Hnd. apply NoDup_app in Hnd as (_ & Hd & _).
  rewrite (bool_decide_eq_true_2 (_ ∩ _ = _)), (bool_decide_eq_true_2 (_ ∪ _ = _)); [done| |].
  - by rewrite <-list_to_set_app_L, Hp.
  - apply set_eq. intros i. rewrite elem_of_intersection, !elem_of_list_to_set. set_solver.
Qed.

(** ** The physical assignments *)

Definition set_tables (ps : list (nat * list nat)) (ss : gmap nat sequence) : gmap nat sequence :=
  foldl (λ ss p, alter (set_block_table p.2) p.1 ss) ss ps.

Lemma set_tables_lookup_ne ps ss k : k ∉ ps.*1 → set_tables ps ss !! k = ss !! k.
Proof.
  revert ss. induction ps as [|[k' t] ps IH]; intros ss Hk; [done|]. simpl in *.
  rewrite IH by set_solver. rewrite lookup_alter, decide_False; [done|set_solver].
Qed.

Lemma set_tables_lookup ps ss k t :
  NoDup ps.*1 → (k, t) ∈ ps → set_tables ps ss !! k = set_block_table t <$> ss !! k.
Proof.
  revert ss. induction ps as [|[k' t'] ps IH]; intros ss Hnd Hin; [set_solver|].
  simpl in Hnd. apply NoDup_cons in Hnd as [Hk' Hnd]. simpl.
  apply elem_of_cons in Hin as [[= -> ->]|Hin].
  - rewrite set_tables_lookup_ne by done. by rewrite lookup_alter, decide_True.
  - rewrite IH by done. rewrite lookup_alter, decide_False; [done|].
    intros ->. apply Hk'. apply list_elem_of_fmap. by exists (k, t).
Qed.

Lemma tables_loop (ds : list retention) h :
  for_each (λ d, upd_seq (row_sequence (ret_row d)) (set_block_table (ret_table d))) ds h =
  (Ok tt, set_seqs (set_tables ((λ d, (row_sequence (ret_row d), ret_table d)) <$> ds)) h).
Proof.
  revert h. induction ds as [|d ds IH]; intros h; [by destruct h|].
  cbn [for_each]. unfold bind, upd_seq at 1, modify. by rewrite IH.
Qed.

Lemma released_loop sts l h :
  NoDup l →
  (∀ i, i ∈ l → ∃ st, lookup_state sts i = Ok st ∧ bst_block_id st = i ∧
     (i < length (blocks (hp_bm h)))%nat) →
  ∃ bl, for_each (λ i,
      let* st := lift (lookup_state sts i) in
      upd_block (bst_block_id st) (restore_block_state st)) l h =
    (Ok tt, set_bm (set_blocks bl) h) ∧ length bl = length (blocks (hp_bm h)) ∧
    (∀ i, i ∉ l → bl !! i = blocks (hp_bm h) !! i) ∧
    (∀ i st, i ∈ l → lookup_state sts i = Ok st →
       bl !! i = restore_block_state st <$> blocks (hp_bm h) !! i).
Proof.
  revert h. induction l as [|i l IH]; intros h Hnd Hl.
  { exists (blocks (hp_bm h)). split; [by destruct h as [[]]|]. set_solver. }
  apply NoDup_cons in Hnd as [Hi Hnd].
  destruct (Hl i ltac:(set_solver)) as (st & Hst & Hid & Hlt).
  destruct (IH (alter_block i (restore_block_state st) h)) as (bl & E & Hlen & Hout & Hin); [done| |].
  { intros j Hj. simpl. rewrite length_alter. apply Hl. set_solver. }
  simpl in *. rewrite length_alter in Hlen. exists bl. split; [|split; [done|split]].
  - assert ((let* st := lift (lookup_state sts i) in
        upd_block (bst_block_id st) (restore_block_state st)) h =
      (Ok tt, alter_block i (restore_block_state st) h)) as Hstep.
    { rewrite Hst, <-Hid at 1. unfold lift, upd_block, bind, get_block, inspect, modify.
      rewrite Hid. by destruct (lookup_lt_is_Some_2 _ _ Hlt) as [b ->]. }
    cbn [for_each]. rewrite (bind_ok _ _ _ _ _ Hstep), E. done.
  - intros j Hj. rewrite Hout by set_solver. apply list_lookup_alter_ne. set_solver.
  - intros j st' [->|Hj]%elem_of_cons Hst'.
    + rewrite Hout by done. rewrite list_lookup_alter_eq. congruence.
    + rewrite (Hin j st' Hj Hst'), list_lookup_alter_ne by (intros ->; done). done.
Qed.

(** ** The heap a finalization leaves *)

Section finalize.
Context (h : heap) (r : TemporaryBlockReservation) (h' : heap) (counts : gmap nat Z).
Hypotheses (Hok : alloc_ok none h) (Hq : quiescent h) (Hl : leased h r h').

Let kept : list nat := rv_rows r ≫= kept_of counts.
Let rel : list nat := rv_rows r ≫= released_of counts.

Definition kept_pair (row : _TemporaryReservationRow) : nat * list nat :=
  (row_sequence row, kept_of counts row).

Lemma order_split i : i ∈ rv_allocation_order r ↔ i ∈ kept ∨ i ∈ rel.
Proof.
  rewrite <-elem_of_app, <-(le_order _ _ _ Hl).
  unfold kept, rel. by rewrite (kept_released_perm counts (rv_rows r)).
Qed.

Lemma kept_not_released i : i ∈ kept → i ∉ rel.
Proof.
  pose proof (leased_nodup_order _ _ _ Hl) as Hnd.
  rewrite <-(le_order _ _ _ Hl), <-(kept_released_perm counts (rv_rows r)) in Hnd.
  apply NoDup_app in Hnd as (_ & Hd & _). apply Hd.
Qed.

Lemma kept_nodup : NoDup kept.
Proof.
  pose proof (leased_nodup_order _ _ _ Hl) as Hnd.
  rewrite <-(le_order _ _ _ Hl), <-(kept_released_perm counts (rv_rows r)) in Hnd.
  by apply NoDup_app in Hnd as (? & _ & _).
Qed.

Lemma kept_pair_fst : (kept_pair <$> rv_rows r).*1 = row_sequence <$> rv_rows r.
Proof. by rewrite <-list_fmap_compose. Qed.

Lemma kept_pair_news : news (kept_pair <$> rv_rows r) = kept.
Proof. unfold news. rewrite bind_fmap. done. Qed.

Lemma final_seqs :
  set_tables ((λ d, (row_sequence (ret_row d), ret_table d)) <$> (decision counts <$> rv_rows r))
    (hp_seqs h') = append_rows (kept_pair <$> rv_rows r) (hp_seqs h).
Proof.
  rewrite <-list_fmap_compose. apply map_eq. intros k.
  destruct (decide (k ∈ row_sequence <$> rv_rows r)) as [Hk|Hk].
  - apply list_elem_of_fmap in Hk as (row & -> & Hin).
    destruct (leased_row _ _ _ Hl row Hin) as (s & Hs & Hs' & Hb & _ & _).
    rewrite (set_tables_lookup _ _ _ (row_block_table_before row ++ kept_of counts row)).
    + rewrite Hs'. rewrite (append_rows_lookup _ _ _ (kept_of counts row) s); [| | |done].
      * simpl. by rewrite Hb.
      * rewrite kept_pair_fst. apply Hl.
      * apply list_elem_of_fmap. by exists row.
    + rewrite <-list_fmap_compose. apply Hl.
    + apply list_elem_of_fmap. by exists row.
  - rewrite set_tables_lookup_ne by (by rewrite <-list_fmap_compose).
    rewrite append_rows_lookup_ne by (by rewrite kept_pair_fst).
    destruct (le_heap _ _ _ Hl) as (h2 & Hg & _ & ->). simpl.
    rewrite (gg_seqs _ _ _ Hg), append_rows_lookup_ne; [done|]. by rewrite row_pair_fst.
Qed.

(** The state [apply_final] asks for, and the heap it produces. *)
Definition fin : final_state :=
  mk_final_state (decision counts <$> rv_rows r) (list_to_set kept) (list_to_set rel)
    (filter (λ i, i ∉ (list_to_set kept : gset nat)) (rv_free_block_ids_before r))
    (rv_used_block_ids_before r ∪ list_to_set kept)
    (filter (λ hb, hb.2 ∉ (list_to_set kept : gset nat)) (rv_hash_to_block_id_before r)).

Definition finished (bl : list block) : heap :=
  set_bm (λ m, set_hash_to_block_id (fin_hashes fin)
                 (set_used_block_ids (fin_used fin) (set_free_block_ids (fin_free fin) m)))
    (set_bm (set_blocks bl)
      (set_seqs (set_tables ((λ d, (row_sequence (ret_row d), ret_table d)) <$> fin_rows fin)) h')).

Lemma leased_old_block i :
  i ∉ rv_allocation_order r → blocks (hp_bm h') !! i = blocks (hp_bm h) !! i.
Proof.
  intros Hi. destruct (le_heap _ _ _ Hl) as (h2 & Hg & _ & ->). simpl.
  apply (gg_old _ _ _ Hg). by rewrite news_rows, (le_order _ _ _ Hl).
Qed.

Lemma leased_new_block i :
  i ∈ rv_allocation_order r → blocks (hp_bm h') !! i = Some (fresh_block i).
Proof.
  intros Hi. destruct (le_heap _ _ _ Hl) as (h2 & Hg & _ & ->). simpl.
  apply (gg_new _ _ _ Hg). by rewrite news_rows, (le_order _ _ _ Hl).
Qed.

Lemma apply_final_ok :
  ∃ bl, apply_final r fin h' = (Ok tt, finished bl) ∧
    (∀ i, i ∈ kept → bl !! i = Some (fresh_block i)) ∧
    (∀ i, i ∉ kept → bl !! i = blocks (hp_bm h) !! i) ∧
    length bl = length (blocks (hp_bm h)).
Proof.
  unfold apply_final. rewrite (bind_ok _ _ _ _ _ (tables_loop _ _)).
  set (h1 := set_seqs _ h').
  destruct (released_loop (rv_block_states_before r) (elements (fin_released fin)) h1)
    as (bl & E & Hlen & Hout & Hin); [apply NoDup_elements| |].
  { intros i Hi. simpl in Hi. rewrite elem_of_elements, elem_of_list_to_set in Hi.
    destruct (leased_state _ _ _ Hl i) as (st & b & ? & ? & _).
    { rewrite elem_of_app. left. apply order_split. by right. }
    exists st. split; [done|]. split; [done|]. change (hp_bm h1) with (hp_bm h').
    eapply lookup_lt_Some, leased_new_block. apply order_split. by right. }
  exists bl. rewrite (bind_ok _ _ _ _ _ E). split; [done|].
  change (hp_bm h1) with (hp_bm h') in Hlen, Hout, Hin. simpl in Hout, Hin. split_and!.
  - intros i Hi. rewrite Hout.
    + apply leased_new_block, order_split. by left.
    + rewrite elem_of_elements, elem_of_list_to_set. by apply kept_not_released.
  - intros i Hi. destruct (decide (i ∈ rel)) as [Hr|Hr].
    + assert (i ∈ rv_allocation_order r) as Ho by (apply order_split; by right).
      destruct (leased_state _ _ _ Hl i) as (st & b & Hst & Hid & Hb & E1 & E2 & E3);
        [rewrite elem_of_app; by left|].
      rewrite (Hin i st), Hb; [|by rewrite elem_of_elements, elem_of_list_to_set|done].
      rewrite leased_new_block by done. simpl.
      unfold restore_block_state. rewrite E1, E2, E3. simpl.
      destruct (ok_block _ _ Hok _ _ Hb) as [<- _ _ _]. by destruct b.
    + rewrite Hout by (by rewrite elem_of_elements, elem_of_list_to_set).
      apply leased_old_block. rewrite order_split. tauto.
  - rewrite Hlen. destruct (le_heap _ _ _ Hl) as (h2 & Hg & _ & E2).
    rewrite E2. apply (fr_len _ _ (gg_frame _ _ _ Hg)).
Qed.

Lemma check_final_ok bl :
  (∀ i, i ∈ kept → bl !! i = Some (fresh_block i)) →
  (∀ i, i ∉ kept → bl !! i = blocks (hp_bm h) !! i) →
  check_final (finished bl) r fin = Ok tt.
Proof.
  intros Hk Ho. unfold check_final. rewrite !obind_unit_ok, !ofor_each_ok, oraise_if_ok.
  split_and!.
  - simpl. by rewrite !bool_decide_eq_true_2.
  - apply Forall_forall. intros d Hd. simpl in Hd.
    apply list_elem_of_fmap in Hd as (row & -> & Hin).
    destruct (leased_row _ _ _ Hl row Hin) as (s & _ & Hs & Hb & E1 & E2).
    simpl. rewrite (set_tables_lookup _ _ _ (row_block_table_before row ++ kept_of counts row)).
    + unfold ret_row, ret_table, decision. cbn [fst snd]. rewrite Hs. simpl. rewrite bool_decide_eq_true_2, E1, E2, !Z.eqb_refl by done. done.
    + rewrite <-!list_fmap_compose. apply Hl.
    + rewrite <-list_fmap_compose. apply list_elem_of_fmap. by exists row.
  - apply Forall_forall. intros i Hi. simpl in Hi.
    rewrite elem_of_elements, elem_of_list_to_set in Hi.
    unfold block_at. simpl. by rewrite (Hk i Hi).
  - apply Forall_forall. intros i Hi. simpl in Hi.
    rewrite elem_of_elements, elem_of_list_to_set in Hi.
    destruct (leased_state _ _ _ Hl i) as (st & b & -> & _ & Hb & E1 & E2 & E3).
    { rewrite elem_of_app. left. apply order_split. by right. }
    unfold block_at. simpl. rewrite Ho, Hb by (intros Hi'; by apply (kept_not_released i)).
    simpl. by rewrite E1, E2, E3, !Z.eqb_refl, bool_decide_eq_true_2.
Qed.

Lemma final_grown bl :
  (∀ i, i ∈ kept → bl !! i = Some (fresh_block i)) →
  (∀ i, i ∉ kept → bl !! i = blocks (hp_bm h) !! i) →
  length bl = length (blocks (hp_bm h)) →
  let h2 := _unpublish_temporary_reservation r (finished bl) in
  grown_rows (kept_pair <$> rv_rows r) (bump h) h2 ∧ quiescent h2.
Proof.
  intros Hk Ho Hlen h2. unfold h2. rewrite unpublish_eq.
  assert (row_seq_id (finished bl) <$> rv_rows r = row_sequence <$> rv_rows r) as Hids.
  { apply row_seq_ids. intros k s. simpl. rewrite final_seqs. intros Hs.
    apply append_rows_inv in Hs as (s0 & Hs0 & [[_ ->]|(new & _ & ->)]);
      [by apply (ok_seqs _ _ Hok)| |by rewrite kept_pair_fst; apply Hl].
    simpl. by apply (ok_seqs _ _ Hok). }
  rewrite Hids. pose proof final_seqs as Hseqs.
  destruct (le_heap _ _ _ Hl) as (g & Hg & _ & Eh). simpl in Hseqs.
  destruct Hg as [[F1 F2 F3 F4 F5 F6 F7 F8 F9] _ _ _ _ _ _ _ _].
  assert (∀ i, i ∈ kept → i ∈ free_block_ids (hp_bm h)) as Hfree.
  { intros i Hi. destruct (le_heap _ _ _ Hl) as (g' & _ & -> & _).
    rewrite elem_of_app. left. apply order_split. by left. }
  split.
  - split; rewrite ?kept_pair_news; simpl; try done.
    + unfold finished. rewrite Eh. split; simpl; try done.
      * by rewrite (qu_active _ Hq), delete_singleton_eq.
      * by rewrite row_index_dropped, (qu_by_seq _ Hq).
      * by rewrite F8.
      * by rewrite F9.
    + apply kept_nodup.
    + rewrite (le_free _ _ _ Hl). apply list_filter_iff. intros i.
      by rewrite elem_of_list_to_set.
    + rewrite (le_used _ _ _ Hl). set_solver.
    + intros hs i. rewrite (le_hash _ _ _ Hl), map_lookup_filter_Some. simpl.
      by rewrite elem_of_list_to_set.
  - unfold finished. rewrite Eh. split; simpl.
    + apply delete_singleton_eq.
    + by apply row_index_dropped.
    + rewrite F6. apply Hq.
    + rewrite F7. apply Hq.
Qed.
End finalize.

(** ** Finalizing *)

(** The tables a finalization extends, and by what. *)
Definition kept_rows (r : TemporaryBlockReservation) (items : list (nat * Z))
    : list (nat * list nat) :=
  kept_pair (list_to_map items) <$> rv_rows r.

Lemma counts_ok_lookup r items :
  NoDup items.*1 →
  (∀ row n, row ∈ rv_rows r → (row_sequence row, n) ∈ items →
     0 <= n <= Z.of_nat (length (row_appended_block_ids row))) ↔
  (∀ row n, row ∈ rv_rows r →
     (list_to_map items : gmap nat Z) !! row_sequence row = Some n →
     0 <= n <= Z.of_nat (length (row_appended_block_ids row))).
Proof. intros Hnd. by setoid_rewrite <-(elem_of_list_to_map items _ _ Hnd). Qed.

Lemma live_rows_ok h r h' :
  leased h r h' → ∃ vs, omap_all (live_row h') (rv_rows r) = Ok vs.
Proof.
  intros Hl. apply omap_all_total. intros row Hin.
  destruct (leased_row _ _ _ Hl row Hin) as (s & _ & Hs & _).
  unfold live_row. rewrite Hs. by eexists.
Qed.

Lemma plan_finalize_run h r h' items :
  alloc_ok none h → leased h r h' →
  match plan_finalize h' r items with
  | Ok f => counts_ok r items ∧ f = fin r (list_to_map items)
  | Raise _ => ¬ counts_ok r items
  end.
Proof.
  intros Hok Hl. unfold plan_finalize, counts_ok.
  assert (row_seq_id h' <$> rv_rows r = row_sequence <$> rv_rows r) as Hids.
  { apply row_seq_ids. intros k s. by apply (ok_seqs _ _ (leased_ledger _ _ _ Hok Hl)). }
  pose proof (retained_counts_run h' r items (le_nodup _ _ _ Hl) Hids) as Hc.
  destruct (retained_counts h' r items) as [m|e]; simpl; [|tauto].
  destruct Hc as [Hperm ->].
  assert (NoDup items.*1) as Hnd by (rewrite Hperm; apply Hl).
  pose proof (counts_ok_lookup r items Hnd) as Hiff.
  pose proof (retain_rows_run h' (list_to_map items) (rv_rows r) Hids) as Hr.
  destruct (omap_all _ (rv_rows r)) as [ds|e]; simpl.
  - destruct Hr as [-> Hb].
    { intros row Hin. apply elem_of_dom. rewrite dom_list_to_map_L, elem_of_list_to_set, Hperm.
      apply list_elem_of_fmap. eauto. }
    rewrite desired_state_run; [|apply Hl|by eapply leased_nodup_order].
    split; [|done]. split; [done|by apply Hiff].
  - intros [_ Hb]. apply Hr; [|by apply Hiff].
    intros row Hin. apply elem_of_dom. rewrite dom_list_to_map_L, elem_of_list_to_set, Hperm.
    apply list_elem_of_fmap. eauto.
Qed.

Lemma finalize_run h r h' items :
  alloc_ok none h → quiescent h → leased h r h' →
  wp (finalize_temporary_append r items)
    (λ ok h2, ok = true ∧ counts_ok r items ∧
       grown_rows (kept_rows r items) (bump h) h2 ∧ quiescent h2)
    (λ _ h2, h2 = h' ∧ ¬ counts_ok r items) h'.
Proof.
  intros Hok Hq Hl. unfold finalize_temporary_append. wread.
  destruct (le_heap _ _ _ Hl) as (h2 & Hg & _ & Eh).
  assert (_active_temporary_reservations (hp_bm h') !! rv_reservation_id r = Some r) as ->
    by (rewrite Eh; apply lookup_singleton_eq).
  unfold same_reservation. rewrite Nat.eqb_refl. apply wp_bind, wp_ret, wp_bind.
  unfold wp at 1, inspect at 1. rewrite (leased_valid h r h' Hok Hl).
  apply wp_bind. unfold wp at 1, inspect at 1.
  pose proof (plan_finalize_run h r h' items Hok Hl) as Hp.
  destruct (plan_finalize h' r items) as [f|e]; [|done]. destruct Hp as [Hcounts ->].
  apply wp_bind. unfold wp at 1, inspect at 1.
  destruct (live_rows_ok h r h' Hl) as [vs ->]. apply wp_bind. unfold wp at 1, lift.
  destruct (snapshot_ok none h' (bst_block_id <$> rv_block_states_before r)) as [sts ->].
  { by eapply leased_ledger. }
  { intros i Hi. rewrite (leased_states_ids h r h' Hl), elem_of_sorted_set in Hi.
    destruct (leased_state _ _ _ Hl i Hi) as (st & b & _ & _ & Hb & _).
    rewrite Eh. simpl. rewrite (fr_len _ _ (gg_frame _ _ _ Hg)). by eapply lookup_lt_Some. }
  destruct (apply_final_ok h r h' (list_to_map items) Hok Hl) as (bl & Ea & Hk & Ho & Hlen).
  destruct (final_grown h r h' (list_to_map items) Hok Hq Hl bl Hk Ho Hlen) as [Hfin Hqf].
  eapply wp_bind, wp_eq.
  - unfold try_reraise. rewrite (bind_ok _ _ _ _ _ Ea).
    unfold bind at 1, inspect at 1. rewrite (check_final_ok h r h' _ Hl bl Hk Ho).
    unfold bind, modify, inspect. unfold check_consumed.
    rewrite (qu_active _ Hqf), (qu_by_seq _ Hqf), lookup_empty, map_to_list_empty.
    rewrite !bool_decide_eq_false_2; [reflexivity|by intros ?%Exists_nil|by intros []].
  - apply wp_ret. done.
Qed.

Lemma kept_rows_ok h r h' items h2 :
  alloc_ok none h → leased h r h' →
  grown_rows (kept_rows r items) (bump h) h2 → alloc_ok none h2.
Proof.
  intros Hok Hl Hg. eapply grown_rows_ok; [by apply bump_ok| | |exact Hg].
  - unfold kept_rows. rewrite kept_pair_fst. apply Hl.
  - unfold kept_rows. rewrite kept_pair_fst, <-row_pair_fst. exact (leased_keys h r h' Hl).
Qed.

(** Finalizing a live lease raises, leaving the heap and the lease as they
    were, iff the request does not give every row exactly one count within its
    leased suffix.  Otherwise it consumes the lease and leaves the heap of
    before the reservation with exactly the asked prefix of each row's blocks
    appended to its table: every other leased block is back where it was (its
    place in the free list, its contents and its cache entry). *)
Theorem finalize_temporary_append_spec h rows r h' items :
  alloc_ok none h → quiescent h →
  reserve_temporary_append rows h = (Ok (Some r), h') →
  wp (finalize_temporary_append r items)
    (λ ok h2, ok = true ∧ counts_ok r items ∧
       grown_rows (kept_rows r items) (bump h) h2 ∧ alloc_ok none h2 ∧ quiescent h2)
    (λ _ h2, h2 = h' ∧ ¬ counts_ok r items) h'.
Proof.
  intros Hok Hq E. pose proof (reserve_run h rows Hok Hq) as Hr. unfold wp in Hr. rewrite E in Hr.
  destruct Hr as (_ & Hl & _).
  eapply wp_mono; [by apply finalize_run|simpl|done].
  intros ok h2 (-> & Hc & Hg & Hq2). split_and!; try done. by eapply kept_rows_ok.
Qed.

(** ** Preparing target writes *)

Definition forget_block (b : block) : block :=
  mk_block (b_block_id b) (b_ref_count b) (-1) [].

(** [h] after the contents and the cache entries of the blocks [ids] were
    dropped, with a fresh object identity taken. *)
Definition forget (ids : list nat) : heap → heap :=
  set_bm (λ m, set_next_object (S (next_object m))
    (set_hash_to_block_id (filter (λ hb, hb.2 ∉ (list_to_set ids : gset nat)) (hash_to_block_id m))
      (set_blocks (imap (λ i b, if decide (i ∈ ids) then forget_block b else b) (blocks m)) m))).

Lemma forget_block_lookup ids h i :
  blocks (hp_bm (forget ids h)) !! i =
  (if decide (i ∈ ids) then forget_block else id) <$> blocks (hp_bm h) !! i.
Proof.
  simpl. rewrite list_lookup_imap. destruct (blocks (hp_bm h) !! i); [|done].
  simpl. by case_decide.
Qed.

Lemma forget_hash_lookup ids h hs i :
  hash_to_block_id (hp_bm (forget ids h)) !! hs = Some i ↔
  hash_to_block_id (hp_bm h) !! hs = Some i ∧ i ∉ ids.
Proof. simpl. rewrite map_lookup_filter_Some. simpl. by rewrite elem_of_list_to_set. Qed.

Lemma forget_ok ids h : alloc_ok none h → alloc_ok none (forget ids h).
Proof.
  intros [Hs Hnd Hp Hd Hb Hh Ht Hq]. split; try done.
  - intros i. simpl. by rewrite length_imap.
  - intros i b. rewrite forget_block_lookup. intros (b0 & Hb0 & ->)%fmap_Some.
    destruct (Hb _ _ Hb0). by case_decide; split.
  - intros hs i (Hi & Hn)%forget_hash_lookup. destruct (Hh _ _ Hi) as (b & Hbi & ? & ?).
    exists b. rewrite forget_block_lookup, decide_False, Hbi by done. done.
  - intros k s i. simpl. rewrite length_imap. eauto.
Qed.

Lemma forget_quiescent ids h : quiescent h → quiescent (forget ids h).
Proof. by intros []. Qed.

Lemma forget_snapshot ids ids' h sts :
  _snapshot_block_states (hp_bm h) ids' = Ok sts →
  _snapshot_block_states (hp_bm (forget ids h)) ids' =
    Ok (evict_state (list_to_set ids) <$> sts).
Proof.
  unfold _snapshot_block_states. rewrite !omap_all_ok, Forall2_fmap_r.
  intros HF. eapply Forall2_impl; [exact HF|]. cbv beta. intros i st. rewrite forget_block_lookup.
  destruct (blocks (hp_bm h) !! i) as [b|]; [|done]. intros [= <-]. simpl.
  unfold evict_state. simpl. by case_decide; case_bool_decide; set_solver.
Qed.

(** The amended lease. *)
Definition amended (r : TemporaryBlockReservation) (object : nat) : TemporaryBlockReservation :=
  mk_reservation object (rv_reservation_id r) (rv_rows r) (rv_allocation_order r)
    (rv_free_block_ids_before r) (rv_used_block_ids_before r)
    (filter (λ hb, hb.2 ∉ (list_to_set (rv_allocation_order r) : gset nat))
       (rv_hash_to_block_id_before r))
    (evict_state (list_to_set (rv_allocation_order r)) <$> rv_block_states_before r).

Lemma prepare_run h r h' :
  alloc_ok none h → leased h r h' →
  ∃ h2, prepare_temporary_target_writes r h' = (Ok (amended r (next_object (hp_bm h'))), h2) ∧
    leased (forget (rv_allocation_order r) h) (amended r (next_object (hp_bm h'))) h2.
Proof.
  intros Hok Hl. pose proof Hl as [Hr Hnd Hord Hfree Hused Hh Hst (g & Hg & Hf & Eh)].
  assert (_active_temporary_reservations (hp_bm h') = {[rv_reservation_id r := r]}) as Ha
    by by rewrite Eh.
  eexists. split.
  - unfold prepare_temporary_target_writes. unfold bind at 1, inspect.
    rewrite (leased_valid _ _ _ Hok Hl). unfold bind at 1, get_bm, gets.
    rewrite Ha, lookup_singleton_eq. unfold same_reservation. rewrite Nat.eqb_refl. reflexivity.
  - split; simpl; try done.
    + by rewrite Hh.
    + by apply forget_snapshot.
    + exists (set_bm (λ m, set_next_object (S (next_object m)) m) g). split; [|split; [done|]].
      * destruct Hg as [[F1 F2 F3 F4 F5 F6 F7 F8 F9] G2 G3 G4 G5 G6 G7 G8 G9].
        rewrite news_rows, Hord in *. split; rewrite ?news_rows, ?Hord; try done.
        -- split; try done; simpl; [by rewrite length_imap|by rewrite F9].
        -- intros i Hi. rewrite forget_block_lookup, decide_False by done.
           rewrite option_fmap_id. by apply G8.
        -- intros hs i. rewrite forget_hash_lookup. simpl. rewrite G9. tauto.
      * apply heap_ext; rewrite ?Eh; simpl; try done.
        by rewrite insert_singleton_eq.
Qed.

(** Preparing target writes keeps the lease live and only amends what a
    rollback restores: rolling the amended lease back gives the heap of before
    the reservation, except that the recycled blocks have lost their contents
    and their prefix-cache entries, so overwritten KV is never served again. *)
Theorem prepare_target_writes_rollback h rows r h' :
  alloc_ok none h → quiescent h →
  reserve_temporary_append rows h = (Ok (Some r), h') →
  ∃ r' h2, prepare_temporary_target_writes r h' = (Ok r', h2) ∧ alloc_ok none h2 ∧
    rv_reservation_id r' = rv_reservation_id r ∧ rv_rows r' = rv_rows r ∧
    hp_seqs h2 = hp_seqs h' ∧
    rollback_temporary_append r' h2 =
      (Ok true, bump (forget (rv_allocation_order r) h)).
Proof.
  intros Hok Hq E. pose proof (reserve_run h rows Hok Hq) as Hr. unfold wp in Hr. rewrite E in Hr.
  destruct Hr as (_ & Hl & _). destruct (prepare_run h r h' Hok Hl) as (h2 & Ep & Hl2).
  pose proof (forget_ok (rv_allocation_order r) h Hok) as Hok2.
  eexists _, h2. split; [exact Ep|]. split; [by eapply leased_ledger|].
  split; [done|]. split; [done|]. split.
  - unfold prepare_temporary_target_writes in Ep. apply bind_ok_inv in Ep as (? & ? & E1 & Ep).
    unfold inspect in E1. simplify_eq. apply bind_ok_inv in Ep as (m & ? & E2 & Ep).
    unfold get_bm, gets in E2. simplify_eq. apply bind_ok_inv in Ep as (? & ? & E3 & Ep).
    apply raise_if_inv in E3 as [_ ->]. unfold bind, upd_bm, modify, ret in Ep. by simplify_eq.
  - apply leased_rollback; [done|by apply forget_quiescent|done].
Qed.
