(* ===== verification/CacheInv.v ===== *)
(** * CacheInv: soundness of the prefix cache

    [cache_ok] states what the KV contents of a table mean: a block inside the
    target coverage carries exactly the tokens of its position and the chained
    hash of the whole prefix up to it, and a block beyond the coverage is fresh
    (unhashed, empty, owned once).  Every ordinary allocator operation keeps it,
    and two sequences sharing a covered block agree on the whole prefix, unless
    the content hash collides. *)
From S2P Require Import Prelude SamplingParams Sequence Heap BlockManager Reservation.
From S2P Require Import AllocatorInv BlockManagerInv BlockManagerSpec.

Section cache.
Variable compute_hash : list Z → Z → Z.

(** The [j]-th full block of tokens, and the hash chained through the first
    [n] blocks. *)
Definition nth_block (bs : Z) (toks : list Z) (j : nat) : list Z :=
  slice toks (Z.of_nat j * bs) (Z.of_nat (S j) * bs).

Fixpoint chain (bs : Z) (toks : list Z) (n : nat) : Z :=
  match n with
  | O => -1
  | S n' => compute_hash (nth_block bs toks n') (chain bs toks n')
  end.

(** What position [j] of a table holds. *)
Definition position_ok (bs : Z) (s : sequence) (j : nat) (b : block) : Prop :=
  if Z.of_nat (S j) * bs <=? num_cached_tokens s
  then b_hash b = chain bs (token_ids s) (S j) ∧
       b_token_ids b = nth_block bs (token_ids s) j
  else b_hash b = -1 ∧ b_token_ids b = [] ∧ b_ref_count b = 1.

Record seq_covered (h : heap) (s : sequence) : Prop := {
  cov_bound : 0 <= num_cached_tokens s <= num_tokens s;
  cov_table : num_cached_tokens s <=
    Z.of_nat (length (block_table s)) * block_size (hp_bm h);
  cov_pos : ∀ j i, block_table s !! j = Some i →
    ∃ b, blocks (hp_bm h) !! i = Some b ∧ position_ok (block_size (hp_bm h)) s j b;
}.

Definition cache_ok (h : heap) : Prop :=
  ∀ k s, hp_seqs h !! k = Some s → seq_covered h s.

(** A covered block of [s] in the tables of two sequences. *)
Lemma chain_agree bs t1 t2 n :
  chain bs t1 (S n) = chain bs t2 (S n) →
  (nth_block bs t1 n = nth_block bs t2 n ∧ chain bs t1 n = chain bs t2 n) ∨
  ∃ x p y q, (x, p) ≠ (y, q) ∧ compute_hash x p = compute_hash y q.
Proof.
  simpl. intros E.
  destruct (decide (nth_block bs t1 n = nth_block bs t2 n)) as [E1|];
    [destruct (decide (chain bs t1 n = chain bs t2 n)) as [E2|]|]; [by left|right..];
    eexists _, _, _, _; (split; [|exact E]); congruence.
Qed.

Lemma chain_prefix bs t1 t2 n :
  chain bs t1 n = chain bs t2 n →
  (∀ j, (j < n)%nat → nth_block bs t1 j = nth_block bs t2 j) ∨
  ∃ x p y q, (x, p) ≠ (y, q) ∧ compute_hash x p = compute_hash y q.
Proof.
  induction n as [|n IH]; intros E; [left; lia|].
  apply chain_agree in E as [[E1 E2]|]; [|by right].
  destruct (IH E2) as [Hj|]; [left|by right].
  intros j Hj'. destruct (decide (j = n)) as [->|]; [done|]. apply Hj. lia.
Qed.

(** Prefix-cache soundness: two sequences that name the same physical block at
    the same position inside both coverages agree on every token up to and
    including that block, or the content hash has a collision. *)
Lemma shared_prefix h k1 k2 s1 s2 j i :
  cache_ok h → hp_seqs h !! k1 = Some s1 → hp_seqs h !! k2 = Some s2 →
  block_table s1 !! j = Some i → block_table s2 !! j = Some i →
  Z.of_nat (S j) * block_size (hp_bm h) <= num_cached_tokens s1 →
  Z.of_nat (S j) * block_size (hp_bm h) <= num_cached_tokens s2 →
  (∀ j', (j' <= j)%nat →
     nth_block (block_size (hp_bm h)) (token_ids s1) j' =
     nth_block (block_size (hp_bm h)) (token_ids s2) j') ∨
  ∃ x p y q, (x, p) ≠ (y, q) ∧ compute_hash x p = compute_hash y q.
Proof.
  intros Hc H1 H2 E1 E2 L1 L2.
  destruct (cov_pos _ _ (Hc _ _ H1) _ _ E1) as (b & Hb & Hp1).
  destruct (cov_pos _ _ (Hc _ _ H2) _ _ E2) as (b' & Hb' & Hp2). simplify_eq.
  unfold position_ok in *. rewrite (proj2 (Z.leb_le _ _) L1) in Hp1.
  rewrite (proj2 (Z.leb_le _ _) L2) in Hp2.
  destruct Hp1 as [Hh1 _], Hp2 as [Hh2 _].
  destruct (chain_prefix (block_size (hp_bm h)) (token_ids s1) (token_ids s2) (S j))
    as [Hpre|]; [congruence|left|by right].
  intros j' Hj'. apply Hpre. lia.
Qed.

(** ** Preservation *)

(** A table position owned once is in no other table, nor twice in its own. *)
Lemma once_elsewhere h k s j i b k' s' :
  alloc_ok none h → hp_seqs h !! k = Some s → block_table s !! j = Some i →
  blocks (hp_bm h) !! i = Some b → b_ref_count b = 1 →
  hp_seqs h !! k' = Some s' → k' ≠ k → i ∉ block_table s'.
Proof.
  intros Hok Hk Hj Hb Hr Hk' Hne Hin.
  destruct (ok_block _ _ Hok _ _ Hb) as [_ Hrefs _ _]. unfold none in Hrefs.
  assert (count i (block_table s) + count i (block_table s') <= refs (hp_seqs h) i)%nat.
  { rewrite <-(insert_delete_id (hp_seqs h) k s Hk).
    rewrite refs_insert_new by apply lookup_delete_eq.
    pose proof (refs_ge (delete k (hp_seqs h)) k' s' i) as Hge.
    rewrite lookup_delete_ne in Hge by done. specialize (Hge Hk'). lia. }
  apply list_elem_of_lookup_2 in Hj. apply count_pos in Hj, Hin. lia.
Qed.

(** Blocks a sequence names keep their meaning when neither content nor
    count changed. *)
Lemma seq_covered_same h h' s :
  block_size (hp_bm h') = block_size (hp_bm h) →
  (∀ i, i ∈ block_table s → blocks (hp_bm h') !! i = blocks (hp_bm h) !! i) →
  seq_covered h s → seq_covered h' s.
Proof.
  intros Hbs Hsame [Hb Ht Hp]. split; rewrite ?Hbs; try done.
  intros j i Hj. rewrite Hsame by (by eapply list_elem_of_lookup_2). by apply Hp.
Qed.

(** Assignments to attributes the coverage does not read. *)
Lemma seq_covered_attr h s s' :
  block_table s' = block_table s → num_cached_tokens s' = num_cached_tokens s →
  token_ids s' = token_ids s → num_tokens s' = num_tokens s →
  seq_covered h s → seq_covered h s'.
Proof.
  intros E1 E2 E3 E4 [Hb Ht Hp]. split; rewrite ?E1, ?E2, ?E4; try done.
  intros j i Hj. destruct (Hp j i Hj) as (b & ? & Hpos). exists b. split; [done|].
  unfold position_ok in *. by rewrite E2, E3.
Qed.

Lemma cache_ok_grown h h' k s new :
  alloc_ok none h → cache_ok h → hp_seqs h !! k = Some s → grown k new h h' →
  cache_ok h'.
Proof.
  intros Hok Hc Hk Hg k' s' Hk'. rewrite (gr_seqs _ _ _ _ Hg) in Hk'.
  assert (∀ i, i ∈ new → i ∈ free_block_ids (hp_bm h)) as Hnew
    by (intros i Hi; rewrite (gr_free _ _ _ _ Hg); set_solver).
  assert (∀ k0 s0 i, hp_seqs h !! k0 = Some s0 → i ∈ block_table s0 → i ∉ new) as Hfr.
  { intros k0 s0 i Hk0 Hi Hin. pose proof (ok_table _ _ Hok _ _ _ Hk0 Hi) as Hlt.
    pose proof (refs_ge _ _ _ i Hk0). apply Hnew in Hin.
    apply (alloc_ok_free_iff _ _ Hok Hlt) in Hin. apply count_pos in Hi. lia. }
  assert (∀ k0 s0, hp_seqs h !! k0 = Some s0 → seq_covered h' s0) as Hold.
  { intros k0 s0 Hk0. apply (seq_covered_same h); [apply Hg| |by eapply Hc].
    intros i Hi. apply (gr_old _ _ _ _ Hg). by eapply Hfr. }
  rewrite lookup_alter in Hk'. case_decide; [subst k'|by eauto].
  rewrite Hk in Hk'. simplify_eq/=. destruct (Hold _ _ Hk) as [Hb Ht Hp].
  pose proof (fr_size _ _ (gr_frame _ _ _ _ Hg)) as Hbs.
  destruct (ok_size _ _ Hok) as [Hbs0 _]. rewrite <-Hbs in Hbs0.
  split; simpl; [done|rewrite length_app; nia|].
  intros j i Hj. apply lookup_app_Some in Hj as [Hj|[Hlen Hj]]; [by apply Hp|].
  exists (fresh_block i). split; [apply (gr_new _ _ _ _ Hg); by eapply list_elem_of_lookup_2|].
  unfold position_ok. simpl. rewrite (proj2 (Z.leb_gt _ _)) by nia. done.
Qed.

(** *** Pinned prefixes *)

Lemma py_range_of_nat n : py_range 0 (Z.of_nat n) = Z.of_nat <$> seq 0 n.
Proof.
  unfold py_range. rewrite Z.sub_0_r, Nat2Z.id. apply list_fmap_ext. intros; lia.
Qed.

Lemma seq_block_nth bs s (j : nat) toks :
  seq_block bs s (Z.of_nat j) = Ok toks → toks = nth_block bs (token_ids s) j.
Proof.
  unfold seq_block. rewrite obind_unit_ok. intros [_ ?]; simplify_eq.
  unfold nth_block. f_equal; lia.
Qed.

Lemma reusable_prefix_content h bs s a n ids :
  alloc_ok none h →
  reusable_prefix compute_hash bs (hp_bm h) s (Z.of_nat <$> seq a n)
    (chain bs (token_ids s) a) = Ok ids →
  ∀ j i, ids !! j = Some i → ∃ b, blocks (hp_bm h) !! i = Some b ∧
    b_hash b = chain bs (token_ids s) (S (a + j)) ∧
    b_token_ids b = nth_block bs (token_ids s) (a + j) ∧ b_hash b ≠ -1.
Proof.
  intros Hok. revert a ids. induction n as [|n IH]; intros a ids; simpl.
  { intros ?; simplify_eq. intros j i Hj. by rewrite lookup_nil in Hj. }
  destruct (seq_block bs s (Z.of_nat a)) as [toks|] eqn:Et; simpl; [|done].
  apply seq_block_nth in Et as ->.
  destruct (cached_block _ _ _) as [b|] eqn:Eb; [|done].
  pose proof (cached_block_Some _ _ _ _ _ Hok Eb) as (Hin & b' & Hb' & Ht & Hh).
  destruct (ok_hash _ _ Hok _ _ Hin) as (b'' & Hb'' & _ & Hn).
  change (compute_hash (nth_block bs (token_ids s) a) (chain bs (token_ids s) a))
    with (chain bs (token_ids s) (S a)).
  destruct (reusable_prefix _ _ _ _ _ _) as [ids'|] eqn:Er; simpl; [|done].
  intros ?; simplify_eq. intros [|j] i Hj; simpl in Hj; simplify_eq.
  - eexists. rewrite Nat.add_0_r. split; [eassumption|]. naive_solver congruence.
  - destruct (IH (S a) ids' Er j i Hj) as (b2 & ? & ? & ? & ?). exists b2.
    replace (a + S j)%nat with (S a + j)%nat by lia. done.
Qed.

Lemma content_inv (h h' : heap) i b :
  (content <$> blocks (hp_bm h') !! i = content <$> blocks (hp_bm h) !! i) →
  blocks (hp_bm h) !! i = Some b →
  ∃ b', blocks (hp_bm h') !! i = Some b' ∧ b_hash b' = b_hash b ∧
        b_token_ids b' = b_token_ids b.
Proof.
  intros Hc Hb. rewrite Hb in Hc. destruct (blocks (hp_bm h') !! i) as [b'|]; [|done].
  unfold content in Hc. simplify_eq/=. eauto.
Qed.

(** Sequences other than [k] stay covered when only counts of hashed blocks
    moved. *)
Lemma seq_covered_content h h' s (moved : list nat) :
  block_size (hp_bm h') = block_size (hp_bm h) →
  (∀ i, content <$> blocks (hp_bm h') !! i = content <$> blocks (hp_bm h) !! i) →
  (∀ i, i ∉ moved → blocks (hp_bm h') !! i = blocks (hp_bm h) !! i) →
  (∀ i b, i ∈ moved → i ∈ block_table s → blocks (hp_bm h) !! i = Some b →
     b_ref_count b = 1 → b_hash b ≠ -1) →
  seq_covered h s → seq_covered h' s.
Proof.
  intros Hbs Hc Hold Hmoved [Hb Ht Hp]. split; rewrite ?Hbs; try done.
  intros j i Hj. destruct (Hp j i Hj) as (b & Hbl & Hpos).
  unfold position_ok in *. destruct (Z.of_nat (S j) * block_size (hp_bm h) <=? _).
  - destruct (content_inv _ _ _ _ (Hc i) Hbl) as (b' & Hb' & E1 & E2).
    exists b'. split; [done|]. rewrite E1, E2. done.
  - exists b. split; [|done]. rewrite Hold; [done|]. intros Hin.
    destruct Hpos as (Hh & _ & Hr). eapply Hmoved; eauto. by eapply list_elem_of_lookup_2.
Qed.

Lemma cache_ok_attached h h' k s ids new nc :
  alloc_ok none h → cache_ok h → hp_seqs h !! k = Some s → block_table s = [] →
  0 <= nc → nc * block_size (hp_bm h) <= num_tokens s →
  reusable_prefix compute_hash (block_size (hp_bm h)) (hp_bm h) s (py_range 0 nc) (-1) = Ok ids →
  attached k ids new (nc * block_size (hp_bm h)) h h' → cache_ok h'.
Proof.
  intros Hok Hc Hk Htab Hnc Hlen Hids (h1 & h2 & Hpin & Hg & ->).
  destruct (ok_size _ _ Hok) as [Hbs _].
  destruct (reusable_prefix_lt _ _ _ _ _ _ _ _ Hok Hids) as [Hl _].
  rewrite length_py_range in Hl.
  rewrite <-(Z2Nat.id nc), py_range_of_nat in Hids by done.
  pose proof (reusable_prefix_content h _ s 0 _ ids Hok Hids) as Hcont.
  pose proof (fr_size _ _ (pi_frame _ _ _ _ Hpin)) as Hbs1.
  pose proof (fr_size _ _ (gr_frame _ _ _ _ Hg)) as Hbs2.
  (* old blocks: pinned ones keep content, fresh ones come from the free list *)
  assert (∀ i, i ∈ new → i ∈ free_block_ids (hp_bm h) ∧ i ∉ ids) as Hnew.
  { intros i Hi. assert (i ∈ free_block_ids (hp_bm h1)) as Hf
      by (rewrite (gr_free _ _ _ _ Hg); set_solver).
    rewrite (pi_free _ _ _ _ Hpin), list_elem_of_filter in Hf. tauto. }
  intros k' s' Hk'. simpl in Hk'. rewrite !lookup_alter in Hk'.
  rewrite (gr_seqs _ _ _ _ Hg), (pi_seqs _ _ _ _ Hpin), !lookup_alter in Hk'.
  case_decide as Hkk; [subst k'|].
  - rewrite Hk, !decide_True in Hk' by done. simplify_eq/=. rewrite Htab. simpl.
    split; simpl; rewrite ?Hbs2, ?Hbs1.
    + destruct (cov_bound _ _ (Hc _ _ Hk)). nia.
    + rewrite length_app. nia.
    + intros j i Hj. apply lookup_app_Some in Hj as [Hj|[Hge Hj]].
      * destruct (Hcont j i Hj) as (b & Hb & Hh & Ht & _).
        apply lookup_lt_Some in Hj as Hlt.
        destruct (content_inv h h1 i b (pi_content _ _ _ _ Hpin i) Hb) as (b1 & Hb1 & E1 & E2).
        exists b1. rewrite (gr_old _ _ _ _ Hg), Hb1; last first.
        { intros Hin. apply Hnew in Hin as [_ Hn]. apply Hn. by eapply list_elem_of_lookup_2. }
        split; [done|]. unfold position_ok. simpl.
        rewrite (proj2 (Z.leb_le _ _)) by nia. rewrite E1, E2. done.
      * exists (fresh_block i). split; [apply (gr_new _ _ _ _ Hg); by eapply list_elem_of_lookup_2|].
        unfold position_ok. simpl. rewrite (proj2 (Z.leb_gt _ _)) by nia. done.
  - assert (seq_covered h1 s') as Hc1.
    { apply (seq_covered_content h h1 s' ids); try apply Hpin; [|by eapply Hc].
      intros i b Hin _ Hb _. apply list_elem_of_lookup in Hin as [j Hj].
      destruct (Hcont j i Hj) as (b' & Hb' & _ & _ & Hn). congruence. }
    apply (seq_covered_same h1); [done| |done].
    intros i Hi. simpl. apply (gr_old _ _ _ _ Hg). intros Hin.
    apply Hnew in Hin as [Hf _]. pose proof (ok_table _ _ Hok _ _ _ Hk' Hi) as Hlt.
    apply (alloc_ok_free_iff _ _ Hok Hlt) in Hf. pose proof (refs_ge _ _ _ i Hk').
    apply count_pos in Hi. lia.
Qed.

(** An incremental allocation that succeeds keeps the prefix cache sound:
    the pinned blocks carry the sequence's own tokens. *)
Theorem allocate_incremental_cache h k s nc through h' :
  alloc_ok none h → cache_ok h → hp_seqs h !! k = Some s →
  allocate_incremental compute_hash k nc through h = (Ok true, h') → cache_ok h'.
Proof.
  intros Hok Hc Hk E.
  pose proof (allocate_incremental_wp compute_hash h k s nc through Hok Hk) as Hw.
  unfold wp in Hw. rewrite E in Hw.
  destruct Hw as ((_ & Htab & Hnc & Hthr & Hlt & _) & ids & Hids & _ & _ & new & Hat & _).
  destruct (ok_size _ _ Hok) as [Hbs _]. pose proof (ceil_div_spec through _ Hbs).
  apply (cache_ok_attached h h' k s ids new nc); try done; nia.
Qed.

(** *** Releasing *)

Lemma cache_ok_deallocated h h' k s :
  alloc_ok none h → cache_ok h → hp_seqs h !! k = Some s →
  deallocated k s h h' → cache_ok h'.
Proof.
  intros Hok Hc Hk (h1 & Hr & ->) k' s' Hk'. simpl in Hk'. rewrite !lookup_alter in Hk'.
  rewrite (rl_seqs _ _ _ Hr) in Hk'.
  pose proof (fr_size _ _ (rl_frame _ _ _ Hr)) as Hbs.
  case_decide as Hkk; [subst k'|].
  - rewrite Hk, ?decide_True in Hk' by done. simplify_eq/=. destruct (cov_bound _ _ (Hc _ _ Hk)).
    split; simpl; [lia|lia|]. intros j i Hj. by rewrite lookup_nil in Hj.
  - apply (seq_covered_content h _ s' (reverse (block_table s))); try apply Hr;
      [|by eapply Hc].
    intros i b Hin Hi Hb Hone. exfalso.
    assert (i ∈ block_table s) as Hin' by (by apply elem_of_reverse).
    apply list_elem_of_lookup in Hi as [j Hj].
    by apply (once_elsewhere h k' s' j i b k s).
Qed.

(** Extending a table, appending for a decode token and deallocating keep
    the prefix cache sound, whatever block they touch. *)
Lemma table_ops_cache h k s through h' :
  alloc_ok none h → cache_ok h → unfenced h → hp_seqs h !! k = Some s →
  (extend k through h = (Ok true, h') ∨ may_append k h = (Ok tt, h') ∨
   deallocate k h = (Ok tt, h')) → cache_ok h'.
Proof.
  intros Hok Hc Hun Hk [E|[E|E]].
  - pose proof (extend_wp h k s through Hok Hk) as Hw. unfold wp in Hw. rewrite E in Hw.
    destruct Hw as (_ & _ & new & Hg & _). by eapply cache_ok_grown.
  - destruct (may_append_run h k s Hok Hun Hk) as ([] & _ & Hr);
      [destruct Hr as (h1 & new & E1 & Hg & _)|congruence].
    assert (h1 = h') as -> by congruence. by eapply cache_ok_grown.
  - destruct (deallocate_effect h k s Hok Hun Hk) as (h1 & E1 & Hd & _).
    assert (h1 = h') as -> by congruence. by eapply cache_ok_deallocated.
Qed.

(** *** Publishing hashes *)

Hypothesis compute_hash_nonneg : ∀ toks p, 0 <= compute_hash toks p.

Lemma chain_nonneg bs toks n : chain bs toks (S n) ≠ -1.
Proof. simpl. pose proof (compute_hash_nonneg (nth_block bs toks n) (chain bs toks n)). lia. Qed.

(** One turn of the loop of [hash_blocks]. *)
Definition publish (i : nat) (hs : Z) (toks : list Z) : heap → heap :=
  set_bm (λ m, set_hash_to_block_id (<[hs := i]> (hash_to_block_id m))
                 (set_blocks (alter (Block_update hs toks) i (blocks m)) m)).

Lemma alloc_ok_publish h i hs toks b :
  alloc_ok none h → blocks (hp_bm h) !! i = Some b → b_hash b = -1 → hs ≠ -1 →
  alloc_ok none (publish i hs toks h).
Proof.
  intros [Hs Hnd Hp Hd Hb Hh Ht Hq] Hi Hfresh Hne.
  split; simpl; rewrite ?length_alter; try done.
  - intros j b' Hj. apply lookup_alter_block in Hj as [(-> & b0 & Hb0 & ->)|(_ & Hj)];
      [destruct (Hb _ _ Hb0)|destruct (Hb _ _ Hj)]; by split.
  - intros hs' j. rewrite lookup_insert. case_decide as Hhs.
    + intros ?; simplify_eq. rewrite list_lookup_alter_eq, Hi. by eexists.
    + intros Hj. destruct (Hh _ _ Hj) as (b' & Hb' & Hbh & Hn). destruct (decide (j = i)) as [->|Hji].
      * congruence.
      * rewrite list_lookup_alter_ne by done. eauto.
Qed.

(** Coverage is a matter of whole blocks. *)
Lemma seq_covered_blocks h s c c' :
  alloc_ok none h → 0 <= c' <= num_tokens s →
  c' <= Z.of_nat (length (block_table s)) * block_size (hp_bm h) →
  c' `div` block_size (hp_bm h) = c `div` block_size (hp_bm h) →
  seq_covered h (set_num_cached_tokens c s) → seq_covered h (set_num_cached_tokens c' s).
Proof.
  intros Hok Hb' Ht' Hdiv [Hb Ht Hp]. destruct (ok_size _ _ Hok) as [Hbs _].
  split; simpl in *; [done..|]. intros j i Hj. destruct (Hp j i Hj) as (b & Hbl & Hpos).
  exists b. split; [done|]. unfold position_ok in *. simpl in *.
  replace (Z.of_nat (S j) * block_size (hp_bm h) <=? c')
    with (Z.of_nat (S j) * block_size (hp_bm h) <=? c); [done|].
  apply eq_true_iff_eq. by rewrite !Z.leb_le, !mul_le_div, Hdiv.
Qed.

(** The loop invariant: the blocks of [s] before position [a] are published,
    every other sequence is covered. *)
Record publishing (k : nat) (s : sequence) (a : nat) (h : heap) : Prop := {
  pub_ok : alloc_ok none h;
  pub_seq : hp_seqs h !! k = Some s;
  pub_self : seq_covered h (set_num_cached_tokens (Z.of_nat a * block_size (hp_bm h)) s);
  pub_rest : ∀ k' s', k' ≠ k → hp_seqs h !! k' = Some s' → seq_covered h s';
}.

Lemma publish_step k s a h i :
  publishing k s a h → block_table s !! a = Some i →
  Z.of_nat (S a) * block_size (hp_bm h) <= num_tokens s →
  publishing k s (S a)
    (publish i (chain (block_size (hp_bm h)) (token_ids s) (S a))
       (nth_block (block_size (hp_bm h)) (token_ids s) a) h).
Proof.
  intros [Hok Hk [Hb Ht Hp] Hrest] Hi Hlen. destruct (ok_size _ _ Hok) as [Hbs _].
  simpl in Hb, Ht, Hp.
  assert (∃ b, blocks (hp_bm h) !! i = Some b ∧ b_hash b = -1 ∧ b_ref_count b = 1)
    as (b & Hbl & Hh & Hr).
  { destruct (Hp a i Hi) as (b & Hbl & Hpos). exists b. split; [done|].
    unfold position_ok in Hpos. simpl in Hpos. rewrite (proj2 (Z.leb_gt _ _)) in Hpos by nia.
    tauto. }
  apply lookup_lt_Some in Hi as Hlt. split.
  - apply (alloc_ok_publish _ _ _ _ b); try done. apply chain_nonneg.
  - done.
  - split; simpl; [nia|nia|]. intros j i' Hj.
    destruct (Hp j i' Hj) as (b' & Hb' & Hpos). unfold position_ok in *. simpl in *.
    assert (i' = i → j = a) as Huniq.
    { intros ->. destruct (decide (j = a)); [done|exfalso].
      destruct (ok_block _ _ Hok _ _ Hbl) as [_ Hrefs _ _]. unfold none in Hrefs.
      pose proof (refs_ge _ _ _ i Hk).
      assert (2 <= count i (block_table s))%nat; [|lia].
      by apply (count_two (block_table s) i j a). }
    destruct (decide (i' = i)) as [->|Hne].
    + rewrite (Huniq eq_refl) in *. rewrite list_lookup_alter_eq, Hbl. eexists. split; [done|].
      rewrite (proj2 (Z.leb_le _ _)) by lia. done.
    + rewrite list_lookup_alter_ne by done. exists b'. split; [done|].
      assert (j ≠ a) by (intros ->; congruence).
      replace (Z.of_nat (S j) * block_size (hp_bm h) <=? Z.of_nat (S a) * block_size (hp_bm h))
        with (Z.of_nat (S j) * block_size (hp_bm h) <=? Z.of_nat a * block_size (hp_bm h));
        [done|]. apply eq_true_iff_eq. rewrite !Z.leb_le. split; nia.
  - intros k' s' Hne Hk'. apply (seq_covered_same h); [done| |by eapply Hrest].
    intros i' Hi'. simpl. apply list_lookup_alter_ne. intros ->. revert Hi'.
    by apply (once_elsewhere h k s a i' b k' s').
Qed.

(** The loop of [hash_blocks] over positions [a, a+n). *)
Definition hash_turn (k : nat) (s : sequence) (bs h : Z) (i : Z) : MH Z :=
  let* ib := table_block s i in
  let* toks := lift (seq_block bs s i) in
  let h' := compute_hash toks h in
  upd_block ib.1 (Block_update h' toks) ;;;
  upd_bm (λ m, set_hash_to_block_id (<[h' := b_block_id ib.2]> (hash_to_block_id m)) m) ;;;
  ret h'.

Lemma seq_block_ok bs s (j : nat) :
  0 < bs → Z.of_nat (S j) * bs <= num_tokens s →
  seq_block bs s (Z.of_nat j) = Ok (nth_block bs (token_ids s) j).
Proof.
  intros Hbs Hle. unfold seq_block, num_blocks.
  assert (Z.of_nat j + 1 <= (num_tokens s + bs - 1) `div` bs)
    by (apply Z.div_le_lower_bound; lia).
  rewrite (proj2 (Z.leb_le _ _)), (proj2 (Z.ltb_lt _ _)) by lia. simpl.
  unfold nth_block. do 2 f_equal; lia.
Qed.

Lemma hash_turn_ok k s a h i :
  publishing k s a h → block_table s !! a = Some i →
  Z.of_nat (S a) * block_size (hp_bm h) <= num_tokens s →
  hash_turn k s (block_size (hp_bm h)) (chain (block_size (hp_bm h)) (token_ids s) a)
    (Z.of_nat a) h =
  (Ok (chain (block_size (hp_bm h)) (token_ids s) (S a)),
   publish i (chain (block_size (hp_bm h)) (token_ids s) (S a))
     (nth_block (block_size (hp_bm h)) (token_ids s) a) h).
Proof.
  intros [Hok Hk [Hb Ht Hp] _] Hi Hlen. destruct (ok_size _ _ Hok) as [Hbs _].
  destruct (Hp a i Hi) as (b & Hbl & _). destruct (ok_block _ _ Hok _ _ Hbl) as [Hid _ _ _].
  unfold hash_turn, table_block. rewrite Nat2Z.id, Hi.
  unfold bind at 1. rewrite (bind_ok _ _ _ _ _ (get_block_ok _ _ _ Hbl)).
  unfold ret at 1. cbn [fst snd]. rewrite seq_block_ok by done.
  unfold bind at 1, lift.
  rewrite (bind_ok _ _ _ _ _ (upd_block_ok _ _ _ _ Hbl)). rewrite Hid. reflexivity.
Qed.

Lemma hash_loop k s a n h :
  publishing k s a h → (a + n <= length (block_table s))%nat →
  Z.of_nat (a + n) * block_size (hp_bm h) <= num_tokens s →
  ∃ h' r, for_fold (hash_turn k s (block_size (hp_bm h)))
      (chain (block_size (hp_bm h)) (token_ids s) a) (Z.of_nat <$> seq a n) h = (Ok r, h') ∧
    publishing k s (a + n) h' ∧ same_frame h h' ∧ hp_seqs h' = hp_seqs h.
Proof.
  revert a h. induction n as [|n IH]; intros a h Hp Hl Hn.
  { exists h. rewrite Nat.add_0_r. eexists. by split_and!. }
  destruct (lookup_lt_is_Some_2 (block_table s) a ltac:(lia)) as [i Hi].
  pose proof (pub_ok _ _ _ _ Hp) as Hok. destruct (ok_size _ _ Hok) as [Hbs _].
  assert (Z.of_nat (S a) * block_size (hp_bm h) <= num_tokens s) as Hle by nia.
  pose proof (publish_step k s a h i Hp Hi Hle) as Hp'.
  destruct (IH _ _ Hp') as (h' & r & E & Hp'' & Hf & Hsq); [lia|simpl; nia|].
  exists h', r. split; [|split; [by replace (a + S n)%nat with (S a + n)%nat by lia|split; [|done]]];
    last by etrans; [|exact Hf]; split; simpl; rewrite ?length_alter.
  cbn [seq fmap list_fmap for_fold]. rewrite (bind_ok _ _ _ _ _ (hash_turn_ok k s a h i Hp Hi Hle)).
  exact E.
Qed.

Lemma py_range_nat a b : 0 <= a → a <= b →
  py_range a b = Z.of_nat <$> seq (Z.to_nat a) (Z.to_nat (b - a)).
Proof.
  intros. unfold py_range. rewrite <-(Nat.add_0_r (Z.to_nat a)) , <-fmap_add_seq, <-list_fmap_compose.
  apply list_fmap_ext. intros; simpl; lia.
Qed.

(** The scheduled step of [s] stays inside its tokens and its table. *)
Definition step_covered (bs : Z) (s : sequence) : Prop :=
  0 <= num_scheduled_tokens s ∧
  num_cached_tokens s + num_scheduled_tokens s <= num_tokens s ∧
  num_cached_tokens s + num_scheduled_tokens s <= Z.of_nat (length (block_table s)) * bs.

(** The hash the loop of [hash_blocks] starts from. *)
Lemma hash_seed h k s (a : nat) :
  alloc_ok none h → seq_covered h s → hp_seqs h !! k = Some s →
  num_cached_tokens s `div` block_size (hp_bm h) = Z.of_nat a →
  (if 0 <? Z.of_nat a
   then let* ib := table_block s (Z.of_nat a - 1) in ret (b_hash ib.2)
   else ret (-1)) h = (Ok (chain (block_size (hp_bm h)) (token_ids s) a), h).
Proof.
  intros Hok [Hb Ht Hp] Hk Hdiv. destruct (ok_size _ _ Hok) as [Hbs _].
  destruct a as [|a]; [done|]. rewrite (proj2 (Z.ltb_lt _ _)) by lia.
  assert (Z.of_nat (S a) * block_size (hp_bm h) <= num_cached_tokens s) as Hle
    by (apply mul_le_div; lia).
  destruct (lookup_lt_is_Some_2 (block_table s) a) as [i Hi]; [nia|].
  destruct (Hp a i Hi) as (b & Hbl & Hpos). unfold position_ok in Hpos.
  rewrite (proj2 (Z.leb_le _ _)) in Hpos by done. destruct Hpos as [<- _].
  unfold table_block. replace (Z.to_nat (Z.of_nat (S a) - 1)) with a by lia. rewrite Hi.
  unfold bind at 1. by rewrite (bind_ok _ _ _ _ _ (get_block_ok _ _ _ Hbl)).
Qed.

(** [hash_blocks] succeeds, changes no sequence, and leaves the store ready
    for the coverage increment that follows it in [postprocess]. *)
Lemma hash_blocks_run h k s :
  alloc_ok none h → cache_ok h → unfenced h → hp_seqs h !! k = Some s →
  step_covered (block_size (hp_bm h)) s →
  ∃ h', hash_blocks compute_hash k h = (Ok tt, h') ∧ alloc_ok none h' ∧
    same_frame h h' ∧ hp_seqs h' = hp_seqs h ∧
    seq_covered h' (set_num_cached_tokens (num_cached_tokens s + num_scheduled_tokens s) s) ∧
    (∀ k' s', k' ≠ k → hp_seqs h !! k' = Some s' → seq_covered h' s').
Proof.
  intros Hok Hc Hun Hk (Hn0 & Hn & Ht). destruct (ok_size _ _ Hok) as [Hbs Hsz].
  pose proof (Hc _ _ Hk) as Hcov. destruct (cov_bound _ _ Hcov) as [Hc0 _].
  unfold hash_blocks. rewrite (bind_ok _ _ _ _ _ (assert_allowed h Hun)).
  rewrite (bind_ok _ _ _ _ _ (get_seq_ok _ _ _ Hk)).
  unfold bind at 1, get_bm, gets at 1. unfold bind at 1, gets at 1. rewrite Hsz.
  set (bs := block_size (hp_bm h)) in *.
  set (c := num_cached_tokens s) in *. set (n := num_scheduled_tokens s) in *.
  assert (seq_covered h (set_num_cached_tokens c s)) as Hcov'
    by (apply (seq_covered_attr h s); done).
  destruct (c `div` bs =? (c + n) `div` bs) eqn:E.
  { apply Z.eqb_eq in E. exists h. split_and!; try done; [|by eauto].
    apply (seq_covered_blocks h s c); try done. lia. }
  apply Z.eqb_neq in E.
  pose proof (Z.div_pos c bs Hc0 Hbs). pose proof (Z.div_le_mono c (c + n) bs Hbs ltac:(lia)).
  pose proof (Z.mul_div_le (c + n) bs Hbs). pose proof (Z.mul_div_le c bs Hbs).
  set (a := Z.to_nat (c `div` bs)).
  assert (c `div` bs = Z.of_nat a) as Ha by (unfold a; lia). rewrite Ha in *.
  set (m := Z.to_nat ((c + n) `div` bs - Z.of_nat a)).
  assert ((c + n) `div` bs = Z.of_nat (a + m)) as Hm by (unfold m; lia). rewrite Hm in *.
  rewrite (bind_ok _ _ _ _ _ (hash_seed h k s a Hok Hcov Hk Ha)).
  destruct (hash_loop k s a m h) as (h' & r & El & [Hok' _ Hself Hrest] & Hf & Hsq);
    [split; try done|nia|fold bs; lia|].
  { apply (seq_covered_blocks h s c); fold bs; try done; [lia|nia|].
    by rewrite Z.div_mul by lia. }
  { intros; by eapply Hc. }
  assert (py_range (Z.of_nat a) (Z.of_nat (a + m)) = Z.of_nat <$> seq a m) as ->.
  { rewrite py_range_nat by lia. do 2 f_equal; lia. }
  exists h'. split; [|split_and!; try done].
  - erewrite bind_ok; [reflexivity|exact El].
  - pose proof (fr_size _ _ Hf) as Hbs'. fold bs in Hbs'.
    eapply (seq_covered_blocks h' s); [done|..|exact Hself]; rewrite ?Hbs'; [lia|done|].
    by rewrite Z.div_mul, Hm by lia.
  - intros k' s' Hne Hk'. apply (Hrest k'); [done|]. by rewrite Hsq.
Qed.

(** The commit of a step's coverage, [hash_blocks] followed by the
    [num_cached_tokens] increment of [Scheduler.postprocess], always succeeds
    for a step inside the sequence and its table, and keeps both the ledger
    and the soundness of the prefix cache: every block that became full is
    published under the hash of its whole prefix. *)
Theorem hash_blocks_commit h k s :
  alloc_ok none h → cache_ok h → unfenced h → hp_seqs h !! k = Some s →
  step_covered (block_size (hp_bm h)) s →
  ∃ h', (hash_blocks compute_hash k ;;;
         upd_seq k (λ s, set_num_cached_tokens
           (num_cached_tokens s + num_scheduled_tokens s) s)) h = (Ok tt, h') ∧
    alloc_ok none h' ∧ cache_ok h' ∧ unfenced h'.
Proof.
  intros Hok Hc Hun Hk Hstep.
  destruct (hash_blocks_run h k s Hok Hc Hun Hk Hstep)
    as (h1 & E & Hok1 & Hf & Hsq & Hself & Hrest).
  eexists. split; [by rewrite (bind_ok _ _ _ _ _ E)|]. split; [|split].
  - by apply coverage_ok.
  - intros k' s'. simpl. rewrite lookup_alter, Hsq. case_decide as Hkk; [subst k'|].
    + rewrite Hk. intros ?; simplify_eq/=.
      by apply (seq_covered_same h1).
    + intros Hk'. apply (seq_covered_same h1); try done. apply (Hrest k'); congruence.
  - destruct (same_frame_unfenced _ _ Hf Hun). by split.
Qed.
End cache.
