(* ===== verification/SpecMemory.v ===== *)
(** * SpecMemory: the deterministic workspace planner

    Models src/nanovllm/engine/speculative_memory.py: the byte model of the
    speculative workspace, the reservation with its allocator margin, the KV
    block size and the test that a route fits a reserved plan.  The local
    variables of [plan_speculative_workspace] are the definitions of Module
    [Workspace], as functions of the geometry (batch size, K, vocabulary and
    the two logits item sizes).  A [torch.dtype] is known by the two attributes
    the code reads. *)
From S2P Require Import Prelude.

Record dtype := mk_dtype { is_floating_point : bool; itemsize : Z }.

Definition FP32_BYTES : Z := 4.
Definition FP64_BYTES : Z := 8.
Definition INT64_BYTES : Z := 8.
Definition BOOL_BYTES : Z := 1.
Definition TOP_P_CHUNK_SIZE : Z := 64.
Definition ALLOCATOR_MARGIN_MIN_BYTES : Z := 64 * 1024 ^ 2.
Definition ALLOCATOR_MARGIN_NUMERATOR : Z := 1.
Definition ALLOCATOR_MARGIN_DENOMINATOR : Z := 10.
Definition ALLOCATOR_MARGIN_ALIGNMENT_BYTES : Z := 2 * 1024 ^ 2.

(** ** The plan record *)

Module Plan.
Record SpeculativeMemoryPlan := mk {
  batch_size : Z;
  configured_k : Z;
  max_effective_k : Z;
  vocab_size : Z;
  max_num_seqs : Z;
  max_num_batched_tokens : Z;
  max_model_len : Z;
  draft_rows : Z;
  verifier_rows : Z;
  target_logits_itemsize : Z;
  draft_logits_itemsize : Z;
  draft_probability_bytes : Z;
  target_probability_bytes : Z;
  probability_floor_bytes : Z;
  draft_logits_bytes : Z;
  verifier_logits_bytes : Z;
  draft_transform_bytes : Z;
  verifier_transform_bytes : Z;
  draft_top_k_workspace_bytes : Z;
  verifier_top_k_workspace_bytes : Z;
  draft_top_p_workspace_bytes : Z;
  verifier_top_p_workspace_bytes : Z;
  draft_sampling_workspace_bytes : Z;
  bonus_sampling_workspace_bytes : Z;
  rejection_correction_workspace_bytes : Z;
  metadata_bytes : Z;
  draft_filter_phase_bytes : Z;
  draft_softmax_phase_bytes : Z;
  draft_race_phase_bytes : Z;
  verifier_filter_phase_bytes : Z;
  verifier_softmax_phase_bytes : Z;
  graph_static_workspace_bytes : option Z;
  backend_library_workspace_bytes : option Z;
  audit_required_components : list string;
  draft_phase_bytes : Z;
  verifier_phase_bytes : Z;
  rejection_phase_bytes : Z;
  bonus_phase_bytes : Z;
  modeled_live_peak_bytes : Z;
  allocator_margin_bytes : Z;
  reservation_bytes : Z;
}.

#[export] Instance plan_eq_dec : EqDecision SpeculativeMemoryPlan.
Proof. solve_decision. Defined.
End Plan.
Abbreviation SpeculativeMemoryPlan := Plan.SpeculativeMemoryPlan.

(** ** Argument checks *)

Definition _positive_int (name : string) (value : Z) : outcome Z :=
  oraise_if (value <=? 0)
    (SpeculativeMemoryPlanningError (name +:+ " must be positive")) ;?
  Ok value.

Definition _nonnegative_int (name : string) (value : Z) : outcome Z :=
  oraise_if (value <? 0)
    (SpeculativeMemoryPlanningError (name +:+ " must be non-negative")) ;?
  Ok value.

(** [getattr(config, name)]: [None] when the attribute is missing. *)
Definition _positive_config_int (name : string) (attr : option Z) : outcome Z :=
  match attr with
  | None => Raise (SpeculativeMemoryPlanningError ("model config is missing " +:+ name))
  | Some value => _positive_int name value
  end.

Definition _floating_itemsize (name : string) (d : dtype) : outcome Z :=
  oraise_if (negb (is_floating_point d))
    (SpeculativeMemoryPlanningError (name +:+ " must be a floating-point torch.dtype")) ;?
  Ok (itemsize d).

Definition _ceil_div (numerator denominator : Z) : Z :=
  (numerator + denominator - 1) `div` denominator.

Definition _round_up (value alignment : Z) : Z := _ceil_div value alignment * alignment.

(** ** The KV cache block *)

(** The attributes of [hf_config] the helper reads; [None] is a missing one
    ([head_dim] also when it is the value [None]). *)
Record hf_config := mk_hf_config {
  hf_num_hidden_layers : option Z;
  hf_num_key_value_heads : option Z;
  hf_head_dim : option Z;
  hf_hidden_size : option Z;
  hf_num_attention_heads : option Z;
  hf_dtype : option dtype;
}.

Definition resolve_head_dim (c : hf_config) : outcome Z :=
  match hf_head_dim c with
  | None =>
      let? hidden_size := _positive_config_int "hidden_size" (hf_hidden_size c) in
      let? num_attention_heads :=
        _positive_config_int "num_attention_heads" (hf_num_attention_heads c) in
      oraise_if (negb (hidden_size `mod` num_attention_heads =? 0))
        (SpeculativeMemoryPlanningError
           "hidden_size must be divisible by num_attention_heads when head_dim is absent") ;?
      Ok (hidden_size `div` num_attention_heads)
  | Some head_dim => _positive_int "head_dim" head_dim
  end.

Definition kv_cache_block_bytes (c : hf_config) (block_size tensor_parallel_size : Z)
    (dt : option dtype) : outcome Z :=
  let? block_size := _positive_int "block_size" block_size in
  let? tensor_parallel_size := _positive_int "tensor_parallel_size" tensor_parallel_size in
  let? num_layers := _positive_config_int "num_hidden_layers" (hf_num_hidden_layers c) in
  let? num_kv_heads := _positive_config_int "num_key_value_heads" (hf_num_key_value_heads c) in
  oraise_if (negb (num_kv_heads `mod` tensor_parallel_size =? 0))
    (SpeculativeMemoryPlanningError
       "num_key_value_heads must be divisible by tensor_parallel_size") ;?
  let? head_dim := resolve_head_dim c in
  let? dt := match dt with
             | Some dt => Ok dt
             | None => match hf_dtype c with
                       | Some dt => Ok dt
                       | None => Raise (SpeculativeMemoryPlanningError
                                          "model config is missing dtype")
                       end
             end in
  let? itemsize := _floating_itemsize "dtype" dt in
  let local_kv_heads := num_kv_heads `div` tensor_parallel_size in
  Ok (2 * num_layers * block_size * local_kv_heads * head_dim * itemsize).

(** ** The byte model *)

Definition _top_p_workspace_bytes (rows vocab_size logits_itemsize : Z) : Z :=
  let dense_elements := rows * vocab_size in
  let chunk_elements := Z.min rows TOP_P_CHUNK_SIZE * vocab_size in
  let active_logits_copy := dense_elements * logits_itemsize in
  let explicit_chunk_payload :=
    chunk_elements * (4 * FP32_BYTES + INT64_BYTES + 2 * BOOL_BYTES) in
  let sort_library_scratch := 2 * chunk_elements * (FP32_BYTES + INT64_BYTES) in
  active_logits_copy + explicit_chunk_payload + sort_library_scratch.

Definition _top_k_workspace_bytes (rows vocab_size logits_itemsize : Z) : Z :=
  let dense_elements := rows * vocab_size in
  let active_logits_copy := dense_elements * logits_itemsize in
  let values := dense_elements * logits_itemsize in
  let indices := dense_elements * INT64_BYTES in
  let thresholds := rows * logits_itemsize in
  active_logits_copy + values + indices + thresholds.

Definition _categorical_race_workspace_bytes (rows vocab_size : Z) : Z :=
  rows * vocab_size * (FP32_BYTES + 3 * FP64_BYTES).

Definition _rejection_correction_workspace_bytes (batch_size vocab_size : Z) : Z :=
  batch_size * vocab_size * (3 * FP32_BYTES + 7 * FP64_BYTES).

Definition _metadata_bytes (batch_size configured_k verifier_rows : Z) : Z :=
  let proposal_elements := batch_size * configured_k in
  let proposal_metadata := proposal_elements *
    (INT64_BYTES + 2 * FP64_BYTES + 2 * FP32_BYTES + 2 * FP64_BYTES + FP64_BYTES
     + FP32_BYTES + 2 * BOOL_BYTES + 2 * INT64_BYTES) in
  let sampler_rows := batch_size + verifier_rows in
  let sampler_metadata := sampler_rows * (2 * FP32_BYTES + 2 * INT64_BYTES) in
  let per_sequence := batch_size * (4 * INT64_BYTES + 3 * BOOL_BYTES) in
  proposal_metadata + sampler_metadata + per_sequence.

Definition _allocator_margin (live_peak_bytes : Z) : Z :=
  let fractional := _ceil_div (live_peak_bytes * ALLOCATOR_MARGIN_NUMERATOR)
                      ALLOCATOR_MARGIN_DENOMINATOR in
  let raw_margin := Z.max ALLOCATOR_MARGIN_MIN_BYTES fractional in
  _round_up raw_margin ALLOCATOR_MARGIN_ALIGNMENT_BYTES.

(** The local variables of [plan_speculative_workspace] for a positive K. *)
Module Workspace.
Section geometry.
Context (batch_size max_effective_k vocab_size target_itemsize draft_itemsize : Z).

Definition draft_rows : Z := batch_size.
Definition verifier_rows : Z := batch_size * (max_effective_k + 1).

Definition draft_probability_bytes : Z :=
  batch_size * max_effective_k * vocab_size * FP32_BYTES.
Definition target_probability_bytes : Z := verifier_rows * vocab_size * FP32_BYTES.
Definition probability_floor_bytes : Z :=
  draft_probability_bytes + target_probability_bytes.

Definition draft_logits_bytes : Z := draft_rows * vocab_size * draft_itemsize.
Definition verifier_logits_bytes : Z := verifier_rows * vocab_size * target_itemsize.
Definition draft_transform_bytes : Z :=
  draft_rows * vocab_size * (draft_itemsize + FP32_BYTES).
Definition verifier_transform_bytes : Z :=
  verifier_rows * vocab_size * (target_itemsize + FP32_BYTES).

Definition draft_top_k_workspace_bytes : Z :=
  _top_k_workspace_bytes draft_rows vocab_size draft_itemsize.
Definition verifier_top_k_workspace_bytes : Z :=
  _top_k_workspace_bytes verifier_rows vocab_size target_itemsize.
Definition draft_top_p_workspace_bytes : Z :=
  _top_p_workspace_bytes draft_rows vocab_size draft_itemsize.
Definition verifier_top_p_workspace_bytes : Z :=
  _top_p_workspace_bytes verifier_rows vocab_size target_itemsize.
Definition draft_sampling_workspace_bytes : Z :=
  _categorical_race_workspace_bytes draft_rows vocab_size.
Definition bonus_sampling_workspace_bytes : Z :=
  _categorical_race_workspace_bytes batch_size vocab_size.
Definition rejection_correction_workspace_bytes : Z :=
  _rejection_correction_workspace_bytes batch_size vocab_size.
Definition metadata_bytes : Z :=
  _metadata_bytes batch_size max_effective_k verifier_rows.

(** Draft subphases run one after the other: their private workspaces combine
    by maximum. *)
Definition draft_filtered_clone_bytes : Z := draft_logits_bytes.
Definition draft_scaled_logits_bytes : Z := batch_size * vocab_size * FP32_BYTES.
Definition draft_filter_phase_bytes : Z :=
  draft_probability_bytes + draft_logits_bytes + draft_filtered_clone_bytes
  + Z.max draft_top_k_workspace_bytes draft_top_p_workspace_bytes + metadata_bytes.
Definition draft_softmax_phase_bytes : Z :=
  draft_probability_bytes + draft_logits_bytes + draft_filtered_clone_bytes
  + draft_scaled_logits_bytes + metadata_bytes.
Definition draft_race_phase_bytes : Z :=
  draft_probability_bytes + draft_logits_bytes + draft_sampling_workspace_bytes
  + metadata_bytes.
Definition draft_phase_bytes : Z :=
  Z.max (Z.max draft_filter_phase_bytes draft_softmax_phase_bytes) draft_race_phase_bytes.

Definition verifier_filtered_clone_bytes : Z := verifier_logits_bytes.
Definition verifier_scaled_logits_bytes : Z := target_probability_bytes.
Definition verifier_filter_phase_bytes : Z :=
  draft_probability_bytes + verifier_logits_bytes + verifier_filtered_clone_bytes
  + Z.max verifier_top_k_workspace_bytes verifier_top_p_workspace_bytes
  + metadata_bytes.
Definition verifier_softmax_phase_bytes : Z :=
  draft_probability_bytes + verifier_logits_bytes + verifier_filtered_clone_bytes
  + verifier_scaled_logits_bytes + target_probability_bytes + metadata_bytes.
Definition verifier_phase_bytes : Z :=
  Z.max verifier_filter_phase_bytes verifier_softmax_phase_bytes.

Definition rejection_phase_bytes : Z :=
  probability_floor_bytes + rejection_correction_workspace_bytes + metadata_bytes.
Definition bonus_phase_bytes : Z :=
  probability_floor_bytes + bonus_sampling_workspace_bytes + metadata_bytes.

Definition modeled_live_peak_bytes : Z :=
  Z.max (Z.max (Z.max draft_phase_bytes verifier_phase_bytes) rejection_phase_bytes)
    bonus_phase_bytes.
Definition allocator_margin_bytes : Z := _allocator_margin modeled_live_peak_bytes.
Definition reservation_bytes : Z := modeled_live_peak_bytes + allocator_margin_bytes.
End geometry.
End Workspace.

(** ** The planner *)

Definition audit_required_components : list string :=
  [ "model activation and attention-library workspace";
    "CUDA graph-pool and route-specific static buffers";
    "top-k/top-p backend-internal selection/sort workspace beyond the documented payload proxy";
    "measured CUDA allocator fragmentation beyond the fixed margin" ]%string.

(** The plan returned when no speculative route can run. *)
Definition empty_workspace_plan (configured_k vocab_size max_num_seqs
    max_num_batched_tokens max_model_len target_itemsize draft_itemsize : Z)
    : SpeculativeMemoryPlan :=
  {| Plan.batch_size := 0; Plan.configured_k := configured_k; Plan.max_effective_k := 0;
     Plan.vocab_size := vocab_size; Plan.max_num_seqs := max_num_seqs;
     Plan.max_num_batched_tokens := max_num_batched_tokens;
     Plan.max_model_len := max_model_len; Plan.draft_rows := 0; Plan.verifier_rows := 0;
     Plan.target_logits_itemsize := target_itemsize;
     Plan.draft_logits_itemsize := draft_itemsize;
     Plan.draft_probability_bytes := 0; Plan.target_probability_bytes := 0;
     Plan.probability_floor_bytes := 0; Plan.draft_logits_bytes := 0;
     Plan.verifier_logits_bytes := 0; Plan.draft_transform_bytes := 0;
     Plan.verifier_transform_bytes := 0; Plan.draft_top_k_workspace_bytes := 0;
     Plan.verifier_top_k_workspace_bytes := 0; Plan.draft_top_p_workspace_bytes := 0;
     Plan.verifier_top_p_workspace_bytes := 0; Plan.draft_sampling_workspace_bytes := 0;
     Plan.bonus_sampling_workspace_bytes := 0;
     Plan.rejection_correction_workspace_bytes := 0; Plan.metadata_bytes := 0;
     Plan.draft_filter_phase_bytes := 0; Plan.draft_softmax_phase_bytes := 0;
     Plan.draft_race_phase_bytes := 0; Plan.verifier_filter_phase_bytes := 0;
     Plan.verifier_softmax_phase_bytes := 0; Plan.graph_static_workspace_bytes := None;
     Plan.backend_library_workspace_bytes := None;
     Plan.audit_required_components := audit_required_components;
     Plan.draft_phase_bytes := 0; Plan.verifier_phase_bytes := 0;
     Plan.rejection_phase_bytes := 0; Plan.bonus_phase_bytes := 0;
     Plan.modeled_live_peak_bytes := 0; Plan.allocator_margin_bytes := 0;
     Plan.reservation_bytes := 0 |}.

(** The plan returned for a positive K, every field from [Workspace]. *)
Definition workspace_plan (batch_size configured_k max_effective_k vocab_size max_num_seqs
    max_num_batched_tokens max_model_len target_itemsize draft_itemsize : Z)
    : SpeculativeMemoryPlan :=
  let B := batch_size in let K := max_effective_k in let V := vocab_size in
  let T := target_itemsize in let D := draft_itemsize in
  {| Plan.batch_size := B; Plan.configured_k := configured_k; Plan.max_effective_k := K;
     Plan.vocab_size := V; Plan.max_num_seqs := max_num_seqs;
     Plan.max_num_batched_tokens := max_num_batched_tokens;
     Plan.max_model_len := max_model_len;
     Plan.draft_rows := Workspace.draft_rows B;
     Plan.verifier_rows := Workspace.verifier_rows B K;
     Plan.target_logits_itemsize := T; Plan.draft_logits_itemsize := D;
     Plan.draft_probability_bytes := Workspace.draft_probability_bytes B K V;
     Plan.target_probability_bytes := Workspace.target_probability_bytes B K V;
     Plan.probability_floor_bytes := Workspace.probability_floor_bytes B K V;
     Plan.draft_logits_bytes := Workspace.draft_logits_bytes B V D;
     Plan.verifier_logits_bytes := Workspace.verifier_logits_bytes B K V T;
     Plan.draft_transform_bytes := Workspace.draft_transform_bytes B V D;
     Plan.verifier_transform_bytes := Workspace.verifier_transform_bytes B K V T;
     Plan.draft_top_k_workspace_bytes := Workspace.draft_top_k_workspace_bytes B V D;
     Plan.verifier_top_k_workspace_bytes := Workspace.verifier_top_k_workspace_bytes B K V T;
     Plan.draft_top_p_workspace_bytes := Workspace.draft_top_p_workspace_bytes B V D;
     Plan.verifier_top_p_workspace_bytes := Workspace.verifier_top_p_workspace_bytes B K V T;
     Plan.draft_sampling_workspace_bytes := Workspace.draft_sampling_workspace_bytes B V;
     Plan.bonus_sampling_workspace_bytes := Workspace.bonus_sampling_workspace_bytes B V;
     Plan.rejection_correction_workspace_bytes :=
       Workspace.rejection_correction_workspace_bytes B V;
     Plan.metadata_bytes := Workspace.metadata_bytes B K;
     Plan.draft_filter_phase_bytes := Workspace.draft_filter_phase_bytes B K V D;
     Plan.draft_softmax_phase_bytes := Workspace.draft_softmax_phase_bytes B K V D;
     Plan.draft_race_phase_bytes := Workspace.draft_race_phase_bytes B K V D;
     Plan.verifier_filter_phase_bytes := Workspace.verifier_filter_phase_bytes B K V T;
     Plan.verifier_softmax_phase_bytes := Workspace.verifier_softmax_phase_bytes B K V T;
     Plan.graph_static_workspace_bytes := None;
     Plan.backend_library_workspace_bytes := None;
     Plan.audit_required_components := audit_required_components;
     Plan.draft_phase_bytes := Workspace.draft_phase_bytes B K V D;
     Plan.verifier_phase_bytes := Workspace.verifier_phase_bytes B K V T;
     Plan.rejection_phase_bytes := Workspace.rejection_phase_bytes B K V;
     Plan.bonus_phase_bytes := Workspace.bonus_phase_bytes B K V;
     Plan.modeled_live_peak_bytes := Workspace.modeled_live_peak_bytes B K V T D;
     Plan.allocator_margin_bytes := Workspace.allocator_margin_bytes B K V T D;
     Plan.reservation_bytes := Workspace.reservation_bytes B K V T D |}.

Definition plan_speculative_workspace (vocab_size configured_k max_num_seqs
    max_num_batched_tokens max_model_len : Z) (target_logits_dtype draft_logits_dtype : dtype)
    : outcome SpeculativeMemoryPlan :=
  let? vocab_size := _positive_int "vocab_size" vocab_size in
  let? configured_k := _positive_int "configured_k" configured_k in
  let? max_num_seqs := _positive_int "max_num_seqs" max_num_seqs in
  let? max_num_batched_tokens :=
    _positive_int "max_num_batched_tokens" max_num_batched_tokens in
  let? max_model_len := _positive_int "max_model_len" max_model_len in
  let? target_itemsize := _floating_itemsize "target_logits_dtype" target_logits_dtype in
  let? draft_itemsize := _floating_itemsize "draft_logits_dtype" draft_logits_dtype in
  let max_effective_k :=
    Z.min (Z.min configured_k (max_num_batched_tokens - 1)) (max_model_len - 1) in
  if max_effective_k =? 0 then
    Ok (empty_workspace_plan configured_k vocab_size max_num_seqs max_num_batched_tokens
          max_model_len target_itemsize draft_itemsize)
  else
    let batch_size :=
      Z.min max_num_seqs (max_num_batched_tokens `div` (max_effective_k + 1)) in
    Ok (workspace_plan batch_size configured_k max_effective_k vocab_size max_num_seqs
          max_num_batched_tokens max_model_len target_itemsize draft_itemsize).

(** ** Routes *)

Definition speculative_route_fits_plan (plan : SpeculativeMemoryPlan)
    (batch_size effective_k : Z) : outcome bool :=
  let? batch_size := _nonnegative_int "batch_size" batch_size in
  let? effective_k := _nonnegative_int "effective_k" effective_k in
  if (batch_size =? 0) || (effective_k =? 0) then Ok false else
  Ok ((batch_size <=? Plan.batch_size plan)
      && (effective_k <=? Plan.max_effective_k plan)
      && (batch_size * effective_k <=? Plan.batch_size plan * Plan.max_effective_k plan)
      && (batch_size * (effective_k + 1) <=? Plan.verifier_rows plan)).

(** ** Monotonicity of the byte model *)

(** Sums, maxima and products of non-negative monotone terms are monotone. *)
Ltac mono :=
  repeat first
    [ assumption | reflexivity
    | simple apply Z.add_le_mono | simple apply Z.max_le_compat
    | simple apply Z.min_le_compat | simple apply Z.mul_le_mono_nonneg
    | simple apply Z.mul_nonneg_nonneg | simple apply Z.add_nonneg_nonneg | lia ].

Lemma _ceil_div_mono n m d : 0 < d → n <= m → _ceil_div n d <= _ceil_div m d.
Proof. apply ceil_div_mono. Qed.

Lemma _round_up_spec v a : 0 < a → v <= _round_up v a < v + a ∧ _round_up v a `mod` a = 0.
Proof.
  intros Ha. split; [exact (ceil_div_spec v a Ha)|]. unfold _round_up. by apply Z.mod_mul; lia.
Qed.

Lemma _allocator_margin_mono p q :
  p <= q → _allocator_margin p <= _allocator_margin q.
Proof.
  intros Hpq. unfold _allocator_margin, _round_up.
  apply Z.mul_le_mono_nonneg_r; [done|]. apply _ceil_div_mono; [done|].
  apply Z.max_le_compat; [done|]. apply _ceil_div_mono; [done|].
  unfold ALLOCATOR_MARGIN_NUMERATOR. lia.
Qed.

Lemma _top_k_mono r r' V i : 0 <= r' → r' <= r → 0 <= V → 0 <= i →
  0 <= _top_k_workspace_bytes r' V i <= _top_k_workspace_bytes r V i.
Proof. intros. unfold _top_k_workspace_bytes, INT64_BYTES. split; mono. Qed.

Lemma _top_p_mono r r' V i : 0 <= r' → r' <= r → 0 <= V → 0 <= i →
  0 <= _top_p_workspace_bytes r' V i <= _top_p_workspace_bytes r V i.
Proof.
  intros. unfold _top_p_workspace_bytes, TOP_P_CHUNK_SIZE, FP32_BYTES, INT64_BYTES, BOOL_BYTES.
  split; mono.
Qed.

Lemma _metadata_mono B B' K K' r r' : 0 <= B' → B' <= B → 0 <= K' → K' <= K →
  0 <= r' → r' <= r → 0 <= _metadata_bytes B' K' r' <= _metadata_bytes B K r.
Proof.
  intros. unfold _metadata_bytes, FP32_BYTES, FP64_BYTES, INT64_BYTES, BOOL_BYTES.
  split; mono.
Qed.

Section mono.
Context (B B' K K' V T D : Z).
Hypotheses (HB' : 0 <= B') (HB : B' <= B) (HK' : 0 <= K') (HK : K' <= K)
  (HV : 0 <= V) (HT : 0 <= T) (HD : 0 <= D).

Lemma verifier_rows_mono :
  0 <= Workspace.verifier_rows B' K' <= Workspace.verifier_rows B K.
Proof. unfold Workspace.verifier_rows. split; mono. Qed.

Lemma modeled_live_peak_mono :
  Workspace.modeled_live_peak_bytes B' K' V T D <= Workspace.modeled_live_peak_bytes B K V T D.
Proof.
  pose proof verifier_rows_mono as [Hr0 Hr].
  pose proof (_metadata_mono B B' K K' _ _ HB' HB HK' HK Hr0 Hr) as [_ Hm].
  pose proof (_top_k_mono B B' V D HB' HB HV HD) as [_ Hk1].
  pose proof (_top_p_mono B B' V D HB' HB HV HD) as [_ Hp1].
  pose proof (_top_k_mono _ _ V T Hr0 Hr HV HT) as [_ Hk2].
  pose proof (_top_p_mono _ _ V T Hr0 Hr HV HT) as [_ Hp2].
  unfold Workspace.modeled_live_peak_bytes, Workspace.draft_phase_bytes,
    Workspace.verifier_phase_bytes, Workspace.rejection_phase_bytes,
    Workspace.bonus_phase_bytes, Workspace.draft_filter_phase_bytes,
    Workspace.draft_softmax_phase_bytes, Workspace.draft_race_phase_bytes,
    Workspace.verifier_filter_phase_bytes, Workspace.verifier_softmax_phase_bytes,
    Workspace.probability_floor_bytes, Workspace.draft_probability_bytes,
    Workspace.target_probability_bytes, Workspace.draft_logits_bytes,
    Workspace.verifier_logits_bytes, Workspace.draft_filtered_clone_bytes,
    Workspace.verifier_filtered_clone_bytes, Workspace.draft_scaled_logits_bytes,
    Workspace.verifier_scaled_logits_bytes, Workspace.draft_logits_bytes,
    Workspace.verifier_logits_bytes, Workspace.target_probability_bytes,
    Workspace.draft_sampling_workspace_bytes, Workspace.bonus_sampling_workspace_bytes,
    Workspace.rejection_correction_workspace_bytes, Workspace.metadata_bytes,
    Workspace.draft_top_k_workspace_bytes, Workspace.draft_top_p_workspace_bytes,
    Workspace.verifier_top_k_workspace_bytes, Workspace.verifier_top_p_workspace_bytes,
    _categorical_race_workspace_bytes, _rejection_correction_workspace_bytes,
    Workspace.draft_rows, FP32_BYTES, FP64_BYTES.
  mono.
Qed.

Lemma reservation_mono :
  Workspace.reservation_bytes B' K' V T D <= Workspace.reservation_bytes B K V T D.
Proof.
  unfold Workspace.reservation_bytes, Workspace.allocator_margin_bytes.
  pose proof modeled_live_peak_mono. pose proof (_allocator_margin_mono _ _ H). lia.
Qed.
End mono.

(** ** The planner's contract *)

Definition planner_args_ok (V K S M L : Z) (T D : dtype) : Prop :=
  0 < V ∧ 0 < K ∧ 0 < S ∧ 0 < M ∧ 0 < L ∧
  is_floating_point T = true ∧ is_floating_point D = true.

Definition planner_k (K M L : Z) : Z := Z.min (Z.min K (M - 1)) (L - 1).

Lemma _positive_int_ok name v r : _positive_int name v = Ok r ↔ 0 < v ∧ r = v.
Proof.
  unfold _positive_int. rewrite obind_unit_ok, oraise_if_ok, Z.leb_gt. naive_solver.
Qed.

Lemma _floating_itemsize_ok name d r :
  _floating_itemsize name d = Ok r ↔ is_floating_point d = true ∧ r = itemsize d.
Proof.
  unfold _floating_itemsize. rewrite obind_unit_ok, oraise_if_ok, negb_false_iff. naive_solver.
Qed.

(** The planner succeeds exactly on its legal arguments, with this result. *)
Lemma plan_speculative_workspace_ok V K S M L T D p :
  plan_speculative_workspace V K S M L T D = Ok p ↔
  planner_args_ok V K S M L T D ∧
  p = let k := planner_k K M L in
      if k =? 0 then empty_workspace_plan K V S M L (itemsize T) (itemsize D)
      else workspace_plan (Z.min S (M `div` (k + 1))) K k V S M L (itemsize T) (itemsize D).
Proof.
  unfold plan_speculative_workspace, planner_args_ok, planner_k.
  split.
  - intros H. repeat (apply obind_ok in H as (? & ?%(_positive_int_ok _ _ _) & H); destruct_and?; subst).
    repeat (apply obind_ok in H as (? & ?%(_floating_itemsize_ok _ _ _) & H); destruct_and?; subst).
    case_match; simplify_eq; by split_and!.
  - intros [(?&?&?&?&?&?&?) ->].
    repeat (erewrite (proj2 (_positive_int_ok _ _ _)) by (split; [done|reflexivity]); simpl).
    repeat (erewrite (proj2 (_floating_itemsize_ok _ _ _)) by (split; [done|reflexivity]); simpl).
    by case_match.
Qed.

Lemma allocator_margin_spec p :
  let m := _allocator_margin p in
  ALLOCATOR_MARGIN_MIN_BYTES <= m ∧ p <= 10 * m ∧ m `mod` ALLOCATOR_MARGIN_ALIGNMENT_BYTES = 0.
Proof.
  unfold _allocator_margin, ALLOCATOR_MARGIN_NUMERATOR, ALLOCATOR_MARGIN_DENOMINATOR.
  set (f := _ceil_div (p * 1) 10).
  assert (p <= f * 10) by (pose proof (ceil_div_spec (p * 1) 10 ltac:(lia)); unfold f, _ceil_div; unfold ceil_div in *; lia).
  pose proof (_round_up_spec (Z.max ALLOCATOR_MARGIN_MIN_BYTES f) ALLOCATOR_MARGIN_ALIGNMENT_BYTES
    ltac:(done)) as [[? _] ?].
  split_and!; [lia|lia|done].
Qed.

(** The planner succeeds exactly on positive geometry with floating-point
    dtypes.  Its K is the largest a one-row cycle can execute; its batch is the
    largest one within [max_num_seqs] whose verifier rows fit the token budget;
    with K = 0 nothing is reserved, otherwise the reservation is the modelled
    peak, which covers every phase, plus a margin of at least 64 MiB and a tenth
    of the peak, aligned to 2 MiB. *)
Theorem plan_speculative_workspace_spec V K S M L T D :
  if is_ok (plan_speculative_workspace V K S M L T D) then
    planner_args_ok V K S M L T D ∧
    ∃ p, plan_speculative_workspace V K S M L T D = Ok p ∧
    let k := Plan.max_effective_k p in let B := Plan.batch_size p in
    (∀ k', 0 <= k' → k' <= K → k' + 1 <= M → k' + 1 <= L → k' <= k) ∧
    0 <= k <= K ∧ k + 1 <= M ∧ k + 1 <= L ∧
    if k =? 0 then B = 0 ∧ Plan.reservation_bytes p = 0
    else 1 <= B <= S ∧ B * (k + 1) <= M ∧ Plan.verifier_rows p = B * (k + 1) ∧
      (∀ B', B' <= S → B' * (k + 1) <= M → B' <= B) ∧
      Forall (λ phase, phase <= Plan.modeled_live_peak_bytes p)
        [ Plan.draft_filter_phase_bytes p; Plan.draft_softmax_phase_bytes p;
          Plan.draft_race_phase_bytes p; Plan.verifier_filter_phase_bytes p;
          Plan.verifier_softmax_phase_bytes p; Plan.rejection_phase_bytes p;
          Plan.bonus_phase_bytes p ] ∧
      Plan.reservation_bytes p =
        Plan.modeled_live_peak_bytes p + Plan.allocator_margin_bytes p ∧
      ALLOCATOR_MARGIN_MIN_BYTES <= Plan.allocator_margin_bytes p ∧
      Plan.modeled_live_peak_bytes p <= 10 * Plan.allocator_margin_bytes p ∧
      Plan.allocator_margin_bytes p `mod` ALLOCATOR_MARGIN_ALIGNMENT_BYTES = 0
  else ¬ planner_args_ok V K S M L T D.
Proof.
  destruct (plan_speculative_workspace V K S M L T D) as [p|e] eqn:E; simpl; last first.
  { intros Hargs. pose proof (proj2 (plan_speculative_workspace_ok V K S M L T D _)
      (conj Hargs eq_refl)). congruence. }
  apply plan_speculative_workspace_ok in E as [Hargs ->]. split; [done|].
  eexists. split; [reflexivity|]. destruct Hargs as (? & ? & ? & ? & ? & _ & _).
  unfold planner_k. set (k := Z.min _ _). cbv zeta.
  destruct (k =? 0) eqn:Ek; cbn [Plan.max_effective_k Plan.batch_size empty_workspace_plan workspace_plan].
  { apply Z.eqb_eq in Ek. rewrite Z.eqb_refl. split_and!; try lia; try done. }
  rewrite Ek. apply Z.eqb_neq in Ek.
  assert (0 < k + 1) as Hk1 by lia.
  assert (1 <= M `div` (k + 1)) by (apply Z.div_le_lower_bound; lia).
  pose proof (Z.mul_div_le M (k + 1) Hk1).
  set (B := Z.min S (M `div` (k + 1))).
  assert (1 <= B <= S) by lia. assert (B * (k + 1) <= M) by nia.
  split; [intros; lia|]. split; [lia|]. split; [lia|]. split; [lia|].
  unfold workspace_plan.
  cbn [Plan.verifier_rows Plan.draft_filter_phase_bytes Plan.draft_softmax_phase_bytes
    Plan.draft_race_phase_bytes Plan.verifier_filter_phase_bytes
    Plan.verifier_softmax_phase_bytes Plan.rejection_phase_bytes Plan.bonus_phase_bytes
    Plan.modeled_live_peak_bytes Plan.reservation_bytes Plan.allocator_margin_bytes].
  unfold Workspace.reservation_bytes, Workspace.allocator_margin_bytes.
  pose proof (allocator_margin_spec (Workspace.modeled_live_peak_bytes B k V (itemsize T)
    (itemsize D))) as (? & ? & ?).
  split; [assumption|]. split; [assumption|]. split; [reflexivity|].
  split; [|split; [|split; [reflexivity|split; [assumption|split; assumption]]]].
  - intros B' HB' HM'. assert (B' <= M `div` (k + 1)) by (apply Z.div_le_lower_bound; lia). lia.
  - unfold Workspace.modeled_live_peak_bytes, Workspace.draft_phase_bytes,
      Workspace.verifier_phase_bytes.
    generalize (Workspace.draft_filter_phase_bytes B k V (itemsize D))
      (Workspace.draft_softmax_phase_bytes B k V (itemsize D))
      (Workspace.draft_race_phase_bytes B k V (itemsize D))
      (Workspace.verifier_filter_phase_bytes B k V (itemsize T))
      (Workspace.verifier_softmax_phase_bytes B k V (itemsize T))
      (Workspace.rejection_phase_bytes B k V) (Workspace.bonus_phase_bytes B k V).
    intros. repeat constructor; lia.
Qed.

(** A route fits exactly when its batch and K are positive and within the plan. *)
Lemma route_fits_iff V K S M L T D p b k :
  plan_speculative_workspace V K S M L T D = Ok p → 0 <= b → 0 <= k →
  speculative_route_fits_plan p b k =
    Ok (bool_decide (1 <= b <= Plan.batch_size p ∧ 1 <= k <= Plan.max_effective_k p)).
Proof.
  intros [Hargs ->]%plan_speculative_workspace_ok Hb Hk.
  set (k0 := planner_k K M L). cbv zeta.
  unfold speculative_route_fits_plan, _nonnegative_int.
  rewrite !(proj2 (Z.ltb_ge _ _)) by done. simpl.
  destruct ((b =? 0) || (k =? 0)) eqn:E0.
  { rewrite bool_decide_eq_false_2; [done|].
    apply orb_true_iff in E0 as [?%Z.eqb_eq|?%Z.eqb_eq]; lia. }
  apply orb_false_iff in E0 as [?%Z.eqb_neq ?%Z.eqb_neq].
  destruct (k0 =? 0) eqn:Ek0;
    cbn [Plan.batch_size Plan.max_effective_k Plan.verifier_rows workspace_plan empty_workspace_plan].
  { rewrite bool_decide_eq_false_2 by lia. rewrite (proj2 (Z.leb_gt b 0)) by lia. done. }
  unfold Workspace.verifier_rows. set (B := Z.min _ _). f_equal.
  apply eq_true_iff_eq. rewrite !andb_true_iff, !Z.leb_le, bool_decide_eq_true.
  split; [intros; lia|]. intros [? ?]. split_and!; try lia; mono.
Qed.

(** Planning a fitting route at its exact geometry: the geometry is kept, and
    neither the peak nor the reservation grows. *)
Lemma exact_route_plan V K S M L T D p b k :
  plan_speculative_workspace V K S M L T D = Ok p → 0 <= itemsize T → 0 <= itemsize D →
  1 <= b <= Plan.batch_size p → 1 <= k <= Plan.max_effective_k p →
  ∃ q, plan_speculative_workspace V k b (b * (k + 1)) (k + 1) T D = Ok q ∧
       Plan.batch_size q = b ∧ Plan.max_effective_k q = k ∧
       0 < Plan.modeled_live_peak_bytes q <= Plan.reservation_bytes q ∧
       Plan.reservation_bytes q <= Plan.reservation_bytes p.
Proof.
  intros [Hargs ->]%plan_speculative_workspace_ok HT HD.
  set (k0 := planner_k K M L). cbv zeta.
  destruct (k0 =? 0) eqn:Ek0; cbn [Plan.batch_size empty_workspace_plan]; [lia|].
  cbn [Plan.batch_size Plan.max_effective_k workspace_plan]. intros Hb Hk.
  destruct Hargs as (? & ? & ? & ? & ? & ? & ?).
  eexists. split; [apply plan_speculative_workspace_ok; split; [|reflexivity]|].
  { split_and!; try done; nia. }
  unfold planner_k. rewrite (Z.min_l k), (Z.min_l k) by nia.
  rewrite (proj2 (Z.eqb_neq k 0)) by lia. cbn [workspace_plan].
  rewrite Z.div_mul, Z.min_id by lia.
  cbn [Plan.batch_size Plan.max_effective_k Plan.reservation_bytes
    Plan.modeled_live_peak_bytes workspace_plan].
  split; [done|]. split; [done|]. split; [|apply reservation_mono; lia].
  unfold Workspace.reservation_bytes, Workspace.allocator_margin_bytes.
  pose proof (allocator_margin_spec (Workspace.modeled_live_peak_bytes b k V (itemsize T)
    (itemsize D))) as (Hm & _ & _).
  unfold ALLOCATOR_MARGIN_MIN_BYTES in Hm. split; [|lia].
  apply Z.lt_le_trans with (Workspace.probability_floor_bytes b k V).
  - unfold Workspace.probability_floor_bytes, Workspace.draft_probability_bytes,
      Workspace.target_probability_bytes, Workspace.verifier_rows, FP32_BYTES.
    apply Z.add_pos_pos; repeat apply Z.mul_pos_pos; lia.
  - etrans; [|apply Z.le_max_r]. unfold Workspace.bonus_phase_bytes,
      Workspace.bonus_sampling_workspace_bytes, _categorical_race_workspace_bytes,
      Workspace.metadata_bytes, Workspace.verifier_rows, FP32_BYTES, FP64_BYTES.
    assert (0 <= b * V * (4 + 3 * 8)) by mono.
    pose proof (_metadata_mono b b k k (b * (k + 1)) (b * (k + 1))
      ltac:(lia) ltac:(lia) ltac:(lia) ltac:(lia) ltac:(mono) ltac:(lia)) as [? _]. lia.
Qed.

(** A route fits a plan of the planner exactly when its batch and K are
    positive and within the planned maxima: the two product tests of
    [speculative_route_fits_plan] never refuse more.  Re-planning such a route
    at its exact geometry keeps that geometry and reserves no more than the
    configured plan. *)
Theorem route_fits_reservation V K S M L T D p b k :
  plan_speculative_workspace V K S M L T D = Ok p → 0 <= itemsize T → 0 <= itemsize D →
  0 <= b → 0 <= k →
  speculative_route_fits_plan p b k =
    Ok (bool_decide (1 <= b <= Plan.batch_size p ∧ 1 <= k <= Plan.max_effective_k p)) ∧
  (speculative_route_fits_plan p b k = Ok true →
   ∃ q, plan_speculative_workspace V k b (b * (k + 1)) (k + 1) T D = Ok q ∧
        Plan.batch_size q = b ∧ Plan.max_effective_k q = k ∧
        Plan.reservation_bytes q <= Plan.reservation_bytes p).
Proof.
  intros Hp HT HD Hb Hk. pose proof (route_fits_iff _ _ _ _ _ _ _ _ _ _ Hp Hb Hk) as Hfit.
  split; [done|]. rewrite Hfit. intros [= [Hbp Hkp]%bool_decide_eq_true].
  destruct (exact_route_plan _ _ _ _ _ _ _ _ _ _ Hp HT HD Hbp Hkp) as (q & ? & ? & ? & _ & ?).
  by exists q.
Qed.

(** Sharding the KV heads over [tp] ranks is exact: whenever the bytes of a
    KV-cache block are computed for [tp] ranks, they are also computed for one
    rank, and the shards add up to exactly the unsharded block. *)
Lemma kv_cache_block_bytes_shards c bs tp dt n :
  kv_cache_block_bytes c bs tp dt = Ok n →
  ∃ full, kv_cache_block_bytes c bs 1 dt = Ok full ∧ full = tp * n.
Proof.
  unfold kv_cache_block_bytes. intros H.
  apply obind_ok in H as (bs' & [Hpos ->]%(_positive_int_ok _ _ _) & H).
  apply obind_ok in H as (tp' & [Htp ->]%(_positive_int_ok _ _ _) & H).
  apply obind_ok in H as (layers & El & H).
  apply obind_ok in H as (heads & Eh & H).
  apply obind_unit_ok in H as [Hdiv%oraise_if_ok H].
  apply negb_false_iff, Z.eqb_eq in Hdiv.
  apply obind_ok in H as (hd & Ehd & H).
  apply obind_ok in H as (d & Ed & H).
  apply obind_ok in H as (sz & Es & H). simplify_eq.
  rewrite (proj2 (_positive_int_ok _ bs _) (conj Hpos eq_refl)). simpl.
  rewrite El. simpl. rewrite Eh. simpl. rewrite Z.mod_1_r. simpl. rewrite Ehd. simpl.
  rewrite Ed. simpl. rewrite Es. simpl. eexists. split; [done|].
  rewrite Z.div_1_r. apply Z.div_exact in Hdiv; [|lia].
  rewrite Hdiv at 1. ring.
Qed.
