(* ===== verification/SpecRoutes.v ===== *)
(** * SpecRoutes: the finite registry of speculative execution routes

    Models src/nanovllm/engine/speculative_routes.py: route keys and their
    order, the workspace certificates, the registry with its readiness sets,
    run-time resolution of a contiguous K range for a live batch, the capture
    buckets, the catch-up witness and the construction of the registry.  A
    frozenset is a [gset]; [sorted] is a stable insertion sort.  The SHA-256
    digest of a payload's [repr] is the parameter [sha256_hexdigest]. *)
From S2P Require Import Prelude SpecMemory.

Definition DRAFT_ROUTE_SCHEMA : string := "draft-discard-v2-lm-head".
Definition MAX_CUDA_GRAPH_BATCH_SIZE : Z := 512.
Definition MAX_DRAFT_ROUTE_EFFECTIVE_K : Z := 32.

(** ** Keys *)

Inductive DraftExecutionMode := EAGER_DYNAMIC | CUDA_GRAPH.
Inductive DraftCatchupFamily := NONE | PAGED_EAGER_DYNAMIC.
Inductive DraftSamplerEnvelope := EXACT_WORST_CASE.

(** The string values of the enums, by which members compare. *)
Definition mode_value (m : DraftExecutionMode) : string :=
  match m with EAGER_DYNAMIC => "eager_dynamic" | CUDA_GRAPH => "cuda_graph" end.
Definition family_value (f : DraftCatchupFamily) : string :=
  match f with NONE => "none" | PAGED_EAGER_DYNAMIC => "paged_eager_dynamic_v1" end.
Definition envelope_value (_ : DraftSamplerEnvelope) : string :=
  "exact_all_compositions_worst_case_v1".

Record DraftRouteKey := mk_route_key {
  schema : string;
  execution_mode : DraftExecutionMode;
  batch_bucket : Z;
  effective_k : Z;
  catchup_family : DraftCatchupFamily;
  sampler_envelope : DraftSamplerEnvelope;
}.

Record DraftWarmComponentKey := mk_component {
  family : string;
  component_bucket : Z;
}.

#[export] Instance mode_eq_dec : EqDecision DraftExecutionMode.
Proof. solve_decision. Defined.
#[export] Instance family_eq_dec : EqDecision DraftCatchupFamily.
Proof. solve_decision. Defined.
#[export] Instance envelope_eq_dec : EqDecision DraftSamplerEnvelope.
Proof. solve_decision. Defined.
#[export] Instance route_key_eq_dec : EqDecision DraftRouteKey.
Proof. solve_decision. Defined.
#[export] Instance component_eq_dec : EqDecision DraftWarmComponentKey.
Proof. solve_decision. Defined.

#[export] Program Instance component_countable : Countable DraftWarmComponentKey :=
  inj_countable' (λ c, (family c, component_bucket c)) (λ p, mk_component p.1 p.2) _.
Next Obligation. by intros []. Qed.

#[export] Program Instance route_key_countable : Countable DraftRouteKey :=
  inj_countable' (λ k, (schema k, bool_decide (execution_mode k = CUDA_GRAPH),
                        batch_bucket k, effective_k k,
                        bool_decide (catchup_family k = PAGED_EAGER_DYNAMIC)))
    (λ '(s, m, b, k, f), mk_route_key s (if m : bool then CUDA_GRAPH else EAGER_DYNAMIC) b k
       (if f : bool then PAGED_EAGER_DYNAMIC else NONE) EXACT_WORST_CASE) _.
Next Obligation. by intros [? [] ? ? [] []]. Qed.

(** The order of [@dataclass(order=True)]: the fields as a tuple. *)
Definition lex (c d : comparison) : comparison :=
  match c with Eq => d | _ => c end.

Definition key_compare (a b : DraftRouteKey) : comparison :=
  lex (String.compare (schema a) (schema b))
    (lex (String.compare (mode_value (execution_mode a)) (mode_value (execution_mode b)))
      (lex (batch_bucket a ?= batch_bucket b)
        (lex (effective_k a ?= effective_k b)
          (lex (String.compare (family_value (catchup_family a))
                  (family_value (catchup_family b)))
            (String.compare (envelope_value (sampler_envelope a))
               (envelope_value (sampler_envelope b))))))).

Definition key_leb (a b : DraftRouteKey) : bool :=
  match key_compare a b with Gt => false | _ => true end.

(** [sorted(l, key=...)], a stable sort. *)
Section sorted.
Context {A : Type} (leb : A → A → bool).
Fixpoint insert_sorted (x : A) (l : list A) : list A :=
  match l with
  | [] => [x]
  | y :: l' => if leb x y then x :: l else y :: insert_sorted x l'
  end.
Definition sorted (l : list A) : list A := foldr insert_sorted [] l.
End sorted.

(** ** Certificates and entries *)

Record DraftWorkspaceCertificate := mk_certificate {
  cert_key : DraftRouteKey;
  batch_capacity : Z;
  q_bytes : Z;
  proposal_id_bytes : Z;
  modeled_draft_live_bytes : Z;
  reserved_plan_bytes : Z;
  cert_plan_fingerprint : string;
}.

Record DraftRouteEntry := mk_entry {
  entry_key : DraftRouteKey;
  workspace : DraftWorkspaceCertificate;
  required_warm_components : gset DraftWarmComponentKey;
}.

(** ** Admissions *)

Record DraftRouteAdmission := mk_admission {
  registry_schema : string;
  adm_plan_fingerprint : string;
  adm_batch_size : Z;
  catchup_tokens : Z;
  route_keys : list DraftRouteKey;
}.

(** [tuple(key.effective_k for key in keys) == tuple(range(1, len(keys) + 1))]. *)
Definition contiguous_k (keys : list DraftRouteKey) : bool :=
  bool_decide (effective_k <$> keys = py_range 1 (Z.of_nat (length keys) + 1)).

Definition DraftRouteAdmission_post_init (a : DraftRouteAdmission) : outcome unit :=
  oraise_if (negb (bool_decide (registry_schema a = DRAFT_ROUTE_SCHEMA)))
    (ValueError "draft admission uses an unsupported registry schema") ;?
  oraise_if (adm_batch_size a <? 1)
    (ValueError "draft admission batch_size must be positive") ;?
  oraise_if (catchup_tokens a <? 0)
    (ValueError "draft admission catchup_tokens must be non-negative") ;?
  oraise_if (bool_decide (adm_plan_fingerprint a = ""%string))
    (ValueError "draft admission requires a plan fingerprint") ;?
  oraise_if (negb (contiguous_k (route_keys a)))
    (ValueError "draft admission route keys must cover contiguous K").

Definition max_effective_k (a : DraftRouteAdmission) : Z := Z.of_nat (length (route_keys a)).

Definition key_for (a : DraftRouteAdmission) (k : Z) : option DraftRouteKey :=
  if negb ((1 <=? k) && (k <=? Z.of_nat (length (route_keys a)))) then None
  else route_keys a !! Z.to_nat (k - 1).

(** ** The registry *)

Record DraftRouteRegistry := mk_registry {
  reg_schema : string;
  reg_plan_fingerprint : string;
  entries : list DraftRouteEntry;
  warmed_components : gset DraftWarmComponentKey;
}.

Definition desired_warm_components (r : DraftRouteRegistry) : gset DraftWarmComponentKey :=
  ⋃ (required_warm_components <$> entries r).

Definition DraftRouteRegistry_post_init (r : DraftRouteRegistry) : outcome unit :=
  oraise_if (negb (bool_decide (reg_schema r = DRAFT_ROUTE_SCHEMA)))
    (ValueError "unsupported draft route registry schema") ;?
  let keys := entry_key <$> entries r in
  oraise_if (negb (bool_decide (NoDup keys)))
    (ValueError "draft route registry contains duplicate keys") ;?
  oraise_if (negb (bool_decide (keys = sorted key_leb keys)))
    (ValueError "draft route registry entries must be sorted") ;?
  oraise_if (negb (bool_decide (warmed_components r ⊆ desired_warm_components r)))
    (ValueError "draft registry names an unknown warmed component").

Definition router_admitted_keys (r : DraftRouteRegistry) : gset DraftRouteKey :=
  list_to_set (entry_key <$> entries r).

Definition workspace_certified (r : DraftRouteRegistry) (e : DraftRouteEntry) : bool :=
  let w := workspace e in
  let k := entry_key e in
  bool_decide (cert_key w = k)
  && bool_decide (cert_plan_fingerprint w = reg_plan_fingerprint r)
  && (batch_capacity w =? batch_bucket k)
  && (0 <=? q_bytes w)
  && (proposal_id_bytes w =? batch_bucket k * effective_k k * INT64_BYTES)
  && (q_bytes w + proposal_id_bytes w <=? modeled_draft_live_bytes w)
  && (modeled_draft_live_bytes w <=? reserved_plan_bytes w).

Definition workspace_certified_keys (r : DraftRouteRegistry) : gset DraftRouteKey :=
  list_to_set (entry_key <$> filter (λ e, workspace_certified r e = true) (entries r)).

Definition warm_capture_keys (r : DraftRouteRegistry) : gset DraftRouteKey :=
  list_to_set (entry_key <$>
    filter (λ e, required_warm_components e ⊆ warmed_components r) (entries r)).

Definition ready_keys (r : DraftRouteRegistry) : gset DraftRouteKey :=
  router_admitted_keys r ∩ workspace_certified_keys r ∩ warm_capture_keys r.

(** [tuple(sorted({...}))] on integers. *)
Definition sorted_int_set (l : list Z) : list Z := sorted Z.leb (remove_dups l).

Definition graph_buckets (r : DraftRouteRegistry) : list Z :=
  sorted_int_set ((λ e, batch_bucket (entry_key e)) <$>
    filter (λ e, execution_mode (entry_key e) = CUDA_GRAPH) (entries r)).

Definition with_warmed_components (r : DraftRouteRegistry)
    (components : list DraftWarmComponentKey) : outcome DraftRouteRegistry :=
  let warmed : gset DraftWarmComponentKey := list_to_set components in
  oraise_if (negb (bool_decide (warmed ⊆ desired_warm_components r)))
    (ValueError "cannot warm an undeclared draft route component") ;?
  let r' := mk_registry (reg_schema r) (reg_plan_fingerprint r) (entries r) warmed in
  DraftRouteRegistry_post_init r' ;? Ok r'.

Definition catchup_family_of (catchup : Z) : DraftCatchupFamily :=
  if catchup =? 0 then NONE else PAGED_EAGER_DYNAMIC.

(** The keys of the candidate entries for a live batch. *)
Definition candidates (r : DraftRouteRegistry) (batch_size catchup : Z)
    : list DraftRouteKey :=
  filter (λ k, k ∈ ready_keys r ∧ catchup_family k = catchup_family_of catchup ∧
               batch_size <= batch_bucket k) (entry_key <$> entries r).

(** [min] of a non-empty sequence. *)
Definition min_list1 (x : Z) (l : list Z) : Z := foldl Z.min x l.

Definition resolve (r : DraftRouteRegistry) (batch_size catchup : Z)
    : outcome (option DraftRouteAdmission) :=
  if (batch_size <? 1) || (catchup <? 0) then Ok None else
  match candidates r batch_size catchup with
  | [] => Ok None
  | (k0 :: ks) as cands =>
      let bucket := min_list1 (batch_bucket k0) (batch_bucket <$> ks) in
      let keys := sorted (λ a b, effective_k a <=? effective_k b)
                    (filter (λ k, batch_bucket k = bucket) cands) in
      oraise_if (negb (contiguous_k keys))
        (RuntimeError "ready draft routes do not cover contiguous K") ;?
      let a := mk_admission (reg_schema r) (reg_plan_fingerprint r) batch_size catchup keys in
      DraftRouteAdmission_post_init a ;? Ok (Some a)
  end.

Definition validate_runtime_key (r : DraftRouteRegistry) (key : DraftRouteKey)
    (batch_size k catchup : Z) : outcome bool :=
  let? a := resolve r batch_size catchup in
  Ok match a with
     | Some a => bool_decide (key_for a k = Some key)
     | None => false
     end.

(** ** Buckets and the catch-up witness *)

Definition py_range_step (a b step : Z) : list Z :=
  (λ i, a + i * step) <$> py_range 0 (_ceil_div (b - a) step).

Definition draft_graph_batch_buckets (batch_cap : Z) : outcome (list Z) :=
  oraise_if (batch_cap <? 0) (ValueError "batch_cap must be non-negative") ;?
  if batch_cap =? 0 then Ok [] else
  Ok (sorted_int_set (filter (λ b, b <= batch_cap) [1; 2; 4; 8]
        ++ py_range_step 16 (batch_cap + 1) 16 ++ [batch_cap])).

(** One turn of the candidate loop. *)
Definition catchup_step (max_num_batched_tokens per_row_cap : Z) (best : Z * Z) (batch_size : Z)
    : Z * Z :=
  let token_budget_cap := max_num_batched_tokens - 2 * batch_size in
  let aggregate := Z.min token_budget_cap (batch_size * per_row_cap) in
  let candidate := (Z.max aggregate 0, batch_size) in
  if best.1 <? candidate.1 then candidate else best.

Definition catchup_candidates (max_num_batched_tokens max_model_len batch_cap : Z) : list Z :=
  let quotient := max_num_batched_tokens `div` max_model_len in
  let remainder := max_num_batched_tokens `mod` max_model_len in
  sorted_int_set
    [ 1; batch_cap; Z.min (Z.max quotient 1) batch_cap;
      Z.min (Z.max (quotient + (if 0 <? remainder then 1 else 0)) 1) batch_cap ].

Definition max_eligible_draft_catchup (max_num_batched_tokens max_model_len batch_cap : Z)
    : outcome (Z * Z) :=
  oraise_if (max_num_batched_tokens <? 0)
    (ValueError "max_num_batched_tokens must be non-negative") ;?
  oraise_if (max_model_len <? 0) (ValueError "max_model_len must be non-negative") ;?
  oraise_if (batch_cap <? 0) (ValueError "batch_cap must be non-negative") ;?
  if (batch_cap =? 0) || (max_model_len =? 0) then Ok (0, 0) else
  Ok (foldl (catchup_step max_num_batched_tokens (Z.max (max_model_len - 2) 0)) (0, 0)
        (catchup_candidates max_num_batched_tokens max_model_len batch_cap)).

(** ** Fingerprints *)

#[local] Set Warnings "-register-all".

(** The Python values a hashed payload is made of. *)
Inductive payload :=
  | PStr (s : string)
  | PInt (z : Z)
  | PNone
  | PTuple (l : list payload)
  (** [repr(v)], itself a string of the payload *)
  | PRepr (v : payload).

Definition POpt (o : option Z) : payload :=
  match o with Some z => PInt z | None => PNone end.

(** [tuple((field.name, repr(getattr(plan, field.name))) for field in fields(plan))]. *)
Definition plan_payload (p : SpeculativeMemoryPlan) : payload :=
  PTuple ((λ nv : string * payload, PTuple [PStr nv.1; PRepr nv.2]) <$>
  [ ("batch_size", PInt (Plan.batch_size p));
    ("configured_k", PInt (Plan.configured_k p));
    ("max_effective_k", PInt (Plan.max_effective_k p));
    ("vocab_size", PInt (Plan.vocab_size p));
    ("max_num_seqs", PInt (Plan.max_num_seqs p));
    ("max_num_batched_tokens", PInt (Plan.max_num_batched_tokens p));
    ("max_model_len", PInt (Plan.max_model_len p));
    ("draft_rows", PInt (Plan.draft_rows p));
    ("verifier_rows", PInt (Plan.verifier_rows p));
    ("target_logits_itemsize", PInt (Plan.target_logits_itemsize p));
    ("draft_logits_itemsize", PInt (Plan.draft_logits_itemsize p));
    ("draft_probability_bytes", PInt (Plan.draft_probability_bytes p));
    ("target_probability_bytes", PInt (Plan.target_probability_bytes p));
    ("probability_floor_bytes", PInt (Plan.probability_floor_bytes p));
    ("draft_logits_bytes", PInt (Plan.draft_logits_bytes p));
    ("verifier_logits_bytes", PInt (Plan.verifier_logits_bytes p));
    ("draft_transform_bytes", PInt (Plan.draft_transform_bytes p));
    ("verifier_transform_bytes", PInt (Plan.verifier_transform_bytes p));
    ("draft_top_k_workspace_bytes", PInt (Plan.draft_top_k_workspace_bytes p));
    ("verifier_top_k_workspace_bytes", PInt (Plan.verifier_top_k_workspace_bytes p));
    ("draft_top_p_workspace_bytes", PInt (Plan.draft_top_p_workspace_bytes p));
    ("verifier_top_p_workspace_bytes", PInt (Plan.verifier_top_p_workspace_bytes p));
    ("draft_sampling_workspace_bytes", PInt (Plan.draft_sampling_workspace_bytes p));
    ("bonus_sampling_workspace_bytes", PInt (Plan.bonus_sampling_workspace_bytes p));
    ("rejection_correction_workspace_bytes",
       PInt (Plan.rejection_correction_workspace_bytes p));
    ("metadata_bytes", PInt (Plan.metadata_bytes p));
    ("draft_filter_phase_bytes", PInt (Plan.draft_filter_phase_bytes p));
    ("draft_softmax_phase_bytes", PInt (Plan.draft_softmax_phase_bytes p));
    ("draft_race_phase_bytes", PInt (Plan.draft_race_phase_bytes p));
    ("verifier_filter_phase_bytes", PInt (Plan.verifier_filter_phase_bytes p));
    ("verifier_softmax_phase_bytes", PInt (Plan.verifier_softmax_phase_bytes p));
    ("graph_static_workspace_bytes", POpt (Plan.graph_static_workspace_bytes p));
    ("backend_library_workspace_bytes", POpt (Plan.backend_library_workspace_bytes p));
    ("audit_required_components",
       PTuple (PStr <$> Plan.audit_required_components p));
    ("draft_phase_bytes", PInt (Plan.draft_phase_bytes p));
    ("verifier_phase_bytes", PInt (Plan.verifier_phase_bytes p));
    ("rejection_phase_bytes", PInt (Plan.rejection_phase_bytes p));
    ("bonus_phase_bytes", PInt (Plan.bonus_phase_bytes p));
    ("modeled_live_peak_bytes", PInt (Plan.modeled_live_peak_bytes p));
    ("allocator_margin_bytes", PInt (Plan.allocator_margin_bytes p));
    ("reservation_bytes", PInt (Plan.reservation_bytes p)) ]%string).

Section fingerprint.
(** [sha256(repr(payload).encode("utf-8")).hexdigest()]. *)
Variable sha256_hexdigest : payload → string.

Definition speculative_plan_fingerprint (p : SpeculativeMemoryPlan)
    (numerical_backend : string) : outcome string :=
  oraise_if (bool_decide (numerical_backend = ""%string))
    (ValueError "numerical_backend must be a non-empty string") ;?
  Ok (sha256_hexdigest (PTuple [PStr numerical_backend; plan_payload p])).

(** ** Building the registry *)

Definition exec_mode (enforce_eager : bool) : DraftExecutionMode :=
  if enforce_eager then EAGER_DYNAMIC else CUDA_GRAPH.

Definition registry_batch_cap (p : SpeculativeMemoryPlan) (enforce_eager : bool) : Z :=
  if enforce_eager then Plan.batch_size p
  else Z.min (Plan.batch_size p) MAX_CUDA_GRAPH_BATCH_SIZE.

(** The least work of a cycle that selects the key. *)
Definition minimum_work (minimum_live_batch k : Z) (f : DraftCatchupFamily) : Z :=
  minimum_live_batch * (k + 1) + (if decide (f = PAGED_EAGER_DYNAMIC) then 1 else 0).

Definition route_entry (p : SpeculativeMemoryPlan) (enforce_eager : bool)
    (fingerprint : string) (bucket k : Z) (f : DraftCatchupFamily) : DraftRouteEntry :=
  let batch_cap := registry_batch_cap p enforce_eager in
  let sampler_component := mk_component "exact_sampler_envelope" batch_cap in
  let catchup_component := mk_component "draft_catchup_paged_dynamic" batch_cap in
  let decode_component :=
    mk_component (if enforce_eager then "draft_decode_eager_dynamic"
                  else "draft_decode_graph") bucket in
  let key := mk_route_key DRAFT_ROUTE_SCHEMA (exec_mode enforce_eager) bucket k f
               EXACT_WORST_CASE in
  let certificate := mk_certificate key bucket
    (bucket * k * Plan.vocab_size p * FP32_BYTES) (bucket * k * INT64_BYTES)
    (Plan.draft_phase_bytes p) (Plan.reservation_bytes p) fingerprint in
  mk_entry key certificate
    ({[decode_component; sampler_component]}
     ∪ (if decide (f = PAGED_EAGER_DYNAMIC) then {[catchup_component]} else ∅)).

(** The body of the K and family loops for one bucket. *)
Definition bucket_entries (p : SpeculativeMemoryPlan) (enforce_eager : bool)
    (fingerprint : string) (previous_bucket bucket : Z) : list DraftRouteEntry :=
  let route_k_cap := Z.min (Plan.max_effective_k p) MAX_DRAFT_ROUTE_EFFECTIVE_K in
  py_range 1 (route_k_cap + 1) ≫= λ k,
    if Z.max (Plan.max_model_len p - 2) 0 <? k then [] else
    [NONE; PAGED_EAGER_DYNAMIC] ≫= λ f,
      if Plan.max_num_batched_tokens p <? minimum_work (previous_bucket + 1) k f then []
      else [route_entry p enforce_eager fingerprint bucket k f].

Fixpoint buckets_entries (p : SpeculativeMemoryPlan) (enforce_eager : bool)
    (fingerprint : string) (previous_bucket : Z) (buckets : list Z)
    : list DraftRouteEntry :=
  match buckets with
  | [] => []
  | bucket :: rest =>
      bucket_entries p enforce_eager fingerprint previous_bucket bucket
      ++ buckets_entries p enforce_eager fingerprint bucket rest
  end.

Definition new_registry (r : DraftRouteRegistry) : outcome DraftRouteRegistry :=
  DraftRouteRegistry_post_init r ;? Ok r.

Definition build_draft_route_registry (p : SpeculativeMemoryPlan) (enforce_eager : bool)
    (numerical_backend : string) : outcome DraftRouteRegistry :=
  let? fingerprint := speculative_plan_fingerprint p numerical_backend in
  if (Plan.batch_size p =? 0) || (Plan.max_effective_k p =? 0)
  then new_registry (mk_registry DRAFT_ROUTE_SCHEMA fingerprint [] ∅) else
  let batch_cap := registry_batch_cap p enforce_eager in
  let? batch_buckets := (if enforce_eager then Ok [batch_cap]
                         else draft_graph_batch_buckets batch_cap) in
  new_registry (mk_registry DRAFT_ROUTE_SCHEMA fingerprint
    (sorted (λ a b, key_leb (entry_key a) (entry_key b))
       (buckets_entries p enforce_eager fingerprint 0 batch_buckets)) ∅).
End fingerprint.
