(* ===== verification/RouteInv.v ===== *)
(** * RouteInv: sorting, buckets and the entries of a built registry

    The lemmas behind the route theorems: the stable insertion sort is a
    permutation, sorts under a total order and commutes with a key projection;
    [sorted_int_set] is the increasing list of a set; the route-key order is
    total; and membership in the nested loops of [build_draft_route_registry]. *)
From stdpp Require Import sorting.
From S2P Require Import Prelude SpecMemory SpecRoutes.

(** ** The stable sort *)

Section sorted.
Context {A : Type} (leb : A → A → bool).
Hypothesis leb_total : ∀ a b, leb a b = true ∨ leb b a = true.

Lemma insert_sorted_Permutation x l : insert_sorted leb x l ≡ₚ x :: l.
Proof.
  induction l as [|y l IH]; simpl; [done|]. destruct (leb x y); [done|].
  rewrite IH. apply Permutation_swap.
Qed.

Lemma sorted_Permutation l : sorted leb l ≡ₚ l.
Proof.
  induction l as [|x l IH]; [done|]. cbn [sorted foldr].
  rewrite insert_sorted_Permutation. by constructor.
Qed.

Lemma elem_of_sorted x l : x ∈ sorted leb l ↔ x ∈ l.
Proof. by rewrite sorted_Permutation. Qed.

Lemma insert_sorted_Sorted x l : Sorted leb l → Sorted leb (insert_sorted leb x l).
Proof.
  induction 1 as [|y l Hl IH Hy]; simpl; [by repeat constructor|].
  destruct (leb x y) eqn:Hxy; [repeat constructor; auto; by rewrite Hxy|].
  constructor; [done|].
  destruct (leb_total x y) as [?|Hyx]; [congruence|].
  destruct l as [|z l]; simpl; [by constructor; rewrite Hyx|].
  inversion Hy; subst. by destruct (leb x z); constructor; [rewrite Hyx|].
Qed.

Lemma sorted_Sorted l : Sorted leb (sorted leb l).
Proof. induction l; [constructor|]. by apply insert_sorted_Sorted. Qed.

Lemma sorted_id l : Sorted leb l → sorted leb l = l.
Proof.
  induction 1 as [|x l Hl IH Hx]; [done|]. cbn [sorted foldr].
  change (foldr _ _ l) with (sorted leb l). rewrite IH.
  destruct Hx as [|y l Hxy]; [done|]. simpl. by rewrite (Is_true_true_1 _ Hxy).
Qed.
End sorted.

Lemma sorted_fmap {A B} (f : A → B) (leb : B → B → bool) l :
  f <$> sorted (λ a b, leb (f a) (f b)) l = sorted leb (f <$> l).
Proof.
  induction l as [|x l IH]; [done|]. cbn [sorted foldr fmap list_fmap].
  change (foldr _ _ (f <$> l)) with (sorted leb (f <$> l)). rewrite <-IH.
  change (foldr _ _ l) with (sorted (λ a b, leb (f a) (f b)) l).
  generalize (sorted (λ a b, leb (f a) (f b)) l). clear IH.
  induction l0 as [|y l' IH]; [done|]. simpl.
  destruct (leb (f x) (f y)); [done|]. simpl. by f_equal.
Qed.

Lemma Zleb_total a b : (a <=? b) = true ∨ (b <=? a) = true.
Proof. lia. Qed.

Lemma Sorted_Zleb_lt l : NoDup l → Sorted Z.leb l → StronglySorted Z.lt l.
Proof.
  intros Hnd Hs. apply Sorted_StronglySorted in Hs; [|intros a b c ?%Is_true_true_1 ?%Is_true_true_1; apply Is_true_true_2; lia].
  induction Hs as [|x l Hs IH Hx]; [constructor|].
  apply NoDup_cons in Hnd as [Hn Hnd]. constructor; [by apply IH|].
  rewrite Forall_forall in Hx |- *. intros y Hy.
  pose proof (Is_true_true_1 _ (Hx y Hy)). assert (x ≠ y) by set_solver. lia.
Qed.

Lemma StronglySorted_lt_NoDup (l : list Z) : StronglySorted Z.lt l → NoDup l.
Proof.
  induction 1 as [|x l Hs IH Hx]; constructor; [|done].
  rewrite Forall_forall in Hx. intros Hin. specialize (Hx x Hin). lia.
Qed.

(** Two increasing lists with the same members are equal. *)
Lemma StronglySorted_lt_ext (l k : list Z) :
  StronglySorted Z.lt l → StronglySorted Z.lt k → (∀ x, x ∈ l ↔ x ∈ k) → l = k.
Proof.
  intros Hl Hk Hext. apply (StronglySorted_unique_strong Z.lt); [|done|done|].
  - intros; lia.
  - apply NoDup_Permutation; auto using StronglySorted_lt_NoDup.
Qed.

Lemma sorted_int_set_spec l :
  StronglySorted Z.lt (sorted_int_set l) ∧ ∀ x, x ∈ sorted_int_set l ↔ x ∈ l.
Proof.
  unfold sorted_int_set. split.
  - apply Sorted_Zleb_lt; [|apply sorted_Sorted, Zleb_total].
    rewrite sorted_Permutation. apply NoDup_remove_dups.
  - intros x. by rewrite elem_of_sorted, elem_of_remove_dups.
Qed.

Lemma py_range_sorted a b : StronglySorted Z.lt (py_range a b).
Proof.
  unfold py_range. apply (StronglySorted_fmap _ lt); [lia|].
  generalize 0%nat as s. induction (Z.to_nat (b - a)) as [|n IH]; intros s; [constructor|].
  simpl. constructor; [apply IH|]. apply Forall_forall. intros x. rewrite elem_of_seq. lia.
Qed.

(** A strictly increasing list of positive integers closed downwards is [1..n]. *)
Lemma downward_closed_range (l : list Z) :
  StronglySorted Z.lt l → (∀ x, x ∈ l → 1 <= x ∧ ∀ y, 1 <= y <= x → y ∈ l) →
  l = py_range 1 (Z.of_nat (length l) + 1).
Proof.
  intros Hs Hl.
  assert (∃ m, 0 <= m ∧ ∀ x, x ∈ l ↔ 1 <= x < m + 1) as (m & Hm & Hext).
  { clear Hs. assert (∃ m, 0 <= m ∧ (∀ x, x ∈ l → x <= m) ∧ (m = 0 ∨ m ∈ l))
      as (m & ? & Hle & Hm).
    { clear Hl. induction l as [|x l IH]; [exists 0; set_solver|].
      destruct IH as (m & ? & Hle & Hm). exists (Z.max x m).
      split; [lia|]. split; [intros y [->|Hy]%elem_of_cons; [lia|specialize (Hle y Hy); lia]|].
      rewrite elem_of_cons. destruct (Z.max_spec x m) as [[? ->]|[? ->]]; naive_solver. }
    exists m. split; [done|]. intros x. split.
    - intros Hx. pose proof (Hl x Hx). specialize (Hle x Hx). lia.
    - intros Hx. destruct Hm as [->|Hm]; [lia|]. apply (Hl m Hm). lia. }
  assert (l = py_range 1 (m + 1)) as Heq.
  { apply StronglySorted_lt_ext; [done|apply py_range_sorted|].
    intros x. by rewrite Hext, elem_of_py_range. }
  rewrite Heq at 1. f_equal. rewrite Heq, length_py_range. lia.
Qed.

(** ** Minima *)

Lemma min_list1_spec x l :
  min_list1 x l <= x ∧ (∀ y, y ∈ l → min_list1 x l <= y) ∧ min_list1 x l ∈ x :: l.
Proof.
  unfold min_list1. revert x. induction l as [|y l IH]; intros x; simpl; [set_solver by lia|].
  destruct (IH (Z.min x y)) as (H1 & H2 & H3). split_and!.
  - lia.
  - intros z [->|Hz]%elem_of_cons; [lia|auto].
  - apply elem_of_cons in H3 as [H3|H3]; [|set_solver].
    rewrite H3. destruct (Z.min_spec x y) as [[? ->]|[? ->]]; set_solver.
Qed.

(** ** The order of route keys *)

Lemma lex_antisym c c' d d' :
  c = CompOpp c' → d = CompOpp d' → lex c d = CompOpp (lex c' d').
Proof. intros -> ->. by destruct c'. Qed.

Lemma key_leb_total a b : key_leb a b = true ∨ key_leb b a = true.
Proof.
  assert (key_compare a b = CompOpp (key_compare b a)) as Hc.
  { unfold key_compare.
    repeat (apply lex_antisym; [solve [apply String.compare_antisym | apply Z.compare_antisym]|]).
    apply String.compare_antisym. }
  unfold key_leb. rewrite Hc. destruct (key_compare b a); auto.
Qed.

(** ** The entries of a built registry *)

Section entries.
Context (p : SpeculativeMemoryPlan) (eager : bool) (fp : string).

Definition route_k_cap : Z :=
  Z.min (Z.min (Plan.max_effective_k p) MAX_DRAFT_ROUTE_EFFECTIVE_K)
    (Z.max (Plan.max_model_len p - 2) 0).

Lemma elem_of_bucket_entries prev b e :
  e ∈ bucket_entries p eager fp prev b ↔
  ∃ k f, e = route_entry p eager fp b k f ∧ 1 <= k <= route_k_cap ∧
         minimum_work (prev + 1) k f <= Plan.max_num_batched_tokens p.
Proof.
  unfold bucket_entries, route_k_cap. rewrite list_elem_of_bind.
  setoid_rewrite elem_of_py_range. split.
  - intros (k & He & Hk). case_match eqn:Hc; [set_solver|]. apply Z.ltb_ge in Hc.
    apply list_elem_of_bind in He as (f & He & _). case_match eqn:Hw; [set_solver|].
    apply Z.ltb_ge in Hw. apply list_elem_of_singleton in He. exists k, f.
    split_and!; [done|lia|lia|done].
  - intros (k & f & -> & Hk & Hw). exists k. split; [|lia].
    rewrite (proj2 (Z.ltb_ge _ _)) by lia. apply list_elem_of_bind. exists f.
    rewrite (proj2 (Z.ltb_ge _ _)) by lia.
    split; [by apply list_elem_of_singleton|destruct f; set_solver].
Qed.

(** A live batch [b'] selects the bucket [b] of [bs], and the least cycle of the
    key fits the token budget. *)
Definition route_reachable (prev : Z) (bs : list Z) (b k : Z) (f : DraftCatchupFamily) : Prop :=
  b ∈ bs ∧ 1 <= k <= route_k_cap ∧
  ∃ b', prev < b' <= b ∧ (∀ c, c ∈ bs → c < b → c < b') ∧
        minimum_work b' k f <= Plan.max_num_batched_tokens p.

Lemma minimum_work_mono b b' k k' f :
  0 <= b → b <= b' → 0 <= k → k <= k' → minimum_work b k f <= minimum_work b' k' f.
Proof. intros. unfold minimum_work. case_decide; nia. Qed.

Lemma elem_of_buckets_entries prev bs e :
  0 <= prev → StronglySorted Z.lt (prev :: bs) →
  e ∈ buckets_entries p eager fp prev bs ↔
  ∃ b k f, e = route_entry p eager fp b k f ∧ route_reachable prev bs b k f.
Proof.
  revert prev. induction bs as [|b0 bs IH]; intros prev Hprev Hs.
  { unfold route_reachable. set_solver. }
  apply StronglySorted_cons in Hs as [Hlt Hs].
  apply Forall_cons in Hlt as [Hlt0 Hlt]. simpl. rewrite elem_of_app, IH by (done || lia).
  pose proof Hs as [Hb0 _]%StronglySorted_cons. rewrite Forall_forall in Hb0.
  rewrite elem_of_bucket_entries. unfold route_reachable. split.
  - intros [(k & f & -> & Hk & Hw)|(b & k & f & -> & Hb & Hk & b' & Hb' & Hc & Hw)].
    + exists b0, k, f. split; [done|]. split; [set_solver|]. split; [done|].
      exists (prev + 1). split_and!; [lia|lia| |done].
      intros c [->|Hin]%elem_of_cons; [lia|specialize (Hb0 c Hin); lia].
    + exists b, k, f. split; [done|]. split; [set_solver|]. split; [done|].
      exists b'. split_and!; [lia|lia| |done].
      intros c [->|Hin]%elem_of_cons; [lia|auto].
  - intros (b & k & f & -> & Hb & Hk & b' & Hb' & Hc & Hw).
    apply elem_of_cons in Hb as [->|Hb]; [left|right].
    + exists k, f. split; [done|]. split; [done|].
      etrans; [|exact Hw]. apply minimum_work_mono; lia.
    + exists b, k, f. split; [done|]. split; [done|]. split; [done|]. exists b'.
      specialize (Hb0 b Hb). pose proof (Hc b0 (list_elem_of_here _ _) Hb0).
      split_and!; [lia|lia|set_solver|done].
Qed.

Lemma NoDup_bucket_entries prev b : NoDup (bucket_entries p eager fp prev b).
Proof.
  unfold bucket_entries. apply NoDup_bind.
  - intros k1 k2 e _ _. case_match; [set_solver|]. intros H1.
    case_match; [set_solver|]. revert H1.
    rewrite !list_elem_of_bind. intros (f1 & H1 & _) (f2 & H2 & _).
    repeat case_match; set_solver.
  - intros k _. case_match; [constructor|]. apply NoDup_bind.
    + intros f1 f2 e _ _ H1 H2. repeat case_match; set_solver.
    + intros f _. case_match; [constructor|apply NoDup_singleton].
    + repeat constructor; set_solver.
  - apply StronglySorted_lt_NoDup, py_range_sorted.
Qed.

Lemma NoDup_buckets_entries prev bs :
  0 <= prev → StronglySorted Z.lt (prev :: bs) → NoDup (buckets_entries p eager fp prev bs).
Proof.
  revert prev. induction bs as [|b0 bs IH]; intros prev Hprev Hs; simpl; [constructor|].
  pose proof Hs as [Hlt Hs']%StronglySorted_cons.
  apply Forall_cons in Hlt as [Hlt0 _].
  apply NoDup_app. split; [apply NoDup_bucket_entries|]. split; [|apply IH; [lia|done]].
  intros e (k & f & -> & _)%elem_of_bucket_entries.
  rewrite elem_of_buckets_entries by (done || lia).
  intros (b & k' & f' & He & Hb & _). injection He as -> -> ->.
  apply StronglySorted_cons in Hs' as [Hb0 _]. rewrite Forall_forall in Hb0. specialize (Hb0 b Hb). lia.
Qed.
End entries.

(** ** The built registry *)

(** The buckets of the outer loop; none when no route can run. *)
Definition plan_buckets (p : SpeculativeMemoryPlan) (eager : bool) : list Z :=
  if (Plan.batch_size p =? 0) || (Plan.max_effective_k p =? 0) then [] else
  if eager then [Plan.batch_size p] else
  match draft_graph_batch_buckets (registry_batch_cap p eager) with
  | Ok l => l
  | Raise _ => []
  end.

Definition built_registry (p : SpeculativeMemoryPlan) (eager : bool) (fp : string)
    : DraftRouteRegistry :=
  mk_registry DRAFT_ROUTE_SCHEMA fp
    (sorted (λ a b, key_leb (entry_key a) (entry_key b))
       (buckets_entries p eager fp 0 (plan_buckets p eager))) ∅.

Lemma draft_graph_batch_buckets_run cap :
  0 < cap → ∃ l, draft_graph_batch_buckets cap = Ok l ∧ StronglySorted Z.lt (0 :: l).
Proof.
  intros Hc. unfold draft_graph_batch_buckets.
  rewrite (proj2 (Z.ltb_ge cap 0)), (proj2 (Z.eqb_neq cap 0)) by lia. simpl.
  eexists. split; [done|]. pose proof (sorted_int_set_spec
    (filter (λ b, b <= cap) [1; 2; 4; 8] ++ py_range_step 16 (cap + 1) 16 ++ [cap])) as [Hs Hin].
  constructor; [done|]. apply Forall_forall. intros x. rewrite Hin, !elem_of_app.
  unfold py_range_step. rewrite list_elem_of_filter, list_elem_of_fmap.
  setoid_rewrite elem_of_py_range. rewrite !elem_of_cons, !elem_of_nil. naive_solver lia.
Qed.

Section built.
Context (p : SpeculativeMemoryPlan) (eager : bool).
Hypothesis Hbatch : 0 <= Plan.batch_size p.

Lemma plan_buckets_sorted : StronglySorted Z.lt (0 :: plan_buckets p eager).
Proof using Hbatch.
  unfold plan_buckets. destruct (_ || _) eqn:Hz; [by repeat constructor|].
  apply orb_false_iff in Hz as [Hz%Z.eqb_neq _].
  destruct eager; [repeat constructor; lia|].
  destruct (draft_graph_batch_buckets_run (registry_batch_cap p false)) as (l & -> & Hl); [|done].
  unfold registry_batch_cap, MAX_CUDA_GRAPH_BATCH_SIZE. lia.
Qed.

Lemma elem_of_built fp e :
  e ∈ entries (built_registry p eager fp) ↔
  ∃ b k f, e = route_entry p eager fp b k f ∧
           route_reachable p 0 (plan_buckets p eager) b k f.
Proof using Hbatch.
  unfold built_registry. cbn [entries]. rewrite elem_of_sorted.
  apply elem_of_buckets_entries; [done|apply plan_buckets_sorted].
Qed.

Lemma entry_key_inj fp e e' :
  e ∈ entries (built_registry p eager fp) → e' ∈ entries (built_registry p eager fp) →
  entry_key e = entry_key e' → e = e'.
Proof using Hbatch.
  rewrite !elem_of_built. intros (b & k & f & -> & _) (b' & k' & f' & -> & _).
  by intros [= -> -> ->].
Qed.

Lemma NoDup_built_keys fp : NoDup (entry_key <$> entries (built_registry p eager fp)).
Proof using Hbatch.
  apply NoDup_fmap_2_strong; [intros e e'; apply entry_key_inj|].
  unfold built_registry. cbn [entries]. rewrite sorted_Permutation.
  apply NoDup_buckets_entries; [done|apply plan_buckets_sorted].
Qed.

(** Warming any declared components of a built registry gives a registry. *)
Lemma built_post_init fp warmed :
  warmed ⊆ desired_warm_components (built_registry p eager fp) →
  DraftRouteRegistry_post_init
    (mk_registry DRAFT_ROUTE_SCHEMA fp (entries (built_registry p eager fp)) warmed) = Ok tt.
Proof using Hbatch.
  intros Hw. unfold DraftRouteRegistry_post_init. cbn [reg_schema entries warmed_components].
  rewrite (bool_decide_eq_true_2 (_ = _)) by done. simpl.
  pose proof (NoDup_built_keys fp) as Hnd. unfold built_registry in Hnd. cbn [entries] in Hnd.
  rewrite (bool_decide_eq_true_2 (NoDup _)) by done. simpl.
  rewrite (bool_decide_eq_true_2 (_ = _)); simpl; [by rewrite bool_decide_eq_true_2|].
  rewrite sorted_fmap. symmetry. apply sorted_id, sorted_Sorted, key_leb_total.
Qed.

Lemma build_run sha256_hexdigest backend :
  backend ≠ ""%string →
  build_draft_route_registry sha256_hexdigest p eager backend =
    Ok (built_registry p eager
          (sha256_hexdigest (PTuple [PStr backend; plan_payload p]))).
Proof using Hbatch.
  intros Hb. unfold build_draft_route_registry, speculative_plan_fingerprint.
  rewrite bool_decide_eq_false_2 by done. simpl.
  set (fp := sha256_hexdigest _).
  pose proof (built_post_init fp ∅ ltac:(set_solver)) as Hpost.
  unfold new_registry. revert Hpost. unfold built_registry, plan_buckets. cbn [entries].
  destruct (_ || _) eqn:Hz.
  { intros Hp. change (sorted _ _) with (@nil DraftRouteEntry) in Hp |- *. by rewrite Hp. }
  apply orb_false_iff in Hz as [Hz%Z.eqb_neq _].
  destruct eager; [intros Hp; cbn [obind]; unfold registry_batch_cap; by rewrite Hp|].
  destruct (draft_graph_batch_buckets_run (registry_batch_cap p false)) as (l & -> & Hl);
    [unfold registry_batch_cap, MAX_CUDA_GRAPH_BATCH_SIZE; lia|].
  intros Hp. cbn [obind]. by rewrite Hp.
Qed.
End built.

(** ** Readiness and resolution *)

(** [k] can serve a live batch: ready, of its catch-up family, wide enough. *)
Definition serves (r : DraftRouteRegistry) (batch_size catchup : Z) (k : DraftRouteKey) : Prop :=
  k ∈ ready_keys r ∧ catchup_family k = catchup_family_of catchup ∧
  batch_size <= batch_bucket k.

Lemma elem_of_ready r k :
  (∀ e e', e ∈ entries r → e' ∈ entries r → entry_key e = entry_key e' → e = e') →
  k ∈ ready_keys r ↔ ∃ e, e ∈ entries r ∧ entry_key e = k ∧
    workspace_certified r e = true ∧ required_warm_components e ⊆ warmed_components r.
Proof.
  intros Hinj. unfold ready_keys, router_admitted_keys, workspace_certified_keys, warm_capture_keys.
  rewrite !elem_of_intersection, !elem_of_list_to_set, !list_elem_of_fmap.
  setoid_rewrite list_elem_of_filter. split.
  - intros [[_ (e & -> & Hc & He)] (e' & Hk & Hw & He')].
    exists e. split_and!; [done..|]. by rewrite (Hinj e e').
  - intros (e & He & <- & Hc & Hw). naive_solver.
Qed.

Lemma elem_of_candidates r b c k : k ∈ candidates r b c ↔ serves r b c k.
Proof.
  unfold candidates, serves. rewrite list_elem_of_filter. split; [tauto|].
  intros Hk. split; [done|]. destruct Hk as [Hk _]. revert Hk.
  unfold ready_keys, router_admitted_keys.
  rewrite !elem_of_intersection, elem_of_list_to_set. tauto.
Qed.

Section warmed.
Context (p : SpeculativeMemoryPlan) (eager : bool) (fp : string)
  (warmed : gset DraftWarmComponentKey).
Hypotheses (Hbatch : 0 <= Plan.batch_size p) (Hvocab : 0 <= Plan.vocab_size p)
  (Hfp : fp ≠ ""%string).

Let r := mk_registry DRAFT_ROUTE_SCHEMA fp (entries (built_registry p eager fp)) warmed.

Definition plan_key (b k : Z) (f : DraftCatchupFamily) : DraftRouteKey :=
  mk_route_key DRAFT_ROUTE_SCHEMA (exec_mode eager) b k f EXACT_WORST_CASE.

(** The certificate of a route of the plan holds. *)
Definition plan_certified (b k : Z) : Prop :=
  b * k * Plan.vocab_size p * FP32_BYTES + b * k * INT64_BYTES <= Plan.draft_phase_bytes p
  ∧ Plan.draft_phase_bytes p <= Plan.reservation_bytes p.

Lemma certified_iff b k f :
  0 <= b → 0 <= k →
  workspace_certified r (route_entry p eager fp b k f) = true ↔ plan_certified b k.
Proof using Hvocab.
  intros Hb Hk. unfold workspace_certified, plan_certified. cbn.
  rewrite !bool_decide_eq_true_2 by done. rewrite !Z.eqb_refl. simpl.
  assert (0 <= b * k * Plan.vocab_size p * FP32_BYTES)
    by (unfold FP32_BYTES; mono).
  rewrite !andb_true_iff, !Z.leb_le. tauto.
Qed.

Lemma ready_iff key :
  key ∈ ready_keys r ↔ ∃ b k f, key = plan_key b k f ∧
    route_reachable p 0 (plan_buckets p eager) b k f ∧ plan_certified b k ∧
    required_warm_components (route_entry p eager fp b k f) ⊆ warmed.
Proof using Hbatch Hvocab.
  rewrite elem_of_ready by exact (entry_key_inj p eager Hbatch fp).
  change (entries r) with (entries (built_registry p eager fp)).
  setoid_rewrite elem_of_built; [|done]. split.
  - intros (e & (b & k & f & -> & Hreach) & <- & Hc & Hw).
    exists b, k, f. split; [done|]. split; [done|]. split; [|done].
    destruct Hreach as (_ & Hk & b' & ? & _). apply certified_iff in Hc; [done|lia..].
  - intros (b & k & f & -> & Hreach & Hc & Hw).
    exists (route_entry p eager fp b k f). split; [eauto|]. split; [done|]. split; [|done].
    destruct Hreach as (_ & Hk & b' & ? & _). apply certified_iff; [lia..|done].
Qed.

(** Every smaller K of a ready key is ready, in the same bucket and family. *)
Lemma ready_downward b k k' f :
  plan_key b k f ∈ ready_keys r → 1 <= k' <= k → plan_key b k' f ∈ ready_keys r.
Proof using Hbatch Hvocab.
  rewrite !ready_iff. intros (b0 & k0 & f0 & [= <- <- <-] & Hr & Hc & Hw) Hk.
  exists b, k', f. split; [done|].
  destruct Hr as (Hb & Hk0 & b' & Hb' & Hsel & Hwork). split_and!.
  - split; [done|]. split; [lia|]. exists b'. split_and!; [lia|lia|done|].
    etrans; [|exact Hwork]. apply minimum_work_mono; lia.
  - destruct Hc as [Hc1 Hc2]. split; [|done]. etrans; [|exact Hc1].
    unfold FP32_BYTES, INT64_BYTES. mono.
  - exact Hw.
Qed.

Lemma ready_shape key : key ∈ ready_keys r →
  key = plan_key (batch_bucket key) (effective_k key) (catchup_family key)
  ∧ 1 <= effective_k key.
Proof using Hbatch Hvocab.
  rewrite ready_iff. intros (b & k & f & -> & (_ & ? & _) & _). split; [done|]. simpl. lia.
Qed.
End warmed.

(** ** Resolution *)

(** What [resolve] promises: the ready keys of the least bucket that can serve
    the live batch, one per K from 1 upwards. *)
Definition resolution (r : DraftRouteRegistry) (b c : Z) (o : option DraftRouteAdmission)
    : Prop :=
  match o with
  | None => b < 1 ∨ c < 0 ∨ ∀ k, ¬ serves r b c k
  | Some a =>
      1 <= b ∧ 0 <= c ∧ adm_batch_size a = b ∧ catchup_tokens a = c ∧
      adm_plan_fingerprint a = reg_plan_fingerprint r ∧ route_keys a ≠ [] ∧
      effective_k <$> route_keys a = py_range 1 (Z.of_nat (length (route_keys a)) + 1) ∧
      ∃ bucket,
        (∀ k, k ∈ route_keys a ↔ serves r b c k ∧ batch_bucket k = bucket) ∧
        ∀ k, serves r b c k → bucket <= batch_bucket k
  end.

(** Keys of one bucket and family, closed downwards in K, sort to a contiguous range. *)
Lemma sorted_keys_contiguous (l : list DraftRouteKey) :
  NoDup l →
  (∀ k1 k2, k1 ∈ l → k2 ∈ l → effective_k k1 = effective_k k2 → k1 = k2) →
  (∀ k, k ∈ l → 1 <= effective_k k ∧
    ∀ j, 1 <= j <= effective_k k → ∃ k', k' ∈ l ∧ effective_k k' = j) →
  contiguous_k (sorted (λ a b, effective_k a <=? effective_k b) l) = true.
Proof.
  intros Hnd Hinj Hdown. unfold contiguous_k. apply bool_decide_eq_true.
  rewrite (sorted_fmap effective_k Z.leb l).
  assert (length (sorted (λ a b, effective_k a <=? effective_k b) l)
          = length (sorted Z.leb (effective_k <$> l))) as ->.
  { by rewrite <-(sorted_fmap effective_k Z.leb l), length_fmap. }
  apply downward_closed_range.
  - apply Sorted_Zleb_lt; [|apply sorted_Sorted, Zleb_total].
    rewrite sorted_Permutation. by apply NoDup_fmap_2_strong.
  - intros x. rewrite elem_of_sorted, list_elem_of_fmap. intros (k & -> & Hk).
    destruct (Hdown k Hk) as [H1 Hd]. split; [done|]. intros y Hy.
    destruct (Hd y Hy) as (k' & Hk' & <-). rewrite elem_of_sorted. by apply list_elem_of_fmap_2.
Qed.

Lemma NoDup_candidates r b c :
  NoDup (entry_key <$> entries r) → NoDup (candidates r b c).
Proof. apply NoDup_filter. Qed.

(** [resolve] meets its promise on a registry whose ready keys are closed
    downwards in K and determined by bucket, K and family. *)
Lemma resolve_run r b c :
  reg_schema r = DRAFT_ROUTE_SCHEMA → reg_plan_fingerprint r ≠ ""%string →
  NoDup (entry_key <$> entries r) →
  (∀ k1 k2, k1 ∈ ready_keys r → k2 ∈ ready_keys r → batch_bucket k1 = batch_bucket k2 →
    effective_k k1 = effective_k k2 → catchup_family k1 = catchup_family k2 → k1 = k2) →
  (∀ k, k ∈ ready_keys r → 1 <= effective_k k ∧ ∀ j, 1 <= j <= effective_k k →
    ∃ k', k' ∈ ready_keys r ∧ batch_bucket k' = batch_bucket k ∧ effective_k k' = j ∧
          catchup_family k' = catchup_family k) →
  ∃ o, resolve r b c = Ok o ∧ resolution r b c o.
Proof.
  intros Hschema Hfp Hnd Hinj Hdown. unfold resolve.
  destruct ((b <? 1) || (c <? 0)) eqn:Hbc.
  { exists None. split; [done|]. unfold resolution. lia. }
  apply orb_false_iff in Hbc as [Hb%Z.ltb_ge Hc%Z.ltb_ge].
  pose proof (elem_of_candidates r b c) as Hcand.
  pose proof (NoDup_candidates r b c Hnd) as Hndc.
  destruct (candidates r b c) as [|k0 ks] eqn:Hcs.
  { exists None. split; [done|]. right; right. intros k Hk. apply Hcand in Hk. set_solver. }
  set (bucket := min_list1 _ _).
  pose proof (min_list1_spec (batch_bucket k0) (batch_bucket <$> ks)) as (Hmin0 & Hmin & Hmem).
  fold bucket in Hmin0, Hmin, Hmem.
  rewrite <-(fmap_cons batch_bucket k0 ks), list_elem_of_fmap in Hmem.
  destruct Hmem as (km & Hkm & Hkmin).
  set (l := filter (λ k, batch_bucket k = bucket) (k0 :: ks)).
  assert (∀ k, k ∈ l ↔ serves r b c k ∧ batch_bucket k = bucket) as Hl.
  { intros k. unfold l. rewrite list_elem_of_filter, Hcand. tauto. }
  assert (contiguous_k (sorted (λ a b, effective_k a <=? effective_k b) l) = true) as Hcont.
  { apply sorted_keys_contiguous; [by apply NoDup_filter| |].
    - intros k1 k2. rewrite !Hl. intros [(? & ? & ?) ?] [(? & ? & ?) ?] ?.
      apply Hinj; congruence.
    - intros k. rewrite Hl. intros [(Hr & Hf & Hw) Hbk].
      destruct (Hdown k Hr) as [H1 Hd]. split; [done|]. intros j Hj.
      destruct (Hd j Hj) as (k' & Hr' & Hb' & He & Hf'). exists k'.
      rewrite Hl. unfold serves. rewrite Hf', Hb'. by split_and!. }
  set (keys := sorted _ l) in *.
  assert (∀ k, k ∈ keys ↔ k ∈ l) as Hkeys by (intros; apply elem_of_sorted).
  rewrite Hcont. cbn [negb oraise_if obind]. rewrite Hschema.
  unfold DraftRouteAdmission_post_init.
  cbn [registry_schema adm_batch_size catchup_tokens adm_plan_fingerprint route_keys].
  rewrite (bool_decide_eq_true_2 (_ = _)), (bool_decide_eq_false_2 (_ = _)) by done.
  rewrite (proj2 (Z.ltb_ge _ _) Hb), (proj2 (Z.ltb_ge _ _) Hc), Hcont.
  eexists. split; [reflexivity|].
  cbn [resolution adm_batch_size catchup_tokens adm_plan_fingerprint route_keys].
  split_and!; [done..| |by apply bool_decide_eq_true in Hcont|].
  - intros Hnil. assert (km ∈ keys) as Hin; [|rewrite Hnil in Hin; set_solver].
    by rewrite Hkeys, Hl, <-Hcand.
  - exists bucket. split; [intros; by rewrite Hkeys, Hl|].
    intros k Hk%Hcand. apply elem_of_cons in Hk as [->|Hk]; [done|].
    apply Hmin. by apply list_elem_of_fmap_2.
Qed.
