(* ===== verification/RouteSpec.v ===== *)
(** * RouteSpec: correctness of capture buckets and the catch-up witness,
    of the registry construction and of run-time resolution *)
From stdpp Require Import sorting.
From S2P Require Import Prelude SpecMemory SpecRoutes RouteInv.

(** ** Capture buckets *)

Lemma elem_of_py_range_step b n x :
  0 < n → x ∈ py_range_step b (n + 1) 16 ↔ ∃ i, 0 <= i ∧ x = b + i * 16 ∧ x <= n.
Proof.
  intros Hn. unfold py_range_step. rewrite list_elem_of_fmap.
  setoid_rewrite elem_of_py_range. split.
  - intros (i & -> & Hi). exists i. split_and!; [lia|done|].
    pose proof (ceil_div_spec (n + 1 - b) 16 ltac:(lia)). unfold ceil_div, _ceil_div in *. lia.
  - intros (i & Hi & -> & Hx). exists i. split; [done|]. split; [done|].
    pose proof (ceil_div_spec (n + 1 - b) 16 ltac:(lia)). unfold ceil_div, _ceil_div in *. lia.
Qed.

Lemma elem_of_buckets cap l x :
  0 < cap → draft_graph_batch_buckets cap = Ok l →
  x ∈ l ↔ x = cap ∨ (x <= cap ∧ (x = 1 ∨ x = 2 ∨ x = 4 ∨ x = 8))
          ∨ ∃ i, 0 <= i ∧ x = 16 + i * 16 ∧ x <= cap.
Proof.
  unfold draft_graph_batch_buckets. intros Hc.
  rewrite (proj2 (Z.ltb_ge cap 0)), (proj2 (Z.eqb_neq cap 0)) by lia. simpl.
  intros [= <-]. rewrite (proj2 (sorted_int_set_spec _)).
  rewrite !elem_of_app, elem_of_py_range_step, list_elem_of_singleton, list_elem_of_filter by done.
  set_solver.
Qed.

Lemma bucket_covers cap l b :
  draft_graph_batch_buckets cap = Ok l → 1 <= b <= cap →
  ∃ c, c ∈ l ∧ b <= c <= cap ∧ c < 2 * b ∧ c < b + 16.
Proof.
  intros Hl Hb. setoid_rewrite (elem_of_buckets cap l); [|lia|done].
  destruct (decide (b <= 8)).
  - set (c := if decide (b <= 1) then 1 else if decide (b <= 2) then 2
              else if decide (b <= 4) then 4 else 8).
    assert ((c = 1 ∨ c = 2 ∨ c = 4 ∨ c = 8) ∧ b <= c < 2 * b ∧ c < b + 16) as (? & ? & ?)
      by (unfold c; repeat case_decide; lia).
    destruct (decide (c <= cap)); [exists c|exists cap]; split_and!; auto; lia.
  - pose proof (ceil_div_spec b 16 ltac:(lia)) as Hc. set (q := ceil_div b 16) in *.
    destruct (decide (q * 16 <= cap)); [exists (q * 16)|exists cap];
      (split; [|lia]); [|by left].
    right; right. exists (q - 1). lia.
Qed.

(** The CUDA-graph capture buckets of a batch cap are strictly increasing
    batch sizes between 1 and the cap, the cap itself among them, and every
    live batch up to the cap has a bucket that covers it while padding it by
    fewer than 16 rows and less than twofold; a negative cap is refused. *)
Theorem draft_graph_batch_buckets_spec cap :
  (cap < 0 → draft_graph_batch_buckets cap
             = Raise (ValueError "batch_cap must be non-negative")) ∧
  (0 <= cap → ∃ l, draft_graph_batch_buckets cap = Ok l ∧ StronglySorted Z.lt l ∧
    (∀ c, c ∈ l → 1 <= c <= cap) ∧ (0 < cap → cap ∈ l) ∧
    ∀ b, 1 <= b <= cap → ∃ c, c ∈ l ∧ b <= c <= cap ∧ c < 2 * b ∧ c < b + 16).
Proof.
  split; intros Hc.
  { unfold draft_graph_batch_buckets. by rewrite (proj2 (Z.ltb_lt cap 0)). }
  destruct (decide (cap = 0)) as [->|Hne].
  { exists []. split_and!; [done|constructor|set_solver|lia|lia]. }
  destruct (draft_graph_batch_buckets cap) as [l|e] eqn:Hl; revert Hl.
  2: { unfold draft_graph_batch_buckets.
       by rewrite (proj2 (Z.ltb_ge cap 0)), (proj2 (Z.eqb_neq cap 0)) by lia. }
  intros Hl. exists l. split; [done|]. split_and!.
  - revert Hl. unfold draft_graph_batch_buckets.
    rewrite (proj2 (Z.ltb_ge cap 0)), (proj2 (Z.eqb_neq cap 0)) by lia.
    intros [= <-]. apply sorted_int_set_spec.
  - intros c. rewrite (elem_of_buckets cap l) by (done || lia). intros; naive_solver lia.
  - intros _. rewrite (elem_of_buckets cap l) by (done || lia). by left.
  - intros b. by apply bucket_covers.
Qed.

(** ** The catch-up witness *)

(** Catch-up tokens a live batch can need: the token budget the cycle leaves and
    the cache gap its rows can have. *)
Definition eligible_catchup (N L b : Z) : Z :=
  Z.min (N - 2 * b) (b * Z.max (L - 2) 0).

Lemma catchup_step_eq N L best b :
  catchup_step N (Z.max (L - 2) 0) best b
  = if best.1 <? Z.max (eligible_catchup N L b) 0
    then (Z.max (eligible_catchup N L b) 0, b) else best.
Proof. done. Qed.

(** The running best is attained and bounds every visited candidate. *)
Lemma catchup_fold_spec N L l best :
  0 <= best.1 →
  let r := foldl (catchup_step N (Z.max (L - 2) 0)) best l in
  best.1 <= r.1 ∧ (∀ b, b ∈ l → eligible_catchup N L b <= r.1) ∧
  (r = best ∨ r.2 ∈ l ∧ 0 < r.1 ∧ r.1 = eligible_catchup N L r.2).
Proof.
  revert best. induction l as [|b l IH]; intros best H0; simpl.
  { split_and!; [lia|set_solver|by left]. }
  rewrite catchup_step_eq.
  set (best' := if _ : bool then _ else _).
  assert (best.1 <= best'.1 ∧ eligible_catchup N L b <= best'.1 ∧
    (best' = best ∨ best' = (eligible_catchup N L b, b) ∧ 0 < best'.1)) as (Hb1 & Hb2 & Hb3).
  { unfold best'. destruct (Z.ltb_spec best.1 (Z.max (eligible_catchup N L b) 0)); simpl.
    - split_and!; [lia|lia|right]. split; [f_equal; lia|lia].
    - split_and!; [lia|lia|by left]. }
  destruct (IH best' ltac:(lia)) as (Hr1 & Hr2 & Hr3). split_and!.
  - lia.
  - intros b' [->|Hb']%elem_of_cons; [lia|auto].
  - destruct Hr3 as [->|(? & ? & ?)]; [|right; set_solver].
    destruct Hb3 as [->|[-> ?]]; [by left|right]. simpl in *. set_solver.
Qed.

(** The four candidate batch sizes dominate every other: the eligible catch-up
    grows with the batch up to the crossover [N / L] and shrinks after it. *)
Lemma catchup_candidates_dominate N L C b :
  0 <= N → 0 < L → 1 <= b <= C → 0 < eligible_catchup N L b →
  ∃ c, c ∈ catchup_candidates N L C ∧ eligible_catchup N L b <= eligible_catchup N L c.
Proof.
  intros HN HL Hb Hpos. unfold eligible_catchup in *.
  set (m := Z.max (L - 2) 0) in *.
  assert (m = L - 2 ∧ 2 < L) as [Hm HL2] by (unfold m in *; nia).
  pose proof (Z.div_mod N L ltac:(lia)) as Hdiv.
  pose proof (Z.mod_pos_bound N L HL) as Hmod.
  set (q := N `div` L) in *. set (r := N `mod` L) in *.
  assert (0 <= q) by (apply Z.div_pos; lia).
  set (u := q + (if 0 <? r then 1 else 0)).
  assert (N <= u * L ∧ q <= u <= q + 1) as [Hu Huq]
    by (unfold u; destruct (Z.ltb_spec 0 r); nia).
  assert (∀ c, c ∈ catchup_candidates N L C ↔
    c = 1 ∨ c = C ∨ c = Z.min (Z.max q 1) C ∨ c = Z.min (Z.max u 1) C) as Hin.
  { intros c. unfold catchup_candidates. rewrite (proj2 (sorted_int_set_spec _)).
    unfold u, q, r. set_solver. }
  setoid_rewrite Hin. clear Hin. rewrite Hm in *.
  destruct (decide (b <= q)).
  - exists (Z.min (Z.max q 1) C). split; [by auto|].
    destruct (decide (q <= C)).
    + replace (Z.min (Z.max q 1) C) with q by lia. nia.
    + replace (Z.min (Z.max q 1) C) with C by lia. nia.
  - exists (Z.min (Z.max u 1) C). split; [by auto|].
    replace (Z.min (Z.max u 1) C) with (Z.max u 1) by lia.
    assert (N <= Z.max u 1 * L) by nia. nia.
Qed.

(** [max_eligible_draft_catchup] agrees with an exhaustive search: its first
    component bounds the eligible catch-up of every batch size up to the cap,
    and unless it is zero the witness batch it names lies within the cap and
    attains it. *)
Theorem max_eligible_draft_catchup_spec N L C :
  0 <= N → 0 <= L → 0 <= C →
  ∃ m b, max_eligible_draft_catchup N L C = Ok (m, b) ∧ 0 <= m ∧
    (∀ b', 1 <= b' <= C → eligible_catchup N L b' <= m) ∧
    (0 < m → 1 <= b <= C ∧ m = eligible_catchup N L b).
Proof.
  intros HN HL HC. unfold max_eligible_draft_catchup.
  rewrite !(proj2 (Z.ltb_ge _ _)) by lia. simpl.
  destruct ((C =? 0) || (L =? 0)) eqn:Hz.
  { exists 0, 0. split_and!; [done|lia| |lia]. intros b' Hb'.
    assert (L = 0) as -> by lia. unfold eligible_catchup. lia. }
  assert (0 < C ∧ 0 < L) as [HC' HL'] by lia. clear Hz.
  pose proof (catchup_fold_spec N L (catchup_candidates N L C) (0, 0) ltac:(simpl; lia))
    as (H0 & Hall & Hatt).
  set (r := foldl _ _ _) in *. exists r.1, r.2. simpl in H0.
  split_and!; [by destruct r|lia| |].
  - intros b' Hb'. destruct (decide (0 < eligible_catchup N L b')); [|lia].
    destruct (catchup_candidates_dominate N L C b') as (c & Hc & Hle); [lia..|].
    specialize (Hall c Hc). lia.
  - intros Hpos. destruct Hatt as [Hr|(Hr & _ & ?)]; [rewrite Hr in Hpos; simpl in Hpos; lia|].
    split; [|done]. revert Hr. unfold catchup_candidates.
    rewrite (proj2 (sorted_int_set_spec _)).
    assert (0 <= N `div` L) by (apply Z.div_pos; lia).
    rewrite !elem_of_cons. intros [->|[->|[->|[->|[]%elem_of_nil]]]]; destruct (0 <? N `mod` L); lia.
Qed.

(** ** The registry *)

(** Building the registry of a plan always succeeds (an unnamed numerical
    backend is refused): it is unwarmed, carries the digest of the plan, its
    keys are distinct and sorted, and a key is registered exactly when some live
    batch selects its bucket (the least bucket that covers it) and the least
    cycle of that batch with the key's K and catch-up fits the token budget and
    the model length. *)
Theorem build_draft_route_registry_spec sha256_hexdigest p eager backend :
  0 <= Plan.batch_size p →
  if bool_decide (backend = ""%string)
  then build_draft_route_registry sha256_hexdigest p eager backend
         = Raise (ValueError "numerical_backend must be a non-empty string")
  else ∃ r, build_draft_route_registry sha256_hexdigest p eager backend = Ok r ∧
    reg_plan_fingerprint r = sha256_hexdigest (PTuple [PStr backend; plan_payload p]) ∧
    warmed_components r = ∅ ∧
    NoDup (entry_key <$> entries r) ∧ Sorted key_leb (entry_key <$> entries r) ∧
    ∀ key, key ∈ entry_key <$> entries r ↔
      ∃ b k f, key = mk_route_key DRAFT_ROUTE_SCHEMA (exec_mode eager) b k f EXACT_WORST_CASE
        ∧ route_reachable p 0 (plan_buckets p eager) b k f.
Proof.
  intros Hb. case_bool_decide as Hbe.
  { subst backend. reflexivity. }
  set (fp := sha256_hexdigest (PTuple [PStr backend; plan_payload p])).
  exists (built_registry p eager fp). split; [by apply build_run|].
  do 2 (split; [done|]). split; [by apply NoDup_built_keys|]. split.
  - unfold built_registry. cbn [entries]. rewrite sorted_fmap. apply sorted_Sorted, key_leb_total.
  - intros key. rewrite list_elem_of_fmap. setoid_rewrite elem_of_built; [|done]. split.
    + intros (e & -> & b & k & f & -> & Hr). by exists b, k, f.
    + intros (b & k & f & -> & Hr). exists (route_entry p eager fp b k f).
      split; [done|by exists b, k, f].
Qed.

(** Warming keeps everything but the warmed set. *)
Lemma with_warmed_components_ok r comps r' :
  with_warmed_components r comps = Ok r' →
  r' = mk_registry (reg_schema r) (reg_plan_fingerprint r) (entries r) (list_to_set comps) ∧
  list_to_set comps ⊆ desired_warm_components r.
Proof.
  unfold with_warmed_components. intros [Hw H]%obind_unit_ok.
  apply obind_unit_ok in H as [_ [= <-]].
  by apply oraise_if_ok, negb_false_iff, bool_decide_eq_true in Hw.
Qed.

Section resolve.
Variable sha256_hexdigest : payload → string.
(** A SHA-256 hexadecimal digest has 64 characters. *)
Hypothesis sha256_nonempty : ∀ v, sha256_hexdigest v ≠ ""%string.

(** Resolution on a warmed registry of a plan. *)
Lemma resolve_built_run p eager backend r comps r' b c :
  0 <= Plan.batch_size p → 0 <= Plan.vocab_size p →
  build_draft_route_registry sha256_hexdigest p eager backend = Ok r →
  with_warmed_components r comps = Ok r' →
  ∃ o, resolve r' b c = Ok o ∧ resolution r' b c o.
Proof using sha256_nonempty.
  intros Hb HV Hbuild [-> _]%with_warmed_components_ok.
  destruct (decide (backend = ""%string)) as [->|Hbe]; [done|].
  rewrite build_run in Hbuild by done. injection Hbuild as <-.
  set (fp := sha256_hexdigest _). cbn [reg_schema reg_plan_fingerprint].
  apply resolve_run.
  - done.
  - apply sha256_nonempty.
  - by apply NoDup_built_keys.
  - intros k1 k2 H1 H2.
    apply ready_shape in H1 as [-> _], H2 as [-> _]; [|done..].
    simpl. by intros -> -> ->.
  - intros k Hk. pose proof (ready_shape p eager fp _ Hb HV k Hk) as [Hks H1].
    split; [done|]. intros j Hj. rewrite Hks in Hk.
    exists (plan_key eager (batch_bucket k) j (catchup_family k)).
    split_and!; [by eapply ready_downward|done..].
Qed.
(** C36: on a registry built from a plan, with any declared components warmed,
    resolution never fails.  It answers [None] exactly when no ready key can
    serve the live batch; otherwise the admission holds precisely the ready
    keys of the least bucket that can serve it, one per K from 1 upwards, so
    that every smaller K of an admitted K is admitted. *)
Theorem resolve_built_registry p eager backend r comps r' b c :
  0 <= Plan.batch_size p → 0 <= Plan.vocab_size p →
  build_draft_route_registry sha256_hexdigest p eager backend = Ok r →
  with_warmed_components r comps = Ok r' →
  ∃ o, resolve r' b c = Ok o ∧ resolution r' b c o.
Proof using sha256_nonempty. apply resolve_built_run. Qed.
End resolve.

(** The ready keys of a warmed registry are routes of the plan. *)
Lemma built_ready_key sha256_hexdigest p eager backend r comps r' key :
  0 <= Plan.batch_size p → 0 <= Plan.vocab_size p →
  build_draft_route_registry sha256_hexdigest p eager backend = Ok r →
  with_warmed_components r comps = Ok r' → key ∈ ready_keys r' →
  ∃ b k f, key = plan_key eager b k f ∧ route_reachable p 0 (plan_buckets p eager) b k f.
Proof.
  intros Hb HV Hbuild [-> _]%with_warmed_components_ok.
  destruct (decide (backend = ""%string)) as [->|Hbe]; [done|].
  rewrite build_run in Hbuild by done. injection Hbuild as <-.
  intros (b & k & f & -> & Hr & _)%ready_iff; [|done..]. by exists b, k, f.
Qed.

(** ** Registries of planned workspaces *)

Lemma plan_buckets_le p eager b :
  0 <= Plan.batch_size p → b ∈ plan_buckets p eager → 1 <= b <= Plan.batch_size p.
Proof.
  intros HB. unfold plan_buckets. destruct (_ || _) eqn:Hz; [set_solver|].
  apply orb_false_iff in Hz as [Hz%Z.eqb_neq _]. destruct eager.
  { intros ->%list_elem_of_singleton. lia. }
  destruct (draft_graph_batch_buckets _) as [l|] eqn:Hl; [|set_solver].
  rewrite (elem_of_buckets (registry_batch_cap p false) l) by
    (done || (unfold registry_batch_cap, MAX_CUDA_GRAPH_BATCH_SIZE; lia)).
  unfold registry_batch_cap, MAX_CUDA_GRAPH_BATCH_SIZE. naive_solver lia.
Qed.

(** The byte model of the planner covers every route of its registry. *)
Lemma planner_certified V K S M L T D p b k :
  plan_speculative_workspace V K S M L T D = Ok p → 0 <= itemsize T → 0 <= itemsize D →
  1 <= b <= Plan.batch_size p → 1 <= k <= Plan.max_effective_k p → plan_certified p b k.
Proof.
  intros [Hargs ->]%plan_speculative_workspace_ok HT HD.
  set (k0 := planner_k K M L). cbv zeta. destruct (k0 =? 0) eqn:Ek.
  { cbn [Plan.batch_size empty_workspace_plan]. lia. }
  destruct Hargs as (? & ? & ? & ? & ? & _ & _).
  set (B := Z.min S (M `div` (k0 + 1))). unfold plan_certified.
  cbn [Plan.batch_size Plan.max_effective_k Plan.vocab_size Plan.draft_phase_bytes
    Plan.reservation_bytes workspace_plan].
  intros Hb Hk. split.
  - etrans; [|apply Z.le_max_r].
    unfold Workspace.draft_race_phase_bytes, Workspace.draft_probability_bytes,
      Workspace.draft_logits_bytes, Workspace.draft_sampling_workspace_bytes,
      Workspace.metadata_bytes, _categorical_race_workspace_bytes, _metadata_bytes,
      Workspace.verifier_rows, Workspace.draft_rows, FP32_BYTES, FP64_BYTES, INT64_BYTES, BOOL_BYTES.
    assert (b * k * V <= B * k0 * V) by mono.
    assert (b * k <= B * k0) by mono.
    assert (0 <= B * V * itemsize D) by mono.
    assert (0 <= B * V) by mono. assert (0 <= B * (k0 + 1)) by mono. lia.
  - unfold Workspace.reservation_bytes, Workspace.allocator_margin_bytes.
    pose proof (allocator_margin_spec (Workspace.modeled_live_peak_bytes B k0 V (itemsize T)
      (itemsize D))) as (? & _ & _).
    unfold Workspace.modeled_live_peak_bytes in *. unfold ALLOCATOR_MARGIN_MIN_BYTES in *. lia.
Qed.

(** The registry of a planner's plan can be made fully ready: every
    registered route's workspace certificate fits the planned draft phase, so
    after warming the declared components the ready keys are all the registered
    keys, and before it a key is ready exactly when its own components are warm. *)
Theorem planner_registry_ready sha256_hexdigest V K S M L T D p eager backend r :
  plan_speculative_workspace V K S M L T D = Ok p → 0 <= itemsize T → 0 <= itemsize D →
  build_draft_route_registry sha256_hexdigest p eager backend = Ok r →
  (∃ r', with_warmed_components r (elements (desired_warm_components r)) = Ok r' ∧
    ready_keys r' = router_admitted_keys r) ∧
  ∀ comps r', with_warmed_components r comps = Ok r' →
    ∀ e, e ∈ entries r → entry_key e ∈ ready_keys r' ↔
      required_warm_components e ⊆ list_to_set comps.
Proof.
  intros Hplan HT HD Hbuild.
  assert (0 <= Plan.batch_size p ∧ 0 <= Plan.vocab_size p) as [HB HV].
  { apply plan_speculative_workspace_ok in Hplan as [(? & ? & ? & ? & ? & _) ->].
    unfold planner_k. cbv zeta. case_match eqn:Ek; simpl; [lia|].
    split; [apply Z.min_glb; [lia|apply Z.div_pos; lia]|lia]. }
  destruct (decide (backend = ""%string)) as [->|Hbe]; [done|].
  rewrite build_run in Hbuild by done. injection Hbuild as <-.
  set (fp := sha256_hexdigest _).
  assert (∀ b k f, route_reachable p 0 (plan_buckets p eager) b k f → plan_certified p b k) as Hcert.
  { intros b k f (Hb & Hk & _). eapply planner_certified; [done..| |].
    - by eapply plan_buckets_le.
    - unfold route_k_cap, MAX_DRAFT_ROUTE_EFFECTIVE_K in Hk. lia. }
  assert (∀ w e, e ∈ entries (built_registry p eager fp) →
    entry_key e ∈ ready_keys (mk_registry DRAFT_ROUTE_SCHEMA fp
      (entries (built_registry p eager fp)) w) ↔ required_warm_components e ⊆ w) as Hready.
  { intros w e. rewrite elem_of_built by done. intros (b & k & f & -> & Hr).
    rewrite ready_iff by done. split.
    - intros (b' & k' & f' & [= <- <- <-] & _ & _ & Hw). exact Hw.
    - intros Hw. exists b, k, f. split_and!; [done|done|by eapply Hcert|done]. }
  split.
  - eexists. unfold with_warmed_components. rewrite list_to_set_elements_L.
    rewrite bool_decide_eq_true_2 by done. cbn [negb oraise_if obind].
    rewrite (built_post_init p eager HB fp) by done. split; [done|].
    apply set_eq. intros key. split.
    { unfold ready_keys. rewrite !elem_of_intersection. intros [[Hk _] _]. exact Hk. }
    unfold router_admitted_keys at 1. rewrite elem_of_list_to_set, list_elem_of_fmap.
    intros (e & -> & He). apply Hready; [done|].
    unfold desired_warm_components. intros x Hx. apply elem_of_union_list.
    exists (required_warm_components e). split; [by apply list_elem_of_fmap_2|done].
  - intros comps r' [-> _]%with_warmed_components_ok e He. by apply Hready.
Qed.
