(* ===== verification/SpecPlan.v ===== *)
(** * SpecPlan: speculative step plans and their workspace certificates

    Models src/nanovllm/engine/speculative_plan.py: the row snapshots, the
    validated plan and certificate records (a constructor runs the source's
    [__post_init__]), the derivation of one K per batch, the exact workspace of
    a route, and the plan builder.  The record fields are those of the source;
    tests on Python types are decided by the Rocq types. *)
From Stdlib Require Import Ascii.
From S2P Require Import Prelude SpecMemory SpecRoutes.

Definition SPECULATIVE_STEP_PLAN_SCHEMA : string := "speculative-step-v1".

Definition _strict_int (name : string) (minimum value : Z) : outcome Z :=
  oraise_if (value <? minimum)
    (ValueError (name +:+ " must be " +:+
       (if minimum =? 1 then "positive" else "non-negative"))) ;?
  Ok value.

Definition _optional_position (name : string) (value : option Z) : outcome (option Z) :=
  match value with
  | None => Ok None
  | Some v => let? v := _strict_int name 0 v in Ok (Some v)
  end.

Definition _primitive_route_payload (k : option DraftRouteKey) : payload :=
  match k with
  | None => PNone
  | Some k =>
      PTuple [ PStr (schema k); PStr (mode_value (execution_mode k));
               PInt (batch_bucket k); PInt (effective_k k);
               PStr (family_value (catchup_family k));
               PStr (envelope_value (sampler_envelope k)) ]
  end.

Definition _validate_route_key (k : DraftRouteKey) : outcome unit :=
  oraise_if (negb (bool_decide (schema k = DRAFT_ROUTE_SCHEMA)))
    (ValueError "route_key uses an unsupported schema") ;?
  _strict_int "route_key.batch_bucket" 1 (batch_bucket k) ;?
  _strict_int "route_key.effective_k" 1 (effective_k k) ;?
  Ok tt.

(** ** Hexadecimal digests *)

(** [int(s, 16)] succeeds: blanks, a sign, an optional [0x], then hexadecimal
    digits with single underscores between them. *)
Definition is_hex_digit (c : ascii) : bool :=
  let n := Ascii.nat_of_ascii c in
  ((48 <=? n) && (n <=? 57) || (65 <=? n) && (n <=? 70) || (97 <=? n) && (n <=? 102))%nat.

Definition is_blank (c : ascii) : bool :=
  let n := Ascii.nat_of_ascii c in ((9 <=? n) && (n <=? 13) || (n =? 32))%nat.

Fixpoint drop_blanks (l : list ascii) : list ascii :=
  match l with
  | c :: l' => if is_blank c then drop_blanks l' else l
  | [] => []
  end.

(** A digit, then digits each preceded by at most one underscore. *)
Fixpoint hex_digits (l : list ascii) : bool :=
  match l with
  | [] => true
  | c :: l' =>
      if (c =? "_")%char then
        match l' with d :: l'' => is_hex_digit d && hex_digits l'' | [] => false end
      else is_hex_digit c && hex_digits l'
  end.

Definition hex_body (l : list ascii) : bool :=
  match l with c :: l' => is_hex_digit c && hex_digits l' | [] => false end.

Definition parses_as_hex (s : string) : bool :=
  let l := drop_blanks (reverse (drop_blanks (reverse (String.list_ascii_of_string s)))) in
  let l := match l with
           | c :: l' => if (c =? "+")%char || (c =? "-")%char then l' else l
           | [] => []
           end in
  match l with
  | z :: x :: rest =>
      if (z =? "0")%char && ((x =? "x")%char || (x =? "X")%char)
      then match rest with
           | u :: rest' => if (u =? "_")%char then hex_body rest' else hex_body rest
           | [] => false
           end
      else hex_body l
  | _ => hex_body l
  end.

Definition check_digest (s : string) : outcome unit :=
  oraise_if (negb (String.length s =? 64)%nat)
    (ValueError "workspace_fingerprint must be a SHA-256 hex digest") ;?
  oraise_if (negb (parses_as_hex s))
    (ValueError "workspace_fingerprint must be a SHA-256 hex digest").

(** ** Rows *)

Record SpecPlanRow := mk_plan_row {
  row_seq_id : nat;
  committed_tokens : Z;
  target_cached_tokens : Z;
  draft_cached_tokens : Z;
  remaining_completion_tokens : Z;
  model_position_headroom : Z;
  highest_draft_write_position : option Z;
  highest_target_write_position : option Z;
  row_block_table : list nat;
}.

Definition SpecPlanRow_post_init (r : SpecPlanRow) : outcome unit :=
  _strict_int "committed_tokens" 1 (committed_tokens r) ;?
  _strict_int "target_cached_tokens" 0 (target_cached_tokens r) ;?
  _strict_int "draft_cached_tokens" 0 (draft_cached_tokens r) ;?
  _strict_int "remaining_completion_tokens" 0 (remaining_completion_tokens r) ;?
  _strict_int "model_position_headroom" 0 (model_position_headroom r) ;?
  _optional_position "highest_draft_write_position" (highest_draft_write_position r) ;?
  _optional_position "highest_target_write_position" (highest_target_write_position r) ;?
  oraise_if (committed_tokens r <? target_cached_tokens r)
    (ValueError "target cache coverage exceeds committed tokens") ;?
  oraise_if (target_cached_tokens r <? draft_cached_tokens r)
    (ValueError "draft cache coverage exceeds target cache coverage").

(** The dataclass constructor. *)
Definition new_row (r : SpecPlanRow) : outcome SpecPlanRow :=
  SpecPlanRow_post_init r ;? Ok r.

(** [replace(row, highest_draft_write_position=d, highest_target_write_position=t)]. *)
Definition set_write_positions (d t : option Z) (r : SpecPlanRow) : SpecPlanRow :=
  mk_plan_row (row_seq_id r) (committed_tokens r) (target_cached_tokens r)
    (draft_cached_tokens r) (remaining_completion_tokens r) (model_position_headroom r)
    d t (row_block_table r).

Definition set_row_block_table (l : list nat) (r : SpecPlanRow) : SpecPlanRow :=
  mk_plan_row (row_seq_id r) (committed_tokens r) (target_cached_tokens r)
    (draft_cached_tokens r) (remaining_completion_tokens r) (model_position_headroom r)
    (highest_draft_write_position r) (highest_target_write_position r) l.

(** ** Certificates *)

Record SpeculativeWorkspaceCertificate := mk_workspace_certificate {
  live_batch_size : Z;
  workspace_batch_size : Z;
  cert_effective_k : Z;
  cert_draft_catchup_tokens : Z;
  cert_modeled_live_peak_bytes : Z;
  cert_reservation_bytes : Z;
  cert_workspace_fingerprint : string;
  cert_gpu_certified : bool;
}.

Definition certificate_post_init (c : SpeculativeWorkspaceCertificate) : outcome unit :=
  _strict_int "live_batch_size" 0 (live_batch_size c) ;?
  _strict_int "workspace_batch_size" 0 (workspace_batch_size c) ;?
  _strict_int "effective_k" 0 (cert_effective_k c) ;?
  _strict_int "draft_catchup_tokens" 0 (cert_draft_catchup_tokens c) ;?
  _strict_int "modeled_live_peak_bytes" 0 (cert_modeled_live_peak_bytes c) ;?
  _strict_int "reservation_bytes" 0 (cert_reservation_bytes c) ;?
  check_digest (cert_workspace_fingerprint c) ;?
  oraise_if (cert_gpu_certified c)
    (ValueError "V4 modeled certificates cannot be GPU-certified") ;?
  if cert_effective_k c =? 0 then
    oraise_if (negb (workspace_batch_size c =? 0))
      (ValueError "fallback certificates have no workspace batch") ;?
    oraise_if (negb (cert_draft_catchup_tokens c =? 0))
      (ValueError "fallback certificates contain no draft catch-up") ;?
    oraise_if (negb (cert_modeled_live_peak_bytes c =? 0)
               || negb (cert_reservation_bytes c =? 0))
      (ValueError "fallback certificates contain no workspace bytes")
  else
    oraise_if (live_batch_size c <? 1)
      (ValueError "positive certificates require a live batch") ;?
    oraise_if (workspace_batch_size c <? live_batch_size c)
      (ValueError "workspace batch does not cover the live batch") ;?
    oraise_if (cert_modeled_live_peak_bytes c <? 1)
      (ValueError "positive certificates require a modeled peak") ;?
    oraise_if (cert_reservation_bytes c <? cert_modeled_live_peak_bytes c)
      (ValueError "reservation is smaller than the modeled peak").

Definition new_certificate (c : SpeculativeWorkspaceCertificate)
    : outcome SpeculativeWorkspaceCertificate :=
  certificate_post_init c ;? Ok c.

(** ** Step plans *)

Record SpecStepPlan := mk_step_plan {
  cycle_id : nat;
  rows : list SpecPlanRow;
  configured_k : Z;
  workspace_route_cap : Z;
  plan_effective_k : Z;
  route_key : option DraftRouteKey;
  plan_draft_catchup_tokens : Z;
  draft_query_tokens : Z;
  target_query_tokens : Z;
  total_model_positions : Z;
  plan_modeled_live_peak_bytes : Z;
  plan_reservation_bytes : Z;
  workspace_fingerprint : string;
  gpu_certified : bool;
  bypass_reason : option string;
}.

Definition draft_catchup_tokens (rows : list SpecPlanRow) : Z :=
  foldr (λ r n, target_cached_tokens r - draft_cached_tokens r + n) 0 rows.

(** The checks of every plan. *)
Definition check_plan_fields (p : SpecStepPlan) : outcome unit :=
  oraise_if (negb (bool_decide (NoDup (row_seq_id <$> rows p))))
    (ValueError "speculative plan rows must have unique sequence IDs") ;?
  _strict_int "configured_k" 0 (configured_k p) ;?
  _strict_int "workspace_route_cap" 0 (workspace_route_cap p) ;?
  _strict_int "effective_k" 0 (plan_effective_k p) ;?
  _strict_int "draft_catchup_tokens" 0 (plan_draft_catchup_tokens p) ;?
  _strict_int "draft_query_tokens" 0 (draft_query_tokens p) ;?
  _strict_int "target_query_tokens" 0 (target_query_tokens p) ;?
  _strict_int "total_model_positions" 0 (total_model_positions p) ;?
  _strict_int "modeled_live_peak_bytes" 0 (plan_modeled_live_peak_bytes p) ;?
  _strict_int "reservation_bytes" 0 (plan_reservation_bytes p) ;?
  check_digest (workspace_fingerprint p) ;?
  oraise_if (gpu_certified p) (ValueError "V4 modeled plans cannot be GPU-certified") ;?
  oraise_if (Z.min (configured_k p) (workspace_route_cap p) <? plan_effective_k p)
    (ValueError "effective_k exceeds configured/workspace route cap").

(** The checks of a fallback plan ([effective_k == 0]). *)
Definition check_fallback_plan (p : SpecStepPlan) : outcome unit :=
  let batch_size := Z.of_nat (length (rows p)) in
  oraise_if (bool_decide (is_Some (route_key p)))
    (ValueError "fallback plans cannot carry a route key") ;?
  oraise_if (bool_decide (default ""%string (bypass_reason p) = ""%string))
    (ValueError "fallback plans require a bypass reason") ;?
  oraise_if (negb (plan_draft_catchup_tokens p =? 0) || negb (draft_query_tokens p =? 0))
    (ValueError "fallback plans cannot contain draft work") ;?
  oraise_if (negb (target_query_tokens p =? batch_size))
    (ValueError "fallback target work must equal batch size") ;?
  oraise_if (negb (total_model_positions p =? batch_size))
    (ValueError "fallback total work must equal batch size") ;?
  oraise_if (negb (plan_modeled_live_peak_bytes p =? 0)
             || negb (plan_reservation_bytes p =? 0))
    (ValueError "fallback plans cannot reserve speculative bytes") ;?
  oraise_if (existsb (λ r, bool_decide (is_Some (highest_draft_write_position r))
                           || bool_decide (is_Some (highest_target_write_position r)))
               (rows p))
    (ValueError "fallback plans cannot name speculative writes").

Definition check_positive_row (k : Z) (r : SpecPlanRow) : outcome unit :=
  SpecPlanRow_post_init r ;?
  oraise_if (negb (target_cached_tokens r =? committed_tokens r - 1))
    (ValueError "positive plans require pure decode cache coverage") ;?
  oraise_if (remaining_completion_tokens r <=? k)
    (ValueError "proposal and bonus exceed request headroom") ;?
  oraise_if (model_position_headroom r <? k)
    (ValueError "target verification exceeds model headroom") ;?
  oraise_if
    (negb (bool_decide (highest_draft_write_position r = Some (committed_tokens r + k - 2)))
     || negb (bool_decide (highest_target_write_position r = Some (committed_tokens r + k - 1))))
    (ValueError "speculative write positions do not match plan geometry").

(** The checks of a speculative plan. *)
Definition check_positive_plan (p : SpecStepPlan) : outcome unit :=
  let batch_size := Z.of_nat (length (rows p)) in
  let k := plan_effective_k p in
  oraise_if (bool_decide (rows p = [])) (ValueError "positive speculative plans require rows") ;?
  oraise_if (bool_decide (is_Some (bypass_reason p)))
    (ValueError "positive speculative plans cannot have a bypass reason") ;?
  match route_key p with
  | None => Raise (ValueError "positive speculative plans require a route key")
  | Some key =>
      _validate_route_key key ;?
      oraise_if (negb (effective_k key =? k))
        (ValueError "route K does not match plan effective_k") ;?
      oraise_if (batch_bucket key <? batch_size)
        (ValueError "route batch bucket is smaller than the live batch")
  end ;?
  ofor_each (check_positive_row k) (rows p) ;?
  oraise_if (negb (plan_draft_catchup_tokens p =? draft_catchup_tokens (rows p)))
    (ValueError "draft catch-up count does not match row coverage") ;?
  oraise_if (negb (draft_query_tokens p =? batch_size * k))
    (ValueError "draft query count does not match B*K") ;?
  oraise_if (negb (target_query_tokens p =? batch_size * (k + 1)))
    (ValueError "target query count does not match B*(K+1)") ;?
  let expected_total :=
    plan_draft_catchup_tokens p + draft_query_tokens p + target_query_tokens p in
  oraise_if (negb (total_model_positions p =? expected_total))
    (ValueError "total model-position count is inconsistent") ;?
  oraise_if (plan_modeled_live_peak_bytes p <=? 0)
    (ValueError "positive plans require a modeled live peak") ;?
  oraise_if (plan_reservation_bytes p <? plan_modeled_live_peak_bytes p)
    (ValueError "workspace reservation is smaller than its live peak").

Definition SpecStepPlan_post_init (p : SpecStepPlan) : outcome unit :=
  check_plan_fields p ;?
  if plan_effective_k p =? 0 then check_fallback_plan p else check_positive_plan p.

Definition new_plan (p : SpecStepPlan) : outcome SpecStepPlan :=
  SpecStepPlan_post_init p ;? Ok p.

Definition uses_speculation (p : SpecStepPlan) : bool := 0 <? plan_effective_k p.
Definition uses_draft (p : SpecStepPlan) : bool := uses_speculation p.
Definition draft_step_token_counts (p : SpecStepPlan) : list Z :=
  replicate (Z.to_nat (plan_effective_k p)) (Z.of_nat (length (rows p))).
Definition shadow_target_query_tokens (p : SpecStepPlan) : Z := Z.of_nat (length (rows p)).
Definition total_scheduled_tokens (p : SpecStepPlan) : Z :=
  if negb (uses_speculation p) then Z.of_nat (length (rows p)) else
  plan_draft_catchup_tokens p + draft_query_tokens p + shadow_target_query_tokens p.

(** ** One K per batch *)

Definition speculative_k_budget (max_num_batched_tokens batch_size draft_catchup : Z)
    : outcome Z :=
  let? max_num_batched_tokens := _strict_int "max_num_batched_tokens" 0 max_num_batched_tokens in
  let? batch_size := _strict_int "batch_size" 0 batch_size in
  let? draft_catchup := _strict_int "draft_catchup_tokens" 0 draft_catchup in
  if batch_size =? 0 then Ok 0 else
  Ok (Z.max ((max_num_batched_tokens - draft_catchup - batch_size) `div` (2 * batch_size)) 0).

Definition min_over (f : SpecPlanRow → Z) (r0 : SpecPlanRow) (rs : list SpecPlanRow) : Z :=
  min_list1 (f r0) (f <$> rs).

Definition derive_speculative_effective_k (rows : list SpecPlanRow)
    (configured_k max_num_batched_tokens workspace_route_cap : Z) : outcome Z :=
  let? configured_k := _strict_int "configured_k" 0 configured_k in
  let? max_num_batched_tokens := _strict_int "max_num_batched_tokens" 0 max_num_batched_tokens in
  let? workspace_route_cap := _strict_int "workspace_route_cap" 0 workspace_route_cap in
  match rows with
  | [] => Ok 0
  | r0 :: rs =>
      let batch_size := Z.of_nat (length rows) in
      let catchup := draft_catchup_tokens rows in
      let completion_cap := min_over (λ r, Z.max (remaining_completion_tokens r - 1) 0) r0 rs in
      let model_position_cap := min_over (λ r, Z.max (model_position_headroom r) 0) r0 rs in
      let verifier_cap := Z.max (max_num_batched_tokens `div` batch_size - 1) 0 in
      let? aggregate_cap := speculative_k_budget max_num_batched_tokens batch_size catchup in
      Ok (Z.min (Z.min (Z.min (Z.min (Z.min configured_k completion_cap) model_position_cap)
            verifier_cap) aggregate_cap) workspace_route_cap)
  end.

(** ** Exact workspaces *)

(** The floating dtypes of torch the code names; [float8_e4m3fn] may be absent. *)
Record torch_dtypes := mk_torch_dtypes {
  float8_e4m3fn : option dtype;
  float16 : dtype;
  float32 : dtype;
  float64 : dtype;
}.

(** Their documented properties. *)
Record torch_dtypes_ok (t : torch_dtypes) : Prop := {
  f8_ok : ∀ d, float8_e4m3fn t = Some d → d = mk_dtype true 1;
  f16_ok : float16 t = mk_dtype true 2;
  f32_ok : float32 t = mk_dtype true 4;
  f64_ok : float64 t = mk_dtype true 8;
}.

Section workspace.
Variable torch : torch_dtypes.
Variable sha256_hexdigest : payload → string.

Definition _canonical_dtype_for_itemsize (name : string) (size : Z) : outcome dtype :=
  _strict_int name 1 size ;?
  match filter (λ d, itemsize d = size)
          (option_list (float8_e4m3fn torch)
           ++ [float16 torch; float32 torch; float64 torch]) with
  | d :: _ => Ok d
  | [] => Raise (SpeculativeMemoryPlanningError
                   (name +:+ " has no supported canonical floating dtype"))
  end.

Definition plan_exact_speculative_workspace (configured_plan : SpeculativeMemoryPlan)
    (batch_size k : Z) : outcome SpeculativeMemoryPlan :=
  let? batch_size := _strict_int "batch_size" 1 batch_size in
  let? k := _strict_int "effective_k" 1 k in
  let? fits := speculative_route_fits_plan configured_plan batch_size k in
  oraise_if (negb fits)
    (SpeculativeMemoryPlanningError
       "route geometry exceeds the configured speculative workspace") ;?
  let? target := _canonical_dtype_for_itemsize "target_logits_itemsize"
                   (Plan.target_logits_itemsize configured_plan) in
  let? draft := _canonical_dtype_for_itemsize "draft_logits_itemsize"
                  (Plan.draft_logits_itemsize configured_plan) in
  let? exact := plan_speculative_workspace (Plan.vocab_size configured_plan) k batch_size
                  (batch_size * (k + 1)) (k + 1) target draft in
  oraise_if (negb (Plan.batch_size exact =? batch_size)
             || negb (Plan.max_effective_k exact =? k))
    (RuntimeError "exact workspace planner changed requested geometry") ;?
  oraise_if (Plan.reservation_bytes configured_plan <? Plan.reservation_bytes exact)
    (SpeculativeMemoryPlanningError
       "exact route reservation exceeds the configured reservation") ;?
  Ok exact.

Definition speculative_workspace_fingerprint (exact : option SpeculativeMemoryPlan)
    (live_batch draft_catchup : Z) (key : option DraftRouteKey) : outcome string :=
  let? live_batch := _strict_int "live_batch_size" 0 live_batch in
  let? draft_catchup := _strict_int "draft_catchup_tokens" 0 draft_catchup in
  let? pl :=
    match exact with
    | None =>
        oraise_if (bool_decide (is_Some key))
          (ValueError "a fallback fingerprint cannot carry a route key") ;?
        oraise_if (negb (draft_catchup =? 0))
          (ValueError "a fallback fingerprint cannot contain draft catch-up") ;?
        Ok (PTuple [ PStr SPECULATIVE_STEP_PLAN_SCHEMA; PStr "ordinary_decode_fallback";
                     PInt live_batch; PInt draft_catchup ])
    | Some w =>
        match key with
        | None => Raise (ValueError "a positive workspace fingerprint requires a route")
        | Some k =>
            _validate_route_key k ;?
            oraise_if (negb (effective_k k =? Plan.max_effective_k w))
              (ValueError "route K does not match exact workspace geometry") ;?
            oraise_if (negb (batch_bucket k =? Plan.batch_size w))
              (ValueError "route batch bucket does not match workspace geometry") ;?
            oraise_if (negb ((1 <=? live_batch) && (live_batch <=? Plan.batch_size w)))
              (ValueError "live batch does not fit the workspace geometry") ;?
            Ok (PTuple [ PStr SPECULATIVE_STEP_PLAN_SCHEMA;
                         PStr "modeled_not_gpu_certified"; PInt live_batch;
                         PInt draft_catchup; _primitive_route_payload (Some k);
                         plan_payload w ])
        end
    end in
  Ok (sha256_hexdigest pl).

Definition certify_speculative_workspace (configured : SpeculativeMemoryPlan)
    (live_batch draft_catchup k : Z) (key : option DraftRouteKey)
    : outcome SpeculativeWorkspaceCertificate :=
  let? live_batch := _strict_int "live_batch_size" 0 live_batch in
  let? draft_catchup := _strict_int "draft_catchup_tokens" 0 draft_catchup in
  let? k := _strict_int "effective_k" 0 k in
  if k =? 0 then
    oraise_if (bool_decide (is_Some key))
      (ValueError "fallback certificates cannot carry a route key") ;?
    oraise_if (negb (draft_catchup =? 0))
      (ValueError "fallback certificates cannot contain draft catch-up") ;?
    let? fp := speculative_workspace_fingerprint None live_batch 0 None in
    new_certificate (mk_workspace_certificate live_batch 0 0 0 0 0 fp false)
  else
    oraise_if (live_batch =? 0) (ValueError "positive certificates require a live batch") ;?
    match key with
    | None => Raise (ValueError "positive certificates require a route key")
    | Some key =>
        _validate_route_key key ;?
        oraise_if (negb (effective_k key =? k))
          (ValueError "route K does not match effective_k") ;?
        oraise_if (batch_bucket key <? live_batch)
          (ValueError "route batch bucket is smaller than the live batch") ;?
        oraise_if (negb (bool_decide (catchup_family key = catchup_family_of draft_catchup)))
          (ValueError "route catch-up family does not match cycle geometry") ;?
        let? exact := plan_exact_speculative_workspace configured (batch_bucket key) k in
        let? fp := speculative_workspace_fingerprint (Some exact) live_batch draft_catchup
                     (Some key) in
        new_certificate (mk_workspace_certificate live_batch (batch_bucket key) k
          draft_catchup (Plan.modeled_live_peak_bytes exact)
          (Plan.reservation_bytes exact) fp false)
    end.

(** ** The builder *)

Definition replace_write_positions (d t : SpecPlanRow → option Z)
    (rows : list SpecPlanRow) : outcome (list SpecPlanRow) :=
  omap_all (λ r, new_row (set_write_positions (d r) (t r) r)) rows.

Definition fallback_plan (cycle : nat) (rows : list SpecPlanRow)
    (configured cap : Z) (reason : option string) : outcome SpecStepPlan :=
  let batch_size := Z.of_nat (length rows) in
  let? planned := replace_write_positions (λ _, None) (λ _, None) rows in
  let? fp := speculative_workspace_fingerprint None batch_size 0 None in
  new_plan (mk_step_plan cycle planned configured cap 0 None 0 0 batch_size batch_size
              0 0 fp false reason).

(** Token and headroom limits of a positive plan. *)
Definition check_geometry (rows : list SpecPlanRow) (k max_num_batched_tokens : Z)
    : outcome unit :=
  let batch_size := Z.of_nat (length rows) in
  let target_queries := batch_size * (k + 1) in
  let total_positions := draft_catchup_tokens rows + batch_size * k + target_queries in
  oraise_if (max_num_batched_tokens <? target_queries)
    (SpeculativeMemoryPlanningError "target verifier rows exceed max_num_batched_tokens") ;?
  oraise_if (max_num_batched_tokens <? total_positions)
    (SpeculativeMemoryPlanningError
       "aggregate speculative work exceeds max_num_batched_tokens") ;?
  ofor_each (λ r,
    oraise_if (remaining_completion_tokens r <? k + 1)
      (SpeculativeMemoryPlanningError "sequence lacks K+1 completion headroom") ;?
    oraise_if (model_position_headroom r <? k)
      (SpeculativeMemoryPlanningError "sequence lacks target position headroom")) rows.

Definition positive_plan (cycle : nat) (rows : list SpecPlanRow) (configured cap k : Z)
    (workspace : SpeculativeMemoryPlan) (key : DraftRouteKey) : outcome SpecStepPlan :=
  let batch_size := Z.of_nat (length rows) in
  let catchup := draft_catchup_tokens rows in
  let draft_queries := batch_size * k in
  let target_queries := batch_size * (k + 1) in
  let total_positions := catchup + draft_queries + target_queries in
  let? certificate :=
    certify_speculative_workspace workspace batch_size catchup k (Some key) in
  let? planned := replace_write_positions
    (λ r, Some (committed_tokens r + k - 2)) (λ r, Some (committed_tokens r + k - 1)) rows in
  new_plan (mk_step_plan cycle planned configured cap k (Some key) catchup draft_queries
    target_queries total_positions (cert_modeled_live_peak_bytes certificate)
    (cert_reservation_bytes certificate) (cert_workspace_fingerprint certificate)
    false None).

Definition build_speculative_step_plan (cycle : nat) (rows : list SpecPlanRow)
    (configured cap k max_num_batched_tokens : Z) (workspace : SpeculativeMemoryPlan)
    (key : option DraftRouteKey) (reason : option string) : outcome SpecStepPlan :=
  oraise_if (negb (bool_decide (NoDup (row_seq_id <$> rows))))
    (ValueError "speculative plan rows must have unique sequence IDs") ;?
  let? k := _strict_int "effective_k" 0 k in
  let? configured := _strict_int "configured_k" 0 configured in
  let? cap := _strict_int "workspace_route_cap" 0 cap in
  let? max_num_batched_tokens :=
    _strict_int "max_num_batched_tokens" 0 max_num_batched_tokens in
  oraise_if (Plan.max_effective_k workspace <? cap)
    (SpeculativeMemoryPlanningError
       "workspace route cap exceeds the configured reservation") ;?
  oraise_if (Z.min configured cap <? k)
    (SpeculativeMemoryPlanningError "effective_k exceeds configured/workspace route cap") ;?
  if k =? 0 then
    oraise_if (bool_decide (is_Some key))
      (ValueError "fallback plans cannot carry a route key") ;?
    fallback_plan cycle rows configured cap reason
  else
    oraise_if (bool_decide (rows = []))
      (ValueError "positive speculative plans require rows") ;?
    match key with
    | None => Raise (ValueError "positive speculative plans require a route key")
    | Some key =>
        _validate_route_key key ;?
        oraise_if (negb (effective_k key =? k))
          (ValueError "route K does not match effective_k") ;?
        oraise_if (batch_bucket key <? Z.of_nat (length rows))
          (ValueError "route batch bucket is smaller than the live batch") ;?
        oraise_if (bool_decide (is_Some reason))
          (ValueError "positive speculative plans cannot have a bypass reason") ;?
        check_geometry rows k max_num_batched_tokens ;?
        positive_plan cycle rows configured cap k workspace key
    end.
End workspace.
