(* ===== verification/PlanSpec.v ===== *)
(** * PlanSpec: one K per batch, and the plans built for it

    [derive_speculative_effective_k] is an optimum; [new_plan] accepts exactly
    consistent geometry; and on legal inputs the builder never fails: it returns
    a plan whose work fits the token budget and whose reservation fits the
    configured workspace. *)
From S2P Require Import Prelude SpecMemory SpecRoutes RouteInv RouteSpec SpecPlan.

Lemma _strict_int_ok name m v r : _strict_int name m v = Ok r ↔ m <= v ∧ r = v.
Proof. unfold _strict_int. rewrite obind_unit_ok, oraise_if_ok, Z.ltb_ge. naive_solver. Qed.

Lemma _strict_int_run name m v : m <= v → _strict_int name m v = Ok v.
Proof. intros. by apply _strict_int_ok. Qed.

Lemma _strict_int_unit {B} name m v (k : outcome B) : m <= v → (_strict_int name m v ;? k) = k.
Proof. intros. by rewrite _strict_int_run. Qed.

(** ** Rows *)

Record row_ok (r : SpecPlanRow) : Prop := {
  ro_committed : 1 <= committed_tokens r;
  ro_draft : 0 <= draft_cached_tokens r <= target_cached_tokens r;
  ro_target : target_cached_tokens r <= committed_tokens r;
  ro_remaining : 0 <= remaining_completion_tokens r;
  ro_headroom : 0 <= model_position_headroom r;
  ro_draft_write : ∀ p, highest_draft_write_position r = Some p → 0 <= p;
  ro_target_write : ∀ p, highest_target_write_position r = Some p → 0 <= p;
}.

Lemma _optional_position_ok name v :
  is_ok (_optional_position name v) = true ↔ ∀ p, v = Some p → 0 <= p.
Proof.
  destruct v as [p|]; simpl; [|done]. unfold _strict_int.
  destruct (Z.ltb_spec p 0); simpl; (split; [try done|]).
  - intros H'. specialize (H' p eq_refl). lia.
  - intros _ q [= <-]. done.
  - done.
Qed.

Lemma obind_unit_is_ok {A} (m : outcome A) (k : outcome unit) :
  (m ;? k) = Ok tt ↔ is_ok m = true ∧ k = Ok tt.
Proof. destruct m; simpl; naive_solver. Qed.

Lemma _strict_int_is_ok name m v : is_ok (_strict_int name m v) = true ↔ m <= v.
Proof. unfold _strict_int. destruct (Z.ltb_spec v m); simpl; split; (done || lia). Qed.

Lemma row_post_init_ok r : SpecPlanRow_post_init r = Ok tt ↔ row_ok r.
Proof.
  unfold SpecPlanRow_post_init.
  rewrite !obind_unit_is_ok, !_strict_int_is_ok, !_optional_position_ok, oraise_if_ok, Z.ltb_ge.
  destruct (Z.ltb_spec (committed_tokens r) (target_cached_tokens r)); simpl;
    (split; [intros; destruct_and?; try done; split; (done || lia)|intros []; split_and!; (done || lia)]).
Qed.

Lemma new_row_ok r : row_ok r → new_row r = Ok r.
Proof. intros Hr. unfold new_row. by rewrite (proj2 (row_post_init_ok r) Hr). Qed.

Lemma draft_catchup_nonneg rs : Forall row_ok rs → 0 <= draft_catchup_tokens rs.
Proof.
  unfold draft_catchup_tokens. induction 1 as [|r rs Hr _ IH]; simpl; [lia|].
  destruct Hr. lia.
Qed.

(** ** The optimal K *)

(** [k] proposals per row fit every limit of the cycle: the configured and
    certified caps, each row's completion and position headroom (a bonus token
    included), and the token budget for catch-up, drafting and verification. *)
Definition k_feasible (rs : list SpecPlanRow) (configured budget cap k : Z) : Prop :=
  k <= configured ∧ k <= cap ∧
  (∀ r, r ∈ rs → k + 1 <= remaining_completion_tokens r ∧ k <= model_position_headroom r) ∧
  let batch := Z.of_nat (length rs) in
  draft_catchup_tokens rs + batch * k + batch * (k + 1) <= budget.

Lemma min_over_le f r0 rs k : k <= min_over f r0 rs ↔ ∀ r, r ∈ r0 :: rs → k <= f r.
Proof.
  unfold min_over. destruct (min_list1_spec (f r0) (f <$> rs)) as (H0 & Hall & Hin). split.
  - intros Hk r [->|Hr]%elem_of_cons; [lia|].
    specialize (Hall (f r) (list_elem_of_fmap_2 _ _ _ Hr)). lia.
  - intros Hk. rewrite <-(fmap_cons f r0 rs), list_elem_of_fmap in Hin.
    destruct Hin as (r & -> & Hr). by apply Hk.
Qed.

Lemma min_over_nonneg f r0 rs : (∀ r, 0 <= f r) → 0 <= min_over f r0 rs.
Proof. intros Hf. apply min_over_le. auto. Qed.

Lemma budget_le n c b k :
  0 < b → 0 < k → k <= Z.max ((n - c - b) `div` (2 * b)) 0 ↔ c + b * k + b * (k + 1) <= n.
Proof.
  intros Hb Hk. split.
  - intros H. assert (k <= (n - c - b) `div` (2 * b)) as H' by lia.
    apply mul_le_div in H'; lia.
  - intros H. assert (k <= (n - c - b) `div` (2 * b)); [|lia]. apply mul_le_div; lia.
Qed.

Lemma derive_run rs configured budget cap :
  0 <= configured → 0 <= budget → 0 <= cap → rs ≠ [] → Forall row_ok rs →
  ∃ k, derive_speculative_effective_k rs configured budget cap = Ok k ∧ 0 <= k ∧
    (0 < k → k_feasible rs configured budget cap k) ∧
    ∀ k', 0 < k' → k_feasible rs configured budget cap k' → k' <= k.
Proof.
  intros Hc Hb Hcap Hne Hrs. destruct rs as [|r0 rs]; [done|].
  pose proof (draft_catchup_nonneg _ Hrs) as Hcat.
  unfold derive_speculative_effective_k. rewrite !_strict_int_run by done. cbn [obind].
  set (batch := Z.of_nat (length (r0 :: rs))). assert (0 < batch) by (unfold batch; simpl; lia).
  set (catchup := draft_catchup_tokens (r0 :: rs)) in *.
  unfold speculative_k_budget. rewrite !_strict_int_run by lia. cbn [obind].
  rewrite (proj2 (Z.eqb_neq batch 0)) by lia. cbn [obind].
  set (comp := min_over _ r0 rs). set (model := min_over _ r0 rs).
  set (ver := Z.max (budget `div` batch - 1) 0). set (agg := Z.max (_ `div` _) 0).
  set (k := Z.min _ _). exists k. split; [done|].
  assert (∀ j, 0 < j → j <= comp ↔ ∀ r, r ∈ r0 :: rs → j + 1 <= remaining_completion_tokens r) as Hcomp.
  { intros j Hj. unfold comp. rewrite min_over_le. split; intros Hr r Hin; specialize (Hr r Hin); lia. }
  assert (∀ j, 0 < j → j <= model ↔ ∀ r, r ∈ r0 :: rs → j <= model_position_headroom r) as Hmodel.
  { intros j Hj. unfold model. rewrite min_over_le. split; intros Hr r Hin; specialize (Hr r Hin); lia. }
  assert (∀ j, 0 < j → j <= agg ↔ catchup + batch * j + batch * (j + 1) <= budget) as Hagg.
  { intros j Hj. by apply budget_le. }
  assert (∀ j, 0 < j → j <= agg → j <= ver) as Hver.
  { intros j Hj Hja. apply Hagg in Hja; [|done]. unfold ver.
    assert (j + 1 <= budget `div` batch) by (apply mul_le_div; nia). lia. }
  assert (0 <= comp) by (apply min_over_nonneg; lia).
  assert (0 <= model) by (apply min_over_nonneg; lia).
  assert (0 <= k) by (unfold k, ver, agg; lia).
  split; [done|]. split.
  - intros Hk. unfold k_feasible. fold batch catchup.
    assert (k <= comp ∧ k <= model ∧ k <= agg ∧ k <= configured ∧ k <= cap) as (Hk1 & Hk2 & Hk3 & ? & ?)
      by (unfold k; lia).
    rewrite (Hcomp k Hk) in Hk1. rewrite (Hmodel k Hk) in Hk2. rewrite (Hagg k Hk) in Hk3.
    split_and!; [done|done|intros r Hr; split; auto|done].
  - intros j Hj (? & ? & Hj3 & Hj4). fold batch catchup in Hj4.
    assert (j <= agg) as Ha by by apply Hagg. pose proof (Hver j Hj Ha).
    assert (j <= comp) by (apply Hcomp; [done|]; intros r Hr; by apply Hj3).
    assert (j <= model) by (apply Hmodel; [done|]; intros r Hr; by apply Hj3).
    unfold k. lia.
Qed.

(** The K of a cycle is optimal: on valid rows the derivation returns the
    largest number of proposals that fits the configured K, the certified cap,
    every row's completion and position headroom and the token budget for
    catch-up, drafting and verification together; 0 when none fits. *)
Theorem derive_effective_k_optimal rs configured budget cap :
  0 <= configured → 0 <= budget → 0 <= cap → Forall row_ok rs →
  ∃ k, derive_speculative_effective_k rs configured budget cap = Ok k ∧ 0 <= k ∧
    (0 < k → rs ≠ [] ∧ k_feasible rs configured budget cap k) ∧
    ∀ k', 0 < k' → rs ≠ [] → k_feasible rs configured budget cap k' → k' <= k.
Proof.
  intros Hc Hb Hcap Hrs. destruct (decide (rs = [])) as [->|Hne].
  - exists 0. unfold derive_speculative_effective_k.
    rewrite !_strict_int_run by done. split_and!; [done|lia|lia|done].
  - destruct (derive_run rs configured budget cap Hc Hb Hcap Hne Hrs) as (k & E & H0 & Hf & Hmax).
    exists k. split_and!; auto.
Qed.

(** ** Exact workspaces *)

(** The planner only looks at the item sizes of its dtypes. *)
Lemma plan_same_itemsizes V K S M L T D T' D' p :
  plan_speculative_workspace V K S M L T D = Ok p →
  is_floating_point T' = true → is_floating_point D' = true →
  itemsize T' = itemsize T → itemsize D' = itemsize D →
  plan_speculative_workspace V K S M L T' D' = Ok p.
Proof.
  intros [Hargs ->]%plan_speculative_workspace_ok HT HD ET ED.
  apply plan_speculative_workspace_ok. rewrite ET, ED. split; [|done].
  destruct Hargs as (? & ? & ? & ? & ? & _). by split_and!.
Qed.

Lemma planned_fields V K S M L T D p :
  plan_speculative_workspace V K S M L T D = Ok p →
  Plan.vocab_size p = V ∧ Plan.target_logits_itemsize p = itemsize T ∧
  Plan.draft_logits_itemsize p = itemsize D ∧ 0 <= Plan.batch_size p ∧
  0 <= Plan.max_effective_k p.
Proof.
  intros [(? & ? & ? & ? & ? & _) ->]%plan_speculative_workspace_ok. unfold planner_k.
  cbv zeta. set (k := Z.min _ _). assert (0 <= k) by lia.
  destruct (k =? 0); simpl; split_and!; try done; try lia.
  apply Z.min_glb; [lia|apply Z.div_pos; lia].
Qed.

Section builder.
Variable torch : torch_dtypes.
Variable sha256_hexdigest : payload → string.
Hypothesis torch_ok : torch_dtypes_ok torch.
(** A SHA-256 digest is 64 hexadecimal digits. *)
Hypothesis digest_ok : ∀ v, check_digest (sha256_hexdigest v) = Ok tt.

(** The item sizes torch has a floating dtype for. *)
Definition supported_itemsize (size : Z) : Prop :=
  size = 2 ∨ size = 4 ∨ size = 8 ∨ (size = 1 ∧ is_Some (float8_e4m3fn torch)).

Lemma canonical_dtype_ok name size :
  supported_itemsize size →
  ∃ d, _canonical_dtype_for_itemsize torch name size = Ok d ∧
       is_floating_point d = true ∧ itemsize d = size.
Proof using torch_ok.
  intros Hs. destruct torch_ok as [H8 H16 H32 H64].
  unfold _canonical_dtype_for_itemsize. rewrite H16, H32, H64.
  rewrite _strict_int_unit by (unfold supported_itemsize in Hs; lia).
  destruct Hs as [->|[->|[->|[-> [d Hd]]]]].
  4: { rewrite Hd, (H8 d Hd). by eexists. }
  all: destruct (float8_e4m3fn torch) as [d|] eqn:Hd; [rewrite (H8 d eq_refl)|];
    eexists; (split; [reflexivity|done]).
Qed.

(** A workspace of the planner whose logits have supported dtypes. *)
Definition planned_workspace (ws : SpeculativeMemoryPlan) : Prop :=
  ∃ V K S M L T D, plan_speculative_workspace V K S M L T D = Ok ws ∧
    supported_itemsize (itemsize T) ∧ supported_itemsize (itemsize D).

Lemma plan_exact_run ws b k :
  planned_workspace ws → 1 <= b <= Plan.batch_size ws → 1 <= k <= Plan.max_effective_k ws →
  ∃ exact, plan_exact_speculative_workspace torch ws b k = Ok exact ∧
    Plan.batch_size exact = b ∧ Plan.max_effective_k exact = k ∧
    0 < Plan.modeled_live_peak_bytes exact <= Plan.reservation_bytes exact ∧
    Plan.reservation_bytes exact <= Plan.reservation_bytes ws.
Proof using torch_ok.
  intros (V & K & S & M & L & T & D & Hp & HT & HD) Hb Hk.
  destruct (planned_fields _ _ _ _ _ _ _ _ Hp) as (EV & ET & ED & _).
  destruct (canonical_dtype_ok "target_logits_itemsize" _ HT) as (T' & HT' & FT & IT).
  destruct (canonical_dtype_ok "draft_logits_itemsize" _ HD) as (D' & HD' & FD & ID).
  pose proof (plan_same_itemsizes _ _ _ _ _ _ _ _ _ _ Hp FT FD IT ID) as Hp'.
  assert (0 <= itemsize T' ∧ 0 <= itemsize D') as [? ?]
    by (unfold supported_itemsize in *; lia).
  destruct (exact_route_plan _ _ _ _ _ _ _ _ b k Hp') as (q & Hq & Eb & Ek & Hpk & Hres);
    [done..|].
  exists q. split; [|done]. unfold plan_exact_speculative_workspace.
  rewrite !_strict_int_run by lia. cbn [obind].
  rewrite (route_fits_iff _ _ _ _ _ _ _ _ b k Hp) by lia.
  rewrite bool_decide_eq_true_2 by done. cbn [obind negb oraise_if].
  rewrite ET, HT', ED, HD', EV. cbn [obind]. rewrite Hq. cbn [obind].
  rewrite Eb, Ek, !Z.eqb_refl. cbn [negb orb oraise_if obind].
  by rewrite (proj2 (Z.ltb_ge _ _)) by done.
Qed.

Record key_fits (ws : SpeculativeMemoryPlan) (batch catchup k : Z) (key : DraftRouteKey)
    : Prop := {
  kf_schema : schema key = DRAFT_ROUTE_SCHEMA;
  kf_k : effective_k key = k;
  kf_bucket : batch <= batch_bucket key <= Plan.batch_size ws;
  kf_family : catchup_family key = catchup_family_of catchup;
}.

Lemma validate_route_key_ok ws batch catchup k key :
  key_fits ws batch catchup k key → 1 <= batch → 1 <= k → _validate_route_key key = Ok tt.
Proof.
  intros [Es Ek ? ?] Hb Hk. unfold _validate_route_key.
  rewrite Es, bool_decide_eq_true_2 by done. cbn [negb oraise_if obind].
  by rewrite !_strict_int_unit by lia.
Qed.

Lemma certify_run ws batch catchup k key :
  planned_workspace ws → 1 <= batch → 0 <= catchup → 1 <= k <= Plan.max_effective_k ws →
  key_fits ws batch catchup k key →
  ∃ c, certify_speculative_workspace torch sha256_hexdigest ws batch catchup k (Some key) = Ok c ∧
    0 < cert_modeled_live_peak_bytes c <= cert_reservation_bytes c ∧
    cert_reservation_bytes c <= Plan.reservation_bytes ws ∧
    check_digest (cert_workspace_fingerprint c) = Ok tt.
Proof using torch_ok digest_ok.
  intros Hws Hb Hc Hk Hkey. pose proof (validate_route_key_ok _ _ _ _ _ Hkey Hb ltac:(lia)) as Hv.
  destruct Hkey as [_ Ekk Hbk Hf].
  destruct (plan_exact_run ws (batch_bucket key) k Hws ltac:(lia) Hk)
    as (q & Hq & Eb & Ek & Hpk & Hres).
  unfold certify_speculative_workspace. rewrite !_strict_int_run by lia. cbn [obind].
  rewrite (proj2 (Z.eqb_neq k 0)), (proj2 (Z.eqb_neq batch 0)) by lia. cbn [oraise_if obind].
  rewrite Hv, Ekk, Z.eqb_refl. cbn [negb oraise_if obind].
  rewrite (proj2 (Z.ltb_ge _ _)) by lia. cbn [oraise_if obind].
  rewrite bool_decide_eq_true_2 by done. cbn [negb oraise_if obind].
  rewrite Hq. cbn [obind].
  unfold speculative_workspace_fingerprint. rewrite !_strict_int_run by lia. cbn [obind].
  rewrite Hv, Ekk, Ek, Eb, !Z.eqb_refl. cbn [negb oraise_if obind].
  rewrite !(proj2 (Z.leb_le _ _)) by lia. cbn [negb andb oraise_if obind].
  eexists. split.
  - unfold new_certificate, certificate_post_init.
    cbn [live_batch_size workspace_batch_size cert_effective_k cert_draft_catchup_tokens
      cert_modeled_live_peak_bytes cert_reservation_bytes cert_workspace_fingerprint
      cert_gpu_certified].
    rewrite !_strict_int_unit by lia. rewrite digest_ok. cbn [oraise_if obind].
    rewrite (proj2 (Z.eqb_neq k 0)) by lia.
    by rewrite !(proj2 (Z.ltb_ge _ _)) by lia.
  - cbn. split_and!; try lia. apply digest_ok.
Qed.

(** ** Building a plan *)

(** Inputs of a positive cycle: valid, distinct rows with pure decode coverage,
    a feasible K, and a route of the workspace that covers the batch. *)
Record cycle_ok (ws : SpeculativeMemoryPlan) (rs : list SpecPlanRow)
    (configured cap k budget : Z) (key : DraftRouteKey) : Prop := {
  cy_plan : planned_workspace ws;
  cy_rows : rs ≠ [] ∧ NoDup (row_seq_id <$> rs) ∧ Forall row_ok rs;
  cy_decode : ∀ r, r ∈ rs → target_cached_tokens r = committed_tokens r - 1;
  cy_k : 0 < k ∧ k_feasible rs configured budget cap k;
  cy_cap : cap <= Plan.max_effective_k ws;
  cy_key : key_fits ws (Z.of_nat (length rs)) (draft_catchup_tokens rs) k key;
}.

(** The row of the plan: the highest positions a full burst writes. *)
Definition planned_row (k : Z) (r : SpecPlanRow) : SpecPlanRow :=
  set_write_positions (Some (committed_tokens r + k - 2)) (Some (committed_tokens r + k - 1)) r.

Lemma planned_row_ok k r : 0 < k → row_ok r → row_ok (planned_row k r).
Proof. intros Hk []. split; simpl; try done; intros p [= <-]; lia. Qed.

Lemma ofor_each_all {A} (f : A → outcome unit) l :
  (∀ x, x ∈ l → f x = Ok tt) → ofor_each f l = Ok tt.
Proof. intros Hf. by apply ofor_each_ok, Forall_forall. Qed.

Lemma replace_rows_run k rs :
  0 < k → Forall row_ok rs →
  replace_write_positions (λ r, Some (committed_tokens r + k - 2))
    (λ r, Some (committed_tokens r + k - 1)) rs = Ok (planned_row k <$> rs).
Proof.
  intros Hk Hrs. apply omap_all_eq. intros r Hr. rewrite Forall_forall in Hrs.
  apply new_row_ok. by apply (planned_row_ok k r Hk), Hrs.
Qed.

Lemma planned_rows_catchup k rs :
  draft_catchup_tokens (planned_row k <$> rs) = draft_catchup_tokens rs.
Proof.
  unfold draft_catchup_tokens. induction rs as [|r rs IH]; [done|].
  rewrite fmap_cons. cbn [foldr]. by rewrite IH.
Qed.

Lemma check_geometry_run rs configured cap k budget :
  0 < k → rs ≠ [] → Forall row_ok rs → k_feasible rs configured budget cap k →
  check_geometry rs k budget = Ok tt.
Proof.
  intros Hk Hne Hrs (_ & _ & Hr & Hsum). pose proof (draft_catchup_nonneg _ Hrs).
  unfold check_geometry. cbv zeta in Hsum. set (b := Z.of_nat (length rs)) in *.
  assert (0 <= b * k) by nia.
  rewrite !(proj2 (Z.ltb_ge budget _)) by lia. cbn [oraise_if obind].
  apply ofor_each_all. intros r Hin. destruct (Hr r Hin).
  by rewrite !(proj2 (Z.ltb_ge _ _)) by lia.
Qed.

Lemma new_positive_plan_run cycle ws rs configured cap k budget key peak bytes fp :
  cycle_ok ws rs configured cap k budget key → 0 <= configured → 0 <= cap →
  0 < peak <= bytes → check_digest fp = Ok tt →
  let b := Z.of_nat (length rs) in
  let catchup := draft_catchup_tokens rs in
  let p := mk_step_plan cycle (planned_row k <$> rs) configured cap k (Some key) catchup (b * k)
             (b * (k + 1)) (catchup + b * k + b * (k + 1)) peak bytes fp false None in
  new_plan p = Ok p.
Proof.
  intros [Hws (Hne & Hnd & Hrs) Hdec [Hk (Hkc & Hkp & Hr & Hsum)] Hcap Hkey] Hc0 Hp0 Hpk Hfp b catchup p.
  pose proof (draft_catchup_nonneg _ Hrs) as Hcat. fold catchup in Hcat.
  assert (1 <= b) as Hb by (unfold b; destruct rs; simpl; [done|lia]).
  assert (0 <= b * k) by nia.
  assert (check_plan_fields p = Ok tt) as H1.
  { unfold check_plan_fields, p. cbn -[Z.add Z.mul check_digest].
    rewrite bool_decide_eq_true_2
      by (rewrite <-list_fmap_compose; exact Hnd).
    cbn [negb oraise_if obind]. rewrite !_strict_int_unit by lia. rewrite Hfp. cbn [oraise_if obind].
    by rewrite (proj2 (Z.ltb_ge _ _)) by lia. }
  assert (check_positive_plan p = Ok tt) as H2.
  { unfold check_positive_plan, p.
    cbn [rows bypass_reason route_key plan_effective_k plan_draft_catchup_tokens draft_query_tokens
      target_query_tokens total_model_positions plan_modeled_live_peak_bytes plan_reservation_bytes].
    rewrite length_fmap. fold b.
    rewrite (bool_decide_eq_false_2 (_ = [])) by (by destruct rs).
    rewrite (bool_decide_eq_false_2 (is_Some None)) by (by intros [? ?]).
    cbn [oraise_if obind]. rewrite (validate_route_key_ok _ _ _ _ _ Hkey) by lia.
    destruct Hkey as [_ -> [Hbk _] _]. rewrite Z.eqb_refl. cbn [negb oraise_if obind].
    rewrite (proj2 (Z.ltb_ge _ _)) by done. cbn [oraise_if obind].
    rewrite ofor_each_all; cbn [obind].
    - rewrite planned_rows_catchup. fold catchup. rewrite !Z.eqb_refl. cbn [negb oraise_if obind].
      rewrite (proj2 (Z.leb_gt _ _)), (proj2 (Z.ltb_ge _ _)) by lia. done.
    - intros r' (r & -> & Hin)%list_elem_of_fmap. destruct (Hr r Hin) as [Hrem Hhead].
      unfold check_positive_row. rewrite Forall_forall in Hrs.
      rewrite (proj2 (row_post_init_ok _) (planned_row_ok k r Hk (Hrs r Hin))). cbn [obind].
      cbn [target_cached_tokens committed_tokens remaining_completion_tokens
        model_position_headroom highest_draft_write_position highest_target_write_position
        planned_row set_write_positions].
      rewrite (Hdec r Hin), Z.eqb_refl. cbn [negb oraise_if obind].
      rewrite (proj2 (Z.leb_gt _ _)), (proj2 (Z.ltb_ge _ _)) by lia. cbn [oraise_if obind].
      by rewrite !bool_decide_eq_true_2 by done. }
  unfold new_plan, SpecStepPlan_post_init. rewrite H1. cbn [obind].
  change (plan_effective_k p) with k. rewrite (proj2 (Z.eqb_neq k 0)) by lia. by rewrite H2.
Qed.

(** What the builder returns for a positive cycle. *)
Record built_plan (cycle : nat) (ws : SpeculativeMemoryPlan) (rs : list SpecPlanRow)
    (configured cap k budget : Z) (key : DraftRouteKey) (p : SpecStepPlan) : Prop := {
  bp_cycle : cycle_id p = cycle;
  bp_rows : rows p = planned_row k <$> rs;
  bp_caps : configured_k p = configured ∧ workspace_route_cap p = cap;
  bp_k : plan_effective_k p = k ∧ route_key p = Some key ∧ bypass_reason p = None;
  bp_work : plan_draft_catchup_tokens p = draft_catchup_tokens rs ∧
    draft_query_tokens p = Z.of_nat (length rs) * k ∧
    target_query_tokens p = Z.of_nat (length rs) * (k + 1) ∧
    total_model_positions p =
      plan_draft_catchup_tokens p + draft_query_tokens p + target_query_tokens p;
  bp_budget : total_model_positions p <= budget;
  bp_bytes : 0 < plan_modeled_live_peak_bytes p <= plan_reservation_bytes p ∧
    plan_reservation_bytes p <= Plan.reservation_bytes ws;
  bp_valid : SpecStepPlan_post_init p = Ok tt;
}.

Lemma build_plan_run cycle ws rs configured cap k budget key :
  cycle_ok ws rs configured cap k budget key →
  ∃ p, build_speculative_step_plan torch sha256_hexdigest cycle rs configured cap k budget ws
         (Some key) None = Ok p ∧
       built_plan cycle ws rs configured cap k budget key p.
Proof using torch_ok digest_ok.
  intros Hcy. pose proof Hcy as [Hws (Hne & Hnd & Hrs) Hdec [Hk Hfeas] Hcap Hkey].
  pose proof Hfeas as (Hkc & Hkp & Hr & Hsum). cbv zeta in Hsum.
  pose proof (draft_catchup_nonneg _ Hrs) as Hcat.
  set (b := Z.of_nat (length rs)) in *.
  assert (1 <= b) as Hb by (unfold b; destruct rs; simpl; [done|lia]).
  assert (0 <= b * k) by nia.
  destruct (certify_run ws b (draft_catchup_tokens rs) k key Hws Hb Hcat ltac:(lia) Hkey)
    as (c & Hc & Hpk & Hres & Hfp).
  pose proof (new_positive_plan_run cycle ws rs configured cap k budget key _ _ _ Hcy
    ltac:(lia) ltac:(lia) Hpk Hfp) as Hnew. cbv zeta in Hnew.
  eexists. split.
  - unfold build_speculative_step_plan. rewrite bool_decide_eq_true_2 by done.
    cbn [negb oraise_if obind]. rewrite !_strict_int_run by lia. cbn [obind].
    rewrite !(proj2 (Z.ltb_ge _ _)) by lia. cbn [oraise_if obind].
    rewrite (proj2 (Z.eqb_neq k 0)) by lia.
    rewrite bool_decide_eq_false_2 by done. cbn [oraise_if obind].
    rewrite (validate_route_key_ok _ _ _ _ _ Hkey) by lia.
    rewrite (kf_k _ _ _ _ _ Hkey), Z.eqb_refl. cbn [negb oraise_if obind].
    rewrite (proj2 (Z.ltb_ge _ _)) by (destruct Hkey; lia).
    rewrite (bool_decide_eq_false_2 (is_Some None)) by (by intros [? ?]). cbn [oraise_if obind].
    rewrite (check_geometry_run rs configured cap) by done. cbn [obind].
    unfold positive_plan. fold b. rewrite Hc. cbn [obind].
    rewrite replace_rows_run by done. cbn [obind]. exact Hnew.
  - unfold new_plan in Hnew. apply obind_unit_ok in Hnew as [Hpost _].
    split; try done; simpl; first [lia|tauto].
Qed.

(** The builder is total on positive cycles: valid rows with pure decode
    coverage, a feasible K and a covering route of a planned workspace always
    give a plan (never an error), whose model work fits the token budget, whose
    reservation fits the configured one and whose rows name exactly the highest
    positions a fully accepted burst writes. *)
Theorem build_speculative_step_plan_total cycle ws rs configured cap k budget key :
  cycle_ok ws rs configured cap k budget key →
  ∃ p, build_speculative_step_plan torch sha256_hexdigest cycle rs configured cap k budget ws
         (Some key) None = Ok p ∧
       built_plan cycle ws rs configured cap k budget key p.
Proof using torch_ok digest_ok. apply build_plan_run. Qed.

(** ** From the registry to the plan *)

Lemma admission_key r a b c k :
  resolution r b c (Some a) → 1 <= k <= max_effective_k a →
  ∃ key, key_for a k = Some key ∧ effective_k key = k ∧ serves r b c key.
Proof.
  intros (_ & _ & _ & _ & _ & _ & Hks & bucket & Hin & _) Hk. unfold max_effective_k in Hk.
  assert (Z.to_nat (k - 1) < length (route_keys a))%nat as Hlt by lia.
  apply lookup_lt_is_Some in Hlt as [key Hkey]. exists key. split_and!.
  - unfold key_for. rewrite !(proj2 (Z.leb_le _ _)) by lia. exact Hkey.
  - assert ((effective_k <$> route_keys a) !! Z.to_nat (k - 1) = Some (effective_k key)) as He
      by (rewrite list_lookup_fmap, Hkey; done).
    rewrite Hks in He. unfold py_range in He. rewrite list_lookup_fmap in He.
    rewrite lookup_seq_lt in He by lia. simpl in He. injection He as <-. lia.
  - apply (Hin key). by eapply list_elem_of_lookup_2.
Qed.

(** C38: an admitted cycle always becomes a plan: with a registry built from the
    configured workspace and warmed, valid decode rows whose live batch the
    registry admits, and a positive K derived under the admission's cap, the
    admission names a route key for that K and the builder returns its plan.  The
    planner's fallbacks for a registry miss and for an over-full workspace are
    never taken after a positive K. *)
Theorem admitted_cycle_builds ws eager backend reg comps reg' rs configured budget a k cycle :
  planned_workspace ws →
  build_draft_route_registry sha256_hexdigest ws eager backend = Ok reg →
  with_warmed_components reg comps = Ok reg' →
  rs ≠ [] → NoDup (row_seq_id <$> rs) → Forall row_ok rs →
  (∀ r, r ∈ rs → target_cached_tokens r = committed_tokens r - 1) →
  0 <= configured → 0 <= budget →
  resolve reg' (Z.of_nat (length rs)) (draft_catchup_tokens rs) = Ok (Some a) →
  derive_speculative_effective_k rs configured budget (max_effective_k a) = Ok k → 0 < k →
  ∃ key p, key_for a k = Some key ∧
    build_speculative_step_plan torch sha256_hexdigest cycle rs configured (max_effective_k a) k
      budget ws (Some key) None = Ok p ∧
    built_plan cycle ws rs configured (max_effective_k a) k budget key p.
Proof using torch_ok digest_ok.
  intros Hws Hreg Hwarm Hne Hnd Hrs Hdec Hc Hb Hres Hk Hkpos.
  assert (∀ v, sha256_hexdigest v ≠ ""%string) as Hsha.
  { intros v E. pose proof (digest_ok v) as Hd. by rewrite E in Hd. }
  assert (0 <= Plan.batch_size ws ∧ 0 <= Plan.vocab_size ws) as [HB HV].
  { destruct Hws as (V & K & S & M & L & T & D & Hp & _).
    pose proof (planned_fields _ _ _ _ _ _ _ _ Hp) as (-> & _ & _ & ? & _).
    apply plan_speculative_workspace_ok in Hp as [(? & _) _]. lia. }
  destruct (resolve_built_run _ Hsha ws eager backend reg comps reg' (Z.of_nat (length rs))
    (draft_catchup_tokens rs) HB HV Hreg Hwarm) as (o & Ho & Hspec).
  rewrite Hres in Ho. injection Ho as <-.
  destruct (derive_run rs configured budget (max_effective_k a) Hc Hb
    ltac:(unfold max_effective_k; lia) Hne Hrs) as (k' & Hk' & _ & Hfeas & _).
  assert (k' = k) as -> by congruence. specialize (Hfeas Hkpos).
  assert (∀ j, 1 <= j <= max_effective_k a → ∃ key, key_for a j = Some key ∧
    key_fits ws (Z.of_nat (length rs)) (draft_catchup_tokens rs) j key ∧
    j <= Plan.max_effective_k ws) as Hkeys.
  { intros j Hj. destruct (admission_key _ _ _ _ j Hspec Hj) as (key & Hkey & <- & Hr & Hf & Hw).
    exists key. split; [done|].
    destruct (built_ready_key _ _ _ _ _ _ _ key HB HV Hreg Hwarm Hr)
      as (b & j & f & -> & Hbk & Hj' & _).
    unfold route_k_cap in Hj'. split; [|simpl; lia]. split; try done; simpl.
    pose proof (plan_buckets_le _ _ _ HB Hbk). simpl in Hw. lia. }
  destruct (Hkeys k) as (key & Hkey & Hfits & _); [destruct Hfeas; lia|].
  assert (max_effective_k a <= Plan.max_effective_k ws).
  { destruct Hfeas as (_ & Hcap & _). destruct (Hkeys (max_effective_k a)) as (_ & _ & _ & ?); lia. }
  destruct (build_plan_run cycle ws rs configured (max_effective_k a) k budget key) as (p & Hp & Hbp).
  { by split. }
  by exists key, p.
Qed.
End builder.
