(* ===== verification/SpecResult.v ===== *)
(** * SpecResult: validation of a speculative execution result

    Models src/nanovllm/engine/speculative_result.py: the host-only result of a
    verification cycle and [validate_result], the gate in front of every commit
    mutation. *)
From S2P Require Import Prelude SamplingParams Sequence SpecPlan.

Record SpecRowResult := mk_row_result {
  res_seq_id : nat;
  proposed_token_ids : list Z;
  committed_token_ids : list Z;
  accepted_draft_tokens : Z;
  used_bonus : bool;
  residual_numerical_fallbacks : Z;
}.

Record SpecExecutionResult := mk_execution_result {
  res_cycle_id : nat;
  res_workspace_fingerprint : string;
  res_rows : list SpecRowResult;
  target_verification_positions : Z;
  draft_positions : Z;
}.

(** A token ID outside the vocabulary ([None]: unbounded). *)
Definition invalid_token (vocab_size : option Z) (t : Z) : bool :=
  (t <? 0) || match vocab_size with Some v => v <=? t | None => false end.

(** The snapshot still describes the sequence. *)
Definition snapshot_matches (snapshot : SpecPlanRow) (s : sequence) : bool :=
  (num_tokens s =? committed_tokens snapshot)
  && (num_cached_tokens s =? target_cached_tokens snapshot)
  && (num_draft_cached_tokens s =? draft_cached_tokens snapshot)
  && bool_decide (block_table s = row_block_table snapshot)
  && (num_scheduled_tokens s =? 1)
  && negb (is_prefill s)
  && bool_decide (status s = RUNNING)
  && (sp_max_tokens (params s) - num_completion_tokens s
        =? remaining_completion_tokens snapshot).

Definition validate_row (k : Z) (vocab_size : option Z)
    (snapshot : SpecPlanRow) (row : SpecRowResult) (s : sequence) : outcome unit :=
  oraise_if (negb ((res_seq_id row =? row_seq_id snapshot)%nat
                   && (res_seq_id row =? seq_id s)%nat))
    (ValueError "speculative result row identity/order mismatch") ;?
  oraise_if (negb (snapshot_matches snapshot s))
    (ValueError "sequence changed before speculative commit") ;?
  let accepted := accepted_draft_tokens row in
  oraise_if (negb ((0 <=? accepted) && (accepted <=? k)))
    (ValueError "invalid speculative accepted count") ;?
  oraise_if (negb (bool_decide (used_bonus row = (accepted =? k))))
    (ValueError "invalid speculative bonus flag") ;?
  oraise_if (negb ((residual_numerical_fallbacks row =? 0)
                   || (residual_numerical_fallbacks row =? 1)))
    (ValueError "invalid residual fallback count") ;?
  oraise_if (used_bonus row && negb (residual_numerical_fallbacks row =? 0))
    (ValueError "full acceptance cannot use a residual fallback") ;?
  oraise_if (negb (Z.of_nat (length (proposed_token_ids row)) =? k))
    (ValueError "incomplete speculative proposals") ;?
  oraise_if (negb (Z.of_nat (length (committed_token_ids row)) =? accepted + 1))
    (ValueError "speculative burst must contain accepted prefix plus correction/bonus") ;?
  oraise_if (negb (bool_decide (take (Z.to_nat accepted) (committed_token_ids row) =
                                take (Z.to_nat accepted) (proposed_token_ids row))))
    (ValueError "speculative burst does not match accepted proposals") ;?
  oraise_if (existsb (invalid_token vocab_size)
               (proposed_token_ids row ++ committed_token_ids row))
    (ValueError "invalid speculative token ID").

(** [for snapshot, row, seq in zip(...)]. *)
Fixpoint validate_rows (k : Z) (vocab_size : option Z) (snapshots : list SpecPlanRow)
    (rows : list SpecRowResult) (seqs : list sequence) : outcome unit :=
  match snapshots, rows, seqs with
  | sn :: snapshots', r :: rows', s :: seqs' =>
      validate_row k vocab_size sn r s ;? validate_rows k vocab_size snapshots' rows' seqs'
  | _, _, _ => Ok tt
  end.

Definition validate_result (plan : SpecStepPlan) (result : SpecExecutionResult)
    (seqs : list sequence) (vocab_size : option Z) : outcome unit :=
  oraise_if (negb (res_cycle_id result =? cycle_id plan)%nat)
    (ValueError "speculative result cycle mismatch") ;?
  oraise_if (negb (bool_decide (res_workspace_fingerprint result = workspace_fingerprint plan)))
    (ValueError "speculative result workspace mismatch") ;?
  oraise_if (negb (target_verification_positions result =? target_query_tokens plan))
    (ValueError "speculative target work mismatch") ;?
  oraise_if (negb (draft_positions result =?
                     plan_draft_catchup_tokens plan + draft_query_tokens plan))
    (ValueError "speculative draft work mismatch") ;?
  oraise_if (negb ((length (res_rows result) =? length (rows plan))%nat
                   && (length seqs =? length (rows plan))%nat))
    (ValueError "speculative result row count mismatch") ;?
  validate_rows (plan_effective_k plan) vocab_size (rows plan) (res_rows result) seqs.
