(* ===== verification/ResultSpec.v ===== *)
(** * ResultSpec: what a validated speculative result guarantees

    [validate_result] is characterised completely, and a validated burst of a
    validated plan fits every limit of its request. *)
From S2P Require Import Prelude SamplingParams Sequence SpecMemory SpecRoutes SpecPlan PlanSpec.
From S2P Require Import SpecResult.

(** The sequence a snapshot was taken from, unchanged. *)
Record snapshot_of (sn : SpecPlanRow) (s : sequence) : Prop := {
  sn_tokens : num_tokens s = committed_tokens sn;
  sn_cached : num_cached_tokens s = target_cached_tokens sn;
  sn_draft : num_draft_cached_tokens s = draft_cached_tokens sn;
  sn_table : block_table s = row_block_table sn;
  sn_decode : num_scheduled_tokens s = 1 ∧ is_prefill s = false ∧ status s = RUNNING;
  sn_remaining : sp_max_tokens (params s) - num_completion_tokens s
                 = remaining_completion_tokens sn;
}.

(** One row of a sound result: an accepted prefix of the proposals followed by
    one correction or bonus token, all in the vocabulary. *)
Record row_result_ok (k : Z) (vocab : option Z) (sn : SpecPlanRow) (r : SpecRowResult)
    (s : sequence) : Prop := {
  rr_id : res_seq_id r = row_seq_id sn ∧ seq_id s = row_seq_id sn;
  rr_snapshot : snapshot_of sn s;
  rr_accepted : 0 <= accepted_draft_tokens r <= k;
  rr_bonus : used_bonus r = true ↔ accepted_draft_tokens r = k;
  rr_fallbacks : residual_numerical_fallbacks r = 0 ∨
    (residual_numerical_fallbacks r = 1 ∧ accepted_draft_tokens r < k);
  rr_proposed : Z.of_nat (length (proposed_token_ids r)) = k;
  rr_burst : ∃ t, committed_token_ids r =
    take (Z.to_nat (accepted_draft_tokens r)) (proposed_token_ids r) ++ [t];
  rr_tokens : ∀ t, t ∈ proposed_token_ids r ++ committed_token_ids r →
    0 <= t ∧ ∀ v, vocab = Some v → t < v;
}.

Lemma snapshot_matches_iff sn s : snapshot_matches sn s = true ↔ snapshot_of sn s.
Proof.
  unfold snapshot_matches. rewrite !andb_true_iff, !bool_decide_eq_true, !Z.eqb_eq, negb_true_iff.
  split; [intros; destruct_and?; by split|intros [? ? ? ? (? & ? & ?) ?]; by split_and!].
Qed.

Lemma invalid_token_iff vocab t :
  invalid_token vocab t = false ↔ 0 <= t ∧ ∀ v, vocab = Some v → t < v.
Proof.
  unfold invalid_token. rewrite orb_false_iff, Z.ltb_ge. destruct vocab as [v|].
  - rewrite Z.leb_gt. naive_solver.
  - naive_solver.
Qed.

(** A burst of the right length that starts with the accepted proposals. *)
Lemma burst_shape (a : Z) (burst proposed : list Z) :
  0 <= a → a <= Z.of_nat (length proposed) →
  (Z.of_nat (length burst) = a + 1 ∧
   take (Z.to_nat a) burst = take (Z.to_nat a) proposed) ↔
  ∃ t, burst = take (Z.to_nat a) proposed ++ [t].
Proof.
  intros Ha Hp. split.
  - intros [Hl Ht]. rewrite <-(take_drop (Z.to_nat a) burst), Ht.
    destruct (drop (Z.to_nat a) burst) as [|t [|t' l]] eqn:E.
    + apply (f_equal length) in E. rewrite length_drop in E. simpl in E. lia.
    + by exists t.
    + apply (f_equal length) in E. rewrite length_drop in E. simpl in E. lia.
  - intros [t ->]. rewrite length_app, length_take. simpl. split; [lia|].
    rewrite take_app_le by (rewrite length_take; lia). rewrite take_take. f_equal. lia.
Qed.

Lemma tokens_valid_iff vocab l :
  existsb (invalid_token vocab) l = false ↔
  ∀ t, t ∈ l → 0 <= t ∧ ∀ v, vocab = Some v → t < v.
Proof.
  setoid_rewrite <-invalid_token_iff. induction l as [|t l IH]; simpl; [set_solver|].
  rewrite orb_false_iff, IH. set_solver.
Qed.

Lemma validate_row_iff k vocab sn r s :
  validate_row k vocab sn r s = Ok tt ↔ row_result_ok k vocab sn r s.
Proof.
  unfold validate_row. rewrite !obind_unit_ok, !oraise_if_ok, !negb_false_iff.
  rewrite !andb_true_iff, !Nat.eqb_eq, !Z.leb_le, !bool_decide_eq_true, orb_true_iff, !Z.eqb_eq.
  rewrite andb_false_iff, negb_false_iff, snapshot_matches_iff, Z.eqb_eq.
  rewrite tokens_valid_iff.
  split.
  - intros ([E1 E2] & Hsn & Ha & Hbonus & Hf & Hfb & Hp & Hl & Ht & Hv).
    pose proof (proj1 (burst_shape _ _ (proposed_token_ids r) (proj1 Ha) ltac:(lia)) (conj Hl Ht)).
    assert (used_bonus r = true ↔ accepted_draft_tokens r = k) as Hb
      by (rewrite Hbonus, Z.eqb_eq; done).
    split; try done; [split; congruence|].
    destruct Hf as [Hf|Hf]; [by left|right]. split; [done|].
    destruct Hfb as [Hfb|Hfb]; [|congruence].
    destruct (decide (accepted_draft_tokens r = k)) as [Hk|]; [|lia].
    apply Hb in Hk. congruence.
  - intros [[E1 E2] Hsn Ha Hb Hf Hp Hburst Hv].
    destruct (proj2 (burst_shape _ _ (proposed_token_ids r) (proj1 Ha) ltac:(lia)) Hburst).
    split; [split; congruence|]. split; [done|]. split; [done|].
    split; [apply eq_true_iff_eq; by rewrite Z.eqb_eq|].
    split; [destruct Hf as [|[]]; auto|].
    split; [|by split_and!].
    destruct Hf as [->|[-> Hlt]]; [by right|left].
    apply not_true_iff_false. rewrite Hb. lia.
Qed.

Lemma validate_rows_iff k vocab sns rs ss :
  length rs = length sns → length ss = length sns →
  validate_rows k vocab sns rs ss = Ok tt ↔ Forall3 (row_result_ok k vocab) sns rs ss.
Proof.
  revert rs ss. induction sns as [|sn sns IH]; intros [|r rs] [|s ss] H1 H2; try done.
  { split; [constructor|done]. }
  simpl. rewrite obind_unit_ok, validate_row_iff, IH by (simpl in *; lia).
  split; [intros []; by constructor|by inversion 1].
Qed.

Lemma validate_result_ok_iff p result ss vocab :
  validate_result p result ss vocab = Ok tt ↔
  res_cycle_id result = cycle_id p ∧
  res_workspace_fingerprint result = workspace_fingerprint p ∧
  target_verification_positions result = target_query_tokens p ∧
  draft_positions result = plan_draft_catchup_tokens p + draft_query_tokens p ∧
  Forall3 (row_result_ok (plan_effective_k p) vocab) (rows p) (res_rows result) ss.
Proof.
  unfold validate_result. rewrite !obind_unit_ok, !oraise_if_ok, !negb_false_iff.
  rewrite andb_true_iff, !Nat.eqb_eq, !Z.eqb_eq, bool_decide_eq_true. split.
  - intros (? & ? & ? & ? & [? ?] & Hr). split_and!; try done. by apply validate_rows_iff.
  - intros (? & ? & ? & ? & Hr). pose proof (Forall3_length_lm _ _ _ _ Hr) as E1.
    pose proof (Forall3_length_lr _ _ _ _ Hr) as E2.
    split_and!; try done. by apply validate_rows_iff.
Qed.

(** C39: [validate_result] accepts exactly the sound results: right cycle,
    workspace and work counts, and row by row an unchanged sequence, an accepted
    prefix of exactly K proposals followed by one correction or bonus token, the
    bonus flag set exactly on full acceptance, and every token in the
    vocabulary. *)
Theorem validate_result_iff p result ss vocab :
  validate_result p result ss vocab = Ok tt ↔
  res_cycle_id result = cycle_id p ∧
  res_workspace_fingerprint result = workspace_fingerprint p ∧
  target_verification_positions result = target_query_tokens p ∧
  draft_positions result = plan_draft_catchup_tokens p + draft_query_tokens p ∧
  Forall3 (row_result_ok (plan_effective_k p) vocab) (rows p) (res_rows result) ss.
Proof. apply validate_result_ok_iff. Qed.

(** The rows of a speculative plan leave room for a whole burst. *)
Lemma positive_plan_rows p :
  SpecStepPlan_post_init p = Ok tt → 0 < plan_effective_k p →
  ∀ r, r ∈ rows p → row_ok r ∧ target_cached_tokens r = committed_tokens r - 1 ∧
    plan_effective_k p < remaining_completion_tokens r ∧
    plan_effective_k p <= model_position_headroom r ∧
    highest_target_write_position r = Some (committed_tokens r + plan_effective_k p - 1).
Proof.
  intros [_ H]%obind_unit_ok Hk r Hr. rewrite (proj2 (Z.eqb_neq _ 0)) in H by lia.
  unfold check_positive_plan in H.
  do 3 apply obind_unit_ok in H as [_ H]. apply obind_unit_ok in H as [H _].
  apply ofor_each_ok in H. rewrite Forall_forall in H. specialize (H r Hr).
  revert H. unfold check_positive_row.
  rewrite !obind_unit_ok, !oraise_if_ok, negb_false_iff, Z.eqb_eq, Z.leb_gt, Z.ltb_ge.
  rewrite orb_false_iff, !negb_false_iff, !bool_decide_eq_true, row_post_init_ok.
  intros (? & ? & ? & ? & ? & ?). split_and!; done.
Qed.
