(* ===== verification/Scheduler.v ===== *)
(** * Scheduler: queues, step scheduling and the commit of a step

    Models class Scheduler in src/nanovllm/engine/scheduler.py, all but the
    speculative planning and commit, which are in SpecScheduler: the waiting and
    running queues, admission, [schedule] with its decode and chunked-prefill
    loops, preemption, the rollback operations preemption and cancellation call,
    [postprocess] and [cancel].  Queues hold sequence references.  A plan object
    is a reference [plan_ref] whose identity is the cycle id the scheduler drew
    for it.  The clock is a stream of readings. *)
From S2P Require Import Prelude SamplingParams Sequence Heap BlockManager Reservation SpecMemory.
From S2P Require Import SpecRoutes SpecPlan.

(** ** Plans *)

Record DraftDiscardRow := mk_discard_row {
  dr_seq_id : nat;
  dr_committed_tokens : Z;
  dr_target_cached_tokens : Z;
  dr_draft_cached_tokens : Z;
  dr_remaining_completion_tokens : Z;
  dr_model_position_headroom : Z;
  dr_highest_proposal_input_position : option Z;
  dr_block_table : list nat;
}.

Record DraftDiscardPlan := mk_discard_plan {
  dp_cycle_id : nat;
  dp_rows : list DraftDiscardRow;
  dp_configured_k : Z;
  dp_workspace_route_cap : Z;
  dp_effective_k : Z;
  dp_draft_catchup_tokens : Z;
  dp_draft_step_token_counts : list Z;
  dp_target_query_tokens : Z;
  dp_total_scheduled_tokens : Z;
  dp_fallback_reason : option string;
  dp_route_key : option DraftRouteKey;
}.

Definition discard_uses_draft (p : DraftDiscardPlan) : bool :=
  (0 <? dp_effective_k p) && bool_decide (dp_fallback_reason p = None).

Record _DecodeScheduleRollbackRow := mk_rollback_row {
  rb_sequence : nat;
  rb_seq_id : nat;
  rb_committed_tokens : Z;
  rb_target_cached_tokens : Z;
  rb_draft_cached_tokens : Z;
  rb_expected_block_count : Z;
}.
Definition DecodeScheduleRollback : Type := list _DecodeScheduleRollbackRow.

#[export] Instance rollback_row_eq_dec : EqDecision _DecodeScheduleRollbackRow.
Proof. solve_decision. Defined.

(** [DraftDiscardPlan | SpecStepPlan]. *)
Inductive cycle_plan :=
  | DiscardPlan (p : DraftDiscardPlan)
  | StepPlan (p : SpecStepPlan).

(** A plan object: [is] compares [pr_object]. *)
Record plan_ref := mk_plan_ref { pr_object : nat; pr_plan : cycle_plan }.

Definition same_plan (a b : plan_ref) : bool := (pr_object a =? pr_object b)%nat.

Definition plan_uses_draft (p : cycle_plan) : bool :=
  match p with DiscardPlan p => discard_uses_draft p | StepPlan p => uses_draft p end.

(** The row fields both plan types share. *)
Record row_facts := mk_row_facts {
  rf_seq_id : nat;
  rf_committed_tokens : Z;
  rf_target_cached_tokens : Z;
  rf_draft_cached_tokens : Z;
}.

Definition plan_rows (p : cycle_plan) : list row_facts :=
  match p with
  | DiscardPlan p =>
      (λ r, mk_row_facts (dr_seq_id r) (dr_committed_tokens r)
              (dr_target_cached_tokens r) (dr_draft_cached_tokens r)) <$> dp_rows p
  | StepPlan p =>
      (λ r, mk_row_facts (row_seq_id r) (committed_tokens r)
              (target_cached_tokens r) (draft_cached_tokens r)) <$> rows p
  end.

Record ActiveSpecTransaction := mk_transaction {
  tx_plan : plan_ref;
  tx_reservation : TemporaryBlockReservation;
  tx_baseline_decode_rollback : DecodeScheduleRollback;
  tx_target_writes_prepared : bool;
}.

(** ** State *)

Record sched_config := mk_sched_config {
  max_num_seqs : Z;
  max_num_batched_tokens : Z;
  eos : Z;
  vocab_size : option Z;
  sc_block_size : Z;
  _configured_k : Z;
  _max_model_len : Z;
  _numerical_mode : string;
}.

Record scheduler := mk_scheduler {
  sc_config : sched_config;
  sc_heap : heap;
  waiting : list nat;
  running : list nat;
  mid_chunk_seq : option nat;
  _draft_discard_cycle_ids : nat;
  _active_spec_transaction : option ActiveSpecTransaction;
  _active_draft_discard : option (plan_ref * TemporaryBlockReservation);
  _pending_draft_coverage_plan : option plan_ref;
  _pending_draft_coverage : option (list (nat * Z));
  (** readings of the clock taken so far *)
  ticks : nat;
}.

Definition Scheduler_init (c : sched_config) (num_kvcache_blocks : nat) : scheduler :=
  mk_scheduler c
    (mk_heap (BlockManager_init num_kvcache_blocks (sc_block_size c)) ∅ (sc_block_size c))
    [] [] None 0 None None None None 0.

Section setters.
Implicit Types s : scheduler.
Definition set_heap v s := mk_scheduler (sc_config s) v (waiting s) (running s)
  (mid_chunk_seq s) (_draft_discard_cycle_ids s) (_active_spec_transaction s)
  (_active_draft_discard s) (_pending_draft_coverage_plan s)
  (_pending_draft_coverage s) (ticks s).
Definition set_waiting v s := mk_scheduler (sc_config s) (sc_heap s) v (running s)
  (mid_chunk_seq s) (_draft_discard_cycle_ids s) (_active_spec_transaction s)
  (_active_draft_discard s) (_pending_draft_coverage_plan s)
  (_pending_draft_coverage s) (ticks s).
Definition set_running v s := mk_scheduler (sc_config s) (sc_heap s) (waiting s) v
  (mid_chunk_seq s) (_draft_discard_cycle_ids s) (_active_spec_transaction s)
  (_active_draft_discard s) (_pending_draft_coverage_plan s)
  (_pending_draft_coverage s) (ticks s).
Definition set_mid v s := mk_scheduler (sc_config s) (sc_heap s) (waiting s) (running s)
  v (_draft_discard_cycle_ids s) (_active_spec_transaction s)
  (_active_draft_discard s) (_pending_draft_coverage_plan s)
  (_pending_draft_coverage s) (ticks s).
Definition set_cycle_ids v s := mk_scheduler (sc_config s) (sc_heap s) (waiting s)
  (running s) (mid_chunk_seq s) v (_active_spec_transaction s)
  (_active_draft_discard s) (_pending_draft_coverage_plan s)
  (_pending_draft_coverage s) (ticks s).
Definition set_transaction v s := mk_scheduler (sc_config s) (sc_heap s) (waiting s)
  (running s) (mid_chunk_seq s) (_draft_discard_cycle_ids s) v
  (_active_draft_discard s) (_pending_draft_coverage_plan s)
  (_pending_draft_coverage s) (ticks s).
Definition set_active_draft v s := mk_scheduler (sc_config s) (sc_heap s) (waiting s)
  (running s) (mid_chunk_seq s) (_draft_discard_cycle_ids s)
  (_active_spec_transaction s) v (_pending_draft_coverage_plan s)
  (_pending_draft_coverage s) (ticks s).
Definition set_pending v w s := mk_scheduler (sc_config s) (sc_heap s) (waiting s)
  (running s) (mid_chunk_seq s) (_draft_discard_cycle_ids s)
  (_active_spec_transaction s) (_active_draft_discard s) v w (ticks s).
Definition set_ticks v s := mk_scheduler (sc_config s) (sc_heap s) (waiting s)
  (running s) (mid_chunk_seq s) (_draft_discard_cycle_ids s)
  (_active_spec_transaction s) (_active_draft_discard s)
  (_pending_draft_coverage_plan s) (_pending_draft_coverage s) v.
End setters.

Definition MS (A : Type) : Type := M scheduler A.

Definition on_heap {A} (m : MH A) : MS A := zoom sc_heap set_heap m.
Definition seq_at (k : nat) : MS sequence := on_heap (get_seq k).
Definition set_seq (k : nat) (f : sequence → sequence) : MS unit := on_heap (upd_seq k f).

Section scheduler.
Variable compute_hash : list Z → Z → Z.
(** the successive readings of [self._clock] *)
Variable clock : nat → Z.

Definition read_clock : MS Z :=
  let* s := get in modify (set_ticks (S (ticks s))) ;;; ret (clock (ticks s)).

(** ** Capacity and admission *)

Definition available_capacity (s : scheduler) : Z :=
  max_num_seqs (sc_config s) - Z.of_nat (length (waiting s))
  - Z.of_nat (length (running s)).

Definition require_capacity (requested : Z) : MS unit :=
  raise_if (requested <? 0) (ValueError "requested capacity must be non-negative") ;;;
  let* available := gets available_capacity in
  let* c := gets sc_config in
  raise_if (available <? requested)
    (SchedulerCapacityError requested (Z.max available 0) (max_num_seqs c)).

Definition _check_mid_chunk_invariant : MS unit :=
  let* s := get in
  match mid_chunk_seq s with
  | None =>
      match waiting s with
      | [] => ret tt
      | k :: _ =>
          let* q := seq_at k in
          raise_if (negb (bool_decide (block_table q = [])))
            (RuntimeError "waiting head owns KV blocks without mid_chunk_seq")
      end
  | Some mid =>
      raise_if (negb (bool_decide (head (waiting s) = Some mid)))
        (RuntimeError "mid_chunk_seq must remain at the waiting head") ;;;
      let* q := seq_at mid in
      raise_if (bool_decide (block_table q = []))
        (RuntimeError "mid_chunk_seq must own its allocated KV blocks")
  end.

Definition sched_is_finished (s : scheduler) : bool :=
  bool_decide (waiting s = []) && bool_decide (running s = []).

Definition add (k : nat) : MS unit :=
  require_capacity 1 ;;;
  let* c := gets sc_config in
  when (0 <? _configured_k c) (set_seq k (set_spec_metrics (Some spec_counters_zero))) ;;;
  modify (λ s, set_waiting (waiting s ++ [k]) s).

(** ** Releasing speculative ownership *)

Definition rollback_draft_discard (plan : plan_ref) : MS bool :=
  let* s := get in
  match _active_draft_discard s with
  | None => ret false
  | Some (active_plan, reservation) =>
      raise_if (negb (same_plan active_plan plan))
        (RuntimeError "draft-discard plan identity mismatch") ;;;
      let* rolled_back := on_heap (rollback_temporary_append reservation) in
      modify (set_active_draft None) ;;;
      ret rolled_back
  end.

Definition handoff_draft_discard (plan : plan_ref) : MS bool :=
  raise_if (negb (plan_uses_draft (pr_plan plan)))
    (ValueError "cannot hand off a fallback plan") ;;;
  let* s := get in
  raise_if (bool_decide (is_Some (_pending_draft_coverage_plan s)))
    (RuntimeError "draft coverage handoff is already pending") ;;;
  raise_if (negb match _active_draft_discard s with
                 | Some (a, _) => same_plan a plan | None => false end)
    (RuntimeError "draft-discard plan is not the active reservation") ;;;
  let* rolled_back := rollback_draft_discard plan in
  raise_if (negb rolled_back)
    (RuntimeError "active draft-discard reservation was not released") ;;;
  modify (set_pending (Some plan) None) ;;;
  ret true.

Definition abort_draft_coverage (plan : plan_ref) : MS bool :=
  let* s := get in
  match _pending_draft_coverage_plan s with
  | None => ret false
  | Some pending =>
      raise_if (negb (same_plan pending plan))
        (RuntimeError "pending draft-coverage plan identity mismatch") ;;;
      modify (set_pending None None) ;;;
      ret true
  end.

Definition check_rollback_row (row : _DecodeScheduleRollbackRow) : MS (nat * Z) :=
  let* q := seq_at (rb_sequence row) in
  raise_if (negb (rb_seq_id row =? seq_id q)%nat)
    (ValueError "failed schedule sequence ID drifted") ;;;
  raise_if (negb (bool_decide (status q = RUNNING))
            || is_prefill q
            || negb (num_scheduled_tokens q =? 1)
            || negb (num_tokens q =? rb_committed_tokens row)
            || negb (num_cached_tokens q =? rb_target_cached_tokens row)
            || negb (rb_target_cached_tokens row =? rb_committed_tokens row - 1)
            || negb (num_draft_cached_tokens q =? rb_draft_cached_tokens row))
    (RuntimeError "sequence changed before schedule rollback") ;;;
  ret (rb_sequence row, rb_expected_block_count row).

Definition rollback_failed_decode_schedule (rollback : DecodeScheduleRollback) : MS bool :=
  let* s := get in
  raise_if (bool_decide (is_Some (_active_draft_discard s)))
    (RuntimeError "temporary draft reservation is still active") ;;;
  raise_if (bool_decide (is_Some (_pending_draft_coverage_plan s)))
    (RuntimeError "draft coverage handoff is still pending") ;;;
  let* rollback_rows := map_all check_rollback_row rollback in
  let* changed := on_heap (rollback_uncommitted_appends rollback_rows) in
  for_each (λ row, set_seq (rb_sequence row) (set_num_scheduled_tokens 0)) rollback ;;;
  ret changed.

Definition abort_speculative_step : MS bool :=
  let* s := get in
  match _active_spec_transaction s with
  | None => ret false
  | Some t =>
      rollback_draft_discard (tx_plan t) ;;;
      abort_draft_coverage (tx_plan t) ;;;
      rollback_failed_decode_schedule (tx_baseline_decode_rollback t) ;;;
      modify (set_transaction None) ;;;
      ret true
  end.

Definition _rollback_active_draft_discard : MS unit :=
  let* s := get in
  match _active_draft_discard s with
  | None => ret tt
  | Some (plan, _) => rollback_draft_discard plan ;;; ret tt
  end.

(** Forget a handed-off plan that names one of [ids]. *)
Definition drop_pending (ids : list nat) : MS unit :=
  let* s := get in
  match _pending_draft_coverage_plan s with
  | None => ret tt
  | Some pending =>
      when (bool_decide (Exists (λ r, rf_seq_id r ∈ ids) (plan_rows (pr_plan pending))))
        (modify (set_pending None None))
  end.

Definition preempt (k : nat) : MS unit :=
  abort_speculative_step ;;;
  _rollback_active_draft_discard ;;;
  let* q := seq_at k in
  drop_pending [seq_id q] ;;;
  let* s := get in
  when (bool_decide (mid_chunk_seq s = Some k)) (modify (set_mid None)) ;;;
  set_seq k (set_status WAITING) ;;;
  set_seq k (set_is_prefill true) ;;;
  on_heap (deallocate k) ;;;
  set_seq k (set_num_draft_cached_tokens 0) ;;;
  modify (λ s, set_waiting (waiting s ++ [k]) s) ;;;
  _check_mid_chunk_invariant.

(** ** The decode loop of [schedule] *)

(** [self.waiting.popleft()]. *)
Definition waiting_popleft : MS nat :=
  let* s := get in
  match waiting s with
  | [] => raise IndexError
  | k :: rest => modify (set_waiting rest) ;;; ret k
  end.

(** [while not can_append(seq): ... else: ...]: [true] when the loop ended
    with room for the append, [false] when the row preempted itself. *)
Fixpoint make_room (fuel : nat) (k : nat) : MS bool :=
  match fuel with
  | O => raise OutOfFuel
  | S fuel' =>
      let* ok := on_heap (can_append k) in
      if ok then ret true else
      let* s := get in
      match mid_chunk_seq s, last (running s) with
      | Some _, _ =>
          let* w := waiting_popleft in
          preempt w ;;; make_room fuel' k
      | None, Some victim =>
          modify (set_running (removelast (running s))) ;;;
          preempt victim ;;; make_room fuel' k
      | None, None => preempt k ;;; ret false
      end
  end.

Fixpoint decode_loop (fuel : nat) (scheduled : list nat) : MS (list nat) :=
  match fuel with
  | O => raise OutOfFuel
  | S fuel' =>
      let* s := get in
      match running s with
      | [] => ret scheduled
      | k :: rest =>
          if negb (Z.of_nat (length scheduled) <? max_num_seqs (sc_config s))
          then ret scheduled else
          modify (set_running rest) ;;;
          let* room := make_room (S (S (length rest))) k in
          if room then
            set_seq k (set_num_scheduled_tokens 1) ;;;
            set_seq k (set_is_prefill false) ;;;
            on_heap (may_append k) ;;;
            decode_loop fuel' (scheduled ++ [k])
          else decode_loop fuel' scheduled
      end
  end.

(** ** The chunked-prefill loop of [schedule] *)

(** The admission of one waiting head: the cached prefix to reuse (for a
    sequence without blocks) and the tokens left to compute; [None] is the
    [break] when the pool cannot hold the whole request. *)
Definition prefill_work (k : nat) : MS (option (option Z * Z)) :=
  let* q := seq_at k in
  if bool_decide (block_table q = []) then
    let* nc := on_heap (can_allocate compute_hash k) in
    if nc =? -1 then ret None else
    let* c := gets sc_config in
    ret (Some (Some nc, num_tokens q - nc * sc_block_size c))
  else ret (Some (None, num_tokens q - num_cached_tokens q)).

(** Give the head its blocks: [false] when the extension found no room. *)
Definition prefill_alloc (k : nat) (num_cached_blocks : option Z) : MS bool :=
  let* q := seq_at k in
  let* c := gets sc_config in
  match num_cached_blocks with
  | Some nc =>
      let* allocated := on_heap (allocate_incremental compute_hash k nc
        (nc * sc_block_size c + num_scheduled_tokens q)) in
      raise_if (negb allocated)
        (RuntimeError "incremental KV allocation changed after admission") ;;;
      ret true
  | None => on_heap (extend k (num_cached_tokens q + num_scheduled_tokens q))
  end.

(** A head whose whole prompt is now scheduled joins the running queue. *)
Definition promote (k : nat) : MS unit :=
  let* q := seq_at k in
  when (num_cached_tokens q + num_scheduled_tokens q =? num_tokens q)
    (let* s := get in
     when (bool_decide (mid_chunk_seq s = Some k)) (modify (set_mid None)) ;;;
     set_seq k (set_status RUNNING) ;;;
     waiting_popleft ;;;
     modify (λ s, set_running (running s ++ [k]) s)).

Definition stamp_first_scheduled (k : nat) : MS unit :=
  let* q := seq_at k in
  match first_scheduled_time (times q) with
  | Some _ => ret tt
  | None =>
      let* now := read_clock in
      set_seq k (λ q, set_times (set_first_scheduled_time (Some now) (times q)) q)
  end.

Fixpoint prefill_loop (fuel : nat) (scheduled : list nat) (num_batched_tokens : Z)
    : MS (list nat) :=
  match fuel with
  | O => raise OutOfFuel
  | S fuel' =>
      let* s := get in
      match waiting s with
      | [] => ret scheduled
      | k :: _ =>
          if negb (Z.of_nat (length scheduled) <? max_num_seqs (sc_config s))
          then ret scheduled else
          let remaining := max_num_batched_tokens (sc_config s) - num_batched_tokens in
          if remaining <=? 0 then ret scheduled else
          let* work := prefill_work k in
          match work with
          | None => ret scheduled
          | Some (num_cached_blocks, num_tokens) =>
              set_seq k (set_num_scheduled_tokens (Z.min num_tokens remaining)) ;;;
              let* allocated := prefill_alloc k num_cached_blocks in
              if negb allocated then
                set_seq k (set_num_scheduled_tokens 0) ;;;
                (let* w := waiting_popleft in preempt w) ;;;
                if bool_decide (scheduled = [])
                then prefill_loop fuel' scheduled num_batched_tokens
                else ret scheduled
              else
                promote k ;;;
                stamp_first_scheduled k ;;;
                let scheduled' := scheduled ++ [k] in
                if Z.min num_tokens remaining <? num_tokens then
                  let* s' := get in
                  raise_if match mid_chunk_seq s' with
                           | None => false
                           | Some m => negb (m =? k)%nat
                           end (RuntimeError "more than one sequence is mid-chunk") ;;;
                  modify (set_mid (Some k)) ;;;
                  ret scheduled'
                else prefill_loop fuel' scheduled'
                       (num_batched_tokens + Z.min num_tokens remaining)
          end
      end
  end.

Definition schedule : MS (list nat * bool) :=
  let* s := get in
  raise_if (bool_decide (is_Some (_active_spec_transaction s)))
    (RuntimeError "cannot schedule before speculative transaction completes") ;;;
  raise_if (bool_decide (is_Some (_active_draft_discard s)))
    (RuntimeError "cannot schedule while a draft-discard reservation is active") ;;;
  raise_if (bool_decide (is_Some (_pending_draft_coverage_plan s)))
    (RuntimeError "cannot schedule before committing draft-cache coverage") ;;;
  _check_mid_chunk_invariant ;;;
  let* decodes := decode_loop (S (length (running s))) [] in
  let num_decodes := length decodes in
  modify (λ s, set_running (decodes ++ running s) s) ;;;
  let* s1 := get in
  let* scheduled := prefill_loop (S (2 * length (waiting s1))) decodes
                      (Z.of_nat num_decodes) in
  let* s2 := get in
  raise_if (bool_decide (scheduled = []) && bool_decide (waiting s2 = [])
            && bool_decide (running s2 = []))
    (RuntimeError "cannot schedule: no pending requests") ;;;
  raise_if (bool_decide (scheduled = []))
    (RuntimeError "scheduler could not schedule pending work with the available KV-cache blocks") ;;;
  _check_mid_chunk_invariant ;;;
  ret (scheduled, (num_decodes <? length scheduled)%nat).

(** ** Committing a step *)

Definition invalid_target_token (c : sched_config) (t : Z) : bool :=
  (t <? 0) || match vocab_size c with Some v => v <=? t | None => false end.

(** The row of a sequence in the handed-off plan: [rows_by_id[seq.seq_id]]. *)
Definition facts_of (p : cycle_plan) (id : nat) : outcome row_facts :=
  let rows_by_id : gmap nat row_facts :=
    list_to_map (reverse ((λ r, (rf_seq_id r, r)) <$> plan_rows p)) in
  match rows_by_id !! id with
  | Some r => Ok r
  | None => Raise KeyError
  end.

(** The checks of a batch against a pending draft handoff. *)
Definition check_handoff (pending : plan_ref) (seqs : list nat) : MS unit :=
  let planned_ids : list nat := rf_seq_id <$> plan_rows (pr_plan pending) in
  let* qs := map_all seq_at seqs in
  raise_if (negb (bool_decide ((seq_id <$> qs) = planned_ids)))
    (ValueError "postprocess sequence IDs/order do not match draft handoff") ;;;
  let* s := get in
  raise_if (negb (bool_decide ((fmap (M:=list) fst <$> _pending_draft_coverage s) = Some planned_ids)))
    (RuntimeError "draft coverage was not staged before target work") ;;;
  for_each (λ q,
    let* row := lift (facts_of (pr_plan pending) (seq_id q)) in
    raise_if (negb (bool_decide (status q = RUNNING))
              || is_prefill q
              || negb (num_scheduled_tokens q =? 1)
              || negb (num_tokens q =? rf_committed_tokens row)
              || negb (num_cached_tokens q =? rf_target_cached_tokens row)
              || negb (num_draft_cached_tokens q =? rf_draft_cached_tokens row))
      (RuntimeError "sequence changed before target commit")) qs.

(** Everything [postprocess] checks before the first mutation. *)
Definition check_postprocess (seqs : list nat) (token_ids : list Z) : MS unit :=
  let* s := get in
  raise_if match _active_spec_transaction s with
           | None => false
           | Some t => negb match _pending_draft_coverage_plan s with
                            | Some p => same_plan p (tx_plan t) | None => false end
           end (RuntimeError "speculative transaction has not handed off to target commit") ;;;
  raise_if (bool_decide (is_Some (_active_draft_discard s)))
    (RuntimeError "draft-discard reservation must be handed off before postprocess") ;;;
  raise_if (negb (length token_ids =? length seqs)%nat)
    (ValueError "target token count does not match the scheduled batch") ;;;
  raise_if (existsb (invalid_target_token (sc_config s)) token_ids)
    (ValueError "target token IDs must be in the vocabulary") ;;;
  match _pending_draft_coverage_plan s with
  | None => ret tt
  | Some pending => check_handoff pending seqs
  end.

(** The effect of a token on its sequence: append, stamp. *)
Definition commit_token (now t : Z) (q : sequence) : sequence :=
  let q := append_token t q in
  let tm := times q in
  let tm := match first_token_time tm with
            | None => set_first_token_time (Some now) tm | Some _ => tm end in
  set_times (set_token_times (token_times tm ++ [now]) tm) q.

(** The stop condition after [t] was appended. *)
Definition stops (c : sched_config) (t : Z) (q : sequence) : bool :=
  (negb (sp_ignore_eos (params q)) && (t =? eos c))
  || (sp_max_tokens (params q) <=? num_completion_tokens q).

(** [deque.remove(seq)] on the running queue. *)
Definition running_remove (k : nat) : MS unit :=
  let* s := get in
  match remove_first k (running s) with
  | None => raise (ValueError "deque.remove(x): x not in deque")
  | Some rest => modify (set_running rest)
  end.

(** One turn of the commit loop: the event of the row, if it emits one. *)
Definition commit_row (now : Z) (kt : nat * Z) : MS (option StreamOutput) :=
  let '(k, t) := kt in
  on_heap (hash_blocks compute_hash k) ;;;
  set_seq k (λ q, set_num_cached_tokens (num_cached_tokens q + num_scheduled_tokens q) q) ;;;
  set_seq k (set_num_scheduled_tokens 0) ;;;
  let* q := seq_at k in
  if num_cached_tokens q <? num_tokens q then ret None else
  set_seq k (commit_token now t) ;;;
  let* q := seq_at k in
  let* c := gets sc_config in
  let finished := stops c t q in
  when finished
    (set_seq k (λ q, set_times (set_finish_time (Some now) (times q)) q) ;;;
     set_seq k (set_status FINISHED) ;;;
     on_heap (deallocate k) ;;;
     set_seq k (set_num_draft_cached_tokens 0) ;;;
     running_remove k) ;;;
  ret (Some (mk_StreamOutput (seq_id q) t finished)).

(** Draft coverage of a row that stays in the batch. *)
Definition commit_coverage (coverage : gmap nat Z) (k : nat) : MS unit :=
  let* q := seq_at k in
  when (bool_decide (status q = RUNNING))
    (match coverage !! seq_id q with
     | None => raise KeyError
     | Some v => set_seq k (set_num_draft_cached_tokens v)
     end).

Definition postprocess (seqs : list nat) (token_ids : list Z) : MS (list StreamOutput) :=
  check_postprocess seqs token_ids ;;;
  let* s := get in
  let* now := read_clock in
  let* events := map_all (commit_row now) (zip seqs token_ids) in
  match _pending_draft_coverage_plan s with
  | None => ret tt
  | Some _ =>
      for_each (commit_coverage
        (list_to_map (reverse (default [] (_pending_draft_coverage s))))) seqs ;;;
      modify (set_pending None None)
  end ;;;
  when (bool_decide (is_Some (_active_spec_transaction s))) (modify (set_transaction None)) ;;;
  ret (omap id events).

(** ** Cancellation *)

(** Remove one target from a queue once its cleanup succeeded. *)
Definition cancel_one (in_waiting : bool) (k : nat) : MS nat :=
  let* q := seq_at k in
  when (negb (bool_decide (block_table q = []))) (on_heap (deallocate k)) ;;;
  let* s := get in
  match remove_first k (if in_waiting then waiting s else running s) with
  | None => raise (ValueError "deque.remove(x): x not in deque")
  | Some rest => modify (if in_waiting then set_waiting rest else set_running rest)
  end ;;;
  when (bool_decide (mid_chunk_seq s = Some k)) (modify (set_mid None)) ;;;
  set_seq k (set_num_scheduled_tokens 0) ;;;
  set_seq k (set_num_draft_cached_tokens 0) ;;;
  set_seq k (set_status CANCELLED) ;;;
  ret (seq_id q).

(** The members of a queue whose ids are targets. *)
Definition targets_in (targets : gset nat) (queue : list nat) : MS (list nat) :=
  let* qs := map_all seq_at queue in
  ret (fst <$> filter (λ kq, seq_id kq.2 ∈ targets) (zip queue qs)).

Definition cancel (seq_ids : list nat) : MS (list nat) :=
  let targets : gset nat := list_to_set seq_ids in
  if bool_decide (targets = ∅) then ret [] else
  let* s := get in
  let* queued := targets_in targets (waiting s ++ running s) in
  if bool_decide (queued = []) then ret [] else
  abort_speculative_step ;;;
  _rollback_active_draft_discard ;;;
  drop_pending (elements targets) ;;;
  let* s := get in
  let* in_waiting := targets_in targets (waiting s) in
  let* cancelled_w := map_all (cancel_one true) in_waiting in
  let* s := get in
  let* in_running := targets_in targets (running s) in
  let* cancelled_r := map_all (cancel_one false) in_running in
  _check_mid_chunk_invariant ;;;
  ret (cancelled_w ++ cancelled_r).

Definition cancel_all : MS (list nat) :=
  let* s := get in
  let* qs := map_all seq_at (running s ++ waiting s) in
  cancel (seq_id <$> qs).
End scheduler.
