(* ===== verification/KVContract.v ===== *)
(** * KVContract: what the scheduler may assume of the block manager

    [KVAllocator I] is the interface between the allocator and the scheduler:
    [I] is an invariant of the heap that every call the scheduler makes keeps,
    and each call has its effect on the sequence store and on the refusal it
    may answer.  The scheduler's theorems are proved against the class; the
    instance is discharged by the allocator's own lemmas, with [I] the ledger
    invariant, the absence of a lease, and the soundness of the prefix cache. *)
From S2P Require Import Prelude SamplingParams Sequence Heap BlockManager Reservation.
From S2P Require Import AllocatorInv BlockManagerInv BlockManagerSpec ReservationInv CacheInv.

(** A sequence whose attributes changed without touching its blocks: the
    scheduler's own assignments, and token appends. *)
Record evolves (s s' : sequence) : Prop := {
  ev_table : block_table s' = block_table s;
  ev_id : seq_id s' = seq_id s;
  ev_cached : num_cached_tokens s' = num_cached_tokens s;
  ev_tokens : ∃ l, token_ids s' = token_ids s ++ l;
  ev_wf : seq_wf s';
}.

Definition put_seq (k : nat) (s : sequence) : heap → heap := set_seqs <[k := s]>.

Class KVAllocator (compute_hash : list Z → Z → Z) (I : heap → Prop) : Prop := {
  kv_size h : I h → 0 < block_size (hp_bm h);
  kv_seq h k s : I h → hp_seqs h !! k = Some s → seq_id s = k ∧ seq_wf s;
  kv_unleased h : I h → _active_temporary_reservations (hp_bm h) = ∅;
  kv_put h k s s' : I h → hp_seqs h !! k = Some s → evolves s s' → I (put_seq k s' h);
  kv_new h k s : I h → hp_seqs h !! k = None → seq_id s = k → seq_wf s →
    block_table s = [] → num_cached_tokens s = 0 → I (put_seq k s h);
  kv_append h k s : I h → hp_seqs h !! k = Some s →
    ∃ ok, can_append k h = (Ok ok, h) ∧
      (ok = true → ∃ h' new, may_append k h = (Ok tt, h') ∧ I h' ∧
         block_size (hp_bm h') = block_size (hp_bm h) ∧
         Z.of_nat (length new) =
           (if num_tokens s `mod` block_size (hp_bm h) =? 1 then 1 else 0) ∧
         hp_seqs h' = <[k := set_block_table (block_table s ++ new) s]> (hp_seqs h));
  kv_extend h k s through : I h → hp_seqs h !! k = Some s → block_table s ≠ [] →
    1 <= through <= num_tokens s →
    ∃ ok h', extend k through h = (Ok ok, h') ∧
      if ok : bool then I h' ∧ block_size (hp_bm h') = block_size (hp_bm h) ∧ ∃ new,
        hp_seqs h' = <[k := set_block_table (block_table s ++ new) s]> (hp_seqs h) ∧
        Z.of_nat (length new) =
          Z.max 0 (ceil_div through (block_size (hp_bm h)) - Z.of_nat (length (block_table s)))
      else h' = h ∧ Z.of_nat (length (free_block_ids (hp_bm h))) <
             ceil_div through (block_size (hp_bm h)) - Z.of_nat (length (block_table s));
  kv_admit h k s : I h → hp_seqs h !! k = Some s → block_table s = [] →
    ∃ nc, can_allocate compute_hash k h = (Ok nc, h) ∧
      (nc = -1 ∧ Z.of_nat (length (free_block_ids (hp_bm h))) < num_blocks (block_size (hp_bm h)) s ∨
       0 <= nc < num_blocks (block_size (hp_bm h)) s ∧
       ∀ n through, nc * block_size (hp_bm h) < through <= num_tokens s →
       ∃ h' table,
         allocate_incremental compute_hash k nc through
           (put_seq k (set_num_scheduled_tokens n s) h) = (Ok true, h') ∧ I h' ∧
         block_size (hp_bm h') = block_size (hp_bm h) ∧
         Z.of_nat (length table) = ceil_div through (block_size (hp_bm h)) ∧
         hp_seqs h' = <[k := set_num_draft_cached_tokens 0
           (set_num_cached_tokens (nc * block_size (hp_bm h))
             (set_block_table table (set_num_scheduled_tokens n s)))]> (hp_seqs h));
  kv_all_free h : I h → (∀ k s, hp_seqs h !! k = Some s → block_table s = []) →
    length (free_block_ids (hp_bm h)) = length (blocks (hp_bm h));
  (** the blocks outside the free list belong to some table *)
  kv_sole h k s : I h → hp_seqs h !! k = Some s →
    (∀ k' s', hp_seqs h !! k' = Some s' → k' ≠ k → block_table s' = []) →
    (length (blocks (hp_bm h)) <= length (free_block_ids (hp_bm h)) + length (block_table s))%nat;
  kv_free h k s : I h → hp_seqs h !! k = Some s →
    ∃ h', deallocate k h = (Ok tt, h') ∧ I h' ∧
      block_size (hp_bm h') = block_size (hp_bm h) ∧
      hp_seqs h' = <[k := set_block_table [] (set_num_draft_cached_tokens 0
                            (set_num_cached_tokens 0 s))]> (hp_seqs h);
  kv_commit h k s : I h → hp_seqs h !! k = Some s →
    step_covered (block_size (hp_bm h)) s →
    ∃ h', hash_blocks compute_hash k h = (Ok tt, h') ∧
      block_size (hp_bm h') = block_size (hp_bm h) ∧ hp_seqs h' = hp_seqs h ∧
      I (put_seq k (set_num_cached_tokens (num_cached_tokens s + num_scheduled_tokens s) s) h');
}.

(** ** The allocator implements the contract *)

Section instance.
Variable compute_hash : list Z → Z → Z.
Hypothesis compute_hash_nonneg : ∀ toks p, 0 <= compute_hash toks p.

Definition kv_inv (h : heap) : Prop :=
  alloc_ok none h ∧ quiescent h ∧ cache_ok compute_hash h.

Lemma quiescent_frame h h' : same_frame h h' → quiescent h → quiescent h'.
Proof. intros [] []. split; congruence. Qed.

Lemma nth_block_app bs t l j :
  0 < bs → Z.of_nat (S j) * bs <= Z.of_nat (length t) →
  nth_block bs (t ++ l) j = nth_block bs t j.
Proof. intros Hbs Hj. apply slice_app; nia. Qed.

Lemma chain_app bs t l n :
  0 < bs → Z.of_nat n * bs <= Z.of_nat (length t) →
  chain compute_hash bs (t ++ l) n = chain compute_hash bs t n.
Proof.
  intros Hbs. induction n as [|n IH]; intros Hn; [done|]. simpl.
  rewrite nth_block_app, IH by nia. done.
Qed.

Lemma alloc_ok_put h k s s' :
  alloc_ok none h → hp_seqs h !! k = Some s →
  (∀ i, count i (block_table s') = count i (block_table s)) →
  seq_id s' = k → seq_wf s' → alloc_ok none (put_seq k s' h).
Proof.
  intros [Hs Hnd Hp Hd Hb Hh Ht Hq] Hk Hcount Hid Hwf. split; simpl; try done.
  - intros i b Hi. destruct (Hb _ _ Hi) as [? Hr ? ?]. split; simpl; try done.
    pose proof (refs_insert (hp_seqs h) k s s' i Hk) as Hri. rewrite Hcount in Hri. lia.
  - intros k' s0 i. rewrite lookup_insert. case_decide; [|by eauto]. intros ?; simplify_eq.
    intros Hi. apply (Ht _ s i Hk). apply count_pos. rewrite <-Hcount. by apply count_pos.
  - intros k' s0. rewrite lookup_insert. case_decide; [|by eauto]. intros ?; by simplify_eq.
Qed.

Lemma evolves_covered h s s' :
  alloc_ok none h → seq_wf s → evolves s s' → seq_covered compute_hash h s →
  seq_covered compute_hash h s'.
Proof.
  intros Hok [Hw _ _] [E1 _ E3 [l E4] [Hw' _ _]] [Hb Ht Hp]. destruct (ok_size _ _ Hok) as [Hbs _].
  split; rewrite ?E1, ?E3.
  - rewrite Hw', E4, length_app. lia.
  - done.
  - intros j i Hj. destruct (Hp j i Hj) as (b & Hbl & Hpos). exists b. split; [done|].
    unfold position_ok in *. rewrite E3, E4.
    destruct (Z.of_nat (S j) * block_size (hp_bm h) <=? num_cached_tokens s) eqn:E; [|done].
    apply Z.leb_le in E. by rewrite chain_app, nth_block_app by lia.
Qed.

Lemma cache_ok_put h k s' :
  alloc_ok none h → cache_ok compute_hash h → seq_covered compute_hash h s' →
  cache_ok compute_hash (put_seq k s' h).
Proof.
  intros Hok Hc Hs' k' s. simpl. rewrite lookup_insert. intros Hk'.
  assert (seq_covered compute_hash h s) as Hcov
    by (case_decide; simplify_eq; [done|by eapply Hc]).
  by apply (seq_covered_same compute_hash h).
Qed.

Lemma put_inv h k s s' :
  kv_inv h → hp_seqs h !! k = Some s → evolves s s' → kv_inv (put_seq k s' h).
Proof.
  intros (Hok & Hq & Hc) Hk He. destruct (ok_seqs _ _ Hok _ _ Hk) as [Hid Hwf].
  split; [|split].
  - apply (alloc_ok_put h k s); try done; [by rewrite (ev_table _ _ He)| |apply He].
    by rewrite (ev_id _ _ He).
  - by destruct Hq.
  - apply cache_ok_put; try done. eapply evolves_covered; try done. by eapply Hc.
Qed.

Lemma new_inv h k s :
  kv_inv h → hp_seqs h !! k = None → seq_id s = k → seq_wf s →
  block_table s = [] → num_cached_tokens s = 0 → kv_inv (put_seq k s h).
Proof.
  intros (Hok & Hq & Hc) Hk Hid Hwf Ht Hcached. split; [|split].
  - destruct Hok as [Hs Hnd Hp Hd Hb Hh Htab Hseqs]. split; simpl; try done.
    + intros i b Hi. destruct (Hb _ _ Hi) as [? Hr ? ?]. split; simpl; try done.
      by rewrite refs_insert_new, Ht by done.
    + intros k' s0 i. rewrite lookup_insert. case_decide; [|by eauto].
      intros ?; simplify_eq. rewrite Ht. set_solver.
    + intros k' s0. rewrite lookup_insert. case_decide; [|by eauto]. intros ?; by simplify_eq.
  - by destruct Hq.
  - apply cache_ok_put; [done|done|]. split; rewrite ?Hcached, ?Ht; [|simpl; lia|done].
    destruct Hwf as [_ ? _]. lia.
Qed.

(** *** The operations *)

Lemma grown_inv h h' k s new :
  kv_inv h → hp_seqs h !! k = Some s → grown k new h h' → alloc_ok none h' →
  kv_inv h' ∧ block_size (hp_bm h') = block_size (hp_bm h) ∧
  hp_seqs h' = <[k := set_block_table (block_table s ++ new) s]> (hp_seqs h).
Proof.
  intros (Hok & Hq & Hc) Hk Hg Hok'. split; [split; [done|split]|split].
  - eapply quiescent_frame; [apply Hg|done].
  - exact (cache_ok_grown compute_hash h h' k s new Hok Hc Hk Hg).
  - apply (gr_frame _ _ _ _ Hg).
  - rewrite (gr_seqs _ _ _ _ Hg). by rewrite (alter_insert_eq _ _ _ _ Hk).
Qed.

Lemma append_inv h k s :
  kv_inv h → hp_seqs h !! k = Some s →
  ∃ ok, can_append k h = (Ok ok, h) ∧
    (ok = true → ∃ h' new, may_append k h = (Ok tt, h') ∧ kv_inv h' ∧
       block_size (hp_bm h') = block_size (hp_bm h) ∧
       Z.of_nat (length new) =
         (if num_tokens s `mod` block_size (hp_bm h) =? 1 then 1 else 0) ∧
       hp_seqs h' = <[k := set_block_table (block_table s ++ new) s]> (hp_seqs h)).
Proof.
  intros Hi Hk. pose proof Hi as (Hok & Hq & Hc).
  destruct (may_append_run h k s Hok (quiescent_unfenced _ Hq) Hk) as (ok & E & Hr).
  exists ok. split; [done|]. intros ->. destruct Hr as (h' & new & E' & Hg & Hlen & Hok').
  destruct (grown_inv h h' k s new Hi Hk Hg Hok') as (? & ? & ?).
  exists h', new. split_and!; try done. rewrite Hlen. by case_match.
Qed.

Lemma extend_inv h k s through :
  kv_inv h → hp_seqs h !! k = Some s → block_table s ≠ [] → 1 <= through <= num_tokens s →
  ∃ ok h', extend k through h = (Ok ok, h') ∧
    if ok : bool then kv_inv h' ∧ block_size (hp_bm h') = block_size (hp_bm h) ∧ ∃ new,
      hp_seqs h' = <[k := set_block_table (block_table s ++ new) s]> (hp_seqs h) ∧
      Z.of_nat (length new) =
        Z.max 0 (ceil_div through (block_size (hp_bm h)) - Z.of_nat (length (block_table s)))
    else h' = h ∧ Z.of_nat (length (free_block_ids (hp_bm h))) <
           ceil_div through (block_size (hp_bm h)) - Z.of_nat (length (block_table s)).
Proof.
  intros Hi Hk Ht Hthr. pose proof Hi as (Hok & Hq & Hc).
  pose proof (extend_wp h k s through Hok Hk) as Hw. unfold wp in Hw.
  destruct (extend k through h) as [[ok|e] h'].
  - exists ok, h'. split; [done|]. destruct Hw as [_ Hw]. destruct ok; [|tauto].
    destruct Hw as (Hok' & new & Hg & Hlen).
    destruct (grown_inv h h' k s new Hi Hk Hg Hok') as (? & ? & ?). eauto 10.
  - exfalso. apply Hw. split; [by apply quiescent_unfenced|done].
Qed.

(** What [can_allocate] reads of a sequence is its tokens. *)
Lemma can_allocate_loop_scheduled n bs m s idx h c w :
  can_allocate_loop compute_hash bs m (set_num_scheduled_tokens n s) idx h c w =
  can_allocate_loop compute_hash bs m s idx h c w.
Proof.
  revert h c w. induction idx as [|i idx IH]; intros h c w; [done|]. simpl.
  change (seq_block bs (set_num_scheduled_tokens n s) i) with (seq_block bs s i).
  destruct (seq_block bs s i); simpl; [|done]. by case_match.
Qed.

Lemma can_allocate_scheduled h k s n :
  hp_seqs h !! k = Some s →
  (can_allocate compute_hash k (put_seq k (set_num_scheduled_tokens n s) h)).1 =
  (can_allocate compute_hash k h).1.
Proof.
  intros Hk. unfold can_allocate.
  rewrite (bind_ok _ _ _ _ _ (get_seq_ok _ _ _ Hk)).
  erewrite (bind_ok (get_seq k)); [|by apply get_seq_ok, lookup_insert_eq].
  unfold inspect. simpl. by rewrite can_allocate_loop_scheduled.
Qed.

Lemma can_allocate_refuses h k s :
  hp_seqs h !! k = Some s → hp_seq_block_size h = block_size (hp_bm h) →
  can_allocate compute_hash k h = (Ok (-1), h) →
  Z.of_nat (length (free_block_ids (hp_bm h))) < num_blocks (block_size (hp_bm h)) s.
Proof.
  intros Hk Hsz. unfold can_allocate. rewrite (bind_ok _ _ _ _ _ (get_seq_ok _ _ _ Hk)).
  unfold inspect. rewrite Hsz.
  destruct (can_allocate_loop _ _ _ _ _ _ _ _) as [[c n]|] eqn:E; simpl; [|done].
  destruct (can_allocate_loop_prefix _ _ _ _ _ _ _ _ _ _ E) as (ids & _ & -> & -> & _).
  destruct (_ <? _) eqn:El; [apply Z.ltb_lt in El; lia|intros [= Hc]; lia].
Qed.

Lemma all_free_inv h :
  kv_inv h → (∀ k s, hp_seqs h !! k = Some s → block_table s = []) →
  length (free_block_ids (hp_bm h)) = length (blocks (hp_bm h)).
Proof.
  intros (Hok & _ & _) Hempty.
  assert (∀ i, refs (hp_seqs h) i = 0%nat) as Hz.
  { intros i. clear Hok. induction (hp_seqs h) as [|k s ss Hn IH] using map_ind; [done|].
    rewrite refs_insert_new, (Hempty k s) by (done || by rewrite lookup_insert_eq).
    rewrite IH; [done|]. intros k' s' Hk'. apply (Hempty k').
    rewrite lookup_insert_ne; [done|congruence]. }
  rewrite <-(length_seq (length (blocks (hp_bm h))) 0). apply Permutation_length.
  apply NoDup_Permutation; [apply Hok|apply NoDup_seq|]. intros i. rewrite elem_of_seq.
  destruct (decide (i < length (blocks (hp_bm h)))%nat) as [Hi|Hi].
  - rewrite (alloc_ok_free_iff _ _ Hok Hi), Hz. lia.
  - split; [intros Hf; by eapply alloc_ok_free_lt in Hf|lia].
Qed.

Lemma refs_sole ss k s i :
  ss !! k = Some s → (∀ k' s', ss !! k' = Some s' → k' ≠ k → block_table s' = []) →
  refs ss i = count i (block_table s).
Proof.
  intros Hk Hempty. rewrite <-(insert_delete_id ss k s Hk), refs_insert_new by apply lookup_delete_eq.
  assert (refs (delete k ss) i = 0%nat) as ->; [|lia].
  assert (∀ k' s', delete k ss !! k' = Some s' → block_table s' = []) as He.
  { intros k' s' [Hne Hk']%lookup_delete_Some. by eapply Hempty. }
  revert He. generalize (delete k ss). clear. intros ss.
  induction ss as [|k s ss Hn IH] using map_ind; intros He; [done|].
  rewrite refs_insert_new, (He k s) by (done || by rewrite lookup_insert_eq).
  rewrite IH; [done|]. intros k' s' Hk'. apply (He k').
  rewrite lookup_insert_ne; [done|congruence].
Qed.

Lemma sole_inv h k s :
  kv_inv h → hp_seqs h !! k = Some s →
  (∀ k' s', hp_seqs h !! k' = Some s' → k' ≠ k → block_table s' = []) →
  (length (blocks (hp_bm h)) <= length (free_block_ids (hp_bm h)) + length (block_table s))%nat.
Proof.
  intros (Hok & _ & _) Hk Hempty.
  rewrite <-(length_seq (length (blocks (hp_bm h))) 0), <-length_app.
  apply submseteq_length, NoDup_submseteq; [apply NoDup_seq|]. intros i. rewrite elem_of_seq.
  intros [_ Hi]. simpl in Hi. apply elem_of_app.
  destruct (decide (i ∈ block_table s)) as [|Hn]; [by right|left].
  apply (alloc_ok_free_iff _ _ Hok Hi). rewrite (refs_sole _ k s i Hk Hempty).
  destruct (count i (block_table s)) eqn:Ec; [done|]. exfalso. apply Hn, count_pos. lia.
Qed.

Lemma attached_inv h h' k s ids new nc :
  kv_inv h → hp_seqs h !! k = Some s → attached k ids new nc h h' →
  alloc_ok none h' → cache_ok compute_hash h' →
  kv_inv h' ∧ block_size (hp_bm h') = block_size (hp_bm h) ∧
  hp_seqs h' = <[k := set_num_draft_cached_tokens 0 (set_num_cached_tokens nc
    (set_block_table (block_table s ++ ids ++ new) s))]> (hp_seqs h).
Proof.
  intros (Hok & Hq & _) Hk (h1 & h2 & Hp & Hg & ->) Hok' Hc'.
  pose proof (pi_frame _ _ _ _ Hp) as Hf1. pose proof (gr_frame _ _ _ _ Hg) as Hf2.
  assert (quiescent h2) as Hq2 by (eapply quiescent_frame; [|exact Hq]; by etrans).
  split; [split; [done|split; [by destruct Hq2|done]]|split].
  - simpl. rewrite (fr_size _ _ Hf2). apply (fr_size _ _ Hf1).
  - simpl. rewrite (gr_seqs _ _ _ _ Hg), (pi_seqs _ _ _ _ Hp).
    apply map_eq. intros j. rewrite !lookup_alter, lookup_insert.
    repeat case_decide; simplify_eq; [|done]. rewrite Hk. simpl. unfold set_block_table at 1 2.
    simpl. by rewrite app_assoc.
Qed.

Lemma admit_inv h k s :
  kv_inv h → hp_seqs h !! k = Some s → block_table s = [] →
  ∃ nc, can_allocate compute_hash k h = (Ok nc, h) ∧
    (nc = -1 ∧ Z.of_nat (length (free_block_ids (hp_bm h))) < num_blocks (block_size (hp_bm h)) s ∨
     0 <= nc < num_blocks (block_size (hp_bm h)) s ∧
     ∀ n through, nc * block_size (hp_bm h) < through <= num_tokens s →
     ∃ h' table,
       allocate_incremental compute_hash k nc through
         (put_seq k (set_num_scheduled_tokens n s) h) = (Ok true, h') ∧ kv_inv h' ∧
       block_size (hp_bm h') = block_size (hp_bm h) ∧
       Z.of_nat (length table) = ceil_div through (block_size (hp_bm h)) ∧
       hp_seqs h' = <[k := set_num_draft_cached_tokens 0
         (set_num_cached_tokens (nc * block_size (hp_bm h))
           (set_block_table table (set_num_scheduled_tokens n s)))]> (hp_seqs h)).
Proof.
  intros Hi Hk Ht. pose proof Hi as (Hok & Hq & Hc).
  destruct (can_allocate_run compute_hash h k s Hok Hk) as (nc & E & Hnc).
  exists nc. split; [done|].
  destruct Hnc as [->|[Hnc _]]; [left; split; [done|]|].
  { destruct (ok_size _ _ Hok) as [_ Hsz]. exact (can_allocate_refuses h k s Hk Hsz E). }
  right. split; [done|]. intros n through Hthr.
  set (h1 := put_seq k (set_num_scheduled_tokens n s) h).
  assert (kv_inv h1) as Hi1.
  { apply (put_inv h k s); try done. split; try done; [exists []; by rewrite app_nil_r|].
    by destruct (proj2 (ok_seqs _ _ Hok _ _ Hk)). }
  assert (hp_seqs h1 !! k = Some (set_num_scheduled_tokens n s)) as Hk1
    by apply lookup_insert_eq.
  pose proof Hi1 as (Hok1 & Hq1 & Hc1).
  destruct (can_allocate_run compute_hash h1 k _ Hok1 Hk1) as (nc' & E1 & Hadm).
  assert (nc' = nc) as ->.
  { pose proof (can_allocate_scheduled h k s n Hk) as Heq. fold h1 in Heq.
    rewrite E, E1 in Heq. simpl in Heq. congruence. }
  destruct Hadm as [->|[_ Hadm]]; [lia|].
  destruct (Hadm (quiescent_unfenced _ Hq1) Ht through) as [h' Ea]; [done|].
  pose proof (allocate_incremental_wp compute_hash h1 k _ nc through Hok1 Hk1) as Hw.
  unfold wp in Hw. rewrite Ea in Hw.
  destruct Hw as (Hpre & ids & Hids & Hok' & _ & new & Hat & Hlen).
  destruct (attached_inv h1 h' k _ ids new _ Hi1 Hk1 Hat Hok') as (? & ? & Hs').
  { destruct (ok_size _ _ Hok) as [Hbs _].
    apply (cache_ok_attached compute_hash h1 h' k (set_num_scheduled_tokens n s) ids new nc);
      try done; simpl; nia. }
  exists h', (ids ++ new). split_and!; try done.
  rewrite Hs'. simpl. rewrite insert_insert_eq, Ht. done.
Qed.

Lemma free_inv h k s :
  kv_inv h → hp_seqs h !! k = Some s →
  ∃ h', deallocate k h = (Ok tt, h') ∧ kv_inv h' ∧
    block_size (hp_bm h') = block_size (hp_bm h) ∧
    hp_seqs h' = <[k := set_block_table [] (set_num_draft_cached_tokens 0
                          (set_num_cached_tokens 0 s))]> (hp_seqs h).
Proof.
  intros (Hok & Hq & Hc) Hk.
  destruct (deallocate_run h k s Hok (quiescent_unfenced _ Hq) Hk)
    as (h' & E & Hok' & _ & Hs & _).
  destruct (deallocate_effect h k s Hok (quiescent_unfenced _ Hq) Hk) as (h1 & E1 & Hd & _).
  assert (h1 = h') as -> by congruence. exists h'. split; [done|]. split; [|split].
  - split; [done|]. split; [|by eapply (cache_ok_deallocated compute_hash h h')].
    destruct Hd as (h1 & Hr & ->).
    pose proof (quiescent_frame _ _ (rl_frame _ _ _ Hr) Hq) as []. by split.
  - destruct Hd as (h1 & Hr & ->). apply (fr_size _ _ (rl_frame _ _ _ Hr)).
  - done.
Qed.

Lemma commit_inv h k s :
  kv_inv h → hp_seqs h !! k = Some s → step_covered (block_size (hp_bm h)) s →
  ∃ h', hash_blocks compute_hash k h = (Ok tt, h') ∧
    block_size (hp_bm h') = block_size (hp_bm h) ∧ hp_seqs h' = hp_seqs h ∧
    kv_inv (put_seq k (set_num_cached_tokens
      (num_cached_tokens s + num_scheduled_tokens s) s) h').
Proof.
  intros (Hok & Hq & Hc) Hk Hstep.
  destruct (hash_blocks_run compute_hash compute_hash_nonneg h k s Hok Hc
    (quiescent_unfenced _ Hq) Hk Hstep) as (h1 & E & Hok1 & Hf & Hsq & Hself & Hrest).
  exists h1. split; [done|]. split; [apply (fr_size _ _ Hf)|]. split; [done|].
  assert (hp_seqs h1 !! k = Some s) as Hk1 by by rewrite Hsq.
  destruct (ok_seqs _ _ Hok _ _ Hk) as [Hid Hwf].
  split; [|split].
  - apply (alloc_ok_put h1 k s); try done. by destruct Hwf.
  - pose proof (quiescent_frame _ _ Hf Hq) as []. by split.
  - intros k' s'. simpl. rewrite Hsq, lookup_insert. case_decide as Hkk.
    + intros ?; simplify_eq. by apply (seq_covered_same compute_hash h1).
    + intros Hk'. apply (seq_covered_same compute_hash h1); try done. apply (Hrest k'); congruence.
Qed.

#[global] Instance block_manager_contract : KVAllocator compute_hash kv_inv.
Proof.
  split.
  - intros h (Hok & _). by destruct (ok_size _ _ Hok).
  - intros h k s (Hok & _). apply (ok_seqs _ _ Hok).
  - intros h (_ & Hq & _). apply Hq.
  - apply put_inv.
  - apply new_inv.
  - apply append_inv.
  - apply extend_inv.
  - apply admit_inv.
  - apply all_free_inv.
  - apply sole_inv.
  - apply free_inv.
  - apply commit_inv.
Qed.

(** A new manager over an empty store satisfies it. *)
Lemma init_inv n bs :
  0 < bs → kv_inv (mk_heap (BlockManager_init n bs) ∅ bs).
Proof.
  intros Hbs. destruct (init_alloc_ok n bs ∅ Hbs) as [Hok _]; [set_solver|].
  split; [done|]. split; [done|]. by intros k s.
Qed.
End instance.
