(* ===== verification/SchedInv.v ===== *)
(** * SchedInv: the scheduler's invariant

    [sinv out sch s]: the queues are disjoint and hold stored sequences, a
    waiting sequence owns blocks only if it is the partially prefilled head
    ([mid_chunk_seq]), a running one is one token behind its tokens, and every
    block table covers exactly the cached and scheduled tokens of its sequence.
    [sch] are the sequences scheduled in the step under way and [out] those the
    decode loop holds outside the queues; both are empty between steps.  The
    allocator enters through its contract [KVAllocator] alone. *)
From S2P Require Import Prelude SamplingParams Sequence Heap BlockManager Reservation SpecMemory.
From S2P Require Import SpecRoutes SpecPlan Scheduler CacheInv KVContract.

Abbreviation seqs s := (hp_seqs (sc_heap s)).
Abbreviation bsz s := (block_size (hp_bm (sc_heap s))).

(** ** Sequence predicates *)

(** The table covers exactly the cached and scheduled tokens. *)
Record cov_exact (bs : Z) (q : sequence) : Prop := {
  ce_cached : 0 <= num_cached_tokens q;
  ce_sched : 0 <= num_scheduled_tokens q;
  ce_bound : num_cached_tokens q + num_scheduled_tokens q <= num_tokens q;
  ce_table : Z.of_nat (length (block_table q)) =
    ceil_div (num_cached_tokens q + num_scheduled_tokens q) bs;
}.

(** A row that waits for its prompt. *)
Definition queued (q : sequence) : Prop := status q = WAITING ∧ is_prefill q = true.

Definition wait_ok (bs : Z) (mid : option nat) (sch : list nat) (k : nat) (q : sequence) : Prop :=
  queued q ∧ cov_exact bs q ∧
  num_cached_tokens q + num_scheduled_tokens q < num_tokens q ∧
  (mid = Some k ∨ block_table q = []) ∧
  if decide (k ∈ sch) then 0 < num_scheduled_tokens q else num_scheduled_tokens q = 0.

(** A row that was promoted, and stamped when it was first scheduled. *)
Definition started (q : sequence) : Prop :=
  status q = RUNNING ∧ is_Some (first_scheduled_time (times q)).

Definition run_ok (bs : Z) (sch : list nat) (k : nat) (q : sequence) : Prop :=
  started q ∧ cov_exact bs q ∧
  if decide (k ∈ sch)
  then 0 < num_scheduled_tokens q ∧
       num_cached_tokens q + num_scheduled_tokens q = num_tokens q ∧
       (is_prefill q = true ∨ num_scheduled_tokens q = 1)
  else num_scheduled_tokens q = 0 ∧ num_cached_tokens q + 1 = num_tokens q.

(** Scheduling [k] does not concern the others. *)
Lemma run_ok_other bs sch k x q : x ≠ k → run_ok bs sch x q → run_ok bs (sch ++ [k]) x q.
Proof.
  intros Hne (? & ? & Ht). split; [done|]. split; [done|].
  destruct (decide (x ∈ sch)); [rewrite decide_True by set_solver|rewrite decide_False by set_solver];
    done.
Qed.

Lemma wait_ok_other bs mid sch k x q :
  x ≠ k → wait_ok bs mid sch x q → wait_ok bs mid (sch ++ [k]) x q.
Proof.
  intros Hne (? & ? & ? & ? & Ht). split_and!; try done.
  destruct (decide (x ∈ sch)); [rewrite decide_True by set_solver|rewrite decide_False by set_solver];
    done.
Qed.

(** No speculative ownership is pending. *)
Definition no_plans (s : scheduler) : Prop :=
  _active_spec_transaction s = None ∧ _active_draft_discard s = None ∧
  _pending_draft_coverage_plan s = None.

Section inv.
Context (compute_hash : list Z → Z → Z) (I : heap → Prop)
  `{!KVAllocator compute_hash I}.

Record sinv (out sch : list nat) (s : scheduler) : Prop := {
  si_heap : I (sc_heap s);
  si_bs : bsz s = sc_block_size (sc_config s) ∧ 1 < bsz s;
  si_plans : no_plans s;
  si_nodup : NoDup (waiting s ++ running s ++ out);
  si_cap : Z.of_nat (length (waiting s ++ running s ++ out)) <= max_num_seqs (sc_config s);
  si_mid : ∀ m, mid_chunk_seq s = Some m →
    head (waiting s) = Some m ∧ ∃ q, seqs s !! m = Some q ∧ block_table q ≠ [];
  si_wait : ∀ k, k ∈ waiting s → ∃ q, seqs s !! k = Some q ∧
    wait_ok (bsz s) (mid_chunk_seq s) sch k q;
  si_run : ∀ k, k ∈ running s ++ out → ∃ q, seqs s !! k = Some q ∧ run_ok (bsz s) sch k q;
  (** no other sequence owns blocks *)
  si_owner : ∀ k q, seqs s !! k = Some q → k ∉ waiting s ++ running s ++ out →
    block_table q = [];
}.

(** ** Statements on the heap *)

Lemma on_heap_ok {A} (m : MH A) s a h' :
  m (sc_heap s) = (Ok a, h') → on_heap m s = (Ok a, set_heap h' s).
Proof. unfold on_heap, zoom. by intros ->. Qed.

Lemma set_heap_id s : set_heap (sc_heap s) s = s.
Proof. by destruct s. Qed.

Lemma on_heap_read {A} (m : MH A) s a :
  m (sc_heap s) = (Ok a, sc_heap s) → on_heap m s = (Ok a, s).
Proof. intros E. rewrite (on_heap_ok _ _ _ _ E). by rewrite set_heap_id. Qed.

Lemma seq_at_ok k s q : seqs s !! k = Some q → seq_at k s = (Ok q, s).
Proof. intros E. apply on_heap_read. unfold get_seq, inspect. by rewrite E. Qed.

Lemma set_seq_ok k f s q :
  seqs s !! k = Some q → set_seq k f s = (Ok tt, set_heap (put_seq k (f q) (sc_heap s)) s).
Proof.
  intros E. apply on_heap_ok. unfold upd_seq, modify, put_seq, set_seqs. do 2 f_equal.
  apply map_eq. intros j. rewrite lookup_alter, lookup_insert.
  case_decide; [|done]. subst. by rewrite E.
Qed.

(** Two writes of one sequence. *)
Lemma put_put k q q' h : put_seq k q (put_seq k q' h) = put_seq k q h.
Proof. unfold put_seq, set_seqs. simpl. by rewrite insert_insert_eq. Qed.

Lemma put_lookup k q h : hp_seqs (put_seq k q h) !! k = Some q.
Proof. apply lookup_insert_eq. Qed.

Lemma evolves_attr q q' :
  seq_wf q → block_table q' = block_table q → seq_id q' = seq_id q →
  num_cached_tokens q' = num_cached_tokens q → token_ids q' = token_ids q →
  num_tokens q' = num_tokens q → num_prompt_tokens q' = num_prompt_tokens q →
  last_token q' = last_token q → evolves q q'.
Proof.
  intros [H1 H2 H3] E1 E2 E3 E4 E5 E6 E7. split; try done.
  - exists []. by rewrite app_nil_r.
  - split; rewrite ?E4, ?E5, ?E6, ?E7; done.
Qed.

Lemma inv_put k q q' h :
  I h → hp_seqs h !! k = Some q → evolves q q' → I (put_seq k q' h).
Proof. intros. by eapply kv_put. Qed.

(** ** Preemption *)

(** What preemption makes of a sequence. *)
Definition requeued (q : sequence) : sequence :=
  set_num_draft_cached_tokens 0 (set_block_table [] (set_num_draft_cached_tokens 0
    (set_num_cached_tokens 0 (set_is_prefill true (set_status WAITING q))))).

Lemma no_plans_release s :
  no_plans s → abort_speculative_step s = (Ok false, s) ∧
  _rollback_active_draft_discard s = (Ok tt, s) ∧ ∀ ids, drop_pending ids s = (Ok tt, s).
Proof.
  intros (E1 & E2 & E3). unfold abort_speculative_step, _rollback_active_draft_discard,
    drop_pending, bind, get, ret. by rewrite E1, E2, E3.
Qed.

(** The check of the waiting head, when no chunk is under way. *)
Lemma check_mid_none s :
  mid_chunk_seq s = None →
  (∀ w, head (waiting s) = Some w → ∃ q, seqs s !! w = Some q ∧ block_table q = []) →
  _check_mid_chunk_invariant s = (Ok tt, s).
Proof.
  intros Hm Hw. unfold _check_mid_chunk_invariant, bind at 1, get. rewrite Hm.
  destruct (waiting s) as [|w rest]; [done|].
  destruct (Hw w eq_refl) as (q & Hq & Ht). rewrite (bind_ok _ _ _ _ _ (seq_at_ok _ _ _ Hq)).
  by rewrite Ht.
Qed.

Lemma preempt_run s k q :
  I (sc_heap s) → no_plans s → seqs s !! k = Some q →
  (mid_chunk_seq s = None ∨ mid_chunk_seq s = Some k) →
  (∀ w, head (waiting s) = Some w → w = k ∨
     ∃ q', seqs s !! w = Some q' ∧ block_table q' = []) →
  ∃ h', preempt k s = (Ok tt,
      set_waiting (waiting s ++ [k]) (set_heap h' (set_mid None s))) ∧
    I h' ∧ block_size (hp_bm h') = bsz s ∧ hp_seqs h' = <[k := requeued q]> (seqs s).
Proof.
  intros Hi Hp Hk Hm Hw. destruct (kv_seq _ _ _ Hi Hk) as [Hid Hwf].
  destruct (no_plans_release s Hp) as (E1 & E2 & E3).
  set (q1 := set_is_prefill true (set_status WAITING q)).
  assert (I (put_seq k q1 (sc_heap s))) as Hi1.
  { apply (inv_put k q); [done|done|by apply evolves_attr]. }
  destruct (kv_free (put_seq k q1 (sc_heap s)) k q1 Hi1 (put_lookup _ _ _))
    as (h1 & Ef & Hi2 & Hb & Hs).
  set (q2 := set_block_table [] (set_num_draft_cached_tokens 0 (set_num_cached_tokens 0 q1))) in *.
  assert (hp_seqs h1 = <[k := q2]> (seqs s)) as Hs1 by (rewrite Hs; apply insert_insert_eq).
  assert (hp_seqs h1 !! k = Some q2) as Hk1 by (rewrite Hs1; apply lookup_insert_eq).
  exists (put_seq k (requeued q) h1). split; [|split; [|split]].
  - unfold preempt. rewrite (bind_ok _ _ _ _ _ E1), (bind_ok _ _ _ _ _ E2).
    rewrite (bind_ok _ _ _ _ _ (seq_at_ok _ _ _ Hk)), (bind_ok _ _ _ _ _ (E3 _)).
    unfold bind at 1, get.
    assert (∀ s0 : scheduler, when (bool_decide (mid_chunk_seq s = Some k)) (modify (set_mid None)) s0 =
      (Ok tt, if bool_decide (mid_chunk_seq s = Some k) then set_mid None s0 else s0)) as Ew
      by (intros s0; by case_bool_decide).
    rewrite (bind_ok _ _ _ _ _ (Ew s)).
    assert ((if bool_decide (mid_chunk_seq s = Some k) then set_mid None s else s) = set_mid None s) as ->.
    { destruct Hm as [Hm|Hm]; rewrite Hm.
      - rewrite bool_decide_eq_false_2 by done. by destruct s; simpl in *; subst.
      - by rewrite bool_decide_eq_true_2. }
    rewrite (bind_ok _ _ _ _ _ (set_seq_ok k _ (set_mid None s) q Hk)).
    erewrite bind_ok; [|by apply set_seq_ok, put_lookup]. simpl. rewrite put_put.
    erewrite bind_ok; [|apply on_heap_ok; exact Ef].
    erewrite bind_ok; [|by apply set_seq_ok]. simpl.
    erewrite bind_ok; [|reflexivity].
    change (set_num_draft_cached_tokens 0 q2) with (requeued q).
    apply check_mid_none; [done|]. simpl. intros w Ew'. rewrite Hs1, insert_insert_eq.
    destruct (decide (w = k)) as [->|Hne]; [rewrite lookup_insert_eq; by eexists|].
    rewrite lookup_insert_ne by done. destruct (waiting s) as [|w' rest]; simplify_eq/=.
    destruct (Hw w eq_refl) as [|?]; [done|done].
  - apply (inv_put k q2); [done|done|]. apply evolves_attr; try done.
    by destruct (kv_seq _ _ _ Hi2 Hk1).
  - done.
  - simpl. by rewrite Hs1, insert_insert_eq.
Qed.

Lemma ceil_div_zero bs : 0 < bs → ceil_div 0 bs = 0.
Proof. intros. unfold ceil_div. apply Z.div_small. lia. Qed.

Lemma cov_exact_nil bs q :
  0 < bs → cov_exact bs q → block_table q = [] →
  num_cached_tokens q = 0 ∧ num_scheduled_tokens q = 0.
Proof.
  intros Hbs [H1 H2 _ H4] Ht. rewrite Ht in H4. simpl in H4.
  pose proof (ceil_div_spec (num_cached_tokens q + num_scheduled_tokens q) bs Hbs). lia.
Qed.

Lemma cov_exact_table bs q :
  0 < bs → cov_exact bs q → 0 < num_cached_tokens q + num_scheduled_tokens q →
  block_table q ≠ [].
Proof.
  intros Hbs Hc Hp Ht. destruct (cov_exact_nil bs q Hbs Hc Ht). lia.
Qed.

(** A member of the queues is stored, and idle unless it is scheduled. *)
Lemma sinv_member out sch s k :
  sinv out sch s → k ∈ waiting s ++ running s ++ out → k ∉ sch →
  ∃ q, seqs s !! k = Some q ∧ num_scheduled_tokens q = 0 ∧ seq_wf q.
Proof.
  intros Hs Hk Hn. rewrite elem_of_app in Hk.
  assert (∃ q, seqs s !! k = Some q ∧ num_scheduled_tokens q = 0) as (q & Hq & H0).
  { destruct Hk as [Hk|Hk].
    - destruct (si_wait _ _ _ Hs k Hk) as (q & Hq & _ & _ & _ & _ & Ht).
      rewrite decide_False in Ht by done. eauto.
    - destruct (si_run _ _ _ Hs k Hk) as (q & Hq & _ & _ & Ht).
      rewrite decide_False in Ht by done. destruct Ht. eauto. }
  exists q. split; [done|]. split; [done|]. by destruct (kv_seq _ _ _ (si_heap _ _ _ Hs) Hq).
Qed.

Lemma requeued_ok bs sch k q :
  0 < bs → seq_wf q → num_scheduled_tokens q = 0 → k ∉ sch →
  wait_ok bs None sch k (requeued q).
Proof.
  intros Hbs [_ Hp _] H0 Hk. unfold wait_ok. simpl. rewrite decide_False, H0 by done.
  split_and!; try done; [|lia|by right].
  split; simpl; rewrite ?H0; try lia. by rewrite ceil_div_zero.
Qed.

(** Preempting a member [k] that was taken off its queue. *)
Lemma preempt_sinv out sch s W R O k :
  sinv out sch s → k :: W ++ R ++ O ≡ₚ waiting s ++ running s ++ out →
  W ⊆ waiting s → R ++ O ⊆ running s ++ out → k ∉ sch →
  mid_chunk_seq s = None ∨ mid_chunk_seq s = Some k →
  ∃ s', preempt k (set_waiting W (set_running R s)) = (Ok tt, s') ∧ sinv O sch s' ∧
    waiting s' = W ++ [k] ∧ running s' = R ∧ mid_chunk_seq s' = None ∧
    sc_config s' = sc_config s ∧ ∀ x, x ≠ k → seqs s' !! x = seqs s !! x.
Proof.
  intros Hs Hperm HW HR Hk Hmid. pose proof (si_nodup _ _ _ Hs) as Hnd.
  rewrite <-Hperm in Hnd. apply NoDup_cons in Hnd as [Hnk Hnd].
  rewrite !elem_of_app in Hnk. destruct (si_bs _ _ _ Hs) as [_ Hbs].
  destruct (sinv_member out sch s k Hs) as (q & Hq & H0 & Hwf); [rewrite <-Hperm; set_solver|done|].
  assert (∀ x, x ∈ W → ∃ qx, seqs s !! x = Some qx ∧ wait_ok (bsz s) None sch x qx) as HW'.
  { intros x Hx. destruct (si_wait _ _ _ Hs x (HW x Hx)) as (qx & Hqx & ? & ? & ? & Hm & ?).
    exists qx. split; [done|]. split_and!; try done. right.
    destruct Hm as [Hm|]; [|done]. exfalso. apply Hnk. left.
    destruct Hmid as [Hmid|Hmid]; congruence. }
  destruct (preempt_run (set_waiting W (set_running R s)) k q) as (h' & E & Hi & Hb & Hsq);
    try done; [apply Hs|apply Hs| |].
  { simpl. intros w Hw. right. destruct W as [|w' W']; simplify_eq/=.
    destruct (HW' w ltac:(set_solver)) as (qx & ? & _ & _ & _ & [?|?] & _); [done|]. eauto. }
  simpl in *. eexists. split; [exact E|]. split; [|split_and!; try done].
  2: { simpl. intros x Hx. by rewrite Hsq, lookup_insert_ne. }
  destruct Hs as [_ Hbz Hpl _ Hcap _ _ Hrun Hown]. split; simpl; rewrite ?Hb; try done.
  - rewrite <-app_assoc, (Permutation_app_comm [k]), <-app_assoc. simpl.
    rewrite !(assoc_L (++)). apply NoDup_app. split_and!; [by rewrite <-(assoc_L (++))| |apply NoDup_singleton].
    intros x Hx ->%list_elem_of_singleton. rewrite !elem_of_app in Hx. tauto.
  - revert Hcap. rewrite <-Hperm. simpl. rewrite !length_app. simpl. lia.
  - intros x Hx. rewrite Hsq. destruct (decide (x = k)) as [->|Hne].
    + rewrite lookup_insert_eq. eexists. split; [done|]. apply requeued_ok; try done. lia.
    + rewrite lookup_insert_ne by done. apply HW'. set_solver.
  - intros x Hx. rewrite Hsq, lookup_insert_ne by (intros ->; set_solver). apply Hrun. by apply HR.
  - intros x qx. rewrite Hsq. destruct (decide (x = k)) as [->|Hne]; [intros _ Hn; set_solver|].
    rewrite lookup_insert_ne by done. intros Hqx Hn. apply (Hown x qx Hqx).
    rewrite <-Hperm. set_solver.
Qed.

Lemma check_mid_ok out sch s :
  sinv out sch s → _check_mid_chunk_invariant s = (Ok tt, s).
Proof.
  intros Hs. destruct (mid_chunk_seq s) as [m|] eqn:Em.
  - destruct (si_mid _ _ _ Hs m Em) as [Hh (q & Hq & Ht)].
    unfold _check_mid_chunk_invariant, bind at 1, get. rewrite Em, Hh.
    rewrite bool_decide_eq_true_2 by done. mstep.
    rewrite (bind_ok _ _ _ _ _ (seq_at_ok _ _ _ Hq)). by rewrite bool_decide_eq_false_2.
  - apply check_mid_none; [done|]. intros w Hw.
    destruct (si_wait _ _ _ Hs w) as (q & Hq & _ & _ & _ & [Hm|Ht] & _); [|congruence|eauto].
    destruct (waiting s); simplify_eq/=. set_solver.
Qed.

End inv.
