(* ===== verification/Frame.v ===== *)
(** * Frame: what an operation can never change

    [keeps P m]: from any store, [m] leaves a [P]-related store, whether it
    returns or raises.  For a preorder [P] the property is compositional, and
    [keeps_step] proves it by the structure of the code, with no invariant: no
    operation of the block manager, and no scheduling or cancellation step,
    changes a request's identity, tokens, prompt or parameters, the size of the
    block pool, or the configuration. *)
From S2P Require Import Prelude SamplingParams Sequence Heap BlockManager Reservation SpecMemory.
From S2P Require Import SpecRoutes SpecPlan Scheduler.

Definition keeps {S A} (P : relation S) (m : M S A) : Prop := ∀ s, P s (m s).2.

Section rules.
Context {S : Type} (P : relation S) `{!PreOrder P}.

Lemma keeps_ret {A} (a : A) : keeps P (ret a).
Proof. intros s. simpl. reflexivity. Qed.
Lemma keeps_raise {A} e : keeps P (raise (A:=A) e).
Proof. intros s. simpl. reflexivity. Qed.
Lemma keeps_get : keeps P get.
Proof. intros s. simpl. reflexivity. Qed.
Lemma keeps_gets {A} (f : S → A) : keeps P (gets f).
Proof. intros s. simpl. reflexivity. Qed.
Lemma keeps_lift {A} (m : outcome A) : keeps P (lift m).
Proof. intros s. simpl. reflexivity. Qed.
Lemma keeps_inspect {A} (f : S → outcome A) : keeps P (inspect f).
Proof. intros s. simpl. reflexivity. Qed.
Lemma keeps_raise_if c e : keeps P (raise_if c e).
Proof. destruct c; [apply keeps_raise|apply keeps_ret]. Qed.
Lemma keeps_assert c : keeps P (assert c).
Proof. apply keeps_raise_if. Qed.
Lemma keeps_modify f : (∀ s, P s (f s)) → keeps P (modify f).
Proof. intros Hf s. apply Hf. Qed.

Lemma keeps_bind {A B} (m : M S A) (k : A → M S B) :
  keeps P m → (∀ a, keeps P (k a)) → keeps P (bind m k).
Proof.
  intros Hm Hk s. specialize (Hm s). unfold bind. destruct (m s) as [[a|e] t]; [|done].
  transitivity t; [done|apply Hk].
Qed.

Lemma keeps_when c (m : M S unit) : keeps P m → keeps P (when c m).
Proof. destruct c; [done|intros _; apply keeps_ret]. Qed.

Lemma keeps_for_each {A} (f : A → M S unit) l :
  (∀ x, keeps P (f x)) → keeps P (for_each f l).
Proof.
  intros Hf. induction l as [|x l IH]; [apply keeps_ret|]. apply keeps_bind; auto.
Qed.

Lemma keeps_for_fold {A B} (f : B → A → M S B) b l :
  (∀ b x, keeps P (f b x)) → keeps P (for_fold f b l).
Proof.
  intros Hf. revert b. induction l as [|x l IH]; intros b; [apply keeps_ret|].
  apply keeps_bind; auto.
Qed.

Lemma keeps_map_all {A B} (f : A → M S B) l :
  (∀ x, keeps P (f x)) → keeps P (map_all f l).
Proof.
  intros Hf. induction l as [|x l IH]; [apply keeps_ret|].
  apply keeps_bind; [done|]. intros y. apply keeps_bind; [done|]. intros ys. apply keeps_ret.
Qed.

Lemma keeps_repeat_m {A} n (m : M S A) : keeps P m → keeps P (repeat_m n m).
Proof.
  intros Hm. induction n as [|n IH]; [apply keeps_ret|].
  apply keeps_bind; [done|]. intros y. apply keeps_bind; [done|]. intros ys. apply keeps_ret.
Qed.

Lemma keeps_try_reraise {A} (m : M S A) h :
  keeps P m → (∀ s, P s (h s)) → keeps P (try_reraise m h).
Proof.
  intros Hm Hh s. specialize (Hm s). unfold try_reraise. destruct (m s) as [[a|e] t]; [done|].
  transitivity t; [done|apply Hh].
Qed.

Lemma keeps_try_finally {A} (m : M S A) h :
  keeps P m → (∀ s, P s (h s)) → keeps P (try_finally m h).
Proof.
  intros Hm Hh s. specialize (Hm s). unfold try_finally. destruct (m s) as [o t].
  transitivity t; [done|apply Hh].
Qed.
End rules.

Create HintDb keeps.

(** One structural step: a rule of the monad, a case analysis, or a lemma of
    the database. *)
Ltac keeps_step :=
  match goal with
  | |- forall _, _ => intro
  | |- keeps ?P (bind _ _) => apply (keeps_bind P)
  | |- keeps ?P (ret _) => apply (keeps_ret P)
  | |- keeps ?P (raise _) => apply (keeps_raise P)
  | |- keeps ?P get => apply (keeps_get P)
  | |- keeps ?P (gets _) => apply (keeps_gets P)
  | |- keeps ?P (lift _) => apply (keeps_lift P)
  | |- keeps ?P (inspect _) => apply (keeps_inspect P)
  | |- keeps ?P (raise_if _ _) => apply (keeps_raise_if P)
  | |- keeps ?P (assert _) => apply (keeps_assert P)
  | |- keeps ?P (when _ _) => apply (keeps_when P)
  | |- keeps ?P (for_each _ _) => apply (keeps_for_each P)
  | |- keeps ?P (for_fold _ _ _) => apply (keeps_for_fold P)
  | |- keeps ?P (map_all _ _) => apply (keeps_map_all P)
  | |- keeps ?P (repeat_m _ _) => apply (keeps_repeat_m P)
  | |- keeps ?P (try_reraise _ _) => apply (keeps_try_reraise P)
  | |- keeps ?P (try_finally _ _) => apply (keeps_try_finally P)
  | |- keeps _ (match ?x with _ => _ end) => destruct x
  | |- _ => solve [eauto 2 with keeps]
  | |- keeps ?P (modify _) => apply keeps_modify
  end.
Ltac keeps_auto := repeat keeps_step.

(** ** The heap *)

(** What identifies a request, its text and its times: everything but its
    blocks, counters, status and the stamp of its first scheduling. *)
Record same_request (q q' : sequence) : Prop := {
  sr_id : seq_id q' = seq_id q;
  sr_tokens : token_ids q' = token_ids q;
  sr_last : last_token q' = last_token q;
  sr_num : num_tokens q' = num_tokens q;
  sr_prompt : num_prompt_tokens q' = num_prompt_tokens q;
  sr_params : params q' = params q;
  sr_token_times : token_times (times q') = token_times (times q);
  sr_first : first_token_time (times q') = first_token_time (times q);
  sr_finish : finish_time (times q') = finish_time (times q);
  sr_started : is_Some (first_scheduled_time (times q)) → is_Some (first_scheduled_time (times q'));
}.

#[export] Instance same_request_preorder : PreOrder same_request.
Proof.
  split; [by split|]. intros x y z [] []. split; try congruence. auto.
Qed.

(** Assignments of other attributes. *)
Ltac same_request_auto := intros; split; first [reflexivity|done|by eexists].

Record heap_frame (h h' : heap) : Prop := {
  hf_size : block_size (hp_bm h') = block_size (hp_bm h);
  hf_pool : length (blocks (hp_bm h')) = length (blocks (hp_bm h));
  hf_seq_size : hp_seq_block_size h' = hp_seq_block_size h;
  hf_seqs : ∀ k, option_Forall2 same_request (hp_seqs h !! k) (hp_seqs h' !! k);
}.

#[export] Instance heap_frame_preorder : PreOrder heap_frame.
Proof.
  split.
  - by intros h.
  - intros h1 h2 h3 [] []. split; try congruence. intros k. by transitivity (hp_seqs h2 !! k).
Qed.

Lemma frame_bm f h :
  block_size (f (hp_bm h)) = block_size (hp_bm h) →
  length (blocks (f (hp_bm h))) = length (blocks (hp_bm h)) → heap_frame h (set_bm f h).
Proof. intros. by split. Qed.

Lemma frame_alter k f h :
  (∀ q, same_request q (f q)) → heap_frame h (set_seqs (alter f k) h).
Proof.
  intros Hf. split; try done. intros j. simpl. rewrite lookup_alter. case_decide as E; [|reflexivity].
  subst. destruct (hp_seqs h !! j); constructor. apply Hf.
Qed.

Lemma keeps_upd_bm f :
  (∀ m, block_size (f m) = block_size m) → (∀ m, length (blocks (f m)) = length (blocks m)) →
  keeps heap_frame (upd_bm f).
Proof. intros H1 H2 h. by apply frame_bm. Qed.

Lemma keeps_upd_seq k f : (∀ q, same_request q (f q)) → keeps heap_frame (upd_seq k f).
Proof. intros Hf h. by apply frame_alter. Qed.

Lemma keeps_get_bm : keeps heap_frame get_bm.
Proof. apply keeps_gets, _. Qed.

Lemma keeps_get_seq k : keeps heap_frame (get_seq k).
Proof. apply keeps_inspect, _. Qed.

Lemma keeps_get_block i : keeps heap_frame (get_block i).
Proof. apply keeps_inspect, _. Qed.

Lemma keeps_upd_block i f : keeps heap_frame (upd_block i f).
Proof.
  unfold upd_block. keeps_step; [apply keeps_get_block|intros b h].
  apply frame_bm; [done|]. simpl. by rewrite length_alter.
Qed.

Lemma keeps_push_block k i : keeps heap_frame (push_block k i).
Proof. apply keeps_upd_seq. by split. Qed.

#[export] Hint Resolve keeps_get_bm keeps_get_seq keeps_get_block keeps_upd_block
  keeps_push_block : keeps.
#[export] Hint Extern 1 (keeps heap_frame (upd_bm _)) => (apply keeps_upd_bm; by intros) : keeps.
#[export] Hint Extern 1 (keeps heap_frame (upd_seq _ _)) =>
  (apply keeps_upd_seq; same_request_auto) : keeps.

(** ** The block manager *)

Section heap.
Variable compute_hash : list Z → Z → Z.

Lemma length_restore_block_states sts bl :
  length (restore_block_states sts bl) = length bl.
Proof.
  unfold restore_block_states. revert bl. induction sts as [|st sts IH]; intros bl; [done|].
  simpl. by rewrite IH, length_alter.
Qed.

Lemma frame_seqs f h :
  (∀ ss k, option_Forall2 same_request (ss !! k) (f ss !! k)) → heap_frame h (set_seqs f h).
Proof. intros Hf. by split. Qed.

Lemma frame_restore rows free used hashes sts h :
  heap_frame h (_restore_temporary_snapshot rows free used hashes sts h).
Proof.
  unfold _restore_temporary_snapshot. etransitivity; [|apply frame_bm; [done|]].
  - apply frame_seqs. clear. intros ss k.
    revert ss. induction rows as [|[[[j table] cached] draft] rows IH]; intros ss; simpl;
      [reflexivity|].
    transitivity (restore_row ss (j, table, cached, draft) !! k); [|apply IH]. simpl.
    rewrite lookup_alter. case_decide; [|reflexivity]. subst. destruct (ss !! _); constructor. by split.
  - apply length_restore_block_states.
Qed.

Lemma frame_restore_allocation k table cached draft sts free used hashes h :
  heap_frame h (restore_allocation k table cached draft sts free used hashes h).
Proof.
  unfold restore_allocation.
  transitivity (set_seqs (alter (λ s, set_num_draft_cached_tokens draft
    (set_num_cached_tokens cached (set_block_table table s))) k) h); [by apply frame_alter|].
  apply frame_bm; [done|]. apply length_restore_block_states.
Qed.

Lemma frame_unpublish r h : heap_frame h (_unpublish_temporary_reservation r h).
Proof. by apply frame_bm. Qed.

#[local] Hint Resolve frame_restore frame_restore_allocation frame_unpublish : keeps.

Lemma keeps_active : keeps heap_frame _active_temporary_reservation.
Proof. unfold _active_temporary_reservation. keeps_auto. Qed.
#[local] Hint Resolve keeps_active : keeps.

Lemma keeps_fence b : keeps heap_frame (_assert_allocator_mutation_allowed b).
Proof. unfold _assert_allocator_mutation_allowed. keeps_auto. Qed.
#[local] Hint Resolve keeps_fence : keeps.

Lemma keeps_allocate_block : keeps heap_frame _allocate_block.
Proof. unfold _allocate_block. keeps_auto. Qed.

Lemma keeps_deallocate_block i : keeps heap_frame (_deallocate_block i).
Proof. unfold _deallocate_block. keeps_auto. Qed.

Lemma keeps_pin_block i : keeps heap_frame (pin_block i).
Proof. unfold pin_block. keeps_auto. Qed.
#[local] Hint Resolve keeps_allocate_block keeps_deallocate_block keeps_pin_block : keeps.

Lemma keeps_can_allocate k : keeps heap_frame (can_allocate compute_hash k).
Proof. unfold can_allocate. keeps_auto. Qed.

Lemma keeps_allocate_incremental k nc t :
  keeps heap_frame (allocate_incremental compute_hash k nc t).
Proof. unfold allocate_incremental, attach_blocks. keeps_auto. Qed.

Lemma keeps_extend k t : keeps heap_frame (extend k t).
Proof. unfold extend. keeps_auto. Qed.

Lemma keeps_can_append k : keeps heap_frame (can_append k).
Proof. unfold can_append. keeps_auto. Qed.

Lemma keeps_may_append k : keeps heap_frame (may_append k).
Proof. unfold may_append. keeps_auto. Qed.

Lemma keeps_hash_blocks k : keeps heap_frame (hash_blocks compute_hash k).
Proof. unfold hash_blocks, table_block. keeps_auto. Qed.

Lemma keeps_rollback_temporary_append r : keeps heap_frame (rollback_temporary_append r).
Proof.
  unfold rollback_temporary_append, restore_reservation. keeps_auto; eauto with keeps.
Qed.
#[local] Hint Resolve keeps_rollback_temporary_append : keeps.

Lemma keeps_deallocate k : keeps heap_frame (deallocate k).
Proof. unfold deallocate, release_block. keeps_auto. Qed.

Lemma frame_restore_uncommitted vs refs free used h :
  heap_frame h (restore_uncommitted vs refs free used h).
Proof.
  unfold restore_uncommitted.
  match goal with |- heap_frame h (set_bm _ ?h') => transitivity h' end.
  - apply frame_seqs. clear. intros ss k.
    revert ss. induction vs as [|[[j table] b] vs IH]; intros ss; simpl; [reflexivity|].
    transitivity (alter (set_block_table table) j ss !! k); [|apply IH].
    rewrite lookup_alter. case_decide; [|reflexivity]. subst. destruct (ss !! _); constructor.
    by split.
  - apply frame_bm; [done|]. simpl. generalize (blocks (hp_bm h)). clear. intros bl.
    revert bl. induction refs as [|[i r] refs IH]; intros bl; [done|].
    simpl. by rewrite IH, length_alter.
Qed.
#[local] Hint Resolve frame_restore_uncommitted : keeps.

Lemma keeps_rollback_uncommitted rows : keeps heap_frame (rollback_uncommitted_appends rows).
Proof. unfold rollback_uncommitted_appends, undo_append. keeps_auto. Qed.
End heap.

#[export] Hint Resolve keeps_can_allocate keeps_allocate_incremental keeps_extend keeps_can_append
  keeps_may_append keeps_hash_blocks keeps_rollback_temporary_append keeps_deallocate
  keeps_rollback_uncommitted : keeps.

(** ** The scheduler *)

(** Everything a scheduling or cancellation step may change is the queues, the
    blocks, the counters, the statuses and the pending speculative state. *)
Record sched_frame (s s' : scheduler) : Prop := {
  sf_config : sc_config s' = sc_config s;
  sf_heap : heap_frame (sc_heap s) (sc_heap s');
  sf_ticks : (ticks s <= ticks s')%nat;
}.

#[export] Instance sched_frame_preorder : PreOrder sched_frame.
Proof.
  split; [by split|]. intros s1 s2 s3 [] [].
  split; [congruence|by transitivity (sc_heap s2)|lia].
Qed.

Lemma keeps_on_heap {A} (m : MH A) : keeps heap_frame m → keeps sched_frame (on_heap m).
Proof.
  intros Hm s. specialize (Hm (sc_heap s)). unfold on_heap, zoom.
  destruct (m (sc_heap s)) as [o h]. by split.
Qed.

Lemma keeps_seq_at k : keeps sched_frame (seq_at k).
Proof. apply keeps_on_heap. eauto with keeps. Qed.

Lemma keeps_set_seq k f : (∀ q, same_request q (f q)) → keeps sched_frame (set_seq k f).
Proof. intros Hf. by apply keeps_on_heap, keeps_upd_seq. Qed.

#[export] Hint Resolve keeps_seq_at : keeps.
#[export] Hint Extern 1 (keeps sched_frame (on_heap _)) => (apply keeps_on_heap) : keeps.
#[export] Hint Extern 1 (keeps sched_frame (set_seq _ _)) =>
  (apply keeps_set_seq; same_request_auto) : keeps.
#[export] Hint Extern 1 (sched_frame _ _) => (split; first [reflexivity|simpl; lia]) : keeps.

Section sched.
Variable compute_hash : list Z → Z → Z.
Variable clock : nat → Z.

Lemma keeps_check_mid : keeps sched_frame _check_mid_chunk_invariant.
Proof. unfold _check_mid_chunk_invariant. keeps_auto. Qed.

Lemma keeps_rollback_draft_discard p : keeps sched_frame (rollback_draft_discard p).
Proof. unfold rollback_draft_discard. keeps_auto. Qed.

Lemma keeps_abort_draft_coverage p : keeps sched_frame (abort_draft_coverage p).
Proof. unfold abort_draft_coverage. keeps_auto. Qed.

Lemma keeps_rollback_failed_decode r : keeps sched_frame (rollback_failed_decode_schedule r).
Proof. unfold rollback_failed_decode_schedule, check_rollback_row. keeps_auto. Qed.
#[local] Hint Resolve keeps_check_mid keeps_rollback_draft_discard keeps_abort_draft_coverage
  keeps_rollback_failed_decode : keeps.

Lemma keeps_abort_speculative_step : keeps sched_frame abort_speculative_step.
Proof. unfold abort_speculative_step. keeps_auto. Qed.

Lemma keeps_rollback_active : keeps sched_frame _rollback_active_draft_discard.
Proof. unfold _rollback_active_draft_discard. keeps_auto. Qed.

Lemma keeps_drop_pending ids : keeps sched_frame (drop_pending ids).
Proof. unfold drop_pending. keeps_auto. Qed.
#[local] Hint Resolve keeps_abort_speculative_step keeps_rollback_active keeps_drop_pending : keeps.

Lemma keeps_preempt k : keeps sched_frame (preempt k).
Proof. unfold preempt. keeps_auto. Qed.

Lemma keeps_waiting_popleft : keeps sched_frame waiting_popleft.
Proof. unfold waiting_popleft. keeps_auto. Qed.
#[local] Hint Resolve keeps_preempt keeps_waiting_popleft : keeps.

Lemma keeps_make_room fuel k : keeps sched_frame (make_room fuel k).
Proof. induction fuel; simpl; keeps_auto. Qed.
#[local] Hint Resolve keeps_make_room : keeps.

Lemma keeps_decode_loop fuel l : keeps sched_frame (decode_loop fuel l).
Proof. revert l. induction fuel; intros l; simpl; keeps_auto. Qed.

Lemma keeps_prefill_work k : keeps sched_frame (prefill_work compute_hash k).
Proof. unfold prefill_work. keeps_auto. Qed.

Lemma keeps_prefill_alloc k nc : keeps sched_frame (prefill_alloc compute_hash k nc).
Proof. unfold prefill_alloc. keeps_auto. Qed.

Lemma keeps_read_clock : keeps sched_frame (read_clock clock).
Proof. intros s. split; simpl; [done|reflexivity|lia]. Qed.
#[local] Hint Resolve keeps_decode_loop keeps_prefill_work keeps_prefill_alloc keeps_read_clock : keeps.

Lemma keeps_promote k : keeps sched_frame (promote k).
Proof. unfold promote. keeps_auto. Qed.

Lemma keeps_stamp k : keeps sched_frame (stamp_first_scheduled clock k).
Proof. unfold stamp_first_scheduled. keeps_auto. Qed.
#[local] Hint Resolve keeps_promote keeps_stamp : keeps.

Lemma keeps_prefill_loop fuel l n : keeps sched_frame (prefill_loop compute_hash clock fuel l n).
Proof. revert l n. induction fuel; intros l n; simpl; keeps_auto. Qed.
#[local] Hint Resolve keeps_prefill_loop : keeps.

(** Scheduling a step never touches a request's tokens, parameters or identity,
    nor the pool size or the configuration. *)
Lemma schedule_frame : keeps sched_frame (schedule compute_hash clock).
Proof. unfold schedule. keeps_auto. Qed.

Lemma keeps_targets_in t q : keeps sched_frame (targets_in t q).
Proof. unfold targets_in. keeps_auto. Qed.

Lemma keeps_cancel_one b k : keeps sched_frame (cancel_one b k).
Proof. unfold cancel_one. destruct b; keeps_auto. Qed.
#[local] Hint Resolve keeps_targets_in keeps_cancel_one : keeps.

Lemma cancel_frame ids : keeps sched_frame (cancel ids).
Proof. unfold cancel. keeps_auto. Qed.

Lemma add_frame k : keeps sched_frame (add k).
Proof. unfold add, require_capacity. keeps_auto. Qed.
End sched.

(** ** What a commit keeps *)

(** The configuration, the partial prefill, the dimensions of the pool and the
    stored sequences. *)
Record pool_frame (s s' : scheduler) : Prop := {
  pf_config : sc_config s' = sc_config s;
  pf_mid : mid_chunk_seq s' = mid_chunk_seq s;
  pf_size : block_size (hp_bm (sc_heap s')) = block_size (hp_bm (sc_heap s));
  pf_pool : length (blocks (hp_bm (sc_heap s'))) = length (blocks (hp_bm (sc_heap s)));
  pf_stored : ∀ k, is_Some (hp_seqs (sc_heap s') !! k) ↔ is_Some (hp_seqs (sc_heap s) !! k);
  pf_ticks : (ticks s <= ticks s')%nat;
}.

#[export] Instance pool_frame_preorder : PreOrder pool_frame.
Proof.
  split; [by split|]. intros x y z [] []. split; try congruence; [|lia].
  intros k. match goal with
    | H1 : ∀ k, is_Some (_ !! k) ↔ _, H2 : ∀ k, is_Some (_ !! k) ↔ _ |- _ =>
        first [by rewrite H1, H2|by rewrite H2, H1] end.
Qed.

Lemma keeps_on_heap_pool {A} (m : MH A) : keeps heap_frame m → keeps pool_frame (on_heap m).
Proof.
  intros Hm s. destruct (Hm (sc_heap s)) as [Hs Hp _ Hq]. unfold on_heap, zoom.
  destruct (m (sc_heap s)) as [o h]. split; try done. simpl in *. intros k.
  by destruct (Hq k); rewrite ?is_Some_alt.
Qed.

Lemma keeps_set_seq_pool k f : keeps pool_frame (set_seq k f).
Proof.
  intros s. split; try done. intros j. simpl. rewrite lookup_alter. case_decide; [|done].
  subst. by rewrite fmap_is_Some.
Qed.

Section commit.
Variable compute_hash : list Z → Z → Z.
Variable clock : nat → Z.

#[local] Hint Resolve keeps_set_seq_pool : keeps.
#[local] Hint Extern 1 (keeps pool_frame (on_heap _)) =>
  (apply keeps_on_heap_pool; solve [eauto with keeps]) : keeps.
#[local] Hint Extern 1 (keeps pool_frame (seq_at _)) => (apply keeps_on_heap_pool, keeps_get_seq) : keeps.
#[local] Hint Extern 1 (pool_frame _ _) =>
  (split; first [reflexivity|done|simpl; lia]) : keeps.

Lemma keeps_read_clock_pool : keeps pool_frame (read_clock clock).
Proof. intros s. split; simpl; try done. lia. Qed.
#[local] Hint Resolve keeps_read_clock_pool : keeps.

Lemma keeps_commit_row now kt : keeps pool_frame (commit_row compute_hash now kt).
Proof. destruct kt. unfold commit_row, running_remove. keeps_auto. Qed.
#[local] Hint Resolve keeps_commit_row : keeps.

Lemma postprocess_frame batch toks :
  keeps pool_frame (postprocess compute_hash clock batch toks).
Proof.
  unfold postprocess, check_postprocess, check_handoff, commit_coverage. keeps_auto.
Qed.
End commit.
