(* ===== verification/KVFrame.v ===== *)
(** * KVFrame: what scheduling never does to the cached blocks

    Without a speculative lease, no scheduling or cancellation step publishes a
    block: a block with a content hash afterwards had it before, with the same
    tokens.  A request whose coverage ends inside a block keeps its coverage, its
    tokens and its table, up to an extension. *)
From S2P Require Import Prelude SamplingParams Sequence Heap BlockManager Reservation SpecMemory.
From S2P Require Import SpecRoutes SpecPlan Scheduler Frame.
#[local] Open Scope Z_scope.

(** ** The relation *)

(** The coverage survives: the tokens and the table may grow. *)
Record keeps_cover (q q' : sequence) : Prop := {
  kc_cached : num_cached_tokens q' = num_cached_tokens q;
  kc_tokens : token_ids q `prefix_of` token_ids q';
  kc_table : block_table q `prefix_of` block_table q';
}.

#[export] Instance keeps_cover_preorder : PreOrder keeps_cover.
Proof. split; [by split|]. intros x y z [] []. split; try congruence; by etrans. Qed.

Definition same_content (b b' : block) : Prop := b_hash b' = b_hash b ∧ b_token_ids b' = b_token_ids b.

Record kv_frame (h h' : heap) : Prop := {
  kv_bs : block_size (hp_bm h') = block_size (hp_bm h);
  kv_pool : length (blocks (hp_bm h')) = length (blocks (hp_bm h));
  kv_blocks : ∀ i b', blocks (hp_bm h') !! i = Some b' →
    b_hash b' = -1 ∨ ∃ b, blocks (hp_bm h) !! i = Some b ∧ same_content b b';
  kv_seqs : ∀ k q', hp_seqs h' !! k = Some q' →
    num_cached_tokens q' `mod` block_size (hp_bm h) = 0 ∨
    ∃ q, hp_seqs h !! k = Some q ∧ keeps_cover q q';
}.

#[export] Instance kv_frame_preorder : PreOrder kv_frame.
Proof.
  split.
  - intros h. split; [done|done| |].
    + intros i b' Hb. right. by exists b'.
    + intros k q' Hq. right. by exists q'.
  - intros h1 h2 h3 [B1 P1 K1 Q1] [B2 P2 K2 Q2]. split; [congruence|congruence| |].
    + intros i b3 Hb3. destruct (K2 _ _ Hb3) as [|(b2 & Hb2 & E2 & F2)]; [by left|].
      destruct (K1 _ _ Hb2) as [H|(b1 & Hb1 & E1 & F1)]; [left; congruence|right].
      exists b1. split; [done|]. split; congruence.
    + intros k q3 Hq3. destruct (Q2 _ _ Hq3) as [H|(q2 & Hq2 & H2)]; [left; by rewrite <-B1|].
      destruct (Q1 _ _ Hq2) as [H|(q1 & Hq1 & H1)].
      * left. by rewrite (kc_cached _ _ H2).
      * right. exists q1. split; [done|]. by etrans.
Qed.

(** Without a lease. *)
Definition unleased (h : heap) : Prop := _active_temporary_reservations (hp_bm h) = ∅.

Definition kv_kept (h h' : heap) : Prop := unleased h → unleased h' ∧ kv_frame h h'.

#[export] Instance kv_kept_preorder : PreOrder kv_kept.
Proof.
  split.
  - intros h Hh. by split.
  - intros h1 h2 h3 H12 H23 H1. destruct (H12 H1) as [H2 F12]. destruct (H23 H2) as [H3 F23].
    split; [done|]. by transitivity h2.
Qed.

(** ** Primitive steps *)

Lemma kv_kept_bm f h :
  block_size (f (hp_bm h)) = block_size (hp_bm h) → blocks (f (hp_bm h)) = blocks (hp_bm h) →
  _active_temporary_reservations (f (hp_bm h)) = _active_temporary_reservations (hp_bm h) →
  kv_kept h (set_bm f h).
Proof.
  intros H1 H2 H3 Hh. split; [by unfold unleased; simpl; rewrite H3|]. split; simpl; rewrite ?H2; try done.
  - intros i b' Hb. right. by exists b'.
  - intros k q' Hq. right. by exists q'.
Qed.

(** A change of one sequence. *)
Lemma kv_kept_alter k f h :
  (∀ q, hp_seqs h !! k = Some q → num_cached_tokens (f q) `mod` block_size (hp_bm h) = 0 ∨ keeps_cover q (f q)) →
  kv_kept h (set_seqs (alter f k) h).
Proof.
  intros Hf Hh. split; [done|]. split; simpl; try done.
  - intros i b' Hb. right. by exists b'.
  - intros j q'. rewrite lookup_alter_Some. intros [(<- & q & Hq & ->)|[_ Hq]].
    + destruct (Hf q Hq); [by left|right; by exists q].
    + right. by exists q'.
Qed.

(** A change of one block: unpublished, or with its content. *)
Lemma kv_kept_block i f h :
  (∀ b, b_hash (f b) = -1 ∨ same_content b (f b)) →
  kv_kept h (set_bm (λ m, set_blocks (alter f i (blocks m)) m) h).
Proof.
  intros Hf Hh. split; [done|]. split; simpl; rewrite ?length_alter; try done.
  - intros j b'. rewrite list_lookup_alter. case_decide as E; subst.
    + intros (b & Hb & ->)%fmap_Some. destruct (Hf b); [by left|right; by exists b].
    + intros Hb. right. by exists b'.
  - intros k q' Hq. right. by exists q'.
Qed.

Lemma kept_upd_bm f :
  (∀ m, block_size (f m) = block_size m) → (∀ m, blocks (f m) = blocks m) →
  (∀ m, _active_temporary_reservations (f m) = _active_temporary_reservations m) →
  keeps kv_kept (upd_bm f).
Proof. intros H1 H2 H3 h. by apply kv_kept_bm. Qed.

Lemma kept_upd_seq k f : (∀ q, keeps_cover q (f q)) → keeps kv_kept (upd_seq k f).
Proof. intros Hf h. apply kv_kept_alter. intros q _. by right. Qed.

Lemma kept_uncovered k f h :
  (∀ q, num_cached_tokens (f q) = 0) → kv_kept h (set_seqs (alter f k) h).
Proof. intros Hf. apply kv_kept_alter. intros q _. left. rewrite Hf. apply Zmod_0_l. Qed.

Lemma kept_get_bm : keeps kv_kept get_bm.
Proof. apply keeps_gets, _. Qed.
Lemma kept_get_seq k : keeps kv_kept (get_seq k).
Proof. apply keeps_inspect, _. Qed.
Lemma kept_get_block i : keeps kv_kept (get_block i).
Proof. apply keeps_inspect, _. Qed.

Lemma kept_upd_block i f :
  (∀ b, b_hash (f b) = -1 ∨ same_content b (f b)) → keeps kv_kept (upd_block i f).
Proof.
  intros Hf. apply (keeps_bind kv_kept); [apply kept_get_block|]. intros _. apply keeps_modify.
  intros h. by apply kv_kept_block.
Qed.

Lemma kept_push_block k i : keeps kv_kept (push_block k i).
Proof. apply kept_upd_seq. intros q. split; [done|done|]. simpl. by apply prefix_app_r. Qed.

(** Reading first: the rest is only run from the state read. *)
Lemma keeps_gets_bind {S A B} (P : relation S) (f : S → A) (k : A → M S B) :
  (∀ s, P s (k (f s) s).2) → keeps P (bind (gets f) k).
Proof. intros Hk s. apply Hk. Qed.

Lemma keeps_inspect_bind {S A B} (P : relation S) `{!PreOrder P} (f : S → outcome A) (k : A → M S B) :
  (∀ s a, f s = Ok a → P s (k a s).2) → keeps P (bind (inspect f) k).
Proof. intros Hk s. unfold bind, inspect. destruct (f s) eqn:E; [by apply Hk|]. simpl. reflexivity. Qed.

Lemma after_raise_if {S A} (P : relation S) `{!PreOrder P} c e (k : M S A) s :
  (c = false → P s (k s).2) → P s (bind (raise_if c e) (λ _, k) s).2.
Proof. intros Hk. unfold bind, raise_if. destruct c; simpl; [reflexivity|by apply Hk]. Qed.

#[local] Hint Resolve kept_get_bm kept_get_seq kept_get_block kept_push_block : keeps.
#[local] Hint Extern 1 (keeps kv_kept (upd_bm _)) => (apply kept_upd_bm; intros; reflexivity) : keeps.
#[local] Hint Extern 1 (keeps kv_kept (upd_seq _ _)) =>
  (apply kept_upd_seq; intros; split; reflexivity) : keeps.
#[local] Hint Extern 1 (keeps kv_kept (upd_block _ _)) =>
  (apply kept_upd_block; intros; first [by left|right; by split]) : keeps.

Section heap.
Variable compute_hash : list Z → Z → Z.

Lemma kept_fence b : keeps kv_kept (_assert_allocator_mutation_allowed b).
Proof. unfold _assert_allocator_mutation_allowed, _active_temporary_reservation. keeps_auto. Qed.
#[local] Hint Resolve kept_fence : keeps.

Lemma kept_allocate_block : keeps kv_kept _allocate_block.
Proof. unfold _allocate_block. keeps_auto. Qed.
#[local] Hint Resolve kept_allocate_block : keeps.

Lemma kept_deallocate_block i : keeps kv_kept (_deallocate_block i).
Proof. unfold _deallocate_block. keeps_auto. Qed.

Lemma kept_pin_block i : keeps kv_kept (pin_block i).
Proof. unfold pin_block. keeps_auto. Qed.
#[local] Hint Resolve kept_deallocate_block kept_pin_block : keeps.

Lemma kept_release_block i : keeps kv_kept (release_block i).
Proof. unfold release_block. keeps_auto. Qed.
#[local] Hint Resolve kept_release_block : keeps.

Lemma kept_can_allocate k : keeps kv_kept (can_allocate compute_hash k).
Proof. unfold can_allocate. keeps_auto. Qed.

Lemma kept_can_append k : keeps kv_kept (can_append k).
Proof. unfold can_append. keeps_auto. Qed.

Lemma kept_may_append k : keeps kv_kept (may_append k).
Proof. unfold may_append. keeps_auto. Qed.

(** The coverage a deallocation leaves is empty. *)
Lemma kept_clear k :
  keeps kv_kept (upd_seq k (set_num_cached_tokens 0) ;;;
                 upd_seq k (set_num_draft_cached_tokens 0) ;;; upd_seq k (set_block_table [])).
Proof.
  intros h. unfold bind, upd_seq, modify. cbn [snd].
  assert (set_seqs (alter (set_block_table []) k) (set_seqs (alter (set_num_draft_cached_tokens 0) k)
    (set_seqs (alter (set_num_cached_tokens 0) k) h)) = set_seqs (alter (λ q, set_block_table []
      (set_num_draft_cached_tokens 0 (set_num_cached_tokens 0 q))) k) h) as ->; [|by apply kept_uncovered].
  unfold set_seqs. simpl. f_equal. apply map_eq. intros j. rewrite !lookup_alter.
  rewrite !(decide_True (P := k = k)) by done. case_decide; [|done]. by destruct (hp_seqs h !! k).
Qed.
#[local] Hint Resolve kept_clear keeps_allocate_block keeps_pin_block : keeps.

Lemma kept_deallocate k : keeps kv_kept (deallocate k).
Proof.
  intros h Hh. unfold deallocate.
  assert (_active_temporary_reservation h = (Ok None, h)) as E.
  { unfold _active_temporary_reservation, get_bm, bind, gets, raise_if, ret.
    unfold unleased in Hh. cbv beta iota. rewrite Hh, map_to_list_empty. done. }
  rewrite (bind_ok _ _ _ _ _ E). rewrite (bind_ok (ret tt) _ h tt h eq_refl).
  revert h Hh E. intros h Hh _. revert h Hh.
  change (keeps kv_kept (_assert_allocator_mutation_allowed false ;;;
    let* s := get_seq k in for_each release_block (reverse (block_table s)) ;;;
    upd_seq k (set_num_cached_tokens 0) ;;;
    upd_seq k (set_num_draft_cached_tokens 0) ;;; upd_seq k (set_block_table []))).
  apply (keeps_bind kv_kept); [apply kept_fence|intros _].
  apply (keeps_bind kv_kept); [apply kept_get_seq|intros q].
  apply (keeps_bind kv_kept); [keeps_auto|intros _]. apply kept_clear.
Qed.

(** *** Allocation that undoes itself *)

Lemma snapshot_content m ids sts :
  _snapshot_block_states m ids = Ok sts →
  Forall (λ st, ∃ b, blocks m !! bst_block_id st = Some b ∧ bst_hash st = b_hash b ∧ bst_token_ids st = b_token_ids b) sts.
Proof.
  unfold _snapshot_block_states. rewrite omap_all_ok. induction 1 as [|i st l sts H _ IH]; constructor; [|done].
  destruct (blocks m !! i) as [b|] eqn:E; [|done]. injection H as <-. by exists b.
Qed.

Lemma restored_blocks sts bl i b' :
  restore_block_states sts bl !! i = Some b' →
  bl !! i = Some b' ∨ ∃ st, st ∈ sts ∧ bst_block_id st = i ∧ b_hash b' = bst_hash st ∧ b_token_ids b' = bst_token_ids st.
Proof.
  unfold restore_block_states. revert bl. induction sts as [|st sts IH]; intros bl H; [by left|].
  apply IH in H as [H|(st' & Hin & H)]; [|right; exists st'; split; [by right|done]].
  rewrite list_lookup_alter in H. case_decide as E; [|by left]. subst.
  apply fmap_Some in H as (b & Hb & ->). right. exists st. split; [left|done].
Qed.

(** The handler puts back the content of the blocks it knew. *)
Lemma kept_restore_allocation h h' k q table draft sts ids free used hashes :
  kv_frame h h' → heap_frame h h' → hp_seqs h !! k = Some q → _snapshot_block_states (hp_bm h) ids = Ok sts →
  table = block_table q →
  kv_frame h (restore_allocation k table (num_cached_tokens q) draft sts free used hashes h').
Proof.
  intros [B P K Q] Hf Hq Hs ->. pose proof (snapshot_content _ _ _ Hs) as Hst. rewrite Forall_forall in Hst.
  split; simpl.
  - done.
  - rewrite <-P. unfold restore_block_states. clear. generalize (blocks (hp_bm h')) as bl.
    induction sts as [|st sts IH]; intros bl; [done|]. simpl. by rewrite IH, length_alter.
  - intros i b' H. apply restored_blocks in H as [H|(st & Hin & Hi & H1 & H2)]; [by apply K|].
    destruct (Hst st Hin) as (b & Hb & E1 & E2). rewrite Hi in Hb. right. exists b.
    split; [done|]. split; congruence.
  - intros j q'. rewrite lookup_alter_Some. intros [(<- & q1 & Hq1 & ->)|[_ H]]; [|by apply Q].
    right. exists q. split; [done|]. split; simpl; [done| |done].
    pose proof (hf_seqs _ _ Hf k) as Hr. rewrite Hq, Hq1 in Hr. inversion Hr as [? ? Hsr|]; subst.
    by rewrite (sr_tokens _ _ Hsr).
Qed.
Lemma kept_try (body : MH unit) k q table draft sts ids free used hashes h :
  keeps kv_kept body → keeps heap_frame body →
  hp_seqs h !! k = Some q → _snapshot_block_states (hp_bm h) ids = Ok sts → table = block_table q →
  kv_kept h ((try_reraise body (restore_allocation k table (num_cached_tokens q) draft sts free used hashes) ;;;
              ret true) h).2.
Proof.
  intros Hb Hf Hq Hs Ht Hh. destruct (Hb h Hh) as [Hu Hk]. specialize (Hf h).
  unfold bind, try_reraise. destruct (body h) as [[a|e] h']; simpl in *; [done|].
  split; [exact Hu|]. by eapply kept_restore_allocation.
Qed.

(** Reading the heap, at the states of a computation. *)
Lemma at_get_seq {A} k (f : sequence → MH A) h :
  (∀ q, hp_seqs h !! k = Some q → kv_kept h (f q h).2) → kv_kept h (bind (get_seq k) f h).2.
Proof.
  intros Hf. unfold bind, get_seq, inspect. destruct (hp_seqs h !! k) as [q|] eqn:E; [by apply Hf|].
  simpl. reflexivity.
Qed.

Lemma at_raise_if {A} c e (f : MH A) h : kv_kept h (f h).2 → kv_kept h ((raise_if c e ;;; f) h).2.
Proof. intros Hf. unfold bind, raise_if. destruct c; simpl; [reflexivity|done]. Qed.

Lemma at_lift {A B} (m : outcome A) (f : A → MH B) h :
  (∀ a, m = Ok a → kv_kept h (f a h).2) → kv_kept h (bind (lift m) f h).2.
Proof. intros Hf. unfold bind, lift. destruct m as [a|e]; [by apply Hf|]. simpl. reflexivity. Qed.

Lemma kept_extend k t : keeps kv_kept (extend k t).
Proof.
  unfold extend. apply (keeps_bind kv_kept); [apply kept_fence|intros _ h].
  apply at_get_seq. intros q Hq. do 2 apply at_raise_if. unfold bind at 1, get_bm, gets. cbv zeta.
  case_match; [simpl; reflexivity|]. case_match; [simpl; reflexivity|].
  apply at_lift. intros sts Hs. eapply kept_try; try done; keeps_auto.
Qed.

Lemma kept_attach_blocks k ids nc n : keeps kv_kept (attach_blocks k ids nc n).
Proof.
  unfold attach_blocks. apply (keeps_bind kv_kept); [keeps_auto|intros _].
  apply (keeps_bind kv_kept); [keeps_auto|intros _]. intros h. unfold bind at 1, get_bm, gets.
  unfold bind, upd_seq, modify. cbn [snd]. transitivity (set_seqs (alter (set_num_cached_tokens (nc * block_size (hp_bm h))) k) h).
  - apply kv_kept_alter. intros q _. left. simpl. apply Z_mod_mult.
  - apply kv_kept_alter. intros q _. right. by split.
Qed.

Lemma kept_allocate_incremental k nc t : keeps kv_kept (allocate_incremental compute_hash k nc t).
Proof.
  unfold allocate_incremental. apply (keeps_bind kv_kept); [apply kept_fence|intros _ h].
  apply at_get_seq. intros q Hq. unfold bind at 1, gets. 
  destruct (decide (block_table q = [])) as [Ht|Ht].
  2:{ rewrite bool_decide_eq_false_2 by done. simpl. reflexivity. }
  do 3 apply at_raise_if. unfold bind at 1, get_bm, gets. apply at_raise_if.
  apply at_lift. intros ids _. case_match; [simpl; reflexivity|].
  apply at_lift. intros sts Hs. eapply kept_try; try done; [apply kept_attach_blocks|].
  unfold attach_blocks. keeps_auto.
Qed.
End heap.

#[export] Hint Resolve kept_can_allocate kept_allocate_incremental kept_extend kept_can_append
  kept_may_append kept_deallocate : keeps.

(** ** The scheduler *)

(** Without speculative state. *)
Definition ordinary (s : scheduler) : Prop :=
  _active_spec_transaction s = None ∧ _active_draft_discard s = None ∧ unleased (sc_heap s).

Definition sched_kept (s s' : scheduler) : Prop :=
  ordinary s → ordinary s' ∧ kv_frame (sc_heap s) (sc_heap s').

#[export] Instance sched_kept_preorder : PreOrder sched_kept.
Proof.
  split.
  - intros s Hs. split; [done|reflexivity].
  - intros s1 s2 s3 H12 H23 H1. destruct (H12 H1) as [H2 F12]. destruct (H23 H2) as [H3 F23].
    split; [done|]. by transitivity (sc_heap s2).
Qed.

Lemma kept_on_heap {A} (m : MH A) : keeps kv_kept m → keeps sched_kept (on_heap m).
Proof.
  intros Hm s (Ht & Hd & Hu). specialize (Hm (sc_heap s) Hu). unfold on_heap, zoom.
  destruct (m (sc_heap s)) as [o h]. simpl in *. destruct Hm as [Hu' Hf]. by split.
Qed.

Lemma kept_seq_at k : keeps sched_kept (seq_at k).
Proof. apply kept_on_heap, kept_get_seq. Qed.

Lemma kept_set_seq k f : (∀ q, keeps_cover q (f q)) → keeps sched_kept (set_seq k f).
Proof. intros Hf. by apply kept_on_heap, kept_upd_seq. Qed.

(** An assignment of the queues. *)
Lemma kept_queues f s :
  sc_heap (f s) = sc_heap s → _active_spec_transaction (f s) = _active_spec_transaction s →
  _active_draft_discard (f s) = _active_draft_discard s → sched_kept s (f s).
Proof. intros E1 E2 E3 (Ht & Hd & Hu). unfold ordinary. rewrite E1, E2, E3. by split. Qed.

#[export] Hint Resolve kept_seq_at : keeps.
#[export] Hint Extern 1 (keeps sched_kept (on_heap _)) => (apply kept_on_heap) : keeps.
#[export] Hint Extern 1 (keeps sched_kept (set_seq _ _)) =>
  (apply kept_set_seq; intros; split; reflexivity) : keeps.
#[export] Hint Extern 1 (sched_kept _ _) => (apply (kept_queues _ _); reflexivity) : keeps.

Section sched.
Variable compute_hash : list Z → Z → Z.
Variable clock : nat → Z.

Lemma kept_check_mid : keeps sched_kept _check_mid_chunk_invariant.
Proof. unfold _check_mid_chunk_invariant. keeps_auto. Qed.

(** Without a transaction there is nothing to abort. *)
Lemma kept_abort : keeps sched_kept abort_speculative_step.
Proof.
  intros s Hs. unfold abort_speculative_step, bind, get. destruct Hs as (Ht & Hd & Hu). rewrite Ht.
  simpl. split; [by split_and!|reflexivity].
Qed.

Lemma kept_rollback_active : keeps sched_kept _rollback_active_draft_discard.
Proof.
  intros s Hs. unfold _rollback_active_draft_discard, bind, get. destruct Hs as (Ht & Hd & Hu). rewrite Hd.
  simpl. split; [by split_and!|reflexivity].
Qed.
#[local] Hint Resolve kept_check_mid kept_abort kept_rollback_active : keeps.

Lemma kept_drop_pending ids : keeps sched_kept (drop_pending ids).
Proof. unfold drop_pending. keeps_auto. Qed.
#[local] Hint Resolve kept_drop_pending : keeps.

Lemma kept_preempt k : keeps sched_kept (preempt k).
Proof. unfold preempt. keeps_auto. Qed.
#[local] Hint Resolve kept_preempt : keeps.

Lemma kept_waiting_popleft : keeps sched_kept waiting_popleft.
Proof. unfold waiting_popleft. keeps_auto. Qed.
#[local] Hint Resolve kept_waiting_popleft : keeps.

Lemma kept_make_room fuel k : keeps sched_kept (make_room fuel k).
Proof. revert k. induction fuel as [|fuel IH]; intros k; cbn [make_room]; keeps_auto; apply IH. Qed.
#[local] Hint Resolve kept_make_room : keeps.

Lemma kept_decode_loop fuel l : keeps sched_kept (decode_loop fuel l).
Proof. revert l. induction fuel as [|fuel IH]; intros l; cbn [decode_loop]; keeps_auto; apply IH. Qed.

Lemma kept_prefill_work k : keeps sched_kept (prefill_work compute_hash k).
Proof. unfold prefill_work. keeps_auto. Qed.

Lemma kept_prefill_alloc k nc : keeps sched_kept (prefill_alloc compute_hash k nc).
Proof. unfold prefill_alloc. keeps_auto. Qed.

Lemma kept_read_clock : keeps sched_kept (read_clock clock).
Proof. unfold read_clock. keeps_auto. Qed.
#[local] Hint Resolve kept_decode_loop kept_prefill_work kept_prefill_alloc kept_read_clock : keeps.

Lemma kept_promote k : keeps sched_kept (promote k).
Proof. unfold promote. keeps_auto. Qed.

Lemma kept_stamp k : keeps sched_kept (stamp_first_scheduled clock k).
Proof. unfold stamp_first_scheduled. keeps_auto. Qed.
#[local] Hint Resolve kept_promote kept_stamp : keeps.

Lemma kept_prefill_loop fuel l n : keeps sched_kept (prefill_loop compute_hash clock fuel l n).
Proof. revert l n. induction fuel as [|fuel IH]; intros l n; cbn [prefill_loop]; keeps_auto; apply IH. Qed.
#[local] Hint Resolve kept_prefill_loop : keeps.

Lemma kept_schedule : keeps sched_kept (schedule compute_hash clock).
Proof. unfold schedule. keeps_auto. Qed.

Lemma kept_targets_in t l : keeps sched_kept (targets_in t l).
Proof. unfold targets_in. keeps_auto. Qed.

Lemma kept_cancel_one b k : keeps sched_kept (cancel_one b k).
Proof. unfold cancel_one. destruct b; keeps_auto. Qed.
#[local] Hint Resolve kept_targets_in kept_cancel_one : keeps.

Lemma kept_cancel ids : keeps sched_kept (cancel ids).
Proof. unfold cancel. keeps_auto. Qed.

Lemma kept_add k : keeps sched_kept (add k).
Proof. unfold add, require_capacity. keeps_auto. Qed.
End sched.
