(* ===== verification/ScheduleSpec.v ===== *)
(** * ScheduleSpec: one scheduling step

    The loops of [Scheduler.schedule] against the invariant [sinv]: the decode
    loop makes room by preempting (the partial prefill first, then the newest
    running sequences, then the row itself) and always terminates; the
    chunked-prefill loop stays inside the token and sequence budgets and leaves
    at most one partial prefill, at the waiting head; the whole step raises only
    the two "cannot schedule" errors. *)
From S2P Require Import Prelude SamplingParams Sequence Heap BlockManager Reservation SpecMemory.
From S2P Require Import SpecRoutes SpecPlan Scheduler CacheInv KVContract SchedInv Frame.

Section schedule.
Context (compute_hash : list Z → Z → Z) (I : heap → Prop)
  `{!KVAllocator compute_hash I}.
#[local] Abbreviation sinv := (sinv I).

(** The members of the queues and of the loop's hands. *)
Definition members (out : list nat) (s : scheduler) : list nat :=
  waiting s ++ running s ++ out.

Lemma split_last {A} (l : list A) x : last l = Some x → l = removelast l ++ [x].
Proof.
  intros Hl. apply last_Some in Hl as [l' ->]. by rewrite removelast_last.
Qed.

Definition mid_weight (s : scheduler) : nat :=
  match mid_chunk_seq s with Some _ => 1 | None => 0 end.

(** The last resort of [make_room]: nobody else is left to preempt. *)
Definition cornered (k : nat) (out : list nat) (s s0 : scheduler) : Prop :=
  sinv (out ++ [k]) out s0 ∧ sched_frame s s0 ∧ running s0 = [] ∧ mid_chunk_seq s0 = None ∧
  can_append k (sc_heap s0) = (Ok false, sc_heap s0).

Lemma preempt_frame s k W R s' :
  preempt k (set_waiting W (set_running R s)) = (Ok tt, s') → sched_frame s s'.
Proof.
  intros E. pose proof (keeps_preempt k (set_waiting W (set_running R s))) as Hf.
  rewrite E in Hf. destruct Hf. by split.
Qed.

Lemma make_room_ok fuel k out s :
  sinv (out ++ [k]) out s →
  (length (running s) + mid_weight s < fuel)%nat →
  ∃ b s', make_room fuel k s = (Ok b, s') ∧
    sinv (if b : bool then out ++ [k] else out) out s' ∧
    (b = true → can_append k (sc_heap s') = (Ok true, sc_heap s')) ∧
    members (if b then out ++ [k] else out) s' ≡ₚ members (out ++ [k]) s ∧
    running s' ⊆ running s ∧ (length (running s') <= length (running s))%nat ∧
    sc_config s' = sc_config s ∧ (∀ x, x ∈ out → seqs s' !! x = seqs s !! x) ∧
    (b = false → ∃ s0, cornered k out s s0).
Proof.
  revert s. induction fuel as [|fuel IH]; intros s Hs Hfuel; [lia|].
  pose proof (si_nodup _ _ _ _ Hs) as Hnd.
  assert (k ∉ out) as Hk.
  { rewrite !(assoc_L (++)) in Hnd. apply NoDup_app in Hnd as (_ & Hd & _).
    intros Hin. apply (Hd k); set_solver. }
  destruct (si_run _ _ _ _ Hs k) as (q & Hq & Hrun); [set_solver|].
  destruct (kv_append _ k q (si_heap _ _ _ _ Hs) Hq) as (ok & Eok & _).
  cbn [make_room]. rewrite (bind_ok _ _ _ _ _ (on_heap_read _ _ _ Eok)).
  destruct ok.
  { exists true, s. split; [done|]. split_and!; try done. }
  unfold bind at 1, get.
  (* each preemption hands a smaller state to the rest of the loop *)
  assert (∀ m s', sinv (out ++ [k]) out s' → m ∉ out → sched_frame s s' →
    (length (running s') + mid_weight s' < fuel)%nat → running s' ⊆ running s →
    (length (running s') <= length (running s))%nat →
    members (out ++ [k]) s' ≡ₚ members (out ++ [k]) s →
    (∀ x, x ≠ m → seqs s' !! x = seqs s !! x) →
    ∃ b s2, make_room fuel k s' = (Ok b, s2) ∧
      sinv (if b : bool then out ++ [k] else out) out s2 ∧
      (b = true → can_append k (sc_heap s2) = (Ok true, sc_heap s2)) ∧
      members (if b then out ++ [k] else out) s2 ≡ₚ members (out ++ [k]) s ∧
      running s2 ⊆ running s ∧ (length (running s2) <= length (running s))%nat ∧
      sc_config s2 = sc_config s ∧ (∀ x, x ∈ out → seqs s2 !! x = seqs s !! x) ∧
      (b = false → ∃ s0, cornered k out s s0)) as Hrest.
  { intros m s' Hs' Hm Hc Hf Hsub Hlen Hp Hsq.
    destruct (IH s' Hs' Hf) as (b & s2 & E & Hb & Hcan & Hp2 & Hr & Hl & Hc2 & Hsq2 & Hco).
    pose proof (sf_config _ _ Hc) as Hc'.
    exists b, s2. split_and!; try done; [by rewrite Hp2|set_solver|lia|congruence| |].
    - intros x Hx. rewrite Hsq2, Hsq by (try done; intros ->; done). done.
    - intros Hb2. destruct (Hco Hb2) as (s0 & ? & ? & ?). exists s0. split; [done|].
      split; [by transitivity s'|done]. }
  destruct (mid_chunk_seq s) as [m|] eqn:Em.
  - destruct (si_mid _ _ _ _ Hs m Em) as [Hhead _].
    destruct (waiting s) as [|m' rest] eqn:Ew; [done|]. simpl in Hhead, Hnd.
    injection Hhead as ->.
    assert (m ∉ out) as Hm.
    { intros Hin. apply NoDup_cons in Hnd as [Hnm _]. set_solver. }
    assert (set_waiting rest s = set_waiting rest (set_running (running s) s)) as Es
      by by destruct s.
    destruct (preempt_sinv compute_hash I (out ++ [k]) out s rest (running s) (out ++ [k]) m Hs)
      as (s' & E & Hs' & Hw' & Hr' & Hm' & Hc' & Hsq'); try done.
    all: try (rewrite Ew; set_solver); try (by rewrite Ew); try (by right).
    destruct (Hrest m s') as (b & s2 & E2 & Hres); try done.
      { by eapply preempt_frame. }
    { unfold mid_weight in *. rewrite Em in Hfuel. rewrite Hr', Hm'. lia. }
    { by rewrite Hr'. } { by rewrite Hr'. }
    { unfold members. rewrite Hw', Hr', Ew. rewrite <-(assoc_L (++)). simpl.
      by rewrite <-Permutation_middle. }
    exists b, s2. split; [|done]. unfold waiting_popleft, bind, get at 1. rewrite Ew.
    unfold modify, ret. rewrite Es, E. exact E2.
  - destruct (last (running s)) as [v|] eqn:Ev.
    + apply split_last in Ev. set (R := removelast (running s)) in *.
      assert (v ∉ out) as Hv.
      { intros Hin. rewrite Ev in Hnd. apply NoDup_app in Hnd as (_ & _ & Hnd).
        rewrite <-(assoc_L (++)) in Hnd. apply NoDup_app in Hnd as (_ & _ & Hnd).
        simpl in Hnd. apply NoDup_cons in Hnd as [Hnv _]. set_solver. }
      assert (set_running R s = set_waiting (waiting s) (set_running R s)) as Es by by destruct s.
      destruct (preempt_sinv compute_hash I (out ++ [k]) out s (waiting s) R (out ++ [k]) v Hs)
        as (s' & E & Hs' & Hw' & Hr' & Hm' & Hc' & Hsq'); try done.
      all: try (by left); try (rewrite Ev at 1; clear -Hs; set_solver).
      { rewrite Ev. rewrite <-(assoc_L (++)). simpl. solve_Permutation. }
      assert (length (running s) = S (length R)) as Hlen
        by (rewrite Ev, length_app; simpl; lia).
      destruct (Hrest v s') as (b & s2 & E2 & Hres); try done.
      { by eapply preempt_frame. }
      { unfold mid_weight in *. rewrite Em in Hfuel. rewrite Hr', Hm'. lia. }
      { rewrite Hr', Ev at 1. set_solver. } { rewrite Hr'. lia. }
      { unfold members. rewrite Hw', Hr'. rewrite Ev. rewrite <-!(assoc_L (++)). simpl.
        solve_Permutation. }
      exists b, s2. split; [|done]. unfold bind, modify. rewrite Es, E. exact E2.
    + assert (running s = []) as Er by (by apply last_None).
      destruct (preempt_sinv compute_hash I (out ++ [k]) out s (waiting s) (running s) out k Hs)
        as (s' & E & Hs' & Hw' & Hr' & Hm' & Hc' & Hsq'); try done.
      all: clear Hrest IH; try (by left); try solve_Permutation; try set_solver.
      assert (s = set_waiting (waiting s) (set_running (running s) s)) as Es by by destruct s.
      exists false, s'. split_and!; try done; try (intros _; by exists s).
      * unfold bind. rewrite Es at 1. by rewrite E.
      * unfold members. rewrite Hw', Hr'. solve_Permutation.
      * by rewrite Hr'.
      * by rewrite Hr'.
      * intros x Hx. apply Hsq'. by intros ->.
Qed.

(** ** Writing one member *)

(** Scheduling a member of [running ++ out]. *)
Lemma sinv_schedule_running out sch s k q' h' :
  sinv out sch s → k ∈ running s ++ out → I h' → block_size (hp_bm h') = bsz s →
  hp_seqs h' = <[k := q']> (seqs s) → run_ok (bsz s) (sch ++ [k]) k q' →
  sinv out (sch ++ [k]) (set_heap h' s).
Proof.
  intros [Hi Hb Hp Hnd Hcap Hm Hw Hr Ho] Hk Hi' Hb' Hsq Hq.
  assert (∀ x, x ∈ waiting s → x ≠ k) as Hne.
  { intros x Hx ->. apply NoDup_app in Hnd as (_ & Hd & _). by apply (Hd k). }
  split; simpl; rewrite ?Hb'; try done.
  - intros m Em. destruct (Hm m Em) as [Hh (q & Hq' & Ht)]. split; [done|].
    exists q. rewrite Hsq, lookup_insert_ne; [done|]. intros <-.
    apply (Hne k); [|done]. destruct (waiting s); simplify_eq/=. set_solver.
  - intros x Hx. destruct (Hw x Hx) as (q & Hq' & Hok). exists q.
    rewrite Hsq, lookup_insert_ne by (intros <-; by apply (Hne k)).
    split; [done|]. apply wait_ok_other; [by apply Hne|done].
  - intros x Hx. destruct (decide (x = k)) as [->|Hxk].
    + exists q'. rewrite Hsq, lookup_insert_eq. done.
    + destruct (Hr x Hx) as (q & Hq' & Hok). exists q.
      rewrite Hsq, lookup_insert_ne by done. split; [done|]. by apply run_ok_other.
  - intros x qx. rewrite Hsq. destruct (decide (x = k)) as [->|Hxk]; [intros _ Hn; set_solver|].
    rewrite lookup_insert_ne by done. apply Ho.
Qed.

(** ** The decode loop *)

Lemma ceil_div_succ n bs :
  1 < bs → 0 <= n →
  ceil_div (n + 1) bs = ceil_div n bs + (if (n + 1) `mod` bs =? 1 then 1 else 0).
Proof.
  intros Hbs Hn. unfold ceil_div.
  replace (n + 1 + bs - 1) with (n + 1 * bs) by lia. rewrite Z.div_add by lia.
  replace (n + bs - 1) with ((n - 1) + 1 * bs) by lia. rewrite Z.div_add by lia.
  pose proof (Z.div_mod n bs ltac:(lia)) as Hd. pose proof (Z.mod_pos_bound n bs ltac:(lia)).
  destruct (decide (n `mod` bs = 0)) as [E|E].
  - replace ((n - 1) `div` bs) with (n `div` bs - 1)
      by (apply (Z.div_unique _ _ _ (bs - 1)); lia).
    replace ((n + 1) `mod` bs) with 1
      by (apply (Z.mod_unique _ _ (n `div` bs)); lia). simpl. lia.
  - replace ((n - 1) `div` bs) with (n `div` bs)
      by (apply (Z.div_unique _ _ _ (n `mod` bs - 1)); lia).
    destruct ((n + 1) `mod` bs =? 1) eqn:E1; [|lia]. apply Z.eqb_eq in E1. exfalso.
    destruct (decide (n `mod` bs = bs - 1)).
    + assert ((n + 1) `mod` bs = 0) by
        (symmetry; apply (Z.mod_unique _ _ (n `div` bs + 1)); lia). lia.
    + assert ((n + 1) `mod` bs = n `mod` bs + 1) by
        (symmetry; apply (Z.mod_unique _ _ (n `div` bs)); lia). lia.
Qed.

Definition decode_row (s : scheduler) (k : nat) : Prop :=
  ∃ q, seqs s !! k = Some q ∧ num_scheduled_tokens q = 1 ∧ is_prefill q = false.

Lemma can_append_put h k q q' :
  hp_seqs h !! k = Some q → num_tokens q' = num_tokens q →
  (can_append k (put_seq k q' h)).1 = (can_append k h).1.
Proof.
  intros Hk E. unfold can_append, get_seq, inspect, get_bm, gets, bind, ret. simpl.
  by rewrite lookup_insert_eq, Hk, E.
Qed.

(** Scheduling the row the loop holds. *)
Lemma decode_turn out s k :
  sinv (out ++ [k]) out s → can_append k (sc_heap s) = (Ok true, sc_heap s) →
  ∃ s', (set_seq k (set_num_scheduled_tokens 1) ;;; set_seq k (set_is_prefill false) ;;;
         on_heap (may_append k)) s = (Ok tt, s') ∧
    sinv (out ++ [k]) (out ++ [k]) s' ∧ decode_row s' k ∧
    waiting s' = waiting s ∧ running s' = running s ∧ sc_config s' = sc_config s ∧
    ∀ x, x ≠ k → seqs s' !! x = seqs s !! x.
Proof.
  intros Hs Hcan. destruct (si_run _ _ _ _ Hs k) as (q & Hq & Hst & Hcov & Htag); [set_solver|].
  destruct (kv_seq _ _ _ (si_heap _ _ _ _ Hs) Hq) as [_ Hwf].
  assert (k ∉ out) as Hk.
  { pose proof (si_nodup _ _ _ _ Hs) as Hnd. rewrite !(assoc_L (++)) in Hnd.
    apply NoDup_app in Hnd as (_ & Hd & _). intros Hin. apply (Hd k); set_solver. }
  rewrite decide_False in Htag by done. destruct Htag as [H0 H1].
  destruct (si_bs _ _ _ _ Hs) as [_ Hbs].
  set (q1 := set_is_prefill false (set_num_scheduled_tokens 1 q)).
  set (h1 := put_seq k q1 (sc_heap s)).
  assert (I h1) as Hi1 by (apply (inv_put compute_hash I k q); [apply Hs|done|by apply evolves_attr]).
  destruct (kv_append h1 k q1 Hi1 (put_lookup _ _ _)) as (ok & Eok & Hok).
  pose proof (can_append_put (sc_heap s) k q q1 Hq eq_refl) as Hc. fold h1 in Hc.
  rewrite Eok, Hcan in Hc. simpl in Hc. injection Hc as ->.
  destruct (Hok eq_refl) as (h2 & new & E & Hi2 & Hb2 & Hlen & Hsq2).
  assert (hp_seqs h2 = <[k := set_block_table (block_table q1 ++ new) q1]> (seqs s)) as Hsq
    by (rewrite Hsq2; apply insert_insert_eq).
  exists (set_heap h2 s). split; [|split; [|split_and!; try done]].
  - rewrite (bind_ok _ _ _ _ _ (set_seq_ok k _ s q Hq)).
    erewrite bind_ok; [|by apply set_seq_ok, put_lookup]. simpl. rewrite put_put.
    erewrite on_heap_ok by exact E. done.
  - eapply sinv_schedule_running; try done; [set_solver|].
    split; [done|]. destruct Hcov as [C1 C2 C3 C4]. split.
    + split; simpl; try lia. rewrite length_app, Nat2Z.inj_add, C4, Hlen, H0.
      change (block_size (hp_bm h1)) with (bsz s). simpl num_tokens.
      rewrite <-H1, Z.add_0_r. symmetry. by apply ceil_div_succ.
    + rewrite decide_True by set_solver. simpl. lia.
  - exists (set_block_table (block_table q1 ++ new) q1). simpl. by rewrite Hsq, lookup_insert_eq.
  - intros x Hx. simpl. by rewrite Hsq, lookup_insert_ne.
Qed.

(** Taking the head of [running] in hand. *)
Lemma sinv_take out s k rest :
  sinv out out s → running s = k :: rest → sinv (out ++ [k]) out (set_running rest s).
Proof.
  intros [Hi Hb Hp Hnd Hcap Hm Hw Hr Ho] Er. rewrite Er in *. split; simpl; try done.
  - assert (waiting s ++ rest ++ out ++ [k] ≡ₚ waiting s ++ (k :: rest) ++ out) as ->
      by solve_Permutation. done.
  - revert Hcap. rewrite !length_app. simpl. lia.
  - intros x Hx. apply Hr. set_solver.
  - intros x qx Hqx Hn. apply (Ho x qx Hqx). set_solver.
Qed.

Lemma decode_rows_keep (out : list nat) s s' :
  (∀ x, x ∈ out → decode_row s x) → (∀ x, x ∈ out → seqs s' !! x = seqs s !! x) →
  ∀ x, x ∈ out → decode_row s' x.
Proof. intros Hd Hsq x Hx. unfold decode_row. rewrite Hsq by done. by apply Hd. Qed.

Lemma decode_loop_ok fuel out s :
  sinv out out s → (length (running s) < fuel)%nat → (∀ x, x ∈ out → decode_row s x) →
  ∃ out' s', decode_loop fuel out s = (Ok out', s') ∧ sinv out' out' s' ∧
    members out' s' ≡ₚ members out s ∧ sc_config s' = sc_config s ∧
    running s' = [] ∧ (∀ x, x ∈ out' → decode_row s' x) ∧ out ⊆ out'.
Proof.
  revert out s. induction fuel as [|fuel IH]; intros out s Hs Hfuel Hdec; [lia|].
  cbn [decode_loop]. unfold bind at 1, get. destruct (running s) as [|k rest] eqn:Er.
  { exists out, s. split_and!; done. }
  rewrite (proj2 (Z.ltb_lt _ _)).
  2: { pose proof (si_cap _ _ _ _ Hs) as Hcap. rewrite Er, !length_app in Hcap.
       simpl in Hcap. lia. }
  cbn [negb]. mstep.
  pose proof (sinv_take out s k rest Hs Er) as Hs1.
  destruct (make_room_ok (S (S (length rest))) k out (set_running rest s) Hs1)
    as (b & s2 & E2 & Hs2 & Hcan & Hp2 & _ & Hl2 & Hc2 & Hsq2 & _).
  { simpl. unfold mid_weight. case_match; lia. }
  rewrite (bind_ok _ _ _ _ _ E2). simpl in Hl2, Hsq2, Hfuel.
  assert (members (out ++ [k]) (set_running rest s) ≡ₚ members out s) as Hp1
    by (unfold members; simpl; rewrite Er; solve_Permutation).
  pose proof (decode_rows_keep out s s2 Hdec Hsq2) as Hdec2.
  destruct b.
  - destruct (decode_turn out s2 k Hs2 (Hcan eq_refl))
      as (s3 & E3 & Hs3 & Hd3 & Hw3 & Hr3 & Hc3 & Hsq3).
    assert (∀ x, x ∈ out ++ [k] → decode_row s3 x) as Hdec3.
    { intros x [Hx|Hx%list_elem_of_singleton]%elem_of_app; [|by subst].
      destruct (decide (x = k)) as [->|Hne]; [done|].
      unfold decode_row. rewrite Hsq3 by done. by apply Hdec2. }
    destruct (IH (out ++ [k]) s3 Hs3) as (out' & s' & E & Hs' & Hp & Hc & Hr & Hd & Hsub);
      [rewrite Hr3; lia|exact Hdec3|].
    exists out', s'. split_and!; try done; [|by rewrite Hp; unfold members; rewrite Hw3, Hr3; rewrite <-Hp1, <-Hp2|by rewrite Hc, Hc3, Hc2|set_solver].
    apply bind_ok_inv in E3 as (? & sa & Ea & E3). rewrite (bind_ok _ _ _ _ _ Ea).
    apply bind_ok_inv in E3 as (? & sb & Eb & E3). rewrite (bind_ok _ _ _ _ _ Eb).
    by rewrite (bind_ok _ _ _ _ _ E3).
  - destruct (IH out s2 Hs2) as (out' & s' & E & Hs' & Hp & Hc & Hr & Hd & Hsub);
      [lia|done|].
    exists out', s'. split_and!; try done; [by rewrite Hp, Hp2|by rewrite Hc, Hc2].
Qed.

(** [running.extendleft(reversed(decodes))]. *)
Lemma sinv_put_back out s :
  sinv out out s → sinv [] out (set_running (out ++ running s) s).
Proof.
  intros [Hi Hb Hp Hnd Hcap Hm Hw Hr Ho]. split; simpl; try done.
  - rewrite app_nil_r.
    assert (waiting s ++ out ++ running s ≡ₚ waiting s ++ running s ++ out) as ->
      by solve_Permutation. done.
  - revert Hcap. rewrite !length_app. simpl. lia.
  - intros x Hx. apply Hr. set_solver.
  - intros x qx Hqx Hn. apply (Ho x qx Hqx). set_solver.
Qed.
End schedule.
