(* ===== verification/PrefillSpec.v ===== *)
(** * PrefillSpec: the chunked-prefill loop and the whole step

    The second half of [Scheduler.schedule]: admitting the waiting head, giving
    it the blocks of its next chunk, promoting it when its prompt is complete or
    leaving it as the one partial prefill; then [schedule] itself. *)
From S2P Require Import Prelude SamplingParams Sequence Heap BlockManager Reservation SpecMemory.
From S2P Require Import SpecRoutes SpecPlan Scheduler CacheInv KVContract SchedInv ScheduleSpec.

(** Tokens scheduled for the sequences [l]. *)
Definition scheduled_tokens (s : scheduler) (l : list nat) : Z :=
  foldr (λ k n, default 0 (num_scheduled_tokens <$> seqs s !! k) + n) 0 l.

Lemma scheduled_tokens_app s l1 l2 :
  scheduled_tokens s (l1 ++ l2) = scheduled_tokens s l1 + scheduled_tokens s l2.
Proof. unfold scheduled_tokens. induction l1 as [|x l1 IH]; simpl; [done|]. rewrite IH. lia. Qed.

Lemma scheduled_tokens_ext s s' l :
  (∀ x, x ∈ l → seqs s' !! x = seqs s !! x) → scheduled_tokens s' l = scheduled_tokens s l.
Proof.
  induction l as [|x l IH]; intros Hx; [done|]. simpl.
  rewrite Hx by set_solver. rewrite IH; [done|]. intros; apply Hx; set_solver.
Qed.

Section prefill.
Context (compute_hash : list Z → Z → Z) (clock : nat → Z) (I : heap → Prop)
  `{!KVAllocator compute_hash I}.
#[local] Abbreviation sinv := (sinv I).

(** ** Giving the head its next chunk *)

(** The head after its blocks for [n] more tokens were attached. *)
Definition chunked (bs : Z) (w n : Z) (q q1 : sequence) : Prop :=
  queued q1 ∧ cov_exact bs q1 ∧ num_scheduled_tokens q1 = n ∧
  num_cached_tokens q1 + w = num_tokens q1 ∧ num_tokens q1 = num_tokens q ∧
  num_cached_tokens q <= num_cached_tokens q1.

Lemma attach_fresh s k q nc n :
  I (sc_heap s) → bsz s = sc_block_size (sc_config s) → seqs s !! k = Some q →
  queued q → block_table q = [] → num_cached_tokens q = 0 → 0 <= nc → 0 < n →
  nc * bsz s + n <= num_tokens q →
  (∀ n through, nc * bsz s < through <= num_tokens q →
     ∃ h' table,
       allocate_incremental compute_hash k nc through
         (put_seq k (set_num_scheduled_tokens n q) (sc_heap s)) = (Ok true, h') ∧ I h' ∧
       block_size (hp_bm h') = bsz s ∧ Z.of_nat (length table) = ceil_div through (bsz s) ∧
       hp_seqs h' = <[k := set_num_draft_cached_tokens 0
         (set_num_cached_tokens (nc * bsz s)
           (set_block_table table (set_num_scheduled_tokens n q)))]> (seqs s)) →
  ∃ h' q1, (set_seq k (set_num_scheduled_tokens n) ;;;
            prefill_alloc compute_hash k (Some nc)) s = (Ok true, set_heap h' s) ∧
    I h' ∧ block_size (hp_bm h') = bsz s ∧ hp_seqs h' = <[k := q1]> (seqs s) ∧
    chunked (bsz s) (num_tokens q - nc * bsz s) n q q1.
Proof.
  intros Hi Hbs Hk Hst Ht Hc0 Hnc Hn Hle Hadm.
  assert (0 < bsz s) by (by apply (kv_size (I := I))).
  destruct (Hadm n (nc * bsz s + n)) as (h' & table & E & Hi' & Hb & Hlen & Hsq); [lia|].
  eexists h', _. split; [|split_and!; [done|done|exact Hsq|]].
  - rewrite (bind_ok _ _ _ _ _ (set_seq_ok k _ s q Hk)). unfold prefill_alloc.
    erewrite bind_ok; [|by apply seq_at_ok, put_lookup].
    erewrite bind_ok; [|reflexivity].
    change (sc_config (set_heap _ s)) with (sc_config s). rewrite <-Hbs.
    rewrite (bind_ok _ _ _ _ _
      (on_heap_ok _ (set_heap (put_seq k (set_num_scheduled_tokens n q) (sc_heap s)) s) _ _ E)).
    done.
  - split_and!; simpl; try done; [|lia|nia]. split; simpl; nia.
Qed.

Lemma prefill_begin out sch s k rest :
  sinv out sch s → waiting s = k :: rest → k ∉ sch →
  ∃ q work, seqs s !! k = Some q ∧ prefill_work compute_hash k s = (Ok work, s) ∧
    match work with
    | None => mid_chunk_seq s = None ∧
        can_allocate compute_hash k (sc_heap s) = (Ok (-1), sc_heap s)
    | Some (ncb, w) => 0 < w <= num_tokens q - num_cached_tokens q ∧ ∀ n, 0 < n <= w →
        ∃ b s1, (set_seq k (set_num_scheduled_tokens n) ;;;
                 prefill_alloc compute_hash k ncb) s = (Ok b, s1) ∧
        if b : bool then
          ∃ h' q1, s1 = set_heap h' s ∧ I h' ∧ block_size (hp_bm h') = bsz s ∧
            hp_seqs h' = <[k := q1]> (seqs s) ∧ chunked (bsz s) w n q q1
        else s1 = set_heap (put_seq k (set_num_scheduled_tokens n q) (sc_heap s)) s ∧
             mid_chunk_seq s = Some k ∧ num_scheduled_tokens q = 0 ∧
             Z.of_nat (length (free_block_ids (hp_bm (sc_heap s)))) <
               num_blocks (bsz s) q - Z.of_nat (length (block_table q))
    end.
Proof.
  intros Hs Ew Hk. destruct (si_bs _ _ _ _ Hs) as [Hbz Hbs].
  destruct (si_wait _ _ _ _ Hs k) as (q & Hq & Hst & Hcov & Hlt & Hmid & Htag);
    [rewrite Ew; set_solver|].
  rewrite decide_False in Htag by done. exists q.
  unfold prefill_work. destruct (decide (block_table q = [])) as [Ht|Ht].
  - destruct (kv_admit (sc_heap s) k q (si_heap _ _ _ _ Hs) Hq Ht) as (nc & E & Hadm).
    assert (∀ r, (let* c := gets sc_config in
      ret (Some (Some nc, num_tokens q - nc * sc_block_size c))) r =
      (Ok (Some (Some nc, num_tokens q - nc * sc_block_size (sc_config r))), r)) as Er by done.
    exists (if nc =? -1 then None else Some (Some nc, num_tokens q - nc * bsz s)).
    split; [done|].
    rewrite (bind_ok _ _ _ _ _ (seq_at_ok _ _ _ Hq)), bool_decide_eq_true_2 by done.
    rewrite (bind_ok _ _ _ _ _ (on_heap_read _ _ _ E)).
    destruct (nc =? -1) eqn:En.
    { apply Z.eqb_eq in En. subst nc. split; [done|]. split; [|done].
      destruct (mid_chunk_seq s) as [m|] eqn:Em; [|done]. exfalso.
      destruct (si_mid _ _ _ _ Hs m Em) as [Hh (q0 & Hq0 & Ht0)]. rewrite Ew in Hh.
      simpl in Hh. congruence. }
    apply Z.eqb_neq in En.
    rewrite Er, <-Hbz. split; [done|]. cbv beta iota.
    destruct Hadm as [[? _]|[Hnc Hadm]]; [done|].
    pose proof (ceil_div_spec (num_tokens q) (bsz s) ltac:(lia)) as Hc.
    change (ceil_div (num_tokens q) (bsz s)) with (num_blocks (bsz s) q) in Hc.
    destruct (cov_exact_nil (bsz s) q ltac:(lia) Hcov Ht) as [Hc0 _].
    split; [rewrite Hc0; nia|]. intros n Hn.
    destruct (attach_fresh s k q nc n) as (h' & q1 & ? & ? & ? & ? & ?); try done;
      [apply Hs|lia|lia|lia|].
    exists true, (set_heap h' s). split; [done|]. by exists h', q1.
  - destruct Hmid as [Hm|]; [|done].
    eexists. split; [done|].
    rewrite (bind_ok _ _ _ _ _ (seq_at_ok _ _ _ Hq)), bool_decide_eq_false_2 by done.
    split; [reflexivity|]. cbv beta iota. split; [lia|]. intros n Hn.
    set (qn := set_num_scheduled_tokens n q).
    destruct (kv_seq _ _ _ (si_heap _ _ _ _ Hs) Hq) as [_ Hwf].
    assert (I (put_seq k qn (sc_heap s))) as Hi1
      by (apply (inv_put compute_hash I k q); [apply Hs|done|by apply evolves_attr]).
    destruct Hcov as [C1 C2 C3 C4].
    destruct (kv_extend (put_seq k qn (sc_heap s)) k qn (num_cached_tokens q + n) Hi1
      (put_lookup _ _ _) Ht) as (b & h' & E & Hb); [simpl; lia|].
    exists b. destruct b.
    + destruct Hb as (Hi' & Hb & new & Hsq & Hlen). eexists. split.
      * rewrite (bind_ok _ _ _ _ _ (set_seq_ok k _ s q Hq)). unfold prefill_alloc.
        erewrite bind_ok; [|by apply seq_at_ok, put_lookup].
        erewrite bind_ok; [|reflexivity]. erewrite on_heap_ok by exact E. reflexivity.
      * eexists h', _. split; [done|]. split; [done|]. split; [exact Hb|].
        split; [rewrite Hsq; apply insert_insert_eq|].
        split_and!; simpl; try done; [|lia..].
        rewrite Htag, Z.add_0_r in C4.
        pose proof (ceil_div_mono (num_cached_tokens q) (num_cached_tokens q + n) (bsz s)
          ltac:(lia) ltac:(lia)).
        split; simpl; try lia. rewrite length_app, Nat2Z.inj_add, Hlen. simpl. lia.
    + destruct Hb as [-> Hfree]. eexists. split; last first.
      { split_and!; try done. eapply Z.lt_le_trans; [exact Hfree|].
        simpl. unfold num_blocks. apply Z.sub_le_mono_r, ceil_div_mono; lia. }
      rewrite (bind_ok _ _ _ _ _ (set_seq_ok k _ s q Hq)). unfold prefill_alloc.
      erewrite bind_ok; [|by apply seq_at_ok, put_lookup].
      erewrite bind_ok; [|reflexivity]. by erewrite on_heap_ok by exact E.
Qed.

(** ** Promoting the head, or leaving it mid-chunk *)

Lemma mid_is_head out sch s k rest :
  sinv out sch s → waiting s = k :: rest →
  mid_chunk_seq s = None ∨ mid_chunk_seq s = Some k.
Proof.
  intros Hs Ew. destruct (mid_chunk_seq s) as [m|] eqn:Em; [right|by left].
  destruct (si_mid _ _ _ _ Hs m Em) as [Hh _]. rewrite Ew in Hh. simpl in Hh. congruence.
Qed.

Lemma waiting_popleft_ok s k rest :
  waiting s = k :: rest → waiting_popleft s = (Ok k, set_waiting rest s).
Proof. intros E. unfold waiting_popleft, bind, get. by rewrite E. Qed.

(** The members other than the head keep their status. *)
Lemma rest_waits sch s k rest h' q' x :
  sinv [] sch s → waiting s = k :: rest → hp_seqs h' = <[k := q']> (seqs s) → x ∈ rest →
  ∃ q, hp_seqs h' !! x = Some q ∧ ∀ mid, wait_ok (bsz s) mid (sch ++ [k]) x q.
Proof.
  intros Hs Ew Hsq Hx. pose proof (si_nodup _ _ _ _ Hs) as Hnd. rewrite Ew in Hnd.
  apply NoDup_cons in Hnd as [Hk _].
  assert (x ≠ k) as Hne by (intros ->; set_solver).
  destruct (si_wait _ _ _ _ Hs x) as (q & Hq & Hok); [rewrite Ew; set_solver|].
  exists q. rewrite Hsq, lookup_insert_ne by done. split; [done|]. intros mid.
  apply wait_ok_other; [done|]. destruct Hok as (? & ? & ? & Hm & ?).
  split_and!; try done. right. destruct Hm as [Hm|]; [|done].
  destruct (mid_is_head _ _ _ _ _ Hs Ew); congruence.
Qed.

Lemma running_stays sch s k rest h' q' x :
  sinv [] sch s → waiting s = k :: rest → hp_seqs h' = <[k := q']> (seqs s) →
  x ∈ running s → ∃ q, hp_seqs h' !! x = Some q ∧ run_ok (bsz s) (sch ++ [k]) x q.
Proof.
  intros Hs Ew Hsq Hx. pose proof (si_nodup _ _ _ _ Hs) as Hnd. rewrite Ew in Hnd.
  apply NoDup_cons in Hnd as [Hk _].
  assert (x ≠ k) as Hne by (intros ->; set_solver).
  destruct (si_run _ _ _ _ Hs x) as (q & Hq & Hok); [set_solver|].
  exists q. rewrite Hsq, lookup_insert_ne by done. split; [done|]. by apply run_ok_other.
Qed.

Lemma sinv_promoted sch s k rest h' q' t :
  sinv [] sch s → waiting s = k :: rest → I h' → block_size (hp_bm h') = bsz s →
  hp_seqs h' = <[k := q']> (seqs s) → started q' → is_prefill q' = true → cov_exact (bsz s) q' →
  0 < num_scheduled_tokens q' → num_cached_tokens q' + num_scheduled_tokens q' = num_tokens q' →
  sinv [] (sch ++ [k]) (set_ticks t (set_running (running s ++ [k])
    (set_waiting rest (set_heap h' (set_mid None s))))).
Proof.
  intros Hs Ew Hi Hb Hsq Hst Hpf Hcov Hn Heq. pose proof Hs as [_ Hbz Hp Hnd Hcap _ _ _ Ho].
  rewrite Ew in *. split; simpl; rewrite ?Hb; try done.
  - rewrite app_nil_r in *. assert (rest ++ running s ++ [k] ≡ₚ (k :: rest) ++ running s) as ->
      by solve_Permutation. done.
  - revert Hcap. rewrite !app_nil_r, !length_app. simpl. rewrite ?length_app. simpl. lia.
  - intros x Hx. destruct (rest_waits sch s k rest h' q' x) as (q & ? & ?); eauto.
  - intros x. rewrite app_nil_r. intros [Hx|Hx%list_elem_of_singleton]%elem_of_app.
    + by eapply running_stays.
    + subst x. exists q'. rewrite Hsq, lookup_insert_eq. split; [done|].
      split; [done|]. split; [done|]. rewrite decide_True by set_solver. auto.
  - intros x qx. rewrite Hsq. destruct (decide (x = k)) as [->|Hne]; [intros _ Hout; set_solver|].
    rewrite lookup_insert_ne by done. intros Hqx Hout. apply (Ho x qx Hqx). set_solver.
Qed.

Lemma sinv_partial sch s k rest h' q' t :
  sinv [] sch s → waiting s = k :: rest → I h' → block_size (hp_bm h') = bsz s →
  hp_seqs h' = <[k := q']> (seqs s) → queued q' → cov_exact (bsz s) q' →
  0 < num_scheduled_tokens q' → num_cached_tokens q' + num_scheduled_tokens q' < num_tokens q' →
  sinv [] (sch ++ [k]) (set_mid (Some k) (set_ticks t (set_heap h' s))).
Proof.
  intros Hs Ew Hi Hb Hsq Hst Hcov Hn Hlt. pose proof Hs as [_ Hbz Hp Hnd Hcap _ _ _ Ho].
  split; simpl; rewrite ?Hb; try done.
  - intros m [= <-]. rewrite Ew. split; [done|]. exists q'. rewrite Hsq, lookup_insert_eq.
    split; [done|]. apply (cov_exact_table (bsz s)); [lia|done|]. destruct Hcov. lia.
  - intros x. rewrite Ew. intros [->|Hx]%elem_of_cons.
    + exists q'. rewrite Hsq, lookup_insert_eq. split; [done|]. split_and!; try done; [by left|].
      rewrite decide_True by set_solver. done.
    + destruct (rest_waits sch s k rest h' q' x) as (q & ? & ?); eauto.
  - intros x. rewrite app_nil_r. by eapply running_stays.
  - intros x qx. rewrite Hsq. destruct (decide (x = k)) as [->|Hne];
      [intros _ Hout; rewrite Ew in Hout; set_solver|].
    rewrite lookup_insert_ne by done. apply Ho.
Qed.

Lemma set_times_id q : set_times (times q) q = q.
Proof. by destruct q. Qed.

Lemma stamp_run s k q :
  seqs s !! k = Some q →
  ∃ t tm, stamp_first_scheduled clock k s =
    (Ok tt, set_ticks t (set_heap (put_seq k (set_times tm q) (sc_heap s)) s)) ∧
    is_Some (first_scheduled_time tm).
Proof.
  intros Hk. unfold stamp_first_scheduled. rewrite (bind_ok _ _ _ _ _ (seq_at_ok _ _ _ Hk)).
  destruct (first_scheduled_time (times q)) eqn:Et.
  - exists (ticks s), (times q). split; [|by rewrite Et]. rewrite set_times_id. unfold ret. f_equal.
    destruct s as [c h ? ? ? ? ? ? ? ? ?]. simpl in *. f_equal. destruct h. unfold put_seq, set_seqs.
    simpl in *. f_equal. by rewrite insert_id.
  - assert (read_clock clock s = (Ok (clock (ticks s)), set_ticks (S (ticks s)) s)) as Er by done.
    eexists _, (set_first_scheduled_time (Some (clock (ticks s))) (times q)).
    rewrite (bind_ok _ _ _ _ _ Er).
    rewrite (set_seq_ok k _ (set_ticks (S (ticks s)) s) q Hk). by split.
Qed.

Lemma prefill_turn_ok sch s k rest h' q q1 w n :
  sinv [] sch s → waiting s = k :: rest → I h' → block_size (hp_bm h') = bsz s →
  hp_seqs h' = <[k := q1]> (seqs s) → chunked (bsz s) w n q q1 → 0 < n <= w →
  ∃ s2, (promote k ;;; stamp_first_scheduled clock k) (set_heap h' s) = (Ok tt, s2) ∧
    sc_config s2 = sc_config s ∧ (∀ x, x ≠ k → seqs s2 !! x = seqs s !! x) ∧
    (∃ q2, seqs s2 !! k = Some q2 ∧ num_scheduled_tokens q2 = n ∧
       num_cached_tokens q2 = num_cached_tokens q1 ∧ num_tokens q2 = num_tokens q1) ∧
    if n <? w
    then waiting s2 = waiting s ∧ running s2 = running s ∧ mid_chunk_seq s2 = mid_chunk_seq s ∧
         sinv [] (sch ++ [k]) (set_mid (Some k) s2)
    else waiting s2 = rest ∧ running s2 = running s ++ [k] ∧ mid_chunk_seq s2 = None ∧
         sinv [] (sch ++ [k]) s2.
Proof.
  intros Hs Ew Hi Hb Hsq ([Hst Hpf] & Hcov & Hsc & Hw & Hnt & _) Hn.
  assert (hp_seqs h' !! k = Some q1) as Hk by (rewrite Hsq; apply lookup_insert_eq).
  destruct (kv_seq _ _ _ Hi Hk) as [_ Hwf].
  unfold bind, promote. rewrite (bind_ok _ _ _ _ _ (seq_at_ok k (set_heap h' s) q1 Hk)).
  rewrite Hsc. destruct (n <? w) eqn:Enw.
  - apply Z.ltb_lt in Enw. rewrite (proj2 (Z.eqb_neq _ _)) by lia. unfold when, ret at 1.
    destruct (stamp_run (set_heap h' s) k q1 Hk) as (t & tm & Est & _).
    exists (set_ticks t (set_heap (put_seq k (set_times tm q1) h') s)). simpl in Est.
    split; [by rewrite Est|]. split; [done|]. simpl. rewrite Hsq. split_and!; try done.
    + intros x Hx. by rewrite insert_insert_eq, lookup_insert_ne.
    + exists (set_times tm q1). by rewrite lookup_insert_eq.
    + apply (sinv_partial sch s k rest _ (set_times tm q1) t); try done; simpl; try lia.
      * apply (inv_put compute_hash I k q1); try done. by apply evolves_attr.
      * by rewrite Hsq, insert_insert_eq.
      * destruct Hcov. by split.
  - apply Z.ltb_ge in Enw. rewrite (proj2 (Z.eqb_eq _ _)) by lia. unfold when at 1.
    set (sm := set_heap h' (set_mid None s)).
    assert ((let* s0 := get in
       when (bool_decide (mid_chunk_seq s0 = Some k)) (modify (set_mid None)) ;;;
       set_seq k (set_status RUNNING) ;;; waiting_popleft ;;;
       modify (λ s0, set_running (running s0 ++ [k]) s0)) (set_heap h' s) =
      (Ok tt, set_running (running s ++ [k]) (set_waiting rest
         (set_heap (put_seq k (set_status RUNNING q1) h') (set_mid None s))))) as ->.
    { unfold bind at 1, get.
      assert (when (bool_decide (mid_chunk_seq (set_heap h' s) = Some k)) (modify (set_mid None))
        (set_heap h' s) = (Ok tt, sm)) as E1.
      { destruct (mid_is_head _ _ _ _ _ Hs Ew) as [Em|Em]; simpl; rewrite Em;
          [rewrite bool_decide_eq_false_2 by done|by rewrite bool_decide_eq_true_2].
        unfold when, ret, sm. f_equal. destruct s; simpl in *. by subst. }
      rewrite (bind_ok _ _ _ _ _ E1). erewrite bind_ok; [|by apply set_seq_ok].
      erewrite bind_ok; [|by apply (waiting_popleft_ok _ k rest)]. done. }
    set (sp := set_running _ _).
    assert (seqs sp !! k = Some (set_status RUNNING q1)) as Hkp by apply lookup_insert_eq.
    destruct (stamp_run sp k _ Hkp) as (t & tm & Est & Htm). rewrite Est.
    eexists. split; [reflexivity|]. split; [done|]. simpl. rewrite Hsq.
    set (q2 := set_times tm (set_status RUNNING q1)). split_and!; try done.
    + intros x Hx. by rewrite !insert_insert_eq, lookup_insert_ne.
    + exists q2. by rewrite lookup_insert_eq.
    + apply (sinv_promoted sch s k rest (put_seq k q2 (put_seq k (set_status RUNNING q1) h')) q2 t);
        try done; unfold q2; simpl; try lia.
      * rewrite put_put. apply (inv_put compute_hash I k q1); try done. by apply evolves_attr.
      * by rewrite Hsq, !insert_insert_eq.
      * destruct Hcov. by split.
Qed.

(** ** The loop *)

(** Why the loop may schedule nothing. *)
Definition stuck (s : scheduler) : Prop :=
  waiting s = [] ∨ max_num_seqs (sc_config s) <= 0 ∨ max_num_batched_tokens (sc_config s) <= 0 ∨
  ∃ k rest, waiting s = k :: rest ∧ mid_chunk_seq s = None ∧
    can_allocate compute_hash k (sc_heap s) = (Ok (-1), sc_heap s).

(** What the loop promises from state [s] and batch [sch]. *)
Definition prefill_post (sch : list nat) (nb : Z) (s : scheduler) (sch' : list nat)
    (s' : scheduler) : Prop :=
  sinv [] sch' s' ∧ NoDup sch' ∧ sch' ⊆ waiting s' ++ running s' ∧
  waiting s' ++ running s' ≡ₚ waiting s ++ running s ∧ sc_config s' = sc_config s ∧
  (∃ l, sch' = sch ++ l) ∧
  Z.of_nat (length sch') <= Z.max (Z.of_nat (length sch)) (max_num_seqs (sc_config s)) ∧
  scheduled_tokens s' sch' <= Z.max nb (max_num_batched_tokens (sc_config s)) ∧
  (∀ x, x ∈ sch → seqs s' !! x = seqs s !! x) ∧
  (sch' = sch → running s' = running s) ∧ (sch' = [] → stuck s').

Lemma prefill_stop sch nb s :
  sinv [] sch s → NoDup sch → sch ⊆ running s → nb = scheduled_tokens s sch →
  (sch = [] → stuck s) → prefill_post sch nb s sch s.
Proof.
  intros Hs Hnd Hsub -> Hst. split_and!; try done; try lia; [set_solver|].
  exists []. by rewrite app_nil_r.
Qed.

(** A failed extension: the head is preempted, the queues keep their members. *)
Lemma prefill_requeue sch s k rest q n :
  sinv [] sch s → waiting s = k :: rest → k ∉ sch → seqs s !! k = Some q →
  mid_chunk_seq s = Some k → num_scheduled_tokens q = 0 →
  ∃ s', (set_seq k (set_num_scheduled_tokens 0) ;;;
         (let* w := waiting_popleft in preempt w))
          (set_heap (put_seq k (set_num_scheduled_tokens n q) (sc_heap s)) s) = (Ok tt, s') ∧
    sinv [] sch s' ∧ waiting s' = rest ++ [k] ∧ running s' = running s ∧
    mid_chunk_seq s' = None ∧ sc_config s' = sc_config s ∧
    ∀ x, x ≠ k → seqs s' !! x = seqs s !! x.
Proof.
  intros Hs Ew Hk Hq Hm H0. erewrite bind_ok; [|by apply set_seq_ok, put_lookup].
  change (set_num_scheduled_tokens 0 (set_num_scheduled_tokens n q)) with
    (set_num_scheduled_tokens 0 q).
  replace (set_num_scheduled_tokens 0 q) with q by (destruct q; simpl in *; by subst).
  assert (set_heap (put_seq k q (sc_heap (set_heap (put_seq k (set_num_scheduled_tokens n q)
    (sc_heap s)) s))) (set_heap (put_seq k (set_num_scheduled_tokens n q) (sc_heap s)) s) = s) as ->.
  { destruct s as [c h ? ? ? ? ? ? ? ? ?]. unfold set_heap. simpl in *. f_equal.
    rewrite put_put. destruct h. unfold put_seq, set_seqs. simpl in *. f_equal. by rewrite insert_id. }
  erewrite bind_ok; [|by apply (waiting_popleft_ok s k rest)].
  destruct (preempt_sinv compute_hash I [] sch s rest (running s) [] k Hs)
    as (s' & E & Hres); rewrite ?Ew; [done|set_solver|set_solver|done|by right|].
  by exists s'.
Qed.

Lemma prefill_loop_ok fuel sch nb s :
  sinv [] sch s → NoDup sch → sch ⊆ running s → nb = scheduled_tokens s sch →
  (length (waiting s) + mid_weight s < fuel)%nat →
  ∃ sch' s', prefill_loop compute_hash clock fuel sch nb s = (Ok sch', s') ∧
    prefill_post sch nb s sch' s'.
Proof.
  revert sch nb s. induction fuel as [|fuel IH]; intros sch nb s Hs Hnd Hsub Hnb Hfuel; [lia|].
  pose proof (prefill_stop sch nb s Hs Hnd Hsub Hnb) as Hstop.
  cbn [prefill_loop]. unfold bind at 1, get.
  destruct (waiting s) as [|k rest] eqn:Ew;
    [exists sch, s; split; [done|]; apply Hstop; intros _; by left|].
  destruct (Z.of_nat (length sch) <? max_num_seqs (sc_config s)) eqn:Emax; last first.
  { exists sch, s. split; [done|]. apply Hstop. intros ->. right; left.
    by apply Z.ltb_ge in Emax. }
  apply Z.ltb_lt in Emax. cbn [negb].
  set (remaining := max_num_batched_tokens (sc_config s) - nb).
  destruct (remaining <=? 0) eqn:Erem.
  { exists sch, s. split; [done|]. apply Hstop. intros ->. do 2 right; left.
    apply Z.leb_le in Erem. unfold remaining in Erem. simpl in Hnb. lia. }
  apply Z.leb_gt in Erem.
  pose proof (si_nodup _ _ _ _ Hs) as Hq. rewrite Ew, app_nil_r in Hq.
  apply NoDup_cons in Hq as [Hk Hq].
  assert (k ∉ sch) as Hksch by set_solver.
  destruct (prefill_begin [] sch s k rest Hs Ew Hksch)
    as (q & work & Hkq & Ework & Hwork).
  rewrite (bind_ok _ _ _ _ _ Ework).
  destruct work as [[ncb w]|]; last first.
  { exists sch, s. split; [done|]. apply Hstop. intros _. do 3 right. exists k, rest.
    by destruct Hwork. }
  destruct Hwork as [Hw Hn].
  set (n := Z.min w remaining). destruct (Hn n) as (b & s1 & E1 & Hb); [unfold n; lia|].
  apply bind_ok_inv in E1 as ([] & sa & Ea & Eb).
  rewrite (bind_ok _ _ _ _ _ Ea), (bind_ok _ _ _ _ _ Eb). destruct b; cbn [negb].
  - destruct Hb as (h' & q1 & -> & Hi & Hbs & Hsq & Hch).
    destruct (prefill_turn_ok sch s k rest h' q q1 w n Hs Ew Hi Hbs Hsq Hch)
      as (s2 & E2 & Hc2 & Hsq2 & (q2 & Hk2 & Hn2 & _) & Hcase); [unfold n; lia|].
    apply bind_ok_inv in E2 as ([] & sc & Ec & Ed).
    rewrite (bind_ok _ _ _ _ _ Ec), (bind_ok _ _ _ _ _ Ed).
    assert (scheduled_tokens s2 (sch ++ [k]) = nb + n) as Htot.
    { rewrite scheduled_tokens_app. simpl. rewrite Hk2. simpl. rewrite Hn2.
      rewrite (scheduled_tokens_ext s s2), Hnb; [lia|].
      intros x Hx. apply Hsq2. intros ->. done. }
    assert (NoDup (sch ++ [k])) as Hnd2.
    { apply NoDup_app. split_and!; [done| |apply NoDup_singleton].
      intros x Hx ->%list_elem_of_singleton. done. }
    assert (∀ x, x ∈ sch → seqs s2 !! x = seqs s !! x) as Hsame
      by (intros x Hx; apply Hsq2; intros ->; done).
    destruct (n <? w) eqn:Enw.
    + destruct Hcase as (Hw2 & Hr2 & Hm2 & Hs2). unfold bind at 1.
      assert (match mid_chunk_seq s2 with None => false | Some m => negb (m =? k)%nat end = false)
        as ->.
      { rewrite Hm2. destruct (mid_is_head _ _ _ _ _ Hs Ew) as [->| ->]; [done|].
        by rewrite Nat.eqb_refl. }
      exists (sch ++ [k]), (set_mid (Some k) s2). split; [done|].
      split_and!; simpl; try done.
      * rewrite Hw2, Hr2, Ew. set_solver.
      * by rewrite Hw2, Hr2, Ew.
      * by eexists.
      * rewrite length_app. simpl. lia.
      * change (scheduled_tokens (set_mid (Some k) s2) (sch ++ [k]))
          with (scheduled_tokens s2 (sch ++ [k])). unfold n, remaining in Htot. lia.
      * by destruct sch.
    + destruct Hcase as (Hw2 & Hr2 & Hm2 & Hs2).
      destruct (IH (sch ++ [k]) (nb + n) s2 Hs2 Hnd2) as (sch' & s' & E & Hpost).
      * rewrite Hr2. set_solver.
      * done.
      * unfold mid_weight. rewrite Hm2, Hw2. simpl in Hfuel. lia.
      * exists sch', s'. split; [exact E|].
        destruct Hpost as (P1 & P2 & P3 & P4 & P5 & [l ->] & P7 & P8 & P9 & _ & _).
        split_and!; try done.
        -- rewrite P4, Hw2, Hr2, Ew. solve_Permutation.
        -- congruence.
        -- exists (k :: l). by rewrite <-(assoc_L (++)).
        -- rewrite Hc2 in P7. revert P7. rewrite !length_app. simpl. lia.
        -- rewrite Hc2 in P8. unfold n, remaining in *. lia.
        -- intros x Hx. rewrite P9 by set_solver. by apply Hsame.
        -- intros E'%(f_equal length). rewrite !length_app in E'. simpl in E'. lia.
        -- by destruct sch.
  - destruct Hb as (-> & Hm & H0 & _).
    destruct (prefill_requeue sch s k rest q n Hs Ew Hksch Hkq Hm H0)
      as (s' & E & Hs' & Hw' & Hr' & Hm' & Hc' & Hsq').
    assert (∀ x, x ∈ sch → seqs s' !! x = seqs s !! x) as Hsame
      by (intros x Hx; apply Hsq'; intros ->; done).
    assert (waiting s' ++ running s' ≡ₚ waiting s ++ running s) as Hperm
      by (rewrite Hw', Hr', Ew; solve_Permutation).
    assert (nb = scheduled_tokens s' sch) as Hnb' by (by rewrite (scheduled_tokens_ext s)).
    assert (sch ⊆ running s') as Hsub' by by rewrite Hr'.
    pose proof (prefill_stop sch nb s' Hs' Hnd Hsub' Hnb') as Hstop'.
    apply bind_ok_inv in E as ([] & sc & Ec & Ed).
    rewrite (bind_ok _ _ _ _ _ Ec), (bind_ok _ _ _ _ _ Ed).
    assert (∀ sch' s2, prefill_post sch nb s' sch' s2 → prefill_post sch nb s sch' s2) as Hconv.
    { intros sch' s2 (P1 & P2 & P3 & P4 & P5 & P6 & P7 & P8 & P9 & P10 & P11).
      split_and!; try done; [by rewrite P4|congruence|by rewrite <-Hc'|by rewrite <-Hc'| |].
      - intros x Hx. rewrite P9 by done. by apply Hsame.
      - intros E0. rewrite <-Hr'. by apply P10. }
    case_bool_decide as Esch.
    + destruct (IH sch nb s' Hs' Hnd Hsub' Hnb') as (sch' & s2 & E & Hpost).
      { unfold mid_weight in *. rewrite Hm', Hw', length_app. rewrite Hm in Hfuel.
        simpl in *. lia. }
      exists sch', s2. split; [exact E|by apply Hconv].
    + exists sch, s'. split; [done|]. by apply Hconv, Hstop'.
Qed.

(** ** The step *)

Lemma decode_tokens s l :
  (∀ x, x ∈ l → decode_row s x) → scheduled_tokens s l = Z.of_nat (length l).
Proof.
  induction l as [|x l IH]; intros Hd; [done|]. simpl.
  destruct (Hd x ltac:(set_solver)) as (q & -> & E & _). simpl. rewrite E, IH; [lia|].
  intros; apply Hd; set_solver.
Qed.

(** A batch: decodes first, then the prefills; without any of these it is
    the whole running queue. *)
Definition batch_ok (s' : scheduler) (l : list nat) (has_prefill : bool) : Prop :=
  ∃ decodes prefills, l = decodes ++ prefills ∧ has_prefill = negb (bool_decide (prefills = [])) ∧
    Forall (decode_row s') decodes ∧ (prefills = [] → running s' = l).

Definition no_work : exn := RuntimeError "cannot schedule: no pending requests".
Definition no_room : exn :=
  RuntimeError "scheduler could not schedule pending work with the available KV-cache blocks".

Lemma schedule_run s :
  sinv [] [] s →
  match schedule compute_hash clock s with
  | (Ok (l, has_prefill), s') =>
      sinv [] l s' ∧ NoDup l ∧ l ≠ [] ∧ l ⊆ waiting s' ++ running s' ∧
      waiting s' ++ running s' ≡ₚ waiting s ++ running s ∧ sc_config s' = sc_config s ∧
      Z.of_nat (length l) <= max_num_seqs (sc_config s) ∧
      scheduled_tokens s' l <=
        Z.max (max_num_seqs (sc_config s)) (max_num_batched_tokens (sc_config s)) ∧
      batch_ok s' l has_prefill
  | (Raise e, s') =>
      sinv [] [] s' ∧ waiting s' ++ running s' ≡ₚ waiting s ++ running s ∧
      sc_config s' = sc_config s ∧
      if decide (waiting s ++ running s = []) then e = no_work
      else e = no_room ∧ running s' = [] ∧ stuck s'
  end.
Proof.
  intros Hs. destruct (si_plans _ _ _ _ Hs) as (E1 & E2 & E3).
  unfold schedule. unfold bind at 1, get. rewrite E1, E2, E3. do 3 mstep.
  rewrite (bind_ok _ _ _ _ _ (check_mid_ok compute_hash I _ _ _ Hs)).
  destruct (decode_loop_ok compute_hash I (S (length (running s))) [] s Hs)
    as (dec & s1 & Ed & Hs1 & Hp1 & Hc1 & Hr1 & Hd1 & _); [lia|set_solver|].
  rewrite (bind_ok _ _ _ _ _ Ed). mstep. unfold bind at 1, get.
  pose proof (sinv_put_back compute_hash I dec s1 Hs1) as Hs2.
  set (s2 := set_running (dec ++ running s1) s1) in *.
  assert (NoDup dec) as Hnd.
  { pose proof (si_nodup _ _ _ _ Hs1) as Hnd. rewrite !(assoc_L (++)) in Hnd.
    by apply NoDup_app in Hnd as (_ & _ & ?). }
  assert (waiting s2 ++ running s2 ≡ₚ waiting s ++ running s) as Hp2.
  { unfold members in Hp1. rewrite app_nil_r in Hp1. rewrite <-Hp1. simpl. solve_Permutation. }
  assert (Z.of_nat (length dec) <= max_num_seqs (sc_config s)) as Hlen.
  { pose proof (si_cap _ _ _ _ Hs1) as Hcap. rewrite !length_app, Hc1 in Hcap. lia. }
  destruct (prefill_loop_ok (S (2 * length (waiting s2))) dec (Z.of_nat (length dec)) s2 Hs2 Hnd)
    as (l & s3 & Ep & P1 & P2 & P3 & P4 & P5 & [pre ->] & P7 & P8 & P9 & P10 & P11).
  { simpl. set_solver. }
  { symmetry. by apply decode_tokens. }
  { unfold mid_weight. destruct (mid_chunk_seq s2) as [m|] eqn:Em; [|lia].
    destruct (si_mid _ _ _ _ Hs2 m Em) as [Hh _]. destruct (waiting s2); [done|simpl; lia]. }
  rewrite (bind_ok _ _ _ _ _ Ep). unfold bind at 1, get.
  change (sc_config s2) with (sc_config s1) in *. rewrite Hc1 in *.
  assert (waiting s3 ++ running s3 ≡ₚ waiting s ++ running s) as Hp3 by by rewrite P4.
  destruct (decide (dec ++ pre = [])) as [Enil|Enil].
  - rewrite (bool_decide_eq_true_2 (dec ++ pre = [])) by done. rewrite Enil in P1.
    destruct (decide (waiting s ++ running s = [])) as [Eq|Eq].
    + rewrite Eq in Hp3. apply Permutation_nil_r in Hp3 as Eq3.
      apply app_nil in Eq3 as [-> ->]. simpl. split_and!; try done. by rewrite Eq.
    + assert (bool_decide (waiting s3 = []) && bool_decide (running s3 = []) = false) as Eb.
      { rewrite andb_false_iff, !bool_decide_eq_false.
        destruct (decide (waiting s3 = [])) as [Ew|]; [|by left].
        destruct (decide (running s3 = [])) as [Er|]; [|by right]. exfalso. apply Eq.
        rewrite Ew, Er in Hp3. by apply Permutation_nil_l in Hp3. }
      apply app_nil in Enil as [-> ->]. pose proof (P10 eq_refl) as Hr3. pose proof (P11 eq_refl) as Hst.
      rewrite <-andb_assoc. simpl. rewrite Eb. simpl.
      split_and!; try done. rewrite Hr3. simpl. by rewrite Hr1.
  - rewrite (bool_decide_eq_false_2 (dec ++ pre = [])) by done. simpl. do 2 mstep.
    rewrite (bind_ok _ _ _ _ _ (check_mid_ok compute_hash I _ _ _ P1)). unfold ret.
    split_and!; try done; [lia|lia|]. exists dec, pre. split; [done|]. split.
    + rewrite length_app. destruct pre; simpl.
      * rewrite Nat.add_0_r. apply Nat.ltb_irrefl.
      * apply Nat.ltb_lt. lia.
    + split.
      * apply Forall_forall. intros x Hx. destruct (Hd1 x Hx) as (q & Hq & ?).
        exists q. split; [|done]. rewrite P9 by done. exact Hq.
      * intros ->. rewrite app_nil_r in *. rewrite (P10 eq_refl). simpl. by rewrite Hr1, app_nil_r.
Qed.
End prefill.
