(* ===== verification/StepSpec.v ===== *)
(** * StepSpec: committing a step, admission and cancellation

    The other operations of the scheduler's life cycle against the invariant
    [sinv] of SchedInv: [add], [postprocess] of the batch [schedule] chose, and
    [cancel]. *)
From S2P Require Import Prelude SamplingParams Sequence Heap BlockManager Reservation SpecMemory.
From S2P Require Import SpecRoutes SpecPlan Scheduler CacheInv KVContract SchedInv ScheduleSpec.
From S2P Require Import Frame PrefillSpec.

Section step.
Context (compute_hash : list Z → Z → Z) (clock : nat → Z) (I : heap → Prop)
  `{!KVAllocator compute_hash I}.
#[local] Abbreviation sinv := (sinv I).

(** ** Writing and dropping members *)

Lemma sinv_ticks out sch s t : sinv out sch s → sinv out sch (set_ticks t s).
Proof. intros []. by split. Qed.

Lemma run_ok_ext bs (sch sch' : list nat) x q :
  (x ∈ sch ↔ x ∈ sch') → run_ok bs sch x q → run_ok bs sch' x q.
Proof.
  intros Hx (? & ? & ?). split_and!; try done.
  destruct (decide (x ∈ sch)); [rewrite decide_True by tauto|rewrite decide_False by tauto]; done.
Qed.

Lemma wait_ok_ext bs mid (sch sch' : list nat) x q :
  (x ∈ sch ↔ x ∈ sch') → wait_ok bs mid sch x q → wait_ok bs mid sch' x q.
Proof.
  intros Hx (? & ? & ? & ? & ?). split_and!; try done.
  destruct (decide (x ∈ sch)); [rewrite decide_True by tauto|rewrite decide_False by tauto]; done.
Qed.

Lemma sinv_write sch sch' s k q' h' :
  sinv [] sch s → I h' → block_size (hp_bm h') = bsz s → hp_seqs h' = <[k := q']> (seqs s) →
  (∀ x, x ≠ k → (x ∈ sch ↔ x ∈ sch')) → k ∈ waiting s ++ running s →
  (k ∈ waiting s → wait_ok (bsz s) (mid_chunk_seq s) sch' k q') →
  (k ∈ running s → run_ok (bsz s) sch' k q') →
  (mid_chunk_seq s = Some k → block_table q' ≠ []) → sinv [] sch' (set_heap h' s).
Proof.
  intros [Hi Hb Hp Hnd Hcap Hm Hw Hr Ho] Hi' Hb' Hsq Hsch Hin Hkw Hkr Hkm.
  split; simpl; rewrite ?Hb'; try done.
  - intros m Em. destruct (Hm m Em) as [Hh (q & Hq & Ht)]. split; [done|]. rewrite Hsq.
    destruct (decide (m = k)) as [->|]; [rewrite lookup_insert_eq; eauto|].
    rewrite lookup_insert_ne by done. eauto.
  - intros x Hx. rewrite Hsq. destruct (decide (x = k)) as [->|].
    + rewrite lookup_insert_eq. eauto.
    + rewrite lookup_insert_ne by done. destruct (Hw x Hx) as (q & Hq & Hok).
      exists q. split; [done|]. eapply wait_ok_ext; [by apply Hsch|done].
  - intros x Hx. rewrite Hsq. rewrite app_nil_r in Hx. destruct (decide (x = k)) as [->|].
    + rewrite lookup_insert_eq. eauto.
    + rewrite lookup_insert_ne by done. destruct (Hr x) as (q & Hq & Hok); [by rewrite app_nil_r|].
      exists q. split; [done|]. eapply run_ok_ext; [by apply Hsch|done].
  - intros x qx. rewrite Hsq. destruct (decide (x = k)) as [->|Hne];
      [intros _ Hn; by rewrite app_nil_r in Hn|].
    rewrite lookup_insert_ne by done. apply Ho.
Qed.

Lemma sinv_drop_running sch sch' s k q' h' R :
  sinv [] sch s → running s ≡ₚ k :: R → I h' → block_size (hp_bm h') = bsz s →
  hp_seqs h' = <[k := q']> (seqs s) → (∀ x, x ≠ k → (x ∈ sch ↔ x ∈ sch')) →
  block_table q' = [] → sinv [] sch' (set_running R (set_heap h' s)).
Proof.
  intros [Hi Hb Hp Hnd Hcap Hm Hw Hr Ho] HR Hi' Hb' Hsq Hsch Htq.
  rewrite app_nil_r, HR in Hnd. rewrite app_nil_r, HR, length_app in Hcap. simpl in Hcap.
  assert ((k ∉ waiting s) ∧ (k ∉ R) ∧ NoDup (waiting s ++ R)) as (Hkw & HkR & Hnd').
  { rewrite <-Permutation_middle in Hnd. apply NoDup_cons in Hnd as [Hn ?]. set_solver. }
  split; simpl; rewrite ?Hb'; try done.
  - by rewrite app_nil_r.
  - rewrite app_nil_r, length_app. lia.
  - intros m Em. destruct (Hm m Em) as [Hh (q & Hq & Ht)]. split; [done|].
    exists q. rewrite Hsq, lookup_insert_ne; [done|]. intros <-. apply Hkw.
    destruct (waiting s); simplify_eq/=. set_solver.
  - intros x Hx. assert (x ≠ k) by (intros ->; done). rewrite Hsq, lookup_insert_ne by done.
    destruct (Hw x Hx) as (q & Hq & Hok). exists q. split; [done|].
    eapply wait_ok_ext; [by apply Hsch|done].
  - intros x. rewrite app_nil_r. intros Hx. assert (x ≠ k) by (intros ->; done).
    rewrite Hsq, lookup_insert_ne by done. destruct (Hr x) as (q & Hq & Hok).
    { rewrite app_nil_r, HR. set_solver. }
    exists q. split; [done|]. eapply run_ok_ext; [by apply Hsch|done].
  - intros x qx. rewrite Hsq. destruct (decide (x = k)) as [->|Hne];
      [rewrite lookup_insert_eq; by intros [= <-]|].
    rewrite lookup_insert_ne by done. intros Hqx Hout. apply (Ho x qx Hqx). rewrite HR. set_solver.
Qed.

(** ** One row of the commit *)

(** The event a row emits, from the sequence before the commit. *)
Definition row_event (c : sched_config) (q : sequence) (t : Z) : option StreamOutput :=
  if num_cached_tokens q + num_scheduled_tokens q <? num_tokens q then None
  else Some (mk_StreamOutput (seq_id q) t (stops c t (append_token t q))).

(** What the commit makes of a sequence that stays in its queue. *)
Definition committed (now t : Z) (q : sequence) : sequence :=
  let q := set_num_scheduled_tokens 0
             (set_num_cached_tokens (num_cached_tokens q + num_scheduled_tokens q) q) in
  if num_cached_tokens q <? num_tokens q then q else commit_token now t q.

Lemma cov_step_covered bs q : 0 < bs → cov_exact bs q → step_covered bs q.
Proof.
  intros Hbs [H1 H2 H3 H4]. split_and!; try done. rewrite H4.
  pose proof (ceil_div_spec (num_cached_tokens q + num_scheduled_tokens q) bs Hbs). lia.
Qed.

(** The first three statements of a turn. *)
Lemma commit_cover s k q :
  I (sc_heap s) → seqs s !! k = Some q → step_covered (bsz s) q →
  let q1 := set_num_scheduled_tokens 0
              (set_num_cached_tokens (num_cached_tokens q + num_scheduled_tokens q) q) in
  ∃ h', (on_heap (hash_blocks compute_hash k) ;;;
         set_seq k (λ q, set_num_cached_tokens (num_cached_tokens q + num_scheduled_tokens q) q) ;;;
         set_seq k (set_num_scheduled_tokens 0)) s = (Ok tt, set_heap h' s) ∧
    I h' ∧ block_size (hp_bm h') = bsz s ∧ hp_seqs h' = <[k := q1]> (seqs s).
Proof.
  intros Hi Hk Hst q1. destruct (kv_commit (sc_heap s) k q Hi Hk Hst) as (h1 & E1 & Hb & Hsq & Hi1).
  assert (hp_seqs h1 !! k = Some q) as Hk1 by by rewrite Hsq.
  exists (put_seq k q1 h1). split; [|split_and!].
  - rewrite (bind_ok _ _ _ _ _ (on_heap_ok _ _ _ _ E1)).
    rewrite (bind_ok _ _ _ _ _ (set_seq_ok k _ (set_heap h1 s) _ Hk1)).
    erewrite set_seq_ok by apply put_lookup. simpl. by rewrite put_put.
  - destruct (kv_seq _ _ _ Hi1 (put_lookup _ _ _)) as [_ Hwf].
    rewrite <-(put_put k q1 (set_num_cached_tokens (num_cached_tokens q + num_scheduled_tokens q) q) h1).
    apply (inv_put compute_hash I k _ q1 _ Hi1 (put_lookup _ _ _)). by apply evolves_attr.
  - exact Hb.
  - simpl. by rewrite Hsq.
Qed.

Lemma commit_token_evolves now t q : seq_wf q → evolves q (commit_token now t q).
Proof.
  intros Hwf. split; try done; [by exists [t]|].
  destruct (append_token_wf t q Hwf) as [? ? ?]. unfold commit_token. by split.
Qed.

Lemma commit_token_started now t q : started q → started (commit_token now t q).
Proof. intros [? ?]. split; [done|]. simpl. by destruct (first_token_time (times q)). Qed.

(** The stamp of the end. *)
Definition finish_stamp (now : Z) (q : sequence) : sequence :=
  set_times (set_finish_time (Some now) (times q)) q.

(** A finished row: everything the turn does after the stop condition. *)
Definition finish_row (now : Z) (k : nat) : MS unit :=
  set_seq k (λ q, set_times (set_finish_time (Some now) (times q)) q) ;;;
  set_seq k (set_status FINISHED) ;;;
  on_heap (deallocate k) ;;;
  set_seq k (set_num_draft_cached_tokens 0) ;;;
  running_remove k.

Lemma finish_row_ok now s k q R :
  I (sc_heap s) → seqs s !! k = Some q → remove_first k (running s) = Some R →
  ∃ h' q', finish_row now k s = (Ok tt, set_running R (set_heap h' s)) ∧ I h' ∧
    block_size (hp_bm h') = bsz s ∧ hp_seqs h' = <[k := q']> (seqs s) ∧
    same_request (finish_stamp now q) q' ∧ status q' = FINISHED ∧ block_table q' = [].
Proof.
  intros Hi Hk HR. destruct (kv_seq _ _ _ Hi Hk) as [_ Hwf]. unfold finish_row.
  rewrite (bind_ok _ _ _ _ _ (set_seq_ok k _ s q Hk)).
  erewrite bind_ok; [|by apply set_seq_ok, put_lookup].
  set (qf := set_status FINISHED _).
  assert (set_heap (put_seq k qf (sc_heap (set_heap (put_seq k (set_times
    (set_finish_time (Some now) (times q)) q) (sc_heap s)) s))) (set_heap (put_seq k (set_times
    (set_finish_time (Some now) (times q)) q) (sc_heap s)) s) = set_heap (put_seq k qf (sc_heap s)) s)
    as -> by (simpl; by rewrite put_put).
  assert (I (put_seq k qf (sc_heap s))) as Hif
    by (apply (inv_put compute_hash I k q); try done; by apply evolves_attr).
  destruct (kv_free _ k qf Hif (put_lookup _ _ _)) as (h2 & Ef & Hi2 & Hb2 & Hsq2).
  rewrite (bind_ok _ _ _ _ _ (on_heap_ok _ (set_heap (put_seq k qf (sc_heap s)) s) _ _ Ef)).
  set (qd := set_block_table [] (set_num_draft_cached_tokens 0 (set_num_cached_tokens 0 qf))) in *.
  assert (hp_seqs h2 = <[k := qd]> (seqs s)) as Hsq by (rewrite Hsq2; apply insert_insert_eq).
  assert (hp_seqs h2 !! k = Some qd) as Hk2 by (rewrite Hsq; apply lookup_insert_eq).
  rewrite (bind_ok _ _ _ _ _ (set_seq_ok k _ (set_heap h2 _) qd Hk2)).
  exists (put_seq k (set_num_draft_cached_tokens 0 qd) h2), (set_num_draft_cached_tokens 0 qd).
  split_and!; try done.
  - unfold running_remove, bind, get. simpl. by rewrite HR.
  - apply (inv_put compute_hash I k qd); try done. apply evolves_attr; try done.
    by destruct (kv_seq _ _ _ Hi2 Hk2).
  - simpl. by rewrite Hsq, insert_insert_eq.
Qed.

Definition is_final (ev : option StreamOutput) : bool :=
  match ev with Some e => so_finished e | None => false end.

(** The request after its row was committed: its tokens and stamps, and its
    coverage when it stays queued. *)
Record row_committed (now : Z) (c : sched_config) (q : sequence) (t : Z) (q' : sequence) : Prop := {
  rc_request : same_request
    (if num_cached_tokens q + num_scheduled_tokens q <? num_tokens q then q
     else if is_final (row_event c q t) then finish_stamp now (commit_token now t q)
     else commit_token now t q) q';
  rc_finish : is_final (row_event c q t) = true → status q' = FINISHED;
  rc_cached : is_final (row_event c q t) = false →
    num_cached_tokens q' = num_cached_tokens q + num_scheduled_tokens q;
}.

(** What the invariant knows of a row of the batch. *)
Lemma batch_row_state s k q rest :
  sinv [] (k :: rest) s → k ∈ waiting s ++ running s → seqs s !! k = Some q →
  cov_exact (bsz s) q ∧
  (k ∈ waiting s → wait_ok (bsz s) (mid_chunk_seq s) (k :: rest) k q) ∧
  (k ∈ running s → run_ok (bsz s) (k :: rest) k q).
Proof.
  intros Hs Hin Hk.
  assert (∀ q0, seqs s !! k = Some q0 → q0 = q) as Heq by (intros ? ?; congruence).
  assert (∀ P : Prop, k ∈ waiting s → k ∈ running s → P) as Hboth.
  { intros P Hw Hr. exfalso. pose proof (si_nodup _ _ _ _ Hs) as Hnd.
    apply NoDup_app in Hnd as (_ & Hd & _). apply (Hd k); set_solver. }
  apply elem_of_app in Hin as [Hin|Hin].
  - destruct (si_wait _ _ _ _ Hs k Hin) as (q0 & Hq0 & Hok). rewrite (Heq _ Hq0) in Hok.
    split_and!; [by destruct Hok as (_ & ? & _)|done|intros; by apply Hboth].
  - destruct (si_run _ _ _ _ Hs k) as (q0 & Hq0 & Hok); [set_solver|]. rewrite (Heq _ Hq0) in Hok.
    split_and!; [by destruct Hok as (_ & ? & _)|intros; by apply Hboth|done].
Qed.

Lemma commit_row_ok now s k t q rest :
  sinv [] (k :: rest) s → k ∉ rest → k ∈ waiting s ++ running s → seqs s !! k = Some q →
  ∃ s', commit_row compute_hash now (k, t) s = (Ok (row_event (sc_config s) q t), s') ∧
    sinv [] rest s' ∧ sc_config s' = sc_config s ∧ waiting s' = waiting s ∧
    (∀ x, x ≠ k → seqs s' !! x = seqs s !! x) ∧
    (∃ q', seqs s' !! k = Some q' ∧ row_committed now (sc_config s) q t q') ∧
    if is_final (row_event (sc_config s) q t)
    then running s ≡ₚ k :: running s' ∧
         ∃ q', seqs s' !! k = Some q' ∧ status q' = FINISHED ∧ block_table q' = []
    else running s' = running s.
Proof.
  intros Hs Hn Hin Hk. destruct (si_bs _ _ _ _ Hs) as [_ Hbs].
  pose proof (si_heap _ _ _ _ Hs) as Hi. destruct (kv_seq _ _ _ Hi Hk) as [_ Hwf].
  assert (∀ x, x ≠ k → (x ∈ k :: rest ↔ x ∈ rest)) as Hsch by set_solver.
  destruct (batch_row_state s k q rest Hs Hin Hk) as (Hcov & Hwait & Hrun).
  pose proof (cov_step_covered (bsz s) q ltac:(lia) Hcov) as Hstep.
  destruct (commit_cover s k q Hi Hk Hstep) as (h1 & E1 & Hi1 & Hb1 & Hsq1).
  set (q1 := set_num_scheduled_tokens 0
    (set_num_cached_tokens (num_cached_tokens q + num_scheduled_tokens q) q)) in *.
  assert (hp_seqs h1 !! k = Some q1) as Hk1 by (rewrite Hsq1; apply lookup_insert_eq).
  assert (cov_exact (bsz s) q1) as Hcov1.
  { destruct Hcov. split; simpl; rewrite ?Z.add_0_r; try done; lia. }
  apply bind_ok_inv in E1 as ([] & sa & Ea & E1). apply bind_ok_inv in E1 as ([] & sb & Eb & Ec).
  unfold commit_row. rewrite (bind_ok _ _ _ _ _ Ea), (bind_ok _ _ _ _ _ Eb), (bind_ok _ _ _ _ _ Ec).
  rewrite (bind_ok _ _ _ _ _ (seq_at_ok k (set_heap h1 s) q1 Hk1)).
  unfold row_event. change (num_cached_tokens q1) with
    (num_cached_tokens q + num_scheduled_tokens q). change (num_tokens q1) with (num_tokens q).
  destruct (_ <? num_tokens q) eqn:Elt.
  - (* partial prefill: no token *)
    apply Z.ltb_lt in Elt.
    exists (set_heap h1 s). split; [done|]. split; [|split_and!; try done].
    + apply (sinv_write (k :: rest) rest s k q1 h1); try done.
      * intros Hw. destruct (Hwait Hw) as (? & _ & _ & Hm & Htag).
        rewrite decide_True in Htag by set_solver.
        split_and!; try done; simpl; [lia|by rewrite decide_False].
      * intros Hr. destruct (Hrun Hr) as (_ & _ & Htag).
        rewrite decide_True in Htag by set_solver. lia.
      * intros Hm. destruct (si_mid _ _ _ _ Hs k Hm) as [_ (q0 & Hq0 & Ht)].
        assert (q0 = q) as -> by congruence. done.
    + intros x Hx. simpl. by rewrite Hsq1, lookup_insert_ne.
    + exists q1. split; [done|].
      split; unfold row_event; rewrite (proj2 (Z.ltb_lt _ _)) by done; first [discriminate|done|by split].
  - (* complete: one token is appended *)
    apply Z.ltb_ge in Elt. rewrite (bind_ok _ _ _ _ _ (set_seq_ok k _ (set_heap h1 s) q1 Hk1)).
    set (q2 := commit_token now t q1).
    rewrite (bind_ok _ _ _ _ _ (seq_at_ok k (set_heap (put_seq k q2 h1) s) q2 (put_lookup _ _ _))).
    assert (I (put_seq k q2 h1)) as Hi2.
    { apply (inv_put compute_hash I k q1); try done. apply commit_token_evolves.
      by destruct (kv_seq _ _ _ Hi1 Hk1). }
    assert (k ∈ running s) as Hr.
    { apply elem_of_app in Hin as [Hw|]; [|done]. destruct (Hwait Hw) as (_ & _ & ? & _). lia. }
    destruct (Hrun Hr) as (Hst & _ & Htag). rewrite decide_True in Htag by set_solver.
    assert (hp_seqs (put_seq k q2 h1) = <[k := q2]> (seqs s)) as Hsq2
      by (simpl; by rewrite Hsq1, insert_insert_eq).
    change (stops (sc_config s) t q2) with (stops (sc_config s) t (append_token t q)).
    erewrite bind_ok; [|reflexivity]. simpl is_final.
    destruct (stops (sc_config s) t (append_token t q)) eqn:Estop; simpl.
    + destruct (remove_first_elem k (running s) Hr) as [R HR].
      destruct (finish_row_ok now (set_heap (put_seq k q2 h1) s) k q2 R Hi2 (put_lookup _ _ _) HR)
        as (h3 & q3 & Ef & Hi3 & Hb3 & Hsq3 & Hsr3 & Hst3 & Ht3).
      exists (set_running R (set_heap h3 s)). split_and!; try done.
      * change (set_heap (put_seq k (commit_token now t q1) (sc_heap (set_heap h1 s))) (set_heap h1 s))
          with (set_heap (put_seq k q2 h1) s).
        change (sc_config (set_heap (put_seq k q2 h1) s)) with (sc_config s).
        change (stops (sc_config s) t q2) with (stops (sc_config s) t (append_token t q)).
        rewrite Estop. by rewrite (bind_ok _ _ _ _ _ Ef).
      * apply (sinv_drop_running (k :: rest) rest s k q3 h3 R); try done.
        -- by apply remove_first_Permutation.
        -- simpl in Hb3. congruence.
        -- rewrite Hsq3. simpl. rewrite Hsq1, !insert_insert_eq. done.
      * intros x Hx. simpl. rewrite Hsq3. simpl. rewrite Hsq1.
        by rewrite !lookup_insert_ne.
      * exists q3. simpl. rewrite Hsq3, lookup_insert_eq. split; [done|].
        split; unfold row_event; rewrite (proj2 (Z.ltb_ge _ _)) by done; simpl; rewrite ?Estop; try done.
        destruct Hsr3. by split.
      * by apply remove_first_Permutation.
      * exists q3. simpl. rewrite Hsq3, lookup_insert_eq. done.
    + exists (set_heap (put_seq k q2 h1) s). split_and!; try done.
      * change (sc_config (set_heap (put_seq k q2 h1) s)) with (sc_config s).
        change (stops (sc_config s) t q2) with (stops (sc_config s) t (append_token t q)).
        rewrite Estop. done.
      * apply (sinv_write (k :: rest) rest s k q2 (put_seq k q2 h1)); try done.
        -- intros Hw. destruct (Hwait Hw) as (_ & _ & ? & _). lia.
        -- intros _. split; [by apply commit_token_started|]. split; [|rewrite decide_False by done; simpl; lia].
           destruct Hcov1 as [C1 C2 C3 C4]. split; simpl in *; try lia.
        -- intros Hm. destruct (si_mid _ _ _ _ Hs k Hm) as [Hh _]. exfalso.
           assert (k ∈ waiting s) as Hw by (destruct (waiting s); simplify_eq/=; set_solver).
           destruct (Hwait Hw) as (_ & _ & ? & _). lia.
      * intros x Hx. simpl. by rewrite Hsq1, insert_insert_eq, lookup_insert_ne.
      * exists q2. simpl. rewrite lookup_insert_eq. split; [done|].
        split; unfold row_event; rewrite (proj2 (Z.ltb_ge _ _)) by done; simpl; rewrite ?Estop; first [discriminate|done|by split].
Qed.

(** ** The whole commit *)

Definition row_event_at (s : scheduler) (kt : nat * Z) : option StreamOutput :=
  match seqs s !! kt.1 with
  | Some q => row_event (sc_config s) q kt.2
  | None => None
  end.

(** The sequences a batch finishes. *)
Definition finished_of (s : scheduler) (kts : list (nat * Z)) : list nat :=
  (filter (λ kt, is_final (row_event_at s kt) = true) kts).*1.

Lemma commit_rows_ok now kts s :
  sinv [] kts.*1 s → NoDup kts.*1 → kts.*1 ⊆ waiting s ++ running s →
  ∃ s', map_all (commit_row compute_hash now) kts s = (Ok (row_event_at s <$> kts), s') ∧
    sinv [] [] s' ∧ sc_config s' = sc_config s ∧ waiting s' = waiting s ∧
    running s ≡ₚ finished_of s kts ++ running s' ∧
    (∀ x, x ∉ kts.*1 → seqs s' !! x = seqs s !! x) ∧
    (∀ k t q, (k, t) ∈ kts → seqs s !! k = Some q →
       ∃ q', seqs s' !! k = Some q' ∧ row_committed now (sc_config s) q t q') ∧
    ∀ k, k ∈ finished_of s kts →
      ∃ q', seqs s' !! k = Some q' ∧ status q' = FINISHED ∧ block_table q' = [].
Proof.
  revert s. induction kts as [|[k t] kts IH]; intros s Hs Hnd Hsub.
  { exists s. split_and!; try done; set_solver. }
  cbn in Hs, Hnd, Hsub. apply NoDup_cons in Hnd as [Hk Hnd].
  assert (k ∈ waiting s ++ running s) as Hin by (apply Hsub; set_solver).
  assert (∃ q, seqs s !! k = Some q) as [q Hq].
  { apply elem_of_app in Hin as [Hin|Hin].
    - destruct (si_wait _ _ _ _ Hs k Hin) as (q & ? & _). by exists q.
    - destruct (si_run _ _ _ _ Hs k) as (q & ? & _); [set_solver|]. by exists q. }
  destruct (commit_row_ok now s k t q kts.*1 Hs Hk Hin Hq)
    as (s1 & E1 & Hs1 & Hc1 & Hw1 & Hsq1 & Hq1 & Hfin).
  set (ev := row_event (sc_config s) q t) in *.
  assert (row_event_at s (k, t) = ev) as Hev by (unfold row_event_at; simpl; by rewrite Hq).
  assert (kts.*1 ⊆ waiting s1 ++ running s1) as Hsub1.
  { intros x Hx. assert (x ≠ k) by (intros ->; done).
    assert (x ∈ waiting s ++ running s) as Hx' by (apply Hsub; set_solver).
    rewrite Hw1. destruct (is_final ev); [|by rewrite Hfin].
    destruct Hfin as [HR _]. rewrite HR in Hx'. set_solver. }
  destruct (IH s1 Hs1 Hnd Hsub1) as (s' & E & Hs' & Hc & Hw & Hr & Hsq & Hrows & Hf).
  assert (∀ kt, kt ∈ kts → row_event_at s1 kt = row_event_at s kt) as Hsame.
  { intros kt Hkt. unfold row_event_at. rewrite Hsq1, Hc1; [done|]. intros E0. apply Hk.
    rewrite <-E0. apply list_elem_of_fmap. eauto. }
  assert (row_event_at s1 <$> kts = row_event_at s <$> kts) as Hevs.
  { apply list_fmap_ext. intros i kt Hi. apply Hsame. by eapply list_elem_of_lookup_2. }
  assert (finished_of s1 kts = finished_of s kts) as Hfins.
  { unfold finished_of. f_equal. clear -Hsame. induction kts as [|kt kts IH]; [done|].
    rewrite !filter_cons, Hsame by set_solver. rewrite IH; [done|]. intros; apply Hsame; set_solver. }
  assert (finished_of s ((k, t) :: kts) =
    (if is_final ev then [k] else []) ++ finished_of s kts) as Hcons.
  { unfold finished_of. rewrite filter_cons, Hev. by destruct (is_final ev). }
  exists s'. split_and!; try done.
  - cbn [map_all]. rewrite (bind_ok _ _ _ _ _ E1), (bind_ok _ _ _ _ _ E). unfold ret.
    by rewrite fmap_cons, Hev, Hevs.
  - congruence.
  - congruence.
  - rewrite Hcons, <-(assoc_L (++)), <-Hfins, <-Hr. destruct (is_final ev); [tauto|by rewrite Hfin].
  - intros x Hx. cbn in Hx. rewrite Hsq by set_solver. apply Hsq1. set_solver.
  - intros x tx qx [[= -> ->]|Hx]%elem_of_cons Hqx.
    + assert (qx = q) as -> by congruence. rewrite Hsq by done. exact Hq1.
    + assert (x ≠ k) as Hne by (intros ->; apply Hk; apply list_elem_of_fmap; by exists (k, tx)).
      rewrite <-Hc1. apply (Hrows x tx qx Hx). by rewrite Hsq1.
  - intros x. rewrite Hcons. intros [Hx|Hx]%elem_of_app; [|apply Hf; by rewrite Hfins].
    destruct (is_final ev); [|set_solver]. apply list_elem_of_singleton in Hx as ->.
    destruct Hfin as [_ (q' & Hq' & ?)]. exists q'. rewrite Hsq by done. done.
Qed.

(** The arguments [postprocess] accepts. *)
Definition tokens_ok (c : sched_config) (batch : list nat) (toks : list Z) : Prop :=
  length toks = length batch ∧ Forall (λ t, invalid_target_token c t = false) toks.

Lemma check_postprocess_run s batch toks :
  no_plans s →
  (tokens_ok (sc_config s) batch toks ∧ check_postprocess batch toks s = (Ok tt, s)) ∨
  (¬ tokens_ok (sc_config s) batch toks ∧
   ∃ e, check_postprocess batch toks s = (Raise (ValueError e), s)).
Proof.
  intros (E1 & E2 & E3). unfold tokens_ok.
  assert (check_postprocess batch toks s =
    if negb (length toks =? length batch)%nat
    then (Raise (ValueError "target token count does not match the scheduled batch"), s)
    else if existsb (invalid_target_token (sc_config s)) toks
    then (Raise (ValueError "target token IDs must be in the vocabulary"), s)
    else (Ok tt, s)) as ->.
  { unfold check_postprocess. unfold bind at 1, get. rewrite E1, E2, E3. do 2 mstep.
    destruct (negb _); [done|]. mstep. by destruct (existsb _ _). }
  destruct (length toks =? length batch)%nat eqn:El; cbn [negb]; last first.
  { right. apply Nat.eqb_neq in El. split; [tauto|by eexists]. }
  apply Nat.eqb_eq in El.
  destruct (existsb (invalid_target_token (sc_config s)) toks) eqn:Ex.
  - right. split; [|by eexists]. intros [_ HF]. apply existsb_exists in Ex as (t & Ht & Et).
    rewrite Forall_forall in HF. rewrite <-list_elem_of_In in Ht. rewrite HF in Et by done. done.
  - left. split; [|done]. split; [done|]. apply Forall_forall. intros t Ht.
    destruct (invalid_target_token (sc_config s) t) eqn:Et; [|done].
    rewrite <-Ex. symmetry. apply existsb_exists. exists t.
    split; [by apply list_elem_of_In|done].
Qed.

Lemma postprocess_run s batch toks :
  sinv [] batch s → NoDup batch → batch ⊆ waiting s ++ running s →
  if decide (tokens_ok (sc_config s) batch toks) then
    ∃ s', postprocess compute_hash clock batch toks s =
        (Ok (omap (row_event_at s) (zip batch toks)), s') ∧
      sinv [] [] s' ∧ sc_config s' = sc_config s ∧ waiting s' = waiting s ∧
      running s ≡ₚ finished_of s (zip batch toks) ++ running s' ∧
      (∀ x, x ∉ batch → seqs s' !! x = seqs s !! x) ∧
      (∀ k t q, (k, t) ∈ zip batch toks → seqs s !! k = Some q →
         ∃ q', seqs s' !! k = Some q' ∧
           row_committed (clock (ticks s)) (sc_config s) q t q') ∧
      ∀ k, k ∈ finished_of s (zip batch toks) →
        ∃ q', seqs s' !! k = Some q' ∧ status q' = FINISHED ∧ block_table q' = []
  else ∃ e, postprocess compute_hash clock batch toks s = (Raise (ValueError e), s).
Proof.
  intros Hs Hnd Hsub. pose proof (si_plans _ _ _ _ Hs) as Hp.
  destruct (check_postprocess_run s batch toks Hp) as [[Hok E]|[Hok [e E]]];
    [rewrite decide_True by done|rewrite decide_False by done]; last first.
  { exists e. unfold postprocess. by rewrite (bind_raise _ _ _ _ _ E). }
  destruct Hp as (E1 & E2 & E3). destruct Hok as [Hlen _].
  assert ((zip batch toks).*1 = batch) as Hz by (apply fst_zip; lia).
  set (s1 := set_ticks (S (ticks s)) s).
  destruct (commit_rows_ok (clock (ticks s)) (zip batch toks) s1)
    as (s' & Em & Hs' & Hc & Hw & Hr & Hsq & Hrows & Hf); rewrite ?Hz; try done.
  { by apply sinv_ticks. }
  exists s'. split_and!; try done; [|by rewrite <-Hz].
  unfold postprocess. rewrite (bind_ok _ _ _ _ _ E).
  unfold bind at 1, get.
  assert (read_clock clock s = (Ok (clock (ticks s)), s1)) as Er by done.
  rewrite (bind_ok _ _ _ _ _ Er), (bind_ok _ _ _ _ _ Em). rewrite E3, E1. do 2 mstep.
  unfold ret. do 2 f_equal. change (row_event_at s1) with (row_event_at s).
  clear. induction (zip batch toks) as [|kt l IH]; [done|]. cbn.
  destruct (row_event_at s kt); simpl; by rewrite IH.
Qed.
End step.
