(* ===== verification/Progress.v ===== *)
(** * Progress: every step of an admissible load advances

    A load is admissible when the pool can hold each queued request to its end
    and each has tokens left to produce ([LLMEngine._admit_request] checks the
    first, the stop condition of [postprocess] keeps the second).  Then
    [schedule] always answers a batch, and the batch either completes a row,
    which commits a token, or is one more chunk of the partial prefill at the
    waiting head.  The pair (tokens left, rest of the chunk) decreases
    lexicographically at every step: the engine loop terminates. *)
From S2P Require Import Prelude SamplingParams Sequence Heap BlockManager Reservation SpecMemory.
From S2P Require Import SpecRoutes SpecPlan Scheduler CacheInv KVContract SchedInv Frame.
From S2P Require Import ScheduleSpec PrefillSpec StepSpec.

Abbreviation pool s := (Z.of_nat (length (blocks (hp_bm (sc_heap s))))).

(** ** Admissible requests *)

Record request_ok (bs pool : Z) (q : sequence) : Prop := {
  rq_left : num_completion_tokens q < sp_max_tokens (params q);
  rq_fits : ceil_div (num_prompt_tokens q + sp_max_tokens (params q) - 1) bs <= pool;
}.

Definition admissible (s : scheduler) : Prop :=
  ∀ k q, k ∈ waiting s ++ running s → seqs s !! k = Some q → request_ok (bsz s) (pool s) q.

(** The pool holds every token of [k]. *)
Definition fits (s : scheduler) (k : nat) : Prop :=
  ∃ q, seqs s !! k = Some q ∧ num_blocks (bsz s) q <= pool s.

Lemma request_fits bs p q : 0 < bs → request_ok bs p q → num_blocks bs q <= p.
Proof.
  intros Hbs [Hl Hf]. etransitivity; [|exact Hf]. unfold num_completion_tokens in Hl.
  apply (ceil_div_mono _ _ _ Hbs). lia.
Qed.

Lemma same_request_ok bs p q q' : same_request q q' → request_ok bs p q → request_ok bs p q'.
Proof.
  intros [_ _ _ En Ep Epar _ _ _] [Hl Hf]. unfold num_completion_tokens in *.
  split; unfold num_completion_tokens; by rewrite ?En, Ep, Epar.
Qed.

Lemma frame_seq s s' k q : sched_frame s s' → seqs s !! k = Some q →
  ∃ q', seqs s' !! k = Some q' ∧ same_request q q'.
Proof.
  intros [_ [_ _ _ Hf] _] Hk. specialize (Hf k). rewrite Hk in Hf. inversion Hf; subst. eauto.
Qed.

Lemma frame_seq_rev s s' k q' : sched_frame s s' → seqs s' !! k = Some q' →
  ∃ q, seqs s !! k = Some q ∧ same_request q q'.
Proof.
  intros [_ [_ _ _ Hf] _] Hk. specialize (Hf k). rewrite Hk in Hf. inversion Hf; subst. eauto.
Qed.

Lemma fits_frame s s' k : sched_frame s s' → fits s k → fits s' k.
Proof.
  intros Hf (q & Hq & Hfit). destruct (frame_seq s s' k q Hf Hq) as (q' & Hq' & Hr).
  exists q'. split; [done|]. destruct Hf as [_ [-> -> _ _] _]. unfold num_blocks in *.
  by rewrite (sr_num _ _ Hr).
Qed.

Lemma admissible_frame s s' :
  sched_frame s s' → waiting s' ++ running s' ≡ₚ waiting s ++ running s →
  admissible s → admissible s'.
Proof.
  intros Hf Hp Ha k q' Hk Hq'. destruct (frame_seq_rev s s' k q' Hf Hq') as (q & Hq & Hr).
  destruct Hf as [_ [-> -> _ _] _]. rewrite Hp in Hk. eapply same_request_ok; [done|by apply (Ha k)].
Qed.

(** ** The measure *)

(** Tokens a request may still produce, summed over the queues. *)
Definition tokens_left (s : scheduler) (k : nat) : nat :=
  match seqs s !! k with
  | Some q => Z.to_nat (sp_max_tokens (params q) - num_completion_tokens q)
  | None => 0
  end.

Definition work_left (s : scheduler) : nat :=
  sum_list_with (tokens_left s) (waiting s ++ running s).

(** Prompt positions the partial prefill has still to compute. *)
Definition chunk_left (s : scheduler) : nat :=
  match mid_chunk_seq s, head (waiting s) with
  | Some m, _ => match seqs s !! m with
                 | Some q => Z.to_nat (num_tokens q - num_cached_tokens q) | None => 0 end
  | None, Some k => match seqs s !! k with
                    | Some q => S (Z.to_nat (num_tokens q)) | None => 0 end
  | None, None => 0
  end.

Definition smaller (s' s : scheduler) : Prop :=
  (work_left s' < work_left s)%nat ∨
  (work_left s' = work_left s ∧ chunk_left s' < chunk_left s)%nat.

(** [smaller] is a pull-back of the lexicographic order. *)
Lemma smaller_wf : well_founded smaller.
Proof.
  assert (∀ n m s, work_left s = n → chunk_left s = m → Acc smaller s) as H.
  { intros n. induction (lt_wf n) as [n _ IHn]. intros m. induction (lt_wf m) as [m _ IHm].
    intros s <- <-. constructor. intros s' [Hlt|[E Hlt]].
    - by eapply IHn.
    - by eapply IHm. }
  intros s. by eapply H.
Qed.

Lemma sum_list_with_le (f g : nat → nat) l :
  (∀ x, x ∈ l → (f x <= g x)%nat) → (sum_list_with f l <= sum_list_with g l)%nat.
Proof.
  induction l as [|x l IH]; intros Hl; simpl; [done|].
  pose proof (Hl x ltac:(set_solver)). specialize (IH ltac:(intros; apply Hl; set_solver)). lia.
Qed.

Lemma sum_list_with_lt (f g : nat → nat) l x :
  (∀ x, x ∈ l → (f x <= g x)%nat) → x ∈ l → (f x < g x)%nat →
  (sum_list_with f l < sum_list_with g l)%nat.
Proof.
  intros Hl [l1 [l2 ->]]%list_elem_of_split Hx. rewrite !sum_list_with_app. simpl.
  pose proof (sum_list_with_le f g l1 ltac:(intros; apply Hl; set_solver)).
  pose proof (sum_list_with_le f g l2 ltac:(intros; apply Hl; set_solver)). lia.
Qed.

Lemma sum_list_with_ext (f g : nat → nat) l :
  (∀ x, x ∈ l → f x = g x) → sum_list_with f l = sum_list_with g l.
Proof.
  intros Hl. apply Nat.le_antisymm; apply sum_list_with_le; intros x Hx; by rewrite Hl.
Qed.

Lemma same_request_left s s' k q q' :
  seqs s !! k = Some q → seqs s' !! k = Some q' → same_request q q' →
  tokens_left s' k = tokens_left s k.
Proof.
  intros Hq Hq' [_ _ _ En Ep Epar _ _ _]. unfold tokens_left, num_completion_tokens.
  by rewrite Hq, Hq', En, Ep, Epar.
Qed.

Lemma frame_work s s' :
  sched_frame s s' → waiting s' ++ running s' ≡ₚ waiting s ++ running s →
  work_left s' = work_left s.
Proof.
  intros Hf Hp. unfold work_left. rewrite Hp. apply sum_list_with_ext. intros k _.
  destruct (seqs s !! k) as [q|] eqn:Hq.
  - destruct (frame_seq s s' k q Hf Hq) as (q' & Hq' & Hr). by eapply same_request_left.
  - destruct (seqs s' !! k) as [q'|] eqn:Hq'.
    + destruct (frame_seq_rev s s' k q' Hf Hq') as (? & ? & _). congruence.
    + unfold tokens_left. by rewrite Hq, Hq'.
Qed.

(** ** Room for the first row *)

Section progress.
Context (compute_hash : list Z → Z → Z) (clock : nat → Z) (I : heap → Prop)
  `{!KVAllocator compute_hash I}.
#[local] Abbreviation sinv := (sinv I).

Lemma can_append_false h k q :
  hp_seqs h !! k = Some q → can_append k h = (Ok false, h) →
  num_tokens q `mod` block_size (hp_bm h) = 1 ∧ length (free_block_ids (hp_bm h)) = 0%nat.
Proof.
  intros Hk. unfold can_append. unfold bind at 1, get_seq at 1, inspect. rewrite Hk.
  unfold bind, get_bm, gets, ret. intros [= E]. apply Z.leb_gt in E.
  destruct (_ =? 1) eqn:Em; [apply Z.eqb_eq in Em; split; lia|exfalso; lia].
Qed.

(** A member holds all the blocks in use when nobody else can own any. *)
Lemma sole_member out sch s k q :
  sinv out sch s → seqs s !! k = Some q →
  (∀ x, x ∈ running s ++ out → x = k) → (∀ m, mid_chunk_seq s = Some m → m = k) →
  pool s <= Z.of_nat (length (free_block_ids (hp_bm (sc_heap s)))) +
            Z.of_nat (length (block_table q)).
Proof.
  intros Hs Hk Hrun Hmid.
  pose proof (kv_sole (sc_heap s) k q (si_heap _ _ _ _ Hs) Hk) as Hle.
  assert (∀ k' s', seqs s !! k' = Some s' → k' ≠ k → block_table s' = []) as He; [|specialize (Hle He); lia].
  intros x qx Hx Hne. destruct (decide (x ∈ waiting s)) as [Hw|Hw].
  - destruct (si_wait _ _ _ _ Hs x Hw) as (q' & Hq' & _ & _ & _ & Ht & _).
    assert (q' = qx) as -> by congruence. destruct Ht as [Hm|Ht]; [|done].
    by destruct (Hne (Hmid x Hm)).
  - apply (si_owner _ _ _ _ Hs x qx Hx). intros [|Hr]%elem_of_app; [done|].
    apply Hne. by apply Hrun.
Qed.

Lemma cornered_unfit k s s0 : cornered I k [] s s0 → ¬ fits s k.
Proof.
  intros (Hs & Hf & Hr & Hm & Hcan) Hfit.
  destruct (fits_frame s s0 k Hf Hfit) as (q & Hq & Hle).
  destruct (si_run _ _ _ _ Hs k) as (q0 & Hq0 & _ & Hcov & Htag); [set_solver|].
  assert (q0 = q) as -> by congruence. rewrite decide_False in Htag by set_solver.
  destruct Htag as [H0 H1], (si_bs _ _ _ _ Hs) as [_ Hbs].
  destruct (can_append_false _ _ _ Hq Hcan) as [Hmod Hfree].
  pose proof (sole_member ([] ++ [k]) [] s0 k q Hs Hq) as Hsole.
  rewrite Hfree, (ce_table _ _ Hcov), H0, Z.add_0_r in Hsole.
  pose proof (ceil_div_succ (num_cached_tokens q) (bsz s0) Hbs (ce_cached _ _ Hcov)) as Hsucc.
  rewrite H1, Hmod in Hsucc. change (num_blocks (bsz s0) q) with (ceil_div (num_tokens q) (bsz s0)) in Hle.
  assert (pool s0 <= ceil_div (num_cached_tokens q) (bsz s0)); [|simpl in Hsucc; lia].
  apply Hsole; rewrite ?Hr, ?Hm; [set_solver|done].
Qed.

(** ** The decode loop schedules its first row *)

Lemma decode_loop_first s k rest :
  sinv [] [] s → running s = k :: rest → fits s k →
  ∃ dec s', decode_loop (S (length (running s))) [] s = (Ok dec, s') ∧ k ∈ dec.
Proof.
  intros Hs Er Hfit. rewrite Er. cbn [length].
  assert (fits (set_running rest s) k) as Hfit' by done.
  pose proof (sinv_take compute_hash I [] s k rest Hs Er) as Hs1.
  destruct (make_room_ok compute_hash I (S (S (length rest))) k [] (set_running rest s) Hs1)
    as (b & s2 & E2 & Hs2 & Hcan & _ & _ & Hl & _ & _ & Hco).
  { simpl. unfold mid_weight. case_match; lia. }
  destruct b; [|destruct (Hco eq_refl) as [s0 Hs0]; by destruct (cornered_unfit _ _ _ Hs0)].
  destruct (decode_turn compute_hash I [] s2 k Hs2 (Hcan eq_refl))
    as (s3 & E3 & Hs3 & Hd3 & _ & Hr3 & _).
  destruct (decode_loop_ok compute_hash I (S (length rest)) ([] ++ [k]) s3 Hs3)
    as (dec & s' & E & _ & _ & _ & _ & _ & Hsub).
  { rewrite Hr3. simpl in Hl. lia. }
  { by intros x ->%list_elem_of_singleton. }
  exists dec, s'. split; [|set_solver]. cbn [decode_loop]. unfold bind at 1, get. rewrite Er.
  rewrite (proj2 (Z.ltb_lt _ _)).
  2: { pose proof (si_cap _ _ _ _ Hs) as Hcap. rewrite Er, !length_app in Hcap. simpl in *. lia. }
  cbn [negb]. mstep. rewrite (bind_ok _ _ _ _ _ E2).
  apply bind_ok_inv in E3 as (? & sa & Ea & E3). rewrite (bind_ok _ _ _ _ _ Ea).
  apply bind_ok_inv in E3 as (? & sb & Eb & E3). rewrite (bind_ok _ _ _ _ _ Eb).
  by rewrite (bind_ok _ _ _ _ _ E3).
Qed.

(** ** The prefill loop advances the waiting head *)

(** The row computes the last prompt position: it will receive a token. *)
Definition complete_row (s : scheduler) (k : nat) : Prop :=
  ∃ q, seqs s !! k = Some q ∧ num_cached_tokens q + num_scheduled_tokens q = num_tokens q.

(** One more chunk of the head, and nothing else. *)
Definition chunk_step (s : scheduler) (l : list nat) (s' : scheduler) : Prop :=
  ∃ k rest q q', l = [k] ∧ waiting s = k :: rest ∧ seqs s !! k = Some q ∧ running s = [] ∧
    mid_chunk_seq s' = Some k ∧ seqs s' !! k = Some q' ∧
    num_cached_tokens q <= num_cached_tokens q' ∧ 0 < num_scheduled_tokens q' ∧
    num_cached_tokens q' + num_scheduled_tokens q' < num_tokens q'.

Definition advances (s : scheduler) (l : list nat) (s' : scheduler) : Prop :=
  (∃ k, k ∈ l ∧ complete_row s' k) ∨ chunk_step s l s'.

(** The admission of the head is never refused, nor its extension. *)
Lemma never_refused s k rest :
  sinv [] [] s → waiting s = k :: rest → running s = [] → mid_chunk_seq s = None → fits s k →
  can_allocate compute_hash k (sc_heap s) ≠ (Ok (-1), sc_heap s).
Proof.
  intros Hs Ew Er Hm (q & Hq & Hfit) Hcan.
  destruct (si_wait _ _ _ _ Hs k) as (q' & Hq' & _ & _ & _ & Ht & _); [rewrite Ew; set_solver|].
  assert (q' = q) as -> by congruence. destruct Ht as [?|Ht]; [congruence|].
  destruct (kv_admit (compute_hash := compute_hash) (sc_heap s) k q (si_heap _ _ _ _ Hs) Hq Ht)
    as (nc & E2 & Hnc).
  rewrite Hcan in E2. injection E2 as <-. destruct Hnc as [[_ Hlt]|[? _]]; [|lia].
  pose proof (sole_member [] [] s k q Hs Hq) as Hsole. rewrite Er, Hm, Ht in Hsole. simpl in Hsole.
  assert (pool s <= Z.of_nat (length (free_block_ids (hp_bm (sc_heap s)))) + 0); [|lia].
  apply Hsole; [set_solver|congruence].
Qed.

Lemma head_admitted s k rest :
  sinv [] [] s → waiting s = k :: rest → running s = [] → fits s k →
  ∃ q ncb w, seqs s !! k = Some q ∧ prefill_work compute_hash k s = (Ok (Some (ncb, w)), s) ∧
    0 < w <= num_tokens q - num_cached_tokens q ∧
    ∀ n, 0 < n <= w → ∃ h' q1,
      (set_seq k (set_num_scheduled_tokens n) ;;; prefill_alloc compute_hash k ncb) s
        = (Ok true, set_heap h' s) ∧
      I h' ∧ block_size (hp_bm h') = bsz s ∧ hp_seqs h' = <[k := q1]> (seqs s) ∧
      chunked (bsz s) w n q q1.
Proof.
  intros Hs Ew Er (q & Hq & Hfit). destruct (si_bs _ _ _ _ Hs) as [_ Hbs].
  destruct (prefill_begin compute_hash clock I [] [] s k rest Hs Ew) as (q0 & work & Hq0 & Ework & Hw);
    [set_solver|].
  assert (q0 = q) as -> by congruence. destruct work as [[ncb w]|].
  - exists q, ncb, w. split; [done|]. split; [done|]. destruct Hw as [Hw Hn]. split; [done|].
    intros n Hnw. destruct (Hn n Hnw) as (b & s1 & E & Hb). destruct b.
    + destruct Hb as (h' & q1 & -> & ?). eauto.
    + exfalso. destruct Hb as (_ & Hm & _ & Hfree).
      pose proof (sole_member [] [] s k q Hs Hq) as Hsole. rewrite Er, Hm in Hsole.
      assert (pool s <= Z.of_nat (length (free_block_ids (hp_bm (sc_heap s)))) +
        Z.of_nat (length (block_table q))); [|lia].
      apply Hsole; [set_solver|congruence].
  - destruct Hw as [Hm Hcan]. destruct (never_refused s k rest Hs Ew Er Hm (ex_intro _ q (conj Hq Hfit)) Hcan).
Qed.

Lemma prefill_loop_first s k rest :
  sinv [] [] s → waiting s = k :: rest → running s = [] → fits s k →
  0 < max_num_batched_tokens (sc_config s) →
  ∃ l s', prefill_loop compute_hash clock (S (2 * length (waiting s))) [] 0 s = (Ok l, s') ∧
    advances s l s'.
Proof.
  intros Hs Ew Er Hfit Hmax.
  destruct (head_admitted s k rest Hs Ew Er Hfit) as (q & ncb & w & Hq & Ework & Hw & Hn).
  set (n := Z.min w (max_num_batched_tokens (sc_config s) - 0)).
  destruct (Hn n) as (h' & q1 & Ea & Hi & Hb & Hsq & Hch); [unfold n; lia|].
  destruct (prefill_turn_ok compute_hash clock I [] s k rest h' q q1 w n Hs Ew Hi Hb Hsq Hch)
    as (s2 & E2 & Hc2 & Hsq2 & (q2 & Hk2 & Hn2 & Hcq & Htq) & Hcase); [unfold n; lia|].
  destruct Hch as (_ & _ & _ & Hcw & Hnt & Hle).
  assert (0 < max_num_seqs (sc_config s)) as Hcap.
  { pose proof (si_cap _ _ _ _ Hs) as Hcap. rewrite Ew in Hcap. simpl in Hcap. lia. }
  assert (length rest < 2 * length (waiting s))%nat as Hfuel by (rewrite Ew; simpl; lia).
  set (fuel := (2 * length (waiting s))%nat) in *. clearbody fuel. cbn [prefill_loop]. unfold bind at 1, get. rewrite Ew.
  rewrite (proj2 (Z.ltb_lt _ _)) by done. cbn [negb].
  rewrite (proj2 (Z.leb_gt _ _)) by lia. rewrite (bind_ok _ _ _ _ _ Ework). fold n.
  apply bind_ok_inv in Ea as ([] & sa & Ea & Eb).
  rewrite (bind_ok _ _ _ _ _ Ea), (bind_ok _ _ _ _ _ Eb). cbn [negb].
  apply bind_ok_inv in E2 as ([] & sc & Ec & Ed).
  rewrite (bind_ok _ _ _ _ _ Ec), (bind_ok _ _ _ _ _ Ed).
  destruct (n <? w) eqn:Enw.
  - apply Z.ltb_lt in Enw. destruct Hcase as (Hw2 & Hr2 & Hm2 & _). unfold bind at 1.
    assert (match mid_chunk_seq s2 with None => false | Some m => negb (m =? k)%nat end = false)
      as ->.
    { rewrite Hm2. destruct (mid_is_head I _ _ _ _ _ Hs Ew) as [->| ->]; [done|].
      by rewrite Nat.eqb_refl. }
    exists [k], (set_mid (Some k) s2). split; [done|]. right.
    exists k, rest, q, q2. split_and!; try done; lia.
  - apply Z.ltb_ge in Enw. destruct Hcase as (Hw2 & Hr2 & Hm2 & Hs2).
    destruct (prefill_loop_ok compute_hash clock I fuel [k] (0 + n) s2 Hs2) as (l & s' & E & _ & _ & _ & _ & _ & [l' ->] & _ & _ & Hsame & _).
    + apply NoDup_singleton.
    + rewrite Hr2, Er. set_solver.
    + simpl. rewrite Hk2. simpl. lia.
    + unfold mid_weight. rewrite Hm2, Hw2. lia.
    + eexists _, s'. split; [exact E|]. left. exists k. split; [set_solver|].
      exists q2. rewrite Hsame by set_solver. split; [done|]. lia.
Qed.

(** ** The step *)

Lemma admissible_fits s k :
  sinv [] [] s → admissible s → k ∈ waiting s ++ running s → fits s k.
Proof.
  intros Hs Ha Hk. destruct (sinv_member compute_hash I [] [] s k Hs) as (q & Hq & _);
    [by rewrite app_nil_r|set_solver|].
  exists q. split; [done|]. apply request_fits; [|by apply (Ha k)].
  apply (kv_size (compute_hash := compute_hash) (I := I)), Hs.
Qed.

(** Under an admissible load [schedule] never raises. *)
Lemma schedule_answers s :
  sinv [] [] s → admissible s → waiting s ++ running s ≠ [] →
  0 < max_num_batched_tokens (sc_config s) →
  ∃ l hp s', schedule compute_hash clock s = (Ok (l, hp), s').
Proof.
  intros Hs Ha Hne Hmax. pose proof (schedule_run compute_hash clock I s Hs) as Hr.
  pose proof (schedule_frame compute_hash clock s) as Hf.
  destruct (schedule compute_hash clock s) as [[[l hp]|e] s']; [by eauto|exfalso].
  destruct Hr as (Hs' & Hp & Hc & Hr). rewrite decide_False in Hr by done.
  destruct Hr as (_ & Er & Hst). simpl in Hf.
  pose proof (admissible_frame s s' Hf Hp Ha) as Ha'.
  assert (waiting s' ++ running s' ≠ []) as Hne'.
  { intros E. rewrite E in Hp. by apply Permutation_nil_l in Hp. }
  pose proof (si_cap _ _ _ _ Hs') as Hcap. unfold stuck in Hst.
  rewrite Hc in Hcap, Hst.
  destruct Hst as [Hw|[Hm|[Hb|(k & rest & Ew & Hm & Hcan)]]].
  - by rewrite Hw, Er in Hne'.
  - destruct (waiting s'); [by rewrite Er in Hne'|simpl in Hcap; lia].
  - lia.
  - apply (never_refused s' k rest Hs' Ew Er Hm); [|done].
    apply admissible_fits; [done|done|rewrite Ew; set_solver].
Qed.

Lemma decode_rows_complete dec s :
  sinv dec dec s → ∀ k, k ∈ dec → complete_row s k.
Proof.
  intros Hs k Hk. destruct (si_run _ _ _ _ Hs k) as (q & Hq & _ & _ & Htag); [set_solver|].
  rewrite decide_True in Htag by done. exists q. tauto.
Qed.

Lemma check_mid_reads s : (_check_mid_chunk_invariant s).2 = s.
Proof.
  assert (∀ k s, (seq_at k s).2 = s) as Hat.
  { intros k s0. unfold seq_at, on_heap, zoom, get_seq, inspect. simpl. by rewrite set_heap_id. }
  assert (∀ k e (p : sequence → bool), ((let* q := seq_at k in raise_if (p q) e) s).2 = s) as Hr.
  { intros k e p. unfold bind. pose proof (Hat k s) as E. destruct (seq_at k s) as [[q|] s0];
      simpl in E; subst; [by destruct (p q)|done]. }
  unfold _check_mid_chunk_invariant. unfold bind at 1, get. destruct (mid_chunk_seq s) as [m|].
  - unfold bind at 1. destruct (negb _); [done|]. apply Hr.
  - destruct (waiting s); [done|apply Hr].
Qed.

Lemma set_running_id s : set_running (running s) s = s.
Proof. by destruct s. Qed.

(** What the batch of an admissible load achieves. *)
Lemma schedule_advances s l hp s' :
  sinv [] [] s → admissible s → waiting s ++ running s ≠ [] →
  0 < max_num_batched_tokens (sc_config s) →
  schedule compute_hash clock s = (Ok (l, hp), s') → advances s l s'.
Proof.
  intros Hs Ha Hne Hmax E. unfold schedule in E.
  apply bind_ok_inv in E as (? & ? & [= <- <-] & E).
  do 3 (apply bind_ok_inv in E as (? & ? & [_ ->]%raise_if_inv & E)).
  rewrite (bind_ok _ _ _ _ _ (check_mid_ok compute_hash I _ _ _ Hs)) in E.
  apply bind_ok_inv in E as (dec & s1 & Ed & E).
  apply bind_ok_inv in E as (? & s2 & [= <- <-] & E).
  apply bind_ok_inv in E as (? & ? & [= <- <-] & E).
  apply bind_ok_inv in E as (l' & s3 & Ep & E).
  apply bind_ok_inv in E as (? & ? & [= <- <-] & E).
  do 2 (apply bind_ok_inv in E as (? & ? & [_ ->]%raise_if_inv & E)).
  assert (s' = s3 ∧ l = l') as [-> ->].
  { apply bind_ok_inv in E as (? & s4 & Ec & [= <- <- <-]). split; [|done].
    pose proof (check_mid_reads s3) as Hcm. by rewrite Ec in Hcm. }
  destruct (running s) as [|k rest] eqn:Er.
  - cbn [length decode_loop] in Ed. unfold bind, get in Ed. rewrite Er in Ed.
    injection Ed as <- <-. rewrite app_nil_l, set_running_id in Ep.
    destruct (waiting s) as [|k rest] eqn:Ew; [done|]. rewrite <-Ew in Ep.
    destruct (prefill_loop_first s k rest Hs Ew Er) as (l0 & s0 & E0 & Hadv); [|done|].
    { apply admissible_fits; [done|done|rewrite Ew; set_solver]. }
    change (Z.of_nat (length [])) with 0 in Ep. rewrite E0 in Ep. by injection Ep as <- <-.
  - rewrite <-Er in Ed. destruct (decode_loop_first s k rest Hs Er) as (dec0 & s0 & E0 & Hk).
    { apply admissible_fits; [done|done|rewrite Er; set_solver]. }
    rewrite E0 in Ed. injection Ed as <- <-.
    destruct (decode_loop_ok compute_hash I (S (length (running s))) [] s Hs)
      as (dec1 & s1' & E1 & Hs1 & _ & _ & Hr1 & Hd1 & _); [lia|set_solver|].
    rewrite E0 in E1. injection E1 as <- <-.
    pose proof (sinv_put_back compute_hash I dec0 s0 Hs1) as Hs2.
    set (s2 := set_running (dec0 ++ running s0) s0) in *.
    destruct (prefill_loop_ok compute_hash clock I (S (2 * length (waiting s2))) dec0
      (Z.of_nat (length dec0)) s2 Hs2) as (l0 & s4 & E4 & _ & _ & _ & _ & _ & [pre ->] & _ & _ & Hsame & _).
    + pose proof (si_nodup _ _ _ _ Hs1) as Hnd. rewrite !(assoc_L (++)) in Hnd.
      by apply NoDup_app in Hnd as (_ & _ & ?).
    + simpl. set_solver.
    + symmetry. by apply (decode_tokens compute_hash clock I s2).
    + unfold mid_weight. destruct (mid_chunk_seq s2) as [m|] eqn:Em; [|lia].
      destruct (si_mid _ _ _ _ Hs2 m Em) as [Hh _]. destruct (waiting s2); [done|simpl; lia].
    + rewrite E4 in Ep. injection Ep as <- <-. left. exists k. split; [set_solver|].
      destruct (decode_rows_complete dec0 s0 Hs1 k Hk) as (q & Hq & Hc). exists q.
      rewrite Hsame by done. by split.
Qed.

(** ** The commit of the batch *)

(** What [postprocess] leaves of a member that stays queued. *)
Lemma commit_member s l toks s' k q :
  sinv [] l s → NoDup l → l ⊆ waiting s ++ running s → tokens_ok (sc_config s) l toks →
  postprocess compute_hash clock l toks s = (Ok (omap (row_event_at s) (zip l toks)), s') →
  k ∈ waiting s' ++ running s' → seqs s !! k = Some q → request_ok (bsz s) (pool s) q →
  ∃ q', seqs s' !! k = Some q' ∧ request_ok (bsz s') (pool s') q' ∧
    (tokens_left s' k <= tokens_left s k)%nat ∧
    (k ∈ l → complete_row s k → (tokens_left s' k < tokens_left s k)%nat) ∧
    (k ∈ l → num_cached_tokens q + num_scheduled_tokens q < num_tokens q →
       num_tokens q' = num_tokens q ∧ tokens_left s' k = tokens_left s k ∧
       num_cached_tokens q' = num_cached_tokens q + num_scheduled_tokens q).
Proof.
  intros Hs Hnd Hsub Htok E Hk Hq Hok.
  pose proof (postprocess_run compute_hash clock I s l toks Hs Hnd Hsub) as Hr.
  rewrite decide_True in Hr by done. destruct Hr as (s2 & E2 & Hs' & Hc & Hw & Hrun & Hsq & Hrows & Hfin).
  assert (s2 = s') as -> by congruence.
  pose proof (postprocess_frame compute_hash clock l toks s) as Hpf. rewrite E in Hpf. simpl in Hpf.
  destruct (decide (k ∈ l)) as [Hkl|Hkl]; last first.
  { exists q. rewrite Hsq by done. split; [done|]. split; [by destruct Hpf as [_ _ -> -> _ _]|].
    unfold tokens_left. rewrite Hsq by done. split_and!; [done|tauto|tauto]. }
  destruct Htok as [Hlen Hinv]. apply list_elem_of_lookup in Hkl as [i Hi].
  destruct (lookup_lt_is_Some_2 toks i) as [t Ht].
  { rewrite Hlen. by eapply lookup_lt_Some. }
  assert ((k, t) ∈ zip l toks) as Hz.
  { apply list_elem_of_lookup. exists i. by apply lookup_zip_Some. }
  destruct (Hrows k t q Hz Hq) as (q' & Hq' & [Hreq _ Hcached]). exists q'. split; [done|].
  assert (k ∉ finished_of s (zip l toks)) as Hnf.
  { intros Hf. pose proof (si_nodup _ _ _ _ Hs) as Hn. rewrite app_nil_r, Hrun, <-Hw in Hn.
    rewrite (assoc_L (++)), (Permutation_app_comm (waiting s')), <-(assoc_L (++)) in Hn.
    apply NoDup_app in Hn as (_ & Hn & _). by apply (Hn k). }
  assert (is_final (row_event (sc_config s) q t) = false) as Hev.
  { apply not_true_iff_false. intros Hev. apply Hnf. unfold finished_of. apply list_elem_of_fmap.
    exists (k, t). split; [done|]. apply list_elem_of_filter. split; [|done].
    unfold row_event_at. simpl. by rewrite Hq. }
  assert (request_ok (bsz s') (pool s') q') as Hok'.
  { destruct Hpf as [_ _ -> -> _ _]. eapply same_request_ok; [exact Hreq|].
    rewrite Hev. destruct (_ <? _) eqn:Elt; [done|]. unfold row_event in Hev. rewrite Elt in Hev. simpl in Hev.
    unfold stops in Hev. apply orb_false_iff in Hev as [_ Hev]. apply Z.leb_gt in Hev.
    destruct Hok. split; [exact Hev|done]. }
  rewrite Hev in Hreq. destruct (num_cached_tokens q + num_scheduled_tokens q <? num_tokens q) eqn:Elt.
  - assert (tokens_left s' k = tokens_left s k) as El by by eapply same_request_left.
    split; [done|]. apply Z.ltb_lt in Elt. split_and!; [lia| |].
    + intros _ (q0 & Hq0 & Hc0). assert (q0 = q) as -> by congruence. lia.
    + intros _ _. split; [by destruct Hreq|]. split; [done|]. by apply Hcached.
  - assert (tokens_left s' k < tokens_left s k)%nat as El.
    { unfold tokens_left. rewrite Hq, Hq'. destruct Hreq as [_ _ _ En Ep Epar _ _ _].
      unfold num_completion_tokens. rewrite En, Ep, Epar. simpl.
      destruct Hok as [Hl _]. unfold num_completion_tokens in Hl. lia. }
    split; [done|]. apply Z.ltb_ge in Elt. split_and!; [lia|done|lia].
Qed.

(** What the commit of a batch leaves of the load it was scheduled from. *)
Record load_committed (s : scheduler) (fin : list nat) (s' : scheduler) : Prop := {
  lc_members : waiting s ++ running s ≡ₚ fin ++ (waiting s' ++ running s');
  lc_admissible : admissible s';
  lc_le : ∀ x, x ∈ waiting s' ++ running s' → (tokens_left s' x <= tokens_left s x)%nat;
}.

Lemma load_split s fin s' : load_committed s fin s' →
  work_left s = (sum_list_with (tokens_left s) fin +
                 sum_list_with (tokens_left s) (waiting s' ++ running s'))%nat.
Proof. intros [Hp _ _]. unfold work_left. by rewrite Hp, sum_list_with_app. Qed.

Lemma member_stored s l k :
  sinv [] l s → k ∈ waiting s ++ running s → ∃ q, seqs s !! k = Some q.
Proof.
  intros Hs [Hk|Hk]%elem_of_app.
  - destruct (si_wait _ _ _ _ Hs k Hk) as (q & ? & _). by exists q.
  - destruct (si_run _ _ _ _ Hs k) as (q & ? & _); [set_solver|by exists q].
Qed.

Lemma postprocess_load s l toks events s' :
  sinv [] l s → NoDup l → l ⊆ waiting s ++ running s → tokens_ok (sc_config s) l toks →
  admissible s → postprocess compute_hash clock l toks s = (Ok events, s') →
  events = omap (row_event_at s) (zip l toks) ∧ sinv [] [] s' ∧ sc_config s' = sc_config s ∧
  (∀ x, x ∉ l → seqs s' !! x = seqs s !! x) ∧ waiting s' = waiting s ∧
  load_committed s (finished_of s (zip l toks)) s'.
Proof.
  intros Hs Hnd Hsub Htok Ha E.
  pose proof (postprocess_run compute_hash clock I s l toks Hs Hnd Hsub) as Hr.
  rewrite decide_True in Hr by done.
  destruct Hr as (s2 & E2 & Hs2 & Hc2 & Hw & Hrun & Hother & _).
  rewrite E2 in E. injection E as <- <-. split_and!; try done.
  assert (waiting s ++ running s ≡ₚ
    finished_of s (zip l toks) ++ (waiting s2 ++ running s2)) as Hp.
  { rewrite Hrun, Hw. rewrite !(assoc_L (++)). f_equiv. apply Permutation_app_comm. }
  assert (∀ k q, k ∈ waiting s2 ++ running s2 → seqs s !! k = Some q →
    request_ok (bsz s) (pool s) q) as Hok.
  { intros k q Hk. apply Ha. rewrite Hp. set_solver. }
  split; [done| |].
  - intros k q' Hk Hq'. destruct (member_stored s l k Hs) as [q Hq]; [rewrite Hp; set_solver|].
    destruct (commit_member s l toks s2 k q Hs Hnd Hsub Htok E2 Hk Hq (Hok k q Hk Hq))
      as (q2 & Hq2 & ? & _). congruence.
  - intros k Hk. destruct (member_stored s l k Hs) as [q Hq]; [rewrite Hp; set_solver|].
    by destruct (commit_member s l toks s2 k q Hs Hnd Hsub Htok E2 Hk Hq (Hok k q Hk Hq))
      as (q2 & _ & _ & ? & _).
Qed.

(** A complete row commits a token, or ends its request. *)
Lemma complete_decreases s l toks s' k :
  sinv [] l s → NoDup l → l ⊆ waiting s ++ running s → tokens_ok (sc_config s) l toks →
  admissible s →
  postprocess compute_hash clock l toks s = (Ok (omap (row_event_at s) (zip l toks)), s') →
  load_committed s (finished_of s (zip l toks)) s' → k ∈ l → complete_row s k →
  (work_left s' < work_left s)%nat.
Proof.
  intros Hs Hnd Hsub Htok Ha E Hload Hk Hcomp. rewrite (load_split _ _ _ Hload).
  destruct Hload as [Hp _ Hle]. pose proof (sum_list_with_le _ _ _ Hle) as Hle2.
  assert (k ∈ waiting s ++ running s) as Hin by by apply Hsub.
  destruct (member_stored s l k Hs Hin) as [q Hq]. pose proof (Ha k q Hin Hq) as Hok.
  rewrite Hp in Hin. apply elem_of_app in Hin as [Hin|Hin].
  - pose proof (sum_list_with_in k (tokens_left s) _ Hin).
    assert (0 < tokens_left s k)%nat; [|unfold work_left in *; lia].
    unfold tokens_left. rewrite Hq. destruct Hok. lia.
  - destruct (commit_member s l toks s' k q Hs Hnd Hsub Htok E Hin Hq Hok)
      as (q2 & _ & _ & _ & Hlt & _). unfold work_left at 1.
    pose proof (sum_list_with_lt _ _ _ k Hle Hin (Hlt Hk Hcomp)). lia.
Qed.

(** A chunk that is not the last leaves the tokens and shortens the rest. *)
Lemma chunk_decreases s s1 l toks s2 :
  sinv [] [] s → sched_frame s s1 → sinv [] l s1 → l ⊆ waiting s1 ++ running s1 →
  tokens_ok (sc_config s1) l toks → admissible s1 →
  postprocess compute_hash clock l toks s1 = (Ok (omap (row_event_at s1) (zip l toks)), s2) →
  (∀ x, x ∉ l → seqs s2 !! x = seqs s1 !! x) → waiting s2 = waiting s1 →
  load_committed s1 (finished_of s1 (zip l toks)) s2 → chunk_step s l s1 →
  work_left s2 = work_left s1 ∧ (chunk_left s2 < chunk_left s)%nat.
Proof.
  intros Hs Hf Hs1 Hsub Htok Ha E Hother Hw Hload
    (k & rest & q0 & q1 & -> & Ew & Hq0 & Er & Hm & Hq1 & Hle1 & Hsc & Hlt).
  assert (k ∈ waiting s1) as Hkw.
  { destruct (si_mid _ _ _ _ Hs1 k Hm) as [Hh _]. destruct (waiting s1); simplify_eq/=. set_solver. }
  assert (k ∈ waiting s2 ++ running s2) as Hk2 by (rewrite Hw; set_solver).
  destruct (commit_member s1 [k] toks s2 k q1 Hs1 (NoDup_singleton k) Hsub Htok E Hk2 Hq1)
    as (q2 & Hq2 & _ & _ & _ & Hpart); [apply (Ha k); [set_solver|done]|].
  destruct (Hpart ltac:(set_solver) Hlt) as (Hn2 & Hl2 & Hc2').
  pose proof (postprocess_frame compute_hash clock [k] toks s1) as Hpf. rewrite E in Hpf. simpl in Hpf.
  destruct (frame_seq s s1 k q0 Hf Hq0) as (q1' & Hq1' & Hreq).
  assert (q1' = q1) as -> by congruence. split.
  - assert (finished_of s1 (zip [k] toks) = []) as Hnil.
    { unfold finished_of. destruct toks as [|t toks]; [done|]. cbn [zip zip_with].
      rewrite filter_cons_False; [done|]. unfold row_event_at, row_event. simpl.
      rewrite Hq1, (proj2 (Z.ltb_lt _ _)) by done. done. }
    rewrite (load_split _ _ _ Hload), Hnil. simpl. unfold work_left.
    apply sum_list_with_ext. intros x Hx. destruct (decide (x = k)) as [->|Hne']; [done|].
    unfold tokens_left. rewrite (Hother x); [done|set_solver].
  - unfold chunk_left at 1. rewrite (pf_mid _ _ Hpf), Hm, Hq2.
    assert (num_tokens q0 = num_tokens q1) as Hnt by by destruct Hreq.
    destruct (si_wait _ _ _ _ Hs1 k Hkw) as (q1' & Hq1'' & _ & Hcov & _).
    assert (q1' = q1) as -> by congruence. destruct Hcov.
    unfold chunk_left. destruct (mid_is_head I _ _ _ _ _ Hs Ew) as [Em|Em]; rewrite Em.
    + rewrite Ew. simpl. rewrite Hq0. lia.
    + rewrite Hq0. lia.
Qed.

(** A whole step: the load stays admissible and the measure decreases. *)
Lemma step_decreases s l hp s1 toks events s2 :
  sinv [] [] s → admissible s → waiting s ++ running s ≠ [] →
  0 < max_num_batched_tokens (sc_config s) →
  schedule compute_hash clock s = (Ok (l, hp), s1) →
  postprocess compute_hash clock l toks s1 = (Ok events, s2) →
  sinv [] [] s2 ∧ admissible s2 ∧ smaller s2 s ∧ sc_config s2 = sc_config s.
Proof.
  intros Hs Ha Hne Hmax E1 E2.
  pose proof (schedule_advances s l hp s1 Hs Ha Hne Hmax E1) as Hadv.
  pose proof (schedule_frame compute_hash clock s) as Hf. rewrite E1 in Hf. simpl in Hf.
  pose proof (schedule_run compute_hash clock I s Hs) as Hr. rewrite E1 in Hr.
  destruct Hr as (Hs1 & Hnd & _ & Hsub & Hp & Hc & _).
  pose proof (admissible_frame s s1 Hf Hp Ha) as Ha1.
  pose proof (postprocess_run compute_hash clock I s1 l toks Hs1 Hnd Hsub) as Hr.
  case_decide as Htok; [clear Hr|destruct Hr as [? ?]; congruence].
  destruct (postprocess_load s1 l toks events s2 Hs1 Hnd Hsub Htok Ha1 E2)
    as (-> & Hs2 & Hc2 & Hother & Hw & Hload).
  split_and!; [done|by destruct Hload| |congruence].
  unfold smaller. rewrite <-(frame_work s s1 Hf Hp).
  destruct Hadv as [(k & Hk & Hcomp)|Hchunk].
  - left. by eapply (complete_decreases s1 l toks s2 k).
  - right. by eapply (chunk_decreases s s1 l toks s2).
Qed.
End progress.
