(* ===== verification/CancelSpec.v ===== *)
(** * CancelSpec: admission, cancellation, and the engine loop

    [add] and [cancel] against [sinv], then the transition relation of the
    ordinary engine loop ([engine_step]) and the invariant of its reachable
    states. *)
From S2P Require Import Prelude SamplingParams Sequence Heap BlockManager Reservation SpecMemory.
From S2P Require Import SpecRoutes SpecPlan Scheduler CacheInv KVContract SchedInv ScheduleSpec.
From S2P Require Import PrefillSpec StepSpec.

Section cancel.
Context (compute_hash : list Z → Z → Z) (I : heap → Prop) `{!KVAllocator compute_hash I}.
#[local] Abbreviation sinv := (sinv I).

(** ** Admission *)

(** A request that waits for its first chunk. *)
Definition fresh_request (q : sequence) : Prop :=
  queued q ∧ block_table q = [] ∧ num_cached_tokens q = 0 ∧
  num_scheduled_tokens q = 0.

(** Creating the [Sequence] object. *)
Lemma sinv_new s k q :
  sinv [] [] s → seqs s !! k = None → seq_id q = k → seq_wf q → fresh_request q →
  sinv [] [] (set_heap (put_seq k q (sc_heap s)) s).
Proof.
  intros [Hi Hb Hp Hnd Hcap Hm Hw Hr Ho] Hk Hid Hwf (Hst & Ht & Hc & Hn).
  assert (∀ x q0, seqs s !! x = Some q0 → x ≠ k) as Hne by (intros x q0 E ->; congruence).
  split; simpl; try done.
  - by eapply kv_new.
  - intros m Em. destruct (Hm m Em) as [? (q0 & Hq0 & ?)]. split; [done|]. exists q0.
    rewrite lookup_insert_ne by (symmetry; by eapply Hne). done.
  - intros x Hx. destruct (Hw x Hx) as (q0 & Hq0 & ?). exists q0.
    rewrite lookup_insert_ne by (symmetry; by eapply Hne). done.
  - intros x Hx. destruct (Hr x Hx) as (q0 & Hq0 & ?). exists q0.
    rewrite lookup_insert_ne by (symmetry; by eapply Hne). done.
  - intros x qx. destruct (decide (x = k)) as [->|?];
      [rewrite lookup_insert_eq; by intros [= <-]|]. rewrite lookup_insert_ne by done. apply Ho.
Qed.

Lemma add_run s k q :
  sinv [] [] s → seqs s !! k = Some q → fresh_request q → k ∉ waiting s ++ running s →
  if decide (Z.of_nat (length (waiting s ++ running s)) < max_num_seqs (sc_config s)) then
    ∃ s', add k s = (Ok tt, s') ∧ sinv [] [] s' ∧ waiting s' = waiting s ++ [k] ∧
      running s' = running s ∧ sc_config s' = sc_config s ∧
      ∀ x, x ≠ k → seqs s' !! x = seqs s !! x
  else add k s = (Raise (SchedulerCapacityError 1 0 (max_num_seqs (sc_config s))), s).
Proof.
  intros Hs Hk (Hst & Ht & Hc & Hn) Hnew. pose proof Hs as [Hi Hb Hp Hnd Hcap Hm Hw Hr Ho].
  rewrite app_nil_r in *. destruct (kv_seq _ _ _ Hi Hk) as [_ Hwf].
  unfold add, require_capacity. rewrite length_app in *.
  case_decide as Hlt; last first.
  { apply bind_raise. mstep. unfold bind, gets, available_capacity.
    rewrite (proj2 (Z.ltb_lt _ _)) by lia. unfold raise_if, raise. do 3 f_equal. lia. }
  erewrite bind_ok; last first.
  { mstep. unfold bind, gets, available_capacity. rewrite (proj2 (Z.ltb_ge _ _)) by lia.
    reflexivity. }
  set (qs := if 0 <? _configured_k (sc_config s) then set_spec_metrics (Some spec_counters_zero) q else q).
  assert (when (0 <? _configured_k (sc_config s))
    (set_seq k (set_spec_metrics (Some spec_counters_zero))) s =
    (Ok tt, set_heap (put_seq k qs (sc_heap s)) s)) as Ew.
  { unfold qs. destruct (0 <? _); simpl; [by apply set_seq_ok|].
    unfold ret. f_equal. destruct s as [c [b ss z] ? ? ? ? ? ? ? ? ?].
    unfold set_heap, put_seq, set_seqs. simpl in *. by rewrite insert_id. }
  mstep. rewrite (bind_ok _ _ _ _ _ Ew). unfold modify.
  assert (evolves q qs) as He by (unfold qs; destruct (0 <? _); by apply evolves_attr).
  assert (∀ x, x ∈ waiting s ++ running s → x ≠ k) as Hne by (intros x Hx ->; done).
  eexists. split; [reflexivity|]. split_and!; try done.
  2: { intros x Hx. simpl. by rewrite lookup_insert_ne. }
  split; simpl; try done.
  - by eapply kv_put.
  - rewrite app_nil_r. apply NoDup_app in Hnd as (N1 & N2 & N3).
    assert ((waiting s ++ [k]) ++ running s ≡ₚ k :: waiting s ++ running s) as ->
      by solve_Permutation.
    apply NoDup_cons. split; [done|]. by apply NoDup_app.
  - rewrite app_nil_r, !length_app. simpl. lia.
  - intros m Em. destruct (Hm m Em) as [Hh (q0 & Hq0 & ?)].
    destruct (waiting s) as [|m' rest] eqn:Ew'; [done|]. split; [done|]. exists q0.
    rewrite lookup_insert_ne; [done|]. injection Hh as ->. intros <-. apply Hnew. set_solver.
  - intros x [Hx|Hx%list_elem_of_singleton]%elem_of_app.
    + destruct (Hw x Hx) as (q0 & Hq0 & ?). exists q0.
      rewrite lookup_insert_ne by (symmetry; apply Hne; set_solver). done.
    + subst x. exists qs. rewrite lookup_insert_eq. split; [done|].
      assert (queued qs ∧ num_cached_tokens qs = 0 ∧ num_scheduled_tokens qs = 0 ∧
        block_table qs = [] ∧ num_tokens qs = num_tokens q) as (E1 & E2 & E3 & E4 & E5)
        by (unfold qs; destruct (0 <? _); done).
      destruct Hwf as [_ ? _]. split_and!; try done; rewrite ?E2, ?E3, ?E5; try lia; [|by right].
      split; rewrite ?E2, ?E3, ?E4, ?E5; try lia. by rewrite ceil_div_zero by lia.
  - intros x Hx. rewrite app_nil_r in Hx. destruct (Hr x Hx) as (q0 & Hq0 & ?). exists q0.
    rewrite lookup_insert_ne by (symmetry; apply Hne; set_solver). done.
  - intros x qx. destruct (decide (x = k)) as [->|?]; [intros _ Hout; set_solver|].
    rewrite lookup_insert_ne by done. intros Hqx Hout. apply (Ho x qx Hqx). set_solver.
Qed.

(** ** Cancellation *)

Definition cancelled (q : sequence) : Prop := status q = CANCELLED ∧ block_table q = [].

Definition queue_of (w : bool) (s : scheduler) : list nat :=
  if w then waiting s else running s.

(** The queues without [k]. *)
Definition drop_member (k : nat) (h' : heap) (s : scheduler) : scheduler :=
  set_mid (if bool_decide (mid_chunk_seq s = Some k) then None else mid_chunk_seq s)
    (set_waiting (filter (λ x, x ≠ k) (waiting s))
      (set_running (filter (λ x, x ≠ k) (running s)) (set_heap h' s))).

Lemma sinv_drop sch s k q' h' :
  sinv [] sch s → I h' → block_size (hp_bm h') = bsz s → hp_seqs h' = <[k := q']> (seqs s) →
  block_table q' = [] → sinv [] sch (drop_member k h' s).
Proof.
  intros [Hi Hb Hp Hnd Hcap Hm Hw Hr Ho] Hi' Hb' Hsq Ht'. rewrite app_nil_r in *.
  split; simpl; rewrite ?app_nil_r, ?Hb'; try done.
  - rewrite <-filter_app. by apply NoDup_filter.
  - rewrite <-filter_app. pose proof (length_filter (λ x, x ≠ k) (waiting s ++ running s)). lia.
  - intros m. case_bool_decide as Emk; [done|]. intros Em.
    destruct (Hm m Em) as [Hh (q & Hq & Ht)]. destruct (waiting s) as [|m' rest]; [done|].
    injection Hh as ->. assert (m ≠ k) by congruence.
    rewrite filter_cons, decide_True by done. split; [done|]. exists q.
    by rewrite Hsq, lookup_insert_ne.
  - intros x [Hx Hin]%list_elem_of_filter. destruct (Hw x Hin) as (q & Hq & Hok).
    exists q. rewrite Hsq, lookup_insert_ne by done. split; [done|].
    destruct Hok as (? & ? & ? & Hmid & ?). split_and!; try done.
    destruct Hmid as [Hmid|]; [|by right]. left. rewrite bool_decide_eq_false_2; [done|congruence].
  - intros x [Hx Hin]%list_elem_of_filter. destruct (Hr x) as (q & Hq & Hok);
      [by rewrite ?app_nil_r|]. exists q. by rewrite Hsq, lookup_insert_ne.
  - intros x qx. rewrite Hsq. destruct (decide (x = k)) as [->|Hne];
      [rewrite lookup_insert_eq; intros [= <-]; done|].
    rewrite lookup_insert_ne by done. intros Hqx Hn. apply (Ho x qx Hqx).
    intros Hin. apply Hn. rewrite ?app_nil_r in *. rewrite elem_of_app in Hin |- *.
    rewrite !list_elem_of_filter. tauto.
Qed.

Lemma cancel_one_ok w sch s k :
  sinv [] sch s → k ∈ queue_of w s →
  ∃ h' q', cancel_one w k s = (Ok k, drop_member k h' s) ∧ sinv [] sch (drop_member k h' s) ∧
    hp_seqs h' = <[k := q']> (seqs s) ∧ cancelled q'.
Proof.
  intros Hs Hin. pose proof (si_heap _ _ _ _ Hs) as Hi.
  pose proof (si_nodup _ _ _ _ Hs) as Hnd. rewrite app_nil_r in Hnd.
  assert (∃ q, seqs s !! k = Some q) as [q Hq].
  { destruct w; [destruct (si_wait _ _ _ _ Hs k Hin) as (q & ? & _)|
      destruct (si_run _ _ _ _ Hs k) as (q & ? & _); [by rewrite app_nil_r|]]; by exists q. }
  destruct (kv_seq _ _ _ Hi Hq) as [Hid Hwf].
  (* the optional release of the table *)
  assert (∃ h1 q1, when (negb (bool_decide (block_table q = []))) (on_heap (deallocate k)) s =
      (Ok tt, set_heap h1 s) ∧ I h1 ∧ block_size (hp_bm h1) = bsz s ∧
      hp_seqs h1 = <[k := q1]> (seqs s) ∧ block_table q1 = [] ∧ seq_wf q1 ∧ seq_id q1 = k)
    as (h1 & q1 & E1 & Hi1 & Hb1 & Hsq1 & Ht1 & Hwf1 & Hid1).
  { case_bool_decide as Ht; simpl.
    - exists (sc_heap s), q. rewrite set_heap_id. split_and!; try done. by rewrite insert_id.
    - destruct (kv_free (sc_heap s) k q Hi Hq) as (h1 & E & Hi1 & Hb1 & Hsq1).
      eexists h1, _. split; [by apply on_heap_ok|]. split_and!; try done. by destruct Hwf. }
  assert (hp_seqs h1 !! k = Some q1) as Hk1 by (rewrite Hsq1; apply lookup_insert_eq).
  set (q' := set_status CANCELLED (set_num_draft_cached_tokens 0 (set_num_scheduled_tokens 0 q1))).
  assert (I (put_seq k q' h1)) as Hi'
    by (apply (inv_put compute_hash I k q1); try done; by apply evolves_attr).
  assert (hp_seqs (put_seq k q' h1) = <[k := q']> (seqs s)) as Hsq'
    by (simpl; by rewrite Hsq1, insert_insert_eq).
  exists (put_seq k q' h1), q'. split; [|split_and!; try done; by eapply sinv_drop].
  unfold cancel_one. rewrite (bind_ok _ _ _ _ _ (seq_at_ok _ _ _ Hq)), (bind_ok _ _ _ _ _ E1).
  unfold bind at 1, get.
  change (waiting (set_heap h1 s)) with (waiting s). change (running (set_heap h1 s)) with (running s).
  change (mid_chunk_seq (set_heap h1 s)) with (mid_chunk_seq s).
  apply NoDup_app in Hnd as (Nw & Nd & Nr).
  assert (filter (λ x, x ≠ k) (queue_of (negb w) s) = queue_of (negb w) s) as Hother.
  { apply filter_all. intros x Hx ->. destruct w; simpl in *; [by apply (Nd k)|by apply (Nd k)]. }
  fold (queue_of w s). rewrite remove_first_member; [|by destruct w|done].
  assert ((modify (if w then set_waiting (filter (λ x, x ≠ k) (queue_of w s))
      else set_running (filter (λ x, x ≠ k) (queue_of w s)))) (set_heap h1 s) =
    (Ok tt, set_waiting (filter (λ x, x ≠ k) (waiting s))
      (set_running (filter (λ x, x ≠ k) (running s)) (set_heap h1 s)))) as E2.
  { unfold modify. f_equal. destruct w; simpl in *; rewrite Hother; by destruct s. }
  rewrite (bind_ok _ _ _ _ _ E2). set (s2 := set_waiting _ _).
  assert (when (bool_decide (mid_chunk_seq s = Some k)) (modify (set_mid None)) s2 =
    (Ok tt, set_mid (if bool_decide (mid_chunk_seq s = Some k) then None else mid_chunk_seq s) s2))
    as E3 by (by destruct (bool_decide (mid_chunk_seq s = Some k))).
  rewrite (bind_ok _ _ _ _ _ E3). set (s3 := set_mid _ s2).
  assert (seqs s3 !! k = Some q1) as Hk3 by exact Hk1.
  rewrite (bind_ok _ _ _ _ _ (set_seq_ok k _ s3 q1 Hk3)).
  erewrite bind_ok; [|by apply set_seq_ok, put_lookup].
  erewrite bind_ok; [|by apply set_seq_ok, put_lookup].
  unfold ret. rewrite Hid. f_equal. simpl. by rewrite !put_put.
Qed.

Lemma filter_twice (l k : list nat) x :
  filter (λ y, y ∉ k) (filter (λ y, y ≠ x) l) = filter (λ y, y ∉ x :: k) l.
Proof. rewrite list_filter_filter. apply list_filter_iff. intros y. set_solver. Qed.

Lemma cancel_loop w sch l s :
  sinv [] sch s → NoDup l → l ⊆ queue_of w s →
  ∃ s', map_all (cancel_one w) l s = (Ok l, s') ∧ sinv [] sch s' ∧ sc_config s' = sc_config s ∧
    waiting s' = filter (λ x, x ∉ l) (waiting s) ∧
    running s' = filter (λ x, x ∉ l) (running s) ∧
    (∀ x, x ∉ l → seqs s' !! x = seqs s !! x) ∧
    ∀ x, x ∈ l → ∃ q, seqs s' !! x = Some q ∧ cancelled q.
Proof.
  revert s. induction l as [|k l IH]; intros s Hs Hnd Hsub.
  { exists s. split_and!; try done; [| |set_solver]; symmetry; apply filter_all; set_solver. }
  apply NoDup_cons in Hnd as [Hk Hnd].
  destruct (cancel_one_ok w sch s k Hs) as (h1 & q1 & E1 & Hs1 & Hsq1 & Hc1); [set_solver|].
  destruct (IH (drop_member k h1 s) Hs1 Hnd) as (s' & E & Hs' & Hc & Hw & Hr & Hsq & Hcan).
  { intros x Hx. assert (x ≠ k) by (intros ->; done).
    assert (x ∈ queue_of w s) as Hq by set_solver.
    destruct w; simpl; apply list_elem_of_filter; done. }
  exists s'. split_and!; try done.
  - cbn [map_all]. by rewrite (bind_ok _ _ _ _ _ E1), (bind_ok _ _ _ _ _ E).
  - rewrite Hw. simpl. apply filter_twice.
  - rewrite Hr. simpl. apply filter_twice.
  - intros x Hx. rewrite Hsq by set_solver. simpl. rewrite Hsq1, lookup_insert_ne; set_solver.
  - intros x [->|Hx]%elem_of_cons; [|by apply Hcan]. exists q1. rewrite Hsq by done.
    simpl. by rewrite Hsq1, lookup_insert_eq.
Qed.

Lemma seqs_at s queue :
  (∀ k, k ∈ queue → ∃ q, seqs s !! k = Some q ∧ seq_id q = k) →
  ∃ qs, map_all seq_at queue s = (Ok qs, s) ∧ Forall2 (λ k q, seq_id q = k) queue qs.
Proof.
  induction queue as [|k queue IH]; intros Hk; [by exists []|].
  destruct (Hk k ltac:(set_solver)) as (q & Hq & Hid).
  destruct IH as (qs & E & HF); [intros; apply Hk; set_solver|].
  exists (q :: qs). split; [|by constructor].
  cbn [map_all]. by rewrite (bind_ok _ _ _ _ _ (seq_at_ok _ _ _ Hq)), (bind_ok _ _ _ _ _ E).
Qed.

Lemma targets_in_ok s targets queue :
  (∀ k, k ∈ queue → ∃ q, seqs s !! k = Some q ∧ seq_id q = k) →
  targets_in targets queue s = (Ok (filter (λ k, k ∈ targets) queue), s).
Proof.
  intros Hk. destruct (seqs_at s queue Hk) as (qs & E & HF). unfold targets_in.
  rewrite (bind_ok _ _ _ _ _ E). unfold ret. do 2 f_equal. clear -HF.
  induction HF as [|k q queue qs Hid _ IH]; [done|]. simpl. rewrite !filter_cons. simpl.
  rewrite Hid. case_decide; csimpl; by rewrite IH.
Qed.

Lemma sinv_stored sch s k :
  sinv [] sch s → k ∈ waiting s ++ running s → ∃ q, seqs s !! k = Some q ∧ seq_id q = k.
Proof.
  intros Hs Hk. assert (∃ q, seqs s !! k = Some q) as [q Hq].
  { apply elem_of_app in Hk as [Hk|Hk].
    - destruct (si_wait _ _ _ _ Hs k Hk) as (q & ? & _). by exists q.
    - destruct (si_run _ _ _ _ Hs k) as (q & ? & _); [by rewrite app_nil_r|]. by exists q. }
  exists q. split; [done|]. by destruct (kv_seq _ _ _ (si_heap _ _ _ _ Hs) Hq).
Qed.

(** The queued members a cancellation names. *)
Definition cancel_targets (ids : list nat) (s : scheduler) : list nat :=
  filter (λ k, k ∈ ids) (waiting s ++ running s).

Lemma filter_none_app (l1 l2 ids : list nat) :
  (∀ x, x ∈ l1 → x ∉ l2) →
  filter (λ x, x ∉ filter (λ k, k ∈ ids) l1) l1 = filter (λ x, x ∉ ids) l1 ∧
  filter (λ x, x ∉ filter (λ k, k ∈ ids) l1) l2 = l2.
Proof.
  intros Hd. split.
  - assert (∀ l, l ⊆ l1 → filter (λ x, x ∉ filter (λ k, k ∈ ids) l1) l = filter (λ x, x ∉ ids) l)
      as Hg; [|by apply Hg].
    induction l as [|x l IH]; intros Hsub; [done|]. rewrite !filter_cons, IH by set_solver.
    assert (x ∈ l1) by set_solver. destruct (decide (x ∈ ids)) as [Hin|Hin].
    + assert (¬ (x ∉ ids)) by tauto.
      assert (¬ (x ∉ filter (λ k, k ∈ ids) l1))
        by (intros Hn; apply Hn; by apply list_elem_of_filter).
      rewrite !decide_False by done. done.
    + rewrite !decide_True; [done|done|]. intros [? _]%list_elem_of_filter. done.
  - apply filter_all. intros x Hx [? Hin]%list_elem_of_filter. by apply (Hd x).
Qed.

Lemma cancel_run sch ids s :
  sinv [] sch s →
  ∃ s', cancel ids s = (Ok (cancel_targets ids s), s') ∧ sinv [] sch s' ∧
    sc_config s' = sc_config s ∧
    waiting s' = filter (λ x, x ∉ ids) (waiting s) ∧
    running s' = filter (λ x, x ∉ ids) (running s) ∧
    (∀ x, x ∉ cancel_targets ids s → seqs s' !! x = seqs s !! x) ∧
    ∀ x, x ∈ cancel_targets ids s → ∃ q, seqs s' !! x = Some q ∧ cancelled q.
Proof.
  intros Hs. pose proof (si_nodup _ _ _ _ Hs) as Hnd. rewrite app_nil_r in Hnd.
  apply NoDup_app in Hnd as (Nw & Nd & Nr).
  assert (∀ l : list nat, filter (λ k, k ∈ (list_to_set ids : gset nat)) l =
    filter (λ k, k ∈ ids) l) as Hset.
  { intros l. apply list_filter_iff. intros y. by rewrite elem_of_list_to_set. }
  assert (cancel_targets ids s = [] → ∃ s', (Ok [], s) = (Ok (cancel_targets ids s), s') ∧
    sinv [] sch s' ∧ sc_config s' = sc_config s ∧
    waiting s' = filter (λ x, x ∉ ids) (waiting s) ∧
    running s' = filter (λ x, x ∉ ids) (running s) ∧
    (∀ x, x ∉ cancel_targets ids s → seqs s' !! x = seqs s !! x) ∧
    ∀ x, x ∈ cancel_targets ids s → ∃ q, seqs s' !! x = Some q ∧ cancelled q) as Hnone.
  { intros E. exists s. assert (∀ x, x ∈ waiting s ++ running s → x ∉ ids) as Hx.
    { intros x Hx Hin. assert (x ∈ cancel_targets ids s) as Hc by (apply list_elem_of_filter; done).
      rewrite E in Hc. set_solver. }
    rewrite E. split_and!; try done; [| |set_solver]; symmetry; apply filter_all;
      intros; apply Hx; set_solver. }
  unfold cancel. case_bool_decide as Hempty.
  { apply Hnone. unfold cancel_targets. apply filter_none. intros x _ Hin.
    assert (x ∈ (list_to_set ids : gset nat)) by by apply elem_of_list_to_set. set_solver. }
  unfold bind at 1, get.
  rewrite (bind_ok _ _ _ _ _ (targets_in_ok s (list_to_set ids) _ (λ k, sinv_stored sch s k Hs))).
  rewrite Hset. fold (cancel_targets ids s).
  case_bool_decide as Hq; [by apply Hnone|]. clear Hnone Hempty Hq.
  destruct (no_plans_release s (si_plans _ _ _ _ Hs)) as (E1 & E2 & E3).
  rewrite (bind_ok _ _ _ _ _ E1), (bind_ok _ _ _ _ _ E2), (bind_ok _ _ _ _ _ (E3 _)).
  unfold bind at 1, get.
  assert (∀ k, k ∈ waiting s → ∃ q, seqs s !! k = Some q ∧ seq_id q = k) as Hsw
    by (intros; eapply sinv_stored; [done|set_solver]).
  rewrite (bind_ok _ _ _ _ _ (targets_in_ok s (list_to_set ids) _ Hsw)), Hset.
  set (cw := filter (λ k, k ∈ ids) (waiting s)).
  destruct (cancel_loop true sch cw s Hs) as (s1 & Ew & Hs1 & Hc1 & Hw1 & Hr1 & Hsq1 & Hcan1);
    [by apply NoDup_filter|by intros x [_ ?]%list_elem_of_filter|].
  destruct (filter_none_app (waiting s) (running s) ids Nd) as [Fw Fr]. fold cw in Fw, Fr.
  rewrite Fw in Hw1. rewrite Fr in Hr1.
  rewrite (bind_ok _ _ _ _ _ Ew). unfold bind at 1, get.
  assert (∀ k, k ∈ running s1 → ∃ q, seqs s1 !! k = Some q ∧ seq_id q = k) as Hsr
    by (intros; eapply sinv_stored; [done|set_solver]).
  rewrite (bind_ok _ _ _ _ _ (targets_in_ok s1 (list_to_set ids) _ Hsr)), Hset, Hr1.
  set (cr := filter (λ k, k ∈ ids) (running s)).
  destruct (cancel_loop false sch cr s1 Hs1) as (s2 & Er & Hs2 & Hc2 & Hw2 & Hr2 & Hsq2 & Hcan2);
    [by apply NoDup_filter|simpl; rewrite Hr1; by intros x [_ ?]%list_elem_of_filter|].
  destruct (filter_none_app (running s) (waiting s1) ids) as [Gr Gw].
  { rewrite Hw1. intros x Hx [_ Hin]%list_elem_of_filter. by apply (Nd x). } fold cr in Gr, Gw. rewrite Hr1, Gr in Hr2. rewrite Gw in Hw2.
  rewrite (bind_ok _ _ _ _ _ Er).
  rewrite (bind_ok _ _ _ _ _ (check_mid_ok compute_hash I _ _ _ Hs2)).
  unfold cancel_targets. rewrite filter_app. fold cw cr. exists s2. split; [done|].
  split_and!; try done; [congruence|congruence| |].
  - intros x Hx. rewrite elem_of_app in Hx. rewrite Hsq2, Hsq1 by tauto. done.
  - intros x [Hx|Hx]%elem_of_app; [|by apply Hcan2].
    destruct (Hcan1 x Hx) as (q & Hq & ?). exists q. rewrite Hsq2; [done|].
    apply list_elem_of_filter in Hx as [_ Hx]. intros [_ Hin]%list_elem_of_filter. by apply (Nd x).
Qed.
End cancel.
