(* ===== verification/EngineLoop.v ===== *)
(** * EngineLoop: the promises of the scheduler, over the real allocator

    The scheduler's lemmas, proved against the allocator's contract, are
    instantiated with the block manager ([kv_inv]) and stated as the properties
    of [schedule], [postprocess], [add] and [cancel]; [engine_step] is the
    transition relation of the ordinary engine loop, whose reachable states all
    satisfy the invariant and never meet an internal error. *)
From S2P Require Import Prelude SamplingParams Sequence Heap BlockManager Reservation SpecMemory.
From S2P Require Import SpecRoutes SpecPlan Scheduler AllocatorInv CacheInv KVContract SchedInv.
From S2P Require Import ScheduleSpec PrefillSpec StepSpec CancelSpec.

Section engine.
Variable compute_hash : list Z → Z → Z.
Variable clock : nat → Z.
Hypothesis compute_hash_nonneg : ∀ toks p, 0 <= compute_hash toks p.

(** Between steps, and with the batch [sch] under way. *)
Definition idle : scheduler → Prop := sinv (kv_inv compute_hash) [] [].
Definition in_step (sch : list nat) : scheduler → Prop := sinv (kv_inv compute_hash) [] sch.

#[local] Instance contract : KVAllocator compute_hash (kv_inv compute_hash) :=
  block_manager_contract compute_hash compute_hash_nonneg.

(** ** One step *)


Lemma member_fits s :
  sinv (kv_inv compute_hash) [] [] s → running s = [] → mid_chunk_seq s = None →
  length (free_block_ids (hp_bm (sc_heap s))) = length (blocks (hp_bm (sc_heap s))).
Proof.
  intros Hs Hr Hm. apply (kv_all_free (compute_hash := compute_hash) (sc_heap s)); [apply Hs|].
  intros k q Hq. destruct (decide (k ∈ waiting s)) as [Hk|Hk].
  - destruct (si_wait _ _ _ _ Hs k Hk) as (q' & Hq' & _ & _ & _ & Ht & _).
    destruct Ht as [?|?]; congruence.
  - apply (si_owner _ _ _ _ Hs k q Hq). rewrite Hr. simpl. by rewrite app_nil_r.
Qed.

(** [schedule] fails only for want of work or of blocks, and then leaves an
    idle scheduler with the same members: with empty queues it raises "no
    pending requests"; otherwise only when the request at the waiting head
    needs more blocks than the whole pool has (or the token budget is not
    positive).  None of its internal consistency errors can occur. *)
Theorem schedule_progress s e s' :
  idle s → schedule compute_hash clock s = (Raise e, s') →
  idle s' ∧ waiting s' ++ running s' ≡ₚ waiting s ++ running s ∧
  if decide (waiting s ++ running s = []) then e = no_work
  else e = no_room ∧
    (max_num_batched_tokens (sc_config s) <= 0 ∨
     ∃ k q, head (waiting s') = Some k ∧ seqs s' !! k = Some q ∧
       Z.of_nat (length (blocks (hp_bm (sc_heap s')))) < num_blocks (bsz s') q).
Proof.
  intros Hs E. pose proof (schedule_run compute_hash clock (kv_inv compute_hash) s Hs) as Hr.
  rewrite E in Hr. destruct Hr as (Hs' & Hp & Hc & Hr). split; [done|]. split; [done|].
  case_decide as Hq; [done|]. destruct Hr as (-> & Hrun & Hst). split; [done|].
  destruct Hst as [Hw|[Hmax|[Hb|(k & rest & Ew & Hm & Hcan)]]].
  - exfalso. apply Hq. rewrite Hw, Hrun in Hp. by apply Permutation_nil_l in Hp.
  - exfalso. pose proof (si_cap _ _ _ _ Hs') as Hcap. rewrite app_nil_r in Hcap.
    apply Permutation_length in Hp. apply Hq, length_zero_iff_nil. lia.
  - left. by rewrite <-Hc.
  - right. destruct (si_wait _ _ _ _ Hs' k) as (q & Hkq & _ & _ & _ & Ht & _);
      [rewrite Ew; set_solver|].
    exists k, q. rewrite Ew. split; [done|]. split; [done|].
    rewrite <-(member_fits s' Hs' Hrun Hm).
    destruct Ht as [?|Ht]; [congruence|].
    destruct (kv_admit (compute_hash := compute_hash) (sc_heap s') k q (si_heap _ _ _ _ Hs') Hkq Ht)
      as (nc & E2 & Hnc).
    rewrite Hcan in E2. injection E2 as <-. destruct Hnc as [[_ ?]|[? _]]; [done|lia].
Qed.

(** C18: [postprocess] of a scheduled batch accepts exactly one vocabulary token
    per row (otherwise it raises before any change).  It then emits one event
    per row whose prompt is complete, in batch order, finished exactly on the
    stop condition (EOS unless ignored, or [max_tokens]); the finished
    sequences leave the running queue without blocks, nobody else moves, and
    the scheduler is idle again. *)
Theorem postprocess_commits s batch toks :
  in_step batch s → NoDup batch → batch ⊆ waiting s ++ running s →
  if decide (tokens_ok (sc_config s) batch toks) then
    ∃ s', postprocess compute_hash clock batch toks s =
        (Ok (omap (row_event_at s) (zip batch toks)), s') ∧
      idle s' ∧ waiting s' = waiting s ∧
      running s ≡ₚ finished_of s (zip batch toks) ++ running s' ∧
      ∀ k, k ∈ finished_of s (zip batch toks) →
        ∃ q', seqs s' !! k = Some q' ∧ status q' = FINISHED ∧ block_table q' = []
  else ∃ e, postprocess compute_hash clock batch toks s = (Raise (ValueError e), s).
Proof.
  intros Hs Hnd Hsub.
  pose proof (postprocess_run compute_hash clock (kv_inv compute_hash) s batch toks Hs Hnd Hsub) as Hr.
  case_decide; [|done]. destruct Hr as (s' & ? & ? & _ & ?). exists s'. split_and!; tauto.
Qed.

(** ** Admission and cancellation *)

(** [cancel] never fails on an idle scheduler (nor during a step): it
    returns exactly the queued members it names, in queue order, removes
    exactly them from the queues, and leaves them cancelled, without blocks;
    every other sequence is untouched. *)
Theorem cancel_exact sch ids s :
  in_step sch s →
  ∃ s', cancel ids s = (Ok (cancel_targets ids s), s') ∧ in_step sch s' ∧
    waiting s' = filter (λ x, x ∉ ids) (waiting s) ∧
    running s' = filter (λ x, x ∉ ids) (running s) ∧
    (∀ x, x ∉ cancel_targets ids s → seqs s' !! x = seqs s !! x) ∧
    ∀ x, x ∈ cancel_targets ids s → ∃ q, seqs s' !! x = Some q ∧ cancelled q.
Proof.
  intros Hs. destruct (cancel_run compute_hash (kv_inv compute_hash) sch ids s Hs)
    as (s' & ? & ? & _ & ?). by exists s'.
Qed.

(** Creating a request and adding it: [Sequence(...)], then [Scheduler.add]. *)
Definition submit (k : nat) (q : sequence) : MS unit :=
  modify (λ s, set_heap (put_seq k q (sc_heap s)) s) ;;; add k.

Lemma submit_run s k toks p sub arr now q :
  idle s → seqs s !! k = None → Sequence_init k toks p sub arr now = Ok q →
  if decide (Z.of_nat (length (waiting s ++ running s)) < max_num_seqs (sc_config s)) then
    ∃ s', submit k q s = (Ok tt, s') ∧ idle s' ∧ waiting s' = waiting s ++ [k] ∧
      running s' = running s ∧ sc_config s' = sc_config s
  else ∃ s', submit k q s =
      (Raise (SchedulerCapacityError 1 0 (max_num_seqs (sc_config s))), s') ∧ idle s' ∧
      waiting s' = waiting s ∧ running s' = running s ∧ sc_config s' = sc_config s.
Proof.
  intros Hs Hk Hq.
  assert (seq_id q = k ∧ seq_wf q ∧ fresh_request q) as (Hid & Hwf & Hfr).
  { pose proof (Sequence_init_wf _ _ _ _ _ _ _ Hq) as [? _]. unfold Sequence_init in Hq.
    destruct (last toks); simplify_eq. by split. }
  pose proof (sinv_new compute_hash (kv_inv compute_hash) s k q Hs Hk Hid Hwf Hfr) as Hs1.
  set (s1 := set_heap (put_seq k q (sc_heap s)) s) in *.
  assert (k ∉ waiting s ++ running s) as Hn.
  { intros Hin. destruct (sinv_stored compute_hash (kv_inv compute_hash) [] s k Hs Hin)
      as (? & ? & _). congruence. }
  pose proof (add_run compute_hash (kv_inv compute_hash) s1 k q Hs1 (lookup_insert_eq _ _ _) Hfr Hn)
    as Ha.
  assert (∀ o, submit k q s = o ↔ add k s1 = o) as Hsub by done. simpl in Ha.
  case_decide; [destruct Ha as (s' & ? & ? & ? & ? & ? & _); by exists s'|]. exists s1. split_and!; done.
Qed.

(** ** The engine loop *)

(** One transition of the ordinary loop: a request arrives, a step runs (its
    tokens come from the model), a step finds nothing to schedule, or requests
    are cancelled. *)
Inductive engine_step (s s' : scheduler) : Prop :=
| step_submit k toks p sub arr now q o :
    seqs s !! k = None → Sequence_init k toks p sub arr now = Ok q →
    submit k q s = (o, s') → engine_step s s'
| step_forward batch has_prefill s1 toks events :
    schedule compute_hash clock s = (Ok (batch, has_prefill), s1) →
    postprocess compute_hash clock batch toks s1 = (Ok events, s') → engine_step s s'
| step_nothing e :
    schedule compute_hash clock s = (Raise e, s') → engine_step s s'
| step_cancel ids o :
    cancel ids s = (o, s') → engine_step s s'.

Lemma engine_step_idle s s' : idle s → engine_step s s' → idle s'.
Proof.
  intros Hs [k toks p sub arr now q o Hk Hq E|batch hp s1 toks evs E1 E2|e E|ids o E].
  - pose proof (submit_run s k toks p sub arr now q Hs Hk Hq) as Hr.
    case_decide; destruct Hr as (s2 & E' & ? & _); congruence.
  - pose proof (schedule_run compute_hash clock (kv_inv compute_hash) s Hs) as Hr.
    rewrite E1 in Hr. destruct Hr as (Hs1 & Hnd & _ & Hsub & _).
    pose proof (postprocess_run compute_hash clock (kv_inv compute_hash) s1 batch toks Hs1 Hnd Hsub)
      as Hp.
    case_decide; [|destruct Hp as [e Hp]; congruence].
    destruct Hp as (s2 & E' & ? & _). assert (s2 = s') as <- by congruence. done.
  - pose proof (schedule_run compute_hash clock (kv_inv compute_hash) s Hs) as Hr.
    rewrite E in Hr. tauto.
  - destruct (cancel_run compute_hash (kv_inv compute_hash) [] ids s Hs) as (s2 & E' & ? & _).
    assert (s2 = s') as <- by congruence. done.
Qed.

Lemma init_idle c n :
  1 < sc_block_size c → 0 <= max_num_seqs c → idle (Scheduler_init c n).
Proof.
  intros Hbs Hmax. split; simpl; try done; try set_solver.
  - apply init_inv. lia.
  - constructor.
Qed.

Lemma reachable_idle c n s :
  1 < sc_block_size c → 0 <= max_num_seqs c →
  rtc engine_step (Scheduler_init c n) s → idle s.
Proof.
  intros Hbs Hmax Hr. pose proof (init_idle c n Hbs Hmax) as Hi. revert Hi.
  induction Hr as [|s1 s2 s3 Hst _ IH]; [done|]. intros Hs. apply IH. by eapply engine_step_idle.
Qed.

(** C1: every state the engine loop reaches from a new scheduler satisfies the
    scheduler invariant over a sound block manager: the ledger, the prefix
    cache, disjoint queues within capacity, at most one partial prefill at the
    waiting head, tables that cover exactly the computed tokens.  No block
    leaks: once the queues are empty, every block is free. *)
Theorem reachable_invariant c n s :
  1 < sc_block_size c → 0 <= max_num_seqs c →
  rtc engine_step (Scheduler_init c n) s →
  idle s ∧ alloc_ok none (sc_heap s) ∧ cache_ok compute_hash (sc_heap s) ∧
  (waiting s ++ running s = [] →
   length (free_block_ids (hp_bm (sc_heap s))) = length (blocks (hp_bm (sc_heap s)))).
Proof.
  intros Hbs Hmax Hr. pose proof (reachable_idle c n s Hbs Hmax Hr) as Hs.
  pose proof (si_heap _ _ _ _ Hs) as (Hok & _ & Hc). split_and!; try done.
  intros [Hw Hrun]%app_nil. apply member_fits; try done.
  destruct (mid_chunk_seq s) as [m|] eqn:Em; [|done].
  destruct (si_mid _ _ _ _ Hs m Em) as [Hh _]. by rewrite Hw in Hh.
Qed.


(** C2: the engine never gets stuck on an internal error: in every reachable
    state [schedule] answers a batch or one of its two "cannot schedule"
    errors, the commit of any batch it answers succeeds for every vector of
    vocabulary tokens of the right length, and cancelling succeeds. *)
Theorem reachable_progress c n s ids :
  1 < sc_block_size c → 0 <= max_num_seqs c →
  rtc engine_step (Scheduler_init c n) s →
  match schedule compute_hash clock s with
  | (Ok (batch, _), s1) => ∀ toks, tokens_ok (sc_config s) batch toks →
      ∃ events s', postprocess compute_hash clock batch toks s1 = (Ok events, s')
  | (Raise e, _) => e = no_work ∨ e = no_room
  end ∧ ∃ out s', cancel ids s = (Ok out, s').
Proof.
  intros Hbs Hmax Hr. pose proof (reachable_idle c n s Hbs Hmax Hr) as Hs. split.
  - pose proof (schedule_run compute_hash clock (kv_inv compute_hash) s Hs) as Hsch.
    destruct (schedule compute_hash clock s) as [[[batch hp]|e] s1].
    + destruct Hsch as (Hs1 & Hnd & _ & Hsub & _ & Hc & _). intros toks Ht.
      pose proof (postprocess_run compute_hash clock (kv_inv compute_hash) s1 batch toks Hs1 Hnd Hsub)
        as Hp. rewrite Hc, decide_True in Hp by done. destruct Hp as (s' & E & _). eauto.
    + destruct Hsch as (_ & _ & _ & He). case_decide; [by left|right; tauto].
  - destruct (cancel_run compute_hash (kv_inv compute_hash) [] ids s Hs) as (s' & E & _). eauto.
Qed.
End engine.
