(* ===== verification/SpecScheduler.v ===== *)
(** * SpecScheduler: speculative planning and commit in the scheduler

    The speculative operations of class Scheduler in
    src/nanovllm/engine/scheduler.py: planning a compute-then-discard cycle
    (V3) and a shadow step (V4) with its block lease, the capture of the undo
    record of a decode schedule, staging draft coverage, preparing target
    writes, and the atomic commit of a verified burst. *)
From S2P Require Import Prelude SamplingParams Sequence Heap BlockManager Reservation SpecMemory.
From S2P Require Import SpecRoutes SpecPlan SpecResult Scheduler.

(** [as_draft_discard_plan]. *)
Definition as_draft_discard_plan (p : SpecStepPlan) : DraftDiscardPlan :=
  mk_discard_plan (cycle_id p)
    ((λ r, mk_discard_row (row_seq_id r) (committed_tokens r) (target_cached_tokens r)
             (draft_cached_tokens r) (remaining_completion_tokens r)
             (model_position_headroom r) (highest_draft_write_position r)
             (row_block_table r)) <$> rows p)
    (configured_k p) (workspace_route_cap p) (plan_effective_k p)
    (plan_draft_catchup_tokens p) (draft_step_token_counts p)
    (shadow_target_query_tokens p) (total_scheduled_tokens p) (bypass_reason p)
    (route_key p).

(** [next(name for name, bound in bounds if bound == 0)]. *)
Fixpoint first_zero (bounds : list (string * Z)) : outcome string :=
  match bounds with
  | [] => Raise StopIteration
  | (name, bound) :: rest => if bound =? 0 then Ok name else first_zero rest
  end.

(** [min(f(seq) for seq in seqs)] of a non-empty batch. *)
Definition min_of (f : sequence → Z) (q : sequence) (qs : list sequence) : Z :=
  min_list1 (f q) (f <$> qs).

(** A row ready for the ordinary decode input of this step. *)
Definition pure_decode_row (q : sequence) : bool :=
  bool_decide (status q = RUNNING) && negb (is_prefill q)
  && (num_scheduled_tokens q =? 1) && (num_cached_tokens q =? num_tokens q - 1).

Definition remaining_tokens (q : sequence) : Z :=
  sp_max_tokens (params q) - num_completion_tokens q.

(** ** Draft-discard cycles *)

Definition _draft_discard_rows (c : sched_config) (qs : list sequence) (k : Z)
    : list DraftDiscardRow :=
  (λ q, mk_discard_row (seq_id q) (num_tokens q) (num_cached_tokens q)
     (num_draft_cached_tokens q) (Z.max (remaining_tokens q) 0)
     (Z.max (_max_model_len c - num_tokens q) 0)
     (if 0 <? k then Some (num_tokens q + k - 2) else None) (block_table q)) <$> qs.

Definition _draft_discard_plan (c : sched_config) (cycle : nat) (qs : list sequence)
    (cap k : Z) (reason : option string) (catchup : Z) (key : option DraftRouteKey)
    : DraftDiscardPlan :=
  let batch_size := Z.of_nat (length qs) in
  mk_discard_plan cycle (_draft_discard_rows c qs k) (_configured_k c) cap k catchup
    (replicate (Z.to_nat k) batch_size) batch_size
    (catchup + batch_size * (k + 1)) reason key.

(** The V3 fallback of a cycle. *)
Definition discard_fallback (c : sched_config) (cycle : nat) (qs : list sequence)
    (cap : Z) (reason : string) : plan_ref :=
  mk_plan_ref cycle (DiscardPlan (_draft_discard_plan c cycle qs cap 0 (Some reason) 0 None)).

(** The bounds of a V3 cycle: catch-up work, and the caps by name. *)
Definition discard_catchup (qs : list sequence) : outcome Z :=
  foldr (λ q m, let? n := m in
    oraise_if ((num_draft_cached_tokens q <? 0)
               || (num_tokens q - 1 <? num_draft_cached_tokens q))
      (RuntimeError "sequence has invalid draft-cache coverage") ;?
    Ok (num_tokens q - 1 - num_draft_cached_tokens q + n)) (Ok 0) qs.

Definition discard_bounds (c : sched_config) (q0 : sequence) (qs : list sequence)
    (catchup cap : Z) : list (string * Z) :=
  let batch := Z.of_nat (S (length qs)) in
  [ ("speculation_disabled"%string, _configured_k c);
    ("request_tail"%string, min_of (λ q, Z.max (remaining_tokens q - 1) 0) q0 qs);
    ("model_position_limit"%string, min_of (λ q, Z.max (_max_model_len c - num_tokens q) 0) q0 qs);
    ("token_budget"%string,
       Z.max ((max_num_batched_tokens c - catchup) `div` batch - 1) 0);
    ("workspace_route_cap"%string, cap) ].

(** [min] over the bounds. *)
Definition min_bound (bounds : list (string * Z)) : Z :=
  match bounds with [] => 0 | b :: bs => min_list1 b.2 (snd <$> bs) end.

Definition discard_reason (c : sched_config) (bounds : list (string * Z)) (catchup batch : Z)
    : outcome string :=
  let? reason := first_zero bounds in
  Ok (if bool_decide (reason = "token_budget"%string)
         && (max_num_batched_tokens c <? catchup + 2 * batch)
      then "draft_catchup_token_budget"%string else reason).

Section spec_scheduler.
Variable compute_hash : list Z → Z → Z.
Variable clock : nat → Z.
Variable torch : torch_dtypes.
Variable sha256_hexdigest : payload → string.

Definition next_cycle_id : MS nat :=
  let* s := get in
  modify (set_cycle_ids (S (_draft_discard_cycle_ids s))) ;;;
  ret (_draft_discard_cycle_ids s).

(** Reserve the proposal suffix of a V3 cycle and publish its plan. *)
Definition reserve_discard (c : sched_config) (cycle : nat) (ks : list nat)
    (qs : list sequence) (cap k catchup : Z) (key : option DraftRouteKey)
    : MS plan_ref :=
  let* reservation := on_heap (reserve_temporary_append
    (zip ks ((λ q, num_tokens q + k - 2) <$> qs))) in
  match reservation with
  | None => ret (discard_fallback c cycle qs cap "insufficient_kv_blocks")
  | Some r =>
      try_handler
        (let* qs' := map_all seq_at ks in
         let plan := mk_plan_ref cycle (DiscardPlan
           (_draft_discard_plan c cycle qs' cap k None catchup key)) in
         modify (set_active_draft (Some (plan, r))) ;;;
         ret plan)
        (on_heap (rollback_temporary_append r) ;;; ret tt)
  end.

(** The decision for a pure decode batch. *)
Definition plan_pure_decode (c : sched_config) (cycle : nat) (ks : list nat)
    (q0 : sequence) (qs : list sequence) (cap : Z)
    (route_admission : option DraftRouteAdmission) : MS plan_ref :=
  let all := q0 :: qs in
  let* catchup := lift (discard_catchup all) in
  raise_if match route_admission with
           | Some a => negb (catchup_tokens a =? catchup) | None => false end
    (RuntimeError "draft-cache coverage changed after route admission") ;;;
  let bounds := discard_bounds c q0 qs catchup cap in
  let k := min_bound bounds in
  if k =? 0 then
    let* reason := lift (discard_reason c bounds catchup (Z.of_nat (length all))) in
    ret (discard_fallback c cycle all cap reason)
  else
    match route_admission with
    | Some a =>
        match key_for a k with
        | None => ret (discard_fallback c cycle all cap "route_registry_miss")
        | Some key => reserve_discard c cycle ks all cap k catchup (Some key)
        end
    | None => reserve_discard c cycle ks all cap k catchup None
    end.

Definition plan_draft_discard (ks : list nat) (workspace_route_cap : option Z)
    (route_admission : option DraftRouteAdmission) : MS plan_ref :=
  let* s := get in
  let c := sc_config s in
  raise_if (bool_decide (is_Some (_active_spec_transaction s)))
    (RuntimeError "a speculative transaction is already active") ;;;
  raise_if (bool_decide (is_Some (_active_draft_discard s)))
    (RuntimeError "a draft-discard reservation is already active") ;;;
  raise_if (bool_decide (is_Some (_pending_draft_coverage_plan s)))
    (RuntimeError "draft-cache coverage from the previous cycle is pending") ;;;
  raise_if (bool_decide (is_Some route_admission) && bool_decide (is_Some workspace_route_cap))
    (ValueError "provide route_admission or workspace_route_cap, not both") ;;;
  let cap := match route_admission with
             | Some a => max_effective_k a
             | None => default 0 workspace_route_cap end in
  raise_if (cap <? 0) (ValueError "workspace_route_cap must be non-negative") ;;;
  raise_if (_configured_k c <? 0) (RuntimeError "scheduler configured K is invalid") ;;;
  raise_if (_max_model_len c <? 1) (RuntimeError "scheduler max_model_len is invalid") ;;;
  raise_if match route_admission with
           | Some a => negb (adm_batch_size a =? Z.of_nat (length ks)) | None => false end
    (ValueError "route admission batch size does not match decode rows") ;;;
  let* qs := map_all seq_at ks in
  raise_if (negb (bool_decide (NoDup (seq_id <$> qs))))
    (ValueError "draft-discard rows must be unique") ;;;
  let* cycle := next_cycle_id in
  match qs with
  | [] => ret (discard_fallback c cycle [] cap "no_decode_rows")
  | q0 :: qs' =>
      if negb (forallb pure_decode_row qs)
      then ret (discard_fallback c cycle qs cap "not_pure_decode")
      else plan_pure_decode c cycle ks q0 qs' cap route_admission
  end.

(** ** The undo record of a decode schedule *)

Definition capture_row (c : sched_config) (k : nat) (q : sequence)
    : _DecodeScheduleRollbackRow :=
  mk_rollback_row k (seq_id q) (num_tokens q) (num_cached_tokens q)
    (num_draft_cached_tokens q)
    ((num_cached_tokens q + sc_block_size c - 1) `div` sc_block_size c).

Definition capture_decode_schedule_rollback (ks : list nat) (step_is_prefill : bool)
    : MS (option DecodeScheduleRollback) :=
  if step_is_prefill || bool_decide (ks = []) then ret None else
  let* c := gets sc_config in
  let* qs := map_all seq_at ks in
  if negb (forallb pure_decode_row qs) then ret None
  else ret (Some (zip_with (capture_row c) ks qs)).

(** ** Shadow steps *)

Definition snapshot_row (c : sched_config) (q : sequence) : outcome SpecPlanRow :=
  new_row (mk_plan_row (seq_id q) (num_tokens q) (num_cached_tokens q)
    (num_draft_cached_tokens q) (Z.max (remaining_tokens q) 0)
    (Z.max (_max_model_len c - num_tokens q) 0) None None (block_table q)).

(** The route cap of an admission, after its checks. *)
Definition admission_cap (c : sched_config) (batch : Z) (w : SpeculativeMemoryPlan)
    (route_admission : option DraftRouteAdmission) : outcome Z :=
  match route_admission with
  | None => Ok 0
  | Some a =>
      oraise_if (negb (adm_batch_size a =? batch))
        (ValueError "route admission batch size does not match decode rows") ;?
      let? fp := speculative_plan_fingerprint sha256_hexdigest w (_numerical_mode c) in
      oraise_if (negb (bool_decide (adm_plan_fingerprint a = fp)))
        (ValueError "route admission workspace fingerprint is stale") ;?
      Ok (max_effective_k a)
  end.

(** The local function [build]. *)
Definition build_step (c : sched_config) (cycle : nat) (rs : list SpecPlanRow)
    (cap : Z) (w : SpeculativeMemoryPlan) (k : Z) (reason : option string)
    (key : option DraftRouteKey) : outcome SpecStepPlan :=
  build_speculative_step_plan torch sha256_hexdigest cycle rs (_configured_k c) cap k
    (max_num_batched_tokens c) w key reason.

Definition step_bounds (c : sched_config) (r0 : SpecPlanRow) (rs : list SpecPlanRow)
    (catchup cap : Z) : outcome (list (string * Z)) :=
  let batch := Z.of_nat (S (length rs)) in
  let budget := max_num_batched_tokens c in
  let? aggregate := speculative_k_budget budget batch catchup in
  Ok [ ("speculation_disabled"%string, _configured_k c);
       ("request_tail"%string, min_over (λ r, Z.max (remaining_completion_tokens r - 1) 0) r0 rs);
       ("model_position_limit"%string, min_over model_position_headroom r0 rs);
       ("verifier_token_budget"%string, Z.max (budget `div` batch - 1) 0);
       (if (3 * batch <=? budget) && (budget <? catchup + 3 * batch)
        then "draft_catchup_token_budget"%string else "aggregate_token_budget"%string,
        aggregate);
       ("workspace_route_cap"%string, cap) ].

(** Reserve the verifier suffix and open the transaction. *)
Definition open_transaction (cycle : nat) (ks : list nat) (p : SpecStepPlan)
    (rollback : DecodeScheduleRollback) (r : TemporaryBlockReservation) : MS plan_ref :=
  try_handler
    (let* qs := map_all seq_at ks in
     let* rows' := lift (omap_all (λ '(q, row), new_row (set_row_block_table (block_table q) row))
                           (zip qs (rows p))) in
     let* p' := lift (new_plan (mk_step_plan (cycle_id p) rows' (configured_k p)
       (workspace_route_cap p) (plan_effective_k p) (route_key p)
       (plan_draft_catchup_tokens p) (draft_query_tokens p) (target_query_tokens p)
       (total_model_positions p) (plan_modeled_live_peak_bytes p)
       (plan_reservation_bytes p) (workspace_fingerprint p) (gpu_certified p)
       (bypass_reason p))) in
     let plan := mk_plan_ref cycle (StepPlan p') in
     modify (set_active_draft (Some (plan, r))) ;;;
     modify (set_transaction (Some (mk_transaction plan r rollback false))) ;;;
     ret plan)
    (modify (set_active_draft None) ;;;
     modify (set_transaction None) ;;;
     on_heap (rollback_temporary_append r) ;;; ret tt).

(** The positive decision: build, reserve, open. *)
Definition plan_positive_step (c : sched_config) (cycle : nat) (ks : list nat)
    (rs : list SpecPlanRow) (cap : Z) (w : SpeculativeMemoryPlan) (k : Z)
    (key : DraftRouteKey) (rollback : DecodeScheduleRollback) : MS plan_ref :=
  let step p := mk_plan_ref cycle (StepPlan p) in
  match build_step c cycle rs cap w k None (Some key) with
  | Raise (SpeculativeMemoryPlanningError _) =>
      let* p := lift (build_step c cycle rs cap w 0 (Some "workspace_route_cap"%string) None) in
      ret (step p)
  | Raise e => raise e
  | Ok p =>
      let* targets := lift (omap_all (λ row,
        match highest_target_write_position row with
        | Some t => Ok t
        | None => Raise (TypeError "highest_written_position must be an integer")
        end) (rows p)) in
      let* reservation := on_heap (reserve_temporary_append (zip ks targets)) in
      match reservation with
      | None =>
          let* p := lift (build_step c cycle rs cap w 0
                            (Some "insufficient_kv_blocks"%string) None) in
          ret (step p)
      | Some r => open_transaction cycle ks p rollback r
      end
  end.

Definition plan_speculative_step (ks : list nat) (configured_workspace : SpeculativeMemoryPlan)
    (route_admission : option DraftRouteAdmission)
    (baseline_decode_rollback : option DecodeScheduleRollback) : MS plan_ref :=
  let* s := get in
  let c := sc_config s in
  raise_if (bool_decide (is_Some (_active_spec_transaction s))
            || bool_decide (is_Some (_active_draft_discard s))
            || bool_decide (is_Some (_pending_draft_coverage_plan s)))
    (RuntimeError "a speculative transaction is already active") ;;;
  let* qs := map_all seq_at ks in
  let* rs := lift (omap_all (snapshot_row c) qs) in
  let* cap := lift (admission_cap c (Z.of_nat (length rs)) configured_workspace
                      route_admission) in
  let* cycle := next_cycle_id in
  let fallback reason :=
    let* p := lift (build_step c cycle rs cap configured_workspace 0 (Some reason) None) in
    ret (mk_plan_ref cycle (StepPlan p)) in
  match rs with
  | [] => fallback "no_decode_rows"%string
  | r0 :: rs' =>
      let* captured := capture_decode_schedule_rollback ks false in
      match captured with
      | None => fallback "not_pure_decode"%string
      | Some rollback =>
          raise_if match baseline_decode_rollback with
                   | Some b => negb (bool_decide (b = rollback)) | None => false end
            (ValueError "baseline decode rollback does not match selected rows") ;;;
          raise_if (negb (bool_decide (running s = ks)))
            (ValueError "speculative plan must cover the whole scheduled decode batch") ;;;
          let catchup := draft_catchup_tokens rs in
          raise_if match route_admission with
                   | Some a => negb (catchup_tokens a =? catchup) | None => false end
            (ValueError "draft-cache coverage changed after route admission") ;;;
          let* k := lift (derive_speculative_effective_k rs (_configured_k c)
                            (max_num_batched_tokens c) cap) in
          if k =? 0 then
            let* bounds := lift (step_bounds c r0 rs' catchup cap) in
            let* reason := lift (first_zero bounds) in
            fallback reason
          else
            match route_admission with
            | None => raise Dangling
            | Some a =>
                match key_for a k with
                | None => fallback "route_registry_miss"%string
                | Some key => plan_positive_step c cycle ks rs cap configured_workspace k key
                                rollback
                end
            end
      end
  end.

(** ** Staging draft coverage *)

Definition check_stage_row (plan : plan_ref) (coverage : gmap nat Z) (q : sequence)
    : outcome unit :=
  let? row := facts_of (pr_plan plan) (seq_id q) in
  let? supplied := match coverage !! seq_id q with
                   | Some v => Ok v | None => Raise KeyError end in
  oraise_if (negb (supplied =? rf_committed_tokens row))
    (ValueError "draft coverage must equal the planned committed prefix") ;?
  oraise_if (negb (bool_decide (status q = RUNNING)))
    (RuntimeError "coverage sequence is not running") ;?
  oraise_if (negb (num_tokens q =? rf_committed_tokens row))
    (RuntimeError "coverage sequence length changed before target execution") ;?
  oraise_if (negb (num_cached_tokens q =? rf_target_cached_tokens row))
    (RuntimeError "target cache coverage changed before target execution") ;?
  oraise_if (negb (num_scheduled_tokens q =? 1) || is_prefill q)
    (RuntimeError "coverage sequence is not a scheduled decode") ;?
  oraise_if (negb (num_draft_cached_tokens q =? rf_draft_cached_tokens row))
    (RuntimeError "draft cache coverage changed before staging").

Definition stage_draft_coverage (plan : plan_ref) (ks : list nat) (coverage : gmap nat Z)
    : MS unit :=
  raise_if (negb (plan_uses_draft (pr_plan plan)))
    (ValueError "cannot commit draft coverage for a fallback plan") ;;;
  let* s := get in
  raise_if (bool_decide (is_Some (_active_draft_discard s)))
    (RuntimeError "temporary draft-discard reservation is still active") ;;;
  raise_if (negb match _pending_draft_coverage_plan s with
                 | Some p => same_plan p plan | None => false end)
    (RuntimeError "draft coverage may be staged only for the handed-off plan") ;;;
  raise_if (bool_decide (is_Some (_pending_draft_coverage s)))
    (RuntimeError "draft coverage is already staged") ;;;
  let planned_ids : list nat := rf_seq_id <$> plan_rows (pr_plan plan) in
  let* qs := map_all seq_at ks in
  raise_if (negb (bool_decide ((seq_id <$> qs) = planned_ids)))
    (ValueError "draft coverage sequence IDs/order do not match the plan") ;;;
  raise_if (negb (bool_decide (dom coverage = list_to_set planned_ids)))
    (ValueError "draft coverage IDs do not exactly match the plan") ;;;
  lift (ofor_each (check_stage_row plan coverage) qs) ;;;
  let* staged := lift (omap_all (λ id, match coverage !! id with
    | Some v => Ok (id, v) | None => Raise KeyError end) planned_ids) in
  modify (λ s, set_pending (_pending_draft_coverage_plan s) (Some staged) s).

(** ** Preparing target writes *)

(** The transaction of a plan object. *)
Definition transaction_of (plan : plan_ref) (s : scheduler) : option ActiveSpecTransaction :=
  match _active_spec_transaction s with
  | Some t => if same_plan (tx_plan t) plan then Some t else None
  | None => None
  end.

Definition prepare_speculative_target_writes (plan : plan_ref) : MS unit :=
  let* s := get in
  match transaction_of plan s with
  | None => raise (RuntimeError "speculative target writes require the active transaction")
  | Some t =>
      when (negb (tx_target_writes_prepared t))
        (let* r := on_heap (prepare_temporary_target_writes (tx_reservation t)) in
         modify (set_active_draft (Some (plan, r))) ;;;
         modify (set_transaction
           (Some (mk_transaction (tx_plan t) r (tx_baseline_decode_rollback t) true))))
  end.

(** ** Committing a verified burst *)

(** The tokens of a burst that are committed: up to the completion limit and
    the first end-of-sequence token. *)
Fixpoint trim_burst (c : sched_config) (q : sequence) (taken : Z) (burst : list Z) : list Z :=
  match burst with
  | [] => []
  | t :: rest =>
      if sp_max_tokens (params q) <=? num_completion_tokens q + taken then [] else
      if negb (sp_ignore_eos (params q)) && (t =? eos c) then [t]
      else t :: trim_burst c q (taken + 1) rest
  end.

Record prepared_row := mk_prepared {
  pp_seq : nat;
  pp_result : SpecRowResult;
  pp_snapshot : SpecPlanRow;
  pp_tokens : list Z;
  pp_cached : Z;
  pp_draft_cached : Z;
}.

Definition prepare_row (c : sched_config) (k : Z) (s : nat) (q : sequence)
    (row : SpecRowResult) (snapshot : SpecPlanRow) : outcome prepared_row :=
  let tokens := trim_burst c q 0 (committed_token_ids row) in
  oraise_if (bool_decide (tokens = []))
    (ValueError "speculative commit has no completion headroom") ;?
  let cached := num_tokens q + Z.of_nat (length tokens) - 1 in
  Ok (mk_prepared s row snapshot tokens cached (Z.min cached (num_tokens q + k - 1))).

Fixpoint prepare_rows (c : sched_config) (k : Z) (ks : list nat) (qs : list sequence)
    (results : list SpecRowResult) (snapshots : list SpecPlanRow)
    : outcome (list prepared_row) :=
  match ks, qs, results, snapshots with
  | s :: ks', q :: qs', r :: rs', sn :: sns' =>
      let? p := prepare_row c k s q r sn in
      let? ps := prepare_rows c k ks' qs' rs' sns' in
      Ok (p :: ps)
  | _, _, _, _ => Ok []
  end.

(** Blocks kept per row: [ceil(cached / block_size)] less the table before. *)
Definition keep_count (bs : Z) (id : nat) (p : prepared_row)
    (lease_row : _TemporaryReservationRow) : nat * Z :=
  (id, (pp_cached p + bs - 1) `div` bs
       - Z.of_nat (length (row_block_table_before lease_row))).

Definition metric_updates (k : Z) (p : prepared_row) : spec_counters :=
  let n := Z.of_nat (length (pp_tokens p)) in
  let row := pp_result p in
  mk_spec_counters 1 k (Z.min (accepted_draft_tokens row) n) n
    (if used_bonus row && (n =? Z.of_nat (length (committed_token_ids row))) then 1 else 0)
    (k + target_cached_tokens (pp_snapshot p) - draft_cached_tokens (pp_snapshot p))
    (k + 1) (residual_numerical_fallbacks row).

(** Timestamps and counters of a committed burst. *)
Definition stamp_burst (now k : Z) (p : prepared_row) (q : sequence) : sequence :=
  let tm := times q in
  let tm := match first_token_time tm with
            | None => set_first_token_time (Some now) tm | Some _ => tm end in
  set_spec_metrics
    (Some (spec_counters_add (default spec_counters_zero (spec_metrics q)) (metric_updates k p)))
    (set_times (set_token_times
       (token_times tm ++ replicate (length (pp_tokens p)) now) tm) q).

Definition commit_prepared (now k : Z) (p : prepared_row) : MS unit :=
  let s := pp_seq p in
  for_each (λ t, set_seq s (append_token t)) (pp_tokens p) ;;;
  set_seq s (λ q, set_num_scheduled_tokens (pp_cached p - num_cached_tokens q) q) ;;;
  on_heap (hash_blocks compute_hash s) ;;;
  set_seq s (λ q, set_num_draft_cached_tokens (pp_draft_cached p)
                    (set_num_cached_tokens (pp_cached p) q)) ;;;
  set_seq s (set_num_scheduled_tokens 0) ;;;
  set_seq s (stamp_burst now k p) ;;;
  let* q := seq_at s in
  let* c := gets sc_config in
  when (stops c (List.last (pp_tokens p) 0) q)
    (set_seq s (λ q, set_times (set_finish_time (Some now) (times q)) q) ;;;
     set_seq s (set_status FINISHED) ;;;
     on_heap (deallocate s) ;;;
     running_remove s).

(** The events of one row. *)
Definition burst_events (p : prepared_row) : MS (list StreamOutput) :=
  let* q := seq_at (pp_seq p) in
  let n := length (pp_tokens p) in
  ret (imap (λ i t, mk_StreamOutput (seq_id q) t (is_finished q && (i =? n - 1)%nat))
         (pp_tokens p)).

(** The handler of the commit: sequences, allocator and queues as saved. *)
Definition restore_block_from (saved b : block) : block :=
  mk_block (b_block_id b) (b_ref_count saved) (b_hash saved) (b_token_ids saved).

Definition restore_commit (saved_seqs : list (nat * sequence)) (s0 s : scheduler) : scheduler :=
  let m0 := hp_bm (sc_heap s0) in
  set_running (running s0) (set_waiting (waiting s0)
    (set_heap
      (set_bm (λ m,
        set_by_seq_id (_temporary_reservation_by_seq_id m0)
          (set_active (_active_temporary_reservations m0)
            (set_blocks (zip_with restore_block_from (blocks m0) (blocks m))
              (set_hash_to_block_id (hash_to_block_id m0)
                (set_used_block_ids (used_block_ids m0)
                  (set_free_block_ids (free_block_ids m0) m))))))
        (set_seqs (λ ss, foldl (λ ss '(k, q), <[k := q]> ss) ss saved_seqs) (sc_heap s)))
      s)).

(** The [try] body of the commit. *)
Definition commit_body (now k : Z) (t : ActiveSpecTransaction) (ids : list nat)
    (prepared : list prepared_row) : MS (list StreamOutput) :=
  let* c := gets sc_config in
  let keep := zip_with (λ ip lease_row, keep_count (sc_block_size c) ip.1 ip.2 lease_row)
                (zip ids prepared) (rv_rows (tx_reservation t)) in
  let* finalized := on_heap (finalize_temporary_append (tx_reservation t) keep) in
  raise_if (negb finalized)
    (RuntimeError "speculative commit did not finalize its lease") ;;;
  for_each (commit_prepared now k) prepared ;;;
  let* events := map_all burst_events prepared in
  ret (concat events).

Definition commit_speculative (plan : plan_ref) (result : SpecExecutionResult)
    : MS (list StreamOutput) :=
  let* s := get in
  match transaction_of plan s with
  | None =>
      raise (RuntimeError "speculative commit requires a prepared target-write transaction")
  | Some t =>
      raise_if (negb (tx_target_writes_prepared t))
        (RuntimeError "speculative commit requires a prepared target-write transaction") ;;;
      let ks := row_sequence <$> rv_rows (tx_reservation t) in
      raise_if (negb (bool_decide (ks = running s)))
        (ValueError "speculative commit must cover the scheduled running batch") ;;;
      match pr_plan (tx_plan t) with
      | DiscardPlan _ => raise Dangling
      | StepPlan p =>
          let* qs := map_all seq_at ks in
          lift (validate_result p result qs (vocab_size (sc_config s))) ;;;
          let k := plan_effective_k p in
          let* prepared := lift (prepare_rows (sc_config s) k ks qs (res_rows result) (rows p)) in
          let* now := read_clock clock in
          let* events := try_reraise (commit_body now k t (seq_id <$> qs) prepared)
                           (restore_commit (zip ks qs) s) in
          modify (set_active_draft None) ;;;
          modify (set_transaction None) ;;;
          ret events
      end
  end.
End spec_scheduler.
