(* ===== verification/SpecCommit.v ===== *)
(** * SpecCommit: the atomic commit of a verified burst

    [commit_speculative] against the scheduler's invariant.  The loop over the
    rows is proved against the allocator's contract: [burst_inv todo] holds
    while the rows of [todo] still have to be committed. *)
From S2P Require Import Prelude SamplingParams Sequence Heap BlockManager Reservation SpecMemory.
From S2P Require Import SpecRoutes SpecPlan SpecResult Scheduler SpecScheduler AllocatorInv CacheInv.
From S2P Require Import KVContract SchedInv Frame StepSpec.

(** ** The tokens of a burst *)

Definition append_all (toks : list Z) (q : sequence) : sequence :=
  foldl (λ q t, append_token t q) q toks.

Lemma append_all_spec toks q :
  seq_wf q →
  seq_wf (append_all toks q) ∧ token_ids (append_all toks q) = token_ids q ++ toks ∧
  num_tokens (append_all toks q) = num_tokens q + Z.of_nat (length toks) ∧
  completion_token_ids (append_all toks q) = completion_token_ids q ++ toks.
Proof.
  revert q. induction toks as [|t toks IH]; intros q Hwf; simpl.
  { rewrite !app_nil_r. split_and!; try done. lia. }
  destruct (IH _ (append_token_wf t q Hwf)) as (H1 & H2 & H3 & H4).
  destruct (append_token_tokens t q Hwf) as (_ & E & _). split_and!; [done| | |].
  - rewrite H2. simpl. by rewrite <-(assoc_L (++)).
  - rewrite H3. simpl. lia.
  - by rewrite H4, E, <-(assoc_L (++)).
Qed.

(** The other attributes. *)
Lemma append_all_attr toks q :
  block_table (append_all toks q) = block_table q ∧ seq_id (append_all toks q) = seq_id q ∧
  num_cached_tokens (append_all toks q) = num_cached_tokens q ∧
  num_prompt_tokens (append_all toks q) = num_prompt_tokens q ∧
  params (append_all toks q) = params q ∧ status (append_all toks q) = status q ∧
  times (append_all toks q) = times q ∧ spec_metrics (append_all toks q) = spec_metrics q.
Proof.
  revert q. induction toks as [|t toks IH]; intros q; [done|]. exact (IH (append_token t q)).
Qed.

Section commit.
Context (compute_hash : list Z → Z → Z) (clock : nat → Z) (I : heap → Prop)
  `{!KVAllocator compute_hash I}.
#[local] Abbreviation sinv := (sinv I).

(** ** One row *)

(** A row whose burst is decided: a started decode row, whose table already
    covers the positions it will have cached. *)
Record burst_ready (bs : Z) (p : prepared_row) (q : sequence) : Prop := {
  br_started : started q;
  br_tokens : pp_tokens p ≠ [];
  br_behind : 0 <= num_cached_tokens q ∧ num_cached_tokens q + 1 = num_tokens q;
  br_cached : pp_cached p = num_tokens q + Z.of_nat (length (pp_tokens p)) - 1;
  br_table : Z.of_nat (length (block_table q)) = ceil_div (pp_cached p) bs;
}.

Record burst_inv (todo : list prepared_row) (s : scheduler) : Prop := {
  bi_heap : I (sc_heap s);
  bi_bs : bsz s = sc_block_size (sc_config s) ∧ 1 < bsz s;
  bi_nodup : NoDup (waiting s ++ running s);
  bi_cap : Z.of_nat (length (waiting s ++ running s)) <= max_num_seqs (sc_config s);
  bi_mid : ∀ m, mid_chunk_seq s = Some m →
    head (waiting s) = Some m ∧ ∃ q, seqs s !! m = Some q ∧ block_table q ≠ [];
  bi_wait : ∀ k, k ∈ waiting s → ∃ q, seqs s !! k = Some q ∧
    wait_ok (bsz s) (mid_chunk_seq s) [] k q;
  bi_run : ∀ k, k ∈ running s → k ∉ pp_seq <$> todo → ∃ q, seqs s !! k = Some q ∧
    run_ok (bsz s) [] k q;
  bi_todo : ∀ p, p ∈ todo → pp_seq p ∈ running s ∧ ∃ q, seqs s !! pp_seq p = Some q ∧
    burst_ready (bsz s) p q;
  bi_owner : ∀ k q, seqs s !! k = Some q → k ∉ waiting s ++ running s → block_table q = [];
}.

(** Once every row is done and the transaction is closed, the scheduler is
    idle. *)
Lemma burst_inv_done s : burst_inv [] s → no_plans s → sinv [] [] s.
Proof.
  intros [] Hp. split; rewrite ?app_nil_r; try done.
  intros k Hk. apply bi_run0; [done|apply not_elem_of_nil].
Qed.

(** The sequence before its row is finished or stays. *)
Definition burst_row (now k : Z) (p : prepared_row) (q : sequence) : sequence :=
  stamp_burst now k p (set_num_scheduled_tokens 0
    (set_num_draft_cached_tokens (pp_draft_cached p) (set_num_cached_tokens (pp_cached p)
      (append_all (pp_tokens p) q)))).

Definition burst_final (c : sched_config) (p : prepared_row) (q : sequence) : bool :=
  stops c (List.last (pp_tokens p) 0) (append_all (pp_tokens p) q).

(** What the caller sees of a committed row. *)
Record burst_committed (now k : Z) (c : sched_config) (p : prepared_row) (q q' : sequence) : Prop := {
  bc_id : seq_id q' = seq_id q;
  bc_tokens : token_ids q' = token_ids q ++ pp_tokens p;
  bc_num : num_tokens q' = num_tokens q + Z.of_nat (length (pp_tokens p));
  bc_prompt : num_prompt_tokens q' = num_prompt_tokens q;
  bc_params : params q' = params q;
  bc_times : token_times (times q') =
    token_times (times q) ++ replicate (length (pp_tokens p)) now;
  bc_metrics : spec_metrics q' =
    Some (spec_counters_add (default spec_counters_zero (spec_metrics q)) (metric_updates k p));
  bc_final : if burst_final c p q
    then status q' = FINISHED ∧ finish_time (times q') = Some now ∧ block_table q' = []
    else status q' = RUNNING ∧ num_cached_tokens q' = pp_cached p ∧
         num_draft_cached_tokens q' = pp_draft_cached p;
}.

Lemma burst_row_attr now k p q :
  seq_wf q →
  seq_wf (burst_row now k p q) ∧ block_table (burst_row now k p q) = block_table q ∧
  seq_id (burst_row now k p q) = seq_id q ∧
  token_ids (burst_row now k p q) = token_ids q ++ pp_tokens p ∧
  num_tokens (burst_row now k p q) = num_tokens q + Z.of_nat (length (pp_tokens p)) ∧
  num_prompt_tokens (burst_row now k p q) = num_prompt_tokens q ∧
  params (burst_row now k p q) = params q ∧ status (burst_row now k p q) = status q ∧
  first_scheduled_time (times (burst_row now k p q)) = first_scheduled_time (times q) ∧
  token_times (times (burst_row now k p q)) =
    token_times (times q) ++ replicate (length (pp_tokens p)) now ∧
  spec_metrics (burst_row now k p q) =
    Some (spec_counters_add (default spec_counters_zero (spec_metrics q)) (metric_updates k p)).
Proof.
  intros Hwf. destruct (append_all_spec (pp_tokens p) q Hwf) as (Hwf' & Et & En & _).
  destruct (append_all_attr (pp_tokens p) q) as (E1 & E2 & E3 & E4 & E5 & E6 & E7 & E8).
  unfold burst_row, stamp_burst. simpl. rewrite E7, E8.
  split_and!; try done; [by destruct Hwf'|by destruct (first_token_time _)..].
Qed.

(** A write on an updated heap. *)
Lemma set_seq_at x f h s q : hp_seqs h !! x = Some q →
  set_seq x f (set_heap h s) = (Ok tt, set_heap (put_seq x (f q) h) s).
Proof. intros Hk. by rewrite (set_seq_ok x f (set_heap h s) q Hk). Qed.

(** The appends of the row. *)
Lemma append_loop s k toks q :
  seqs s !! k = Some q →
  for_each (λ t, set_seq k (append_token t)) toks s =
    (Ok tt, set_heap (put_seq k (append_all toks q) (sc_heap s)) s).
Proof.
  revert s q. induction toks as [|t toks IH]; intros s q Hk.
  { simpl. unfold ret. f_equal. destruct s as [c [b ss z] ? ? ? ? ? ? ? ? ?].
    unfold set_heap, put_seq, set_seqs. simpl in *. by rewrite insert_id. }
  cbn [for_each]. rewrite (bind_ok _ _ _ _ _ (set_seq_ok k _ s q Hk)).
  rewrite (IH _ (append_token t q)) by apply put_lookup. simpl. by rewrite put_put.
Qed.

(** The row up to the stop condition. *)
Lemma burst_row_run s p q now k :
  I (sc_heap s) → 0 < bsz s → seqs s !! pp_seq p = Some q → burst_ready (bsz s) p q →
  ∃ h', I h' ∧ block_size (hp_bm h') = bsz s ∧
    hp_seqs h' = <[pp_seq p := burst_row now k p q]> (seqs s) ∧
    commit_prepared compute_hash now k p s =
    (let* q := seq_at (pp_seq p) in
     let* c := gets sc_config in
     when (stops c (List.last (pp_tokens p) 0) q)
       (set_seq (pp_seq p) (λ q, set_times (set_finish_time (Some now) (times q)) q) ;;;
        set_seq (pp_seq p) (set_status FINISHED) ;;;
        on_heap (deallocate (pp_seq p)) ;;;
        running_remove (pp_seq p))) (set_heap h' s).
Proof.
  intros Hi Hbs Hk [Hst Hne [Hc0 Hc1] Hcach Htab]. set (x := pp_seq p) in *.
  destruct (kv_seq _ _ _ Hi Hk) as [Hid Hwf].
  destruct (append_all_spec (pp_tokens p) q Hwf) as (Hwf1 & Et1 & En1 & _).
  destruct (append_all_attr (pp_tokens p) q) as (A1 & A2 & A3 & _).
  set (q1 := append_all (pp_tokens p) q) in *.
  set (q2 := set_num_scheduled_tokens (pp_cached p - num_cached_tokens q1) q1).
  assert (I (put_seq x q2 (sc_heap s))) as Hi2.
  { apply (inv_put compute_hash I x q); try done. split; try done.
    - by eexists.
    - by destruct Hwf1. }
  assert (0 < Z.of_nat (length (pp_tokens p))) by (destruct (pp_tokens p); [done|simpl; lia]).
  assert (step_covered (bsz s) q2) as Hstep.
  { pose proof (ceil_div_spec (pp_cached p) (bsz s) Hbs). split_and!; simpl; rewrite ?A1, ?A3; lia. }
  destruct (kv_commit (put_seq x q2 (sc_heap s)) x q2 Hi2 (put_lookup _ _ _) Hstep)
    as (h1 & E1 & Hb1 & Hsq1 & Hi1).
  assert (hp_seqs h1 !! x = Some q2) as Hk1 by (rewrite Hsq1; apply lookup_insert_eq).
  exists (put_seq x (burst_row now k p q) h1).
  destruct (burst_row_attr now k p q Hwf) as (Hwf' & B1 & B2 & B3 & _).
  split; [|split; [done|split]].
  - match type of Hi1 with I (put_seq _ ?q3 _) => rewrite <-(put_put x _ q3 h1) end.
    apply (inv_put compute_hash I x _ _ _ Hi1 (put_lookup _ _ _)). split.
    + by rewrite B1.
    + by rewrite B2.
    + simpl. rewrite A3. lia.
    + exists []. by rewrite app_nil_r, B3.
    + done.
  - simpl. rewrite Hsq1. simpl. by rewrite insert_insert_eq.
  - unfold commit_prepared. fold x. rewrite (bind_ok _ _ _ _ _ (append_loop s x _ q Hk)). fold q1.
    rewrite (bind_ok _ _ _ _ _ (set_seq_at x _ _ s _ (put_lookup _ _ _))), put_put. fold q2.
    rewrite (bind_ok _ _ _ _ _ (on_heap_ok _ (set_heap (put_seq x q2 (sc_heap s)) s) _ _ E1)).
    rewrite (bind_ok _ _ _ _ _ (set_seq_at x _ h1 s _ Hk1)).
    rewrite (bind_ok _ _ _ _ _ (set_seq_at x _ _ s _ (put_lookup _ _ _))), put_put.
    rewrite (bind_ok _ _ _ _ _ (set_seq_at x _ _ s _ (put_lookup _ _ _))), put_put. done.
Qed.

(** The row's write, for the others. *)
Lemma burst_inv_write p todo s q' h' R :
  burst_inv (p :: todo) s → pp_seq p ∉ pp_seq <$> todo → pp_seq p ∈ running s →
  I h' → block_size (hp_bm h') = bsz s → hp_seqs h' = <[pp_seq p := q']> (seqs s) →
  (R = running s ∧ run_ok (bsz s) [] (pp_seq p) q' ∨
   R = filter (λ x, x ≠ pp_seq p) (running s) ∧ block_table q' = []) →
  burst_inv todo (set_running R (set_heap h' s)).
Proof.
  intros [Hi Hbs Hnd Hcap Hm Hw Hr Ht Ho] Hnt Hin Hi' Hb' Hsq HR. set (x := pp_seq p) in *.
  assert (x ∉ waiting s) as Hxw.
  { intros Hx. apply NoDup_app in Hnd as (_ & Hd & _). by apply (Hd x). }
  assert (∀ y, y ≠ x → y ∈ R ↔ y ∈ running s) as Hother.
  { intros y Hy. destruct HR as [[-> _]|[-> _]]; [done|]. rewrite list_elem_of_filter. tauto. }
  assert (R ⊆ running s) as Hsub.
  { destruct HR as [[-> _]|[-> _]]; [done|]. by intros y [_ ?]%list_elem_of_filter. }
  split; simpl; rewrite ?Hb'; try done.
  - destruct HR as [[-> _]|[-> _]]; [done|]. apply NoDup_app in Hnd as (N1 & N2 & N3).
    apply NoDup_app. split_and!; [done| |by apply NoDup_filter].
    intros y Hy [_ ?]%list_elem_of_filter. by apply (N2 y).
  - rewrite length_app in *. assert (length R <= length (running s))%nat; [|lia].
    destruct HR as [[-> _]|[-> _]]; [done|apply length_filter].
  - intros m Em. destruct (Hm m Em) as [Hh (q & Hq & Htq)]. split; [done|]. exists q.
    rewrite Hsq, lookup_insert_ne; [done|]. intros <-. destruct (waiting s); simplify_eq/=. set_solver.
  - intros y Hy. assert (y ≠ x) by (intros ->; done). rewrite Hsq, lookup_insert_ne by done. by apply Hw.
  - intros y Hy Hny. rewrite Hsq. destruct (decide (y = x)) as [->|Hne].
    + rewrite lookup_insert_eq. destruct HR as [[_ Hok]|[-> _]]; [by exists q'|].
      by apply list_elem_of_filter in Hy as [].
    + rewrite lookup_insert_ne by done. apply Hr; [by apply Hsub|]. set_solver.
  - intros p' Hp'. assert (pp_seq p' ≠ x) as Hne.
    { intros E. apply Hnt. rewrite <-E. apply list_elem_of_fmap. by exists p'. }
    destruct (Ht p' ltac:(set_solver)) as [Hin' Hq]. split; [by apply Hother|].
    by rewrite Hsq, lookup_insert_ne.
  - intros y qy. rewrite Hsq. destruct (decide (y = x)) as [->|Hne].
    + rewrite lookup_insert_eq. intros [= <-]. destruct HR as [[-> _]|[_ ?]]; [|done].
      intros Hn. exfalso. apply Hn. set_solver.
    + rewrite lookup_insert_ne by done. intros Hqy Hn. apply (Ho y qy Hqy).
      rewrite elem_of_app in Hn |- *. rewrite (Hother y Hne) in Hn. done.
Qed.

(** A finished row is released and leaves the queue. *)
Lemma burst_finish s x q now R :
  I (sc_heap s) → seqs s !! x = Some q → remove_first x (running s) = Some R →
  ∃ h' q', (set_seq x (λ q, set_times (set_finish_time (Some now) (times q)) q) ;;;
            set_seq x (set_status FINISHED) ;;;
            on_heap (deallocate x) ;;;
            running_remove x) s = (Ok tt, set_running R (set_heap h' s)) ∧ I h' ∧
    block_size (hp_bm h') = bsz s ∧ hp_seqs h' = <[x := q']> (seqs s) ∧
    same_request (finish_stamp now q) q' ∧ status q' = FINISHED ∧ block_table q' = [] ∧
    spec_metrics q' = spec_metrics q.
Proof.
  intros Hi Hk HR. destruct (kv_seq _ _ _ Hi Hk) as [_ Hwf].
  rewrite (bind_ok _ _ _ _ _ (set_seq_ok x _ s q Hk)).
  rewrite (bind_ok _ _ _ _ _ (set_seq_at x _ _ s _ (put_lookup _ _ _))), put_put.
  set (qf := set_status FINISHED _).
  assert (I (put_seq x qf (sc_heap s))) as Hif
    by (apply (inv_put compute_hash I x q); try done; by apply evolves_attr).
  destruct (kv_free _ x qf Hif (put_lookup _ _ _)) as (h2 & Ef & Hi2 & Hb2 & Hsq2).
  rewrite (bind_ok _ _ _ _ _ (on_heap_ok _ (set_heap (put_seq x qf (sc_heap s)) s) _ _ Ef)).
  eexists h2, _. split; [|split_and!; [done|done|by rewrite Hsq2; apply insert_insert_eq|..]]; try done.
  unfold running_remove, bind, get. simpl. by rewrite HR.
Qed.

Lemma commit_prepared_ok now k p todo s q :
  burst_inv (p :: todo) s → pp_seq p ∉ pp_seq <$> todo → seqs s !! pp_seq p = Some q →
  ∃ h' q', commit_prepared compute_hash now k p s =
      (Ok tt, set_running (if burst_final (sc_config s) p q
         then filter (λ x, x ≠ pp_seq p) (running s) else running s) (set_heap h' s)) ∧
    burst_inv todo (set_running (if burst_final (sc_config s) p q
         then filter (λ x, x ≠ pp_seq p) (running s) else running s) (set_heap h' s)) ∧
    hp_seqs h' = <[pp_seq p := q']> (seqs s) ∧ burst_committed now k (sc_config s) p q q'.
Proof.
  intros Hs Hnt Hk. pose proof Hs as [Hi [_ Hbs] Hnd _ _ _ _ Ht _].
  destruct (Ht p ltac:(set_solver)) as [Hin (q0 & Hq0 & Hready)].
  assert (q0 = q) as -> by congruence. pose proof Hready as [Hst Hne [Hc0 Hc1] Hcach Htab].
  destruct (kv_seq _ _ _ Hi Hk) as [Hid Hwf].
  destruct (burst_row_run s p q now k Hi ltac:(lia) Hk Hready) as (h1 & Hi1 & Hb1 & Hsq1 & E).
  destruct (burst_row_attr now k p q Hwf) as (Hwf' & B1 & B2 & B3 & B4 & B5 & B6 & B7 & B8 & B9 & B10).
  set (x := pp_seq p) in *. set (q1 := burst_row now k p q) in *.
  assert (hp_seqs h1 !! x = Some q1) as Hk1 by (rewrite Hsq1; apply lookup_insert_eq).
  rewrite (bind_ok _ _ _ _ _ (seq_at_ok x (set_heap h1 s) q1 Hk1)) in E.
  erewrite bind_ok in E; [|reflexivity].
  assert (stops (sc_config (set_heap h1 s)) (List.last (pp_tokens p) 0) q1 =
    burst_final (sc_config s) p q) as Est.
  { unfold burst_final, stops, num_completion_tokens.
    destruct (append_all_spec (pp_tokens p) q Hwf) as (_ & _ & En & _).
    destruct (append_all_attr (pp_tokens p) q) as (_ & _ & _ & Ep & Epar & _).
    by rewrite B4, B5, B6, En, Ep, Epar. }
  rewrite Est in E. destruct (burst_final (sc_config s) p q) eqn:Ef; cbn [when] in E.
  - apply NoDup_app in Hnd as (_ & _ & Hnd).
    pose proof (remove_first_member x (running s) Hnd Hin) as HR.
    destruct (burst_finish (set_heap h1 s) x q1 now _ Hi1 Hk1 HR)
      as (h2 & q2 & E2 & Hi2 & Hb2 & Hsq2 & Hsr & Hst2 & Ht2 & Hm2).
    assert (hp_seqs h2 = <[x := q2]> (seqs s)) as Hsq.
    { rewrite Hsq2. simpl. by rewrite Hsq1, insert_insert_eq. }
    exists h2, q2. split; [rewrite E, E2; done|]. split; [|split; [done|]].
    + apply (burst_inv_write p todo s q2 h2); try done; [|by right]. simpl in Hb2. congruence.
    + destruct Hsr as [S1 S2 _ S4 S5 S6 S7 _ S9 _]. simpl in *.
      split; try congruence. rewrite Ef. by rewrite S9.
  - exists h1, q1. split; [rewrite E; by destruct s|]. split; [|split; [done|]].
    + apply (burst_inv_write p todo s q1 h1); try done. left. split; [done|].
      split; [split; [by destruct Hst; congruence|rewrite B8; by destruct Hst]|].
      assert (num_cached_tokens q1 = pp_cached p ∧ num_scheduled_tokens q1 = 0) as [C1 C2] by done.
      assert (0 < Z.of_nat (length (pp_tokens p))) by (destruct (pp_tokens p); [done|simpl; lia]).
      split; [|rewrite decide_False by apply not_elem_of_nil; lia].
      split; rewrite ?C1, ?C2, ?B1, ?B4, ?Z.add_0_r; lia.
    + split; try done. rewrite Ef. split; [by rewrite B7; destruct Hst|done].
Qed.

(** The rows a commit finishes. *)
Definition burst_finished (s : scheduler) (todo : list prepared_row) : list nat :=
  pp_seq <$> filter (λ p, match seqs s !! pp_seq p with
    | Some q => burst_final (sc_config s) p q | None => false end = true) todo.

Lemma burst_finished_ext s s' todo :
  sc_config s' = sc_config s → (∀ p, p ∈ todo → seqs s' !! pp_seq p = seqs s !! pp_seq p) →
  burst_finished s' todo = burst_finished s todo.
Proof.
  intros Hc Hsq. unfold burst_finished. f_equal. induction todo as [|p todo IH]; [done|].
  rewrite !filter_cons, IH by (intros; apply Hsq; set_solver). by rewrite Hc, Hsq by set_solver.
Qed.

Lemma commit_all_ok now k todo s :
  burst_inv todo s → NoDup (pp_seq <$> todo) →
  ∃ h', let s' := set_running (filter (λ x, x ∉ burst_finished s todo) (running s)) (set_heap h' s) in
    for_each (commit_prepared compute_hash now k) todo s = (Ok tt, s') ∧ burst_inv [] s' ∧
    (∀ x, x ∉ pp_seq <$> todo → hp_seqs h' !! x = seqs s !! x) ∧
    ∀ p q, p ∈ todo → seqs s !! pp_seq p = Some q →
      ∃ q', hp_seqs h' !! pp_seq p = Some q' ∧ burst_committed now k (sc_config s) p q q'.
Proof.
  revert s. induction todo as [|p todo IH]; intros s Hs Hnd.
  { exists (sc_heap s). simpl. rewrite filter_all by (intros; apply not_elem_of_nil).
    assert (set_running (running s) (set_heap (sc_heap s) s) = s) as -> by (by destruct s).
    split_and!; try done. set_solver. }
  rewrite fmap_cons in Hnd. apply NoDup_cons in Hnd as [Hp Hnd].
  destruct (bi_todo _ _ Hs p ltac:(set_solver)) as [_ (q & Hq & _)].
  destruct (commit_prepared_ok now k p todo s q Hs Hp Hq) as (h1 & q1 & E1 & Hs1 & Hsq1 & Hc1).
  set (s1 := set_running _ _) in *.
  assert (∀ p', p' ∈ todo → pp_seq p' ≠ pp_seq p) as Hne.
  { intros p' Hp' E. apply Hp. rewrite <-E. apply list_elem_of_fmap. by exists p'. }
  destruct (IH s1 Hs1 Hnd) as (h2 & E2 & Hs2 & Ho2 & Hr2).
  assert (burst_finished s1 todo = burst_finished s todo) as Ebf.
  { apply burst_finished_ext; [done|]. intros p' Hp'. simpl. rewrite Hsq1, lookup_insert_ne; [done|].
    symmetry. by apply Hne. }
  assert (set_running (filter (λ x, x ∉ burst_finished s1 todo) (running s1)) (set_heap h2 s1) =
    set_running (filter (λ x, x ∉ burst_finished s (p :: todo)) (running s)) (set_heap h2 s)) as Es.
  { assert (burst_finished s (p :: todo) = (if burst_final (sc_config s) p q then [pp_seq p] else [])
      ++ burst_finished s todo) as Econs.
    { unfold burst_finished. rewrite filter_cons, Hq. by destruct (burst_final (sc_config s) p q). }
    rewrite Ebf, Econs. unfold s1. destruct (burst_final (sc_config s) p q); simpl; [|done].
    rewrite list_filter_filter. unfold set_running, set_heap. simpl. f_equal.
    apply list_filter_iff. intros x. rewrite not_elem_of_cons. tauto. }
  rewrite Es in *. exists h2. split; [rewrite <-E2; cbn [for_each]; by rewrite (bind_ok _ _ _ _ _ E1)|].
  split; [done|]. split.
  - intros x Hx. rewrite fmap_cons in Hx. rewrite Ho2 by set_solver. simpl.
    rewrite Hsq1, lookup_insert_ne; [done|]. set_solver.
  - intros p' q' [->|Hp']%elem_of_cons Hq'.
    + assert (q' = q) as -> by congruence. exists q1. rewrite Ho2 by done. simpl.
      by rewrite Hsq1, lookup_insert_eq.
    + apply (Hr2 p' q' Hp'). simpl. rewrite Hsq1, lookup_insert_ne; [done|].
      symmetry. by apply Hne.
Qed.
End commit.
