(* ===== verification/SpecFrame.v ===== *)
(** * SpecFrame: what speculation can never change

    The frame of the speculative operations, by the structure of the code:
    whatever they decide or raise, the configuration, the pool and the set of
    stored sequences stay. *)
From S2P Require Import Prelude SamplingParams Sequence Heap BlockManager Reservation SpecMemory.
From S2P Require Import SpecRoutes SpecPlan SpecResult Scheduler SpecScheduler Frame.

(** ** Leases *)

Section heap.

#[local] Hint Resolve frame_unpublish keeps_active keeps_fence keeps_allocate_block : keeps.

Lemma frame_flags b c h : heap_frame h (set_bm (λ m, set_in_progress b (set_internal c m)) h).
Proof. by apply frame_bm. Qed.

Lemma frame_index idx act h :
  heap_frame h (set_bm (λ m, set_by_seq_id idx (set_active act m)) h).
Proof. by apply frame_bm. Qed.

Lemma frame_snapshot rows free used hashes sts h h' :
  heap_frame h h' → heap_frame h (_restore_temporary_snapshot rows free used hashes sts h').
Proof. intros Hf. transitivity h'; [done|apply frame_restore]. Qed.

#[local] Hint Resolve frame_flags frame_index frame_snapshot frame_restore : keeps.

Lemma keeps_reserve_rows specs ids : keeps heap_frame (reserve_rows specs ids).
Proof. unfold reserve_rows, reserve_row, allocate_internal. keeps_auto. by apply frame_bm. Qed.

Lemma keeps_publish rows free used hashes sts :
  keeps heap_frame (publish_reservation rows free used hashes sts).
Proof. unfold publish_reservation. keeps_auto. Qed.
#[local] Hint Resolve keeps_reserve_rows keeps_publish : keeps.

Lemma keeps_reserve rows : keeps heap_frame (reserve_temporary_append rows).
Proof. unfold reserve_temporary_append, reserve_body. keeps_auto. Qed.

Lemma keeps_apply_final r f : keeps heap_frame (apply_final r f).
Proof. unfold apply_final. keeps_auto. Qed.
#[local] Hint Resolve keeps_apply_final : keeps.

Lemma frame_restore_live rows sts m h : heap_frame h (restore_live rows sts m h).
Proof.
  unfold restore_live. etransitivity; [apply frame_restore|]. apply frame_index.
Qed.
#[local] Hint Resolve frame_restore_live : keeps.

Lemma keeps_finalize r items : keeps heap_frame (finalize_temporary_append r items).
Proof. unfold finalize_temporary_append. keeps_auto. Qed.

Lemma keeps_prepare_target r : keeps heap_frame (prepare_temporary_target_writes r).
Proof. unfold prepare_temporary_target_writes. keeps_auto. Qed.
End heap.
#[export] Hint Resolve keeps_reserve keeps_finalize keeps_prepare_target : keeps.

(** ** The scheduler's speculative operations *)

Section sched.
Context (compute_hash : list Z → Z → Z) (clock : nat → Z) (torch : torch_dtypes)
  (sha256_hexdigest : payload → string).

Lemma keeps_try_handler {S A} (P : relation S) `{!PreOrder P} (m : M S A) h :
  keeps P m → keeps P h → keeps P (try_handler m h).
Proof.
  intros Hm Hh s. specialize (Hm s). unfold try_handler. destruct (m s) as [[a|e] t]; [done|].
  simpl in Hm. specialize (Hh t). destruct (h t) as [[[]|e'] u]; (by transitivity t).
Qed.

#[local] Hint Resolve keeps_set_seq_pool keeps_read_clock_pool : keeps.
#[local] Hint Extern 1 (keeps pool_frame (on_heap _)) =>
  (apply keeps_on_heap_pool; solve [eauto with keeps]) : keeps.
#[local] Hint Extern 1 (keeps pool_frame (seq_at _)) => (apply keeps_on_heap_pool, keeps_get_seq) : keeps.
#[local] Hint Extern 1 (pool_frame _ _) =>
  (split; first [reflexivity|done|simpl; lia]) : keeps.

Lemma keeps_capture ks pre : keeps pool_frame (capture_decode_schedule_rollback ks pre).
Proof. unfold capture_decode_schedule_rollback. keeps_auto. Qed.

Lemma keeps_next_cycle : keeps pool_frame next_cycle_id.
Proof. unfold next_cycle_id. keeps_auto. Qed.

Lemma keeps_open cycle ks p rb r : keeps pool_frame (open_transaction cycle ks p rb r).
Proof. unfold open_transaction. apply keeps_try_handler; [apply _|keeps_auto..]. Qed.
#[local] Hint Resolve keeps_capture keeps_next_cycle keeps_open : keeps.

Lemma keeps_plan_positive c cycle ks rs cap w k key rb :
  keeps pool_frame (plan_positive_step torch sha256_hexdigest c cycle ks rs cap w k key rb).
Proof. unfold plan_positive_step. keeps_auto. Qed.
#[local] Hint Resolve keeps_plan_positive : keeps.

Lemma plan_step_frame ks w a b :
  keeps pool_frame (plan_speculative_step torch sha256_hexdigest ks w a b).
Proof. unfold plan_speculative_step. keeps_auto. Qed.

Lemma prepare_frame plan : keeps pool_frame (prepare_speculative_target_writes plan).
Proof. unfold prepare_speculative_target_writes. keeps_auto. Qed.

Lemma keeps_commit_prepared now k p : keeps pool_frame (commit_prepared compute_hash now k p).
Proof. unfold commit_prepared, running_remove. keeps_auto. Qed.

Lemma keeps_burst_events p : keeps pool_frame (burst_events p).
Proof. unfold burst_events. keeps_auto. Qed.
#[local] Hint Resolve keeps_commit_prepared keeps_burst_events : keeps.

Lemma commit_body_frame now k t ids ps : keeps pool_frame (commit_body compute_hash now k t ids ps).
Proof. unfold commit_body. keeps_auto. Qed.
End sched.
