(* ===== verification/CommitSpec.v ===== *)
(** * CommitSpec: a speculative step against the block manager

    The transaction of a speculative decode step, instantiated with the block
    manager's own invariant [kv_inv]: the lease the plan takes and the commit of
    a validated result, which always succeeds and leaves the scheduler idle. *)
From S2P Require Import Prelude SamplingParams Sequence Heap BlockManager Reservation SpecMemory.
From S2P Require Import SpecRoutes SpecPlan PlanSpec SpecResult ResultSpec Scheduler SpecScheduler.
From S2P Require Import AllocatorInv BlockManagerInv BlockManagerSpec ReservationInv ReservationSpec.
From S2P Require Import FinalizeSpec CacheInv KVContract SchedInv Frame SpecFrame StepSpec SpecCommit.

(** ** The trimmed burst *)

(** The tokens up to the first end-of-sequence token, that one included. *)
Fixpoint through_eos (e : Z) (l : list Z) : list Z :=
  match l with
  | [] => []
  | t :: l' => if t =? e then [t] else t :: through_eos e l'
  end.

(** What a burst with room for all its tokens commits. *)
Definition kept_burst (c : sched_config) (q : sequence) (burst : list Z) : list Z :=
  if sp_ignore_eos (params q) then burst else through_eos (eos c) burst.

Lemma trim_burst_fits c q n burst :
  num_completion_tokens q + n + Z.of_nat (length burst) <= sp_max_tokens (params q) →
  trim_burst c q n burst = kept_burst c q burst.
Proof.
  unfold kept_burst. revert n. induction burst as [|t burst IH]; intros n Hn; simpl in *.
  { by destruct (sp_ignore_eos _). }
  rewrite (proj2 (Z.leb_gt _ _)) by lia. rewrite IH by lia.
  destruct (sp_ignore_eos _); simpl; [done|]. by destruct (t =? eos c).
Qed.

Lemma through_eos_length e l : (length (through_eos e l) <= length l)%nat.
Proof. induction l as [|t l IH]; simpl; [lia|]. destruct (t =? e); simpl; lia. Qed.

Lemma kept_burst_length c q burst :
  burst ≠ [] → (0 < length (kept_burst c q burst) <= length burst)%nat.
Proof.
  intros Hne. unfold kept_burst. destruct burst as [|t l]; [done|].
  destruct (sp_ignore_eos _); [simpl; lia|]. pose proof (through_eos_length (eos c) (t :: l)).
  split; [|done]. simpl. destruct (t =? eos c); simpl; lia.
Qed.

(** ** The manager's invariant under a lease *)

Section lease.
Context (compute_hash : list Z → Z → Z).
#[local] Abbreviation kv_inv := (kv_inv compute_hash).
#[local] Abbreviation cache_ok := (cache_ok compute_hash).

(** A block in a table is not free. *)
Lemma table_not_free h k q i :
  alloc_ok none h → hp_seqs h !! k = Some q → i ∈ block_table q → i ∉ free_block_ids (hp_bm h).
Proof.
  intros Hok Hk Hi Hf. pose proof (ok_table _ _ Hok _ _ _ Hk Hi) as Hlt.
  apply (alloc_ok_free_iff _ _ Hok Hlt) in Hf. pose proof (refs_ge _ _ _ i Hk).
  apply count_pos in Hi. lia.
Qed.

(** New blocks at the end of a table are uncached ones. *)
Lemma seq_covered_extended h q new :
  0 < block_size (hp_bm h) → seq_covered compute_hash h q →
  (∀ i, i ∈ new → blocks (hp_bm h) !! i = Some (fresh_block i)) →
  seq_covered compute_hash h (set_block_table (block_table q ++ new) q).
Proof.
  intros Hbs [Hb Ht Hp] Hnew. split; simpl; [done|rewrite length_app; nia|].
  intros j i Hj. apply lookup_app_Some in Hj as [Hj|[Hlen Hj]]; [by apply Hp|].
  exists (fresh_block i). split; [apply Hnew; by eapply list_elem_of_lookup_2|].
  unfold position_ok. simpl. rewrite (proj2 (Z.leb_gt _ _)) by nia. done.
Qed.

Lemma cache_ok_grown_rows h h' ps :
  alloc_ok none h → cache_ok h → NoDup ps.*1 → grown_rows ps h h' → cache_ok h'.
Proof.
  intros Hok Hc Hnd Hg k' s' Hk'. rewrite (gg_seqs _ _ _ Hg) in Hk'.
  pose proof (fr_size _ _ (gg_frame _ _ _ Hg)) as Hbs. destruct (ok_size _ _ Hok) as [Hbs0 _].
  destruct (append_rows_inv _ _ _ _ Hnd Hk') as (s & Hk & Hcase).
  assert (seq_covered compute_hash h' s) as Hs.
  { apply (seq_covered_same compute_hash h); [done| |by eapply Hc].
    intros i Hi. apply (gg_old _ _ _ Hg). intros Hin.
    by apply (table_not_free h k' s i), (gg_sub _ _ _ Hg). }
  destruct Hcase as [[_ ->]|(new & Hin & ->)]; [done|].
  apply seq_covered_extended; [by rewrite Hbs|done|].
  intros i Hi. apply (gg_new _ _ _ Hg). apply list_elem_of_bind. by exists (k', new).
Qed.

Lemma kv_bump h : kv_inv h → kv_inv (bump h).
Proof.
  intros (Hok & Hq & Hc). split; [by apply bump_ok|]. split; [by apply bump_quiescent|].
  intros k s Hk. by apply (seq_covered_same compute_hash h), (Hc k).
Qed.

(** Forgetting the cached content of free blocks. *)
Lemma kv_forget h ids :
  kv_inv h → (∀ i, i ∈ ids → i ∈ free_block_ids (hp_bm h)) → kv_inv (forget ids h).
Proof.
  intros (Hok & Hq & Hc) Hfree.
  split; [by apply forget_ok|]. split; [by apply forget_quiescent|].
  intros k s Hk. apply (seq_covered_same compute_hash h); [done| |by apply (Hc k)].
  intros i Hi. rewrite forget_block_lookup, decide_False.
  - by destruct (blocks _ !! i).
  - intros Hin. by apply (table_not_free h k s i), Hfree.
Qed.

(** The blocks of a lease come from the free list. *)
Lemma lease_free h r h' :
  leased h r h' → ∀ i, i ∈ rv_allocation_order r → i ∈ free_block_ids (hp_bm h).
Proof. intros [_ _ _ _ _ _ _ (h2 & _ & E & _)] i Hi. rewrite E. set_solver. Qed.

Lemma kv_finalized h r h' items :
  kv_inv h → leased h r h' → counts_ok r items →
  ∃ h2, finalize_temporary_append r items h' = (Ok true, h2) ∧ kv_inv h2 ∧
    grown_rows (kept_rows r items) (bump h) h2.
Proof.
  intros (Hok & Hq & Hc) Hl Hcounts. pose proof (finalize_run h r h' items Hok Hq Hl) as Hw.
  unfold wp in Hw. destruct (finalize_temporary_append r items h') as [[ok|e] h2]; [|tauto].
  destruct Hw as (-> & _ & Hg & Hq2). exists h2. split; [done|]. split; [|done].
  split; [exact (kept_rows_ok h r h' items h2 Hok Hl Hg)|]. split; [done|].
  apply (cache_ok_grown_rows (bump h) h2 (kept_rows r items)); try done.
  - by apply bump_ok.
  - apply kv_bump. by split.
  - unfold kept_rows. rewrite kept_pair_fst. apply Hl.
Qed.
End lease.

(** ** Reading the rows *)

Lemma read_all ks s :
  (∀ k, k ∈ ks → is_Some (seqs s !! k)) →
  ∃ qs, map_all seq_at ks s = (Ok qs, s) ∧ Forall2 (λ k q, seqs s !! k = Some q) ks qs.
Proof.
  induction ks as [|k ks IH]; intros Hks; [by exists []|].
  destruct (Hks k ltac:(set_solver)) as [q Hq]. destruct IH as (qs & E & Hqs); [set_solver|].
  exists (q :: qs). split; [|by constructor]. cbn [map_all].
  rewrite (bind_ok _ _ _ _ _ (seq_at_ok k s q Hq)). by rewrite (bind_ok _ _ _ _ _ E).
Qed.

(** Members of a list without repeated keys. *)
Lemma NoDup_key {A} (f : A → nat) l x y :
  NoDup (f <$> l) → x ∈ l → y ∈ l → f x = f y → x = y.
Proof.
  induction l as [|a l IH]; [set_solver|]. rewrite fmap_cons, NoDup_cons.
  intros [Hn Hnd] Hx Hy E.
  apply elem_of_cons in Hx as [->|Hx], Hy as [->|Hy]; try done; [| |by apply IH].
  - destruct Hn. rewrite E. by apply list_elem_of_fmap_2.
  - destruct Hn. rewrite <-E. by apply list_elem_of_fmap_2.
Qed.

(** ** An open transaction *)

Section commit.
Context (compute_hash : list Z → Z → Z)
  (compute_hash_nonneg : ∀ toks p, 0 <= compute_hash toks p).
#[local] Abbreviation kv_inv := (kv_inv compute_hash).

#[local] Instance manager : KVAllocator compute_hash kv_inv :=
  block_manager_contract compute_hash compute_hash_nonneg.

(** The tables of the lease cover the whole burst of every row. *)
Definition lease_room (bs k : Z) (ss : gmap nat sequence) (row : _TemporaryReservationRow) : Prop :=
  ∀ q, ss !! row_sequence row = Some q →
    ceil_div (num_tokens q + k) bs <=
      Z.of_nat (length (block_table q) + length (row_appended_block_ids row)).

(** The undo record of a decode batch. *)
Definition decode_record (s : scheduler) (rollback : DecodeScheduleRollback) : Prop :=
  ∃ qs, Forall2 (λ k q, seqs s !! k = Some q) (running s) qs ∧
    Forall (λ q, pure_decode_row q = true) qs ∧
    rollback = zip_with (capture_row (sc_config s)) (running s) qs.

(** [s] is the scheduler [s0], whose whole running queue is scheduled for
    decode, with the transaction [t] of the positive plan [p] open; [w] tells
    whether its target writes are prepared. *)
Record tx_open (w : bool) (s0 : scheduler) (p : SpecStepPlan) (t : ActiveSpecTransaction)
    (s : scheduler) : Prop := {
  bo_sched : sinv kv_inv [] (running s0) s0;
  bo_queues : waiting s = waiting s0 ∧ running s = running s0 ∧
    mid_chunk_seq s = mid_chunk_seq s0 ∧ sc_config s = sc_config s0;
  bo_pending : _pending_draft_coverage_plan s = None;
  bo_tx : _active_spec_transaction s = Some t;
  bo_writes : tx_target_writes_prepared t = w;
  bo_plan : pr_plan (tx_plan t) = StepPlan p;
  bo_positive : SpecStepPlan_post_init p = Ok tt ∧ 0 < plan_effective_k p;
  bo_rows : row_sequence <$> rv_rows (tx_reservation t) = running s0;
  bo_lease : ∃ base, kv_inv base ∧ hp_seqs base = seqs s0 ∧
    block_size (hp_bm base) = bsz s0 ∧ leased base (tx_reservation t) (sc_heap s);
  bo_room : ∀ row, row ∈ rv_rows (tx_reservation t) →
    lease_room (bsz s0) (plan_effective_k p) (seqs s0) row;
  bo_active : ∃ plan, _active_draft_discard s = Some (plan, tx_reservation t) ∧
    same_plan plan (tx_plan t) = true;
  bo_undo : decode_record s0 (tx_baseline_decode_rollback t);
}.

Abbreviation burst_open := (tx_open true).

(** What [prepare_row] makes of a row whose result was validated. *)
Record row_prepared (c : sched_config) (k : Z) (x : nat) (q : sequence) (r : SpecRowResult)
    (p : prepared_row) : Prop := {
  rp_seq : pp_seq p = x;
  rp_result : pp_result p = r;
  rp_tokens : pp_tokens p = kept_burst c q (committed_token_ids r);
  rp_length : 1 <= Z.of_nat (length (pp_tokens p)) <= k + 1;
  rp_cached : pp_cached p = num_tokens q + Z.of_nat (length (pp_tokens p)) - 1;
  rp_draft : pp_draft_cached p = Z.min (pp_cached p) (num_tokens q + k - 1);
}.

Lemma prepare_row_run c k x q sn r vocab :
  row_result_ok k vocab sn r q → k < remaining_completion_tokens sn →
  ∃ p, prepare_row c k x q r sn = Ok p ∧ row_prepared c k x q r p ∧ pp_snapshot p = sn.
Proof.
  intros [_ Hsn Ha _ _ Hp [t Hb] _] Hk. pose proof (sn_remaining _ _ Hsn) as Hrem.
  assert (Z.of_nat (length (committed_token_ids r)) = accepted_draft_tokens r + 1) as Hlen.
  { rewrite Hb, length_app, length_take. simpl. lia. }
  assert (committed_token_ids r ≠ []) as Hne by (intros E; rewrite E in Hlen; simpl in Hlen; lia).
  pose proof (kept_burst_length c q _ Hne).
  unfold prepare_row. rewrite trim_burst_fits by lia. rewrite bool_decide_eq_false_2.
  - eexists. split; [reflexivity|]. split; [|done]. split; simpl; try done. lia.
  - intros E. rewrite E in *. simpl in *. lia.
Qed.

(** The rows together. *)
Lemma prepare_rows_run c k vocab ks qs rs sns :
  length ks = length qs → Forall3 (row_result_ok k vocab) sns rs qs →
  (∀ sn, sn ∈ sns → k < remaining_completion_tokens sn) →
  ∃ ps, prepare_rows c k ks qs rs sns = Ok ps ∧ pp_seq <$> ps = ks ∧
    pp_result <$> ps = rs ∧ Forall2 (λ q p, row_prepared c k (pp_seq p) q (pp_result p) p ∧
      ∃ sn, snapshot_of sn q ∧ sn ∈ sns) qs ps.
Proof.
  intros Hl Hf. revert ks Hl.
  induction Hf as [|sn r q sns rs qs Hok Hf IH]; intros [|x ks] Hl Hk; simplify_eq/=.
  { exists []. by repeat split. }
  destruct (prepare_row_run c k x q sn r vocab Hok ltac:(set_solver)) as (p & -> & Hp & _).
  destruct (IH ks) as (ps & E & E1 & E2 & Hps); [done|set_solver|]. exists (p :: ps). simpl.
  rewrite E. pose proof (rp_seq _ _ _ _ _ _ Hp) as Ex. pose proof (rp_result _ _ _ _ _ _ Hp) as Er.
  split_and!; [done|by rewrite <-E1, <-Ex|by rewrite <-E2, <-Er|].
  constructor.
  - rewrite Ex, Er. split; [done|]. exists sn. split; [apply Hok|set_solver].
  - eapply Forall2_impl; [exact Hps|]. intros q' p' [? (sn' & ? & ?)]. split; [done|].
    exists sn'. split; [done|set_solver].
Qed.

(** ** Closing the lease *)

(** A row of the lease and its decided burst, over the sequence before the
    lease. *)
Definition row_decided (c : sched_config) (k : Z) (ss : gmap nat sequence)
    (row : _TemporaryReservationRow) (p : prepared_row) : Prop :=
  pp_seq p = row_sequence row ∧ ∃ q, ss !! pp_seq p = Some q ∧
    row_prepared c k (pp_seq p) q (pp_result p) p ∧ num_cached_tokens q + 1 = num_tokens q.

Lemma rows_decided s0 p t s qs ps c :
  burst_open s0 p t s →
  Forall2 (λ k q, seqs s !! k = Some q) (running s0) qs →
  pp_seq <$> ps = running s0 →
  Forall2 (λ q p', row_prepared c (plan_effective_k p) (pp_seq p') q (pp_result p') p' ∧
      ∃ sn, snapshot_of sn q ∧ sn ∈ rows p) qs ps →
  Forall2 (row_decided c (plan_effective_k p) (seqs s0)) (rv_rows (tx_reservation t)) ps.
Proof.
  intros Ho Hqs Hks Hps. destruct (bo_positive _ _ _ _ _ Ho) as [Hpost Hk].
  destruct (bo_lease _ _ _ _ _ Ho) as (base & (Hok & _) & Hss & _ & Hl).
  pose proof (bo_rows _ _ _ _ _ Ho) as Hrows. apply Forall2_same_length_lookup_2.
  { rewrite <-(length_fmap row_sequence), Hrows, <-Hks. apply length_fmap. }
  intros i row p' Hrow Hp'.
  destruct (Forall2_lookup_r _ _ _ _ _ Hps Hp') as (q & Hq & Hpr & sn & Hsn & Hin).
  destruct (Forall2_lookup_r _ _ _ _ _ Hqs Hq) as (k & Hki & Hkq).
  assert (pp_seq p' = k) as <-.
  { rewrite <-Hks, list_lookup_fmap, Hp' in Hki. by simplify_eq/=. }
  assert (pp_seq p' = row_sequence row) as E.
  { rewrite <-Hrows, list_lookup_fmap, Hrow in Hki. by simplify_eq/=. }
  split; [done|]. apply list_elem_of_lookup_2 in Hrow.
  destruct (leased_row base _ _ Hl row Hrow) as (q0 & Hq0 & Hq1 & _).
  rewrite E in *. rewrite Hss in Hq0. exists q0. split; [done|].
  rewrite Hkq in Hq1. injection Hq1 as ->.
  split; [by destruct Hpr; split|].
  destruct (positive_plan_rows p Hpost Hk sn Hin) as (_ & Ht & _).
  pose proof (sn_tokens _ _ Hsn). pose proof (sn_cached _ _ Hsn). simpl in *. lia.
Qed.

(** The retained counts of the rows. *)
Definition keep_items (bs : Z) (ps : list prepared_row) (rows : list _TemporaryReservationRow)
    : list (nat * Z) :=
  zip_with (λ p row, keep_count bs (pp_seq p) p row) ps rows.

Lemma keep_items_zip bs ps rows :
  zip_with (λ ip row, keep_count bs ip.1 ip.2 row) (zip (pp_seq <$> ps) ps) rows =
  keep_items bs ps rows.
Proof.
  unfold keep_items. revert rows. induction ps as [|p ps IH]; intros [|row rows]; try done.
  simpl. f_equal. apply IH.
Qed.

Lemma keep_items_fst bs ps rows :
  length ps = length rows → (keep_items bs ps rows).*1 = pp_seq <$> ps.
Proof.
  unfold keep_items. revert rows. induction ps as [|p ps IH]; intros [|row rows] Hl; try done.
  simpl. f_equal. apply IH. by injection Hl.
Qed.

(** The burst's blocks are there. *)
Lemma burst_keep s0 p t s row p' :
  burst_open s0 p t s → row ∈ rv_rows (tx_reservation t) →
  row_decided (sc_config s0) (plan_effective_k p) (seqs s0) row p' →
  ∃ q, seqs s0 !! pp_seq p' = Some q ∧ row_block_table_before row = block_table q ∧
    keep_count (bsz s0) (pp_seq p') p' row =
      (row_sequence row, ceil_div (pp_cached p') (bsz s0) - Z.of_nat (length (block_table q))) ∧
    0 <= ceil_div (pp_cached p') (bsz s0) - Z.of_nat (length (block_table q)) <=
      Z.of_nat (length (row_appended_block_ids row)).
Proof.
  intros Ho Hrow (E & q & Hq & Hpr & _). exists q. split; [done|].
  pose proof (bo_sched _ _ _ _ _ Ho) as Hs. destruct (si_bs _ _ _ _ Hs) as [_ Hbs].
  destruct (bo_lease _ _ _ _ _ Ho) as (base & (Hok & _) & Hss & _ & Hl).
  destruct (leased_row base _ _ Hl row Hrow) as (q0 & Hq0 & _ & Htab & _).
  rewrite E in Hq. rewrite Hss, Hq in Hq0. injection Hq0 as <-.
  split; [done|]. split; [unfold keep_count, ceil_div; by rewrite Htab, E|].
  assert (row_sequence row ∈ running s0) as Hin
    by (rewrite <-(bo_rows _ _ _ _ _ Ho); by apply list_elem_of_fmap_2).
  destruct (si_run _ _ _ _ Hs (row_sequence row)) as (q1 & Hq1 & _ & Hcov & Hsch);
    [rewrite app_nil_r; done|].
  assert (q1 = q) as -> by congruence. rewrite decide_True in Hsch by done.
  pose proof (ce_table _ _ Hcov) as Hct. pose proof (rp_length _ _ _ _ _ _ Hpr).
  pose proof (rp_cached _ _ _ _ _ _ Hpr).
  pose proof (bo_room _ _ _ _ _ Ho row Hrow q Hq) as Hroom.
  pose proof (ceil_div_mono (num_cached_tokens q + num_scheduled_tokens q) (pp_cached p') (bsz s0)
    ltac:(lia) ltac:(lia)).
  pose proof (ceil_div_mono (pp_cached p') (num_tokens q + plan_effective_k p) (bsz s0)
    ltac:(lia) ltac:(lia)). lia.
Qed.

Lemma keep_counts_ok s0 p t s ps :
  burst_open s0 p t s → pp_seq <$> ps = running s0 →
  Forall2 (row_decided (sc_config s0) (plan_effective_k p) (seqs s0))
    (rv_rows (tx_reservation t)) ps →
  counts_ok (tx_reservation t) (keep_items (bsz s0) ps (rv_rows (tx_reservation t))).
Proof.
  intros Ho Hks Hd. pose proof (Forall2_length _ _ _ Hd) as Hl.
  destruct (bo_lease _ _ _ _ _ Ho) as (base & _ & _ & _ & Hle).
  split; [by rewrite keep_items_fst, Hks, (bo_rows _ _ _ _ _ Ho)|].
  intros row n Hrow (i & p' & row' & En & Hp' & Hrow')%elem_of_lookup_zip_with.
  pose proof (Forall2_lookup_lr _ _ _ _ _ _ Hd Hrow' Hp') as Hdec.
  apply list_elem_of_lookup_2 in Hrow'.
  destruct (burst_keep s0 p t s row' p' Ho Hrow' Hdec) as (q & _ & _ & Ek & Hb).
  rewrite Ek in En. injection En as E ->.
  assert (row = row') as ->; [|done].
  by apply (NoDup_key row_sequence _ _ _ (le_nodup _ _ _ Hle)).
Qed.

(** What the store holds once the lease is closed. *)
Record burst_store (s0 : scheduler) (k : Z) (ps : list prepared_row) (h : heap) : Prop := {
  bs_inv : kv_inv h;
  bs_size : block_size (hp_bm h) = bsz s0;
  bs_other : ∀ x, x ∉ running s0 → hp_seqs h !! x = seqs s0 !! x;
  bs_row : ∀ p, p ∈ ps → ∃ q table, seqs s0 !! pp_seq p = Some q ∧
    hp_seqs h !! pp_seq p = Some (set_block_table table q) ∧
    Z.of_nat (length table) = ceil_div (pp_cached p) (bsz s0) ∧
    row_prepared (sc_config s0) k (pp_seq p) q (pp_result p) p ∧
    num_cached_tokens q + 1 = num_tokens q;
}.

Lemma lease_finalized s0 p t s ps :
  burst_open s0 p t s → pp_seq <$> ps = running s0 →
  Forall2 (row_decided (sc_config s0) (plan_effective_k p) (seqs s0))
    (rv_rows (tx_reservation t)) ps →
  ∃ h, finalize_temporary_append (tx_reservation t)
      (keep_items (bsz s0) ps (rv_rows (tx_reservation t))) (sc_heap s) = (Ok true, h) ∧
    burst_store s0 (plan_effective_k p) ps h.
Proof.
  intros Ho Hks Hd. set (items := keep_items _ _ _).
  pose proof (keep_counts_ok s0 p t s ps Ho Hks Hd) as Hcounts.
  destruct (bo_lease _ _ _ _ _ Ho) as (base & Hbase & Hss & Hbs & Hle).
  destruct (kv_finalized compute_hash _ _ _ items Hbase Hle Hcounts) as (h & E & Hi & Hg).
  pose proof (bo_rows _ _ _ _ _ Ho) as Hrows. exists h. split; [done|].
  split; [done|by rewrite (fr_size _ _ (gg_frame _ _ _ Hg)), <-Hbs| |].
  - intros x Hx. rewrite (gg_seqs _ _ _ Hg), append_rows_lookup_ne; [by rewrite <-Hss|].
    unfold kept_rows. by rewrite kept_pair_fst, Hrows.
  - intros p' Hp'. apply list_elem_of_lookup in Hp' as [i Hp'].
    destruct (Forall2_lookup_r _ _ _ _ _ Hd Hp') as (row & Hrow & Hdec).
    apply list_elem_of_lookup_2 in Hrow as Hin.
    destruct (burst_keep s0 p t s row p' Ho Hin Hdec) as (q & Hq & Htab & Ek & Hb).
    destruct Hdec as (E' & q1 & Hq1 & Hpr & Hc1). assert (q1 = q) as -> by congruence.
    set (n := ceil_div _ _ - _) in *.
    assert ((row_sequence row, n) ∈ items) as Hit.
    { apply elem_of_lookup_zip_with. exists i, p', row. by rewrite Ek. }
    assert (NoDup items.*1) as Hndi.
    { unfold items. rewrite keep_items_fst, Hks, <-Hrows by (symmetry; by eapply Forall2_length).
      apply Hle. }
    exists q, (block_table q ++ take (Z.to_nat n) (row_appended_block_ids row)).
    split; [done|]. split; [|split; [|done]].
    + rewrite (gg_seqs _ _ _ Hg), E'. apply append_rows_lookup.
      * unfold kept_rows. rewrite kept_pair_fst. apply Hle.
      * apply list_elem_of_fmap. exists row. split; [|done]. unfold kept_pair, kept_of, keep_of.
        assert ((list_to_map items : gmap nat Z) !! row_sequence row = Some n) as ->
          by (by apply elem_of_list_to_map_1). done.
      * simpl. by rewrite Hss, <-E'.
    + rewrite length_app, length_take. lia.
Qed.

(** The scheduler is then ready for the loop over the rows. *)
Lemma burst_store_inv s0 p t s ps h s1 :
  burst_open s0 p t s → pp_seq <$> ps = running s0 →
  burst_store s0 (plan_effective_k p) ps h →
  sc_heap s1 = h → waiting s1 = waiting s0 → running s1 = running s0 →
  mid_chunk_seq s1 = mid_chunk_seq s0 → sc_config s1 = sc_config s0 →
  burst_inv kv_inv ps s1.
Proof.
  intros Ho Hks [Hi Hsz Hoth Hrow] Eh Ew Er Em Ec.
  destruct (bo_sched _ _ _ _ _ Ho) as [_ Hbs _ Hnd Hcap Hm Hw Hr Hown].
  rewrite !app_nil_r in *.
  assert (∀ x, x ∈ waiting s0 → x ∉ running s0) as Hdis.
  { intros x. apply NoDup_app in Hnd as (_ & Hd & _). apply Hd. }
  split; rewrite ?Eh, ?Ew, ?Er, ?Em, ?Ec, ?Hsz; try done.
  - intros m Hmid. destruct (Hm m Hmid) as [Hh (q & Hq & Ht)]. split; [done|]. exists q.
    rewrite Hoth; [done|]. apply Hdis. destruct (waiting s0); simplify_eq/=. set_solver.
  - intros x Hx. destruct (Hw x Hx) as (q & Hq & Hok). exists q. rewrite Hoth by (by apply Hdis).
    split; [done|]. destruct Hok as (? & ? & ? & ? & Hs). rewrite decide_False in Hs by (by apply Hdis).
    by split_and!.
  - intros x Hx Hn. by rewrite Hks in Hn.
  - intros p' Hp'. split; [rewrite <-Hks; by apply list_elem_of_fmap_2|].
    destruct (Hrow p' Hp') as (q & table & Hq & Hq' & Htab & Hpr & Hc). eexists. split; [done|].
    destruct (Hr (pp_seq p')) as (q1 & Hq1 & Hst & Hcov & _).
    { rewrite <-Hks. by apply list_elem_of_fmap_2. }
    assert (q1 = q) as -> by congruence. pose proof (rp_length _ _ _ _ _ _ Hpr) as Hlen.
    split; simpl; [done|intros E; rewrite E in Hlen; simpl in Hlen; lia| |apply Hpr|done].
    split; [apply Hcov|done].
  - intros x q Hq Hx. rewrite Hoth in Hq by set_solver. by apply (Hown x q).
Qed.

(** ** The commit *)

(** The stop condition does not read the block table. *)
Lemma burst_final_table c p table q :
  burst_final c p (set_block_table table q) = burst_final c p q.
Proof.
  assert (∀ toks q, append_all toks (set_block_table table q) =
    set_block_table table (append_all toks q)) as E; [|unfold burst_final; by rewrite E].
  clear. induction toks as [|t toks IH]; intros q; [done|]. exact (IH (append_token t q)).
Qed.

Lemma burst_finished_table s0 k ps h s1 :
  burst_store s0 k ps h → sc_heap s1 = h → sc_config s1 = sc_config s0 →
  burst_finished s1 ps = burst_finished s0 ps.
Proof.
  intros [_ _ _ Hrow] Eh Ec. unfold burst_finished. f_equal.
  assert (∀ l, l ⊆ ps → filter (λ p, match seqs s1 !! pp_seq p with
      | Some q => burst_final (sc_config s1) p q | None => false end = true) l =
    filter (λ p, match seqs s0 !! pp_seq p with
      | Some q => burst_final (sc_config s0) p q | None => false end = true) l) as H; [|by apply H].
  induction l as [|p l IH]; intros Hl; [done|]. rewrite !filter_cons, IH by set_solver.
  destruct (Hrow p ltac:(set_solver)) as (q & table & Hq & Hq' & _).
  rewrite Eh, Ec, Hq, Hq'. by rewrite burst_final_table.
Qed.

Lemma burst_committed_table now k c p table q q' :
  burst_committed now k c p (set_block_table table q) q' → burst_committed now k c p q q'.
Proof.
  intros [? ? ? ? ? ? ? Hf]. rewrite burst_final_table in Hf. by split.
Qed.

Lemma finished_member s p ps q :
  NoDup (pp_seq <$> ps) → p ∈ ps → seqs s !! pp_seq p = Some q →
  bool_decide (pp_seq p ∈ burst_finished s ps) = burst_final (sc_config s) p q.
Proof.
  intros Hnd Hp Hq. apply eq_true_iff_eq. rewrite bool_decide_eq_true. unfold burst_finished.
  rewrite list_elem_of_fmap. split.
  - intros (p' & E & [Hf Hp']%list_elem_of_filter).
    assert (p' = p) as -> by (by apply (NoDup_key pp_seq ps)). by rewrite Hq in Hf.
  - intros Hf. exists p. split; [done|]. apply list_elem_of_filter. by rewrite Hq.
Qed.

(** The stream of a row: its last token carries the finish flag. *)
Definition row_events (finished : bool) (p : prepared_row) : list StreamOutput :=
  imap (λ i t, mk_StreamOutput (pp_seq p) t (finished && (i =? length (pp_tokens p) - 1)%nat))
    (pp_tokens p).

(** The stream of a committed batch. *)
Definition burst_stream (s : scheduler) (ps : list prepared_row) : list StreamOutput :=
  concat ((λ p, row_events (bool_decide (pp_seq p ∈ burst_finished s ps)) p) <$> ps).

(** The events of the loop over the rows. *)
Lemma stream_run s ps finished :
  (∀ p, p ∈ ps → ∃ q, seqs s !! pp_seq p = Some q ∧ seq_id q = pp_seq p ∧
     is_finished q = finished p) →
  map_all burst_events ps s = (Ok ((λ p, row_events (finished p) p) <$> ps), s).
Proof.
  induction ps as [|p ps IH]; intros Hrow; [done|]. cbn [map_all].
  destruct (Hrow p ltac:(set_solver)) as (q & Hq & Hid & Hf).
  assert (burst_events p s = (Ok (row_events (finished p) p), s)) as E.
  { unfold burst_events. rewrite (bind_ok _ _ _ _ _ (seq_at_ok _ _ _ Hq)). unfold ret, row_events.
    by rewrite Hid, Hf. }
  rewrite (bind_ok _ _ _ _ _ E). rewrite (bind_ok _ _ _ _ _ (IH ltac:(intros; apply Hrow; set_solver))).
  done.
Qed.

(** What a commit leaves. *)
Record burst_done (s0 : scheduler) (k now : Z) (results : list SpecRowResult)
    (ps : list prepared_row) (s' : scheduler) : Prop := {
  bd_idle : sinv kv_inv [] [] s';
  bd_waiting : waiting s' = waiting s0;
  bd_running : running s' = filter (λ x, x ∉ burst_finished s0 ps) (running s0);
  bd_rows : pp_seq <$> ps = running s0 ∧ pp_result <$> ps = results;
  bd_row : ∀ p, p ∈ ps → ∃ q q', seqs s0 !! pp_seq p = Some q ∧ seqs s' !! pp_seq p = Some q' ∧
    pp_tokens p = kept_burst (sc_config s0) q (committed_token_ids (pp_result p)) ∧
    burst_committed now k (sc_config s0) p q q';
  bd_other : ∀ x, x ∉ running s0 → seqs s' !! x = seqs s0 !! x;
}.

(** The rows as the commit reads them. *)
Lemma burst_open_read w s0 p t s :
  tx_open w s0 p t s →
  ∃ qs, map_all seq_at (running s0) s = (Ok qs, s) ∧ seq_id <$> qs = running s0 ∧
    Forall2 (λ k q, seqs s !! k = Some q) (running s0) qs.
Proof.
  intros Ho. destruct (bo_lease _ _ _ _ _ Ho) as (base & (Hok & _) & _ & _ & Hle).
  pose proof (bo_rows _ _ _ _ _ Ho) as Hrows.
  assert (∀ k, k ∈ running s0 → ∃ q, seqs s !! k = Some q ∧ seq_id q = k) as Hk.
  { intros k. rewrite <-Hrows, list_elem_of_fmap. intros (row & -> & Hrow).
    destruct (leased_row base _ _ Hle row Hrow) as (q & Hq & Hq' & _). eexists. split; [done|].
    simpl. by destruct (ok_seqs _ _ Hok _ _ Hq). }
  destruct (read_all (running s0) s) as (qs & E & Hqs).
  { intros k Hin. destruct (Hk k Hin) as (q & ? & _). by exists q. }
  exists qs. split_and!; [done| |done]. clear E Hrows Ho.
  induction Hqs as [|k q ks qs Hq Hqs IH]; [done|]. rewrite fmap_cons, IH.
  - destruct (Hk k ltac:(set_solver)) as (q' & Hq' & Hid). congruence.
  - intros k' Hk'. apply Hk. set_solver.
Qed.

Context (clock : nat → Z).

(** The body of the transaction, over the rows decided. *)
Lemma commit_body_run s0 p t s ps qs s1 now :
  burst_open s0 p t s → pp_seq <$> ps = running s0 → seq_id <$> qs = running s0 →
  Forall2 (row_decided (sc_config s0) (plan_effective_k p) (seqs s0))
    (rv_rows (tx_reservation t)) ps →
  s1 = set_ticks (S (ticks s)) s →
  ∃ s', commit_body compute_hash now (plan_effective_k p) t (seq_id <$> qs) ps s1 =
      (Ok (burst_stream s0 ps), s') ∧ burst_inv kv_inv [] s' ∧
    waiting s' = waiting s0 ∧
    running s' = filter (λ x, x ∉ burst_finished s0 ps) (running s0) ∧
    _pending_draft_coverage_plan s' = None ∧
    (∀ x, x ∉ running s0 → seqs s' !! x = seqs s0 !! x) ∧
    ∀ p', p' ∈ ps → ∃ q q', seqs s0 !! pp_seq p' = Some q ∧ seqs s' !! pp_seq p' = Some q' ∧
      pp_tokens p' = kept_burst (sc_config s0) q (committed_token_ids (pp_result p')) ∧
      burst_committed now (plan_effective_k p) (sc_config s0) p' q q'.
Proof.
  intros Ho Hks Hids Hd ->. set (s1 := set_ticks _ s).
  pose proof (bo_sched _ _ _ _ _ Ho) as Hs. destruct (si_bs _ _ _ _ Hs) as [Hbs _].
  pose proof (si_nodup _ _ _ _ Hs) as Hnd. rewrite app_nil_r in Hnd.
  apply NoDup_app in Hnd as (_ & _ & Hnd).
  destruct (bo_queues _ _ _ _ _ Ho) as (Ew & Er & Em & Ec).
  destruct (lease_finalized s0 p t s ps Ho Hks Hd) as (h & Ef & Hst).
  set (s2 := set_heap h s1).
  pose proof (burst_store_inv s0 p t s ps h s2 Ho Hks Hst eq_refl Ew Er Em Ec) as Hinv.
  destruct (commit_all_ok compute_hash clock kv_inv now (plan_effective_k p) ps s2 Hinv) as
    (h' & Eall & Hdone & Hoth & Hrows); [by rewrite Hks|].
  set (s3 := set_running _ _) in *.
  assert (burst_finished s2 ps = burst_finished s0 ps) as Ebf
    by exact (burst_finished_table s0 _ ps h s2 Hst eq_refl Ec).
  assert (∀ p', p' ∈ ps → ∃ q q', seqs s0 !! pp_seq p' = Some q ∧ seqs s3 !! pp_seq p' = Some q' ∧
      pp_tokens p' = kept_burst (sc_config s0) q (committed_token_ids (pp_result p')) ∧
      burst_committed now (plan_effective_k p) (sc_config s0) p' q q') as Hcom.
  { intros p' Hp'. destruct (bs_row _ _ _ _ Hst p' Hp') as (q & table & Hq & Hq2 & _ & Hpr & _).
    destruct (Hrows p' _ Hp' Hq2) as (q' & Hq' & Hc). exists q, q'. split_and!; try done.
    - apply Hpr.
    - apply (burst_committed_table _ _ _ _ table). by rewrite <-Ec. }
  assert (map_all burst_events ps s3 = (Ok ((λ p, row_events
    (bool_decide (pp_seq p ∈ burst_finished s0 ps)) p) <$> ps), s3)) as Eev.
  { apply (stream_run s3 ps (λ p, bool_decide (pp_seq p ∈ burst_finished s0 ps))).
    intros p' Hp'. destruct (Hcom p' Hp') as (q & q' & Hq & Hq' & _ & Hc). exists q'.
    split; [done|]. destruct (kv_seq _ _ _ (bi_heap _ _ _ Hdone) Hq') as [Hid _]. split; [done|].
    rewrite (finished_member s0 p' ps q) by (rewrite ?Hks; done).
    pose proof (bc_final _ _ _ _ _ _ Hc) as Hf. unfold is_finished.
    destruct (burst_final _ _ _); destruct Hf as [-> _]; done. }
  exists s3. split; [|split_and!; try done].
  - unfold commit_body, bind at 1, gets. rewrite Hids, <-Hks, keep_items_zip. simpl sc_config.
    rewrite Ec, <-Hbs.
    rewrite (bind_ok _ _ _ _ _ (on_heap_ok _ s1 _ _ Ef)). unfold raise_if at 1. simpl negb.
    cbn iota. unfold bind at 1, ret at 1.
    rewrite (bind_ok _ _ _ _ _ Eall). by rewrite (bind_ok _ _ _ _ _ Eev).
  - simpl. by rewrite Er, Ebf.
  - apply Ho.
  - intros x Hx. rewrite Hoth by (by rewrite Hks). by apply (bs_other _ _ _ _ Hst).
Qed.

Lemma commit_run s0 p t plan s result :
  burst_open s0 p t s →
  ∃ qs, map_all seq_at (running s0) s = (Ok qs, s) ∧
  if same_plan (tx_plan t) plan
     && is_ok (validate_result p result qs (vocab_size (sc_config s)))
  then ∃ ps s', commit_speculative compute_hash clock plan result s =
         (Ok (burst_stream s0 ps), s') ∧
       burst_done s0 (plan_effective_k p) (clock (ticks s)) (res_rows result) ps s' ∧ pool_frame s s'
  else ∃ e, commit_speculative compute_hash clock plan result s = (Raise e, s).
Proof.
  intros Ho. destruct (burst_open_read true s0 p t s Ho) as (qs & Eqs & Hids & Hqs).
  exists qs. split; [done|]. destruct (bo_queues _ _ _ _ _ Ho) as (Ew & Er & Em & Ec).
  pose proof (bo_rows _ _ _ _ _ Ho) as Hrows.
  unfold commit_speculative. rewrite (bind_ok get _ s s s eq_refl).
  unfold transaction_of. rewrite (bo_tx _ _ _ _ _ Ho).
  destruct (same_plan (tx_plan t) plan); cbn [andb]; [|by eexists].
  rewrite (bo_writes _ _ _ _ _ Ho), Hrows, Er, bool_decide_eq_true_2 by done.
  unfold raise_if. simpl negb. cbn iota. rewrite !(bind_ok _ _ s tt s) by done.
  rewrite (bo_plan _ _ _ _ _ Ho). rewrite (bind_ok _ _ _ _ _ Eqs).
  destruct (validate_result p result qs (vocab_size (sc_config s))) as [[]|e] eqn:Ev;
    [|by exists e]. simpl is_ok. cbn iota.
  unfold bind at 1, lift at 1. apply validate_result_ok_iff in Ev as (_ & _ & _ & _ & Hf).
  destruct (bo_positive _ _ _ _ _ Ho) as [Hpost Hk].
  destruct (prepare_rows_run (sc_config s) (plan_effective_k p) _ (running s0) qs _ _
    (Forall2_length _ _ _ Hqs) Hf) as (ps & Ep & Hks & Hres & Hps).
  { intros sn Hsn. by destruct (positive_plan_rows p Hpost Hk sn Hsn) as (_ & _ & ? & _). }
  unfold bind at 1, lift at 1. rewrite Ep. rewrite Ec in Hps.
  pose proof (rows_decided s0 p t s qs ps (sc_config s0) Ho Hqs Hks Hps) as Hd.
  unfold bind at 1, read_clock, bind at 1, get, bind at 1, modify at 1, ret at 1.
  destruct (commit_body_run s0 p t s ps qs _ (clock (ticks s)) Ho Hks Hids Hd eq_refl)
    as (s' & E & Hinv & Hw & Hr & Hpend & Hoth & Hcom).
  exists ps, (set_transaction None (set_active_draft None s')). split.
  - unfold bind at 1, try_reraise. by rewrite E.
  - split.
    { split; try done. apply burst_inv_done; [|done]. by destruct Hinv; split. }
    pose proof (commit_body_frame compute_hash (clock (ticks s)) (plan_effective_k p) t
      (seq_id <$> qs) ps (set_ticks (S (ticks s)) s)) as Hf'. rewrite E in Hf'.
    destruct Hf'. split; try done. simpl in *. lia.
Qed.

(** C28: the commit of a verified burst is atomic, and refuses nothing that was
    validated.  With a transaction open, a result of another plan or one that
    [validate_result] rejects raises and changes nothing; any other result
    commits: each running row grows by its burst up to the first
    end-of-sequence token, the streams come in order, finished rows leave the
    queue and give up their blocks, the lease is closed, and the scheduler is
    idle and well-formed again. *)
Theorem commit_speculative_spec s0 p t plan s result :
  burst_open s0 p t s →
  ∃ qs, map_all seq_at (running s0) s = (Ok qs, s) ∧
  if same_plan (tx_plan t) plan
     && is_ok (validate_result p result qs (vocab_size (sc_config s)))
  then ∃ ps s', commit_speculative compute_hash clock plan result s =
         (Ok (burst_stream s0 ps), s') ∧
       burst_done s0 (plan_effective_k p) (clock (ticks s)) (res_rows result) ps s' ∧ pool_frame s s'
  else ∃ e, commit_speculative compute_hash clock plan result s = (Raise e, s).
Proof. apply commit_run. Qed.
End commit.
