(* ===== verification/UndoSpec.v ===== *)
(** * UndoSpec: rolling back the appends of a failed decode step

    [rollback_uncommitted_appends] of the block manager: the validation accepts
    every batch whose rows grew by at most one block since the schedule, and the
    removal then restores the tables with the manager's invariant. *)
From S2P Require Import Prelude SamplingParams Sequence Heap BlockManager Reservation.
From S2P Require Import AllocatorInv BlockManagerInv BlockManagerSpec ReservationInv CacheInv.
From S2P Require Import KVContract CommitSpec.

Section undo.
Context (compute_hash : list Z → Z → Z).
#[local] Abbreviation kv_inv := (kv_inv compute_hash).

(** The table of a row before the step. *)
Definition trim_to (n : Z) (s : sequence) : sequence :=
  set_block_table (take (Z.to_nat n) (block_table s)) s.

(** A row of the request: its table has the expected length, or one block
    more, past everything cached. *)
Definition row_undo (h : heap) (row : nat * Z) : Prop :=
  ∃ s, hp_seqs h !! row.1 = Some s ∧ 0 <= row.2 ∧
    num_cached_tokens s <= row.2 * block_size (hp_bm h) ∧
    (Z.of_nat (length (block_table s)) = row.2 ∨ Z.of_nat (length (block_table s)) = row.2 + 1).

(** What the validation records of a row. *)
Definition verdict (ss : gmap nat sequence) (row : nat * Z) : nat * list nat * option nat :=
  match ss !! row.1 with
  | Some s => (row.1, block_table s,
      if Z.of_nat (length (block_table s)) =? row.2 then None else last (block_table s))
  | None => (row.1, [], None)
  end.

(** An uncached position is owned once and has no identity. *)
Lemma suffix_fresh h k s t i :
  kv_inv h → hp_seqs h !! k = Some s → block_table s = t ++ [i] →
  num_cached_tokens s <= Z.of_nat (length t) * block_size (hp_bm h) →
  ∃ b, blocks (hp_bm h) !! i = Some b ∧ b_hash b = -1 ∧ b_token_ids b = [] ∧
    b_ref_count b = 1 ∧ (i ∉ t) ∧ i ∈ used_block_ids (hp_bm h) ∧ i ∉ free_block_ids (hp_bm h).
Proof.
  intros (Hok & _ & Hc) Hk Ht Hcached. destruct (ok_size _ _ Hok) as [Hbs _].
  assert (block_table s !! length t = Some i) as Hi.
  { rewrite Ht, lookup_app_r, Nat.sub_diag by lia. done. }
  destruct (cov_pos _ _ _ (Hc _ _ Hk) _ _ Hi) as (b & Hb & Hpos). exists b. split; [done|].
  unfold position_ok in Hpos. rewrite (proj2 (Z.leb_gt _ _)) in Hpos by nia.
  destruct Hpos as (Hh & Htok & Hr). apply list_elem_of_lookup_2 in Hi as Hin.
  pose proof (table_not_free h k s i Hok Hk Hin) as Hnf.
  pose proof (proj1 (ok_part _ _ Hok i) (ok_table _ _ Hok _ _ _ Hk Hin)).
  split_and!; try done; [|tauto]. intros Hit. apply list_elem_of_lookup in Hit as [j Hj].
  apply lookup_lt_Some in Hj as Hlt.
  pose proof (count_two (block_table s) i j (length t)) as H2. rewrite Ht in H2.
  rewrite (lookup_app_l t [i] j) in H2 by done.
  specialize (H2 Hj). rewrite <-Ht in H2. specialize (H2 Hi ltac:(lia)).
  pose proof (refs_ge _ _ _ i Hk). pose proof (bo_refs _ _ _ _ (ok_block _ _ Hok _ _ Hb)) as E.
  unfold none in E. lia.
Qed.

(** ** Removing one suffix block *)

(** The heap after the removal of the suffix block [i] of [k]. *)
Definition undone (k : nat) (s : sequence) (t : list nat) (i : nat) (h : heap) : heap :=
  set_bm (λ m, set_free_block_ids (i :: free_block_ids m)
      (set_used_block_ids (used_block_ids m ∖ {[i]})
        (set_blocks (alter (set_ref_count 0) i (blocks m)) m)))
    (set_seqs (<[k := set_block_table t s]>) h).

Section one.
Context (h : heap) (k : nat) (s : sequence) (t : list nat) (i : nat) (Hi : kv_inv h)
  (Hk : hp_seqs h !! k = Some s) (Ht : block_table s = t ++ [i])
  (Hcached : num_cached_tokens s <= Z.of_nat (length t) * block_size (hp_bm h)).

Lemma undone_refs j :
  (refs (<[k := set_block_table t s]> (hp_seqs h)) j + (if decide (j = i) then 1 else 0) =
   refs (hp_seqs h) j)%nat.
Proof using Hk Ht.
  pose proof (refs_insert (hp_seqs h) k s (set_block_table t s) j Hk) as Hr. simpl in Hr.
  rewrite Ht, count_app, count_cons, count_nil in Hr. destruct (decide (j = i)); case_decide; lia.
Qed.

Lemma undone_ok : alloc_ok none (undone k s t i h).
Proof using Hi Hk Ht Hcached.
  pose proof Hi as (Hok & _).
  destruct (suffix_fresh h k s t i Hi Hk Ht Hcached)
    as (b & Hb & Hh & Htok & Hr & Hit & Hused & Hnf).
  destruct Hok as [Hs Hnd Hp Hd Hbl Hha Hta Hq].
  split; simpl; rewrite ?length_alter; try done.
  - by apply NoDup_cons.
  - intros j. rewrite Hp, elem_of_cons. destruct (decide (j = i)) as [->|]; [set_solver|].
    rewrite elem_of_difference, elem_of_singleton. tauto.
  - intros j [->|Hj]%elem_of_cons; [set_solver|]. specialize (Hd j Hj). set_solver.
  - intros j b' Hj. pose proof (undone_refs j) as Href.
    apply lookup_alter_block in Hj as [(-> & b0 & Hb0 & ->)|(Hne & Hj)].
    + assert (b0 = b) as -> by congruence. destruct (Hbl _ _ Hb) as [Hid Hrf _ _].
      rewrite decide_True in Href by done. unfold none in *.
      split; simpl; unfold none; try done; [lia|set_solver].
    + destruct (Hbl _ _ Hj) as [Hid Hrf Hf Hu]. rewrite decide_False in Href by done.
      split; simpl; try done; [rewrite Hrf; unfold none; lia|set_solver|set_solver].
  - intros hs j Hj. destruct (Hha _ _ Hj) as (b' & Hb' & E & Hn).
    destruct (decide (j = i)) as [->|Hne].
    + rewrite list_lookup_alter_eq, Hb'. by eexists.
    + rewrite list_lookup_alter_ne by done. eauto.
  - intros k' s' j. rewrite lookup_insert. case_decide; [|by eauto].
    intros [= <-] Hj. simpl in Hj. apply (Hta k s); [done|]. rewrite Ht. set_solver.
  - intros k' s'. rewrite lookup_insert. case_decide; [|by eauto].
    intros [= <-]. subst. destruct (Hq _ _ Hk) as [? []]. split; [done|by split].
Qed.

Lemma undone_cache : cache_ok compute_hash (undone k s t i h).
Proof using Hi Hk Ht Hcached.
  pose proof Hi as (Hok & _ & Hc). destruct (ok_size _ _ Hok) as [Hbs _].
  destruct (suffix_fresh h k s t i Hi Hk Ht Hcached)
    as (b & Hb & Hh & Htok & Hr & Hit & Hused & Hnf).
  assert (∀ j, j ≠ i → blocks (hp_bm (undone k s t i h)) !! j = blocks (hp_bm h) !! j) as Hsame.
  { intros j Hj. simpl. by apply list_lookup_alter_ne. }
  intros k' s'. simpl. rewrite lookup_insert. case_decide as Hkk.
  - intros [= <-]. destruct (Hc _ _ Hk) as [H1 H2 H3]. split; simpl; [done|done|].
    intros j x Hj.
    destruct (H3 j x) as (bx & Hbx & Hpos).
    { rewrite Ht. by apply lookup_app_l_Some. }
    exists bx. split; [|done]. apply list_elem_of_lookup_2 in Hj.
    rewrite <-Hbx. apply Hsame. intros ->. done.
  - intros Hk'. apply (seq_covered_same compute_hash h); [done| |by eapply Hc].
    intros x Hx. apply Hsame. intros ->. revert Hx.
    apply (once_elsewhere h k s (length t) i b k' s'); try done.
    by rewrite Ht, lookup_app_r, Nat.sub_diag by lia.
Qed.

Lemma undo_one table :
  undo_append (k, table, Some i) h = (Ok tt, undone k s t i h) ∧ kv_inv (undone k s t i h).
Proof using Hi Hk Ht Hcached.
  destruct (suffix_fresh h k s t i Hi Hk Ht Hcached)
    as (b & Hb & Hh & Htok & Hr & Hit & Hused & Hnf).
  split; [|split; [apply undone_ok|split; [by destruct Hi as (_ & [] & _)|apply undone_cache]]].
  set (h1 := set_seqs (alter (λ s, set_block_table (removelast (block_table s)) s) k) h).
  unfold undo_append, bind at 1, upd_seq, modify at 1. fold h1.
  rewrite (bind_ok _ _ _ _ _ (upd_block_ok h1 i (set_ref_count 0) b Hb)).
  unfold bind at 1, get_bm, gets. simpl used_block_ids. rewrite bool_decide_eq_true_2 by done.
  unfold undone, h1. cbn. unfold set_seqs. rewrite (alter_insert_eq _ _ _ _ Hk), Ht.
  by rewrite removelast_last.
Qed.
End one.

(** ** The loop *)

Lemma last_split (l : list nat) n :
  Z.of_nat (length l) = n + 1 → 0 <= n →
  ∃ t i, l = t ++ [i] ∧ last l = Some i ∧ Z.of_nat (length t) = n ∧ take (Z.to_nat n) l = t.
Proof.
  intros Hl Hn. destruct l as [|i t _] using rev_ind; [simpl in Hl; lia|].
  rewrite length_app in Hl. simpl in Hl. exists t, i. split_and!; [done|by rewrite last_snoc|lia|].
  by rewrite take_app_length' by lia.
Qed.

Lemma trim_to_id n s : Z.of_nat (length (block_table s)) = n → trim_to n s = s.
Proof. intros <-. unfold trim_to. rewrite Nat2Z.id, firstn_all. by destruct s. Qed.

Lemma undo_loop rows h :
  kv_inv h → NoDup rows.*1 → Forall (row_undo h) rows →
  ∃ h', for_each undo_append (verdict (hp_seqs h) <$> rows) h = (Ok tt, h') ∧ kv_inv h' ∧
    block_size (hp_bm h') = block_size (hp_bm h) ∧
    (∀ k, k ∉ rows.*1 → hp_seqs h' !! k = hp_seqs h !! k) ∧
    ∀ k n, (k, n) ∈ rows → hp_seqs h' !! k = trim_to n <$> hp_seqs h !! k.
Proof.
  revert h. induction rows as [|[k n] rows IH]; intros h Hi Hnd Hrows.
  { exists h. split_and!; try done. set_solver. }
  apply NoDup_cons in Hnd as [Hk Hnd]. apply Forall_cons in Hrows as [Hrow Hrows].
  destruct Hrow as (s & Hs & Hn & Hcached & Hlen). simpl in Hs, Hn, Hcached, Hlen, Hk.
  assert (∃ h1, undo_append (verdict (hp_seqs h) (k, n)) h = (Ok tt, h1) ∧ kv_inv h1 ∧
    block_size (hp_bm h1) = block_size (hp_bm h) ∧
    hp_seqs h1 = <[k := trim_to n s]> (hp_seqs h)) as (h1 & E1 & Hi1 & Hb1 & Hsq1).
  { unfold verdict. simpl. rewrite Hs. destruct Hlen as [Hlen|Hlen].
    - rewrite (proj2 (Z.eqb_eq _ _)) by done. exists h. split_and!; try done.
      by rewrite trim_to_id, insert_id.
    - rewrite (proj2 (Z.eqb_neq _ _)) by lia.
      destruct (last_split _ n Hlen Hn) as (t & i & Ht & -> & Htl & Htake).
      destruct (undo_one h k s t i Hi Hs Ht ltac:(rewrite Htl; done) (block_table s)) as [E Hi'].
      eexists. split; [exact E|]. split; [done|]. split; [done|]. simpl.
      unfold trim_to. by rewrite Htake. }
  assert (∀ x, x ∈ rows.*1 → hp_seqs h1 !! x = hp_seqs h !! x) as Hsame.
  { intros x Hx. rewrite Hsq1, lookup_insert_ne; [done|]. by intros <-. }
  assert (verdict (hp_seqs h) <$> rows = verdict (hp_seqs h1) <$> rows) as Ev.
  { apply list_fmap_ext. intros j [x m] Hx. unfold verdict. simpl. rewrite Hsame; [done|].
    apply list_elem_of_fmap. exists (x, m). split; [done|]. by eapply list_elem_of_lookup_2. }
  destruct (IH h1 Hi1 Hnd) as (h2 & E2 & Hi2 & Hb2 & Ho2 & Hr2).
  { rewrite Forall_forall in Hrows |- *. intros [x m] Hx.
    destruct (Hrows _ Hx) as (s' & Hs' & ?). exists s'. rewrite Hb1. split; [|done].
    rewrite Hsame; [done|]. apply list_elem_of_fmap. by exists (x, m). }
  exists h2. split; [|split; [done|split; [congruence|split]]].
  - rewrite fmap_cons, Ev. cbn [for_each]. by rewrite (bind_ok _ _ _ _ _ E1).
  - intros x Hx. rewrite Ho2 by set_solver. rewrite Hsq1, lookup_insert_ne; [done|]. set_solver.
  - intros x m [[= -> ->]|Hx]%elem_of_cons.
    + by rewrite Ho2, Hsq1, lookup_insert_eq, Hs.
    + rewrite (Hr2 _ _ Hx). f_equal. apply Hsame. apply list_elem_of_fmap. by exists (x, m).
Qed.

(** ** The validation *)

(** The blocks recorded so far are suffixes of rows already seen. *)
Definition suffixes (h : heap) (rows : list (nat * Z)) (ap : gset nat) : Prop :=
  ∀ i, i ∈ ap → ∃ k n s t, (k, n) ∈ rows ∧ hp_seqs h !! k = Some s ∧
    block_table s = t ++ [i] ∧ num_cached_tokens s <= Z.of_nat (length t) * block_size (hp_bm h) ∧
    Z.of_nat (length t) = n.

(** A recorded suffix is in no other table. *)
Lemma suffix_elsewhere h rows ap i k s :
  kv_inv h → suffixes h rows ap → i ∈ ap → k ∉ rows.*1 → hp_seqs h !! k = Some s →
  i ∉ block_table s.
Proof.
  intros Hi Hap Hin Hk Hs. destruct (Hap i Hin) as (k' & n & s' & t & Hrow & Hs' & Ht & Hc & _).
  destruct (suffix_fresh h k' s' t i Hi Hs' Ht Hc) as (b & Hb & _ & _ & Hr & _).
  destruct Hi as (Hok & _). apply (once_elsewhere h k' s' (length t) i b k s); try done.
  - by rewrite Ht, lookup_app_r, Nat.sub_diag by lia.
  - intros ->. apply Hk. apply list_elem_of_fmap. by exists (k', n).
Qed.

Lemma validate_run h done rows ap seen :
  kv_inv h → NoDup (done ++ rows).*1 → Forall (row_undo h) rows →
  seen = list_to_set done.*1 → suffixes h done ap →
  ∃ ap', validate_uncommitted h rows seen ap = Ok (verdict (hp_seqs h) <$> rows, ap') ∧
    suffixes h (done ++ rows) ap'.
Proof.
  intros Hi Hnd Hrows -> Hap. revert done ap Hnd Hap.
  induction rows as [|[k n] rows IH]; intros done ap Hnd Hap.
  { exists ap. by rewrite app_nil_r. }
  apply Forall_cons in Hrows as [(s & Hs & Hn & Hcached & Hlen) Hrows].
  simpl in Hs, Hn, Hcached, Hlen.
  pose proof Hi as (Hok & _). destruct (ok_seqs _ _ Hok _ _ Hs) as [Hid _].
  assert (k ∉ done.*1) as Hkd.
  { rewrite fmap_app in Hnd. apply NoDup_app in Hnd as (_ & Hd & _). intros Hk.
    apply (Hd k Hk). set_solver. }
  assert ((done ++ [(k, n)]) ++ rows = done ++ (k, n) :: rows) as Eapp by (by rewrite <-app_assoc).
  assert ({[seq_id s]} ∪ list_to_set done.*1 =@{gset nat} list_to_set (done ++ [(k, n)]).*1) as Eseen.
  { rewrite fmap_app, list_to_set_app_L, Hid. simpl. set_solver. }
  cbn [validate_uncommitted]. rewrite Hs. cbn [obind].
  rewrite (proj2 (Z.ltb_ge _ _)) by done. rewrite bool_decide_eq_false_2; last first.
  { rewrite Hid, elem_of_list_to_set. done. }
  cbn [oraise_if obind]. rewrite fmap_cons.
  assert (verdict (hp_seqs h) (k, n) = (k, block_table s,
    if Z.of_nat (length (block_table s)) =? n then None else last (block_table s))) as ->
    by (unfold verdict; simpl; by rewrite Hs).
  rewrite Eseen.
  destruct Hlen as [Hlen|Hlen].
  - rewrite (proj2 (Z.eqb_eq _ _)) by done.
    destruct (IH Hrows (done ++ [(k, n)]) ap) as (ap' & -> & Hap'); [by rewrite Eapp| |].
    { intros i Hin. destruct (Hap i Hin) as (k' & n' & s' & t & ? & ?).
      exists k', n', s', t. split; [set_solver|done]. }
    exists ap'. cbn [obind]. split; [done|]. by rewrite <-Eapp.
  - rewrite (proj2 (Z.eqb_neq _ _)), (proj2 (Z.eqb_eq _ _)) by lia. cbn [negb oraise_if obind].
    destruct (last_split _ n Hlen Hn) as (t & i & Ht & -> & Htl & _).
    destruct (suffix_fresh h k s t i Hi Hs Ht ltac:(rewrite Htl; done))
      as (b & Hb & Hh & Htok & Hr & Hit & Hused & Hnf).
    rewrite Hb, Ht, removelast_last, Hh, Hr, Htok.
    assert (i ∉ ap) as Hiap.
    { intros Hin. apply (suffix_elsewhere h done ap i k s Hi Hap Hin Hkd Hs). rewrite Ht. set_solver. }
    rewrite (bool_decide_eq_false_2 (i ∈ t)), (bool_decide_eq_false_2 (i ∈ ap)) by done.
    rewrite (bool_decide_eq_true_2 (i ∈ used_block_ids _)) by done.
    rewrite (bool_decide_eq_false_2 (i ∈ free_block_ids _)) by done.
    cbn [orb negb oraise_if obind].
    destruct (IH Hrows (done ++ [(k, n)]) ({[i]} ∪ ap)) as (ap' & -> & Hap'); [by rewrite Eapp| |].
    { intros j [->%elem_of_singleton|Hin]%elem_of_union.
      - exists k, n, s, t. split_and!; try done; [set_solver|by rewrite Htl].
      - destruct (Hap j Hin) as (k' & n' & s' & t' & ? & ?).
        exists k', n', s', t'. split; [set_solver|done]. }
    exists ap'. cbn [obind]. split; [done|]. by rewrite <-Eapp.
Qed.

(** No prefix of a participating row holds a suffix block. *)
Lemma aliases_run h rows ap :
  kv_inv h → NoDup rows.*1 → Forall (row_undo h) rows → suffixes h rows ap →
  check_prefix_aliases (verdict (hp_seqs h) <$> rows) ap = Ok tt.
Proof.
  intros Hi Hnd Hrows Hap. apply ofor_each_ok, Forall_fmap, Forall_forall. intros [k n] Hin.
  rewrite Forall_forall in Hrows. destruct (Hrows _ Hin) as (s & Hs & Hn & Hcached & Hlen).
  unfold verdict, compose. simpl in *. rewrite Hs. apply oraise_if_ok, bool_decide_eq_false.
  rewrite Exists_exists. intros (i & Hip & Hia).
  destruct (Hap i Hia) as (k' & n' & s' & t & Hin' & Hs' & Ht & Hc & Htl).
  destruct (suffix_fresh h k' s' t i Hi Hs' Ht Hc) as (b & Hb & _ & _ & Hr & Hnt & _).
  destruct (decide (k = k')) as [<-|Hne].
  - assert (s' = s) as -> by congruence.
    assert ((k, n') = (k, n)) as [= ->] by (by apply (NoDup_key fst rows)).
    rewrite (proj2 (Z.eqb_neq _ _)) in Hip by (rewrite Ht, length_app; simpl; lia).
    rewrite Ht, last_snoc, removelast_last in Hip. done.
  - assert (i ∈ block_table s) as Hit.
    { destruct (Z.of_nat (length (block_table s)) =? n) eqn:E; [done|].
      apply Z.eqb_neq in E. destruct (last_split (block_table s) n ltac:(lia) Hn) as (t' & x & E1 & E2 & _).
      rewrite E2, E1, removelast_last in Hip. rewrite E1. set_solver. }
    destruct Hi as (Hok & _). revert Hit.
    apply (once_elsewhere h k' s' (length t) i b k s); try done.
    by rewrite Ht, lookup_app_r, Nat.sub_diag by lia.
Qed.

(** The whole rollback. *)
Lemma undo_run h rows :
  kv_inv h → NoDup rows.*1 → Forall (row_undo h) rows →
  ∃ changed h', rollback_uncommitted_appends rows h = (Ok changed, h') ∧ kv_inv h' ∧
    block_size (hp_bm h') = block_size (hp_bm h) ∧
    (∀ k, k ∉ rows.*1 → hp_seqs h' !! k = hp_seqs h !! k) ∧
    ∀ k n, (k, n) ∈ rows → hp_seqs h' !! k = trim_to n <$> hp_seqs h !! k.
Proof.
  intros Hi Hnd Hrows.
  destruct (validate_run h [] rows ∅ ∅ Hi Hnd Hrows eq_refl) as (ap & Ev & Hap); [set_solver|].
  pose proof (aliases_run h rows ap Hi Hnd Hrows Hap) as Ea.
  assert (Forall (row_undo h) (reverse rows)) as Hrev by (by rewrite Forall_reverse).
  assert (NoDup (reverse rows).*1) as Hndr
    by (by rewrite fmap_reverse, reverse_Permutation).
  destruct (undo_loop (reverse rows) h Hi Hndr Hrev) as (h' & E & Hi' & Hb' & Ho & Hr).
  eexists _, h'. split; [|split; [done|split; [done|split]]].
  - unfold rollback_uncommitted_appends.
    rewrite (bind_ok _ _ _ _ _ (assert_allowed h (quiescent_unfenced _ (proj1 (proj2 Hi))))).
    unfold bind at 1, inspect. rewrite Ev. unfold bind at 1, lift. rewrite Ea.
    unfold bind at 1, get_bm, gets.
    rewrite <-fmap_reverse. rewrite (bind_ok _ _ h tt h'); [reflexivity|].
    unfold try_reraise. by rewrite E.
  - intros k Hk. apply Ho. by rewrite fmap_reverse, elem_of_reverse.
  - intros k n Hk. apply Hr. by rewrite elem_of_reverse.
Qed.
End undo.
