(* ===== verification/AbortSpec.v ===== *)
(** * AbortSpec: undoing a failed decode step

    [rollback_failed_decode_schedule] and [abort_speculative_step]: a decode
    schedule that is given up, with or without an open speculative transaction,
    leaves the scheduler as it was before the step. *)
From S2P Require Import Prelude SamplingParams Sequence Heap BlockManager Reservation SpecMemory.
From S2P Require Import SpecRoutes SpecPlan Scheduler SpecScheduler AllocatorInv BlockManagerInv.
From S2P Require Import ReservationInv CacheInv KVContract SchedInv Frame CommitSpec UndoSpec.

Section abort.
Context (compute_hash : list Z → Z → Z)
  (compute_hash_nonneg : ∀ toks p, 0 <= compute_hash toks p).
#[local] Abbreviation kv_inv := (kv_inv compute_hash).
#[local] Instance undo_manager : KVAllocator compute_hash kv_inv :=
  block_manager_contract compute_hash compute_hash_nonneg.

(** A row before it was scheduled. *)
Definition unscheduled (bs : Z) (q : sequence) : sequence :=
  set_num_scheduled_tokens 0 (trim_to (ceil_div (num_cached_tokens q) bs) q).

(** The schedule of [s] is undone in [s']: the scheduler is idle, every
    scheduled row has the table of its cached tokens, nothing else moved. *)
Record undone_step (s s' : scheduler) : Prop := {
  us_idle : sinv kv_inv [] [] s';
  us_queues : waiting s' = waiting s ∧ running s' = running s ∧
    mid_chunk_seq s' = mid_chunk_seq s ∧ sc_config s' = sc_config s;
  us_rows : ∀ k, k ∈ running s → seqs s' !! k = unscheduled (bsz s) <$> seqs s !! k;
  us_other : ∀ k, k ∉ running s → seqs s' !! k = seqs s !! k;
}.

(** The rows of the undo record pass their checks. *)
Lemma check_rows ks qs c s :
  (∀ k q, seqs s !! k = Some q → seq_id q = k) →
  Forall2 (λ k q, seqs s !! k = Some q) ks qs → Forall (λ q, pure_decode_row q = true) qs →
  map_all check_rollback_row (zip_with (capture_row c) ks qs) s =
    (Ok (zip_with (λ k q, (k, ceil_div (num_cached_tokens q) (sc_block_size c))) ks qs), s).
Proof.
  intros Hid. induction 1 as [|k q ks qs Hq Hqs IH]; intros Hp; [done|].
  apply Forall_cons in Hp as [Hpq Hp]. cbn [zip_with map_all].
  assert (check_rollback_row (capture_row c k q) s =
    (Ok (k, ceil_div (num_cached_tokens q) (sc_block_size c)), s)) as E.
  { unfold check_rollback_row. cbn [rb_sequence capture_row].
    rewrite (bind_ok _ _ _ _ _ (seq_at_ok k s q Hq)).
    cbn [rb_seq_id rb_committed_tokens rb_target_cached_tokens rb_draft_cached_tokens
      rb_expected_block_count capture_row].
    rewrite Nat.eqb_refl, !Z.eqb_refl. unfold pure_decode_row in Hpq.
    rewrite !andb_true_iff, bool_decide_eq_true, negb_true_iff, !Z.eqb_eq in Hpq.
    destruct Hpq as [[[Hst Hpf] Hsc] Hca].
    rewrite bool_decide_eq_true_2 by done. rewrite Hpf, Hsc, (proj2 (Z.eqb_eq _ _) Hca).
    reflexivity. }
  rewrite (bind_ok _ _ _ _ _ E). by rewrite (bind_ok _ _ _ _ _ (IH Hp)).
Qed.

Lemma unschedule_loop rows s :
  kv_inv (sc_heap s) → NoDup (rb_sequence <$> rows) →
  (∀ k, k ∈ rb_sequence <$> rows → is_Some (seqs s !! k)) →
  ∃ h', for_each (λ row, set_seq (rb_sequence row) (set_num_scheduled_tokens 0)) rows s =
      (Ok tt, set_heap h' s) ∧ kv_inv h' ∧ block_size (hp_bm h') = bsz s ∧
    (∀ k, k ∉ rb_sequence <$> rows → hp_seqs h' !! k = seqs s !! k) ∧
    ∀ k, k ∈ rb_sequence <$> rows → hp_seqs h' !! k = set_num_scheduled_tokens 0 <$> seqs s !! k.
Proof.
  revert s. induction rows as [|row rows IH]; intros s Hi Hnd Hst.
  { exists (sc_heap s). rewrite set_heap_id. split_and!; try done. set_solver. }
  rewrite fmap_cons in Hnd, Hst. apply NoDup_cons in Hnd as [Hn Hnd].
  destruct (Hst (rb_sequence row) ltac:(set_solver)) as [q Hq].
  destruct (kv_seq _ _ _ Hi Hq) as [_ Hwf].
  cbn [for_each]. rewrite (bind_ok _ _ _ _ _ (set_seq_ok _ (set_num_scheduled_tokens 0) s q Hq)).
  set (s1 := set_heap _ s).
  assert (kv_inv (sc_heap s1)) as Hi1
    by (apply (inv_put compute_hash kv_inv _ q); try done; by apply evolves_attr).
  assert (∀ k, k ≠ rb_sequence row → seqs s1 !! k = seqs s !! k) as Hsame
    by (intros k Hk; simpl; by rewrite lookup_insert_ne).
  destruct (IH s1 Hi1 Hnd) as (h' & E & Hi' & Hb & Ho & Hr).
  { intros k Hk. rewrite Hsame by (intros ->; done). apply Hst. set_solver. }
  exists h'. split; [done|]. split; [done|]. split; [done|]. rewrite fmap_cons. split.
  - intros k Hk. rewrite Ho by set_solver. apply Hsame. set_solver.
  - intros k [->|Hk]%elem_of_cons.
    + rewrite Ho by done. simpl. by rewrite lookup_insert_eq, Hq.
    + rewrite (Hr k Hk), Hsame; [done|]. by intros ->.
Qed.

(** What the record says of the rows of a scheduled decode batch. *)
Lemma undo_rows s qs :
  sinv kv_inv [] (running s) s → Forall2 (λ k q, seqs s !! k = Some q) (running s) qs →
  Forall (λ q, pure_decode_row q = true) qs →
  let rows := zip_with (λ k q, (k, ceil_div (num_cached_tokens q) (bsz s))) (running s) qs in
  rows.*1 = running s ∧ Forall (row_undo (sc_heap s)) rows ∧
  ∀ k q, k ∈ running s → seqs s !! k = Some q →
    (k, ceil_div (num_cached_tokens q) (bsz s)) ∈ rows ∧
    num_cached_tokens q + 1 = num_tokens q ∧ started q ∧ 0 <= num_cached_tokens q ∧
    ceil_div (num_cached_tokens q) (bsz s) <= Z.of_nat (length (block_table q)).
Proof.
  intros Hs Hqs Hp rows. destruct (si_bs _ _ _ _ Hs) as [_ Hbs].
  assert (∀ k q, k ∈ running s → seqs s !! k = Some q →
    num_cached_tokens q + 1 = num_tokens q ∧ started q ∧ 0 <= num_cached_tokens q ∧
    let n := ceil_div (num_cached_tokens q) (bsz s) in 0 <= n ∧
    num_cached_tokens q <= n * bsz s ∧
    (Z.of_nat (length (block_table q)) = n ∨ Z.of_nat (length (block_table q)) = n + 1)) as Hrow.
  { intros k q Hk Hq. destruct (si_run _ _ _ _ Hs k ltac:(set_solver)) as (q' & Hq' & Hst & Hcov & Hsch).
    assert (q' = q) as -> by congruence. rewrite decide_True in Hsch by done.
    apply list_elem_of_lookup in Hk as [i Hi].
    destruct (Forall2_lookup_l _ _ _ _ _ Hqs Hi) as (q' & Hiq & Hq1).
    assert (q' = q) as -> by congruence. rewrite Forall_forall in Hp.
    specialize (Hp q ltac:(by eapply list_elem_of_lookup_2)). unfold pure_decode_row in Hp.
    rewrite !andb_true_iff, !Z.eqb_eq in Hp. destruct Hp as [[_ Hs1] Hc1].
    pose proof (ce_cached _ _ Hcov) as H0. pose proof (ce_table _ _ Hcov) as Ht.
    rewrite Hs1 in Ht. split; [lia|]. split; [done|]. split; [done|].
    pose proof (ceil_div_spec (num_cached_tokens q) (bsz s) ltac:(lia)).
    pose proof (ceil_div_spec (num_cached_tokens q + 1) (bsz s) ltac:(lia)).
    pose proof (ceil_div_nonneg (num_cached_tokens q) (bsz s) ltac:(lia) ltac:(lia)).
    cbv zeta. split; [done|]. split; [lia|]. rewrite Ht. nia. }
  split_and!.
  - unfold rows. clear -Hqs. induction Hqs as [|k q ks qs _ _ IH]; [done|]. simpl. f_equal. exact IH.
  - apply Forall_forall. intros [k n] (i & k' & q & [= -> ->] & Hk & Hq)%elem_of_lookup_zip_with.
    pose proof (Forall2_lookup_lr _ _ _ _ _ _ Hqs Hk Hq) as Hkq. simpl in Hkq.
    destruct (Hrow k' q) as (_ & _ & _ & H1 & H2 & H3); [by eapply list_elem_of_lookup_2|done|].
    by exists q.
  - intros k q Hk Hq. destruct (Hrow k q Hk Hq) as (H1 & H2 & H3 & H4 & H5 & H6).
    split_and!; try done; [|lia]. apply list_elem_of_lookup in Hk as [i Hi].
    destruct (Forall2_lookup_l _ _ _ _ _ Hqs Hi) as (q' & Hiq & Hq').
    assert (q' = q) as -> by congruence. apply elem_of_lookup_zip_with. by exists i, k, q.
Qed.

(** The rollback of a decode schedule; a transaction may still be recorded. *)
Lemma rollback_schedule_run s rollback :
  sinv kv_inv [] (running s) (set_transaction None s) →
  decode_record (set_transaction None s) rollback →
  ∃ changed s', rollback_failed_decode_schedule rollback s = (Ok changed, s') ∧
    undone_step (set_transaction None s) (set_transaction None s') ∧
    _active_spec_transaction s' = _active_spec_transaction s.
Proof.
  set (s0 := set_transaction None s). intros Hs (qs & Hqs & Hp & ->).
  pose proof (si_heap _ _ _ _ Hs) as Hi. pose proof (si_nodup _ _ _ _ Hs) as Hnd.
  rewrite app_nil_r in Hnd. apply NoDup_app in Hnd as (_ & Hdis & Hndr).
  destruct (si_plans _ _ _ _ Hs) as (_ & E2 & E3). destruct (si_bs _ _ _ _ Hs) as [Ebs Hbs].
  destruct (undo_rows s0 qs Hs Hqs Hp) as (Hfst & Hrows & Hrow). cbv zeta in *.
  set (rows := zip_with _ _ _) in *.
  destruct (undo_run compute_hash (sc_heap s) rows Hi ltac:(by rewrite Hfst) Hrows)
    as (changed & h1 & Eu & Hi1 & Hb1 & Ho1 & Hr1). rewrite Hfst in Ho1.
  set (s1 := set_heap h1 s). set (rb := zip_with (capture_row (sc_config s0)) (running s0) qs).
  assert (rb_sequence <$> rb = running s) as Erb.
  { unfold rb. change (running s0) with (running s) in *. clear -Hqs.
    induction Hqs as [|k q ks qs _ _ IH]; [done|]. simpl. f_equal. exact IH. }
  assert (∀ k q, k ∈ running s → seqs s !! k = Some q →
    seqs s1 !! k = Some (trim_to (ceil_div (num_cached_tokens q) (bsz s)) q)) as Hk1.
  { intros k q Hk Hq. destruct (Hrow k q Hk Hq) as (Hin & _). simpl.
    by rewrite (Hr1 _ _ Hin), Hq. }
  destruct (unschedule_loop rb s1 Hi1) as (h2 & E & Hi2 & Hb2 & Ho2 & Hr2); [by rewrite Erb| |].
  { rewrite Erb. intros k Hk.
    destruct (si_run _ _ _ _ Hs k) as (q & Hq & _); [by rewrite app_nil_r|]. eexists. by apply (Hk1 k q). }
  rewrite Erb in Ho2, Hr2. exists changed, (set_heap h2 s1).
  assert (∀ k, k ∈ running s → hp_seqs h2 !! k = unscheduled (bsz s) <$> seqs s !! k) as Hrun.
  { intros k Hk. rewrite (Hr2 k Hk). destruct (si_run _ _ _ _ Hs k ltac:(by rewrite app_nil_r)) as (q & Hq & _).
    change (seqs s !! k = Some q) in Hq. by rewrite (Hk1 k q Hk Hq), Hq. }
  assert (∀ k, k ∉ running s → hp_seqs h2 !! k = seqs s !! k) as Hoth.
  { intros k Hk. rewrite (Ho2 k Hk). simpl. by apply Ho1. }
  split; [|split; [|done]].
  - unfold rollback_failed_decode_schedule. rewrite (bind_ok get _ s s s eq_refl).
    change (_active_draft_discard s) with (_active_draft_discard s0).
    change (_pending_draft_coverage_plan s) with (_pending_draft_coverage_plan s0).
    rewrite E2, E3. unfold raise_if. simpl bool_decide. cbn iota.
    rewrite !(bind_ok (ret tt) _ s tt s) by done.
    rewrite (bind_ok _ _ _ _ _ (check_rows (running s) qs (sc_config s) s
      (λ k q Hk, proj1 (kv_seq _ _ _ Hi Hk)) Hqs Hp)).
    change (sc_block_size (sc_config s)) with (sc_block_size (sc_config s0)). rewrite <-Ebs.
    rewrite (bind_ok _ _ _ _ _ (on_heap_ok _ s _ _ Eu)). fold s1.
    by rewrite (bind_ok _ _ _ _ _ E).
  - assert (block_size (hp_bm h2) = bsz s) as Eb by (rewrite Hb2; exact Hb1).
    split; try done. destruct Hs as [_ _ _ Hnd Hcap Hm Hw Hr Hown].
    split; simpl; rewrite ?Eb; try done.
    + intros m Em. destruct (Hm m Em) as [Hh (q & Hq & Ht)]. split; [done|]. exists q.
      rewrite Hoth; [done|]. apply Hdis. simpl in *. destruct (waiting s); simplify_eq/=. set_solver.
    + intros k Hk. destruct (Hw k Hk) as (q & Hq & Hok). exists q.
      rewrite Hoth by (by apply Hdis). split; [done|].
      destruct Hok as (? & ? & ? & ? & Hsc). rewrite decide_False in Hsc by (by apply Hdis).
      by split_and!.
    + intros k Hk. rewrite app_nil_r in Hk. destruct (Hr k ltac:(by rewrite app_nil_r)) as (q & Hq & _).
      change (seqs s !! k = Some q) in Hq.
      destruct (Hrow k q Hk Hq) as (_ & Hc & Hst & H0 & Hlen).
      exists (unscheduled (bsz s) q). split; [by rewrite (Hrun k Hk), Hq|].
      split; [exact Hst|]. split; [|by rewrite decide_False by apply not_elem_of_nil].
      split; simpl; [done|done|lia|]. rewrite length_take, Z.add_0_r.
      pose proof (ceil_div_nonneg (num_cached_tokens q) (bsz s) ltac:(simpl in *; lia) H0).
      change (bsz s0) with (bsz s) in *. lia.
    + intros k q Hq Hk. rewrite app_nil_r in Hk. rewrite Hoth in Hq by set_solver.
      apply (Hown k q Hq). by rewrite app_nil_r.
Qed.

(** The invariant reads the sequences, the block size and the queues. *)
Lemma sinv_same out sch s s' :
  sinv kv_inv out sch s → kv_inv (sc_heap s') → seqs s' = seqs s → bsz s' = bsz s →
  waiting s' = waiting s ∧ running s' = running s ∧
    mid_chunk_seq s' = mid_chunk_seq s ∧ sc_config s' = sc_config s →
  no_plans s' → sinv kv_inv out sch s'.
Proof.
  intros [] Hi Es Eb (Ew & Er & Em & Ec) Hp.
  split; rewrite ?Es, ?Eb, ?Ew, ?Er, ?Em, ?Ec; done.
Qed.

Lemma abort_run w s0 p t s :
  tx_open compute_hash w s0 p t s →
  ∃ s', abort_speculative_step s = (Ok true, s') ∧ undone_step s0 s'.
Proof.
  intros [Hs (Ew & Er & Em & Ec) Hpend Htx _ _ _ Hrows (base & Hbase & Hss & Hbs & Hl) _
    (plan & Hact & Hsame) Hundo].
  pose proof Hbase as (Hok & Hq & _).
  set (s2 := set_active_draft None (set_heap (bump base) s)).
  assert (sinv kv_inv [] (running s0) (set_transaction None s2)) as Hs2.
  { apply (sinv_same _ _ s0); try done. by apply kv_bump. }
  assert (decode_record (set_transaction None s2) (tx_baseline_decode_rollback t)) as Hu2.
  { destruct Hundo as (qs & Hqs & Hp & E). exists qs. simpl. rewrite Hss, Er, Ec. done. }
  destruct (rollback_schedule_run s2 (tx_baseline_decode_rollback t)) as (ch & s3 & E & Hd & _).
  { change (running s2) with (running s). by rewrite Er. }
  { done. }
  exists (set_transaction None s3). split.
  - unfold abort_speculative_step. rewrite (bind_ok get _ s s s eq_refl). rewrite Htx.
    rewrite (bind_ok _ _ s true s2).
    + rewrite (bind_ok (abort_draft_coverage _) _ s2 false s2).
      * by rewrite (bind_ok _ _ _ _ _ E).
      * unfold abort_draft_coverage. rewrite (bind_ok get _ s2 s2 s2 eq_refl).
        change (_pending_draft_coverage_plan s2) with (_pending_draft_coverage_plan s).
        by rewrite Hpend.
    + unfold rollback_draft_discard. rewrite (bind_ok get _ s s s eq_refl). rewrite Hact, Hsame.
      rewrite (bind_ok (raise_if _ _) _ s tt s) by done.
      by rewrite (bind_ok _ _ _ _ _ (on_heap_ok _ s _ _ (leased_rollback base _ _ Hok Hq Hl))).
  - destruct Hd as [Hidle (F1 & F2 & F3 & F4) Hr Ho]. simpl in *.
    rewrite Er, Hss, Hbs in *. split; try done. simpl. split_and!; congruence.
Qed.

(** C30: giving up an open speculative transaction always succeeds and undoes the
    whole step: the lease is rolled back, the tables lose what the schedule
    appended, no row stays scheduled, and the scheduler is idle and well-formed
    with every token it had. *)
Theorem abort_speculative_spec w s0 p t s :
  tx_open compute_hash w s0 p t s →
  ∃ s', abort_speculative_step s = (Ok true, s') ∧ undone_step s0 s'.
Proof. apply abort_run. Qed.
End abort.
