(* ===== verification/TransactionSpec.v ===== *)
(** * TransactionSpec: opening a speculative transaction

    [plan_speculative_step] on a scheduled decode batch either falls back and
    leaves the batch alone, or opens a transaction whose lease covers every
    burst the plan allows; [prepare_speculative_target_writes] keeps it open. *)
From S2P Require Import Prelude SamplingParams Sequence Heap BlockManager Reservation SpecMemory.
From S2P Require Import SpecRoutes SpecPlan PlanSpec SpecResult ResultSpec Scheduler SpecScheduler.
From S2P Require Import AllocatorInv BlockManagerInv BlockManagerSpec ReservationInv ReservationSpec.
From S2P Require Import FinalizeSpec CacheInv KVContract SchedInv Frame StepSpec SpecCommit CommitSpec.

(** ** What a built plan says *)

Section build.
Context (torch : torch_dtypes) (sha256_hexdigest : payload → string).

Lemma new_row_inv r r' : new_row r = Ok r' → r' = r ∧ SpecPlanRow_post_init r = Ok tt.
Proof.
  unfold new_row. intros E. apply obind_unit_ok in E as [? [= <-]]. done.
Qed.

Lemma omap_all_inv {A B} (f : A → outcome B) (g : A → B) l ys :
  (∀ x y, f x = Ok y → y = g x) → omap_all f l = Ok ys → ys = g <$> l.
Proof.
  intros Hf. rewrite omap_all_ok. induction 1 as [|x y l ys Hxy _ IH]; [done|].
  simpl. by rewrite (Hf _ _ Hxy), IH.
Qed.

Lemma new_plan_inv p p' : new_plan p = Ok p' → p' = p ∧ SpecStepPlan_post_init p = Ok tt.
Proof. unfold new_plan. intros E. by apply obind_unit_ok in E as [? [= <-]]. Qed.

Lemma build_inv cycle rs configured cap k budget w key reason p :
  build_speculative_step_plan torch sha256_hexdigest cycle rs configured cap k budget w key reason
    = Ok p →
  plan_effective_k p = k ∧ 0 <= k ∧ SpecStepPlan_post_init p = Ok tt ∧
  (k ≠ 0 → rows p = planned_row k <$> rs).
Proof.
  unfold build_speculative_step_plan.
  intros [_ E]%obind_unit_ok. apply obind_ok in E as [k' [[Hk ->]%(λ H, proj1 (_strict_int_ok _ _ _ _) H) E]].
  do 3 apply obind_ok in E as [? [[_ ->]%(λ H, proj1 (_strict_int_ok _ _ _ _) H) E]].
  do 2 apply obind_unit_ok in E as [_ E].
  destruct (Z.eqb_spec k 0) as [->|Hk0].
  - apply obind_unit_ok in E as [_ E]. unfold fallback_plan in E.
    apply obind_ok in E as (planned & _ & E). apply obind_ok in E as (fp & _ & E).
    apply new_plan_inv in E as [-> ?]. done.
  - apply obind_unit_ok in E as [_ E]. destruct key as [key|]; [|done].
    do 5 apply obind_unit_ok in E as [_ E]. unfold positive_plan in E.
    apply obind_ok in E as (c & _ & E). apply obind_ok in E as (planned & Er & E).
    apply new_plan_inv in E as [-> ?]. split_and!; try done. intros _. simpl.
    unfold replace_write_positions in Er.
    eapply omap_all_inv; [|exact Er]. intros r r' Hr. by apply new_row_inv in Hr as [-> _].
Qed.
End build.

(** ** Opening *)

(** Nothing a decode step owns changed: at most identifiers were consumed. *)
Definition untouched (s s' : scheduler) : Prop :=
  ∃ n h, s' = set_cycle_ids n (set_heap h s) ∧ (h = sc_heap s ∨ h = bump (sc_heap s)).

(** A plan that starts no speculation. *)
Definition is_fallback (plan : plan_ref) : Prop :=
  ∃ p, pr_plan plan = StepPlan p ∧ plan_effective_k p = 0.

Section open.
Context (compute_hash : list Z → Z → Z) (torch : torch_dtypes)
  (sha256_hexdigest : payload → string).
#[local] Abbreviation kv_inv := (kv_inv compute_hash).

Lemma untouched_ids n s : untouched s (set_cycle_ids n s).
Proof. exists n, (sc_heap s). split; [by destruct s|by left]. Qed.

(** The invariant survives. *)
Lemma untouched_sinv out sch s s' :
  sinv kv_inv out sch s → untouched s s' → sinv kv_inv out sch s'.
Proof.
  intros [] (n & h & -> & [->| ->]); split; try done. simpl. by apply kv_bump.
Qed.

Lemma open_transaction_run cycle ks p rollback r s h :
  alloc_ok none h → quiescent h → no_plans s → leased h r (sc_heap s) →
  (∀ k, k ∈ ks → is_Some (seqs s !! k)) →
  wp (open_transaction cycle ks p rollback r) (λ plan s', ∃ p',
       pr_plan plan = StepPlan p' ∧ plan_effective_k p' = plan_effective_k p ∧
       SpecStepPlan_post_init p' = Ok tt ∧
       s' = set_transaction (Some (mk_transaction plan r rollback false))
              (set_active_draft (Some (plan, r)) s))
    (λ _ s', s' = set_heap (bump h) s) s.
Proof.
  intros Hok Hq (E1 & E2 & _) Hl Hks. destruct (read_all ks s Hks) as (qs & Eqs & _).
  assert ((modify (set_active_draft None) ;;; modify (set_transaction None) ;;;
      on_heap (rollback_temporary_append r) ;;; ret tt) s = (Ok tt, set_heap (bump h) s)) as Hhand.
  { unfold bind at 1, modify at 1. unfold bind at 1, modify at 1.
    assert (set_transaction None (set_active_draft None s) = s) as ->
      by (destruct s; simpl in *; by subst).
    by rewrite (bind_ok _ _ _ _ _ (on_heap_ok _ s _ _ (leased_rollback h r _ Hok Hq Hl))). }
  unfold open_transaction. apply wp_try_handler, wp_bind. eapply wp_eq; [exact Eqs|].
  apply wp_bind, wp_lift; [|by eauto]. intros rs' _.
  apply wp_bind, wp_lift; [|by eauto]. intros p' [-> Hpost]%new_plan_inv.
  apply wp_bind. eapply wp_eq; [reflexivity|]. apply wp_bind. eapply wp_eq; [reflexivity|].
  apply wp_ret. eexists. by split_and!.
Qed.

(** The lease of a plan covers the burst of every row. *)
Lemma lease_rooms h k ks rs targets r qs :
  Forall2 (λ x q, hp_seqs h !! x = Some q) ks qs →
  Forall2 (λ q sn, committed_tokens sn = num_tokens q) qs rs →
  targets = (λ sn, committed_tokens sn + k - 1) <$> rs → 0 < block_size (hp_bm h) →
  Forall2 (row_covers h) (zip ks targets) (rv_rows r) →
  row_sequence <$> rv_rows r = ks ∧
  ∀ row, row ∈ rv_rows r → lease_room (block_size (hp_bm h)) k (hp_seqs h) row.
Proof.
  intros Hks Hrs -> Hbs Hc. split.
  { rewrite (covers_keys h _ _ Hc). apply fst_zip. rewrite length_fmap.
    by rewrite (Forall2_length _ _ _ Hks), (Forall2_length _ _ _ Hrs). }
  intros row [i Hrow]%list_elem_of_lookup q Hq.
  destruct (Forall2_lookup_r _ _ _ _ _ Hc Hrow) as ([x hi] & Hz & E & q' & Hq' & Hlen).
  apply lookup_zip_Some in Hz as [Hx Ht]. simpl in *. subst x.
  rewrite Hq in Hq'. injection Hq' as <-.
  destruct (Forall2_lookup_l _ _ _ _ _ Hks Hx) as (q1 & Hq1 & Hq1').
  assert (q1 = q) as -> by congruence.
  destruct (Forall2_lookup_l _ _ _ _ _ Hrs Hq1) as (sn & Hsn & Hct).
  rewrite list_lookup_fmap, Hsn in Ht. injection Ht as <-.
  unfold missing_blocks in Hlen. rewrite Hct in Hlen.
  pose proof (ceil_div_spec (num_tokens q + k) _ Hbs).
  replace (ceil_div (num_tokens q + k) (block_size (hp_bm h)))
    with ((num_tokens q + k - 1) `div` block_size (hp_bm h) + 1); [lia|].
  unfold ceil_div. rewrite <-(Z.div_add _ 1) by lia. f_equal. lia.
Qed.

(** The snapshot of a row is valid or refused. *)
Lemma snapshots_run c qs rs :
  omap_all (snapshot_row c) qs = Ok rs → Forall2 (λ q sn, committed_tokens sn = num_tokens q) qs rs.
Proof.
  rewrite omap_all_ok. intros Hf. eapply Forall2_impl; [exact Hf|].
  by intros q sn [-> _]%new_row_inv.
Qed.

Lemma highest_targets k rs targets :
  omap_all (λ row, match highest_target_write_position row with
    | Some t => Ok t
    | None => Raise (TypeError "highest_written_position must be an integer") end)
    (planned_row k <$> rs) = Ok targets →
  targets = (λ sn, committed_tokens sn + k - 1) <$> rs.
Proof.
  intros E. apply (omap_all_inv _ (λ sn, default 0 (highest_target_write_position sn))) in E as ->.
  - by rewrite <-list_fmap_compose.
  - intros sn t. by destruct (highest_target_write_position sn); intros [= <-].
Qed.

(** A plan whose transaction is open over [s]. *)
Definition opened (s : scheduler) (plan : plan_ref) (s' : scheduler) : Prop :=
  ∃ p t, pr_plan plan = StepPlan p ∧ tx_plan t = plan ∧
    tx_open compute_hash false s p t s'.

Lemma plan_positive_run c cycle ks rs cap w k key rollback s qs :
  sinv kv_inv [] (running s) s → ks = running s → k ≠ 0 →
  Forall2 (λ x q, seqs s !! x = Some q) ks qs →
  Forall2 (λ q sn, committed_tokens sn = num_tokens q) qs rs → decode_record s rollback →
  wp (plan_positive_step torch sha256_hexdigest c cycle ks rs cap w k key rollback)
    (λ plan s', is_fallback plan ∧ s' = s ∨ opened s plan s')
    (λ _ s', s' = s ∨ s' = set_heap (bump (sc_heap s)) s) s.
Proof.
  intros Hs -> Hk Hqs Hrs Hrb. pose proof (si_heap _ _ _ _ Hs) as Hi. pose proof Hi as (Hok & Hq & _).
  destruct (si_bs _ _ _ _ Hs) as [_ Hbs].
  assert (∀ reason, wp (let* p := lift (build_step torch sha256_hexdigest c cycle rs cap w 0
      (Some reason) None) in ret (mk_plan_ref cycle (StepPlan p)))
    (λ plan s', is_fallback plan ∧ s' = s ∨ opened s plan s')
    (λ _ s', s' = s ∨ s' = set_heap (bump (sc_heap s)) s) s) as Hfall.
  { intros reason. apply wp_bind, wp_lift; [|by left]. intros p (Ek & _)%build_inv.
    apply wp_ret. left. split; [by exists p|done]. }
  unfold plan_positive_step.
  destruct (build_step _ _ _ _ _ _ _ _ _ _) as [p|e] eqn:Ep.
  2: { destruct e; try by (apply wp_raise; left). apply Hfall. }
  apply build_inv in Ep as (Ek & Hk0 & Hpost & Hrows). specialize (Hrows Hk).
  apply wp_bind, wp_lift; [|by left]. intros targets Ht. rewrite Hrows in Ht.
  apply highest_targets in Ht.
  apply wp_bind. pose proof (reserve_run (sc_heap s) (zip (running s) targets) Hok Hq) as Hres.
  unfold wp at 1 in Hres. unfold wp at 1, on_heap, zoom.
  destruct (reserve_temporary_append _ (sc_heap s)) as [[[r|]|e] h'].
  - destruct Hres as (_ & Hl & Hcov & _).
    destruct (lease_rooms (sc_heap s) k (running s) rs targets r qs Hqs Hrs Ht ltac:(lia) Hcov)
      as [Hrow Hroom].
    assert (∀ x, x ∈ running s → is_Some (seqs (set_heap h' s) !! x)) as Hst.
    { intros x. rewrite <-Hrow. intros (row & -> & Hin)%list_elem_of_fmap.
      destruct (leased_row (sc_heap s) r h' Hl row Hin) as (q & _ & E & _). by eexists. }
    eapply wp_mono; [exact (open_transaction_run cycle (running s) p rollback r (set_heap h' s)
      (sc_heap s) Hok Hq (si_plans _ _ _ _ Hs) Hl Hst)| |by right].
    intros plan s' (p' & Ep' & Ek' & Hpost' & ->). right.
    exists p', (mk_transaction plan r rollback false).
    split; [done|]. split; [done|]. destruct (si_plans _ _ _ _ Hs) as (_ & _ & Hpend).
    split; try done; [split; [done|lia]| | |].
    + exists (sc_heap s). by split_and!.
    + intros row Hin. rewrite Ek', Ek. by apply Hroom.
    + exists plan. split; [done|]. apply Nat.eqb_refl.
  - destruct Hres as (_ & -> & _). rewrite set_heap_id. apply Hfall.
  - destruct Hres as [-> _]. rewrite set_heap_id. by left.
Qed.

Lemma capture_run s ks pre :
  (∀ k, k ∈ ks → is_Some (seqs s !! k)) →
  ∃ o, capture_decode_schedule_rollback ks pre s = (Ok o, s) ∧
    ∀ rollback, o = Some rollback → ks = running s → decode_record s rollback.
Proof.
  intros Hks. unfold capture_decode_schedule_rollback. destruct (_ || _); [by eexists|].
  destruct (read_all ks s Hks) as (qs & E & Hqs). rewrite (bind_ok (gets sc_config) _ s _ s eq_refl).
  rewrite (bind_ok _ _ _ _ _ E). destruct (forallb pure_decode_row qs) eqn:Ef; [|by eexists].
  eexists. split; [reflexivity|]. intros rb [= <-] ->. exists qs. split; [done|]. split; [|done].
  apply Forall_forall. intros q Hq. rewrite forallb_forall in Ef. apply Ef. by apply list_elem_of_In.
Qed.

Lemma opened_untouched s s1 plan s' :
  untouched s s1 → sc_heap s1 = sc_heap s → sinv kv_inv [] (running s) s →
  opened s1 plan s' → opened s plan s'.
Proof.
  intros (n & h & -> & _) Eh Hs (p & t & Ep & Et & [? ? ? ? ? ? ? ? ? ? ? ?]). simpl in Eh.
  exists p, t. split; [done|]. split; [done|]. split; try done; by subst h.
Qed.

Lemma plan_step_run s w admission baseline :
  sinv kv_inv [] (running s) s →
  wp (plan_speculative_step torch sha256_hexdigest (running s) w admission baseline)
    (λ plan s', is_fallback plan ∧ untouched s s' ∨ opened s plan s')
    (λ _ s', untouched s s') s.
Proof.
  intros Hs. pose proof (si_plans _ _ _ _ Hs) as (E1 & E2 & E3).
  assert (untouched s s) as Hss by (exists (_draft_discard_cycle_ids s), (sc_heap s); destruct s; auto).
  assert (∀ k, k ∈ running s → is_Some (seqs s !! k)) as Hst.
  { intros k Hk. destruct (si_run _ _ _ _ Hs k) as (q & Hq & _); [set_solver|by exists q]. }
  destruct (read_all (running s) s Hst) as (qs & Eqs & Hqs).
  unfold plan_speculative_step. apply wp_bind. eapply wp_eq; [reflexivity|].
  rewrite E1, E2, E3. apply wp_bind, wp_eq with tt s; [done|].
  apply wp_bind. eapply wp_eq; [exact Eqs|].
  apply wp_bind, wp_lift; [|done]. intros rs Hrs%snapshots_run.
  apply wp_bind, wp_lift; [|done]. intros cap _.
  apply wp_bind. set (n := S (_draft_discard_cycle_ids s)).
  apply wp_eq with (_draft_discard_cycle_ids s) (set_cycle_ids n s); [done|].
  set (s1 := set_cycle_ids n s). pose proof (untouched_ids n s) as Hs1. fold s1 in Hs1.
  assert (∀ cycle reason, wp (let* p := lift (build_step torch sha256_hexdigest (sc_config s) cycle
      rs cap w 0 (Some reason) None) in ret (mk_plan_ref cycle (StepPlan p)))
    (λ plan s', is_fallback plan ∧ untouched s s' ∨ opened s plan s')
    (λ _ s', untouched s s') s1) as Hfall.
  { intros cycle reason. apply wp_bind, wp_lift; [|done]. intros p (Ek & _)%build_inv.
    apply wp_ret. left. split; [by exists p|done]. }
  destruct rs as [|r0 rs']; [apply Hfall|].
  destruct (capture_run s1 (running s) false Hst) as (o & Eo & Hrec).
  apply wp_bind. eapply wp_eq; [exact Eo|]. destruct o as [rollback|]; [|apply Hfall].
  specialize (Hrec rollback eq_refl eq_refl).
  apply wp_bind, wp_raise_if; [done|intros _].
  apply wp_bind, wp_raise_if; [done|intros _].
  apply wp_bind, wp_raise_if; [done|intros _].
  apply wp_bind, wp_lift; [|done]. intros k _.
  destruct (Z.eqb_spec k 0) as [_|Hk].
  { apply wp_bind, wp_lift; [|done]. intros bounds _.
    apply wp_bind, wp_lift; [|done]. intros reason _. apply Hfall. }
  destruct admission as [a|]; [|by apply wp_raise].
  destruct (key_for a k) as [key|]; [|apply Hfall].
  eapply wp_mono; [exact (plan_positive_run (sc_config s) _ (running s) (r0 :: rs') cap w k key
    rollback s1 qs (untouched_sinv _ _ _ _ Hs Hs1) eq_refl Hk Hqs Hrs Hrec)| |].
  - intros plan s' [[Hf ->]|Ho]; [by left|right].
    by apply (opened_untouched s s1).
  - intros _ s' [->| ->]; [done|]. exists n, (bump (sc_heap s)). by auto.
Qed.

(** C29: planning a speculative step is safe whatever it decides.  On a scheduled
    batch, [plan_speculative_step] returns a fallback plan or raises with the
    scheduler untouched (identifiers apart, and any lease it took undone), or it
    opens a transaction: a valid plan with K proposals per row, and a lease
    whose tables cover the whole burst of every scheduled row. *)
Theorem plan_speculative_step_spec s w admission baseline :
  sinv kv_inv [] (running s) s →
  wp (plan_speculative_step torch sha256_hexdigest (running s) w admission baseline)
    (λ plan s', is_fallback plan ∧ untouched s s' ∨ opened s plan s')
    (λ _ s', untouched s s') s.
Proof. apply plan_step_run. Qed.

(** ** Preparing the target writes *)

(** Preparing the target writes of an open transaction always succeeds and
    keeps it open: the leased blocks lose their cached identity, everything the
    commit needs stays. *)
Lemma prepare_target_writes_open s0 p t s plan :
  tx_open compute_hash false s0 p t s → same_plan (tx_plan t) plan = true →
  ∃ t' s', prepare_speculative_target_writes plan s = (Ok tt, s') ∧
    tx_plan t' = tx_plan t ∧ tx_open compute_hash true s0 p t' s'.
Proof.
  intros [Hs Hqu Hpend Htx Hw Hplan Hpos Hrows (base & Hbase & Hss & Hbs & Hl) Hroom _ Hundo] Hsame.
  pose proof Hbase as (Hok & _).
  destruct (prepare_run base _ _ Hok Hl) as (h2 & E & Hl2).
  set (r' := amended _ _) in *.
  exists (mk_transaction (tx_plan t) r' (tx_baseline_decode_rollback t) true). eexists.
  split; [|split; [done|]].
  - unfold prepare_speculative_target_writes. rewrite (bind_ok get _ s s s eq_refl).
    unfold transaction_of. rewrite Htx, Hsame, Hw. simpl when.
    rewrite (bind_ok _ _ _ _ _ (on_heap_ok _ s _ _ E)). reflexivity.
  - split; try done; [|exists plan; by unfold same_plan in *; rewrite Nat.eqb_sym].
    exists (forget (rv_allocation_order (tx_reservation t)) base).
    split; [|done]. apply kv_forget; [done|]. by apply (lease_free base _ _ Hl).
Qed.
End open.
