(* ===== verification/Metrics.v ===== *)
(** * Metrics: the durations of one request

    Models src/nanovllm/metrics.py.  Time stamps are clock ticks, so durations
    are integers and the mean inter-token latency is the rational it denotes
    (the source divides floats).  Subtracting a time stamp that is still [None]
    is Python's [TypeError].  The theorem states the accounting: on a sequence
    stamped by the scheduler the engine durations add up. *)
From Stdlib Require Import QArith.
From S2P Require Import Prelude SamplingParams Sequence.
#[local] Open Scope Z_scope.

Record metrics := mk_metrics {
  engine_queue_time : Z;
  engine_ttft : Z;
  engine_e2e : Z;
  engine_mean_itl : Q;
  engine_max_itl : Z;
  engine_itls : list Z;
  submission_to_engine : Z;
  submission_to_first_token : Z;
  submission_to_engine_finish : Z;
  m_num_prompt_tokens : Z;
  m_num_completion_tokens : Z;
  m_spec_metrics : option spec_counters;
  (** [first_token_to_delivery] and [caller_ttft] *)
  first_delivery_metrics : option (Z * Z);
  (** [engine_finish_to_delivery] and [caller_e2e] *)
  delivery_metrics : option (Z * Z);
}.

(** [a - b] where [a] may be [None]. *)
Definition minus_stamp (a : option Z) (b : Z) : outcome Z :=
  match a with
  | Some a => Ok (a - b)
  | None => Raise (TypeError "unsupported operand type(s) for -")
  end.

(** [[b - a for a, b in zip(times, times[1:])]]. *)
Definition gaps (times : list Z) : list Z := zip_with (λ a b, b - a) times (tail times).

Definition sum_Z (l : list Z) : Z := foldr Z.add 0 l.
Definition max_Z (x : Z) (l : list Z) : Z := foldl Z.max x l.

Definition compute_metrics (q : sequence) (delivery first_delivery : option Z)
    : outcome metrics :=
  let t := times q in
  let itls := gaps (token_times t) in
  let? queue := minus_stamp (first_scheduled_time t) (engine_arrival_time t) in
  let? ttft := minus_stamp (first_token_time t) (engine_arrival_time t) in
  let? e2e := minus_stamp (finish_time t) (engine_arrival_time t) in
  let mean := match itls with
              | [] => 0%Q
              | _ => (inject_Z (sum_Z itls) / inject_Z (Z.of_nat (length itls)))%Q end in
  let max := match itls with [] => 0 | x :: l => max_Z x l end in
  let? sub_first := minus_stamp (first_token_time t) (submission_time t) in
  let? sub_finish := minus_stamp (finish_time t) (submission_time t) in
  let first_delivery := match first_delivery with
                        | None => first_delivery_time t | Some d => Some d end in
  let delivery := match delivery with None => delivery_time t | Some d => Some d end in
  let? first_m := match first_delivery, first_token_time t with
                  | Some d, Some f => Ok (Some (d - f, d - submission_time t))
                  | Some d, None => Raise (TypeError "unsupported operand type(s) for -")
                  | None, _ => Ok None end in
  let? last_m := match delivery, finish_time t with
                 | Some d, Some f => Ok (Some (d - f, d - submission_time t))
                 | Some d, None => Raise (TypeError "unsupported operand type(s) for -")
                 | None, _ => Ok None end in
  Ok (mk_metrics queue ttft e2e mean max itls
        (engine_arrival_time t - submission_time t) sub_first sub_finish
        (num_prompt_tokens q) (num_completion_tokens q) (spec_metrics q) first_m last_m).

(** ** Accounting *)

(** The stamps of a finished request: [postprocess] stamps the first and the
    last token with the readings it stores as [first_token_time] and
    [finish_time]. *)
Record stamped (q : sequence) : Prop := {
  st_scheduled : is_Some (first_scheduled_time (times q));
  st_first : is_Some (first_token_time (times q)) ∧
    head (token_times (times q)) = first_token_time (times q);
  st_last : last (token_times (times q)) = finish_time (times q);
}.

Lemma sum_gaps x l : sum_Z (gaps (x :: l)) = default x (last (x :: l)) - x.
Proof.
  revert x. induction l as [|y l IH]; intros x; [unfold gaps; simpl; lia|].
  change (gaps (x :: y :: l)) with ((y - x) :: gaps (y :: l)).
  change (sum_Z ((y - x) :: gaps (y :: l))) with (y - x + sum_Z (gaps (y :: l))). rewrite IH.
  change (last (x :: y :: l)) with (last (y :: l)).
  destruct (last (y :: l)) as [z|] eqn:E; [cbn; lia|]. by apply last_None in E.
Qed.

Lemma length_gaps l : length (gaps l) = pred (length l).
Proof. unfold gaps. rewrite length_zip_with. destruct l; [done|]. cbn [length tail pred]. lia. Qed.

Lemma compute_metrics_run q delivery first_delivery :
  stamped q → ∃ m, compute_metrics q delivery first_delivery = Ok m ∧
    engine_ttft m + sum_Z (engine_itls m) = engine_e2e m ∧
    submission_to_engine m + engine_e2e m = submission_to_engine_finish m ∧
    submission_to_engine m + engine_ttft m = submission_to_first_token m ∧
    length (engine_itls m) = pred (length (token_times (times q))) ∧
    (∀ d e, delivery_metrics m = Some (d, e) → submission_to_engine_finish m + d = e).
Proof.
  intros [[ts Hs] [[tf Hf] Hh] Hl]. rewrite Hf in Hh.
  destruct (token_times (times q)) as [|x l] eqn:El; [done|]. simpl in Hh. injection Hh as ->.
  destruct (last (tf :: l)) as [te|] eqn:Ee; [|by apply last_None in Ee].
  symmetry in Hl. pose proof (sum_gaps tf l) as Hsum. rewrite Ee in Hsum. simpl default in Hsum.
  unfold compute_metrics. rewrite Hs, Hf, Hl, El.
  set (fd := match first_delivery with None => _ | _ => _ end).
  set (dl := match delivery with None => _ | _ => _ end).
  destruct fd as [d1|], dl as [d2|]; cbn [minus_stamp obind];
    (eexists; split; [reflexivity|]); cbn -[gaps sum_Z];
    rewrite Hsum, length_gaps; (split_and!; try done; try lia); intros; simplify_eq; lia.
Qed.
