(* ===== verification/Engine.v ===== *)
(** * Engine: the serving facade over the scheduler

    Models class LLMEngine of src/nanovllm/engine/llm_engine.py: admission of
    single requests and batches, the exclusive session lease, one engine step
    with its three execution paths (ordinary, draft-then-discard, verified
    speculation) and its failure handling, and [generate].  The model runner's
    answers come from the GPU: it is an environment [runner] whose answer to the
    n-th call is arbitrary; so are the tokenizer and the calibrated policy.
    Locks order threads and do not appear in this sequential model; process
    management and the progress bar's display are left out. *)
From S2P Require Import Prelude SamplingParams Sequence Heap BlockManager Reservation SpecMemory.
From S2P Require Import SpecRoutes SpecPlan SpecResult Scheduler SpecScheduler Metrics.

(** ** Data *)

Record AdmissionLimits := mk_limits {
  lim_max_model_len : option Z;
  lim_vocab_size : option Z;
  lim_block_size : option Z;
  lim_kvcache_blocks : option Z;
}.

Record StepOutput := mk_step_output {
  out_events : list StreamOutput;
  out_finished : list nat;
  num_prefill_tokens : Z;
  num_decode_tokens : Z;
}.

Record DraftDiscardRowResult := mk_ddr_row {
  ddr_seq_id : nat;
  coverage_after_commit : Z;
  ddr_proposed_token_ids : list Z;
  proposal_count : Z;
}.

Record DraftDiscardResult := mk_ddr {
  ddr_rows : list DraftDiscardRowResult;
  ddr_route_key : DraftRouteKey;
  ddr_effective_k : Z;
  catchup_positions : Z;
  ddr_draft_positions : Z;
  graph_decode_steps : Z;
  eager_decode_steps : Z;
  q_shape : list Z;
  q_stride : list Z;
  q_dtype : string;
  q_storage_contiguous : bool;
  q_view_zero_copy : bool;
}.

(** A prompt argument: text, a list of Python values, or anything else. *)
Inductive prompt :=
  | PromptText (s : string)
  | PromptTokens (l : list pyval)
  | PromptOther.

(** One item of the answer of [generate]. *)
Record completion := mk_completion {
  c_text : string;
  c_token_ids : list Z;
  c_metrics : metrics;
}.

(** The engine: its scheduler, the next [Sequence] id, the active session and
    the calls made to the runner so far. *)
Record engine := mk_engine {
  scheduler_of : scheduler;
  next_seq_id : nat;
  _active_session : option (nat * string);
  next_lease : nat;
  calls : nat;
}.

Definition set_sched v e :=
  mk_engine v (next_seq_id e) (_active_session e) (next_lease e) (calls e).
Definition set_next_id v e :=
  mk_engine (scheduler_of e) v (_active_session e) (next_lease e) (calls e).
Definition set_session v e :=
  mk_engine (scheduler_of e) (next_seq_id e) v (next_lease e) (calls e).
Definition set_next_lease v e :=
  mk_engine (scheduler_of e) (next_seq_id e) (_active_session e) v (calls e).
Definition set_calls v e :=
  mk_engine (scheduler_of e) (next_seq_id e) (_active_session e) (next_lease e) v.

Definition ME (A : Type) : Type := M engine A.

Definition on_sched {A} (m : MS A) : ME A := zoom scheduler_of set_sched m.

(** [try: m except BaseException: record_cleanup_failure(...)]. *)
Definition suppress {S A} (m : M S A) : M S unit := λ s, (Ok tt, (m s).2).

(** The model runner, the tokenizer and the adaptive policy.  The first
    argument of the runner's methods is the number of earlier calls. *)
Record runner := mk_runner {
  speculation_enabled : bool;
  speculative_verifier_ready : bool;
  speculative_memory_plan : SpeculativeMemoryPlan;
  resolve_draft_route_admission :
    nat → list sequence → outcome (option DraftRouteAdmission);
  run : nat → list sequence → bool → outcome (list Z);
  run_speculative : nat → plan_ref → list sequence → outcome SpecExecutionResult;
  run_speculative_discard : nat → plan_ref → list sequence → outcome DraftDiscardResult;
  verifier_route_ready : nat → Z → Z → bool;
  (** [policy.choose(...).selected_k], when the policy is adaptive *)
  policy_choose : option (nat → list sequence → list Z → Z → option Z);
  policy_observe : nat → SpecExecutionResult → outcome unit;
}.

Definition positive_int (v : pyval) : option Z :=
  match v with VInt z => if 0 <? z then Some z else None | _ => None end.

Definition _snapshot_admission_limits (max_model_len vocab_size block_size blocks : pyval)
    : AdmissionLimits :=
  mk_limits (positive_int max_model_len) (positive_int vocab_size) (positive_int block_size)
    (positive_int blocks).

(** One parameter object for the batch, or one per prompt; [None] is an object
    that is not a [SamplingParams]. *)
Definition _normalize_batch (prompts : list prompt)
    (sampling_params : option SamplingParams + list (option SamplingParams))
    : outcome (list (option SamplingParams)) :=
  match sampling_params with
  | inl p => Ok (replicate (length prompts) p)
  | inr ps =>
      oraise_if (negb (length ps =? length prompts)%nat)
        (ValueError "prompts and sampling_params must have the same length (the same number of items)") ;?
      Ok ps
  end.

Section engine.
Variable compute_hash : list Z → Z → Z.
Variable clock : nat → Z.
Variable torch : torch_dtypes.
Variable sha256_hexdigest : payload → string.
Variable encode : string → list Z.
Variable decode : list Z → string.
Variable limits : AdmissionLimits.
Variable env : runner.

Definition engine_clock : ME Z := on_sched (read_clock clock).

(** A call of the runner. *)
Definition call_runner {A} (f : nat → outcome A) : ME A :=
  let* e := get in modify (set_calls (S (calls e))) ;;; lift (f (calls e)).

Definition rows_of (ks : list nat) : ME (list sequence) := on_sched (map_all seq_at ks).

(** ** Sessions *)

Definition _acquire_session (kind : string) : ME nat :=
  let* e := get in
  raise_if (bool_decide (is_Some (_active_session e)))
    (RuntimeError "cannot start: an active session owns the engine") ;;;
  raise_if (negb (sched_is_finished (scheduler_of e)))
    (RuntimeError "cannot start: the engine has manually queued requests") ;;;
  modify (λ e, set_next_lease (S (next_lease e)) (set_session (Some (next_lease e, kind)) e)) ;;;
  ret (next_lease e).

Definition _release_session (lease : nat) : ME unit :=
  let* e := get in
  match _active_session e with
  | None => ret tt
  | Some (owner, _) =>
      raise_if (negb (owner =? lease)%nat)
        (RuntimeError "attempted to release a stream session owned elsewhere") ;;;
      modify (set_session None)
  end.

Definition _assert_public_step_access : ME unit :=
  let* e := get in
  raise_if (bool_decide (is_Some (_active_session e)))
    (RuntimeError "an active session owns the engine").

Definition _cancel_requests (seq_ids : list nat) : ME (list nat) := on_sched (cancel seq_ids).

(** ** Admission *)

(** The checks of one prompt token. *)
Definition check_prompt_token (v : pyval) : outcome Z :=
  match v with
  | VInt t =>
      oraise_if (t <? 0) (ValueError "prompt token ids must be non-negative") ;?
      oraise_if match lim_vocab_size limits with Some n => n <=? t | None => false end
        (ValueError "prompt token id is outside the model vocabulary") ;?
      Ok t
  | _ => Raise (TypeError "prompt token ids must be integers")
  end.

(** The checks against the model length and the block pool. *)
Definition check_limits (prompt_len max_toks : Z) : outcome unit :=
  let processed_tokens := prompt_len + max_toks - 1 in
  match lim_max_model_len limits with
  | None => Ok tt
  | Some max_model_len =>
      oraise_if (max_model_len <? prompt_len)
        (ValueError "prompt length exceeds max_model_len") ;?
      oraise_if (max_model_len <? processed_tokens)
        (ValueError "model-processed tokens exceeds max_model_len")
  end ;?
  match lim_block_size limits, lim_kvcache_blocks limits with
  | Some block_size, Some kvcache_blocks =>
      oraise_if (kvcache_blocks <? (processed_tokens + block_size - 1) `div` block_size)
        (ValueError "request needs more KV-cache blocks than the pool has")
  | _, _ => Ok tt
  end.

(** The prompt as token values. *)
Definition prompt_values (p : prompt) : outcome (list pyval) :=
  match p with
  | PromptText s => Ok (VInt <$> encode s)
  | PromptTokens l => Ok l
  | PromptOther => Raise (TypeError "prompt must be a string or a list of token ids")
  end.

(** The validated copy of the parameters. *)
Definition copy_params (p : option SamplingParams) : outcome sampling :=
  match p with
  | None => Raise (TypeError "sampling_params must be a SamplingParams instance")
  | Some raw =>
      validate raw ;?
      match typed raw with Some s => Ok s | None => Raise Dangling end
  end.

(** [Sequence(...)]: draws the next id. *)
Definition new_sequence (toks : list Z) (p : sampling) (submission arrival : Z) : ME nat :=
  let* e := get in
  let* q := lift (Sequence_init (next_seq_id e) toks p (Some submission) (Some arrival) 0) in
  modify (set_next_id (S (next_seq_id e))) ;;;
  on_sched (modify (λ s, set_heap (set_seqs <[next_seq_id e := q]> (sc_heap s)) s)) ;;;
  ret (next_seq_id e).

Definition _admit_request (pr : prompt) (sampling_params : option SamplingParams)
    (submission_time : option Z) : ME nat :=
  let* submission := match submission_time with
                     | None => engine_clock | Some t => ret t end in
  on_sched (require_capacity 1) ;;;
  let* p := lift (copy_params sampling_params) in
  let* values := lift (prompt_values pr) in
  raise_if (bool_decide (values = [])) (ValueError "prompt must contain at least one token") ;;;
  let* prompt_ids := lift (omap_all check_prompt_token values) in
  lift (check_limits (Z.of_nat (length prompt_ids)) (sp_max_tokens p)) ;;;
  let* arrival := engine_clock in
  let* k := new_sequence prompt_ids p submission arrival in
  on_sched (add k) ;;;
  ret k.

(** The admission loop of a batch: the requests admitted before the first
    failure, and that failure. *)
Fixpoint admit_each (rows : list (prompt * option SamplingParams)) (submission : Z)
    : ME (list nat * option exn) :=
  match rows with
  | [] => ret ([], None)
  | (pr, p) :: rows' => λ e,
      match _admit_request pr p (Some submission) e with
      | (Raise ex, e') => (Ok ([], Some ex), e')
      | (Ok k, e') =>
          (let* (ks, ex) := admit_each rows' submission in ret (k :: ks, ex)) e'
      end
  end.

Definition _admit_batch (prompts : list prompt) (params : list (option SamplingParams))
    (submission : Z) : ME (list nat) :=
  on_sched (require_capacity (Z.of_nat (length prompts))) ;;;
  let* (admitted, failure) := admit_each (zip prompts params) submission in
  match failure with
  | Some ex => suppress (_cancel_requests admitted) ;;; raise ex
  | None => ret admitted
  end.

Definition add_request (pr : prompt) (sampling_params : option SamplingParams)
    (submission_time : option Z) : ME nat :=
  _assert_public_step_access ;;;
  _admit_request pr sampling_params submission_time.

(** ** Draft-discard results *)

Definition ddr_error (msg : string) : exn := SpeculativeDiscardResultError msg.

(** The plan-level checks, in the order of the source. *)
Definition validate_ddr_header (plan : DraftDiscardPlan) (result : DraftDiscardResult)
    (num_seqs : nat) (vocab : Z) : outcome unit :=
  let k := dp_effective_k plan in
  let n := Z.of_nat (length (dp_rows plan)) in
  oraise_if (vocab <? 1)
    (ddr_error "draft result validation requires a positive integer vocabulary") ;?
  oraise_if (k <? 1) (ddr_error "executed draft plan must have a positive effective_k") ;?
  oraise_if (negb (length (dp_rows plan) =? num_seqs)%nat)
    (ddr_error "draft plan rows do not match the live decode batch") ;?
  oraise_if (negb (ddr_effective_k result =? k))
    (ddr_error "draft result effective_k does not match its plan") ;?
  oraise_if (negb (bool_decide (dp_route_key plan = Some (ddr_route_key result))))
    (ddr_error "draft result route key does not match its registered plan") ;?
  oraise_if (negb (length (ddr_rows result) =? length (dp_rows plan))%nat)
    (ddr_error "draft result rows do not match its plan") ;?
  oraise_if (negb (ddr_draft_positions result =? n * k))
    (ddr_error "draft result reports an invalid position count") ;?
  oraise_if ((graph_decode_steps result <? 0) || (eager_decode_steps result <? 0)
             || negb (graph_decode_steps result + eager_decode_steps result =? k))
    (ddr_error "draft result reports invalid eager/graph step counts") ;?
  let expected_catchup :=
    foldr Z.add 0 ((λ r, dr_committed_tokens r - 1 - dr_draft_cached_tokens r) <$> dp_rows plan) in
  oraise_if (negb (dp_draft_catchup_tokens plan =? expected_catchup))
    (ddr_error "draft plan reports invalid catch-up work") ;?
  oraise_if (negb (bool_decide (dp_draft_step_token_counts plan = replicate (Z.to_nat k) n)))
    (ddr_error "draft plan reports invalid proposal-step counts") ;?
  oraise_if (negb (dp_target_query_tokens plan =? n)
             || negb (dp_total_scheduled_tokens plan =? expected_catchup + n * (k + 1)))
    (ddr_error "draft plan reports invalid total work") ;?
  oraise_if (negb (catchup_positions result =? expected_catchup))
    (ddr_error "draft result reports invalid catch-up work") ;?
  oraise_if (negb (bool_decide (q_shape result = [n; k; vocab])))
    (ddr_error "draft result reports an invalid retained-q shape") ;?
  oraise_if (negb (bool_decide (q_stride result = [vocab; n * vocab; 1])))
    (ddr_error "draft result reports an invalid retained-q stride") ;?
  oraise_if (negb (bool_decide (q_dtype result = "torch.float32"%string)))
    (ddr_error "draft result did not retain canonical FP32 probabilities") ;?
  oraise_if (negb (q_storage_contiguous result) || negb (q_view_zero_copy result))
    (ddr_error "draft result violates the direct retained-q storage contract").

(** The row loop: builds [coverage_by_seq_id]. *)
Fixpoint validate_ddr_rows (k vocab : Z) (prs : list DraftDiscardRow)
    (rrs : list DraftDiscardRowResult) (qs : list sequence) (coverage : gmap nat Z)
    : outcome (gmap nat Z) :=
  match prs, rrs, qs with
  | pr :: prs', rr :: rrs', q :: qs' =>
      oraise_if (negb (dr_seq_id pr =? seq_id q)%nat || negb (ddr_seq_id rr =? dr_seq_id pr)%nat)
        (ddr_error "draft result row has a stale sequence ID") ;?
      oraise_if (negb (coverage_after_commit rr =? dr_committed_tokens pr))
        (ddr_error "draft result row has invalid cache coverage") ;?
      oraise_if (negb (proposal_count rr =? k)
                 || negb (Z.of_nat (length (ddr_proposed_token_ids rr)) =? k)
                 || existsb (λ t, (t <? 0) || (vocab <=? t)) (ddr_proposed_token_ids rr))
        (ddr_error "draft result row has invalid proposal tokens") ;?
      oraise_if (bool_decide (is_Some (coverage !! dr_seq_id pr)))
        (ddr_error "draft result contains duplicate sequence IDs") ;?
      validate_ddr_rows k vocab prs' rrs' qs' (<[dr_seq_id pr := dr_committed_tokens pr]> coverage)
  | [], [], [] => Ok coverage
  | _, _, _ => Raise (ValueError "zip() arguments have different lengths")
  end.

Definition _validate_draft_discard_result (plan : plan_ref) (result : DraftDiscardResult)
    (qs : list sequence) (vocab : Z) : outcome (gmap nat Z) :=
  let p := match pr_plan plan with
           | StepPlan p => as_draft_discard_plan p | DiscardPlan p => p end in
  validate_ddr_header p result (length qs) vocab ;?
  validate_ddr_rows (dp_effective_k p) vocab (dp_rows p) (ddr_rows result) qs ∅.

(** ** The speculative paths of a step *)

Definition _resolve_draft_route_admission (qs : list sequence)
    : ME (option DraftRouteAdmission) :=
  if negb (speculation_enabled env) then ret None
  else call_runner (λ n, resolve_draft_route_admission env n qs).

Definition _rollback_failed_draft_state (plan : plan_ref) : ME unit :=
  suppress (on_sched (rollback_draft_discard plan)) ;;;
  suppress (on_sched (abort_draft_coverage plan)).

(** The vocabulary of the admission limits. *)
Definition known_vocabulary : outcome Z :=
  match lim_vocab_size limits with
  | Some v => Ok v
  | None => Raise (RuntimeError "speculative execution requires a known vocabulary")
  end.

Definition _execute_draft_discard (ks : list nat) (is_prefill : bool)
    : ME (option (plan_ref * gmap nat Z)) :=
  if is_prefill || negb (speculation_enabled env) then ret None else
  let* qs := rows_of ks in
  let* route_admission := _resolve_draft_route_admission qs in
  let* plan := on_sched match route_admission with
    | None => plan_draft_discard ks (Some 0) None
    | Some a => plan_draft_discard ks None (Some a) end in
  if negb (plan_uses_draft (pr_plan plan)) then ret None else
  try_handler
    (let* qs := rows_of ks in
     let* result := call_runner (λ n, run_speculative_discard env n plan qs) in
     let* vocab := lift known_vocabulary in
     let* coverage := lift (_validate_draft_discard_result plan result qs vocab) in
     on_sched (handoff_draft_discard plan) ;;;
     on_sched (stage_draft_coverage plan ks coverage) ;;;
     ret (Some (plan, coverage)))
    (_rollback_failed_draft_state plan).

Definition _execute_speculative_shadow (ks : list nat)
    (schedule_rollback : option DecodeScheduleRollback)
    : ME (option (plan_ref * gmap nat Z)) :=
  let* qs := rows_of ks in
  let* admission := _resolve_draft_route_admission qs in
  let* plan := on_sched (plan_speculative_step torch sha256_hexdigest ks
    (speculative_memory_plan env) admission schedule_rollback) in
  if negb (plan_uses_draft (pr_plan plan)) then ret None else
  let* qs := rows_of ks in
  let* result := call_runner (λ n, run_speculative_discard env n plan qs) in
  let* vocab := lift match lim_vocab_size limits with
    | Some v => Ok v
    | None => Raise (ddr_error "draft result validation requires a positive integer vocabulary")
    end in
  let* coverage := lift (_validate_draft_discard_result plan result qs vocab) in
  on_sched (handoff_draft_discard plan) ;;;
  on_sched (stage_draft_coverage plan ks coverage) ;;;
  ret (Some (plan, coverage)).

(** [replace(admission, route_keys=...)]: the copy is validated again. *)
Definition with_route_keys (a : DraftRouteAdmission) (keys : list DraftRouteKey)
    : outcome DraftRouteAdmission :=
  let a' := mk_admission (registry_schema a) (adm_plan_fingerprint a) (adm_batch_size a)
              (catchup_tokens a) keys in
  DraftRouteAdmission_post_init a' ;? Ok a'.

(** The admission restricted to the routes whose verifier is ready. *)
Definition ready_admission (n : nat) (batch : Z) (admission : option DraftRouteAdmission)
    : outcome (option DraftRouteAdmission) :=
  match admission with
  | None => Ok None
  | Some a =>
      let? a' := with_route_keys a
        (filter (λ key, verifier_route_ready env n batch (effective_k key) = true) (route_keys a)) in
      Ok (Some a')
  end.

(** The calibrated choice of K: [None] gives the cycle up. *)
Definition choose_admission (n : nat) (qs : list sequence)
    (admission : option DraftRouteAdmission)
    : outcome (option (option DraftRouteAdmission)) :=
  match policy_choose env with
  | None => Ok (Some admission)
  | Some choose =>
      let ks := match admission with
                | None => [] | Some a => effective_k <$> route_keys a end in
      let catchup := match admission with None => 0 | Some a => catchup_tokens a end in
      match choose n qs ks catchup, admission with
      | None, _ => Ok None
      | Some k, Some a =>
          let? a' := with_route_keys a (take (Z.to_nat k) (route_keys a)) in
          Ok (Some (Some a'))
      | Some _, None => Raise AttributeError
      end
  end.

Definition _execute_speculative_verified (ks : list nat)
    (schedule_rollback : option DecodeScheduleRollback) : ME (option (list StreamOutput)) :=
  let* qs := rows_of ks in
  let* admission := _resolve_draft_route_admission qs in
  let* e := get in
  let* admission := lift (ready_admission (calls e) (Z.of_nat (length ks)) admission) in
  let* choice := lift (choose_admission (calls e) qs admission) in
  match choice with
  | None => ret None
  | Some admission =>
      let* plan := on_sched (plan_speculative_step torch sha256_hexdigest ks
        (speculative_memory_plan env) admission schedule_rollback) in
      if negb (plan_uses_draft (pr_plan plan)) then ret None else
      on_sched (prepare_speculative_target_writes plan) ;;;
      let* qs := rows_of ks in
      let* result := call_runner (λ n, run_speculative env n plan qs) in
      let* events := on_sched (commit_speculative compute_hash clock plan result) in
      match policy_choose env with
      | None => ret tt
      | Some _ => call_runner (λ n, policy_observe env n result)
      end ;;;
      ret (Some events)
  end.

(** ** One step *)

(** What the first half of a step decides: events of a verified burst, or a
    draft cycle to commit with the ordinary tokens. *)
Definition execute_cycle (ks : list nat) (is_prefill : bool)
    (rollback : option DecodeScheduleRollback)
    : ME (option (list StreamOutput) * option (plan_ref * gmap nat Z)) :=
  if negb is_prefill && speculative_verifier_ready env then
    let* events := _execute_speculative_verified ks rollback in ret (events, None)
  else if negb is_prefill && speculation_enabled env then
    let* cycle := _execute_speculative_shadow ks rollback in ret (None, cycle)
  else
    let* cycle := _execute_draft_discard ks is_prefill in ret (None, cycle).

(** The [except] clause: every cleanup failure is recorded, the error goes on. *)
Definition step_cleanup (cycle : option (plan_ref * gmap nat Z))
    (rollback : option DecodeScheduleRollback) : ME unit :=
  let* e := get in
  if bool_decide (is_Some (_active_spec_transaction (scheduler_of e)))
  then suppress (on_sched abort_speculative_step)
  else
    match cycle with
    | Some (plan, _) => _rollback_failed_draft_state plan
    | None => ret tt
    end ;;;
    match rollback with
    | Some r => suppress (on_sched (rollback_failed_decode_schedule r))
    | None => ret tt
    end.

Definition commit_cycle (ks : list nat) (is_prefill : bool)
    (events : option (list StreamOutput)) : ME (list StreamOutput) :=
  match events with
  | Some evs => ret evs
  | None =>
      let* qs := rows_of ks in
      let* token_ids := call_runner (λ n, run env n qs is_prefill) in
      on_sched (postprocess compute_hash clock ks token_ids)
  end.

Definition _step : ME StepOutput :=
  let* (ks, has_prefill) := on_sched (schedule compute_hash clock) in
  let* qs := rows_of ks in
  let prefill_tokens :=
    foldr Z.add 0 (num_scheduled_tokens <$> filter (λ q, is_prefill q = true) qs) in
  let decode_tokens := Z.of_nat (length (filter (λ q, is_prefill q = false) qs)) in
  let* rollback :=
    if negb has_prefill && speculation_enabled env
    then on_sched (capture_decode_schedule_rollback ks has_prefill) else ret None in
  let* (events, cycle) := try_handler (execute_cycle ks has_prefill rollback)
                            (step_cleanup None rollback) in
  let* events := try_handler (commit_cycle ks has_prefill events)
                   (step_cleanup cycle rollback) in
  let* qs := rows_of ks in
  let finished := fst <$> filter (λ kq, is_finished kq.2 = true) (zip ks qs) in
  ret (mk_step_output events finished prefill_tokens decode_tokens).

Definition _execute_step : ME (list nat * Z) :=
  let* o := _step in
  ret (out_finished o,
       if num_prefill_tokens o =? 0 then - num_decode_tokens o else num_prefill_tokens o).

Definition step : ME (list (nat * list Z) * Z) :=
  _assert_public_step_access ;;;
  let* (ks, num_tokens) := _execute_step in
  let* qs := rows_of ks in
  ret ((λ q, (seq_id q, completion_token_ids q)) <$> qs, num_tokens).

Definition step_with_metrics : ME (list (nat * list Z * metrics) * Z) :=
  _assert_public_step_access ;;;
  let* (ks, num_tokens) := _execute_step in
  let* delivery_time := engine_clock in
  let* qs := rows_of ks in
  let* outputs := lift (omap_all (λ q,
    let? m := compute_metrics q (Some delivery_time) None in
    Ok (seq_id q, completion_token_ids q, m)) qs) in
  ret (outputs, num_tokens).

Definition engine_is_finished (e : engine) : bool := sched_is_finished (scheduler_of e).

(** ** [generate] *)

(** The throughput of one step: a division by the elapsed time. *)
Definition throughput (tokens dt : Z) : outcome unit :=
  oraise_if (negb (tokens =? 0) && (dt =? 0)) ZeroDivisionError.

(** The [while not self.is_finished()] loop; [outputs] is its dict. *)
Fixpoint generate_loop (fuel : nat) (outputs : gmap nat nat) : ME (gmap nat nat) :=
  match fuel with
  | O => raise OutOfFuel
  | S fuel' =>
      let* e := get in
      if engine_is_finished e then ret outputs else
      let* t := engine_clock in
      let* o := _step in
      let* t' := engine_clock in
      lift (throughput (num_prefill_tokens o) (t' - t)) ;;;
      lift (throughput (num_decode_tokens o) (t' - t)) ;;;
      let* qs := rows_of (out_finished o) in
      generate_loop fuel' (foldl (λ m kq, <[seq_id kq.2 := kq.1]> m) outputs
                             (zip (out_finished o) qs))
  end.

(** The answers, in input order. *)
Definition collect (outputs : gmap nat nat) (ks : list nat) : ME (list completion) :=
  let* qs := rows_of ks in
  let* ordered := lift (omap_all (λ q, match outputs !! seq_id q with
    | Some k => Ok k | None => Raise KeyError end) qs) in
  let* qs := rows_of ordered in
  let* delivery_time := engine_clock in
  lift (omap_all (λ q,
    let? m := compute_metrics q (Some delivery_time) None in
    Ok (mk_completion (decode (completion_token_ids q)) (completion_token_ids q) m)) qs).

(** [try: m finally: cancel; release] with the error priorities of the source. *)
Definition generate_finally {A} (m : ME (list nat * outcome A)) (lease : nat) : ME A := λ e,
  match m e with
  | (Raise ex, e1) => (Raise ex, e1)
  | (Ok (ks, o), e1) =>
      let '(c, e2) := _cancel_requests ks e1 in
      let '(r, e3) := _release_session lease e2 in
      (match o, c, r with
       | Raise ex, _, _ => Raise ex
       | Ok _, Raise ex, _ => Raise ex
       | Ok _, Ok _, Raise ex => Raise ex
       | Ok a, Ok _, Ok _ => Ok a
       end, e3)
  end.

(** The [try] body: the admitted sequences and the outcome. *)
Definition generate_body (fuel : nat) (prompts : list prompt)
    (params : list (option SamplingParams)) (submission : Z)
    : ME (list nat * outcome (list completion)) := λ e,
  match _admit_batch prompts params submission e with
  | (Raise ex, e1) => (Ok ([], Raise ex), e1)
  | (Ok ks, e1) =>
      let '(o, e2) := (let* outputs := generate_loop fuel ∅ in collect outputs ks) e1 in
      (Ok (ks, o), e2)
  end.

Definition generate (fuel : nat) (prompts : list prompt)
    (sampling_params : option SamplingParams + list (option SamplingParams))
    : ME (list completion) :=
  let* params := lift (_normalize_batch prompts sampling_params) in
  let* submission := engine_clock in
  let* lease := _acquire_session "generate" in
  generate_finally (generate_body fuel prompts params submission) lease.
End engine.
