(* ===== verification/EngineSpec.v ===== *)
(** * EngineSpec: admission, one ordinary step, and the clean-up of [generate]

    The operations of the engine against the scheduler's invariant.  The
    runner's answers, exceptions included, are arbitrary.  The ordinary runner
    (no speculation) implements [SafeSteps], what [generate] asks of a step. *)
From S2P Require Import Prelude SamplingParams Sequence Heap BlockManager Reservation SpecMemory.
From S2P Require Import SpecRoutes SpecPlan SpecResult Scheduler SpecScheduler CacheInv KVContract.
From S2P Require Import SchedInv Frame ScheduleSpec PrefillSpec StepSpec Progress CancelSpec.
From S2P Require Import Metrics Engine.

Abbreviation queue e := (waiting (scheduler_of e) ++ running (scheduler_of e)).
Abbreviation stored e := (hp_seqs (sc_heap (scheduler_of e))).
Abbreviation cfg e := (sc_config (scheduler_of e)).

(** What a request asks for: the prompt tokens and the parameters of the
    sequence [Sequence.__init__] makes. *)
Record fresh_for (toks : list Z) (p : sampling) (q : sequence) : Prop := {
  ff_tokens : token_ids q = toks;
  ff_num : num_tokens q = Z.of_nat (length toks);
  ff_prompt : num_prompt_tokens q = Z.of_nat (length toks);
  ff_params : params q = p;
  ff_times : token_times (times q) = [] ∧ first_token_time (times q) = None;
}.

Lemma fresh_for_same toks p q q' :
  same_request q q' → fresh_for toks p q → fresh_for toks p q'.
Proof. intros [] [? ? ? ? []]. split; [..|split]; congruence. Qed.

Lemma on_sched_ok {A} (m : MS A) e a s' :
  m (scheduler_of e) = (Ok a, s') → on_sched m e = (Ok a, set_sched s' e).
Proof. unfold on_sched, zoom. by intros ->. Qed.

Lemma on_sched_raise {A} (m : MS A) e x s' :
  m (scheduler_of e) = (Raise x, s') → on_sched m e = (Raise x, set_sched s' e).
Proof. unfold on_sched, zoom. by intros ->. Qed.

Lemma set_sched_id e : set_sched (scheduler_of e) e = e.
Proof. by destruct e. Qed.

(** ** The rows of a batch *)

Lemma rows_of_run ks e :
  (∀ k, k ∈ ks → is_Some (stored e !! k)) →
  ∃ qs, rows_of ks e = (Ok qs, e) ∧ Forall2 (λ k q, stored e !! k = Some q) ks qs.
Proof.
  intros Hks. assert (∃ qs, map_all seq_at ks (scheduler_of e) = (Ok qs, scheduler_of e) ∧
    Forall2 (λ k q, stored e !! k = Some q) ks qs) as (qs & E & HF).
  { induction ks as [|k ks IH]; [by exists []|].
    destruct (Hks k) as [q Hq]; [set_solver|].
    destruct IH as (qs & E & HF); [intros; apply Hks; set_solver|].
    exists (q :: qs). split; [|by constructor]. cbn [map_all].
    by rewrite (bind_ok _ _ _ _ _ (seq_at_ok _ _ _ Hq)), (bind_ok _ _ _ _ _ E). }
  exists qs. split; [|done]. unfold rows_of. rewrite (on_sched_ok _ _ _ _ E).
  by rewrite set_sched_id.
Qed.

Section spec.
Context (compute_hash : list Z → Z → Z) (clock : nat → Z) (I : heap → Prop)
  `{!KVAllocator compute_hash I}.
Context (encode : string → list Z) (limits : AdmissionLimits).
#[local] Abbreviation sinv := (sinv I).

(** The engine between steps ([sch] empty) or with the batch [sch] under way;
    ids of later sequences are fresh. *)
Record engine_ok (sch : list nat) (e : engine) : Prop := {
  eo_sched : sinv [] sch (scheduler_of e);
  eo_fresh : ∀ k, is_Some (stored e !! k) → (k < next_seq_id e)%nat;
}.

(** What no operation below touches. *)
Record same_session (e e' : engine) : Prop := {
  ss_session : _active_session e' = _active_session e;
  ss_lease : next_lease e' = next_lease e;
  ss_config : cfg e' = cfg e;
  ss_size : bsz (scheduler_of e') = bsz (scheduler_of e);
  ss_pool : pool (scheduler_of e') = pool (scheduler_of e);
  ss_ticks : (ticks (scheduler_of e) <= ticks (scheduler_of e'))%nat;
}.

#[local] Instance same_session_preorder : PreOrder same_session.
Proof. split; [by split|]. intros x y z [] []. split; try congruence. lia. Qed.

(** ** The clock *)

Definition tick (e : engine) : engine :=
  set_sched (set_ticks (S (ticks (scheduler_of e))) (scheduler_of e)) e.

Lemma engine_clock_run e : engine_clock clock e = (Ok (clock (ticks (scheduler_of e))), tick e).
Proof. done. Qed.

Lemma tick_ok sch e : engine_ok sch e → engine_ok sch (tick e).
Proof. intros [Hs Hf]. split; [by apply (sinv_ticks I)|done]. Qed.

Lemma tick_same e : same_session e (tick e).
Proof. split; try done. simpl. lia. Qed.

(** ** Admission *)

(** The pure checks of [_admit_request]: the token ids and the parameters of
    the sequence it will create. *)
Definition request_of (pr : prompt) (sp : option SamplingParams) : outcome (list Z * sampling) :=
  let? p := copy_params sp in
  let? values := prompt_values encode pr in
  oraise_if (bool_decide (values = [])) (ValueError "prompt must contain at least one token") ;?
  let? ids := omap_all (check_prompt_token limits) values in
  check_limits limits (Z.of_nat (length ids)) (sp_max_tokens p) ;?
  Ok (ids, p).

(** What the checks accept, as documented. *)
Record acceptable (pr : prompt) (sp : option SamplingParams) (toks : list Z) (p : sampling)
    : Prop := {
  ac_params : ∃ raw, sp = Some raw ∧ typed raw = Some p ∧ sampling_ok p;
  ac_prompt : prompt_values encode pr = Ok (VInt <$> toks);
  ac_nonempty : toks ≠ [];
  ac_vocab : Forall (λ t, 0 <= t ∧ ∀ v, lim_vocab_size limits = Some v → t < v) toks;
  ac_len : ∀ n, lim_max_model_len limits = Some n →
    Z.of_nat (length toks) <= n ∧ Z.of_nat (length toks) + sp_max_tokens p - 1 <= n;
  ac_fits : ∀ bs n, lim_block_size limits = Some bs → lim_kvcache_blocks limits = Some n →
    ceil_div (Z.of_nat (length toks) + sp_max_tokens p - 1) bs <= n;
}.

Lemma copy_params_ok sp p :
  copy_params sp = Ok p ↔ ∃ raw, sp = Some raw ∧ typed raw = Some p ∧ sampling_ok p.
Proof.
  destruct sp as [raw|]; simpl; [|split; [done|by intros (? & ? & _)]].
  rewrite obind_unit_ok, validate_ok_iff. split.
  - intros [(s & Hs & Hok) E]. rewrite Hs in E. injection E as <-. by exists raw.
  - intros (raw' & [= <-] & Hs & Hok). rewrite Hs. eauto.
Qed.

Lemma check_prompt_token_ok v t : check_prompt_token limits v = Ok t ↔
  v = VInt t ∧ 0 <= t ∧ ∀ n, lim_vocab_size limits = Some n → t < n.
Proof.
  destruct v as [z| | | |]; simpl; try (split; [done|by intros [? _]]).
  rewrite !obind_unit_ok, !oraise_if_ok, Z.ltb_ge. split.
  - intros (H0 & Hn & [= <-]). split_and!; [done|done|]. intros n E. rewrite E in Hn.
    by apply Z.leb_gt.
  - intros ([= ->] & H0 & Hn). split_and!; [done| |done].
    destruct (lim_vocab_size limits) as [n|]; [|done]. by apply Z.leb_gt, Hn.
Qed.

Lemma check_tokens_ok values toks : omap_all (check_prompt_token limits) values = Ok toks ↔
  values = VInt <$> toks ∧
  Forall (λ t, 0 <= t ∧ ∀ v, lim_vocab_size limits = Some v → t < v) toks.
Proof.
  rewrite omap_all_ok. split.
  - induction 1 as [|v t vs ts Ht _ [-> IH]]; [done|].
    apply check_prompt_token_ok in Ht as [-> ?]. split; [done|by constructor].
  - intros [-> HF]. induction HF as [|t ts Ht _ IH]; simpl; constructor; [|done].
    by apply check_prompt_token_ok.
Qed.

Lemma check_limits_ok len m : check_limits limits len m = Ok tt ↔
  (∀ n, lim_max_model_len limits = Some n → len <= n ∧ len + m - 1 <= n) ∧
  ∀ bs n, lim_block_size limits = Some bs → lim_kvcache_blocks limits = Some n →
    ceil_div (len + m - 1) bs <= n.
Proof.
  unfold check_limits, ceil_div. rewrite obind_unit_ok. f_equiv.
  - destruct (lim_max_model_len limits) as [n|]; [|naive_solver].
    rewrite obind_unit_ok, !oraise_if_ok, !Z.ltb_ge. naive_solver.
  - destruct (lim_block_size limits) as [bs|]; [|naive_solver].
    destruct (lim_kvcache_blocks limits) as [n|]; [|naive_solver].
    rewrite oraise_if_ok, Z.ltb_ge. naive_solver.
Qed.

Lemma request_of_iff pr sp toks p : request_of pr sp = Ok (toks, p) ↔ acceptable pr sp toks p.
Proof.
  unfold request_of. rewrite obind_ok. setoid_rewrite obind_ok. setoid_rewrite obind_unit_ok.
  setoid_rewrite obind_ok. setoid_rewrite obind_unit_ok. setoid_rewrite copy_params_ok.
  setoid_rewrite check_tokens_ok. setoid_rewrite check_limits_ok. setoid_rewrite oraise_if_ok.
  setoid_rewrite bool_decide_eq_false. split.
  - intros (p' & Hp & values & Hv & Hne & ids & [-> Hvoc] & [Hl Hf] & [= <- <-]).
    split; try done. intros ->. done.
  - intros [Hp Hv Hne Hvoc Hl Hf]. exists p. split; [done|]. exists (VInt <$> toks).
    split; [done|]. split; [by destruct toks|]. exists toks. done.
Qed.

Definition has_capacity (n : nat) (e : engine) : Prop :=
  Z.of_nat (length (queue e) + n) <= max_num_seqs (cfg e).

#[local] Instance has_capacity_dec n e : Decision (has_capacity n e).
Proof. unfold has_capacity. apply _. Defined.

(** The request [k] was admitted at the back of the waiting queue. *)
Record admitted (k : nat) (toks : list Z) (p : sampling) (e e' : engine) : Prop := {
  ad_waiting : waiting (scheduler_of e') = waiting (scheduler_of e) ++ [k];
  ad_running : running (scheduler_of e') = running (scheduler_of e);
  ad_new : stored e !! k = None;
  ad_next : next_seq_id e' = S (next_seq_id e) ∧ k = next_seq_id e;
  ad_row : ∃ q, stored e' !! k = Some q ∧ fresh_for toks p q;
  ad_others : ∀ x, x ≠ k → stored e' !! x = stored e !! x;
}.

(** The queues and the store are as before. *)
Record rejected (e e' : engine) : Prop := {
  rj_waiting : waiting (scheduler_of e') = waiting (scheduler_of e);
  rj_running : running (scheduler_of e') = running (scheduler_of e);
  rj_stored : stored e' = stored e;
  rj_next : next_seq_id e' = next_seq_id e;
}.

Lemma require_capacity_run n e :
  on_sched (require_capacity (Z.of_nat n)) e =
  if decide (has_capacity n e) then (Ok tt, e)
  else (Raise (SchedulerCapacityError (Z.of_nat n)
    (Z.max (available_capacity (scheduler_of e)) 0) (max_num_seqs (cfg e))), e).
Proof.
  assert (require_capacity (Z.of_nat n) (scheduler_of e) =
    if decide (has_capacity n e) then (Ok tt, scheduler_of e)
    else (Raise (SchedulerCapacityError (Z.of_nat n)
      (Z.max (available_capacity (scheduler_of e)) 0) (max_num_seqs (cfg e))), scheduler_of e)) as E.
  { unfold require_capacity. rewrite (proj2 (Z.ltb_ge _ _)) by lia. unfold bind, gets. simpl.
    destruct (decide (has_capacity n e)) as [Hc|Hc]; unfold has_capacity in Hc;
      rewrite length_app in Hc; unfold available_capacity at 1.
    - by rewrite (proj2 (Z.ltb_ge _ _)) by lia.
    - by rewrite (proj2 (Z.ltb_lt _ _)) by lia. }
  unfold on_sched, zoom. rewrite E. case_decide; by rewrite set_sched_id.
Qed.

Lemma new_sequence_run e toks p sub arr :
  engine_ok [] e → toks ≠ [] →
  ∃ e1, new_sequence toks p sub arr e = (Ok (next_seq_id e), e1) ∧ engine_ok [] e1 ∧
    same_session e e1 ∧ waiting (scheduler_of e1) = waiting (scheduler_of e) ∧
    running (scheduler_of e1) = running (scheduler_of e) ∧ stored e !! next_seq_id e = None ∧
    next_seq_id e1 = S (next_seq_id e) ∧
    (∃ q, stored e1 !! next_seq_id e = Some q ∧ fresh_for toks p q ∧ fresh_request q) ∧
    ∀ x, x ≠ next_seq_id e → stored e1 !! x = stored e !! x.
Proof.
  intros [Hs Hf] Hne. set (k := next_seq_id e) in *.
  assert (stored e !! k = None) as Hk.
  { destruct (stored e !! k) eqn:E; [|done]. specialize (Hf k ltac:(by eexists)). unfold k in *. lia. }
  destruct (last toks) as [lt|] eqn:El; [|by apply last_None in El].
  assert (∃ q, Sequence_init k toks p (Some sub) (Some arr) 0 = Ok q) as [q Hq]
    by (unfold Sequence_init; rewrite El; by eexists).
  pose proof (Sequence_init_wf _ _ _ _ _ _ _ Hq) as [Hwf _].
  assert (seq_id q = k ∧ fresh_request q ∧ fresh_for toks p q) as (Hid & Hfr & Hff).
  { unfold Sequence_init in Hq. rewrite El in Hq. injection Hq as <-. by split_and!. }
  pose proof (sinv_new compute_hash I (scheduler_of e) k q Hs Hk Hid Hwf Hfr) as Hs1.
  eexists. split; [|split; [|split_and!]].
  - unfold new_sequence. mstep. fold k. unfold lift. rewrite Hq. mstep. mstep. mstep. reflexivity.
  - split; [exact Hs1|]. intros x. simpl. rewrite lookup_insert. case_decide; [subst; lia|].
    intros Hx%Hf. unfold k in *. lia.
  - by split.
  - done.
  - done.
  - done.
  - done.
  - exists q. simpl. by rewrite lookup_insert_eq.
  - intros x Hx. simpl. by rewrite lookup_insert_ne.
Qed.

Lemma admit_request_run pr sp sub e :
  engine_ok [] e →
  match decide (has_capacity 1 e), request_of pr sp with
  | left _, Ok (toks, p) => ∃ e',
      _admit_request clock encode limits pr sp (Some sub) e = (Ok (next_seq_id e), e') ∧
      engine_ok [] e' ∧ same_session e e' ∧ admitted (next_seq_id e) toks p e e'
  | left _, Raise ex =>
      _admit_request clock encode limits pr sp (Some sub) e = (Raise ex, e)
  | right _, _ => ∃ ex, _admit_request clock encode limits pr sp (Some sub) e = (Raise ex, e)
  end.
Proof.
  intros He. unfold _admit_request. mstep.
  pose proof (require_capacity_run 1 e) as Hcap. change (Z.of_nat 1) with 1 in Hcap.
  destruct (decide (has_capacity 1 e)) as [Hc|Hc]; [|eexists; apply bind_raise, Hcap].
  destruct (request_of pr sp) as [[toks p]|ex] eqn:Er.
  - pose proof (ac_nonempty _ _ _ _ (proj1 (request_of_iff _ _ _ _) Er)) as Hne. unfold request_of in Er.
    apply obind_ok in Er as (p' & Ep & Er). apply obind_ok in Er as (values & Ev & Er).
    apply obind_unit_ok in Er as [En Er]. apply oraise_if_ok in En.
    apply obind_ok in Er as (ids & Ei & Er). apply obind_unit_ok in Er as [El [= -> ->]].
    destruct (new_sequence_run (tick e) toks p sub (clock (ticks (scheduler_of e)))
      (tick_ok _ _ He) Hne) as (e1 & E1 & [Hs1 Hf1] & Hss & Hw1 & Hr1 & Hk & Hn1 &
        (q & Hq & Hff & Hfr) & Hoth). change (next_seq_id (tick e)) with (next_seq_id e) in *.
    set (k := next_seq_id e) in *.
    assert (k ∉ waiting (scheduler_of e1) ++ running (scheduler_of e1)) as Hn.
    { rewrite Hw1, Hr1. intros Hin. destruct He as [Hs _].
      destruct (sinv_stored compute_hash I [] _ k Hs Hin) as (? & ? & _).
      simpl in Hk. congruence. }
    pose proof (add_run compute_hash I _ k q Hs1 Hq Hfr Hn) as Ha.
    rewrite decide_True in Ha; last first.
    { destruct Hss as [_ _ -> _ _ _]. rewrite Hw1, Hr1. unfold has_capacity in Hc. simpl in *. lia. }
    destruct Ha as (s' & Ea & Hs' & Hw' & Hr' & Hc' & Hoth').
    pose proof (add_frame k (scheduler_of e1)) as Hfr'. rewrite Ea in Hfr'. simpl in Hfr'.
    exists (set_sched s' e1). split; [|split; [|split]].
    + rewrite (bind_ok _ _ _ _ _ Hcap). unfold lift at 1. rewrite Ep. mstep.
      unfold lift at 1. rewrite Ev. mstep. rewrite En. mstep. unfold lift at 1. rewrite Ei. mstep.
      unfold lift at 1. rewrite El. mstep. rewrite (bind_ok _ _ _ _ _ (engine_clock_run e)).
      rewrite (bind_ok _ _ _ _ _ E1). by rewrite (bind_ok _ _ _ _ _ (on_sched_ok _ _ _ _ Ea)).
    + split; [done|]. intros x Hx. apply Hf1. destruct Hfr' as [_ [_ _ _ Hf] _].
      simpl in Hx. specialize (Hf x). destruct Hf; [done|by destruct Hx].
    + transitivity (tick e); [apply tick_same|]. transitivity e1; [done|].
      destruct Hfr' as [Hfc [Hfs Hfp _ _] Hft]. split; simpl; try done. by rewrite Hfp.
    + split; simpl.
      * by rewrite Hw', Hw1.
      * by rewrite Hr', Hr1.
      * done.
      * by rewrite Hn1.
      * destruct (frame_seq _ _ k q Hfr' Hq) as (q' & Hq' & Hsame). exists q'. split; [done|].
        by eapply fresh_for_same.
      * intros x Hx. rewrite Hoth' by done. by apply Hoth.
  - rewrite (bind_ok _ _ _ _ _ Hcap). unfold request_of in Er.
    destruct (copy_params sp) as [p|] eqn:Ep; simpl in Er; unfold lift at 1; [mstep|by simplify_eq].
    destruct (prompt_values encode pr) as [values|] eqn:Ev; simpl in Er; unfold lift at 1;
      [mstep|by simplify_eq].
    destruct (bool_decide (values = [])); simpl in Er; [by simplify_eq|mstep].
    destruct (omap_all _ values) as [ids|] eqn:Ei; simpl in Er; unfold lift at 1;
      [mstep|by simplify_eq].
    destruct (check_limits _ _ _) as [[]|] eqn:El; simpl in Er; [done|].
    unfold lift at 1. apply bind_raise. by simplify_eq.
Qed.

(** ** Cancellation and batches *)

Lemma cancel_requests_run sch ids e :
  engine_ok sch e →
  ∃ e', _cancel_requests ids e = (Ok (cancel_targets ids (scheduler_of e)), e') ∧
    engine_ok sch e' ∧ same_session e e' ∧ next_seq_id e' = next_seq_id e ∧
    waiting (scheduler_of e') = filter (λ x, x ∉ ids) (waiting (scheduler_of e)) ∧
    running (scheduler_of e') = filter (λ x, x ∉ ids) (running (scheduler_of e)) ∧
    ∀ x, x ∉ cancel_targets ids (scheduler_of e) → stored e' !! x = stored e !! x.
Proof.
  intros [Hs Hf].
  destruct (cancel_run compute_hash I sch ids _ Hs) as (s' & E & Hs' & Hc & Hw & Hr & Ho & _).
  pose proof (cancel_frame ids (scheduler_of e)) as Hfr. rewrite E in Hfr. simpl in Hfr.
  exists (set_sched s' e). split; [by apply on_sched_ok|]. split_and!; try done.
  - split; [done|]. intros x Hx. apply Hf. destruct Hfr as [_ [_ _ _ Hq] _].
    simpl in Hx. destruct (Hq x); [done|by destruct Hx].
  - destruct Hfr as [Hfc [Hfs Hfp _ _] Hft]. split; simpl; try done. by rewrite Hfp.
Qed.

(** The rows [ks] hold the requests [reqs], untouched. *)
Definition rows_for (e : engine) (ks : list nat) (reqs : list (list Z * sampling)) : Prop :=
  Forall2 (λ k r, ∃ q, stored e !! k = Some q ∧ fresh_for r.1 r.2 q) ks reqs.

(** [ks] was appended to the waiting queue. *)
Record enqueued (ks : list nat) (e e' : engine) : Prop := {
  en_ok : engine_ok [] e';
  en_session : same_session e e';
  en_waiting : waiting (scheduler_of e') = waiting (scheduler_of e) ++ ks;
  en_running : running (scheduler_of e') = running (scheduler_of e);
  en_next : next_seq_id e' = (next_seq_id e + length ks)%nat;
  en_ids : ks = seq (next_seq_id e) (length ks);
  en_others : ∀ x, x ∉ ks → stored e' !! x = stored e !! x;
}.

Lemma enqueued_nil e : engine_ok [] e → enqueued [] e e.
Proof. intros He. split; try done; by rewrite ?app_nil_r, ?Nat.add_0_r. Qed.

Lemma enqueued_cons k toks p e e1 ks e2 :
  same_session e e1 → admitted k toks p e e1 → enqueued ks e1 e2 → enqueued (k :: ks) e e2.
Proof.
  intros Hss [Hw Hr Hn [Hnx Hk] Hrow Ho] [He2 Hss2 Hw2 Hr2 Hn2 Hids Ho2].
  split; [done|by transitivity e1| | | | |].
  - by rewrite Hw2, Hw, <-(assoc_L (++)).
  - by rewrite Hr2.
  - simpl. lia.
  - simpl. rewrite Hids at 1. by rewrite Hnx, Hk.
  - intros x Hx. rewrite Ho2, Ho; set_solver.
Qed.

Lemma admit_each_run rows sub e :
  engine_ok [] e →
  ∃ ks ex e', admit_each clock encode limits rows sub e = (Ok (ks, ex), e') ∧ enqueued ks e e' ∧
    match omap_all (λ row, request_of row.1 row.2) rows with
    | Ok reqs => has_capacity (length rows) e →
        ex = None ∧ length ks = length rows ∧ rows_for e' ks reqs
    | Raise _ => ex ≠ None
    end.
Proof.
  revert e. induction rows as [|[pr sp] rows IH]; intros e He.
  { exists [], None, e. split; [done|]. split; [by apply enqueued_nil|]. intros _. split_and!; [done|done|constructor]. }
  pose proof (admit_request_run pr sp sub e He) as Hr. cbn [admit_each omap_all fst snd].
  destruct (decide (has_capacity 1 e)) as [Hc|Hc]; last first.
  { destruct Hr as [ex Hr]. rewrite Hr. exists [], (Some ex), e. split; [done|].
    split; [by apply enqueued_nil|]. destruct (obind _ _); [|done]. unfold has_capacity in *.
    cbn [length]. lia. }
  destruct (request_of pr sp) as [[toks p]|ex] eqn:Er; simpl obind; last first.
  { rewrite Hr. exists [], (Some ex), e. split; [done|]. by split; [apply enqueued_nil|]. }
  destruct Hr as (e1 & E1 & He1 & Hss & Had). rewrite E1.
  destruct (IH e1 He1) as (ks & ex & e2 & E2 & Hen & Hm).
  exists (next_seq_id e :: ks), ex, e2. split; [by rewrite (bind_ok _ _ _ _ _ E2)|].
  split; [by eapply enqueued_cons|].
  destruct (omap_all _ rows) as [reqs|]; simpl obind; [|done].
  intros Hcap. destruct Hm as (-> & Hl & Hrows).
  { unfold has_capacity in *. destruct Hss as [_ _ -> _ _ _], Had as [-> -> _ _ _ _].
    rewrite !length_app in *. simpl in *. lia. }
  split; [done|]. split; [simpl; lia|]. constructor; [|done].
  destruct Had as [_ _ _ [Hnx _] (q & Hq & Hff) _]. exists q. split; [|done].
  rewrite (en_others _ _ _ Hen); [done|]. rewrite (en_ids _ _ _ Hen), elem_of_seq. lia.
Qed.

Definition requests_of (prompts : list prompt) (params : list (option SamplingParams))
    : outcome (list (list Z * sampling)) :=
  omap_all (λ row, request_of row.1 row.2) (zip prompts params).

Lemma admit_batch_run prompts params sub e :
  engine_ok [] e → length params = length prompts →
  match decide (has_capacity (length prompts) e), requests_of prompts params with
  | left _, Ok reqs => ∃ ks e',
      _admit_batch clock encode limits prompts params sub e = (Ok ks, e') ∧
      enqueued ks e e' ∧ rows_for e' ks reqs
  | _, _ => ∃ ex e', _admit_batch clock encode limits prompts params sub e = (Raise ex, e') ∧
      engine_ok [] e' ∧ same_session e e' ∧
      waiting (scheduler_of e') = waiting (scheduler_of e) ∧
      running (scheduler_of e') = running (scheduler_of e) ∧
      ∀ k, is_Some (stored e !! k) → stored e' !! k = stored e !! k
  end.
Proof.
  intros He Hlen. unfold _admit_batch, requests_of.
  pose proof (require_capacity_run (length prompts) e) as Hcap.
  destruct (decide (has_capacity (length prompts) e)) as [Hc|Hc]; last first.
  { eexists _, e. split; [by rewrite (bind_raise _ _ _ _ _ Hcap)|]. by split_and!. }
  rewrite (bind_ok _ _ _ _ _ Hcap).
  destruct (admit_each_run (zip prompts params) sub e He) as (ks & ex & e1 & E & Hen & Hm).
  rewrite (bind_ok _ _ _ _ _ E).
  assert (length (zip prompts params) = length prompts) as Hz by (rewrite length_zip_with; lia).
  destruct (omap_all _ _) as [reqs|]; [destruct Hm as (-> & _ & Hrows); [by rewrite Hz|]; eauto|].
  destruct ex as [ex|]; [|done].
  destruct (cancel_requests_run [] ks e1 (en_ok _ _ _ Hen))
    as (e2 & E2 & He2 & Hss & _ & Hw & Hr & Ho).
  destruct Hen as [He1 Hss1 Hw1 Hr1 _ Hids Ho1].
  assert (∀ x, is_Some (stored e !! x) → x ∉ ks) as Hold.
  { intros x Hx%(eo_fresh _ _ He). rewrite Hids, elem_of_seq. lia. }
  assert (∀ x, x ∈ queue e → x ∉ ks) as Hq.
  { intros x Hx. apply Hold. destruct He as [Hs _].
    destruct (sinv_stored compute_hash I [] _ x Hs Hx) as (q & ? & _). by exists q. }
  exists ex, e2. split; [unfold suppress, bind, raise; by rewrite E2|].
  split; [done|]. split; [by transitivity e1|]. split_and!.
  - rewrite Hw, Hw1, filter_app, (filter_all _ (waiting _)), (filter_none _ ks);
      [by rewrite app_nil_r|set_solver|set_solver].
  - rewrite Hr, Hr1. apply filter_all. set_solver.
  - intros k Hk. rewrite Ho, Ho1; [done|by apply Hold|].
    intros [Hin _]%list_elem_of_filter. by apply (Hold k).
Qed.
End spec.

(** ** One ordinary step *)

Section step.
Context (compute_hash : list Z → Z → Z) (clock : nat → Z) (I : heap → Prop)
  `{!KVAllocator compute_hash I}.
Context (torch : torch_dtypes) (sha256_hexdigest : payload → string).
Context (limits : AdmissionLimits) (env : runner).

(** The runner never speculates. *)
Definition ordinary : Prop :=
  speculation_enabled env = false ∧ speculative_verifier_ready env = false.

Hypothesis Hord : ordinary.
#[local] Abbreviation engine_ok := (engine_ok I).
#[local] Abbreviation _step := (_step compute_hash clock torch sha256_hexdigest limits env).
#[local] Abbreviation generate_loop :=
  (generate_loop compute_hash clock torch sha256_hexdigest limits env).

#[local] Existing Instance same_session_preorder.

Lemma cycle_ordinary ks hp e :
  execute_cycle compute_hash clock torch sha256_hexdigest limits env ks hp None e =
  (Ok (None, None), e).
Proof.
  destruct Hord as [E1 E2]. unfold execute_cycle, _execute_draft_discard.
  by rewrite E1, E2, !andb_false_r, orb_true_r.
Qed.

Lemma cleanup_ordinary sch e : engine_ok sch e → step_cleanup None None e = (Ok tt, e).
Proof.
  intros [Hs _]. destruct (si_plans _ _ _ _ Hs) as [E _].
  unfold step_cleanup, bind, get. by rewrite E.
Qed.

(** Why a step may fail: nothing to schedule, or the runner's answer. *)
Inductive failure (e : engine) (ex : exn) : Prop :=
| fail_schedule s1 : schedule compute_hash clock (scheduler_of e) = (Raise ex, s1) → failure e ex
| fail_run l hp s1 qs : schedule compute_hash clock (scheduler_of e) = (Ok (l, hp), s1) →
    length qs = length l → run env (calls e) qs hp = Raise ex → failure e ex
| fail_tokens l hp s1 qs toks :
    schedule compute_hash clock (scheduler_of e) = (Ok (l, hp), s1) →
    length qs = length l → run env (calls e) qs hp = Ok toks →
    ¬ tokens_ok (cfg e) l toks → failure e ex.

(** A failed step leaves the batch under way, and its members queued. *)
Definition step_failed (e e' : engine) : Prop :=
  ∃ l, engine_ok l e' ∧ same_session e e' ∧ queue e' ≡ₚ queue e.

(** A successful one ran the model on the scheduled rows and committed its
    tokens. *)
Record step_done (e e' : engine) (o : StepOutput) (l : list nat) (hp : bool) (toks : list Z)
    (s1 s2 : scheduler) : Prop := {
  sd_schedule : schedule compute_hash clock (scheduler_of e) = (Ok (l, hp), s1);
  sd_commit : postprocess compute_hash clock l toks s1 = (Ok (out_events o), s2);
  sd_run : ∃ qs, Forall2 (λ k q, seqs s1 !! k = Some q) l qs ∧ run env (calls e) qs hp = Ok toks;
  sd_state : e' = set_calls (S (calls e)) (set_sched s2 e);
  sd_finished : ∀ k, k ∈ out_finished o ↔
    k ∈ l ∧ ∃ q, seqs s2 !! k = Some q ∧ is_finished q = true;
}.

Lemma finished_rows (P : nat → sequence → Prop) ks qs k :
  Forall2 P ks qs →
  k ∈ (filter (λ kq : nat * sequence, is_finished kq.2 = true) (zip ks qs)).*1 ↔
  ∃ i q, ks !! i = Some k ∧ qs !! i = Some q ∧ is_finished q = true.
Proof.
  intros _. rewrite list_elem_of_fmap. split.
  - intros ([k' q] & -> & [Hf Hin]%list_elem_of_filter).
    apply list_elem_of_lookup in Hin as [i Hi]. apply lookup_zip_Some in Hi as [? ?]. eauto.
  - intros (i & q & Hk & Hq & Hf). exists (k, q). split; [done|].
    apply list_elem_of_filter. split; [done|]. apply list_elem_of_lookup. exists i.
    by apply lookup_zip_Some.
Qed.

Lemma finished_members (st : gmap nat sequence) ks qs k :
  Forall2 (λ k q, st !! k = Some q) ks qs →
  k ∈ (filter (λ kq : nat * sequence, is_finished kq.2 = true) (zip ks qs)).*1 ↔
  k ∈ ks ∧ ∃ q, st !! k = Some q ∧ is_finished q = true.
Proof.
  intros HF. rewrite (finished_rows _ _ _ _ HF). split.
  - intros (i & q & Hk & Hq & Hf). split; [by eapply list_elem_of_lookup_2|].
    exists q. split; [|done]. by eapply (Forall2_lookup_lr _ _ _ i) in HF.
  - intros [Hk (q & Hq & Hf)]. apply list_elem_of_lookup in Hk as [i Hi].
    destruct (Forall2_lookup_l _ _ _ _ _ HF Hi) as (q' & Hq' & E).
    exists i, q'. by rewrite Hq in E; simplify_eq.
Qed.

Lemma step_run e :
  engine_ok [] e →
  match _step e with
  | (Ok o, e') => ∃ l hp toks s1 s2, step_done e e' o l hp toks s1 s2
  | (Raise ex, e') => failure e ex ∧ step_failed e e'
  end.
Proof.
  intros [Hs Hf]. pose proof (schedule_run compute_hash clock I _ Hs) as Hr.
  pose proof (schedule_frame compute_hash clock (scheduler_of e)) as Hfr.
  unfold Engine._step. destruct (schedule compute_hash clock (scheduler_of e)) as [[[l hp]|ex] s1] eqn:Es;
    simpl in Hfr.
  - destruct Hr as (Hs1 & Hnd & _ & Hsub & Hp & Hc & _).
    assert (engine_ok l (set_sched s1 e)) as He1.
    { split; [done|]. intros x Hx. apply Hf. destruct Hfr as [_ [_ _ _ Hq] _].
      simpl in Hx. destruct (Hq x); [done|by destruct Hx]. }
    assert (∀ k, k ∈ l → is_Some (stored (set_sched s1 e) !! k)) as Hst.
    { intros k Hk. destruct (sinv_stored compute_hash I l s1 k Hs1 (Hsub k Hk)) as (q & ? & _).
      by exists q. }
    assert (same_session e (set_sched s1 e)) as Hss.
    { destruct Hfr as [Hfc [Hfs Hfp _ _] Hft]. split; simpl; try done. by rewrite Hfp. }
    rewrite (bind_ok _ _ _ _ _ (on_sched_ok _ _ _ _ Es)).
    destruct (rows_of_run l (set_sched s1 e) Hst) as (qs & Eq & HF).
    rewrite (bind_ok _ _ _ _ _ Eq). destruct Hord as [Eo _].
    rewrite Eo, andb_false_r. mstep.
    rewrite (bind_ok _ _ _ _ _ (try_handler_ok _ _ _ _ _ (cycle_ordinary l hp _))).
    set (e2 := set_calls (S (calls e)) (set_sched s1 e)).
    assert (engine_ok l e2) as He2 by (destruct He1; by split).
    pose proof (Forall2_length _ _ _ HF) as Hlen. symmetry in Hlen.
    assert (step_failed e e2) as Hfail by (exists l; split_and!; [done|by destruct Hss|done]).
    assert (commit_cycle compute_hash clock env l hp None (set_sched s1 e) =
      match run env (calls e) qs hp with
      | Ok toks => on_sched (postprocess compute_hash clock l toks) e2
      | Raise ex => (Raise ex, e2)
      end) as Ecc.
    { unfold commit_cycle. rewrite (bind_ok _ _ _ _ _ Eq). unfold call_runner.
      unfold bind, get, modify, lift. simpl. by destruct (run env (calls e) qs hp). }
    destruct (run env (calls e) qs hp) as [toks|ex] eqn:Erun; last first.
    { rewrite (bind_raise _ _ _ _ _ (try_handler_raise _ _ _ _ _ _ Ecc (cleanup_ordinary l e2 He2))).
      split; [by eapply fail_run|done]. }
    pose proof (postprocess_run compute_hash clock I s1 l toks Hs1 Hnd Hsub) as Hpr.
    pose proof (postprocess_frame compute_hash clock l toks s1) as Hpf.
    destruct (postprocess compute_hash clock l toks s1) as [[evs|ex] s2] eqn:Ep; simpl in Hpf.
    + rewrite (on_sched_ok _ _ _ _ (Ep : _ (scheduler_of e2) = _)) in Ecc.
      rewrite (bind_ok _ _ _ _ _ (try_handler_ok _ _ _ _ _ Ecc)).
      assert (∀ k, k ∈ l → is_Some (stored (set_sched s2 e2) !! k)) as Hst2.
      { intros k Hk. by apply (pf_stored _ _ Hpf), Hst. }
      destruct (rows_of_run l _ Hst2) as (qs2 & Eq2 & HF2).
      rewrite (bind_ok _ _ _ _ _ Eq2). unfold ret.
      exists l, hp, toks, s1, s2. split; try done; [by exists qs|].
      intros k. by apply finished_members.
    + rewrite Hc in Hpr. case_decide; [destruct Hpr as (? & ? & _); congruence|].
      destruct Hpr as [m Hpr].
      injection Hpr as -> ->.
      rewrite (on_sched_raise _ _ _ _ (Ep : _ (scheduler_of e2) = _)) in Ecc.
      assert (set_sched s1 e2 = e2) as E2 by done. rewrite E2 in Ecc.
      rewrite (bind_raise _ _ _ _ _ (try_handler_raise _ _ _ _ _ _ Ecc (cleanup_ordinary l e2 He2))).
      split; [by eapply fail_tokens|done].
  - rewrite (bind_raise _ _ _ _ _ (on_sched_raise _ _ _ _ Es)).
    destruct Hr as (Hs1 & Hp & Hc & _). split; [by eapply fail_schedule|].
    exists []. split_and!; [|..|done].
    + split; [done|]. intros x Hx. apply Hf. destruct Hfr as [_ [_ _ _ Hq] _].
      simpl in Hx. destruct (Hq x); [done|by destruct Hx].
    + destruct Hfr as [Hfc [Hfs Hfp _ _] Hft]. split; simpl; try done. by rewrite Hfp.
Qed.

Lemma step_done_ok e e' o l hp toks s1 s2 :
  engine_ok [] e → step_done e e' o l hp toks s1 s2 →
  engine_ok [] e' ∧ same_session e e' ∧ queue e' ⊆ queue e.
Proof.
  intros [Hs Hf] [E1 E2 _ -> _]. pose proof (schedule_run compute_hash clock I _ Hs) as Hr.
  pose proof (schedule_frame compute_hash clock (scheduler_of e)) as Hfr. rewrite E1 in Hr, Hfr.
  simpl in Hfr. destruct Hr as (Hs1 & Hnd & _ & Hsub & Hp & Hc & _).
  pose proof (postprocess_run compute_hash clock I s1 l toks Hs1 Hnd Hsub) as Hpr.
  pose proof (postprocess_frame compute_hash clock l toks s1) as Hpf. rewrite E2 in Hpf. simpl in Hpf.
  case_decide; [|destruct Hpr as [? ?]; congruence].
  destruct Hpr as (s2' & E2' & Hs2 & Hc2 & Hw & Hrun & _). rewrite E2' in E2. injection E2 as _ <-.
  destruct Hfr as [Hfc [Hfs Hfp _ Hq] Hft], Hpf as [_ _ Hps Hpp Hpst Hpt]. split_and!.
  - split; [done|]. simpl. intros x Hx%Hpst. apply Hf. destruct (Hq x); [done|by destruct Hx].
  - split; simpl; try done; [congruence|congruence| |lia]. by rewrite Hpp, Hfp.
  - simpl. intros x. rewrite <-Hp, Hrun, Hw, !elem_of_app. tauto.
Qed.

(** ** The interface of a step *)

(** What [generate] needs of a step, however it executes: one that returns
    leaves an idle engine, whose finished rows are stored; one that raises
    loses no request. *)
Definition step_served (e : engine) (o : outcome StepOutput) (e' : engine) : Prop :=
  same_session e e' ∧ queue e' ⊆ queue e ∧
  match o with
  | Ok out => engine_ok [] e' ∧ ∀ k, k ∈ out_finished out → is_Some (stored e' !! k)
  | Raise _ => ∃ l, engine_ok l e'
  end.

Lemma ordinary_serves e : engine_ok [] e → step_served e (_step e).1 (_step e).2.
Proof.
  intros He. pose proof (step_run e He) as Hst. destruct (_step e) as [[o|ex] e'] eqn:E; simpl.
  - destruct Hst as (l & hp & toks & s1 & s2 & Hd).
    destruct (step_done_ok _ _ _ _ _ _ _ _ He Hd) as (He' & Hss & Hq).
    split; [done|]. split; [done|]. split; [done|]. simpl.
    intros k [_ (q & Hk & _)]%(sd_finished _ _ _ _ _ _ _ _ Hd). exists q.
    destruct Hd as [_ _ _ Ee _]. by rewrite Ee.
  - destruct Hst as [_ (l & He' & Hss & Hp)]. split; [done|]. split; [by rewrite Hp|by exists l].
Qed.
End step.

Class SafeSteps (compute_hash : list Z → Z → Z) (clock : nat → Z) (I : heap → Prop)
    (torch : torch_dtypes) (sha256_hexdigest : payload → string) (limits : AdmissionLimits)
    (env : runner) : Prop :=
  safe_steps : ∀ e, engine_ok I [] e →
    let r := _step compute_hash clock torch sha256_hexdigest limits env e in
    step_served I e r.1 r.2.

#[export] Instance ordinary_safe compute_hash clock I `{!KVAllocator compute_hash I}
  torch sha256_hexdigest limits env :
  ordinary env → SafeSteps compute_hash clock I torch sha256_hexdigest limits env.
Proof. intros Hord e. by apply ordinary_serves. Qed.

(** ** The clean-up of [generate] *)

Section serve.
Context (compute_hash : list Z → Z → Z) (clock : nat → Z) (I : heap → Prop)
  `{!KVAllocator compute_hash I}.
Context (torch : torch_dtypes) (sha256_hexdigest : payload → string).
Context (limits : AdmissionLimits) (env : runner).
Context `{!SafeSteps compute_hash clock I torch sha256_hexdigest limits env}.
#[local] Abbreviation engine_ok := (engine_ok I).
#[local] Abbreviation _step := (_step compute_hash clock torch sha256_hexdigest limits env).
#[local] Abbreviation generate_loop :=
  (generate_loop compute_hash clock torch sha256_hexdigest limits env).

#[local] Existing Instance same_session_preorder.

(** Somewhere in the loop, or stopped by an exception inside a step: the
    admitted sequences are the only ones queued. *)
Definition serving (ks : list nat) (e e' : engine) : Prop :=
  ∃ l, engine_ok l e' ∧ same_session e e' ∧ queue e' ⊆ ks.

Lemma tick_serving ks e e' : serving ks e e' → serving ks e (tick e').
Proof.
  intros (l & He & Hss & Hq). exists l. split; [by apply tick_ok|].
  split; [by transitivity e'; [|apply tick_same]|done].
Qed.

(** [collect] only reads, and the clock ticks. *)
Definition reads (e e' : engine) : Prop := e' = e ∨ e' = tick e.

Lemma seq_at_reads k s : (seq_at k s).2 = s.
Proof. unfold seq_at, on_heap, zoom, get_seq, inspect. simpl. by rewrite set_heap_id. Qed.

Lemma rows_of_reads ks e : (rows_of ks e).2 = e.
Proof.
  assert (∀ s, (map_all seq_at ks s).2 = s) as H.
  { induction ks as [|k ks IH]; intros s; [done|]. cbn [map_all]. unfold bind, ret.
    pose proof (seq_at_reads k s) as E. destruct (seq_at k s) as [[q|] s1]; simpl in E; subst; [|done].
    specialize (IH s). by destruct (map_all seq_at ks s) as [[]]. }
  unfold rows_of, on_sched, zoom. specialize (H (scheduler_of e)).
  destruct (map_all _ _) as [o s]. simpl in *. subst. apply set_sched_id.
Qed.

Lemma collect_reads decode outputs ks e : reads e (collect clock decode outputs ks e).2.
Proof.
  unfold collect, bind. pose proof (rows_of_reads ks e) as E.
  destruct (rows_of ks e) as [[qs|] e1]; simpl in E; subst e1; [|by left].
  unfold lift. destruct (omap_all _ qs) as [ordered|]; [|by left].
  pose proof (rows_of_reads ordered e) as E.
  destruct (rows_of ordered e) as [[qs'|] e1]; simpl in E; subst e1; [by right|by left].
Qed.

Lemma collect_serving decode outputs l ks e0 e :
  serving ks e0 e → serving ks e0 (collect clock decode outputs l e).2.
Proof.
  intros Hs. destruct (collect_reads decode outputs l e) as [->| ->]; [done|by apply tick_serving].
Qed.

Lemma generate_loop_serving fuel outputs ks e0 e :
  engine_ok [] e → same_session e0 e → queue e ⊆ ks →
  serving ks e0 (generate_loop fuel outputs e).2.
Proof.
  revert outputs e. induction fuel as [|fuel IH]; intros outputs e He Hss Hq.
  { by exists []. }
  cbn [Engine.generate_loop]. unfold bind at 1, get. destruct (engine_is_finished e); [by exists []|].
  rewrite (bind_ok _ _ _ _ _ (engine_clock_run clock e)). set (e1 := tick e).
  assert (engine_ok [] e1) as He1 by by apply tick_ok.
  assert (same_session e0 e1) as Hss1 by (transitivity e; [done|apply tick_same]).
  destruct (safe_steps e1 He1) as (Hss2 & Hq2 & Hend). destruct (_step e1) as [[o|ex] e2] eqn:E2;
    simpl in Hss2, Hq2, Hend.
  2: { rewrite (bind_raise _ _ _ _ _ E2). destruct Hend as [l He2]. exists l.
       split; [done|]. split; [by transitivity e1|]. intros x Hx. by apply Hq, Hq2. }
  rewrite (bind_ok _ _ _ _ _ E2). destruct Hend as [He2 Hfin].
  rewrite (bind_ok _ _ _ _ _ (engine_clock_run clock e2)). set (e3 := tick e2).
  assert (engine_ok [] e3) as He3 by by apply tick_ok.
  assert (same_session e0 e3) as Hss3.
  { transitivity e1; [done|]. transitivity e2; [done|apply tick_same]. }
  assert (queue e3 ⊆ ks) as Hq3 by (intros x Hx; apply Hq, Hq2, Hx).
  assert (serving ks e0 e3) as Hsrv by by exists [].
  unfold lift at 1. destruct (throughput (num_prefill_tokens o) _); [mstep|done].
  unfold lift at 1. destruct (throughput (num_decode_tokens o) _); [mstep|done].
  destruct (rows_of_run (out_finished o) e3 Hfin) as (qs & Eq & _).
  rewrite (bind_ok _ _ _ _ _ Eq). by apply IH.
Qed.

Lemma engine_empty l e : engine_ok l e → queue e = [] → engine_ok [] e.
Proof.
  intros [[] ?] [Hw Hr]%app_nil. split; [|done]. split; try done.
  - intros k Hk. rewrite Hw in Hk. by apply not_elem_of_nil in Hk.
  - intros k Hk. rewrite app_nil_r, Hr in Hk. by apply not_elem_of_nil in Hk.
Qed.

(** Cancelling the session's own requests and giving the lease back. *)
Lemma release_run l ks e lease kind :
  engine_ok l e → _active_session e = Some (lease, kind) → queue e ⊆ ks →
  ∃ c e2, _cancel_requests ks e = (Ok c, e2) ∧ _release_session lease e2 = (Ok tt, set_session None e2) ∧
    engine_ok [] (set_session None e2) ∧ queue (set_session None e2) = [] ∧ same_session e e2.
Proof.
  intros He Hlease Hq. destruct (cancel_requests_run compute_hash I l ks e He)
    as (e2 & E2 & He2 & Hss2 & _ & Hw & Hr & _). eexists _, e2. split; [exact E2|].
  split; [|split; [|split]].
  - unfold _release_session. unfold bind at 1, get. rewrite (ss_session _ _ Hss2), Hlease.
    by rewrite Nat.eqb_refl.
  - assert (queue e2 = []) as Hq2.
    { rewrite Hw, Hr, <-filter_app. apply filter_none. intros x Hx Hn. by apply Hn, Hq. }
    destruct (engine_empty _ _ He2 Hq2). by split.
  - simpl. rewrite Hw, Hr, <-filter_app. apply filter_none. intros x Hx Hn. by apply Hn, Hq.
  - done.
Qed.

Lemma finally_run {A} (m : ME (list nat * outcome A)) e0 e lease kind ks o e1 :
  m e = (Ok (ks, o), e1) → _active_session e0 = Some (lease, kind) → serving ks e0 e1 →
  ∃ e', generate_finally m lease e = (o, e') ∧ engine_ok [] e' ∧ queue e' = [] ∧
    _active_session e' = None.
Proof.
  intros E Hlease (l & He & Hss & Hq). unfold generate_finally. rewrite E.
  destruct (release_run l ks e1 lease kind He) as (c & e2 & E2 & E3 & He2 & Hq2 & _);
    [by rewrite (ss_session _ _ Hss)|done|]. rewrite E2, E3.
  exists (set_session None e2). split; [by destruct o|]. by split_and!.
Qed.
End serve.
