(* ===== verification/SpecStep.v ===== *)
(** * SpecStep: a whole engine step with verified speculation

    [_step] when the runner's verifier is ready: schedule, one speculative
    cycle, and the clean-up of a failure, against the block manager's own
    invariant.  The runner's answers, exceptions included, are arbitrary. *)
From S2P Require Import Prelude SamplingParams Sequence Heap BlockManager Reservation SpecMemory.
From S2P Require Import SpecRoutes SpecPlan SpecResult Scheduler SpecScheduler BlockManagerInv.
From S2P Require Import CacheInv KVContract SchedInv Frame SpecFrame ScheduleSpec PrefillSpec StepSpec.
From S2P Require Import SpecCommit CommitSpec AbortSpec TransactionSpec CancelSpec Metrics Engine.
From S2P Require Import EngineSpec.

#[local] Existing Instance same_session_preorder.

(** ** Rules *)

Lemma wp_on_sched {A} (m : MS A) (Q : A → engine → Prop) E e :
  wp m (λ a s, Q a (set_sched s e)) (λ x s, E x (set_sched s e)) (scheduler_of e) →
  wp (on_sched m) Q E e.
Proof. unfold wp, on_sched, zoom. by destruct (m (scheduler_of e)) as [[a|x] s]. Qed.

Lemma wp_call {A} (f : nat → outcome A) (Q : A → engine → Prop) E e :
  (∀ a, Q a (set_calls (S (calls e)) e)) → (∀ x, E x (set_calls (S (calls e)) e)) →
  wp (call_runner f) Q E e.
Proof. intros H1 H2. unfold wp, call_runner. simpl. destruct (f (calls e)); auto. Qed.

Lemma wp_keeps {S A} (P : relation S) (m : M S A) Q E s :
  keeps P m → wp m Q E s → wp m (λ a s', Q a s' ∧ P s s') (λ x s', E x s' ∧ P s s') s.
Proof.
  intros Hm Hw. specialize (Hm s). unfold wp in *. destruct (m s) as [[a|x] s']; by split.
Qed.

Lemma wp_pair {S A B C D} (m : M S (A * B)) (f : A → B → M S C) (g : C → M S D)
    (Q' : C → S → Prop) (Q : D → S → Prop) (E' E : exn → S → Prop) s :
  wp (let* (x, y) := m in f x y) Q' E' s → (∀ c s', Q' c s' → wp (g c) Q E s') →
  (∀ x s', E' x s' → E x s') → wp (let* (x, y) := m in let* c := f x y in g c) Q E s.
Proof.
  intros Hw Hg He. unfold wp, bind in *. destruct (m s) as [[[x y]|x] s']; [|by apply He].
  destruct (f x y s') as [[c|x'] s'']; [by apply Hg|by apply He].
Qed.

(** What a step keeps of the engine whatever happens. *)
Record keeps_store (e e' : engine) : Prop := {
  ks_session : same_session e e';
  ks_next : next_seq_id e' = next_seq_id e;
  ks_stored : ∀ k, is_Some (stored e' !! k) ↔ is_Some (stored e !! k);
}.

#[export] Instance keeps_store_preorder : PreOrder keeps_store.
Proof.
  split.
  - intros x. by split.
  - intros x y z [H1 H2 H3] [H4 H5 H6]. split; [by transitivity y|congruence|].
    intros k. by rewrite H6.
Qed.

Lemma pool_store e s : pool_frame (scheduler_of e) s → keeps_store e (set_sched s e).
Proof. intros []. split; [split; simpl; try done; try congruence|done|done]. Qed.

Lemma sched_store e s : sched_frame (scheduler_of e) s → keeps_store e (set_sched s e).
Proof.
  intros [Hc [Hs Hp _ Hq] Ht]. split; [split; simpl; try done; try congruence|done|]. intros k. simpl.
  destruct (Hq k); by rewrite ?is_Some_alt.
Qed.

Lemma calls_store n e : keeps_store e (set_calls n e).
Proof. split; [split; simpl; try done; lia|done|done]. Qed.

Section verified.
Context (compute_hash : list Z → Z → Z) (clock : nat → Z)
  (compute_hash_nonneg : ∀ toks p, 0 <= compute_hash toks p).
Context (torch : torch_dtypes) (sha256_hexdigest : payload → string).
Context (limits : AdmissionLimits) (env : runner).
#[local] Abbreviation kv_inv := (kv_inv compute_hash).
#[local] Abbreviation engine_ok := (engine_ok kv_inv).
#[local] Instance step_manager : KVAllocator compute_hash kv_inv :=
  block_manager_contract compute_hash compute_hash_nonneg.

(** The runner verifies speculation. *)
Definition verified : Prop :=
  speculation_enabled env = true ∧ speculative_verifier_ready env = true.

(** ** One verified cycle *)

(** Where a failed cycle may stop: before its transaction, with it open, or
    after the commit, when the policy's observation fails. *)
Inductive stopped (s0 s : scheduler) : Prop :=
| stopped_before : untouched s0 s → stopped s0 s
| stopped_open w p t : tx_open compute_hash w s0 p t s → stopped s0 s
| stopped_after k now results ps : burst_done compute_hash s0 k now results ps s → stopped s0 s.

(** What a cycle returns: nothing, or the stream of a committed burst. *)
Definition cycled (s0 : scheduler) (r : option (list StreamOutput)) (s : scheduler) : Prop :=
  match r with
  | None => untouched s0 s
  | Some events => ∃ k now results ps,
      events = burst_stream s0 ps ∧ burst_done compute_hash s0 k now results ps s
  end.

Lemma fallback_no_draft plan : is_fallback plan → plan_uses_draft (pr_plan plan) = false.
Proof. intros (p & -> & E). simpl. unfold uses_draft, uses_speculation. by rewrite E. Qed.

Lemma opened_draft s plan s' :
  opened compute_hash s plan s' → plan_uses_draft (pr_plan plan) = true.
Proof.
  intros (p & t & -> & _ & Ho). simpl. unfold uses_draft, uses_speculation.
  apply Z.ltb_lt. apply (bo_positive _ _ _ _ _ _ Ho).
Qed.

Lemma untouched_refl s : untouched s s.
Proof. exists (_draft_discard_cycle_ids s), (sc_heap s). split; [by destruct s|by left]. Qed.

(** The rows of an open transaction can be read. *)
Lemma open_stored w s0 p t s e :
  tx_open compute_hash w s0 p t s → scheduler_of e = s →
  ∃ qs, rows_of (running s0) e = (Ok qs, e).
Proof.
  intros Ho <-. destruct (burst_open_read compute_hash compute_hash_nonneg w s0 p t _ Ho) as (qs & E & _).
  exists qs. unfold rows_of. rewrite (on_sched_ok _ _ _ _ E). by rewrite set_sched_id.
Qed.

#[local] Abbreviation execute_verified := (_execute_speculative_verified compute_hash clock torch
  sha256_hexdigest env).

(** From the plan on. *)
Lemma verified_plan_run w admission rollback e :
  let s0 := scheduler_of e in
  sinv kv_inv [] (running s0) s0 →
  wp (let* plan := on_sched (plan_speculative_step torch sha256_hexdigest (running s0)
        w admission rollback) in
      if negb (plan_uses_draft (pr_plan plan)) then ret None else
      on_sched (prepare_speculative_target_writes plan) ;;;
      let* qs := rows_of (running s0) in
      let* result := call_runner (λ n, run_speculative env n plan qs) in
      let* events := on_sched (commit_speculative compute_hash clock plan result) in
      match policy_choose env with
      | None => ret tt
      | Some _ => call_runner (λ n, policy_observe env n result)
      end ;;;
      ret (Some events))
    (λ r e', cycled s0 r (scheduler_of e') ∧ keeps_store e e')
    (λ _ e', stopped s0 (scheduler_of e') ∧ keeps_store e e') e.
Proof.
  intros s0 Hs. apply wp_bind, wp_on_sched.
  eapply wp_mono; [apply (wp_keeps pool_frame); [apply plan_step_frame|];
    exact (plan_step_run compute_hash torch sha256_hexdigest s0 w admission rollback Hs)
    |..]; last first.
  { intros x s1 [Hu Hf]. split; [by apply stopped_before|by apply pool_store]. }
  intros plan s1 [[[Hfb Hu]|Ho] Hf].
  { rewrite (fallback_no_draft _ Hfb). apply wp_ret. split; [done|by apply pool_store]. }
  rewrite (opened_draft _ _ _ Ho). destruct Ho as (p & t & _ & Et & Ho). simpl negb. cbn iota.
  set (e1 := set_sched s1 e). assert (keeps_store e e1) as Hk1 by by apply pool_store.
  destruct (prepare_target_writes_open compute_hash s0 p t s1 plan Ho) as (t' & s2 & E2 & Et' & Ho2).
  { rewrite Et. apply Nat.eqb_refl. }
  set (e2 := set_sched s2 e1). assert (keeps_store e e2) as Hk2.
  { transitivity e1; [done|]. apply pool_store. pose proof (prepare_frame plan s1) as Hpf.
    by rewrite E2 in Hpf. }
  apply wp_bind. eapply wp_eq; [exact (on_sched_ok _ e1 _ _ E2)|]. fold e2.
  destruct (open_stored true s0 p t' s2 e2 Ho2 eq_refl) as [qs Eqs].
  apply wp_bind. eapply wp_eq; [exact Eqs|].
  set (e3 := set_calls (S (calls e2)) e2).
  assert (keeps_store e e3) as Hk3 by (transitivity e2; [done|apply calls_store]).
  apply wp_bind, wp_call; fold e3; last first.
  { intros x. split; [by eapply stopped_open|done]. }
  intros result. destruct (commit_run compute_hash compute_hash_nonneg clock s0 p t' plan
    s2 result Ho2) as (qs' & _ & Hc). apply wp_bind, wp_on_sched.
  destruct (same_plan _ _ && is_ok _); last first.
  { destruct Hc as [x E]. unfold wp. change (scheduler_of e3) with s2. rewrite E.
    split; [by eapply stopped_open|]. by destruct Hk3. }
  destruct Hc as (ps & s4 & E & Hd & Hpf). unfold wp at 1. change (scheduler_of e3) with s2. rewrite E.
  set (e4 := set_sched s4 e3).
  assert (keeps_store e e4) as Hk4 by (transitivity e3; [done|by apply pool_store]).
  apply wp_bind. destruct (policy_choose env).
  - apply wp_call.
    + intros []. apply wp_ret. split; [|transitivity e4; [done|apply calls_store]].
      by do 4 eexists.
    + intros x. split; [by eapply stopped_after|]. transitivity e4; [done|apply calls_store].
  - apply wp_ret, wp_ret. split; [by do 4 eexists|done].
Qed.

(** The whole cycle. *)
Lemma verified_run ks rollback e :
  verified → let s0 := scheduler_of e in
  sinv kv_inv [] (running s0) s0 → ks = running s0 →
  wp (execute_verified ks rollback)
    (λ r e', cycled s0 r (scheduler_of e') ∧ keeps_store e e')
    (λ _ e', stopped s0 (scheduler_of e') ∧ keeps_store e e') e.
Proof.
  intros [Hen _] s0 Hs ->. unfold _execute_speculative_verified.
  destruct (rows_of_run (running s0) e) as (qs & Eqs & _).
  { intros k Hk. destruct (si_run _ _ _ _ Hs k) as (q & Hq & _); [by rewrite app_nil_r|by exists q]. }
  apply wp_bind. eapply wp_eq; [exact Eqs|]. set (e1 := set_calls (S (calls e)) e).
  assert (keeps_store e e1) as Hk1 by apply calls_store.
  assert (stopped s0 (scheduler_of e1) ∧ keeps_store e e1) as Hstop
    by (split; [apply stopped_before, untouched_refl|done]).
  apply wp_bind. unfold _resolve_draft_route_admission. rewrite Hen. simpl negb. cbn iota.
  apply wp_call; [|done]. intros admission. fold e1.
  apply wp_bind. eapply wp_eq; [reflexivity|].
  apply wp_bind, wp_lift; [|done]. intros admission' _.
  apply wp_bind, wp_lift; [|done]. intros [admission''|] _; last first.
  { apply wp_ret. split; [apply untouched_refl|done]. }
  eapply wp_mono; [exact (verified_plan_run (speculative_memory_plan env) admission'' rollback e1 Hs)|..].
  - intros r e' [Hc Hk]. split; [done|by transitivity e1].
  - intros x e' [Hc Hk]. split; [done|by transitivity e1].
Qed.

(** ** Clean-up *)

(** Rolling back the schedule of a batch that is no longer scheduled changes
    nothing. *)
Lemma rollback_refused s c ks qs :
  ks ≠ [] → length ks = length qs →
  (∀ k, k ∈ ks → ∃ q, seqs s !! k = Some q ∧
     (status q ≠ RUNNING ∨ num_scheduled_tokens q ≠ 1)) →
  (rollback_failed_decode_schedule (zip_with (capture_row c) ks qs) s).2 = s.
Proof.
  intros Hne Hl Hrow. destruct ks as [|k ks], qs as [|q0 qs]; try done.
  destruct (Hrow k ltac:(set_solver)) as (q & Hq & Hbad).
  assert (∃ x, check_rollback_row (capture_row c k q0) s = (Raise x, s)) as [x E].
  { unfold check_rollback_row. cbn [rb_sequence capture_row].
    rewrite (bind_ok _ _ _ _ _ (seq_at_ok k s q Hq)).
    unfold bind at 1, raise_if at 1. destruct (negb _); [by eexists|]. simpl.
    assert (bool_decide (status q = RUNNING) && (num_scheduled_tokens q =? 1) = false) as Eb.
    { rewrite andb_false_iff, bool_decide_eq_false, Z.eqb_neq. done. }
    destruct (bool_decide (status q = RUNNING)); simpl in *; [|by eexists].
    destruct (is_prefill q); simpl; [by eexists|]. rewrite Eb. by eexists. }
  assert (map_all check_rollback_row (zip_with (capture_row c) (k :: ks) (q0 :: qs)) s =
    (Raise x, s)) as Em by exact (bind_raise _ _ _ _ _ E).
  generalize dependent (zip_with (capture_row c) (k :: ks) (q0 :: qs)). intros rb Em.
  unfold rollback_failed_decode_schedule. rewrite (bind_ok get _ s s s eq_refl).
  unfold bind at 1, raise_if at 1. destruct (bool_decide _); [done|].
  unfold ret at 1. unfold bind at 1, raise_if at 1. destruct (bool_decide _); [done|].
  unfold ret at 1. by rewrite (bind_raise _ _ _ _ _ Em).
Qed.

(** A committed batch is no longer scheduled. *)
Lemma burst_done_refuses s1 k now results ps s' rollback :
  running s1 ≠ [] → burst_done compute_hash s1 k now results ps s' → decode_record s1 rollback →
  (rollback_failed_decode_schedule rollback s').2 = s'.
Proof.
  intros Hne [Hidle _ Hrun [Hks _] Hrow _] (qs & Hqs & _ & ->).
  apply rollback_refused; [done|by eapply Forall2_length|]. intros x Hx.
  destruct (decide (x ∈ burst_finished s1 ps)) as [Hf|Hf].
  - unfold burst_finished in Hf. apply list_elem_of_fmap in Hf as (p & -> & [Hb Hp]%list_elem_of_filter).
    destruct (Hrow p Hp) as (q & q' & Hq & Hq' & _ & Hc). rewrite Hq in Hb.
    pose proof (bc_final _ _ _ _ _ _ Hc) as Hfin. rewrite Hb in Hfin. destruct Hfin as [Hst _].
    exists q'. split; [done|]. left. by rewrite Hst.
  - destruct (si_run _ _ _ _ Hidle x) as (q & Hq & _ & _ & Hsc).
    { rewrite app_nil_r, Hrun. by apply list_elem_of_filter. }
    rewrite decide_False in Hsc by apply not_elem_of_nil. exists q. split; [done|]. right. lia.
Qed.

(** Clean again after a failed decode step. *)
Record settled (e e' : engine) : Prop := {
  st_idle : sinv kv_inv [] [] (scheduler_of e');
  st_queue : queue e' ⊆ queue e;
  st_keeps : keeps_store e e';
}.

Lemma undone_queue s s' : undone_step compute_hash s s' →
  waiting s' ++ running s' ⊆ waiting s ++ running s.
Proof. intros [_ (-> & -> & _) _ _]. done. Qed.

Lemma rollback_settles e1 e rollback :
  sinv kv_inv [] (running (scheduler_of e1)) (scheduler_of e1) →
  decode_record (scheduler_of e1) rollback →
  untouched (scheduler_of e1) (scheduler_of e) → keeps_store e1 e →
  ∃ s', (rollback_failed_decode_schedule rollback (scheduler_of e)).2 = s' ∧
    settled e1 (set_sched s' e).
Proof.
  intros Hs Hrb Hu Hk. pose proof (untouched_sinv _ _ _ _ _ Hs Hu) as Hs'.
  assert (set_transaction None (scheduler_of e) = scheduler_of e) as Et.
  { destruct (si_plans _ _ _ _ Hs') as [E _]. destruct (scheduler_of e). simpl in E. by subst. }
  assert (waiting (scheduler_of e) = waiting (scheduler_of e1) ∧
    running (scheduler_of e) = running (scheduler_of e1)) as [Ew Er]
    by (by destruct Hu as (n & h & -> & _)).
  destruct (rollback_schedule_run compute_hash compute_hash_nonneg (scheduler_of e) rollback)
    as (ch & s' & E & Hd & Hact).
  { by rewrite Et, Er. }
  { rewrite Et. destruct Hrb as (qs & Hqs & Hp & ->). exists qs. rewrite Er.
    destruct Hu as (n & h & -> & [->| ->]); done. }
  rewrite Et in Hd. exists s'. split; [by rewrite E|].
  assert (set_transaction None s' = s') as Et'.
  { destruct (si_plans _ _ _ _ Hs') as [Ea _]. rewrite Ea in Hact. destruct s'. simpl in Hact.
    by subst. }
  rewrite Et' in Hd. split; [apply Hd| |].
  - simpl. rewrite (undone_queue _ _ Hd), Ew, Er. done.
  - transitivity e; [done|]. apply sched_store.
    pose proof (keeps_rollback_failed_decode rollback (scheduler_of e)) as Hf. by rewrite E in Hf.
Qed.

(** The clean-up of a cycle settles the engine wherever it stopped. *)
Lemma cleanup_settles e1 e rollback :
  sinv kv_inv [] (running (scheduler_of e1)) (scheduler_of e1) → running (scheduler_of e1) ≠ [] →
  decode_record (scheduler_of e1) rollback →
  stopped (scheduler_of e1) (scheduler_of e) → keeps_store e1 e →
  ∃ e', step_cleanup None (Some rollback) e = (Ok tt, e') ∧ settled e1 e'.
Proof.
  intros Hs Hne Hrb Hst Hk. unfold step_cleanup. rewrite (bind_ok get _ e e e eq_refl).
  assert (∀ s', (rollback_failed_decode_schedule rollback (scheduler_of e)).2 = s' →
    (on_sched (rollback_failed_decode_schedule rollback) e).2 = set_sched s' e) as Hsup.
  { intros s' <-. unfold on_sched, zoom. by destruct (rollback_failed_decode_schedule _ _). }
  destruct Hst as [Hu|w p t Ho|k now results ps Hd].
  - assert (_active_spec_transaction (scheduler_of e) = None) as ->.
    { by destruct (si_plans _ _ _ _ (untouched_sinv _ _ _ _ _ Hs Hu)) as [E _]. }
    destruct (rollback_settles e1 e rollback Hs Hrb Hu Hk) as (s' & E & Hset).
    exists (set_sched s' e). split; [|done]. simpl. unfold bind, ret, suppress.
    by rewrite (Hsup s' E).
  - rewrite (bo_tx _ _ _ _ _ _ Ho), bool_decide_eq_true_2 by done.
    destruct (abort_run compute_hash compute_hash_nonneg w _ p t _ Ho)
      as (s' & E & Hd).
    exists (set_sched s' e). split; [unfold suppress; cbv beta; by rewrite (on_sched_ok _ _ _ _ E)|].
    split; [apply Hd|by apply undone_queue|].
    transitivity e; [done|]. apply sched_store.
    pose proof (keeps_abort_speculative_step (scheduler_of e)) as Hf. by rewrite E in Hf.
  - destruct (si_plans _ _ _ _ (bd_idle _ _ _ _ _ _ _ Hd)) as [-> _].
    pose proof (burst_done_refuses _ _ _ _ _ _ _ Hne Hd Hrb) as E.
    exists e. split.
    + simpl. unfold bind, ret, suppress. rewrite (Hsup _ E). by rewrite set_sched_id.
    + split; [apply Hd| |done]. rewrite (bd_waiting _ _ _ _ _ _ _ Hd), (bd_running _ _ _ _ _ _ _ Hd).
      intros x [?|[_ ?]%list_elem_of_filter]%elem_of_app; set_solver.
Qed.

(** ** The step *)

#[local] Abbreviation _step := (_step compute_hash clock torch sha256_hexdigest limits env).

(** A decode batch is the whole running queue, and its undo record is taken. *)
Lemma decode_recorded l s1 :
  sinv kv_inv [] l s1 → l ≠ [] → batch_ok s1 l false →
  running s1 = l ∧ ∃ rb, capture_decode_schedule_rollback l false s1 = (Ok (Some rb), s1) ∧
    decode_record s1 rb.
Proof.
  intros Hs Hne (decodes & prefills & -> & Hp & Hd & Hr).
  destruct (decide (prefills = [])) as [->|]; [|by rewrite bool_decide_eq_false_2 in Hp].
  rewrite app_nil_r in *. split; [by apply Hr|].
  destruct (read_all decodes s1) as (qs & Eqs & Hqs).
  { intros k Hk. rewrite Forall_forall in Hd. destruct (Hd k Hk) as (q & ? & _). by exists q. }
  assert (Forall (λ q, pure_decode_row q = true) qs) as Hpure.
  { apply Forall_forall. intros q [i Hi]%list_elem_of_lookup.
    destruct (Forall2_lookup_r _ _ _ _ _ Hqs Hi) as (k & Hk & Hq).
    apply list_elem_of_lookup_2 in Hk. rewrite Forall_forall in Hd.
    destruct (Hd k Hk) as (q' & Hq' & Hsc & Hpf). assert (q' = q) as -> by congruence.
    destruct (si_run _ _ _ _ Hs k) as (q' & Hq1 & [Hst _] & _ & Hrow).
    { rewrite app_nil_r, Hr; done. }
    assert (q' = q) as -> by congruence. rewrite decide_True in Hrow by done.
    unfold pure_decode_row. rewrite bool_decide_eq_true_2, Hpf, Hsc by done. simpl.
    apply Z.eqb_eq. lia. }
  exists (zip_with (capture_row (sc_config s1)) decodes qs). split.
  - unfold capture_decode_schedule_rollback. rewrite bool_decide_eq_false_2 by done.
    cbn [orb]. unfold bind at 1, gets at 1. rewrite (bind_ok _ _ _ _ _ Eqs).
    assert (forallb pure_decode_row qs = true) as ->; [|done].
    apply forallb_forall. intros q Hq. rewrite Forall_forall in Hpure.
    by apply Hpure, list_elem_of_In.
  - exists qs. by rewrite Hr.
Qed.

(** The ordinary half of a step: run the model, commit its tokens. *)
Lemma commit_ordinary ks hp e :
  sinv kv_inv [] ks (scheduler_of e) → NoDup ks → ks ⊆ queue e →
  wp (commit_cycle compute_hash clock env ks hp None)
    (λ _ e', sinv kv_inv [] [] (scheduler_of e') ∧ queue e' ⊆ queue e ∧ keeps_store e e')
    (λ _ e', scheduler_of e' = scheduler_of e ∧ keeps_store e e') e.
Proof.
  intros Hs Hnd Hsub. unfold commit_cycle.
  destruct (rows_of_run ks e) as (qs & Eqs & _).
  { intros k Hk. destruct (sinv_stored compute_hash kv_inv ks _ k Hs (Hsub k Hk)) as (q & ? & _).
    by exists q. }
  apply wp_bind. eapply wp_eq; [exact Eqs|]. set (e1 := set_calls (S (calls e)) e).
  assert (keeps_store e e1) as Hk1 by apply calls_store.
  apply wp_bind, wp_call; [|done]. fold e1. intros toks. apply wp_on_sched.
  pose proof (postprocess_run compute_hash clock kv_inv (scheduler_of e) ks toks Hs Hnd Hsub) as Hp.
  pose proof (postprocess_frame compute_hash clock ks toks (scheduler_of e)) as Hf.
  unfold wp. change (scheduler_of e1) with (scheduler_of e). case_decide.
  - destruct Hp as (s' & E & Hs' & _ & Hw & Hr & _). rewrite E in Hf |- *. split; [done|]. split.
    + simpl. rewrite Hw, Hr. intros x. rewrite !elem_of_app. tauto.
    + transitivity e1; [done|by apply pool_store].
  - destruct Hp as [x E]. rewrite E. split; [done|]. by destruct Hk1.
Qed.

(** Between steps: idle, with every queued request still there. *)
Record step_safe (e e' : engine) : Prop := {
  sp_ok : engine_ok [] e';
  sp_session : same_session e e';
  sp_queue : queue e' ⊆ queue e;
}.

Lemma settled_safe e e1 e' :
  engine_ok [] e → keeps_store e e1 → queue e1 ⊆ queue e → settled e1 e' → step_safe e e'.
Proof.
  intros [_ Hf] Hk Hq [Hs Hq' Hk']. assert (keeps_store e e') as [Hss Hn Hst] by by transitivity e1.
  split; [split; [done|]|done|by etransitivity].
  intros k Hk0%Hst. rewrite Hn. by apply Hf.
Qed.

(** A step without prefill work. *)
Lemma decode_step_run l s1 e1 rb :
  verified → scheduler_of e1 = s1 → sinv kv_inv [] l s1 → NoDup l → l ≠ [] → running s1 = l →
  decode_record s1 rb →
  wp (let* (events, cycle) := try_handler (execute_cycle compute_hash clock torch sha256_hexdigest
          limits env l false (Some rb)) (step_cleanup None (Some rb)) in
      try_handler (commit_cycle compute_hash clock env l false events) (step_cleanup cycle (Some rb)))
    (λ _ e', settled e1 e') (λ _ e', settled e1 e') e1.
Proof.
  intros Hver <- Hs Hnd Hne <- Hrb. set (s1 := scheduler_of e1) in *.
  assert (∀ e, stopped s1 (scheduler_of e) → keeps_store e1 e → ∃ e',
    step_cleanup None (Some rb) e = (Ok tt, e') ∧ settled e1 e') as Hclean
    by (intros e Hst Hk; exact (cleanup_settles e1 e rb Hs Hne Hrb Hst Hk)).
  apply wp_bind, wp_try_handler. unfold execute_cycle. destruct Hver as [Hen Hv].
  rewrite Hv. simpl andb. cbn iota. apply wp_bind.
  eapply wp_mono; [exact (verified_run (running s1) (Some rb) e1 (conj Hen Hv) Hs eq_refl)|..].
  2: { intros x e' [Hst Hk]. by apply Hclean. }
  intros [events|] e' [Hc Hk].
  - apply wp_ret, wp_try_handler. unfold commit_cycle. apply wp_ret.
    destruct Hc as (k & now & results & ps & _ & Hd). split; [apply Hd| |done].
    rewrite (bd_waiting _ _ _ _ _ _ _ Hd), (bd_running _ _ _ _ _ _ _ Hd).
    intros x [?|[_ ?]%list_elem_of_filter]%elem_of_app; set_solver.
  - apply wp_ret, wp_try_handler. simpl in Hc.
    pose proof (untouched_sinv _ _ _ _ _ Hs Hc) as Hs'.
    assert (queue e' = queue e1) as Hq by (by destruct Hc as (n & h & -> & _)).
    eapply wp_mono; [apply (commit_ordinary (running s1) false e' Hs' Hnd)|..].
    + rewrite Hq. unfold s1. set_solver.
    + intros evs e2 (Hs2 & Hq2 & Hk2). split; [done|by rewrite <-Hq|by transitivity e'].
    + intros x e2 [E2 Hk2]. apply Hclean; [|by transitivity e']. rewrite E2. by apply stopped_before.
Qed.

(** A step with prefill work does not speculate. *)
Lemma prefill_step_run l e1 :
  sinv kv_inv [] l (scheduler_of e1) → NoDup l → l ⊆ queue e1 →
  wp (let* (events, cycle) := try_handler (execute_cycle compute_hash clock torch sha256_hexdigest
          limits env l true None) (step_cleanup None None) in
      try_handler (commit_cycle compute_hash clock env l true events) (step_cleanup cycle None))
    (λ _ e', settled e1 e')
    (λ _ e', scheduler_of e' = scheduler_of e1 ∧ keeps_store e1 e') e1.
Proof.
  intros Hs Hnd Hsub. apply wp_bind, wp_try_handler. unfold execute_cycle, _execute_draft_discard.
  cbn [negb andb orb]. cbn iota. apply wp_bind, wp_ret, wp_ret, wp_try_handler.
  eapply wp_mono; [apply (commit_ordinary l true e1 Hs Hnd Hsub)|..].
  - intros evs e2 (? & ? & ?). by split.
  - intros x e2 [E2 Hk2]. exists e2. split; [|done].
    unfold step_cleanup, bind, get. rewrite E2. by destruct (si_plans _ _ _ _ Hs) as [-> _].
Qed.

(** How a step may end. *)
Definition step_ends (e : engine) (o : outcome StepOutput) (e' : engine) : Prop :=
  match o with
  | Ok out => step_safe e e' ∧ ∀ k, k ∈ out_finished out → is_Some (stored e' !! k)
  | Raise _ => same_session e e' ∧ queue e' ⊆ queue e ∧ ∃ l, engine_ok l e' ∧
      (l ≠ [] → ∃ s1, schedule compute_hash clock (scheduler_of e) = (Ok (l, true), s1))
  end.

(** The tail of a step reports the finished rows. *)
Lemma step_tail e e1 l events n m :
  engine_ok [] e → keeps_store e e1 → queue e1 ⊆ queue e → (∀ k, k ∈ l → is_Some (stored e1 !! k)) →
  ∀ e', settled e1 e' → wp (let* qs := rows_of l in
      let finished := fst <$> filter (λ kq : nat * sequence, is_finished kq.2 = true) (zip l qs) in
      ret (mk_step_output events finished n m))
    (λ o e'', step_ends e (Ok o) e'') (λ x e'', step_ends e (Raise x) e'') e'.
Proof.
  intros He Hk Hq Hst e' Hset. pose proof (settled_safe _ _ _ He Hk Hq Hset) as Hsafe.
  assert (∀ k, k ∈ l → is_Some (stored e' !! k)) as Hst'
    by (intros k Hkl; apply (ks_stored _ _ (st_keeps _ _ Hset)); auto).
  destruct (rows_of_run l e' Hst') as (qs & Eqs & HF).
  apply wp_bind. eapply wp_eq; [exact Eqs|]. apply wp_ret. split; [done|]. simpl. intros k Hk'.
  apply (finished_members _ _ _ _ HF) in Hk' as [Hin _]. by apply Hst'.
Qed.

Lemma step_verified_run e :
  verified → engine_ok [] e → step_ends e (_step e).1 (_step e).2.
Proof.
  intros Hver He. pose proof He as [Hs Hf].
  assert (wp _step (λ o e', step_ends e (Ok o) e') (λ x e', step_ends e (Raise x) e') e) as Hw;
    [|by unfold wp in Hw; destruct (_step e) as [[o|x] e']].
  pose proof (schedule_run compute_hash clock kv_inv _ Hs) as Hr.
  pose proof (schedule_frame compute_hash clock (scheduler_of e)) as Hfr.
  unfold Engine._step. apply wp_bind, wp_on_sched. unfold wp.
  destruct (schedule compute_hash clock (scheduler_of e)) as [[[l hp]|x] s1] eqn:Es; simpl in Hfr;
    set (e1 := set_sched s1 e);
    assert (keeps_store e e1) as Hk1 by (by apply sched_store).
  2: { destruct Hr as (Hs1 & Hp & _). split; [apply Hk1|]. split; [simpl; by rewrite Hp|].
       exists []. split; [|done]. split; [done|]. intros k Hk%(ks_stored _ _ Hk1).
       by apply Hf. }
  destruct Hr as (Hs1 & Hnd & Hne & Hsub & Hp & _ & _ & _ & Hb).
  assert (queue e1 ⊆ queue e) as Hq1 by (simpl; by rewrite Hp).
  assert (∀ k, k ∈ l → is_Some (stored e1 !! k)) as Hst.
  { intros k Hk. destruct (sinv_stored compute_hash kv_inv l s1 k Hs1 (Hsub k Hk)) as (q & ? & _).
    by exists q. }
  destruct (rows_of_run l e1 Hst) as (qs & Eqs & _).
  apply wp_bind. eapply wp_eq; [exact Eqs|]. destruct hp.
  - cbn [negb andb]. apply wp_bind, wp_ret.
    eapply wp_pair; [exact (prefill_step_run l e1 Hs1 Hnd Hsub)| |].
    + intros evs e2 Hset. by apply (step_tail e e1).
    + intros x e2 [E2 Hk2]. assert (keeps_store e e2) as Hk by by transitivity e1.
      split; [apply Hk|]. rewrite E2. split; [done|]. exists l.
      split; [|by exists s1]. split; [by rewrite E2|]. intros k Hkk%(ks_stored _ _ Hk).
      rewrite (ks_next _ _ Hk). by apply Hf.
  - destruct (decode_recorded l s1 Hs1 Hne Hb) as (Hrun & rb & Ecap & Hrb).
    rewrite (proj1 Hver). cbn [negb andb]. apply wp_bind. eapply wp_eq; [exact (on_sched_ok _ e1 _ _ Ecap)|].
    eapply wp_pair; [exact (decode_step_run l s1 e1 rb Hver eq_refl Hs1 Hnd Hne Hrun Hrb)| |].
    + intros evs e2 Hset. by apply (step_tail e e1).
    + intros x e2 Hset. destruct (settled_safe e e1 e2 He Hk1 Hq1 Hset) as [Hok Hss Hq2].
      split; [done|]. split; [done|]. by exists [].
Qed.


#[export] Instance verified_safe :
  verified → SafeSteps compute_hash clock kv_inv torch sha256_hexdigest limits env.
Proof.
  intros Hver e He. pose proof (step_verified_run e Hver He) as Hend.
  cbv zeta. destruct (_step e) as [[o|x] e']; simpl in *.
  - destruct Hend as [[Hok Hss Hq] Hfin]. by split_and!.
  - destruct Hend as (Hss & Hq & l & Hl & _). split_and!; [done..|by exists l].
Qed.
End verified.
