(* ===== verification/GenerateSpec.v ===== *)
(** * GenerateSpec: [generate] answers, and always cleans up

    The two promises of [LLMEngine.generate] on the ordinary path.  With a
    runner that answers vocabulary tokens and a clock that advances, every
    batch of valid requests is answered, in input order, each completion ending
    exactly at its stop condition; the loop terminates because a step decreases
    the measure of Progress.  Whatever the runner does, [generate] leaves the
    engine free, its queues empty and every block in the pool. *)
From S2P Require Import Prelude SamplingParams Sequence Heap BlockManager Reservation SpecMemory.
From S2P Require Import SpecRoutes SpecPlan SpecResult Scheduler SpecScheduler AllocatorInv CacheInv.
From S2P Require Import KVContract SchedInv Frame ScheduleSpec PrefillSpec StepSpec Progress.
From S2P Require Import CancelSpec EngineLoop Metrics Engine EngineSpec.

(** ** Completions *)

(** The [i]-th completion token [t] ends a request. *)
Definition stop_at (c : sched_config) (p : sampling) (i : nat) (t : Z) : Prop :=
  (sp_ignore_eos p = false ∧ t = eos c) ∨ sp_max_tokens p <= Z.of_nat (S i).

Definition never_stops (c : sched_config) (p : sampling) (l : list Z) : Prop :=
  ∀ i t, l !! i = Some t → ¬ stop_at c p i t.

(** The completion ends at its first stopping token. *)
Definition stops_exactly (c : sched_config) (p : sampling) (l : list Z) : Prop :=
  ∃ l' t, l = l' ++ [t] ∧ never_stops c p l' ∧ stop_at c p (length l') t.

(** A request under way: its prompt, its parameters and its token times. *)
Record serves (toks : list Z) (p : sampling) (q : sequence) : Prop := {
  sv_prompt : prompt_token_ids q = toks;
  sv_params : params q = p;
  sv_times : head (token_times (times q)) = first_token_time (times q);
}.

Lemma same_completion q q' : same_request q q' → completion_token_ids q' = completion_token_ids q.
Proof. intros []. unfold completion_token_ids. congruence. Qed.

Lemma serves_same toks p q q' : same_request q q' → serves toks p q → serves toks p q'.
Proof. intros [] []. split; unfold prompt_token_ids in *; congruence. Qed.

Lemma stamped_same q q' : same_request q q' → stamped q → stamped q'.
Proof.
  intros [] [Hs [Hf Hh] Hl]. split; [by auto|split; [|congruence]|congruence].
  rewrite sr_first. done.
Qed.

Lemma fresh_serves toks p q : fresh_for toks p q →
  serves toks p q ∧ completion_token_ids q = [].
Proof.
  intros [Et En Ep Epar [E1 E2]]. split; [split|].
  - unfold prompt_token_ids. rewrite Ep, Et, Nat2Z.id. apply firstn_all.
  - done.
  - by rewrite E1, E2.
  - unfold completion_token_ids. rewrite Ep, Et, Nat2Z.id. apply skipn_all.
Qed.

Lemma stops_spec c t q : seq_wf q →
  stops c t (append_token t q) = true ↔ stop_at c (params q) (length (completion_token_ids q)) t.
Proof.
  intros Hwf. pose proof (append_token_tokens t q Hwf) as (_ & _ & En).
  unfold stops, stop_at. rewrite En, orb_true_iff, andb_true_iff, negb_true_iff, Z.eqb_eq, Z.leb_le.
  change (params (append_token t q)) with (params q).
  assert (Z.of_nat (S (length (completion_token_ids q))) = num_completion_tokens q + 1) as ->.
  { destruct Hwf. unfold completion_token_ids, num_completion_tokens. rewrite length_drop. lia. }
  done.
Qed.

Lemma never_stops_snoc c p l t :
  never_stops c p l → ¬ stop_at c p (length l) t → never_stops c p (l ++ [t]).
Proof.
  intros Hl Ht i x [Hi|[Hi Hx]]%lookup_app_Some; [by apply Hl|].
  apply list_lookup_singleton_Some in Hx as [Hx <-].
  by replace i with (length l) by lia.
Qed.

(** The commit of a complete row: one token more, and the stamps. *)
Lemma commit_serves now t toks p q :
  seq_wf q → serves toks p q →
  serves toks p (commit_token now t q) ∧
  completion_token_ids (commit_token now t q) = completion_token_ids q ++ [t] ∧
  last (token_times (times (commit_token now t q))) = Some now ∧
  is_Some (first_token_time (times (commit_token now t q))) ∧
  first_scheduled_time (times (commit_token now t q)) = first_scheduled_time (times q).
Proof.
  intros Hwf [Hp Hpar Ht]. pose proof (append_token_tokens t q Hwf) as (E1 & E2 & _).
  assert (token_times (times (commit_token now t q)) = token_times (times q) ++ [now] ∧
    first_token_time (times (commit_token now t q)) =
      Some (default now (first_token_time (times q)))) as [Et Ef].
  { unfold commit_token. simpl. by destruct (first_token_time (times q)) eqn:E; simpl; rewrite ?E. }
  split; [split|split_and!].
  - by rewrite <-Hp, <-E1.
  - done.
  - rewrite Et, Ef, <-Ht. by destruct (token_times (times q)).
  - exact E2.
  - rewrite Et. apply last_snoc.
  - by rewrite Ef.
  - unfold commit_token. simpl. by destruct (first_token_time (times q)).
Qed.

(** A row of the batch, after the commit. *)
Lemma row_serves now c q t q' toks p :
  seq_wf q → is_Some (first_scheduled_time (times q)) ∨
    num_cached_tokens q + num_scheduled_tokens q < num_tokens q →
  serves toks p q → never_stops c p (completion_token_ids q) → row_committed now c q t q' →
  serves toks p q' ∧
  if is_final (row_event c q t)
  then stops_exactly c p (completion_token_ids q') ∧ stamped q' ∧ status q' = FINISHED
  else never_stops c p (completion_token_ids q').
Proof.
  intros Hwf Hst Hsv Hns [Hreq Hfin _]. pose proof (sv_params _ _ _ Hsv) as Hpar.
  unfold row_event in *. destruct (_ <? _) eqn:Elt.
  { split; [by eapply serves_same|]. simpl. by rewrite (same_completion _ _ Hreq). }
  apply Z.ltb_ge in Elt. destruct Hst as [Hst|]; [|lia].
  destruct (commit_serves now t toks p q Hwf Hsv) as (Hsv' & Ec & El & Ef & Es).
  pose proof (stops_spec c t q Hwf) as Hstop. rewrite Hpar in Hstop. simpl is_final in *.
  destruct (stops c t (append_token t q)).
  - assert (serves toks p (finish_stamp now (commit_token now t q))) as Hsf by by destruct Hsv'.
    split; [by eapply serves_same|]. split; [|split; [|by apply Hfin]].
    + rewrite (same_completion _ _ Hreq).
      change (completion_token_ids (finish_stamp now (commit_token now t q))) with
        (completion_token_ids (commit_token now t q)). rewrite Ec.
      exists (completion_token_ids q), t. split; [done|]. split; [done|by apply Hstop].
    + eapply stamped_same; [exact Hreq|]. rewrite <-Es in Hst.
      split; [exact Hst|split; [exact Ef|apply (sv_times _ _ _ Hsv')]|exact El].
  - split; [by eapply serves_same|]. rewrite (same_completion _ _ Hreq), Ec.
    apply never_stops_snoc; [done|]. rewrite <-Hstop. done.
Qed.

(** ** The loop *)

Section generate.
Context (compute_hash : list Z → Z → Z) (clock : nat → Z) (I : heap → Prop)
  `{!KVAllocator compute_hash I}.
Context (torch : torch_dtypes) (sha256_hexdigest : payload → string).
Context (limits : AdmissionLimits) (env : runner).
Hypothesis Hord : ordinary env.

#[local] Abbreviation engine_ok := (engine_ok I).
#[local] Abbreviation _step := (_step compute_hash clock torch sha256_hexdigest limits env).
#[local] Abbreviation generate_loop :=
  (generate_loop compute_hash clock torch sha256_hexdigest limits env).
#[local] Abbreviation step_done := (step_done compute_hash clock env).
#[local] Existing Instance same_session_preorder.

Definition row_state (e : engine) (outputs : gmap nat nat) (k : nat) (r : list Z * sampling) : Prop :=
  ∃ q, stored e !! k = Some q ∧ serves r.1 r.2 q ∧
    if decide (k ∈ queue e) then never_stops (cfg e) r.2 (completion_token_ids q)
    else stops_exactly (cfg e) r.2 (completion_token_ids q) ∧ stamped q ∧ outputs !! k = Some k.

(** The loop's invariant: [ks] were admitted for [reqs]. *)
Record loop_inv (e : engine) (outputs : gmap nat nat) (ks : list nat)
    (reqs : list (list Z * sampling)) : Prop := {
  li_ok : engine_ok [] e;
  li_adm : admissible (scheduler_of e);
  li_budget : 0 < max_num_batched_tokens (cfg e);
  li_queue : queue e ⊆ ks;
  li_rows : Forall2 (row_state e outputs) ks reqs;
}.

Lemma tick_inv e outputs ks reqs : loop_inv e outputs ks reqs → loop_inv (tick e) outputs ks reqs.
Proof. intros [He ? ? ? ?]. split; try done. by apply tick_ok. Qed.

(** The outputs after a step. *)
Lemma outputs_spec (st : gmap nat sequence) ks qs (m : gmap nat nat) :
  Forall2 (λ k q, st !! k = Some q) ks qs → (∀ k q, st !! k = Some q → seq_id q = k) →
  ∀ k, foldl (λ m kq, <[seq_id kq.2 := kq.1]> m) m (zip ks qs) !! k =
    if decide (k ∈ ks) then Some k else m !! k.
Proof.
  intros HF Hid. revert m. induction HF as [|x q ks qs Hx _ IH]; intros m k; [done|].
  cbn [zip zip_with foldl fst snd]. rewrite IH, (Hid _ _ Hx), lookup_insert.
  destruct (decide (k ∈ ks)); [by rewrite decide_True by set_solver|].
  destruct (decide (x = k)) as [->|]; [by rewrite decide_True by set_solver|].
  by rewrite decide_False by set_solver.
Qed.

(** The batch's rows that finish. *)
Lemma finished_of_batch s l toks k : k ∈ finished_of s (zip l toks) → k ∈ l.
Proof.
  unfold finished_of. rewrite list_elem_of_fmap.
  intros ([k' t'] & -> & [_ Hz]%list_elem_of_filter).
  apply list_elem_of_lookup in Hz as [j [Hj _]%lookup_zip_Some]. by eapply list_elem_of_lookup_2.
Qed.

Lemma finished_of_row s l toks k t q :
  NoDup l → (k, t) ∈ zip l toks → seqs s !! k = Some q →
  k ∈ finished_of s (zip l toks) ↔ is_final (row_event (sc_config s) q t) = true.
Proof.
  intros Hnd Hz Hq. unfold finished_of. rewrite list_elem_of_fmap. split.
  - intros ([k' t'] & -> & [Hev Hz']%list_elem_of_filter). simpl in *.
    assert (t' = t) as ->.
    { apply list_elem_of_lookup in Hz as [i [Hi1 Hi2]%lookup_zip_Some].
      apply list_elem_of_lookup in Hz' as [j [Hj1 Hj2]%lookup_zip_Some].
      assert (j = i) as -> by (by eapply NoDup_lookup). congruence. }
    unfold row_event_at in Hev. simpl in Hev. by rewrite Hq in Hev.
  - intros Hev. exists (k, t). split; [done|]. apply list_elem_of_filter. split; [|done].
    unfold row_event_at. simpl. by rewrite Hq.
Qed.

(** A successful step, seen from one request: outside the batch only its
    scheduling state may change; in the batch its row is committed, and the
    request leaves the queue exactly with a final event. *)
Lemma step_cases e e' o l hp toks s1 s2 k q :
  engine_ok [] e → step_done e e' o l hp toks s1 s2 → stored e !! k = Some q →
  ∃ q1 q', same_request q q1 ∧ stored e' !! k = Some q' ∧
    (((k ∉ l) ∧ q' = q1 ∧ (k ∈ queue e' ↔ k ∈ queue e)) ∨
     (k ∈ l ∧ k ∈ queue e ∧ seqs s1 !! k = Some q1 ∧ seq_wf q1 ∧ (∃ t, (k, t) ∈ zip l toks ∧
        (is_Some (first_scheduled_time (times q1)) ∨
          num_cached_tokens q1 + num_scheduled_tokens q1 < num_tokens q1) ∧
        row_committed (clock (ticks s1)) (cfg e) q1 t q' ∧
        (k ∈ queue e' ↔ is_final (row_event (cfg e) q1 t) = false)))).
Proof.
  intros He Hd Hq. destruct He as [Hs Hf]. destruct Hd as [E1 E2 _ -> Hfin].
  pose proof (schedule_run compute_hash clock I _ Hs) as Hr.
  pose proof (schedule_frame compute_hash clock (scheduler_of e)) as Hfr. rewrite E1 in Hr, Hfr.
  simpl in Hfr. destruct Hr as (Hs1 & Hnd & _ & Hsub & Hp & Hc & _).
  pose proof (postprocess_run compute_hash clock I s1 l toks Hs1 Hnd Hsub) as Hpr.
  case_decide as Htok; [|destruct Hpr as [? ?]; congruence].
  destruct Hpr as (s2' & E2' & Hs2 & Hc2 & Hw & Hrun & Hother & Hrows & _).
  rewrite E2' in E2. injection E2 as _ <-.
  destruct (frame_seq _ _ k q Hfr Hq) as (q1 & Hq1 & Hreq1). exists q1.
  set (e' := set_calls _ _). change (stored e') with (seqs s2').
  change (queue e') with (waiting s2' ++ running s2').
  destruct (decide (k ∈ l)) as [Hkl|Hkl].
  - pose proof (Hsub k Hkl) as Hin. pose proof Hin as Hine. rewrite Hp in Hine.
    destruct Htok as [Hlen _]. apply list_elem_of_lookup in Hkl as Hi. destruct Hi as [i Hi].
    destruct (lookup_lt_is_Some_2 toks i) as [t Ht]; [rewrite Hlen; by eapply lookup_lt_Some|].
    assert ((k, t) ∈ zip l toks) as Hz
      by (apply list_elem_of_lookup; exists i; by apply lookup_zip_Some).
    destruct (Hrows k t q1 Hz Hq1) as (q2 & Hq2 & Hrc). rewrite Hc in Hrc.
    destruct (kv_seq _ _ _ (si_heap _ _ _ _ Hs1) Hq1) as [_ Hwf1].
    exists q2. split; [done|]. split; [done|]. right. split_and!; try done.
    exists t. split; [done|]. split; [|split; [done|]].
    + apply elem_of_app in Hin as [Hin|Hin].
      * right. destruct (si_wait _ _ _ _ Hs1 k Hin) as (q' & Hq' & _ & _ & ? & _).
        by simplify_eq.
      * left. destruct (si_run _ _ _ _ Hs1 k) as (q' & Hq' & [_ ?] & _); [set_solver|].
        by simplify_eq.
    + pose proof (finished_of_row s1 l toks k t q1 Hnd Hz Hq1) as Hff. rewrite Hc in Hff.
      pose proof (si_nodup _ _ _ _ Hs1) as Hnd1. rewrite app_nil_r, Hrun, <-Hw in Hnd1.
      rewrite (assoc_L (++)), (Permutation_app_comm (waiting s2')), <-(assoc_L (++)) in Hnd1.
      apply NoDup_app in Hnd1 as (_ & Hnd1 & _). rewrite <-not_true_iff_false, <-Hff.
      split; [intros Hk Hk'; by destruct (Hnd1 k Hk')|]. intros Hk. rewrite Hw.
      apply elem_of_app in Hin as [?|Hin]; [set_solver|].
      rewrite Hrun in Hin. apply elem_of_app in Hin as [Hin|?]; [done|set_solver].
  - exists q1. rewrite Hother by done. split; [done|]. split; [done|]. left. split_and!; try done.
    rewrite <-Hp, Hrun, Hw, !elem_of_app. pose proof (finished_of_batch s1 l toks k). tauto.
Qed.

Lemma step_config e e' o l hp toks s1 s2 :
  engine_ok [] e → step_done e e' o l hp toks s1 s2 → cfg e' = cfg e.
Proof. intros He Hd. destruct (step_done_ok _ _ _ _ _ _ _ _ _ _ _ _ He Hd) as (_ & Hss & _). apply Hss. Qed.

(** What a successful step does to the loop's record of a request. *)
Lemma step_row e e' o l hp toks s1 s2 outputs outputs' k r :
  engine_ok [] e → step_done e e' o l hp toks s1 s2 → row_state e outputs k r →
  (∀ k, outputs' !! k = if decide (k ∈ out_finished o) then Some k else outputs !! k) →
  row_state e' outputs' k r.
Proof.
  intros He Hd (q & Hq & Hsv & Hcase) Hout. pose proof (step_config _ _ _ _ _ _ _ _ He Hd) as Ec.
  destruct (step_cases _ _ _ _ _ _ _ _ _ _ He Hd Hq) as (q1 & q' & Hreq & Hq' & Hk).
  pose proof (serves_same _ _ _ _ Hreq Hsv) as Hsv1. rewrite <-(same_completion _ _ Hreq) in Hcase.
  pose proof (sd_finished _ _ _ _ _ _ _ _ _ _ _ Hd) as Hfin. exists q'. split; [done|]. rewrite Ec.
  destruct Hk as [(Hkl & -> & Hiff)|(Hkl & Hin & Hq1 & Hwf1 & t & Hz & Hst & Hrc & Hiff)].
  - split; [done|]. destruct (decide (k ∈ queue e)); [by rewrite decide_True by tauto|].
    rewrite decide_False by tauto. destruct Hcase as (? & ? & ?).
    split; [done|]. split; [by eapply stamped_same|]. rewrite Hout, decide_False; [done|]. by intros [? _]%Hfin.
  - rewrite decide_True in Hcase by done.
    destruct (row_serves _ _ _ _ _ _ _ Hwf1 Hst Hsv1 Hcase Hrc) as [Hsv2 Hend]. split; [done|].
    destruct (is_final (row_event (cfg e) q1 t)); [|by rewrite decide_True by by apply Hiff].
    destruct Hend as (Hse & Hstp & Hstatus). rewrite decide_False by (intros ?%Hiff; done).
    split; [done|]. split; [done|]. rewrite Hout, decide_True; [done|]. apply Hfin.
    split; [done|]. exists q'. destruct Hd as [_ _ _ -> _]. split; [exact Hq'|].
    unfold is_finished. by apply bool_decide_eq_true.
Qed.

(** ** Termination *)

(** The runner answers one vocabulary token per row, and the clock advances. *)
Definition answers (c : sched_config) : Prop := ∀ n qs hp,
  ∃ toks, run env n qs hp = Ok toks ∧ length toks = length qs ∧
    Forall (λ t, invalid_target_token c t = false) toks.
Definition advancing : Prop := ∀ n, clock n < clock (S n).

Lemma clock_lt n m : advancing → (n < m)%nat → clock n < clock m.
Proof. intros Hc. induction 1; [apply Hc|]. by transitivity (clock m). Qed.

Lemma throughput_ok tokens dt : dt ≠ 0 → throughput tokens dt = Ok tt.
Proof. intros. unfold throughput. by rewrite (proj2 (Z.eqb_neq dt 0)), andb_false_r. Qed.

Lemma loop_step e outputs ks reqs :
  loop_inv e outputs ks reqs → answers (cfg e) → queue e ≠ [] →
  ∃ o e' l hp toks s1 s2, _step e = (Ok o, e') ∧ step_done e e' o l hp toks s1 s2 ∧
    smaller (scheduler_of e') (scheduler_of e) ∧ admissible (scheduler_of e').
Proof.
  intros [He Ha Hb Hq Hrows] Hans Hne. pose proof He as [Hs Hf].
  pose proof (step_run compute_hash clock I torch sha256_hexdigest limits env Hord e He) as Hst.
  destruct (schedule_answers compute_hash clock I _ Hs Ha Hne Hb) as (l & hp & s1 & Es).
  destruct (_step e) as [[o|ex] e'] eqn:Est.
  - destruct Hst as (l' & hp' & toks & s1' & s2 & Hd). exists o, e', l', hp', toks, s1', s2.
    split; [done|]. split; [done|]. destruct Hd as [E1 E2 _ -> _].
    destruct (step_decreases compute_hash clock I _ _ _ _ _ _ _ Hs Ha Hne Hb E1 E2)
      as (_ & ? & ? & _). done.
  - exfalso. destruct Hst as [[s E|l' hp' s qs E Hl Hr|l' hp' s qs toks E Hl Hr Hn] _].
    + congruence.
    + destruct (Hans (calls e) qs hp') as (toks & ? & _). congruence.
    + destruct (Hans (calls e) qs hp') as (toks' & Hr' & Hl' & Hv).
      assert (toks' = toks) as -> by congruence. apply Hn. split; [congruence|done].
Qed.

Lemma generate_loop_ends e outputs ks reqs :
  loop_inv e outputs ks reqs → answers (cfg e) → advancing →
  ∃ n outputs' e', (∀ fuel, (n <= fuel)%nat → generate_loop fuel outputs e = (Ok outputs', e')) ∧
    loop_inv e' outputs' ks reqs ∧ queue e' = [] ∧ same_session e e'.
Proof.
  remember (scheduler_of e) as s eqn:Es. revert e outputs Es.
  induction (smaller_wf s) as [s _ IH]. intros e outputs -> Hinv Hans Hclock.
  destruct (decide (queue e = [])) as [Hq|Hq].
  { exists 1%nat, outputs, e. split; [|by split_and!]. intros [|fuel] Hf; [lia|].
    cbn [Engine.generate_loop]. unfold bind at 1, get. apply app_nil in Hq as [Hw Hr].
    unfold engine_is_finished, sched_is_finished. by rewrite Hw, Hr. }
  destruct (loop_step (tick e) outputs ks reqs (tick_inv _ _ _ _ Hinv) Hans Hq)
    as (o & e1 & l & hp & toks & s1 & s2 & E1 & Hd & Hsm & Ha1).
  pose proof (li_ok _ _ _ _ (tick_inv _ _ _ _ Hinv)) as Hte.
  destruct (step_done_ok compute_hash clock I env _ _ _ _ _ _ _ _ Hte Hd) as (He1 & Hss1 & Hq1).
  destruct (rows_of_run (out_finished o) (tick e1)) as (qs & Eq & HF).
  { intros k [_ (q & Hk & _)]%(sd_finished _ _ _ _ _ _ _ _ _ _ _ Hd). exists q.
    destruct Hd as [_ _ _ Ee _]. by rewrite Ee. }
  set (outputs1 := foldl (λ m kq, <[seq_id kq.2 := kq.1]> m) outputs (zip (out_finished o) qs)).
  assert (∀ k, outputs1 !! k = if decide (k ∈ out_finished o) then Some k else outputs !! k) as Hout.
  { apply (outputs_spec (stored e1)); [done|]. intros k q Hk.
    by destruct (kv_seq _ _ _ (si_heap _ _ _ _ (eo_sched _ _ _ He1)) Hk). }
  assert (loop_inv (tick e1) outputs1 ks reqs) as Hinv1.
  { apply tick_inv. destruct Hinv as [_ _ Hb Hqk Hrows]. split; [done|done| | |].
    - by rewrite (ss_config _ _ Hss1).
    - intros x Hx. apply Hqk, Hq1, Hx.
    - eapply Forall2_impl; [exact Hrows|]. intros k r Hrow. by eapply (step_row (tick e)). }
  assert (same_session e (tick e1)) as Hss.
  { transitivity (tick e); [apply tick_same|]. transitivity e1; [done|apply tick_same]. }
  destruct (IH (scheduler_of (tick e1)) Hsm (tick e1) outputs1 eq_refl Hinv1)
    as (n & outputs' & e' & E & Hinv' & Hq' & Hss'); [by rewrite (ss_config _ _ Hss)|done|].
  exists (S n), outputs', e'. split; [|split_and!; [done|done|by transitivity (tick e1)]].
  intros [|fuel] Hfuel; [lia|]. cbn [Engine.generate_loop]. unfold bind at 1, get.
  assert (engine_is_finished e = false) as ->.
  { unfold engine_is_finished, sched_is_finished. apply andb_false_iff.
    rewrite !bool_decide_eq_false. destruct (waiting _), (running _); auto. }
  rewrite (bind_ok _ _ _ _ _ (engine_clock_run clock e)), (bind_ok _ _ _ _ _ E1).
  rewrite (bind_ok _ _ _ _ _ (engine_clock_run clock e1)).
  assert (clock (ticks (scheduler_of e1)) - clock (ticks (scheduler_of e)) ≠ 0) as Hdt.
  { pose proof (ss_ticks _ _ Hss1) as Ht. simpl in Ht.
    pose proof (clock_lt (ticks (scheduler_of e)) (ticks (scheduler_of e1)) Hclock ltac:(lia)). lia. }
  rewrite !(throughput_ok _ _ Hdt). mstep. mstep. rewrite (bind_ok _ _ _ _ _ Eq).
  apply E. lia.
Qed.

(** ** The answers *)

Context (decode : list Z → string).

(** What the caller gets for a request. *)
Record answer_ok (c : sched_config) (r : list Z * sampling) (a : completion) : Prop := {
  an_tokens : stops_exactly c r.2 (c_token_ids a);
  an_text : c_text a = decode (c_token_ids a);
  an_times : engine_ttft (c_metrics a) + sum_Z (engine_itls (c_metrics a)) =
    engine_e2e (c_metrics a);
}.

Lemma collect_run e outputs ks reqs :
  loop_inv e outputs ks reqs → queue e = [] →
  ∃ answers, collect clock decode outputs ks e = (Ok answers, tick e) ∧
    Forall2 (answer_ok (cfg e)) reqs answers.
Proof.
  intros [He _ _ _ Hrows] Hq. assert (Forall2 (λ k r, ∃ q, stored e !! k = Some q ∧ seq_id q = k ∧
    stops_exactly (cfg e) r.2 (completion_token_ids q) ∧ stamped q ∧ outputs !! k = Some k) ks reqs)
    as Hall.
  { eapply Forall2_impl; [exact Hrows|]. intros k r (q & Hk & _ & Hcase). exists q.
    rewrite Hq, decide_False in Hcase by apply not_elem_of_nil.
    split; [done|]. split; [|tauto].
    by destruct (kv_seq _ _ _ (si_heap _ _ _ _ (eo_sched _ _ _ He)) Hk). }
  destruct (rows_of_run ks e) as (qs & Eq & HF).
  { intros k [i Hi]%list_elem_of_lookup. destruct (Forall2_lookup_l _ _ _ _ _ Hall Hi)
      as (r & _ & q & ? & _). by exists q. }
  unfold collect. rewrite (bind_ok _ _ _ _ _ Eq).
  assert (omap_all (λ q, match outputs !! seq_id q with Some k => Ok k | None => Raise KeyError end) qs
    = Ok ks) as Eo.
  { clear -Hall HF. revert reqs Hall. induction HF as [|k q ks qs Hk _ IH]; intros reqs Hall; [done|].
    inversion Hall as [|? ? ? ? (q' & Hk' & Hid & _ & _ & Hout) Hall']; subst.
    assert (q' = q) as -> by congruence. simpl. by rewrite Hout, (IH _ Hall'). }
  rewrite Eo. mstep. rewrite (bind_ok _ _ _ _ _ Eq), (bind_ok _ _ _ _ _ (engine_clock_run clock e)).
  unfold lift. generalize (Some (clock (ticks (scheduler_of e)))) as d. intros d. clear Eo Eq Hrows.
  assert (∃ answers, omap_all (λ q, let? m := compute_metrics q d None in
    Ok (mk_completion (decode (completion_token_ids q)) (completion_token_ids q) m)) qs = Ok answers ∧
    Forall2 (answer_ok (cfg e)) reqs answers) as (cs & Ec & Hc); [|exists cs; by rewrite Ec].
  revert reqs Hall. induction HF as [|k q ks qs Hk _ IH]; intros reqs Hall.
  { inversion Hall. by exists []. }
  inversion Hall as [|? r ? reqs' (q' & Hk' & Hid & Hst & Hstm & _) Hall']; subst.
  assert (q' = q) as -> by congruence. destruct (IH _ Hall') as (cs & Ec & Hc).
  destruct (compute_metrics_run q d None Hstm) as (m & Em & Hm & _).
  exists (mk_completion (decode (completion_token_ids q)) (completion_token_ids q) m :: cs).
  split; [|constructor; [by split|done]]. cbn [omap_all]. rewrite Em. simpl. by rewrite Ec.
Qed.
End generate.

(** ** The promises *)

Section promises.
Variable compute_hash : list Z → Z → Z.
Variable clock : nat → Z.
Hypothesis compute_hash_nonneg : ∀ toks p, 0 <= compute_hash toks p.
Variable torch : torch_dtypes.
Variable sha256_hexdigest : payload → string.
Variable encode : string → list Z.
Variable decode : list Z → string.
Variable limits : AdmissionLimits.
Variable env : runner.

#[local] Instance kv_contract : KVAllocator compute_hash (kv_inv compute_hash) :=
  block_manager_contract compute_hash compute_hash_nonneg.

#[local] Abbreviation generate := (generate compute_hash clock torch sha256_hexdigest encode decode
  limits env).
#[local] Existing Instance same_session_preorder.
#[local] Existing Instance has_capacity_dec.

(** Between steps. *)
Definition engine_idle : engine → Prop := engine_ok (kv_inv compute_hash) [].

(** No session, no request, and no block in use. *)
Record resting (e : engine) : Prop := {
  rs_idle : engine_idle e;
  rs_queue : queue e = [];
  rs_session : _active_session e = None;
}.

Lemma resting_free e : resting e →
  length (free_block_ids (hp_bm (sc_heap (scheduler_of e)))) =
  length (blocks (hp_bm (sc_heap (scheduler_of e)))).
Proof.
  intros [[Hs _] [Hw Hr]%app_nil _].
  apply (kv_all_free (compute_hash := compute_hash) _ (si_heap _ _ _ _ Hs)).
  intros k q Hq. apply (si_owner _ _ _ _ Hs k q Hq). rewrite Hw, Hr. apply not_elem_of_nil.
Qed.

(** The limits describe the pool ([_snapshot_admission_limits]). *)
Record limits_match (e : engine) : Prop := {
  lm_size : lim_block_size limits = Some (bsz (scheduler_of e));
  lm_pool : lim_kvcache_blocks limits = Some (pool (scheduler_of e));
}.

Lemma batch_admissible e ks e' prompts params reqs :
  queue e = [] → limits_match e → enqueued (kv_inv compute_hash) ks e e' →
  requests_of encode limits prompts params = Ok reqs → rows_for e' ks reqs →
  admissible (scheduler_of e').
Proof.
  intros [Hqw Hqr]%app_nil [Hls Hlp] [_ Hss Hw Hr _ _ _] Hreqs Hrows k q Hk Hkq.
  rewrite Hw, Hr, Hqw, Hqr, app_nil_r in Hk. apply list_elem_of_lookup in Hk as [i Hi].
  destruct (Forall2_lookup_l _ _ _ _ _ Hrows Hi) as ([toks p] & Hri & q' & Hq' & Hff).
  assert (q' = q) as -> by congruence. apply omap_all_ok in Hreqs.
  destruct (Forall2_lookup_r _ _ _ _ _ Hreqs Hri) as ([pr sp] & _ & Hacc).
  apply request_of_iff in Hacc as [(raw & _ & _ & Hok) _ _ _ _ Hfit].
  destruct Hff as [_ En Ep Epar _]. simpl in *. destruct Hss as [_ _ _ Hsz Hpl _]. split.
  - unfold num_completion_tokens. rewrite En, Ep, Epar. destruct Hok as (_ & ? & _). lia.
  - rewrite Ep, Epar, Hsz, Hpl. by apply Hfit.
Qed.

(** The admitted batch starts the loop. *)
Lemma batch_inv e ks e' prompts params reqs :
  queue e = [] → limits_match e → 0 < max_num_batched_tokens (cfg e) →
  enqueued (kv_inv compute_hash) ks e e' →
  requests_of encode limits prompts params = Ok reqs → rows_for e' ks reqs →
  loop_inv (kv_inv compute_hash) e' ∅ ks reqs.
Proof.
  intros Hq Hlim Hmax Hen Hreqs Hrows. pose proof Hq as [Hqw Hqr]%app_nil.
  assert (queue e' = ks) as Hqe.
  { by rewrite (en_waiting _ _ _ _ Hen), (en_running _ _ _ _ Hen), Hqw, Hqr, app_nil_r. }
  split.
  - apply Hen.
  - by eapply batch_admissible.
  - by rewrite (ss_config _ _ (en_session _ _ _ _ Hen)).
  - by rewrite Hqe.
  - apply Forall2_same_length_lookup_2; [by eapply Forall2_length|]. intros i k r Hi Hri.
    destruct (Forall2_lookup_lr _ _ _ _ _ _ Hrows Hi Hri) as (q & Hkq & Hff).
    apply fresh_serves in Hff as [Hsv Hc]. exists q. split; [done|]. split; [done|].
    rewrite decide_True; [by rewrite Hc|]. rewrite Hqe. by eapply list_elem_of_lookup_2.
Qed.

Lemma normalize_length prompts sampling_params params :
  _normalize_batch prompts sampling_params = Ok params → length params = length prompts.
Proof.
  unfold _normalize_batch. destruct sampling_params as [p|ps].
  - intros [= <-]. apply length_replicate.
  - intros [Hl [= <-]]%obind_unit_ok. apply oraise_if_ok in Hl.
    by apply negb_false_iff, Nat.eqb_eq in Hl.
Qed.

#[local] Abbreviation generate_body := (generate_body compute_hash clock torch sha256_hexdigest
  encode decode limits env).

(** The [try] block of a valid batch. *)
Lemma body_run e prompts params sub reqs :
  ordinary env → answers env (cfg e) → advancing clock →
  engine_idle e → queue e = [] → limits_match e → 0 < max_num_batched_tokens (cfg e) →
  length params = length prompts → has_capacity (length prompts) e →
  requests_of encode limits prompts params = Ok reqs →
  ∃ n ks cs e', (∀ fuel, (n <= fuel)%nat →
      generate_body fuel prompts params sub e = (Ok (ks, Ok cs), e')) ∧
    Forall2 (answer_ok decode (cfg e)) reqs cs ∧ serving (kv_inv compute_hash) ks e e'.
Proof.
  intros Hord Hans Hclock He Hq Hlim Hmax Hlen Hcap Hreqs.
  pose proof (admit_batch_run compute_hash clock (kv_inv compute_hash) encode limits prompts params
    sub e He Hlen) as Hb. rewrite decide_True, Hreqs in Hb by done.
  destruct Hb as (ks & e2 & Eb & Hen & Hrows). pose proof (en_session _ _ _ _ Hen) as Hss.
  pose proof (batch_inv e ks e2 prompts params reqs Hq Hlim Hmax Hen Hreqs Hrows) as Hinv.
  destruct (generate_loop_ends compute_hash clock (kv_inv compute_hash) torch sha256_hexdigest
    limits env Hord e2 ∅ ks reqs Hinv) as (n & outputs & e3 & El & Hinv3 & Hq3 & Hss3);
    [by rewrite (ss_config _ _ Hss)|done|].
  destruct (collect_run compute_hash clock (kv_inv compute_hash) decode e3 outputs ks reqs Hinv3 Hq3)
    as (cs & Ec & Hcs). rewrite (ss_config _ _ Hss3), (ss_config _ _ Hss) in Hcs.
  exists n, ks, cs, (tick e3). split; [|split; [done|]].
  - intros fuel Hf. unfold Engine.generate_body. by rewrite Eb, (bind_ok _ _ _ _ _ (El fuel Hf)), Ec.
  - exists []. split; [by apply tick_ok, Hinv3|]. split.
    + transitivity e2; [done|]. transitivity e3; [done|apply tick_same].
    + change (queue (tick e3)) with (queue e3). rewrite Hq3. apply list_subseteq_nil.
Qed.

(** After the lease was taken. *)
Definition leased (e : engine) : engine :=
  set_next_lease (S (next_lease e)) (set_session (Some (next_lease e, "generate"%string)) e).

Lemma tick_resting e : resting e → resting (tick e).
Proof. intros []. split; try done. by apply tick_ok. Qed.

Lemma leased_idle e : engine_idle e → engine_idle (leased e).
Proof. intros []. by split. Qed.

Lemma acquire_kind_run e kind : resting e →
  _acquire_session kind e =
    (Ok (next_lease e), set_next_lease (S (next_lease e)) (set_session (Some (next_lease e, kind)) e)).
Proof.
  intros [_ [Hw Hr]%app_nil Hs]. unfold _acquire_session. unfold bind at 1, get. rewrite Hs.
  unfold sched_is_finished. rewrite Hw, Hr. done.
Qed.

Lemma acquire_run e : resting e →
  _acquire_session "generate" e = (Ok (next_lease e), leased e).
Proof. apply acquire_kind_run. Qed.

(** From a body that ends, [generate] ends the same way. *)
Lemma generate_run e prompts sampling_params params n ks o e1 :
  resting e → _normalize_batch prompts sampling_params = Ok params →
  (∀ fuel, (n <= fuel)%nat →
     generate_body fuel prompts params (clock (ticks (scheduler_of e))) (leased (tick e)) =
     (Ok (ks, o), e1)) →
  serving (kv_inv compute_hash) ks (leased (tick e)) e1 →
  ∃ e', (∀ fuel, (n <= fuel)%nat → generate fuel prompts sampling_params e = (o, e')) ∧ resting e'.
Proof.
  intros Hrest Hnorm Hbody Hsrv.
  destruct (finally_run compute_hash (kv_inv compute_hash) _ (leased (tick e)) (leased (tick e))
    (next_lease e) "generate" ks o e1 (Hbody n (le_n n)) eq_refl Hsrv) as (e' & Ef & Hok & Hq & Hs).
  exists e'. split; [|by split]. intros fuel Hf. unfold Engine.generate. unfold lift. rewrite Hnorm.
  mstep. rewrite (bind_ok _ _ _ _ _ (engine_clock_run clock e)).
  rewrite (bind_ok _ _ _ _ _ (acquire_run _ (tick_resting _ Hrest))).
  rewrite <-Ef. unfold generate_finally. by rewrite !Hbody by lia.
Qed.

(** C3: [generate] answers.  On a resting engine whose limits describe its pool,
    with a runner that answers one vocabulary token per row and a clock that
    advances, a batch within the capacity whose requests pass the admission
    checks terminates: for all fuel beyond some bound [generate] returns one
    completion per prompt, in input order; each stops exactly at its first
    stopping token (EOS unless ignored, or the [max_tokens]-th), its text is
    the decoding of its tokens and its metrics add up; the engine rests again. *)
Theorem generate_total e prompts sampling_params params reqs :
  ordinary env → answers env (cfg e) → advancing clock →
  resting e → limits_match e → 0 < max_num_batched_tokens (cfg e) →
  _normalize_batch prompts sampling_params = Ok params →
  has_capacity (length prompts) e → requests_of encode limits prompts params = Ok reqs →
  ∃ n cs e', (∀ fuel, (n <= fuel)%nat → generate fuel prompts sampling_params e = (Ok cs, e')) ∧
    Forall2 (answer_ok decode (cfg e)) reqs cs ∧ resting e'.
Proof.
  intros Hord Hans Hclock Hrest Hlim Hmax Hnorm Hcap Hreqs.
  destruct (body_run (leased (tick e)) prompts params (clock (ticks (scheduler_of e))) reqs)
    as (n & ks & cs & e1 & Hbody & Hcs & Hsrv); try done.
  - by apply leased_idle, tick_resting.
  - by apply tick_resting in Hrest as [].
  - by destruct Hlim.
  - by eapply normalize_length.
  - destruct (generate_run e _ _ _ n ks (Ok cs) e1 Hrest Hnorm Hbody Hsrv) as (e' & E & Hr').
    by exists n, cs, e'.
Qed.

(** C4: [generate] cleans up.  On a resting engine with safe steps (ordinary or
    with verified speculation), whatever the runner answers (exceptions and
    malformed batches included) and whatever the requests are, [generate] returns or raises with the engine resting again: the session
    released, no request queued, and every block back in the pool. *)
Theorem generate_cleans_up e fuel prompts sampling_params :
  SafeSteps compute_hash clock (kv_inv compute_hash) torch sha256_hexdigest limits env →
  resting e →
  let e' := (generate fuel prompts sampling_params e).2 in
  resting e' ∧ length (free_block_ids (hp_bm (sc_heap (scheduler_of e')))) =
               length (blocks (hp_bm (sc_heap (scheduler_of e')))).
Proof.
  intros Hsafe Hrest e'. assert (resting e') as Hr; [|split; [done|by apply resting_free]].
  subst e'. destruct (_normalize_batch prompts sampling_params) as [params|ex] eqn:Hnorm.
  2: { unfold Engine.generate. unfold lift. by rewrite Hnorm. }
  assert (waiting (scheduler_of (leased (tick e))) = [] ∧
    running (scheduler_of (leased (tick e))) = []) as [Hqw Hqr] by (apply app_nil, Hrest).
  pose proof (admit_batch_run compute_hash clock (kv_inv compute_hash) encode limits prompts params
    (clock (ticks (scheduler_of e))) (leased (tick e))
    (leased_idle _ (rs_idle _ (tick_resting _ Hrest))) (normalize_length _ _ _ Hnorm)) as Hb.
  assert (∃ ks o e1, generate_body fuel prompts params (clock (ticks (scheduler_of e)))
    (leased (tick e)) = (Ok (ks, o), e1) ∧ serving (kv_inv compute_hash) ks (leased (tick e)) e1)
    as (ks & o & e1 & Hbody & Hsrv).
  { unfold Engine.generate_body.
    destruct (decide _), (requests_of encode limits prompts params) as [reqs|];
      [destruct Hb as (ks & e2 & -> & [He2 Hss Hw Hr _ _ _] & _)
      |destruct Hb as (ex & e2 & -> & He2 & Hss & Hw & Hr & _);
       exists [], (Raise ex), e2; split; [done|]; exists []; rewrite Hw, Hr, Hqw, Hqr; by split_and!..].
    assert (queue e2 ⊆ ks) as Hq2 by by rewrite Hw, Hr, Hqw, Hqr, app_nil_r.
    pose proof (generate_loop_serving compute_hash clock (kv_inv compute_hash) torch sha256_hexdigest
      limits env fuel ∅ ks _ e2 He2 Hss Hq2) as Hsrv. unfold bind.
    destruct (Engine.generate_loop _ _ _ _ _ _ _ _ _) as [[outputs|ex] e3]; [|by eexists _, _, _].
    pose proof (collect_serving clock (kv_inv compute_hash) decode outputs ks ks _ _ Hsrv) as Hcol.
    simpl in Hcol. destruct (collect _ _ _ _ _) as [o e4]. by eexists _, _, _. }
  destruct (finally_run compute_hash (kv_inv compute_hash) _ (leased (tick e)) (leased (tick e))
    (next_lease e) "generate" ks o e1 Hbody eq_refl Hsrv) as (e' & Ef & Hok & Hq & Hs).
  unfold Engine.generate. unfold lift. rewrite Hnorm. mstep.
  rewrite (bind_ok _ _ _ _ _ (engine_clock_run clock e)).
  rewrite (bind_ok _ _ _ _ _ (acquire_run _ (tick_resting _ Hrest))).
  change (next_lease (tick e)) with (next_lease e). rewrite Ef. by split.
Qed.


(** A batch is admitted as a whole or not at all: either every request is
    acceptable and there is room for all of them, and they are queued in input
    order under consecutive fresh ids, or [_admit_batch] raises with the queues
    and all older sequences as they were, the requests admitted before the
    failure being cancelled and their ids never reused. *)
Theorem admit_batch_atomic e prompts params sub :
  engine_idle e → length params = length prompts →
  let result := _admit_batch clock encode limits prompts params sub e in
  engine_idle result.2 ∧ same_session e result.2 ∧
  match result.1 with
  | Ok ks => ks = seq (next_seq_id e) (length prompts) ∧
      waiting (scheduler_of result.2) = waiting (scheduler_of e) ++ ks ∧
      running (scheduler_of result.2) = running (scheduler_of e) ∧
      ∃ reqs, requests_of encode limits prompts params = Ok reqs ∧ rows_for result.2 ks reqs
  | Raise _ =>
      (¬ has_capacity (length prompts) e ∨
       is_ok (requests_of encode limits prompts params) = false) ∧
      waiting (scheduler_of result.2) = waiting (scheduler_of e) ∧
      running (scheduler_of result.2) = running (scheduler_of e) ∧
      ∀ k, is_Some (stored e !! k) → stored result.2 !! k = stored e !! k
  end.
Proof.
  intros He Hlen result. subst result.
  pose proof (admit_batch_run compute_hash clock (kv_inv compute_hash) encode limits prompts params
    sub e He Hlen) as Hr.
  destruct (decide (has_capacity (length prompts) e)) as [Hc|Hc],
    (requests_of encode limits prompts params) as [reqs|ex] eqn:Ereq;
    [|destruct Hr as (x & e' & -> & ? & ? & ? & ? & ?); simpl; split_and!; auto..].
  destruct Hr as (ks & e' & -> & Hen & Hrows). simpl. split; [apply Hen|]. split; [apply Hen|].
  split_and!; [|apply Hen|apply Hen|by exists reqs].
  rewrite (en_ids _ _ _ _ Hen) at 1. f_equal. rewrite (Forall2_length _ _ _ Hrows).
  apply omap_all_ok, Forall2_length in Ereq. rewrite <-Ereq, length_zip_with. lia.
Qed.
End promises.
