(* ===== verification/Stream.v ===== *)
(** * Stream: one streaming session over the engine

    Models class StreamSession and [LLMEngine.stream] of
    src/nanovllm/engine/llm_engine.py: a session admits its requests under the
    exclusive lease, an iteration runs engine steps until an event is pending and
    delivers one event, and the session closes itself when every request is
    delivered, when an iteration fails, or on [close].  The iteration lock orders
    threads and does not appear; the weak-reference finalizer of an abandoned
    session is the operation [_finalize_abandoned]. *)
From S2P Require Import Prelude SamplingParams Sequence Heap BlockManager Reservation SpecMemory.
From S2P Require Import SpecRoutes SpecPlan SpecResult Scheduler SpecScheduler Metrics Engine.

(** ** Data *)

Record stream_session := mk_stream {
  st_lease : option nat;
  _pending : list StreamOutput;
  (** [_sequences]: the sequence object of an id *)
  _sequences : gmap nat nat;
  _remaining : gset nat;
  seq_ids : list nat;
  st_metrics : gmap nat metrics;
  _closed : bool;
  _finalizer : bool;
}.
Definition set_pending v st := mk_stream (st_lease st) v (_sequences st) (_remaining st) (seq_ids st)
  (st_metrics st) (_closed st) (_finalizer st).
Definition set_remaining v st := mk_stream (st_lease st) (_pending st) (_sequences st) v (seq_ids st)
  (st_metrics st) (_closed st) (_finalizer st).
Definition set_metrics v st := mk_stream (st_lease st) (_pending st) (_sequences st) (_remaining st)
  (seq_ids st) v (_closed st) (_finalizer st).

(** What [_close_locked] leaves of the session. *)
Definition closed_session st := mk_stream None [] ∅ ∅ (seq_ids st) (st_metrics st) true false.

(** The session and the engine it refers to. *)
Record world := mk_world { w_engine : engine; w_stream : stream_session }.
Definition put_engine e w := mk_world e (w_stream w).
Definition put_stream st w := mk_world (w_engine w) st.

Abbreviation MW := (M world).
Definition on_engine {A} (m : ME A) : MW A := zoom w_engine put_engine m.
Definition on_session (f : stream_session → stream_session) : MW unit :=
  modify (λ w, put_stream (f (w_stream w)) w).

Definition set_first_delivery_time v t := mk_timing (submission_time t) (engine_arrival_time t)
  (first_scheduled_time t) (first_token_time t) (finish_time t) v (delivery_time t) (token_times t).
Definition set_delivery_time v t := mk_timing (submission_time t) (engine_arrival_time t)
  (first_scheduled_time t) (first_token_time t) (finish_time t) (first_delivery_time t) v
  (token_times t).

(** Two clean-up statements, each tried; the first error is raised. *)
Definition both {S A B} (m : M S A) (n : M S B) : M S unit := λ s,
  let '(a, s1) := m s in
  let '(b, s2) := n s1 in
  (match a, b with
   | Raise e, _ => Raise e
   | Ok _, Raise e => Raise e
   | Ok _, Ok _ => Ok tt
   end, s2).

(** ** Closing *)

Definition _close_locked : MW unit :=
  let* w := get in
  let st := w_stream w in
  if _closed st then ret tt else
  on_session closed_session ;;;
  both (on_engine (_cancel_requests (seq_ids st)))
    (match st_lease st with
     | Some lease => on_engine (_release_session lease)
     | None => ret tt
     end).

(** The finalizer of a session collected while open. *)
Definition _finalize_abandoned (lease : nat) (ids : list nat) : ME unit :=
  both (_cancel_requests ids) (_release_session lease).

Section stream.
Context (compute_hash : list Z → Z → Z) (clock : nat → Z).
Context (torch : torch_dtypes) (sha256_hexdigest : payload → string).
Context (encode : string → list Z).
Context (limits : AdmissionLimits) (env : runner).

#[local] Abbreviation _step := (_step compute_hash clock torch sha256_hexdigest limits env).

(** ** Opening *)

(** [StreamSession.__init__]. *)
Definition StreamSession_init (prompts : list prompt)
    (sampling_params : option SamplingParams + list (option SamplingParams)) (submission : Z)
    : ME stream_session :=
  let* params := lift (_normalize_batch prompts sampling_params) in
  let* lease := _acquire_session "stream" in
  let* st := try_handler
    (let* ks := _admit_batch clock encode limits prompts params submission in
     let* qs := rows_of ks in
     let ids := seq_id <$> qs in
     ret (mk_stream (Some lease) [] (list_to_map (zip ids ks)) (list_to_set ids) ids ∅ false
            (negb (bool_decide (ids = [])))))
    (suppress (_cancel_requests []) ;;; suppress (_release_session lease)) in
  if bool_decide (seq_ids st = []) then
    λ e, let '(o, w) := _close_locked (mk_world e st) in
         (match o with Ok _ => Ok (w_stream w) | Raise x => Raise x end, w_engine w)
  else ret st.

(** [LLMEngine.stream]. *)
Definition stream (prompts : list prompt)
    (sampling_params : option SamplingParams + list (option SamplingParams)) : ME stream_session :=
  let* params := lift (_normalize_batch prompts sampling_params) in
  let* submission_time := engine_clock clock in
  StreamSession_init prompts (inr params) submission_time.

(** ** Iterating *)

(** The [while not self._pending] loop. *)
Fixpoint fill_pending (fuel : nat) : MW unit :=
  match fuel with
  | O => raise OutOfFuel
  | S fuel' =>
      let* w := get in
      let st := w_stream w in
      match _pending st with
      | _ :: _ => ret tt
      | [] =>
          if bool_decide (_remaining st = ∅) then _close_locked ;;; raise StopIteration else
          raise_if (engine_is_finished (w_engine w))
            (RuntimeError "stream scheduler finished before every owned request") ;;;
          let* o := on_engine _step in
          raise_if (existsb (λ ev, negb (bool_decide (so_seq_id ev ∈ _remaining st))) (out_events o))
            (RuntimeError "stream received events owned by another request session") ;;;
          on_session (λ st, set_pending (_pending st ++ out_events o) st) ;;;
          fill_pending fuel'
      end
  end.

(** The stamps and the metrics of one delivered event. *)
Definition stamp_event (event : StreamOutput) (k : nat) (delivered_at : Z) : MW unit :=
  let* q := on_engine (on_sched (seq_at k)) in
  (if bool_decide (first_delivery_time (times q) = None)
   then on_engine (on_sched (set_seq k (λ q,
          set_times (set_first_delivery_time (Some delivered_at) (times q)) q)))
   else ret tt) ;;;
  if so_finished event then
    raise_if (negb (is_finished q))
      (RuntimeError "finished stream event did not reference a finished sequence") ;;;
    on_engine (on_sched (set_seq k (λ q,
      set_times (set_delivery_time (Some delivered_at) (times q)) q))) ;;;
    let* q := on_engine (on_sched (seq_at k)) in
    let* m := lift (compute_metrics q (Some delivered_at) (first_delivery_time (times q))) in
    on_session (λ st, set_metrics (<[so_seq_id event := m]> (st_metrics st)) st) ;;;
    on_session (λ st, set_remaining (_remaining st ∖ {[so_seq_id event]}) st)
  else ret tt.

(** Delivering the first pending event. *)
Definition deliver : MW StreamOutput :=
  let* w := get in
  match _pending (w_stream w) with
  | [] => raise IndexError
  | event :: rest =>
      on_session (set_pending rest) ;;;
      let* k := lift (match _sequences (w_stream w) !! so_seq_id event with
                      | Some k => Ok k | None => Raise KeyError end) in
      let* delivered_at := on_engine (engine_clock clock) in
      stamp_event event k delivered_at ;;;
      let* w := get in
      (if bool_decide (_remaining (w_stream w) = ∅) && bool_decide (_pending (w_stream w) = [])
       then _close_locked else ret tt) ;;;
      ret event
  end.

Definition _next_locked (fuel : nat) : MW StreamOutput :=
  let* w := get in
  raise_if (_closed (w_stream w)) StopIteration ;;;
  try_handler (fill_pending fuel ;;; deliver) (suppress _close_locked).

(** Iterating to the end, as a [for] loop does; each [next] runs with [fuel]. *)
Fixpoint drain (n fuel : nat) : MW (list StreamOutput) :=
  match n with
  | O => raise OutOfFuel
  | S n' => λ w,
      match _next_locked fuel w with
      | (Ok event, w') => (let* l := drain n' fuel in ret (event :: l)) w'
      | (Raise StopIteration, w') => (Ok [], w')
      | (Raise e, w') => (Raise e, w')
      end
  end.
End stream.
