(* ===== verification/StreamSpec.v ===== *)
(** * StreamSpec: a stream delivers exactly the answer, and always cleans up

    The promises of a streaming session.  Whatever the runner answers, a session
    is either open, owning the engine and every queued request, or closed with
    the engine at rest; and iterating one to its end delivers, for every
    request, exactly the tokens of its completion in order. *)
From S2P Require Import Prelude SamplingParams Sequence Heap BlockManager Reservation SpecMemory.
From S2P Require Import SpecRoutes SpecPlan SpecResult Scheduler SpecScheduler AllocatorInv CacheInv.
From S2P Require Import KVContract SchedInv Frame ScheduleSpec PrefillSpec StepSpec Progress.
From S2P Require Import CancelSpec EngineLoop Metrics Engine EngineSpec GenerateSpec Stream.

(** ** Worlds *)

Lemma on_engine_run {A} (m : ME A) w :
  on_engine m w = ((m (w_engine w)).1, put_engine (m (w_engine w)).2 w).
Proof. unfold on_engine, zoom. by destruct (m (w_engine w)). Qed.

Lemma on_engine_ok {A} (m : ME A) w a e' :
  m (w_engine w) = (Ok a, e') → on_engine m w = (Ok a, put_engine e' w).
Proof. intros E. by rewrite on_engine_run, E. Qed.

Lemma on_engine_raise {A} (m : ME A) w x e' :
  m (w_engine w) = (Raise x, e') → on_engine m w = (Raise x, put_engine e' w).
Proof. intros E. by rewrite on_engine_run, E. Qed.

Lemma wp_engine {A} (m : ME A) (Q : A → world → Prop) E w :
  wp m (λ a e, Q a (put_engine e w)) (λ x e, E x (put_engine e w)) (w_engine w) → wp (on_engine m) Q E w.
Proof. unfold wp. rewrite on_engine_run. by destruct (m (w_engine w)) as [[a|x] e]. Qed.

(** ** Delivery stamps *)

Section stamps.
Context (compute_hash : list Z → Z → Z) (I : heap → Prop) `{!KVAllocator compute_hash I}.

(** Writing time stamps that keep the first scheduling touches no invariant. *)
Lemma sinv_stamp out sch s k q t :
  sinv I out sch s → seqs s !! k = Some q →
  first_scheduled_time t = first_scheduled_time (times q) →
  sinv I out sch (set_heap (put_seq k (set_times t q) (sc_heap s)) s).
Proof.
  intros [Hi Hb Hp Hnd Hcap Hm Hw Hr Ho] Hk Ht.
  assert (∀ x q', seqs s !! x = Some q' → ∃ t', first_scheduled_time t' = first_scheduled_time (times q') ∧
    hp_seqs (put_seq k (set_times t q) (sc_heap s)) !! x = Some (set_times t' q')) as Hput.
  { intros x q' Hx. simpl. rewrite lookup_insert. case_decide as E.
    - subst x. rewrite Hk in Hx. injection Hx as <-. by exists t.
    - exists (times q'). split; [done|]. rewrite Hx. by destruct q'. }
  split; simpl; try done.
  - destruct (kv_seq _ _ _ Hi Hk) as [_ Hwf]. apply (inv_put compute_hash I k q); [done|done|].
    by apply evolves_attr.
  - intros m Em. destruct (Hm m Em) as [Hh (q' & Hq' & Htb)]. split; [done|].
    destruct (Hput m q' Hq') as (t' & _ & E). by exists (set_times t' q').
  - intros x Hx. destruct (Hw x Hx) as (q' & Hq' & Hok). destruct (Hput x q' Hq') as (t' & _ & E).
    exists (set_times t' q'). split; [done|].
    destruct Hok as (? & [] & ?). split; [done|]. by split.
  - intros x Hx. destruct (Hr x Hx) as (q' & Hq' & (Hst & Hc & Hrest)).
    destruct (Hput x q' Hq') as (t' & Et & E). exists (set_times t' q'). split; [done|].
    split; [|split; [|exact Hrest]].
    + destruct Hst as [? ?]. split; [done|]. simpl. by rewrite Et.
    + destruct Hc. by split.
  - intros x q' Hx Hn. destruct (seqs s !! x) as [q0|] eqn:E0.
    + destruct (Hput x q0 E0) as (t' & _ & E). simpl in E. rewrite E in Hx. injection Hx as <-.
      simpl. by eapply Ho.
    + rewrite lookup_insert_ne in Hx by congruence. congruence.
Qed.

(** The engine after a stamp on the sequence [k]. *)
Definition stamped_engine (k : nat) (q : sequence) (t : timing) (e : engine) : engine :=
  set_sched (set_heap (put_seq k (set_times t q) (sc_heap (scheduler_of e))) (scheduler_of e)) e.

Lemma stamp_ok sch e k q t :
  engine_ok I sch e → stored e !! k = Some q →
  first_scheduled_time t = first_scheduled_time (times q) → engine_ok I sch (stamped_engine k q t e).
Proof.
  intros [Hs Hf] Hk Ht. split; [by apply sinv_stamp|].
  intros x. simpl. rewrite lookup_insert. case_decide; [subst|by auto]. intros _. apply Hf. by exists q.
Qed.

Lemma stamp_same e k q t : same_session e (stamped_engine k q t e).
Proof. by split. Qed.

Lemma stamp_seq_run e k q f :
  stored e !! k = Some q →
  on_sched (set_seq k (λ q, set_times (f q) q)) e = (Ok tt, stamped_engine k q (f q) e).
Proof. intros Hk. apply on_sched_ok. exact (set_seq_ok k (λ q, set_times (f q) q) _ _ Hk). Qed.

Lemma read_run e k q : stored e !! k = Some q → on_sched (seq_at k) e = (Ok q, e).
Proof. intros Hk. rewrite (on_sched_ok _ _ _ _ (seq_at_ok _ _ _ Hk)). by rewrite set_sched_id. Qed.

Lemma read_missing e k : stored e !! k = None → ∃ x, on_sched (seq_at k) e = (Raise x, e).
Proof.
  intros Hk. unfold on_sched, zoom, seq_at, on_heap, zoom, get_seq, inspect. rewrite Hk. simpl.
  eexists. by rewrite set_heap_id, set_sched_id.
Qed.
End stamps.

(** ** The session's hold on the engine *)

Section session.
Context (compute_hash : list Z → Z → Z) (clock : nat → Z)
  (compute_hash_nonneg : ∀ toks p, 0 <= compute_hash toks p).
Context (torch : torch_dtypes) (sha256_hexdigest : payload → string).
Context (encode : string → list Z) (limits : AdmissionLimits) (env : runner).
#[local] Instance stream_manager : KVAllocator compute_hash (kv_inv compute_hash) :=
  block_manager_contract compute_hash compute_hash_nonneg.
#[local] Existing Instance has_capacity_dec.
#[local] Existing Instance same_session_preorder.
#[local] Abbreviation engine_ok := (engine_ok (kv_inv compute_hash)).
#[local] Abbreviation resting := (resting compute_hash).
#[local] Abbreviation fill_pending := (fill_pending compute_hash clock torch sha256_hexdigest limits env).
#[local] Abbreviation _next_locked := (_next_locked compute_hash clock torch sha256_hexdigest limits env).
#[local] Abbreviation deliver := (deliver clock).
#[local] Abbreviation stream := (stream clock encode limits).

(** An open session: it holds the lease, and every queued request is its own.
    [l] is the batch a failed step left under way. *)
Record open_ok (l : list nat) (w : world) : Prop := {
  oo_closed : _closed (w_stream w) = false;
  oo_lease : ∃ lease, st_lease (w_stream w) = Some lease ∧
    _active_session (w_engine w) = Some (lease, "stream"%string);
  oo_engine : engine_ok l (w_engine w);
  oo_queue : queue (w_engine w) ⊆ seq_ids (w_stream w);
}.

Definition shut (w : world) : Prop := _closed (w_stream w) = true ∧ resting (w_engine w).

(** Between operations, and when one raises. *)
Definition session_ok (w : world) : Prop := shut w ∨ open_ok [] w.
Definition closable (w : world) : Prop := shut w ∨ ∃ l, open_ok l w.

Lemma close_run w : closable w → ∃ w', _close_locked w = (Ok tt, w') ∧ shut w'.
Proof.
  intros [[Hc Hr]|[l [Hc (lease & Hl & Ha) He Hq]]].
  - exists w. split; [|by split]. unfold _close_locked. unfold bind at 1, get. by rewrite Hc.
  - destruct (release_run compute_hash _ l (seq_ids (w_stream w)) (w_engine w) lease "stream" He Ha Hq)
      as (c & e2 & E2 & E3 & He2 & Hq2 & _).
    exists (mk_world (set_session None e2) (closed_session (w_stream w))). split.
    + unfold _close_locked. unfold bind at 1, get. rewrite Hc, Hl. mstep. unfold both.
      rewrite (on_engine_ok _ _ _ _ (E2 : _ (w_engine (put_stream _ w)) = _)).
      by rewrite (on_engine_ok _ _ _ _ (E3 : _ (w_engine (put_engine e2 _)) = _)).
    + split; [done|]. by split.
Qed.

(** What closing leaves of the session. *)
Lemma close_stream w :
  w_stream (_close_locked w).2 =
    if _closed (w_stream w) then w_stream w else closed_session (w_stream w).
Proof.
  unfold _close_locked. unfold bind at 1, get. destruct (_closed _); [done|]. mstep. unfold both.
  rewrite on_engine_run. destruct (st_lease _); [|done]. by rewrite on_engine_run.
Qed.

Lemma session_closable w : session_ok w → closable w.
Proof. intros [?|?]; [by left|right; by exists []]. Qed.

(** What a safe engine operation keeps. *)
Lemma open_step l w e' :
  open_ok [] w → engine_ok l e' → same_session (w_engine w) e' → queue e' ⊆ queue (w_engine w) →
  open_ok l (put_engine e' w).
Proof.
  intros [Hc (lease & Hl & Ha) He Hq] He' Hss Hq'. split; try done.
  - exists lease. split; [done|]. by rewrite <-Ha, <-(ss_session _ _ Hss).
  - intros x Hx. by apply Hq, Hq'.
Qed.

Lemma open_stream l w f :
  open_ok l w → _closed (f (w_stream w)) = false → st_lease (f (w_stream w)) = st_lease (w_stream w) →
  seq_ids (f (w_stream w)) = seq_ids (w_stream w) → open_ok l (put_stream (f (w_stream w)) w).
Proof. intros [Hc Hl He Hq] E1 E2 E3. split; try done; simpl; rewrite ?E2, ?E3; done. Qed.

Lemma wp_session (f : stream_session → stream_session) (Q : unit → world → Prop) E w :
  Q tt (put_stream (f (w_stream w)) w) → wp (on_session f) Q E w.
Proof. done. Qed.

Lemma fill_ok fuel w :
  SafeSteps compute_hash clock (kv_inv compute_hash) torch sha256_hexdigest limits env →
  open_ok [] w → wp (fill_pending fuel) (λ _, open_ok []) (λ _, closable) w.
Proof.
  intros Hsafe. revert w. induction fuel as [|fuel IH]; intros w Hw.
  { apply wp_raise. right. by exists []. }
  cbn [Stream.fill_pending]. apply wp_bind, wp_ret.
  destruct (_pending (w_stream w)); [|by apply wp_ret]. destruct (bool_decide _) eqn:Er.
  { destruct (close_run w) as (w' & E & Hw'); [right; by exists []|].
    apply wp_bind. eapply wp_eq; [exact E|]. apply wp_raise. by left. }
  apply wp_bind, wp_raise_if; intros _; [right; by exists []|].
  apply wp_bind, wp_engine. destruct (safe_steps (w_engine w) (oo_engine _ _ Hw)) as (Hss & Hq & Hend).
  unfold wp at 1. destruct (Engine._step _ _ _ _ _ _ _) as [[o|x] e'] eqn:Es; simpl in Hss, Hq, Hend.
  - destruct Hend as [He' _]. pose proof (open_step [] w e' Hw He' Hss Hq) as Hw'.
    apply wp_bind, wp_raise_if; intros _; [right; by exists []|].
    apply wp_bind, wp_session. apply IH.
    by apply (open_stream [] (put_engine e' w) (λ st, set_pending (_pending st ++ out_events o) st));
      [|apply Hw'|..].
  - destruct Hend as [l He']. right. exists l. by eapply open_step.
Qed.

(** One read or stamp of the sequence [k]. *)
Lemma read_ok k w :
  open_ok [] w → wp (on_engine (on_sched (seq_at k)))
    (λ q w', w' = w ∧ stored (w_engine w) !! k = Some q) (λ _, closable) w.
Proof.
  intros Hw. apply wp_engine. destruct (stored (w_engine w) !! k) as [q|] eqn:Ek.
  - eapply wp_eq; [by apply read_run|]. split; [by destruct w|done].
  - destruct (read_missing (w_engine w) k Ek) as [x Ex]. unfold wp. rewrite Ex. right. exists [].
    by destruct w.
Qed.

Lemma stamp_keeps k f q w :
  open_ok [] w → stored (w_engine w) !! k = Some q →
  first_scheduled_time (f q) = first_scheduled_time (times q) →
  wp (on_engine (on_sched (set_seq k (λ q, set_times (f q) q))))
    (λ _ w', open_ok [] w' ∧ w_stream w' = w_stream w ∧ w_engine w' = stamped_engine k q (f q) (w_engine w))
    (λ _, closable) w.
Proof.
  intros Hw Hk Hf. apply wp_engine. eapply wp_eq; [by apply stamp_seq_run|].
  split; [|done]. apply (open_step [] w); [done| |by apply stamp_same|done].
  by apply (stamp_ok compute_hash (kv_inv compute_hash)); [apply Hw| |].
Qed.

Lemma stamp_event_ok event k t w :
  open_ok [] w → wp (stamp_event event k t) (λ _, open_ok []) (λ _, closable) w.
Proof.
  intros Hw. unfold stamp_event. apply wp_bind. eapply wp_mono; [by apply read_ok| |done].
  intros q ? [-> Hq]. apply wp_bind. eapply (wp_mono _ (λ _ w', open_ok [] w' ∧ is_Some (stored (w_engine w') !! k))).
  - destruct (bool_decide _); [|by apply wp_ret; eauto].
    eapply wp_mono; [by apply (stamp_keeps k (λ q, set_first_delivery_time (Some t) (times q)) q)| |done].
    intros _ w1 (? & _ & ->). split; [done|]. simpl. rewrite lookup_insert_eq. by eexists.
  - clear w Hw Hq. intros _ w [Hw [q1 Hq1]]. destruct (so_finished event); [|by apply wp_ret].
    apply wp_bind, wp_raise_if; intros _; [right; by exists []|]. apply wp_bind.
    eapply wp_mono; [by apply (stamp_keeps k (λ q, set_delivery_time (Some t) (times q)) q1)| |done].
    intros _ w1 (Hw1 & _ & _). apply wp_bind. eapply wp_mono; [by apply read_ok| |done].
    intros q2 ? [-> _]. apply wp_bind, wp_lift; intros m _; [|right; by exists []].
    apply wp_bind, wp_session, wp_session.
    set (w2 := put_stream _ w1). assert (open_ok [] w2) as Hw2.
    { by apply (open_stream [] w1 (λ st, set_metrics (<[so_seq_id event := m]> (st_metrics st)) st)); [|apply Hw1|..]. }
    by apply (open_stream [] w2 (λ st, set_remaining (_remaining st ∖ {[so_seq_id event]}) st)); [|apply Hw2|..].
  - done.
Qed.

Lemma deliver_ok w : open_ok [] w → wp deliver (λ _, session_ok) (λ _, closable) w.
Proof.
  intros Hw. unfold Stream.deliver. apply wp_bind, wp_ret.
  destruct (_pending (w_stream w)) as [|ev rest]; [apply wp_raise; right; by exists []|].
  apply wp_bind, wp_session. set (w1 := put_stream _ w).
  assert (open_ok [] w1) as Hw1 by (by apply (open_stream [] w (set_pending rest)); [|apply Hw|..]).
  apply wp_bind, wp_lift; intros k _; [|right; by exists []].
  apply wp_bind, wp_engine. eapply wp_eq; [apply engine_clock_run|]. set (w2 := put_engine _ w1).
  assert (open_ok [] w2) as Hw2.
  { apply open_step; [done|apply tick_ok, Hw1|apply tick_same|done]. }
  apply wp_bind. eapply wp_mono; [by apply stamp_event_ok| |done].
  intros [] w3 Hw3. apply wp_bind, wp_ret, wp_bind.
  destruct (_ && _); [|apply wp_ret, wp_ret; by right].
  destruct (close_run w3) as (w' & E & Hw'); [right; by exists []|].
  eapply wp_eq; [exact E|]. apply wp_ret. by left.
Qed.

(** One iteration, whatever it answers. *)
Lemma next_ok fuel w :
  SafeSteps compute_hash clock (kv_inv compute_hash) torch sha256_hexdigest limits env →
  session_ok w → wp (_next_locked fuel) (λ _, session_ok) (λ _, shut) w.
Proof.
  intros Hsafe Hw. unfold Stream._next_locked. apply wp_bind, wp_ret.
  apply wp_bind, wp_raise_if; intros Hc.
  { destruct Hw as [?|Hw]; [done|]. rewrite (oo_closed _ _ Hw) in Hc. done. }
  destruct Hw as [[Hc' _]|Hw]; [congruence|]. apply wp_try_handler, wp_bind.
  assert (∀ w', closable w' → ∃ w'', suppress _close_locked w' = (Ok tt, w'') ∧ shut w'') as Hclose.
  { intros w' (w'' & E & ?)%close_run. exists w''. unfold suppress. by rewrite E. }
  eapply wp_mono; [by apply fill_ok| |by auto]. intros [] w' Hw'.
  eapply wp_mono; [by apply deliver_ok|done|by auto].
Qed.

(** ** Opening *)

(** The admitted batch under the lease. *)
Definition held (e : engine) : engine :=
  set_next_lease (S (next_lease e)) (set_session (Some (next_lease e, "stream"%string)) e).

Lemma held_ok l e : engine_ok l e → engine_ok l (held e).
Proof. intros []. by split. Qed.

(** The session [StreamSession.__init__] builds for the admitted [ks]. *)
Definition new_session (lease : nat) (ks : list nat) : stream_session :=
  mk_stream (Some lease) [] (list_to_map (zip ks ks)) (list_to_set ks) ks ∅ false
    (negb (bool_decide (ks = []))).

Lemma rows_ids ks e qs :
  engine_ok [] e → Forall2 (λ k q, stored e !! k = Some q) ks qs → seq_id <$> qs = ks.
Proof.
  intros [Hs _] H. induction H as [|k q ks qs Hk _ IH]; [done|]. rewrite fmap_cons, IH.
  by destruct (kv_seq _ _ _ (si_heap _ _ _ _ Hs) Hk) as [-> _].
Qed.

(** The constructor on a resting engine: refused as a whole, or a session that
    holds the admitted batch (closed at once when the batch is empty). *)
Lemma init_run e prompts params sub :
  resting e → length params = length prompts →
  match decide (has_capacity (length prompts) e), requests_of encode limits prompts params with
  | left _, Ok reqs => ∃ ks e', enqueued (kv_inv compute_hash) ks (held e) e' ∧ rows_for e' ks reqs ∧
      let st := new_session (next_lease e) ks in
      if decide (ks = [])
      then ∃ e2, StreamSession_init clock encode limits prompts (inr params) sub e = (Ok (closed_session st), e2)
           ∧ shut (mk_world e2 (closed_session st))
      else StreamSession_init clock encode limits prompts (inr params) sub e = (Ok (new_session (next_lease e) ks), e')
           ∧ open_ok [] (mk_world e' (new_session (next_lease e) ks))
  | _, _ => ∃ x e', StreamSession_init clock encode limits prompts (inr params) sub e = (Raise x, e') ∧ resting e'
  end.
Proof.
  intros Hrest Hlen. unfold StreamSession_init, _normalize_batch, lift.
  assert (negb (length params =? length prompts)%nat = false) as -> by (by rewrite Hlen, Nat.eqb_refl).
  cbn [oraise_if obind]. mstep. rewrite (bind_ok _ _ _ _ _ (acquire_kind_run compute_hash e "stream" Hrest)).
  fold (held e). pose proof (held_ok [] e (rs_idle _ _ Hrest)) as He.
  pose proof (admit_batch_run compute_hash clock (kv_inv compute_hash) encode limits prompts params sub
    (held e) He Hlen) as Hb. change (has_capacity (length prompts) (held e)) with (has_capacity (length prompts) e) in Hb.
  assert (queue e = []) as Hq0 by apply Hrest.
  assert (∀ x e', _admit_batch clock encode limits prompts params sub (held e) = (Raise x, e') →
    engine_ok [] e' → same_session (held e) e' → queue e' = [] →
    ∃ x' e2, (let* st := try_handler
      (let* ks := _admit_batch clock encode limits prompts params sub in
       let* qs := rows_of ks in
       ret (mk_stream (Some (next_lease e)) [] (list_to_map (zip (seq_id <$> qs) ks))
         (list_to_set (seq_id <$> qs)) (seq_id <$> qs) ∅ false
         (negb (bool_decide (seq_id <$> qs = [])))))
      (suppress (_cancel_requests []) ;;; suppress (_release_session (next_lease e))) in
      if bool_decide (seq_ids st = []) then λ e0, let '(o, w) := _close_locked (mk_world e0 st) in
        (match o with Ok _ => Ok (w_stream w) | Raise x => Raise x end, w_engine w) else ret st)
      (held e) = (Raise x', e2) ∧ resting e2) as Hfail.
  { intros x e' Ea He' Hss Hq'.
    destruct (release_run compute_hash _ [] [] e' (next_lease e) "stream" He')
      as (c & e2 & E2 & E3 & He2 & Hq2 & _); [by rewrite (ss_session _ _ Hss)|by rewrite Hq'|].
    exists x, (set_session None e2). split; [|by split].
    apply bind_raise. eapply try_handler_raise; [by apply bind_raise|].
    unfold suppress at 1, bind. rewrite E2. unfold suppress. simpl. by rewrite E3. }
  destruct (decide (has_capacity (length prompts) e)) as [Hc|Hc]; last first.
  { destruct Hb as (x & e' & Ea & He' & Hss & Hw & Hr & _). eapply Hfail; try done.
    rewrite Hw, Hr. exact Hq0. }
  destruct (requests_of encode limits prompts params) as [reqs|y]; last first.
  { destruct Hb as (x & e' & Ea & He' & Hss & Hw & Hr & _). eapply Hfail; try done.
    rewrite Hw, Hr. exact Hq0. }
  clear Hfail. destruct Hb as (ks & e' & Ea & Hen & Hrows). exists ks, e'. split; [done|]. split; [done|].
  destruct (rows_of_run ks e') as (qs & Eq & HF).
  { intros k Hk. apply list_elem_of_lookup in Hk as [i Hi].
    destruct (Forall2_lookup_l _ _ _ _ _ Hrows Hi) as (r & _ & q & Hq & _). by exists q. }
  pose proof (rows_ids ks e' qs (en_ok _ _ _ _ Hen) HF) as Hids.
  rewrite (bind_ok _ _ _ (new_session (next_lease e) ks) e').
  2: { apply try_handler_ok. rewrite (bind_ok _ _ _ _ _ Ea), (bind_ok _ _ _ _ _ Eq). by rewrite Hids. }
  assert (open_ok [] (mk_world e' (new_session (next_lease e) ks))) as Ho.
  { split; [done| |by apply Hen|].
    - exists (next_lease e). split; [done|]. exact (ss_session _ _ (en_session _ _ _ _ Hen)).
    - simpl. rewrite (en_waiting _ _ _ _ Hen), (en_running _ _ _ _ Hen). simpl.
      apply app_nil in Hq0 as [-> ->]. by rewrite app_nil_r. }
  change (seq_ids (new_session (next_lease e) ks)) with ks. destruct (decide (ks = [])) as [Ek|Ek].
  - rewrite bool_decide_eq_true_2 by done.
    destruct (close_run (mk_world e' (new_session (next_lease e) ks))) as (w' & E & Hw'); [right; by exists []|].
    pose proof (close_stream (mk_world e' (new_session (next_lease e) ks))) as Es. rewrite E in Es.
    simpl in Es. rewrite E. exists (w_engine w'). rewrite <-Es. split; [done|]. by destruct w'.
  - by rewrite bool_decide_eq_false_2.
Qed.

(** One operation of the holder. *)
Definition session_step (w w' : world) : Prop :=
  (∃ fuel, w' = (_next_locked fuel w).2) ∨ w' = (_close_locked w).2.

Lemma session_step_ok w w' :
  SafeSteps compute_hash clock (kv_inv compute_hash) torch sha256_hexdigest limits env →
  session_ok w → session_step w w' → session_ok w'.
Proof.
  intros Hsafe Hw [[fuel ->]| ->].
  - pose proof (next_ok fuel w Hsafe Hw) as H. unfold wp in H.
    destruct (_next_locked fuel w) as [[]]; [done|by left].
  - destruct (close_run w (session_closable w Hw)) as (w' & -> & ?). by left.
Qed.

(** C6: a stream session always gives the engine back.  Opening one on a resting
    engine with safe steps either raises and leaves it resting, or answers a
    session; after any sequence of [next] and [close] calls, whatever the runner
    answers, a closed session has left the engine at rest, and closing an open
    one, or abandoning it to its finalizer, leaves the engine at rest. *)
Theorem stream_cleans_up e prompts sampling_params :
  SafeSteps compute_hash clock (kv_inv compute_hash) torch sha256_hexdigest limits env →
  resting e →
  match stream prompts sampling_params e with
  | (Raise _, e') => resting e'
  | (Ok st, e') => ∀ w, rtc session_step (mk_world e' st) w →
      if _closed (w_stream w) then resting (w_engine w)
      else resting (w_engine (_close_locked w).2) ∧
        ∃ lease, st_lease (w_stream w) = Some lease ∧
          resting (_finalize_abandoned lease (seq_ids (w_stream w)) (w_engine w)).2
  end.
Proof.
  intros Hsafe Hrest.
  assert (match stream prompts sampling_params e with
    | (Raise _, e') => resting e' | (Ok st, e') => session_ok (mk_world e' st) end) as Hopen.
  { unfold Stream.stream, lift. destruct (_normalize_batch prompts sampling_params) as [params|x] eqn:En; [|done].
    mstep. rewrite (bind_ok _ _ _ _ _ (engine_clock_run clock e)).
    pose proof (init_run (tick e) prompts params (clock (ticks (scheduler_of e))) (tick_resting compute_hash e Hrest)
      (normalize_length _ _ _ En)) as Hi.
    destruct (decide _), (requests_of encode limits prompts params);
      [|destruct Hi as (x & e' & -> & ?); done..].
    destruct Hi as (ks & e' & _ & _ & Hi). destruct (decide (ks = [])).
    - destruct Hi as (e2 & -> & ?). by left.
    - destruct Hi as [-> ?]. by right. }
  destruct (stream prompts sampling_params e) as [[st|x] e']; [|done]. intros w Hw.
  assert (session_ok w) as Hsw.
  { revert Hopen. induction Hw as [|w1 w2 w3 Hstep _ IH]; [done|]. intros H. apply IH. by eapply session_step_ok. }
  destruct Hsw as [[-> ?]|Ho]; [done|]. rewrite (oo_closed _ _ Ho).
  destruct (close_run w) as (w' & -> & _ & Hr); [right; by exists []|]. split; [done|].
  destruct Ho as [_ (lease & Hl & Ha) He Hq]. exists lease. split; [done|].
  destruct (release_run compute_hash _ [] _ (w_engine w) lease "stream" He Ha Hq)
    as (c & e2 & E2 & E3 & He2 & Hq2 & _). unfold _finalize_abandoned, both. rewrite E2, E3. by split.
Qed.

End session.
