(* ===== verification/StreamLive.v ===== *)
(** * StreamLive: a stream delivers every answer, token by token

    The liveness of a streaming session.  On the ordinary path, with a runner
    that answers, iterating a session to its end terminates and delivers for
    every request its completion in order, one event per token, the last and
    only the last marked finished; the session then has its metrics, is closed,
    and the engine rests. *)
From S2P Require Import Prelude SamplingParams Sequence Heap BlockManager Reservation SpecMemory.
From S2P Require Import SpecRoutes SpecPlan SpecResult Scheduler SpecScheduler AllocatorInv CacheInv.
From S2P Require Import KVContract SchedInv Frame ScheduleSpec PrefillSpec StepSpec Progress.
From S2P Require Import CancelSpec EngineLoop Metrics Engine EngineSpec GenerateSpec Stream StreamSpec.

(** ** The events of a request *)

(** The events of request [k] for the tokens [l]; [fin] marks the last. *)
Fixpoint events_for (k : nat) (fin : bool) (l : list Z) : list StreamOutput :=
  match l with
  | [] => []
  | t :: l' => mk_StreamOutput k t (fin && bool_decide (l' = [])) :: events_for k fin l'
  end.

Lemma events_snoc k fin l t :
  events_for k fin (l ++ [t]) = events_for k false l ++ [mk_StreamOutput k t fin].
Proof.
  induction l as [|x l IH]; simpl; [by rewrite andb_true_r|]. rewrite IH. do 2 f_equal.
  by rewrite bool_decide_eq_false_2, andb_false_r by (by destruct l).
Qed.

(** Only the last event is final. *)
Lemma events_final k fin l a ev b :
  events_for k fin l = a ++ ev :: b → so_finished ev = true → fin = true ∧ b = [].
Proof.
  revert a. induction l as [|t l IH]; intros a; simpl; [by destruct a|].
  destruct a as [|x a]; intros [= <- E] Hf; [|by eapply IH].
  simpl in Hf. apply andb_true_iff in Hf as [-> Hl]. apply bool_decide_eq_true in Hl. by subst l b.
Qed.

(** The events of [k] in a delivery. *)
Definition of_request (k : nat) (l : list StreamOutput) : list StreamOutput :=
  filter (λ ev, so_seq_id ev = k) l.

Lemma of_request_app k a b : of_request k (a ++ b) = of_request k a ++ of_request k b.
Proof. apply filter_app. Qed.

Lemma of_request_none k l : (∀ ev, ev ∈ l → so_seq_id ev ≠ k) → of_request k l = [].
Proof.
  intros H. destruct (of_request k l) as [|ev l'] eqn:E; [done|].
  assert (ev ∈ of_request k l) as [Hk Hin]%list_elem_of_filter by (rewrite E; set_solver).
  by destruct (H ev Hin).
Qed.

(** The events of a batch, request by request. *)
Lemma batch_events s l toks k q t :
  NoDup l → (∀ x qx, seqs s !! x = Some qx → seq_id qx = x) →
  (k, t) ∈ zip l toks → seqs s !! k = Some q →
  of_request k (omap (row_event_at s) (zip l toks)) = option_list (row_event (sc_config s) q t).
Proof.
  intros Hnd Hid Hz Hq. revert toks Hz. induction Hnd as [|x l Hx Hnd IH]; intros toks Hz.
  { by apply elem_of_nil in Hz. }
  destruct toks as [|t' toks]; [by apply elem_of_nil in Hz|]. cbn [zip zip_with] in *.
  assert (∀ y z, (y, z) ∈ zip l toks → y ∈ l) as Hin.
  { intros y z [i [Hi _]%lookup_zip_Some]%list_elem_of_lookup. by eapply list_elem_of_lookup_2. }
  assert (∀ y, y ∉ l → of_request y (omap (row_event_at s) (zip l toks)) = []) as Hnone.
  { intros y Hy. apply of_request_none. intros ev (p & Hp & He)%list_elem_of_omap.
    destruct p as [y' z]. unfold row_event_at in He. simpl in He. destruct (seqs s !! y') as [qy|] eqn:Ey; [|done].
    unfold row_event in He. destruct (_ <? _); [done|]. injection He as <-. simpl.
    rewrite (Hid _ _ Ey). intros ->. by apply Hy, (Hin _ z). }
  assert (omap (row_event_at s) ((x, t') :: zip l toks) =
    option_list (row_event_at s (x, t')) ++ omap (row_event_at s) (zip l toks)) as ->.
  { cbn. by destruct (row_event_at s (x, t')). }
  rewrite of_request_app. apply elem_of_cons in Hz as [[= -> ->]|Hz].
  - rewrite Hnone, app_nil_r by done. unfold row_event_at. simpl. rewrite Hq. unfold row_event.
    destruct (_ <? _); [done|]. simpl. unfold of_request. rewrite filter_cons_True; [done|].
    by apply Hid.
  - rewrite (IH _ Hz). assert (x ≠ k) as Hne by (intros ->; by apply Hx, (Hin _ t)).
    unfold row_event_at at 1. simpl. destruct (seqs s !! x) as [qx|] eqn:Ex; [|done].
    unfold row_event at 1. destruct (_ <? _); [done|]. simpl. unfold of_request at 1.
    rewrite filter_cons_False; [done|]. simpl. rewrite (Hid _ _ Ex). done.
Qed.

(** ** One engine step *)

Section live.
Context (compute_hash : list Z → Z → Z) (clock : nat → Z)
  (compute_hash_nonneg : ∀ toks p, 0 <= compute_hash toks p).
Context (torch : torch_dtypes) (sha256_hexdigest : payload → string).
Context (encode : string → list Z) (limits : AdmissionLimits) (env : runner).
Hypothesis Hord : ordinary env.
#[local] Instance live_manager : KVAllocator compute_hash (kv_inv compute_hash) :=
  block_manager_contract compute_hash compute_hash_nonneg.
#[local] Existing Instance same_session_preorder.
#[local] Abbreviation engine_ok := (engine_ok (kv_inv compute_hash)).
#[local] Abbreviation resting := (resting compute_hash).
#[local] Abbreviation loop_inv := (loop_inv (kv_inv compute_hash)).
#[local] Abbreviation step_done := (step_done compute_hash clock env).
#[local] Abbreviation fill_pending := (fill_pending compute_hash clock torch sha256_hexdigest limits env).
#[local] Abbreviation _next_locked := (_next_locked compute_hash clock torch sha256_hexdigest limits env).
#[local] Abbreviation drain := (drain compute_hash clock torch sha256_hexdigest limits env).
#[local] Abbreviation stream := (stream clock encode limits).

(** The batch of a step, and its events. *)
Lemma step_batch e e' o l hp toks s1 s2 :
  engine_ok [] e → step_done e e' o l hp toks s1 s2 →
  out_events o = omap (row_event_at s1) (zip l toks) ∧ NoDup l ∧ sc_config s1 = cfg e ∧
  (∀ k q, seqs s1 !! k = Some q → seq_id q = k) ∧ l ⊆ queue e.
Proof.
  intros [Hs _] [E1 E2 _ _ _]. pose proof (schedule_run compute_hash clock _ _ Hs) as Hr. rewrite E1 in Hr.
  destruct Hr as (Hs1 & Hnd & _ & Hsub & Hp & Hc & _).
  pose proof (postprocess_run compute_hash clock _ s1 l toks Hs1 Hnd Hsub) as Hpr.
  case_decide as Htok; [|destruct Hpr as [? ?]; congruence]. destruct Hpr as (s2' & E2' & _).
  rewrite E2' in E2. injection E2 as E2 _. split_and!; [done|done|done| |by rewrite <-Hp].
  intros k q Hk. by destruct (kv_seq _ _ _ (si_heap _ _ _ _ Hs1) Hk).
Qed.

Lemma step_ids e e' o l hp toks s1 s2 ev :
  engine_ok [] e → step_done e e' o l hp toks s1 s2 → ev ∈ out_events o →
  so_seq_id ev ∈ l.
Proof.
  intros He Hd Hev. destruct (step_batch _ _ _ _ _ _ _ _ He Hd) as (Eo & _ & _ & Hid & Hl).
  rewrite Eo in Hev. apply list_elem_of_omap in Hev as ([x t] & Hx & Hev).
  unfold row_event_at in Hev. simpl in Hev. destruct (seqs s1 !! x) as [q|] eqn:Eq; [|done].
  unfold row_event in Hev. destruct (_ <? _); [done|]. injection Hev as <-. simpl.
  rewrite (Hid _ _ Eq).
  apply list_elem_of_lookup in Hx as [i [Hi _]%lookup_zip_Some]. by eapply list_elem_of_lookup_2.
Qed.

(** What a step emits for a request is what its completion grew by. *)
Lemma step_events e e' o l hp toks s1 s2 k q :
  engine_ok [] e → step_done e e' o l hp toks s1 s2 → stored e !! k = Some q →
  ∃ q', stored e' !! k = Some q' ∧
    ((of_request k (out_events o) = [] ∧ completion_token_ids q' = completion_token_ids q ∧
        (k ∈ queue e' ↔ k ∈ queue e)) ∨
     (k ∈ queue e ∧ ∃ t, completion_token_ids q' = completion_token_ids q ++ [t] ∧
        of_request k (out_events o) = [mk_StreamOutput k t (bool_decide (k ∉ queue e'))] ∧
        (k ∉ queue e' → status q' = FINISHED))).
Proof.
  intros He Hd Hq. destruct (step_batch _ _ _ _ _ _ _ _ He Hd) as (Eo & Hnd & Ec & Hid & Hl).
  destruct (step_cases compute_hash clock (kv_inv compute_hash) env Hord e e' o l hp toks s1 s2 k q He Hd Hq)
    as (q1 & q' & Hreq & Hq' & [(Hkl & -> & Hiff)|(Hkl & Hin & Hq1 & Hwf & t & Hz & _ & Hrc & Hiff)]).
  - exists q1. split; [done|]. left. split_and!; [|by apply same_completion|done].
    apply of_request_none. intros ev Hev <-. by eapply Hkl, step_ids.
  - exists q'. split; [done|]. pose proof (batch_events s1 l toks k q1 t Hnd Hid Hz Hq1) as Ek.
    rewrite <-Eo, Ec in Ek. rewrite Ek. clear Ek Eo. destruct Hrc as [Hr Hfin _].
    rewrite <-(same_completion _ _ Hreq), (same_completion _ _ Hr). unfold row_event in *.
    destruct (_ <? _); [left; split_and!; [done|done|]; split; [done|by intros _; apply Hiff]|].
    right. split; [done|]. exists t. simpl is_final in *. rewrite (Hid _ _ Hq1).
    assert (completion_token_ids (commit_token (clock (ticks s1)) t q1) = completion_token_ids q1 ++ [t])
      as Ect by apply (append_token_tokens t q1 Hwf).
    split_and!; [by destruct (stops _ _ _)| |].
    + simpl. do 2 f_equal. destruct (stops _ _ _).
      * rewrite bool_decide_eq_true_2; [done|]. by intros ?%Hiff.
      * rewrite bool_decide_eq_false_2; [done|]. intros H. apply H. by apply Hiff.
    + intros Hk. apply Hfin. destruct (stops _ _ _); [done|]. destruct Hk. by apply Hiff.
Qed.

(** ** Delivery stamps leave the work alone *)

Definition load_same (s s' : scheduler) : Prop :=
  work_left s' = work_left s ∧ chunk_left s' = chunk_left s.

Lemma smaller_load s s' x : load_same s s' → smaller x s' → smaller x s.
Proof. unfold smaller. intros [-> ->]. done. Qed.

Lemma smaller_trans x y z : smaller x y → smaller y z → smaller x z.
Proof. unfold smaller. lia. Qed.

Section batch.
Context (ks : list nat) (reqs : list (list Z * sampling)).

(** [e'] is [e] after clock reads and delivery stamps. *)
Record restamped (e e' : engine) : Prop := {
  rt_same : same_session e e';
  rt_queue : queue e' = queue e;
  rt_seqs : ∀ k, option_Forall2 (λ q q', same_request q q' ∧ status q' = status q)
              (stored e !! k) (stored e' !! k);
  rt_load : load_same (scheduler_of e) (scheduler_of e');
  rt_inv : ∀ outputs, loop_inv e outputs ks reqs → loop_inv e' outputs ks reqs;
}.

#[export] Instance restamped_preorder : PreOrder restamped.
Proof.
  split.
  - intros e. split; try done. intros k. by destruct (stored e !! k); constructor.
  - intros a b c [] []. split; [by etrans|congruence| | |by auto].
    + intros k. pose proof (rt_seqs1 k) as H1. destruct (rt_seqs0 k) as [q q' [? ?]|].
      * inversion H1 as [? q'' [? ?]|]; subst. constructor. split; [by etrans|congruence].
      * inversion H1; constructor.
    + unfold load_same in *. intuition congruence.
Qed.

Lemma restamped_tick e : restamped e (tick e).
Proof.
  split; try done; [apply tick_same| |].
  - intros k. simpl. by destruct (_ !! k); constructor.
  - intros. by apply tick_inv.
Qed.

Lemma restamped_stamp e k q t :
  stored e !! k = Some q → same_request q (set_times t q) →
  first_scheduled_time t = first_scheduled_time (times q) →
  restamped e (stamped_engine k q t e).
Proof.
  intros Hk Hreq Ht.
  assert (∀ x, option_Forall2 (λ q q', same_request q q' ∧ status q' = status q)
    (stored e !! x) (stored (stamped_engine k q t e) !! x)) as Hseqs.
  { intros x. simpl. rewrite lookup_insert. case_decide as E; [subst x; rewrite Hk; by constructor|].
    by destruct (stored e !! x); constructor. }
  assert (∀ x, tokens_left (scheduler_of (stamped_engine k q t e)) x = tokens_left (scheduler_of e) x) as Hl.
  { intros x. unfold tokens_left. simpl. rewrite lookup_insert. case_decide; [subst x|done].
    by rewrite Hk. }
  split; [apply stamp_same|done|done| |].
  - split; [apply sum_list_with_ext; intros; apply Hl|]. unfold chunk_left. simpl.
    destruct (mid_chunk_seq _) as [m|]; [|destruct (head _) as [m|]; [|done]];
      (rewrite (lookup_insert _ k m); case_decide; [subst m; by rewrite Hk|done]).
  - intros outputs [He Ha Hb Hq Hrows]. split; [by apply (stamp_ok compute_hash (kv_inv compute_hash))| |done|done|].
    + apply (admissible_frame (scheduler_of e)); [|done|exact Ha]. split; [done| |done]. split; try done.
      intros x. destruct (Hseqs x) as [? ? [? _]|]; by constructor.
    + eapply Forall2_impl; [exact Hrows|]. intros x r (qx & Hx & Hsv & Hcase).
      pose proof (Hseqs x) as H. rewrite Hx in H. inversion H as [? q' [Hr _] E1 E'|]; subst.
      exists q'. split; [done|]. split; [by eapply serves_same|]. rewrite (same_completion _ _ Hr).
      change (queue (stamped_engine k q t e)) with (queue e).
      destruct (decide (x ∈ queue e)); [done|]. destruct Hcase as (? & ? & ?).
      split; [done|]. split; [by eapply stamped_same|done].
Qed.

(** ** Delivering an event *)

(** The metrics of a delivered request add up. *)
Definition metrics_ok (m : metrics) : Prop :=
  engine_ttft m + sum_Z (engine_itls m) = engine_e2e m ∧
  ∀ d e, delivery_metrics m = Some (d, e) → submission_to_engine_finish m + d = e.

(** What [stamp_event] makes of the session. *)
Definition stamped_session (ev : StreamOutput) (st st' : stream_session) : Prop :=
  if so_finished ev
  then ∃ m, metrics_ok m ∧ st' = set_remaining (_remaining st ∖ {[so_seq_id ev]})
    (set_metrics (<[so_seq_id ev := m]> (st_metrics st)) st)
  else st' = st.

(** One stamp of the sequence [k]. *)
Lemma stamp_one k f q e :
  stored e !! k = Some q → same_request q (set_times (f q) q) →
  first_scheduled_time (f q) = first_scheduled_time (times q) →
  restamped e (stamped_engine k q (f q) e) ∧
  stored (stamped_engine k q (f q) e) !! k = Some (set_times (f q) q).
Proof. intros. split; [by apply restamped_stamp|]. simpl. by rewrite lookup_insert_eq. Qed.

Lemma on_engine_stamp k f q w :
  stored (w_engine w) !! k = Some q →
  on_engine (on_sched (set_seq k (λ q, set_times (f q) q))) w =
    (Ok tt, put_engine (stamped_engine k q (f q) (w_engine w)) w).
Proof. intros Hk. apply on_engine_ok. by apply (stamp_seq_run (w_engine w) k q f). Qed.

Lemma on_engine_read k q w :
  stored (w_engine w) !! k = Some q → on_engine (on_sched (seq_at k)) w = (Ok q, w).
Proof. intros Hk. rewrite (on_engine_ok _ _ q (w_engine w)); [by destruct w|by apply read_run]. Qed.

Lemma stamp_event_run w ev k t q :
  stored (w_engine w) !! k = Some q →
  (so_finished ev = true → status q = FINISHED ∧ stamped q) →
  ∃ e' st', restamped (w_engine w) e' ∧ stamped_session ev (w_stream w) st' ∧
    stamp_event ev k t w = (Ok tt, mk_world e' st').
Proof.
  intros Hk Hfin. unfold stamp_event. rewrite (bind_ok _ _ _ _ _ (on_engine_read k q w Hk)).
  match goal with |- context [bind ?m _ w] => set (first := m) end. assert (∃ w1 q1, first w = (Ok tt, w1) ∧ restamped (w_engine w) (w_engine w1) ∧ w_stream w1 = w_stream w ∧
    stored (w_engine w1) !! k = Some q1 ∧ same_request q q1 ∧ status q1 = status q)
    as (w1 & q1 & E1 & Hw1 & Est & Hq1 & Hr1 & Hs1).
  { unfold first. destruct (bool_decide _).
    - destruct (stamp_one k (λ q, set_first_delivery_time (Some t) (times q)) q (w_engine w) Hk)
        as [? ?]; [by split|done|].
      eexists _, _. split; [by apply (on_engine_stamp k (λ q, set_first_delivery_time (Some t) (times q)) q)|].
      split_and!; [done|done|done|by split|done].
    - exists w, q. by split_and!. }
  rewrite (bind_ok _ _ _ _ _ E1). unfold stamped_session. destruct (so_finished ev); last first.
  { exists (w_engine w1), (w_stream w1). split; [done|]. split; [done|]. by destruct w1. }
  destruct (Hfin eq_refl) as [Hf Hst].
  assert (is_finished q = true) as -> by by apply bool_decide_eq_true. mstep.
  rewrite (bind_ok _ _ _ _ _ (on_engine_stamp k (λ q, set_delivery_time (Some t) (times q)) q1 w1 Hq1)).
  destruct (stamp_one k (λ q, set_delivery_time (Some t) (times q)) q1 (w_engine w1) Hq1)
    as [Hw2 Hq2]; [by split|done|].
  rewrite (bind_ok _ _ _ _ _ (on_engine_read k _ (put_engine _ w1) Hq2)).
  set (q2 := set_times _ q1). assert (stamped q2) as Hst2.
  { eapply (stamped_same q); [|done]. etrans; [exact Hr1|]. by split. }
  destruct (compute_metrics_run q2 (Some t) (first_delivery_time (times q2)) Hst2)
    as (m & Em & Hm & _ & _ & _ & Hd).
  unfold lift. rewrite Em. mstep. eexists _, _. split; [etrans; [exact Hw1|exact Hw2]|].
  split; [|done]. exists m. rewrite <-Est. by split.
Qed.

(** ** The delivery's invariant *)

(** After the events [D] were delivered: what was emitted for a request is its
    completion so far, and the session still waits for the requests that are
    queued or whose last event is pending. *)
Record flow (c : sched_config) (D : list StreamOutput) (w : world) : Prop := {
  fl_open : open_ok compute_hash [] w;
  fl_config : cfg (w_engine w) = c;
  fl_ids : seq_ids (w_stream w) = ks;
  fl_loop : ∃ outputs, loop_inv (w_engine w) outputs ks reqs;
  fl_sequences : ∀ k, k ∈ ks → _sequences (w_stream w) !! k = Some k;
  fl_events : ∀ k q, k ∈ ks → stored (w_engine w) !! k = Some q →
    of_request k (D ++ _pending (w_stream w)) =
      events_for k (bool_decide (k ∉ queue (w_engine w))) (completion_token_ids q);
  fl_remaining : ∀ k, k ∈ _remaining (w_stream w) ↔ k ∈ ks ∧
    (k ∈ queue (w_engine w) ∨
     ∃ ev, ev ∈ _pending (w_stream w) ∧ so_seq_id ev = k ∧ so_finished ev = true);
  fl_pending : ∀ ev, ev ∈ _pending (w_stream w) → so_seq_id ev ∈ ks ∧
    (so_finished ev = true → ∃ q, stored (w_engine w) !! so_seq_id ev = Some q ∧ status q = FINISHED);
  fl_metrics : ∀ k, k ∈ ks → k ∉ _remaining (w_stream w) →
    ∃ m, st_metrics (w_stream w) !! k = Some m ∧ metrics_ok m;
}.

(** Something is left to deliver. *)
Definition busy (w : world) : Prop := _remaining (w_stream w) ≠ ∅ ∨ _pending (w_stream w) ≠ [].

(** What was delivered for a request, and its metrics. *)
Definition delivered (c : sched_config) (D : list StreamOutput) (ms : gmap nat metrics)
    (k : nat) (r : list Z * sampling) : Prop :=
  ∃ toks, of_request k D = events_for k true toks ∧ stops_exactly c r.2 toks ∧
    ∃ m, ms !! k = Some m ∧ metrics_ok m.

Lemma noted_all (m : gmap nat nat) l k :
  foldl (λ m k, <[k := k]> m) m l !! k = if decide (k ∈ l) then Some k else m !! k.
Proof.
  revert m. induction l as [|x l IH]; intros m; [done|]. cbn [foldl]. rewrite IH, lookup_insert.
  destruct (decide (k ∈ l)); [by rewrite decide_True by set_solver|].
  destruct (decide (x = k)) as [->|]; [by rewrite decide_True by set_solver|].
  by rewrite decide_False by set_solver.
Qed.

Lemma of_request_elem ev l : ev ∈ l → ev ∈ of_request (so_seq_id ev) l.
Proof. intros. by apply list_elem_of_filter. Qed.

(** One engine step while nothing is pending. *)
Lemma flow_step c D w :
  flow c D w → busy w → answers env c → _pending (w_stream w) = [] →
  ∃ o e', Engine._step compute_hash clock torch sha256_hexdigest limits env (w_engine w) = (Ok o, e') ∧
    Forall (λ ev, so_seq_id ev ∈ _remaining (w_stream w)) (out_events o) ∧
    smaller (scheduler_of e') (scheduler_of (w_engine w)) ∧
    let w' := mk_world e' (set_pending (out_events o) (w_stream w)) in flow c D w' ∧ busy w'.
Proof.
  intros [Hopen Hcfg Hids (outputs & Hinv) Hmap Hev Hrem Hpend Hmet] Hmore Hans Hnil.
  unfold busy in Hmore. rewrite Hnil in Hev, Hrem, Hmore.
  assert (queue (w_engine w) ≠ []) as Hne.
  { destruct Hmore as [Hr|?]; [|done]. apply set_choose_L in Hr as [k Hk].
    apply Hrem in Hk as [_ [Hk|(ev & Hk & _)]]; [|by apply elem_of_nil in Hk].
    intros E. rewrite E in Hk. by apply elem_of_nil in Hk. }
  rewrite <-Hcfg in Hans.
  destruct (loop_step compute_hash clock (kv_inv compute_hash) torch sha256_hexdigest limits env Hord
    _ _ _ _ Hinv Hans Hne) as (o & e' & l & hp & toks & s1 & s2 & E & Hd & Hsm & Ha).
  pose proof (oo_engine _ _ _ Hopen) as He.
  destruct (step_done_ok compute_hash clock _ env _ _ _ _ _ _ _ _ He Hd) as (He' & Hss & Hq').
  destruct (step_batch _ _ _ _ _ _ _ _ He Hd) as (_ & _ & _ & _ & Hl).
  assert (∀ ev, ev ∈ out_events o → so_seq_id ev ∈ queue (w_engine w)) as Hevq.
  { intros ev Hin. apply Hl. exact (step_ids _ _ _ _ _ _ _ _ ev He Hd Hin). }
  assert (∀ k, k ∈ queue (w_engine w) → k ∈ ks) as Hqk.
  { intros k Hk. rewrite <-Hids. by apply (oo_queue _ _ _ Hopen). }
  assert (∀ k, k ∈ queue (w_engine w) → k ∈ _remaining (w_stream w)) as Hqr.
  { intros k Hk. apply Hrem. auto. }
  assert (∀ k, k ∈ ks → ∃ q, stored (w_engine w) !! k = Some q) as Hstored.
  { intros k [i Hi]%list_elem_of_lookup. destruct (Forall2_lookup_l _ _ _ _ _ (li_rows _ _ _ _ _ Hinv) Hi)
      as (r & _ & q & Hq & _). by exists q. }
  exists o, e'. split; [done|]. split; [apply Forall_forall; auto|]. split; [done|].
  pose proof (λ k q, step_events _ _ _ _ _ _ _ _ k q He Hd) as Hstep.
  split; [split; simpl|by left; destruct Hmore].
  - destruct (open_step compute_hash [] w e' Hopen He' Hss Hq'). by split.
  - by rewrite (ss_config _ _ Hss).
  - done.
  - exists (foldl (λ m k, <[k := k]> m) outputs (out_finished o)). destruct Hinv as [_ _ Hb Hqks Hrows].
    split; [done|done|by rewrite (ss_config _ _ Hss)|intros k Hk; by apply Hqk, Hq'|].
    eapply Forall2_impl; [exact Hrows|]. intros k r Hr.
    apply (step_row compute_hash clock _ env Hord _ _ _ _ _ _ _ _ _ _ _ _ He Hd Hr). intros x. apply noted_all.
  - done.
  - intros k q' Hk Hq'k. destruct (Hstored k Hk) as [q Hq]. rewrite of_request_app.
    pose proof (Hev k q Hk Hq) as Hevk. rewrite app_nil_r in Hevk. rewrite Hevk.
    destruct (Hstep k q Hq) as (q2 & Hq2 & [(-> & Ec & Hiff)|(Hin & t & Ec & -> & _)]).
    + assert (q2 = q') as -> by congruence. rewrite app_nil_r, Ec. f_equal. apply bool_decide_ext. tauto.
    + assert (q2 = q') as -> by congruence. rewrite Ec, events_snoc.
      by rewrite (bool_decide_eq_false_2 (k ∉ queue (w_engine w))) by tauto.
  - intros k. rewrite Hrem. split.
    + intros [Hk [Hin|(ev & Hin & _)]]; [|by apply elem_of_nil in Hin]. split; [done|].
      destruct (Hstored k Hk) as [q Hq].
      destruct (Hstep k q Hq) as (q2 & _ & [(_ & _ & Hiff)|(_ & t & _ & Ek & _)]); [left; by apply Hiff|].
      destruct (decide (k ∈ queue e')) as [|Hn]; [by left|right]. rewrite bool_decide_eq_true_2 in Ek by done.
      exists (mk_StreamOutput k t true). split; [|done].
      assert (mk_StreamOutput k t true ∈ of_request k (out_events o)) as [_ ?]%list_elem_of_filter; [|done].
      rewrite Ek. by apply list_elem_of_singleton.
    + intros [Hk [Hin|(ev & Hin & <- & _)]]; (split; [done|]); left; [by apply Hq'|by apply Hevq].
  - intros ev Hin. split; [by apply Hqk, Hevq|]. intros Hf.
    destruct (Hstored (so_seq_id ev)) as [q Hq]; [by apply Hqk, Hevq|].
    destruct (Hstep _ q Hq) as (q2 & Hq2 & [(Ek & _)|(_ & t & _ & Ek & Hfin)]);
      apply of_request_elem in Hin; rewrite Ek in Hin; [by apply elem_of_nil in Hin|].
    apply list_elem_of_singleton in Hin. exists q2. split; [done|]. apply Hfin.
    rewrite Hin in Hf. simpl in Hf. rewrite Hin. by apply bool_decide_eq_true in Hf.
  - done.
Qed.

(** The engine's part of the invariant, seen through stamps. *)
Lemma restamped_stored e e' k q :
  restamped e e' → stored e !! k = Some q →
  ∃ q', stored e' !! k = Some q' ∧ same_request q q' ∧ status q' = status q.
Proof.
  intros Hr Hq. pose proof (rt_seqs _ _ Hr k) as H. rewrite Hq in H.
  inversion H as [? q' [? ?] E1 E2|]; subst. by exists q'.
Qed.

Lemma restamped_stored_rev e e' k q' :
  restamped e e' → stored e' !! k = Some q' →
  ∃ q, stored e !! k = Some q ∧ same_request q q' ∧ status q' = status q.
Proof.
  intros Hr Hq. pose proof (rt_seqs _ _ Hr k) as H. rewrite Hq in H.
  inversion H as [q ? [? ?] E1 E2|]; subst. by exists q.
Qed.

(** Taking the first pending event, with its stamps. *)
Lemma flow_take c D w ev rest :
  flow c D w → _pending (w_stream w) = ev :: rest →
  ∃ e' st', stamp_event ev (so_seq_id ev) (clock (ticks (scheduler_of (w_engine w))))
      (put_engine (tick (w_engine w)) (put_stream (set_pending rest (w_stream w)) w)) =
      (Ok tt, mk_world e' st') ∧
    _pending st' = rest ∧ load_same (scheduler_of (w_engine w)) (scheduler_of e') ∧
    flow c (D ++ [ev]) (mk_world e' st').
Proof.
  intros [Hopen Hcfg Hids (outputs & Hinv) Hmap Hev Hrem Hpend Hmet] Hp.
  rewrite Hp in Hev, Hrem, Hpend. set (w1 := put_engine _ _). set (k := so_seq_id ev).
  destruct (Hpend ev) as [Hk Hfin]; [by left|]. fold k in Hk.
  assert (∃ q r, stored (w_engine w) !! k = Some q ∧ row_state (w_engine w) outputs k r) as (q & r & Hq & Hrow).
  { apply list_elem_of_lookup in Hk as [i Hi]. destruct (Forall2_lookup_l _ _ _ _ _ (li_rows _ _ _ _ _ Hinv) Hi)
      as (r & _ & Hr). pose proof Hr as (q & Hq & _). by exists q, r. }
  assert (so_finished ev = true → (k ∉ queue (w_engine w)) ∧ ∀ x, x ∈ rest → so_seq_id x ≠ k) as Hlast.
  { intros Hf. pose proof (Hev k q Hk Hq) as E. rewrite of_request_app in E.
    unfold of_request at 2 in E. rewrite filter_cons_True in E by done.
    symmetry in E. apply events_final in E as [E1 E2]; [|done]. apply bool_decide_eq_true in E1. split; [done|].
    intros x Hx Ex. assert (x ∈ of_request k rest) as Hxr by (apply list_elem_of_filter; done).
    change (x ∈ filter (λ ev0, so_seq_id ev0 = k) rest) in Hxr. rewrite E2 in Hxr. by apply elem_of_nil in Hxr. }
  destruct (stamp_event_run w1 ev k (clock (ticks (scheduler_of (w_engine w)))) q) as (e' & st' & Hr & Hst & E).
  { exact Hq. }
  { intros Hf. destruct (Hfin Hf) as (q' & Hq' & ?). fold k in Hq'. assert (q' = q) as -> by congruence.
    split; [done|]. destruct Hrow as (q2 & Hq2 & _ & Hcase). rewrite decide_False in Hcase by by apply Hlast.
    assert (q2 = q) as -> by congruence. tauto. }
  assert (restamped (w_engine w) e') as Hr'.
  { etrans; [apply restamped_tick|exact Hr]. }
  exists e', st'. split; [exact E|].
  assert (_pending st' = rest ∧ _closed st' = _closed (w_stream w) ∧ st_lease st' = st_lease (w_stream w) ∧
    seq_ids st' = seq_ids (w_stream w) ∧ _sequences st' = _sequences (w_stream w) ∧
    (∀ x, x ∈ _remaining st' ↔ x ∈ _remaining (w_stream w) ∧ (so_finished ev = true → x ≠ k)) ∧
    ∀ x, x ∈ ks → x ∉ _remaining st' → ∃ m, st_metrics st' !! x = Some m ∧ metrics_ok m)
    as (Ep & Ec & El & Ei & Es & Erem & Emet).
  { unfold stamped_session in Hst. destruct (so_finished ev).
    - destruct Hst as (m & Hm & ->). split_and!; try done.
      + intros x. simpl. rewrite elem_of_difference, elem_of_singleton. tauto.
      + intros x Hx Hn. simpl. rewrite lookup_insert. case_decide as Ex; [by exists m|].
        apply Hmet; [done|]. intros Hin. apply Hn. simpl. rewrite elem_of_difference, elem_of_singleton.
        split; [done|]. by intros ->.
    - subst st'. split_and!; try done. intros x. simpl. by split; [|intros []]. }
  destruct (open_step compute_hash [] w e' Hopen) as [Hc (lease & Hl & Ha) He Hq'].
  { destruct (rt_inv _ _ Hr' _ Hinv) as [? _ _ _ _]. done. }
  { apply Hr'. }
  { by rewrite (rt_queue _ _ Hr'). }
  split; [done|]. split; [apply Hr'|]. split; simpl.
  - split; simpl in *; [congruence| |done|by rewrite Ei]. exists lease. split; [congruence|done].
  - rewrite (ss_config _ _ (rt_same _ _ Hr')). done.
  - congruence.
  - exists outputs. by apply (rt_inv _ _ Hr').
  - by rewrite Es.
  - intros x qx Hx Hqx. rewrite Ep, <-(assoc_L (++)).
    destruct (restamped_stored_rev _ _ _ _ Hr' Hqx) as (q0 & Hq0 & Hreq & _).
    rewrite (rt_queue _ _ Hr'), (same_completion _ _ Hreq). by apply Hev.
  - intros x. rewrite Erem, Hrem, (rt_queue _ _ Hr'), Ep. split.
    + intros [[Hx [Hin|(ev0 & Hin & <- & Hf)]] Hne]; (split; [done|]); [by left|right].
      apply elem_of_cons in Hin as [->|Hin]; [by destruct (Hne Hf)|]. by exists ev0.
    + intros [Hx [Hin|(ev0 & Hin & <- & Hf)]]; (split; [split; [done|]|]).
      * by left.
      * intros Hfe ->. by apply (Hlast Hfe).
      * right. exists ev0. split; [by right|done].
      * intros Hfe. by apply (Hlast Hfe).
  - intros ev0 Hin. rewrite Ep in Hin. destruct (Hpend ev0) as [Hx Hf0]; [by right|]. split; [done|].
    intros Hf. destruct (Hf0 Hf) as (q0 & Hq0 & Hs0).
    destruct (restamped_stored _ _ _ _ Hr' Hq0) as (q1 & Hq1 & _ & Hs1). exists q1. split; [done|congruence].
  - done.
Qed.

(** Nothing is left: every request was delivered. *)
Lemma flow_done c D w :
  flow c D w → _remaining (w_stream w) = ∅ → _pending (w_stream w) = [] →
  Forall2 (delivered c D (st_metrics (w_stream w))) ks reqs.
Proof.
  intros [_ Hcfg _ (outputs & Hinv) _ Hev Hrem _ Hmet] Hr Hp. rewrite Hp in Hev, Hrem. rewrite Hr in Hrem, Hmet.
  pose proof (li_rows _ _ _ _ _ Hinv) as Hrows.
  apply Forall2_same_length_lookup_2; [by eapply Forall2_length|]. intros i k r Hi Hri.
  destruct (Forall2_lookup_lr _ _ _ _ _ _ Hrows Hi Hri) as (q & Hq & _ & Hcase).
  assert (k ∈ ks) as Hk by by eapply list_elem_of_lookup_2.
  assert (k ∉ queue (w_engine w)) as Hn.
  { intros Hin. assert (k ∈ (∅ : gset nat)) as H by (apply Hrem; auto). by apply not_elem_of_empty in H. }
  rewrite decide_False in Hcase by done. exists (completion_token_ids q).
  pose proof (Hev k q Hk Hq) as E. rewrite app_nil_r, bool_decide_eq_true_2 in E by done.
  split; [done|]. rewrite <-Hcfg. split; [tauto|]. apply Hmet; [done|apply not_elem_of_empty].
Qed.

(** A session at its end. *)
Definition ended (c : sched_config) (D : list StreamOutput) (w : world) : Prop :=
  shut compute_hash w ∧ Forall2 (delivered c D (st_metrics (w_stream w))) ks reqs.

Lemma deliver_run c D w ev rest :
  flow c D w → _pending (w_stream w) = ev :: rest →
  ∃ w', deliver clock w = (Ok ev, w') ∧
    (ended c (D ++ [ev]) w' ∨
     flow c (D ++ [ev]) w' ∧ busy w' ∧ _pending (w_stream w') = rest ∧
       load_same (scheduler_of (w_engine w)) (scheduler_of (w_engine w'))).
Proof.
  intros Hw Hp. destruct (flow_take c D w ev rest Hw Hp) as (e' & st' & E & Ep & Hl & Hf).
  destruct (fl_pending _ _ _ Hw ev) as [Hk _]; [rewrite Hp; by left|].
  assert (∀ o w', (if bool_decide (_remaining st' = ∅) && bool_decide (_pending st' = [])
    then _close_locked else ret tt) (mk_world e' st') = (o, w') → o = Ok tt →
    deliver clock w = (Ok ev, w')) as Hrun.
  { intros o w' Ec ->. unfold deliver. unfold bind at 1, get. rewrite Hp. mstep. simpl w_stream.
    unfold lift at 1. rewrite (fl_sequences _ _ _ Hw _ Hk). mstep.
    erewrite bind_ok by (apply on_engine_ok; apply engine_clock_run).
    rewrite (bind_ok _ _ _ _ _ E). unfold bind at 1, get. simpl. by rewrite (bind_ok _ _ _ _ _ Ec). }
  destruct (bool_decide (_remaining st' = ∅) && bool_decide (_pending st' = [])) eqn:Eb.
  - apply andb_true_iff in Eb as [E1%bool_decide_eq_true E2%bool_decide_eq_true].
    destruct (close_run compute_hash compute_hash_nonneg (mk_world e' st')) as (w' & Ec & Hs);
      [right; exists []; apply Hf|].
    exists w'. split; [by apply (Hrun (Ok tt))|]. left. split; [done|].
    pose proof (close_stream (mk_world e' st')) as Em. rewrite Ec in Em. simpl in Em.
    assert (st_metrics (w_stream w') = st_metrics st') as -> by (rewrite Em; by destruct (_closed st')).
    by apply (flow_done c _ _ Hf).
  - exists (mk_world e' st'). split; [by apply (Hrun (Ok tt))|]. right. split; [done|]. split; [|done].
    apply andb_false_iff in Eb as [E1%bool_decide_eq_false|E2%bool_decide_eq_false]; [by left|by right].
Qed.

(** The steps until an event is pending. *)
Lemma pending_run c D w :
  flow c D w → busy w → answers env c →
  ∃ n w', (∀ fuel, (n <= fuel)%nat → fill_pending fuel w = (Ok tt, w')) ∧
    flow c D w' ∧ busy w' ∧ _pending (w_stream w') ≠ [] ∧
    (w' = w ∨ smaller (scheduler_of (w_engine w')) (scheduler_of (w_engine w))).
Proof.
  remember (scheduler_of (w_engine w)) as s eqn:Es. revert w Es.
  induction (smaller_wf s) as [s _ IH]. intros w -> Hw Hb Hans.
  destruct (_pending (w_stream w)) as [|ev rest] eqn:Ep; last first.
  { exists 1%nat, w. split_and!; [|done|done|by rewrite Ep|by left].
    intros [|fuel] Hn; [lia|]. cbn [Stream.fill_pending]. unfold bind at 1, get. by rewrite Ep. }
  destruct (flow_step c D w Hw Hb Hans Ep) as (o & e' & E & Hids & Hsm & Hw1 & Hb1).
  set (w1 := mk_world e' _) in *. destruct (IH (scheduler_of e') Hsm w1 eq_refl Hw1 Hb1 Hans)
    as (n & w' & Hrun & Hw' & Hb' & Hp' & Hlt).
  exists (S n), w'. split_and!; [|done|done|done|].
  2: { right. destruct Hlt as [->|Hlt]; [done|]. by eapply smaller_trans. }
  intros [|fuel] Hn; [lia|]. cbn [Stream.fill_pending]. unfold bind at 1, get. rewrite Ep.
  assert (_remaining (w_stream w) ≠ ∅) as Hr by (destruct Hb; [done|congruence]).
  rewrite bool_decide_eq_false_2 by done.
  assert (engine_is_finished (w_engine w) = false) as ->.
  { destruct (fl_loop _ _ _ Hw) as [outputs Hinv]. destruct (decide (queue (w_engine w) = [])) as [Hq|Hq].
    - destruct Hr. apply set_eq. intros k. rewrite (fl_remaining _ _ _ Hw), Hq, Ep.
      rewrite !elem_of_nil. setoid_rewrite elem_of_nil. split; [|by intros ?%not_elem_of_empty]. naive_solver.
    - unfold engine_is_finished, sched_is_finished. apply andb_false_iff.
      rewrite !bool_decide_eq_false. destruct (waiting _), (running _); auto. }
  mstep. rewrite (bind_ok _ _ _ _ _ (on_engine_ok _ w _ _ E)).
  assert (existsb (λ ev, negb (bool_decide (so_seq_id ev ∈ _remaining (w_stream w)))) (out_events o) = false) as ->.
  { apply not_true_iff_false. intros (ev & Hin%list_elem_of_In & Hx)%existsb_exists.
    rewrite Forall_forall in Hids. by rewrite bool_decide_eq_true_2 in Hx by by apply Hids. }
  mstep. unfold on_session at 1. rewrite (bind_ok _ _ _ tt w1).
  - apply Hrun. lia.
  - unfold w1, modify, put_stream, put_engine. cbn. by rewrite Ep.
Qed.

(** ** Draining *)

(** An iteration makes progress: less work, or the same and fewer events pending. *)
Definition advances (w' w : world) : Prop :=
  smaller (scheduler_of (w_engine w')) (scheduler_of (w_engine w)) ∨
  load_same (scheduler_of (w_engine w)) (scheduler_of (w_engine w')) ∧
    (length (_pending (w_stream w')) < length (_pending (w_stream w)))%nat.

Lemma advances_wf : well_founded advances.
Proof.
  assert (∀ s n w, load_same s (scheduler_of (w_engine w)) → length (_pending (w_stream w)) = n →
    Acc advances w) as H.
  { intros s. induction (smaller_wf s) as [s _ IHs]. intros n. induction (lt_wf n) as [n _ IHn].
    intros w Hl <-. constructor. intros w' [Hs|[Hl' Hn]].
    - by eapply (IHs (scheduler_of (w_engine w'))); [by eapply smaller_load|split|].
    - eapply IHn; [exact Hn| |done]. unfold load_same in *. intuition congruence. }
  intros w. by eapply H.
Qed.

Lemma next_run c D w :
  flow c D w → busy w → answers env c →
  ∃ n ev w', (∀ fuel, (n <= fuel)%nat → _next_locked fuel w = (Ok ev, w')) ∧
    (ended c (D ++ [ev]) w' ∨ flow c (D ++ [ev]) w' ∧ busy w' ∧ advances w' w).
Proof.
  intros Hw Hb Hans. destruct (pending_run c D w Hw Hb Hans) as (n & w1 & Hrun & Hw1 & Hb1 & Hp1 & Hlt).
  destruct (_pending (w_stream w1)) as [|ev rest] eqn:Ep; [done|].
  destruct (deliver_run c D w1 ev rest Hw1 Ep) as (w' & Ed & Hend).
  exists n, ev, w'. split.
  - intros fuel Hn. unfold Stream._next_locked. unfold bind at 1, get.
    rewrite (oo_closed _ _ _ (fl_open _ _ _ Hw)). mstep. apply try_handler_ok.
    by rewrite (bind_ok _ _ _ _ _ (Hrun fuel Hn)).
  - destruct Hend as [?|(Hw' & Hb' & Hp' & Hl)]; [by left|right]. split; [done|]. split; [done|].
    destruct Hlt as [->|Hlt].
    + right. split; [done|]. rewrite Ep, Hp'. simpl. lia.
    + left. unfold smaller in *. destruct Hl as [-> ->]. done.
Qed.

Lemma drain_run c D w :
  flow c D w → busy w → answers env c →
  ∃ n D' w', (∀ m fuel, (n <= m)%nat → (n <= fuel)%nat → drain m fuel w = (Ok D', w')) ∧
    ended c (D ++ D') w'.
Proof.
  revert D. induction (advances_wf w) as [w _ IH]. intros D Hw Hb Hans.
  destruct (next_run c D w Hw Hb Hans) as (n & ev & w1 & Hrun & Hend).
  assert (∃ n' D' w', (∀ m fuel, (n' <= m)%nat → (n' <= fuel)%nat → drain m fuel w1 = (Ok D', w')) ∧
    ended c ((D ++ [ev]) ++ D') w') as (n' & D' & w' & Hdrain & He).
  { destruct Hend as [Hend|(Hw1 & Hb1 & Hadv)]; [|by apply IH].
    exists 1%nat, [], w1. rewrite app_nil_r. split; [|done]. intros [|m] fuel Hm _; [lia|].
    cbn [Stream.drain]. unfold Stream._next_locked. unfold bind at 1, get. destruct Hend as [[-> _] _]. done. }
  exists (S (n + n'))%nat, (ev :: D'), w'. rewrite <-(assoc_L (++)) in He. split; [|done].
  intros [|m] fuel Hm Hf; [lia|]. cbn [Stream.drain]. rewrite Hrun by lia.
  by rewrite (bind_ok _ _ _ _ _ (Hdrain m fuel ltac:(lia) ltac:(lia))).
Qed.

Lemma sequences_of l k : k ∈ l → (list_to_map (zip l l) : gmap nat nat) !! k = Some k.
Proof.
  induction l as [|x l IH]; intros Hk; [by apply elem_of_nil in Hk|]. cbn [zip zip_with list_to_map foldr].
  simpl. rewrite lookup_insert. case_decide; [congruence|]. apply IH. set_solver.
Qed.

(** The session just opened. *)
Lemma new_flow c e lease :
  open_ok compute_hash [] (mk_world e (new_session lease ks)) → cfg e = c →
  loop_inv e ∅ ks reqs → rows_for e ks reqs → queue e = ks →
  flow c [] (mk_world e (new_session lease ks)).
Proof.
  intros Ho Hc Hinv Hrows Hq. split; simpl; try done.
  - by exists ∅.
  - intros k. apply sequences_of.
  - intros k q [i Hi]%list_elem_of_lookup Hk.
    destruct (Forall2_lookup_l _ _ _ _ _ Hrows Hi) as ([toks p] & _ & q' & Hq' & Hf).
    apply fresh_serves in Hf as [_ Ec]. assert (q' = q) as -> by congruence. by rewrite Ec.
  - intros k. rewrite elem_of_list_to_set, Hq. split; [auto|]. by intros [? _].
  - by intros ev ?%elem_of_nil.
  - intros k Hk Hn. destruct Hn. by apply elem_of_list_to_set.
Qed.
End batch.

(** C5: a stream delivers.  Under the conditions of [generate_total] (but the
    clock need not advance), opening a stream answers a session; iterating it to
    its end terminates, for all fuel beyond some bound, with the events of every
    request in the order of its tokens: one event per token, exactly the last
    marked finished, the tokens ending at the first stopping one.  Every request
    then has metrics that add up, the session is closed and the engine rests. *)
Theorem stream_complete e prompts sampling_params params rs :
  answers env (cfg e) → resting e → limits_match limits e → 0 < max_num_batched_tokens (cfg e) →
  _normalize_batch prompts sampling_params = Ok params →
  has_capacity (length prompts) e → requests_of encode limits prompts params = Ok rs →
  ∃ n st e1 D w', stream prompts sampling_params e = (Ok st, e1) ∧
    (∀ m fuel, (n <= m)%nat → (n <= fuel)%nat → drain m fuel (mk_world e1 st) = (Ok D, w')) ∧
    Forall2 (delivered (cfg e) D (st_metrics (w_stream w'))) (seq_ids st) rs ∧
    shut compute_hash w'.
Proof.
  intros Hans Hrest Hlim Hmax Hnorm Hcap Hreqs.
  pose proof (init_run compute_hash clock compute_hash_nonneg encode limits (tick e) prompts params
    (clock (ticks (scheduler_of e))) (tick_resting compute_hash e Hrest) (normalize_length _ _ _ Hnorm)) as Hi.
  change (has_capacity (length prompts) (tick e)) with (has_capacity (length prompts) e) in Hi.
  rewrite decide_True, Hreqs in Hi by done. destruct Hi as (ks & e' & Hen & Hrows & Hi).
  assert (∀ o, StreamSession_init clock encode limits prompts (inr params) (clock (ticks (scheduler_of e))) (tick e) = o →
    stream prompts sampling_params e = o) as Hopen.
  { intros o <-. unfold Stream.stream, lift. rewrite Hnorm. mstep.
    by rewrite (bind_ok _ _ _ _ _ (engine_clock_run clock e)). }
  destruct (decide (ks = [])) as [->|Hne].
  { destruct Hi as (e2 & E & Hs). eexists 1%nat, _, e2, [], _. split; [by apply Hopen|].
    split; [|split; [|exact Hs]].
    - intros [|m] fuel Hm _; [lia|]. reflexivity.
    - simpl. apply Forall2_length in Hrows. by destruct rs. }
  destruct Hi as [E Ho]. set (st := new_session _ ks) in *.
  assert (limits_match limits (held (tick e))) as Hlim' by (by destruct Hlim).
  pose proof (batch_inv compute_hash encode limits (held (tick e)) ks e' prompts params rs
    (rs_queue _ _ Hrest) Hlim' Hmax Hen Hreqs Hrows) as Hinv.
  pose proof (en_session _ _ _ _ Hen) as Hss.
  assert (queue e' = ks) as Hq.
  { pose proof (rs_queue _ _ Hrest) as [Hqw Hqr]%app_nil.
    rewrite (en_waiting _ _ _ _ Hen), (en_running _ _ _ _ Hen). simpl. by rewrite Hqw, Hqr, app_nil_r. }
  destruct (drain_run ks rs (cfg e) [] (mk_world e' st)) as (n & D & w' & Hd & Hs & Hdel).
  - apply new_flow; [done|apply Hss|done..].
  - left. intros H. destruct ks as [|k ks']; [done|].
    assert (k ∈ (∅ : gset nat)) as Hk by (rewrite <-H; set_solver). by apply not_elem_of_empty in Hk.
  - done.
  - exists n, st, e', D, w'. split; [by apply Hopen|]. by split_and!.
Qed.
End live.
