(* ===== verification/Detokenizer.v ===== *)
(** * Detokenizer: streamed decoding with corrections

    Models src/nanovllm/utils/streaming_detokenizer.py.  Text is a list of
    Unicode code points.  The tokenizer is a third-party object: its [decode] is
    the parameter of the section, about which nothing is assumed.  The states
    by sequence id are a map, and [feed]/[flush] run in the monad over it. *)
From S2P Require Import Prelude.

Definition text : Type := list Z.

Record TextUpdate := mk_TextUpdate {
  tu_seq_id : nat;
  replace_from : Z;
  delete_count : Z;
  insert_text : text;
  final : bool;
}.

(** [TextUpdate.apply]. *)
Definition apply (u : TextUpdate) (t : text) : outcome text :=
  let len := Z.of_nat (length t) in
  oraise_if ((replace_from u <? 0) || (len <? replace_from u))
    (ValueError "replace_from lies outside the current text") ;?
  let stop := replace_from u + delete_count u in
  oraise_if ((delete_count u <? 0) || (len <? stop))
    (ValueError "delete_count lies outside the current text") ;?
  Ok (take (Z.to_nat (replace_from u)) t ++ insert_text u ++ drop (Z.to_nat stop) t).

Record _DecodeState := mk_decode_state {
  ds_token_ids : list Z;
  window_start_token : Z;
  window_start_char : Z;
  window_text : text;
  rendered_length : Z;
}.

Definition decode_state_init : _DecodeState := mk_decode_state [] 0 0 [] 0.

(** The REPLACEMENT CHARACTER. *)
Definition replacement : Z := 65533.

Definition ends_with_replacement (t : text) : bool :=
  bool_decide (last t = Some replacement).

(** The constructor's arguments. *)
Record detokenizer_config := mk_detokenizer_config {
  window_size : Z;
  boundary_overlap : Z;
}.

Definition StreamingDetokenizer_init (window overlap : Z) : outcome detokenizer_config :=
  oraise_if (window <? 2) (ValueError "window_size must be an integer of at least 2") ;?
  oraise_if (overlap <? 1) (ValueError "boundary_overlap must be a positive integer") ;?
  Ok (mk_detokenizer_config window overlap).

Fixpoint _common_prefix_length (l r : text) : nat :=
  match l, r with
  | x :: l', y :: r' => if x =? y then S (_common_prefix_length l' r') else O
  | _, _ => O
  end.

Section detokenizer.
Variable decode : list Z → text.
Variable cfg : detokenizer_config.

Definition window_tokens (s : _DecodeState) : Z :=
  Z.of_nat (length (ds_token_ids s)) - window_start_token s.

(** [token_ids[window_start_token:]]. *)
Definition window_of (s : _DecodeState) : list Z :=
  drop (Z.to_nat (window_start_token s)) (ds_token_ids s).

(** The loop over candidates [target, target - 1, ..., lower]. *)
Fixpoint try_candidates (s : _DecodeState) (candidates : list Z) : _DecodeState :=
  match candidates with
  | [] => s
  | candidate :: rest =>
      let committed := decode (slice (ds_token_ids s) (window_start_token s) candidate) in
      let retained := decode (drop (Z.to_nat candidate) (ds_token_ids s)) in
      if bool_decide (committed ++ retained = window_text s)
      then mk_decode_state (ds_token_ids s) candidate
             (window_start_char s + Z.of_nat (length committed)) retained
             (rendered_length s)
      else try_candidates s rest
  end.

Definition _advance_frontier (s : _DecodeState) : _DecodeState :=
  if window_tokens s <? window_size cfg + boundary_overlap cfg then s else
  let target := Z.of_nat (length (ds_token_ids s)) - window_size cfg in
  let lower := Z.max (window_start_token s + 1) (target - boundary_overlap cfg) in
  try_candidates s (reverse (py_range lower (target + 1))).

Definition MD (A : Type) : Type := M (gmap nat _DecodeState) A.

(** The part of [feed] after the token was appended. *)
Definition feed_state (seq_id : nat) (s : _DecodeState) : TextUpdate * _DecodeState :=
  let new_window := decode (window_of s) in
  if ends_with_replacement new_window
     && (window_tokens s <? window_size cfg + boundary_overlap cfg)
  then (mk_TextUpdate seq_id (rendered_length s) 0 [] false, s)
  else
    let common := _common_prefix_length (window_text s) new_window in
    (mk_TextUpdate seq_id (window_start_char s + Z.of_nat common)
       (Z.of_nat (length (window_text s)) - Z.of_nat common) (drop common new_window) false,
     _advance_frontier
       (mk_decode_state (ds_token_ids s) (window_start_token s) (window_start_char s)
          new_window (window_start_char s + Z.of_nat (length new_window)))).

Definition feed (seq_id : nat) (token_id : Z) : MD TextUpdate :=
  let* states := get in
  let s := default decode_state_init (states !! seq_id) in
  modify (<[seq_id := s]>) ;;;
  let hard_limit := window_size cfg + 2 * boundary_overlap cfg in
  raise_if (hard_limit <=? window_tokens s)
    (RuntimeError "tokenizer rewrite exceeded the configured boundary overlap") ;;;
  let s := mk_decode_state (ds_token_ids s ++ [token_id]) (window_start_token s)
             (window_start_char s) (window_text s) (rendered_length s) in
  let '(update, s) := feed_state seq_id s in
  modify (<[seq_id := s]>) ;;;
  ret update.

Definition flush (seq_id : nat) : MD TextUpdate :=
  let* states := get in
  modify (delete seq_id) ;;;
  match states !! seq_id with
  | None => ret (mk_TextUpdate seq_id 0 0 [] true)
  | Some s =>
      ret (mk_TextUpdate seq_id 0 (rendered_length s) (decode (ds_token_ids s)) true)
  end.

Definition discard (seq_id : nat) : MD unit := modify (delete seq_id).

(** A client: apply the updates of a stream in order. *)
Fixpoint stream (seq_id : nat) (tokens : list Z) (t : text) : MD text :=
  match tokens with
  | [] => ret t
  | tok :: rest =>
      let* u := feed seq_id tok in
      let* t' := lift (apply u t) in
      stream seq_id rest t'
  end.

Definition stream_and_flush (seq_id : nat) (tokens : list Z) : MD text :=
  let* t := stream seq_id tokens [] in
  let* u := flush seq_id in
  lift (apply u t).

(** ** Correctness *)

(** The text on display consists of committed segments, each decoded on its
    own, and the window text. *)
Record rendered (s : _DecodeState) (t : text) : Prop := {
  rd_window : 0 <= window_start_token s <= Z.of_nat (length (ds_token_ids s));
  rd_segments : ∃ segs, concat segs = take (Z.to_nat (window_start_token s)) (ds_token_ids s) ∧
    t = concat (decode <$> segs) ++ window_text s ∧
    window_start_char s = Z.of_nat (length (concat (decode <$> segs)));
  rd_length : rendered_length s = Z.of_nat (length t);
}.

(** The window text is the decoded window, unless an incomplete character is
    being withheld. *)
Definition in_step (s : _DecodeState) : Prop := window_text s = decode (window_of s).

Lemma common_prefix_split l r :
  take (_common_prefix_length l r) l ++ drop (_common_prefix_length l r) r = r ∧
  (_common_prefix_length l r <= length l)%nat.
Proof.
  revert r. induction l as [|x l IH]; intros [|y r]; simpl; try (split; [done|lia]).
  destruct (x =? y) eqn:E; simpl; [|split; [done|lia]].
  apply Z.eqb_eq in E as ->. destruct (IH r) as [-> ?]. split; [done|lia].
Qed.

Lemma slice_tail {A} (l : list A) a b :
  0 <= a → a <= b → b <= Z.of_nat (length l) →
  take (Z.to_nat a) l ++ slice l a b = take (Z.to_nat b) l.
Proof.
  intros. unfold slice. rewrite <-(take_drop (Z.to_nat a) (take (Z.to_nat b) l)) at 1.
  rewrite take_take, skipn_firstn_comm. do 2 f_equal; lia.
Qed.

Lemma try_candidates_rendered s cs t :
  rendered s t → in_step s →
  Forall (λ c, window_start_token s <= c <= Z.of_nat (length (ds_token_ids s))) cs →
  rendered (try_candidates s cs) t ∧ in_step (try_candidates s cs) ∧
  ds_token_ids (try_candidates s cs) = ds_token_ids s.
Proof.
  intros Hr Hin. induction 1 as [|c cs Hc _ IH]; simpl; [done|].
  case_bool_decide as E; [|done]. destruct Hr as [Hw (segs & Hs & Ht & Hch) Hl].
  split; [|done]. split; simpl; [lia| |done].
  exists (segs ++ [slice (ds_token_ids s) (window_start_token s) c]).
  rewrite concat_app, fmap_app, concat_app. simpl. rewrite !app_nil_r.
  split; [|split].
  - rewrite Hs. apply slice_tail; lia.
  - rewrite Ht, <-E. by rewrite app_assoc.
  - rewrite Hch, length_app. lia.
Qed.

Lemma advance_rendered s t :
  1 <= boundary_overlap cfg → 2 <= window_size cfg → rendered s t → in_step s →
  rendered (_advance_frontier s) t ∧ in_step (_advance_frontier s) ∧
  ds_token_ids (_advance_frontier s) = ds_token_ids s.
Proof.
  intros Ho Hw Hr Hin. unfold _advance_frontier. case_match; [done|].
  apply try_candidates_rendered; [done|done|].
  apply Forall_forall. intros c. rewrite elem_of_reverse, elem_of_py_range. lia.
Qed.

(** One [feed]: the update applies to the text on display, and leaves it in
    step unless it withholds an incomplete character. *)
Lemma feed_state_rendered id s t tok :
  1 <= boundary_overlap cfg → 2 <= window_size cfg → rendered s t →
  let s1 := mk_decode_state (ds_token_ids s ++ [tok]) (window_start_token s)
              (window_start_char s) (window_text s) (rendered_length s) in
  let '(u, s') := feed_state id s1 in
  ∃ t', apply u t = Ok t' ∧ rendered s' t' ∧ ds_token_ids s' = ds_token_ids s ++ [tok] ∧
    (t' = t ∨ in_step s').
Proof.
  intros Ho Hw Hr s1.
  assert (rendered s1 t) as Hr1.
  { destruct Hr as [Hb (segs & Hs & Ht & Hch) Hl]. split; simpl; [rewrite length_app; lia| |done].
    exists segs. by rewrite take_app_le by lia. }
  pose proof Hr1 as [Hb (segs & Hs & Ht & Hch) Hl].
  unfold feed_state. destruct (ends_with_replacement _ && _).
  { exists t. split; [|by split_and!; [| |left]].
    unfold apply. cbn [replace_from delete_count insert_text]. rewrite Hl.
    rewrite (proj2 (Z.ltb_ge _ _)), (Z.ltb_irrefl) by lia. simpl.
    rewrite Z.add_0_r, Z.ltb_irrefl. simpl. by rewrite take_drop. }
  set (new := decode (window_of s1)). set (cp := _common_prefix_length _ _).
  destruct (common_prefix_split (window_text s1) new) as [Hsplit Hcp]. fold cp in Hsplit, Hcp.
  set (s2 := mk_decode_state _ _ _ new _).
  assert (rendered s2 (concat (decode <$> segs) ++ new)) as Hr2.
  { split; simpl; [done| |].
    - by exists segs.
    - rewrite length_app. simpl in Hch. lia. }
  destruct (advance_rendered s2 _ Ho Hw Hr2 ltac:(done)) as (Hr3 & Hin & Hids).
  exists (concat (decode <$> segs) ++ new). split; [|split_and!; [done|done|by right]].
  unfold apply. cbn [replace_from delete_count insert_text].
  rewrite Ht, !length_app, Hch.
  rewrite !(proj2 (Z.ltb_ge _ _)) by lia. simpl. f_equal.
  rewrite take_app_ge, drop_app_ge by lia.
  rewrite (drop_ge (window_text s)) by (simpl in *; lia). rewrite app_nil_r, <-app_assoc.
  f_equal. rewrite <-Hsplit at 2. do 2 f_equal. simpl. lia.
Qed.

(** A stream keeps the display described by the state; it can only fail at the
    hard window limit. *)
Lemma stream_rendered id toks : ∀ st t,
  1 <= boundary_overlap cfg → 2 <= window_size cfg →
  rendered (default decode_state_init (st !! id)) t →
  (st !! id = None → t = []) →
  match stream id toks t st with
  | (Ok t', st') =>
      rendered (default decode_state_init (st' !! id)) t' ∧
      ds_token_ids (default decode_state_init (st' !! id)) =
        ds_token_ids (default decode_state_init (st !! id)) ++ toks ∧
      (∀ j, j ≠ id → st' !! j = st !! j) ∧ (toks ≠ [] → is_Some (st' !! id))
  | (Raise e, _) =>
      e = RuntimeError "tokenizer rewrite exceeded the configured boundary overlap"
  end.
Proof.
  induction toks as [|tok toks IH]; intros st t Ho Hw Hr Hn; simpl.
  { rewrite app_nil_r. by split_and!. }
  set (s := default decode_state_init (st !! id)) in *.
  unfold bind at 1. unfold feed. unfold bind at 1 2 3, get, modify at 1. fold s.
  destruct (window_size cfg + 2 * boundary_overlap cfg <=? window_tokens s) eqn:El; simpl; [done|].
  pose proof (feed_state_rendered id s t tok Ho Hw Hr) as Hf. cbv zeta in Hf.
  destruct (feed_state id _) as [u s']. destruct Hf as (t' & Ha & Hr' & Hids & _).
  unfold bind at 1 2, modify, ret. simpl. unfold bind, lift. rewrite Ha.
  set (st1 := <[id := s']> (<[id := s]> st)).
  assert (st1 !! id = Some s') as Hst1 by apply lookup_insert_eq.
  specialize (IH st1 t' Ho Hw). rewrite Hst1 in IH. specialize (IH Hr' ltac:(done)).
  destruct (stream id toks t' st1) as [[t''|e] st2] eqn:Es; [|done].
  destruct IH as (H1 & H2 & H3 & H4). simpl in H2. rewrite Hids, <-app_assoc in H2.
  split_and!; [done|done| |].
  - intros j Hj. rewrite H3 by done. unfold st1. by rewrite !lookup_insert_ne by done.
  - intros _. destruct toks; [|by apply H4]. simpl in Es. unfold ret in Es.
    simplify_eq. by rewrite Hst1.
Qed.

(** C40: final text is exact: for a fresh sequence and ANY tokenizer, applying
    the updates of the stream and of [flush] in order yields the decoding of
    all its tokens, never fails to apply, forgets the sequence and leaves the
    other streams alone; the only exception is the rewrite guard of [feed]. *)
Theorem stream_and_flush_exact id toks st :
  1 <= boundary_overlap cfg → 2 <= window_size cfg → st !! id = None → toks ≠ [] →
  match stream_and_flush id toks st with
  | (Ok t, st') => t = decode toks ∧ st' !! id = None ∧ ∀ j, j ≠ id → st' !! j = st !! j
  | (Raise e, _) =>
      e = RuntimeError "tokenizer rewrite exceeded the configured boundary overlap"
  end.
Proof.
  intros Ho Hw Hst Htoks.
  assert (rendered (default decode_state_init (st !! id)) []) as Hr.
  { rewrite Hst. simpl. split; simpl; [lia| |done]. by exists []. }
  pose proof (stream_rendered id toks st [] Ho Hw Hr ltac:(done)) as Hs.
  unfold stream_and_flush, bind. destruct (stream id toks [] st) as [[t|e] st']; [|done].
  destruct Hs as ([_ _ Hl] & Hids & Hoth & Hsome). destruct (Hsome Htoks) as [s Hs].
  unfold flush, bind, get, modify. rewrite Hs in Hids, Hl |- *. simpl in Hids, Hl.
  unfold ret, lift, apply. cbn [replace_from delete_count insert_text].
  rewrite Hst in Hids. simpl in Hids. rewrite Hl, Hids.
  rewrite !(proj2 (Z.ltb_ge _ _)) by lia. simpl.
  rewrite drop_ge, app_nil_r by lia. split_and!; [done|by apply lookup_delete_eq|].
  intros j Hj. rewrite lookup_delete_ne by done. by apply Hoth.
Qed.

(** *** Progress for splittable tokenizers *)

Definition bounded (s : _DecodeState) : Prop :=
  window_tokens s < window_size cfg + boundary_overlap cfg.

Lemma advance_bounded s :
  (∀ a b, decode (a ++ b) = decode a ++ decode b) →
  1 <= boundary_overlap cfg → 2 <= window_size cfg →
  0 <= window_start_token s → in_step s →
  bounded (_advance_frontier s).
Proof.
  intros Hd Ho Hw H0 Hin. unfold _advance_frontier, bounded.
  destruct (window_tokens s <? _) eqn:El; [lia|]. apply Z.ltb_ge in El.
  unfold window_tokens in *. set (n := Z.of_nat (length (ds_token_ids s))) in *.
  set (target := n - window_size cfg) in *.
  set (lower := Z.max (window_start_token s + 1) (target - boundary_overlap cfg)).
  assert (∃ cs, reverse (py_range lower (target + 1)) = target :: cs) as [cs ->].
  { unfold py_range. replace (Z.to_nat (target + 1 - lower))
      with (S (Z.to_nat (target - lower))) by lia.
    rewrite seq_S, fmap_app, reverse_app. simpl. eexists. f_equal. lia. }
  simpl. rewrite bool_decide_eq_true_2; [simpl; lia|].
  rewrite Hin. unfold window_of. rewrite <-Hd. f_equal. unfold slice.
  rewrite <-(take_drop (Z.to_nat (target - window_start_token s))
    (drop (Z.to_nat (window_start_token s)) (ds_token_ids s))) at 2.
  rewrite drop_drop. do 3 f_equal. lia.
Qed.

(** Bounded progress: for a tokenizer whose decoding splits at every token
    boundary the rewrite guard never fires: a stream of any length is accepted
    and the undecided window always stays below [window_size +
    boundary_overlap] tokens, so every [feed] decodes a bounded slice. *)
Theorem splittable_stream_total id toks st t :
  (∀ a b, decode (a ++ b) = decode a ++ decode b) →
  1 <= boundary_overlap cfg → 2 <= window_size cfg →
  rendered (default decode_state_init (st !! id)) t →
  bounded (default decode_state_init (st !! id)) →
  (st !! id = None → t = []) →
  ∃ t' st', stream id toks t st = (Ok t', st') ∧
    bounded (default decode_state_init (st' !! id)).
Proof.
  intros Hd Ho Hw. revert st t. induction toks as [|tok toks IH]; intros st t Hr Hb Hn.
  { exists t, st. done. }
  simpl. set (s := default decode_state_init (st !! id)) in *.
  unfold bind at 1. unfold feed. unfold bind at 1 2 3, get, modify at 1. fold s.
  unfold bounded in Hb. rewrite (proj2 (Z.leb_gt _ _)) by lia. simpl.
  pose proof (feed_state_rendered id s t tok Ho Hw Hr) as Hf. cbv zeta in Hf.
  set (s1 := mk_decode_state _ _ _ _ _) in *.
  assert (bounded (feed_state id s1).2) as Hb1.
  { unfold feed_state. destruct (ends_with_replacement _ && (window_tokens s1 <? _)) eqn:E; simpl.
    - apply andb_true_iff in E as [_ E]. unfold bounded. lia.
    - apply advance_bounded; try done. simpl. destruct Hr as [? _ _]. lia. }
  destruct (feed_state id s1) as [u s']. simpl in Hb1. destruct Hf as (t' & Ha & Hr' & _).
  unfold bind at 1 2, modify, ret. simpl. unfold bind, lift. rewrite Ha.
  apply IH; rewrite lookup_insert_eq; done.
Qed.
End detokenizer.
