(* ===== verification/TpTransport.v ===== *)
(** * TpTransport: the wire view of a scheduled sequence

    Models src/nanovllm/engine/tp_transport.py: the compact per-sequence record
    sent to tensor-parallel workers and the conversion of a [run] argument. *)
From S2P Require Import Prelude SamplingParams Sequence.

Record ScheduledSequence := mk_ScheduledSequence {
  ss_scheduled_token_ids : list Z;
  ss_is_prefill : bool;
  ss_num_cached_tokens : Z;
  ss_num_scheduled_tokens : Z;
  ss_num_tokens : Z;
  ss_last_token : Z;
  ss_block_table : list nat;
}.

(** [ScheduledSequence.from_sequence]. *)
Definition from_sequence (s : sequence) : outcome ScheduledSequence :=
  let start := num_cached_tokens s in
  let count := num_scheduled_tokens s in
  let stop := start + count in
  oraise_if ((start <? 0) || (count <=? 0) || (num_tokens s <? stop))
    (ValueError "invalid scheduled sequence bounds") ;?
  let scheduled_token_ids := slice (token_ids s) start stop in
  oraise_if (negb (Z.of_nat (length scheduled_token_ids) =? count))
    (ValueError "scheduled token slice does not match sequence accounting") ;?
  Ok (mk_ScheduledSequence scheduled_token_ids (is_prefill s) start count
        (num_tokens s) (last_token s) (block_table s)).

(** [__len__]. *)
Definition ss_len (s : ScheduledSequence) : Z := ss_num_tokens s.

(** An argument tuple of [run]: the batch and the step kind; another arity is
    refused. *)
Inductive run_args :=
  | RunArgs (seqs : list sequence) (step_is_prefill : bool)
  | OtherArity (n : nat).

Definition compact_run_args (args : run_args)
    : outcome (list ScheduledSequence * bool) :=
  match args with
  | OtherArity _ => Raise (ValueError "run expects two arguments")
  | RunArgs seqs p => let? l := omap_all from_sequence seqs in Ok (l, p)
  end.

(** The wire view of a well-formed sequence is complete: it is accepted
    exactly when the scheduled span is a non-empty part of the tokens, and then
    the slice sent carries exactly the scheduled tokens: the token at every
    position of the span is the sequence's own. *)
Theorem from_sequence_exact s :
  seq_wf s →
  let ok := 0 <= num_cached_tokens s ∧ 0 < num_scheduled_tokens s ∧
            num_cached_tokens s + num_scheduled_tokens s <= num_tokens s in
  match from_sequence s with
  | Ok w => ok ∧
      ss_num_cached_tokens w = num_cached_tokens s ∧ ss_len w = num_tokens s ∧
      ss_block_table w = block_table s ∧ ss_is_prefill w = is_prefill s ∧
      Z.of_nat (length (ss_scheduled_token_ids w)) = num_scheduled_tokens s ∧
      ∀ i, 0 <= i < num_scheduled_tokens s →
        ss_scheduled_token_ids w !! Z.to_nat i =
        token_ids s !! Z.to_nat (num_cached_tokens s + i)
  | Raise e => ¬ ok ∧ e = ValueError "invalid scheduled sequence bounds"
  end.
Proof.
  intros [Hl _ _] ok. unfold from_sequence, ok.
  destruct (_ || _) eqn:E; simpl.
  { split; [|done]. intros (? & ? & ?).
    apply orb_true_iff in E as [[?%Z.ltb_lt|?%Z.leb_le]%orb_true_iff|?%Z.ltb_lt]; lia. }
  apply orb_false_iff in E as [[?%Z.ltb_ge ?%Z.leb_gt]%orb_false_iff ?%Z.ltb_ge].
  assert (Z.of_nat (length (slice (token_ids s) (num_cached_tokens s)
    (num_cached_tokens s + num_scheduled_tokens s))) = num_scheduled_tokens s) as Hlen
    by (rewrite length_slice; lia).
  rewrite Hlen, Z.eqb_refl. simpl. split_and!; try done.
  intros i Hi. unfold slice. rewrite lookup_take_lt by lia. rewrite lookup_drop.
  f_equal. lia.
Qed.
