(* ===== verification/RunnerTransport.v ===== *)
(** * RunnerTransport: the shared-memory channel to the workers

    Models [tensor_parallel_shm_size], [write_shm] and [read_shm] of
    src/nanovllm/engine/model_runner.py: rank zero frames one pickled call
    (magic, 32-bit length, payload) in a fixed buffer and sets one event per
    worker; every worker checks the frame and clears its event.  [pickle] is a
    pair of functions; a buffer is a list of byte values. *)
From S2P Require Import Prelude SamplingParams Sequence TpTransport.

(** ** Calls and frames *)

Inductive wire_arg :=
  | ASequences (qs : list sequence)
  | AScheduled (ws : list ScheduledSequence)
  | ABool (b : bool)
  | AOther (n : nat).

(** What a frame can unpickle to: a list that starts with a string, or anything
    else. *)
Inductive tp_payload :=
  | PCall (method_name : string) (args : list wire_arg)
  | POther.

Record shm := mk_shm { buf : list Z; events : list bool }.
Definition set_buf v s := mk_shm v (events s).
Definition set_events v s := mk_shm (buf s) v.

Definition TP_SHM_MAGIC : list Z := [78; 86; 84; 80].   (* b"NVTP" *)
Definition TP_SHM_HEADER_size : Z := 8.
Definition TP_SHM_MIN_SIZE : Z := 64 * 1024.
Definition TP_SHM_MAX_SIZE : Z := 64 * 1024 * 1024.

(** The [I] of struct's ["<4sI"]. *)
Definition le32 (n : Z) : list Z :=
  [n `mod` 256; (n `div` 2 ^ 8) `mod` 256; (n `div` 2 ^ 16) `mod` 256; (n `div` 2 ^ 24) `mod` 256].
Definition un_le32 (l : list Z) : Z :=
  match l with
  | [a; b; c; d] => a + 2 ^ 8 * b + 2 ^ 16 * c + 2 ^ 24 * d
  | _ => 0
  end.

Definition pack_header (magic : list Z) (n : Z) : outcome (list Z) :=
  if (0 <=? n) && (n <? 2 ^ 32) then Ok (magic ++ le32 n) else Raise StructError.
Definition unpack_header (l : list Z) : list Z * Z := (take 4 l, un_le32 (drop 4 l)).

(** [buf[a:a+len(data)] = data] inside the buffer. *)
Definition blit (a : nat) (data l : list Z) : list Z := take a l ++ data ++ drop (a + length data) l.

(** ** The buffer size *)

(** The configuration values the bound uses. *)
Record shm_config := mk_shm_config {
  sh_max_model_len : Z;
  sh_kvcache_block_size : Z;
  sh_max_num_batched_tokens : Z;
  sh_max_num_seqs : Z;
}.

Definition tensor_parallel_shm_size (config : shm_config) : outcome Z :=
  if sh_kvcache_block_size config =? 0 then Raise ZeroDivisionError else
  let max_blocks_per_seq :=
    (sh_max_model_len config + sh_kvcache_block_size config - 1) `div` sh_kvcache_block_size config in
  let variable_ints :=
    sh_max_num_batched_tokens config + sh_max_num_seqs config * max_blocks_per_seq in
  let estimated := TP_SHM_HEADER_size + 64 * 1024 + 16 * variable_ints + 256 * sh_max_num_seqs config in
  let size := Z.max TP_SHM_MIN_SIZE ((estimated + 4095) `div` 4096 * 4096) in
  oraise_if (TP_SHM_MAX_SIZE <? size) (ValueError "tensor-parallel transport requires too many bytes") ;?
  Ok size.

(** ** The channel *)

Abbreviation MSH := (M shm).

Section channel.
Context (dumps : tp_payload → list Z) (loads : list Z → option tp_payload).

(** [compact_run_args(args) if method_name == "run" else args]. *)
Definition worker_args (method_name : string) (args : list wire_arg) : outcome (list wire_arg) :=
  if negb (bool_decide (method_name = "run"%string)) then Ok args else
  match args with
  | [ASequences qs; ABool p] =>
      let? (ws, p') := compact_run_args (RunArgs qs p) in Ok [AScheduled ws; ABool p']
  | [_; _] => Raise (TypeError "the batch of a run call is a list of sequences")
  | _ => let? _ := compact_run_args (OtherArity (length args)) in Ok args
  end.

Definition write_shm (method_name : string) (args : list wire_arg) : MSH unit :=
  let* args' := lift (worker_args method_name args) in
  let data := dumps (PCall method_name args') in
  let n := Z.of_nat (length data) in
  let* s := get in
  let capacity := Z.of_nat (length (buf s)) - TP_SHM_HEADER_size in
  raise_if ((n =? 0) || (capacity <? n))
    (TensorParallelTransportError "tensor-parallel payload exceeds shared-memory capacity") ;;;
  let* header := lift (pack_header TP_SHM_MAGIC n) in
  modify (λ s, set_buf (blit 0 header (buf s)) s) ;;;
  modify (λ s, set_buf (blit (Z.to_nat TP_SHM_HEADER_size) data (buf s)) s) ;;;
  modify (λ s, set_events (replicate (length (events s)) true) s).

(** The checks on a frame. *)
Definition read_frame (b : list Z) : outcome (string * list wire_arg) :=
  let buffer_size := Z.of_nat (length b) in
  oraise_if (buffer_size <? TP_SHM_HEADER_size)
    (TensorParallelTransportError "tensor-parallel shared-memory buffer is smaller than its header") ;?
  let (magic, n) := unpack_header (take (Z.to_nat TP_SHM_HEADER_size) b) in
  let capacity := buffer_size - TP_SHM_HEADER_size in
  oraise_if (negb (bool_decide (magic = TP_SHM_MAGIC)))
    (TensorParallelTransportError "invalid tensor-parallel shared-memory header") ;?
  oraise_if ((n =? 0) || (capacity <? n))
    (TensorParallelTransportError "invalid tensor-parallel payload length") ;?
  match loads (slice b TP_SHM_HEADER_size (TP_SHM_HEADER_size + n)) with
  | None => Raise (TensorParallelTransportError "could not deserialize tensor-parallel payload")
  | Some POther => Raise (TensorParallelTransportError "invalid tensor-parallel call payload")
  | Some (PCall m args) => Ok (m, args)
  end.

(** [read_shm] of worker [w] once its event is set; the event is cleared whatever
    the checks say. *)
Definition read_shm (w : nat) : MSH (string * list wire_arg) :=
  try_finally (inspect (λ s, read_frame (buf s))) (λ s, set_events (<[w := false]> (events s)) s).

(** [event.wait()] only lets a worker with a set event read. *)
Definition worker_reads (w : nat) (s : shm) (o : outcome (string * list wire_arg)) (s' : shm) : Prop :=
  events s !! w = Some true ∧ read_shm w s = (o, s').

(** The workers [ws] read one after the other. *)
Inductive all_read : list nat → shm → list (outcome (string * list wire_arg)) → shm → Prop :=
  | all_read_nil s : all_read [] s [] s
  | all_read_cons w ws s o s1 os s2 :
      worker_reads w s o s1 → all_read ws s1 os s2 → all_read (w :: ws) s (o :: os) s2.

(** ** Properties *)

Lemma un_le32_le32 n : 0 <= n < 2 ^ 32 → un_le32 (le32 n) = n.
Proof.
  intros Hn. unfold un_le32, le32. change (2 ^ 8) with 256. change (2 ^ 16) with (256 * 256).
  change (2 ^ 24) with (256 * 256 * 256). rewrite <-!Z.div_div by lia.
  pose proof (Z.div_mod n 256 ltac:(lia)).
  pose proof (Z.div_mod (n `div` 256) 256 ltac:(lia)).
  pose proof (Z.div_mod ((n `div` 256) `div` 256) 256 ltac:(lia)).
  assert (0 <= ((n `div` 256) `div` 256) `div` 256 < 256).
  { rewrite !Z.div_div by lia. split; [apply Z.div_pos; lia|].
    apply Z.div_lt_upper_bound; lia. }
  rewrite (Z.mod_small (((n `div` 256) `div` 256) `div` 256)) by lia. lia.
Qed.

Lemma length_blit a data l :
  (a + length data <= length l)%nat → length (blit a data l) = length l.
Proof. intros. unfold blit. rewrite !length_app, length_take, length_drop. lia. Qed.

(** A frame just written is the one read. *)
Lemma frame_read p m args b :
  loads (dumps p) = Some p → p = PCall m args →
  0 < Z.of_nat (length (dumps p)) <= Z.of_nat (length b) - TP_SHM_HEADER_size →
  Z.of_nat (length (dumps p)) < 2 ^ 32 →
  ∀ header, pack_header TP_SHM_MAGIC (Z.of_nat (length (dumps p))) = Ok header →
  read_frame (blit 8 (dumps p) (blit 0 header b)) = Ok (m, args).
Proof.
  intros Hp -> Hn H32 header Eh. unfold pack_header in Eh.
  rewrite (proj2 (Z.leb_le _ _)), (proj2 (Z.ltb_lt _ _)) in Eh by lia.
  assert (header = TP_SHM_MAGIC ++ le32 (Z.of_nat (length (dumps (PCall m args))))) as ->
    by (cbn [andb] in Eh; cbv iota in Eh; congruence).
  set (data := dumps (PCall m args)) in *. unfold TP_SHM_HEADER_size in *.
  set (h := TP_SHM_MAGIC ++ le32 (Z.of_nat (length data))).
  assert (blit 8 data (blit 0 h b) = h ++ data ++ drop (8 + length data) b) as ->.
  { unfold blit. rewrite take_0, app_nil_l. simpl (0 + length h)%nat.
    change (length h) with 8%nat. rewrite (take_app_length' h) by done.
    do 2 f_equal. rewrite drop_app_ge by (simpl; lia). rewrite drop_drop. f_equal. simpl. lia. }
  unfold read_frame, TP_SHM_HEADER_size. rewrite !length_app, length_drop.
  change (length h) with 8%nat. rewrite (proj2 (Z.ltb_ge _ 8)) by lia. cbn [oraise_if obind].
  rewrite (take_app_length' h) by done. unfold unpack_header.
  change (take 4 h) with TP_SHM_MAGIC.
  change (drop 4 h) with (le32 (Z.of_nat (length data))). rewrite un_le32_le32 by lia.
  rewrite bool_decide_eq_true_2 by done. cbn [negb oraise_if obind].
  rewrite (proj2 (Z.eqb_neq _ 0)), (proj2 (Z.ltb_ge _ _)) by lia. cbn [orb oraise_if obind].
  assert (slice (h ++ data ++ drop (8 + length data) b) 8 (8 + Z.of_nat (length data)) = data) as ->.
  { unfold slice. rewrite drop_app_length' by done. rewrite take_app_length' by lia. done. }
  by rewrite Hp.
Qed.

(** What [write_shm] does, on both branches. *)
Lemma write_run m args args' s :
  worker_args m args = Ok args' →
  let n := Z.of_nat (length (dumps (PCall m args'))) in
  n < 2 ^ 32 →
  if (n =? 0) || (Z.of_nat (length (buf s)) - TP_SHM_HEADER_size <? n)
  then ∃ e, write_shm m args s = (Raise e, s)
  else ∃ header, pack_header TP_SHM_MAGIC n = Ok header ∧
    write_shm m args s = (Ok tt, mk_shm
      (blit 8 (dumps (PCall m args')) (blit 0 header (buf s))) (replicate (length (events s)) true)).
Proof.
  intros Ea n Hn. unfold write_shm, bind, lift. rewrite Ea. cbn. fold n. unfold raise_if.
  destruct (_ || _) eqn:E; [by eexists|]. cbn.
  assert (pack_header TP_SHM_MAGIC n = Ok (TP_SHM_MAGIC ++ le32 n)) as ->.
  { unfold pack_header. rewrite (proj2 (Z.leb_le _ _)), (proj2 (Z.ltb_lt _ _)) by lia. done. }
  by eexists.
Qed.

Lemma reads_run ws s b m args os s' :
  NoDup ws → (∀ w, w ∈ ws → events s !! w = Some true) → buf s = b →
  read_frame b = Ok (m, args) → all_read ws s os s' →
  os = replicate (length ws) (Ok (m, args)) ∧ buf s' = b ∧
  ∀ w, events s' !! w = if decide (w ∈ ws) then (λ _, false) <$> events s !! w else events s !! w.
Proof.
  intros Hnd Hev Hb Hr Hall. revert Hnd Hev Hb.
  induction Hall as [s|w ws s o s1 os s2 [Hw E] _ IH]; intros Hnd Hev Hb.
  { split_and!; try done. }
  apply NoDup_cons in Hnd as [Hn Hnd].
  assert (o = Ok (m, args) ∧ s1 = mk_shm b (<[w := false]> (events s))) as [-> ->].
  { unfold read_shm, try_finally, inspect in E. rewrite Hb, Hr in E. injection E as <- <-.
    unfold set_events. by rewrite Hb. }
  destruct IH as (-> & Hb' & He); [done| |done|].
  { intros w' Hw'. simpl. rewrite list_lookup_insert_ne by (intros ->; done). apply Hev. by right. }
  split; [done|]. split; [done|]. intros w'. rewrite He. simpl.
  destruct (decide (w' = w)) as [->|Hne].
  - rewrite decide_False by done. rewrite decide_True by left. rewrite list_lookup_insert_eq; [|by eapply lookup_lt_Some].
    by rewrite Hw.
  - rewrite list_lookup_insert_ne by done. destruct (decide (w' ∈ ws)).
    + by rewrite decide_True by (by right).
    + rewrite decide_False; [done|]. by intros [?|?]%elem_of_cons.
Qed.

End channel.

(** The shared-memory buffer is sized within bounds: the size is a whole
    number of pages between 64 KiB and 64 MiB that covers the header, the framing
    slack and the estimate of the configured work, or the configuration is
    refused, exactly when that estimate rounds above 64 MiB. *)
Theorem tensor_parallel_shm_size_spec config :
  0 < sh_kvcache_block_size config →
  let estimated := TP_SHM_HEADER_size + 64 * 1024 + 16 * (sh_max_num_batched_tokens config +
      sh_max_num_seqs config * ceil_div (sh_max_model_len config) (sh_kvcache_block_size config))
    + 256 * sh_max_num_seqs config in
  match tensor_parallel_shm_size config with
  | Ok size => TP_SHM_MIN_SIZE <= size <= TP_SHM_MAX_SIZE ∧ estimated <= size ∧
      (∃ pages, size = pages * 4096) ∧ (TP_SHM_MIN_SIZE < size → size < estimated + 4096)
  | Raise e => TP_SHM_MAX_SIZE < estimated
  end.
Proof.
  intros Hbs estimated. unfold tensor_parallel_shm_size. rewrite (proj2 (Z.eqb_neq _ 0)) by lia.
  cbv zeta. fold (ceil_div (sh_max_model_len config) (sh_kvcache_block_size config)). fold estimated.
  replace (estimated + 4095) with (estimated + 4096 - 1) by lia. fold (ceil_div estimated 4096).
  pose proof (ceil_div_spec estimated 4096 ltac:(lia)) as Hc. unfold TP_SHM_MIN_SIZE, TP_SHM_MAX_SIZE.
  set (size := Z.max _ _).
  destruct (Z.ltb_spec (64 * 1024 * 1024) size); simpl.
  - assert (16384 < ceil_div estimated 4096) by lia. lia.
  - split; [lia|]. split; [lia|]. split; [|lia].
    destruct (Z.le_gt_cases (64 * 1024) (ceil_div estimated 4096 * 4096)).
    + exists (ceil_div estimated 4096). lia.
    + exists 16. lia.
Qed.
