(* ===== verification/RunnerInput.v ===== *)
(** * RunnerInput: the model inputs of a scheduled batch

    Models the input preparation of src/nanovllm/engine/model_runner.py and
    src/nanovllm/utils/context.py: for a batch of rows it computes the token
    ids, positions, sequence boundaries, the physical KV slot every new token
    is written to and the block tables attention reads.  The rows of rank zero
    are [Sequence] objects, those of a worker the wire records of TpTransport;
    both enter through the interface [BatchRow].  Host lists stand for the
    tensors built from them; the kernels that consume them are not modelled. *)
From Stdlib Require Import QArith.
From stdpp Require Import sorting.
From S2P Require Import Prelude SamplingParams Sequence SpecMemory SpecRoutes TpTransport.
#[local] Open Scope Z_scope.

(** ** Rows *)

(** What input preparation reads of a row.  [row_input] is the slice a prefill
    row contributes: [scheduled_token_ids] of a wire record, [seq[start:end]]
    of a sequence. *)
Class BatchRow (A : Type) := {
  row_cached : A → Z;
  row_scheduled : A → Z;
  row_total : A → Z;
  row_prefill : A → bool;
  row_last : A → Z;
  row_table : A → list nat;
  row_input : A → list Z;
}.

#[export] Instance sequence_row : BatchRow sequence := {
  row_cached := num_cached_tokens;
  row_scheduled := num_scheduled_tokens;
  row_total := num_tokens;
  row_prefill := is_prefill;
  row_last := last_token;
  row_table := block_table;
  row_input q := slice (token_ids q) (num_cached_tokens q)
                   (num_cached_tokens q + num_scheduled_tokens q);
}.

#[export] Instance scheduled_row : BatchRow ScheduledSequence := {
  row_cached := ss_num_cached_tokens;
  row_scheduled := ss_num_scheduled_tokens;
  row_total := ss_num_tokens;
  row_prefill := ss_is_prefill;
  row_last := ss_last_token;
  row_table := ss_block_table;
  row_input := ss_scheduled_token_ids;
}.

(** ** The attention context *)

Record Context := mk_context {
  cx_is_prefill : bool;
  cu_seqlens_q : option (list Z);
  cu_seqlens_k : option (list Z);
  max_seqlen_q : Z;
  max_seqlen_k : Z;
  slot_mapping : option (list Z);
  context_lens : option (list Z);
  block_tables : option (list (list Z));
  query_sequence_ids : option (list Z);
  query_context_lengths : option (list Z);
  emission_query_indices : option (list Z);
}.

Definition empty_context : Context :=
  mk_context false None None 0 0 None None None None None None.

(** The model call a preparation sets up: its arguments and the context. *)
Record model_call := mk_call {
  input_ids : list Z;
  positions : list Z;
  call_context : Context;
}.

(** [table[i]], from the end when [i] is negative. *)
Definition table_at (table : list nat) (i : Z) : outcome Z :=
  let j := if i <? 0 then i + Z.of_nat (length table) else i in
  if j <? 0 then Raise IndexError else
  match table !! Z.to_nat j with
  | Some b => Ok (Z.of_nat b)
  | None => Raise IndexError
  end.

Section prepare.
Context {row : Type} `{!BatchRow row}.
Variable block_size : Z.

Definition prepare_block_tables (seqs : list row) : outcome (list (list Z)) :=
  match (λ q, length (row_table q)) <$> seqs with
  | [] => Raise (ValueError "max() arg is an empty sequence")
  | n :: ns =>
      let max_len := foldl Nat.max n ns in
      Ok ((λ q, (Z.of_nat <$> row_table q)
                ++ replicate (max_len - length (row_table q)) (-1)) <$> seqs)
  end.

(** ** Ragged batches *)

(** The slots of block [i] of a row that covers [[start, stop)]. *)
Definition block_slots (table : list nat) (start stop i : Z) : outcome (list Z) :=
  let start_block := start `div` block_size in
  let end_block := (stop + block_size - 1) `div` block_size in
  let? b := table_at table i in
  let slot_start := b * block_size in
  let slot_start := if i =? start_block then slot_start + start `mod` block_size
                    else slot_start in
  let slot_end := if negb (i =? end_block - 1) then b * block_size + block_size
                  else b * block_size + stop - i * block_size in
  Ok (py_range slot_start slot_end).

Definition row_slots (table : list nat) (start stop : Z) : outcome (list Z) :=
  let? l := omap_all (block_slots table start stop)
              (py_range (start `div` block_size) ((stop + block_size - 1) `div` block_size)) in
  Ok (concat l).

(** The local lists of [prepare_ragged]. *)
Record ragged := mk_ragged {
  rg_input_ids : list Z;
  rg_positions : list Z;
  rg_query_sequence_ids : list Z;
  rg_query_context_lengths : list Z;
  rg_emission : list Z;
  rg_cu_q : list Z;
  rg_cu_k : list Z;
  rg_max_q : Z;
  rg_max_k : Z;
  rg_slots : list Z;
}.

Definition ragged_empty : ragged := mk_ragged [] [] [] [] [] [0] [0] 0 0 [].

(** One iteration of the loop over the rows.  [cu[-1]] of the two boundary
    lists, which start with 0. *)
Definition ragged_row (g : ragged) (iq : Z * row) : outcome ragged :=
  let '(index, q) := iq in
  let start := row_cached q in
  let seqlen_q := row_scheduled q in
  let stop := start + seqlen_q in
  let ids := if row_prefill q then row_input q else [row_last q] in
  let q_end := default 0 (last (rg_cu_q g)) + seqlen_q in
  let k_end := default 0 (last (rg_cu_k g)) + stop in
  let? slots := match row_table q with
                | [] => Ok []
                | _ => row_slots (row_table q) start stop
                end in
  Ok (mk_ragged (rg_input_ids g ++ ids) (rg_positions g ++ py_range start stop)
        (rg_query_sequence_ids g ++ replicate (Z.to_nat seqlen_q) index)
        (rg_query_context_lengths g ++ py_range (start + 1) (stop + 1))
        (if stop =? row_total q then rg_emission g ++ [q_end - 1] else rg_emission g)
        (rg_cu_q g ++ [q_end]) (rg_cu_k g ++ [k_end])
        (Z.max seqlen_q (rg_max_q g)) (Z.max stop (rg_max_k g))
        (rg_slots g ++ slots)).

Definition enumerate {A} (l : list A) : list (Z * A) :=
  zip (py_range 0 (Z.of_nat (length l))) l.

Definition prepare_ragged (seqs : list row) : outcome model_call :=
  let? g := ofold ragged_row (enumerate seqs) ragged_empty in
  let? tables :=
    match seqs with
    | [] => Raise IndexError
    | q :: _ => match row_table q with
                | [] => Ok None
                | _ => let? t := prepare_block_tables seqs in Ok (Some t)
                end
    end in
  Ok (mk_call (rg_input_ids g) (rg_positions g)
        (mk_context true (Some (rg_cu_q g)) (Some (rg_cu_k g)) (rg_max_q g) (rg_max_k g)
           (Some (rg_slots g)) None tables (Some (rg_query_sequence_ids g))
           (Some (rg_query_context_lengths g)) (Some (rg_emission g)))).

(** ** Decode batches *)

(** The slot of the last token of a row. *)
Definition decode_slot (q : row) : outcome Z :=
  let last_block_num_tokens :=
    row_total q - (Z.of_nat (length (row_table q)) - 1) * block_size in
  let? b := table_at (row_table q) (-1) in
  Ok (b * block_size + last_block_num_tokens - 1).

Definition prepare_decode (seqs : list row) : outcome model_call :=
  let? slots := omap_all decode_slot seqs in
  let? tables := prepare_block_tables seqs in
  Ok (mk_call (row_last <$> seqs) ((λ q, row_total q - 1) <$> seqs)
        (mk_context false None None 0 0 (Some slots) (Some (row_total <$> seqs)) (Some tables)
           (Some (py_range 0 (Z.of_nat (length seqs)))) (Some (row_total <$> seqs)) None)).

(** The preparation [run] chooses. *)
Definition prepare_inputs (is_prefill : bool) (seqs : list row) : outcome model_call :=
  if is_prefill then prepare_ragged seqs else prepare_decode seqs.
End prepare.

(** ** Sampling metadata *)

(** The rows that filter with [top_k], grouped by its effective value. *)
Definition top_k_rows (vocab_size : Z) (qs : list (Z * sampling)) : gmap Z (list Z) :=
  foldl (λ m iq, let '(i, p) := iq in
    if Qeq_bool (sp_temperature p) 0 || (sp_top_k p =? -1) then m else
    let effective_top_k := Z.min (sp_top_k p) vocab_size in
    if effective_top_k =? vocab_size then m else
    <[effective_top_k := default [] (m !! effective_top_k) ++ [i]]> m) ∅ qs.

(** [None] stands for the whole batch. *)
Definition rows_or_all {A} (n : nat) (rows : list A) : option (list A) :=
  if (length rows =? n)%nat then None else Some rows.

Definition top_p_plan_of (qs : list (Z * sampling)) : option (option (list Z) * list Q) :=
  let active := filter (λ iq : Z * sampling, negb (Qeq_bool (sp_temperature iq.2) 0)
                                   && negb (Qeq_bool (sp_top_p iq.2) 1) = true) qs in
  match active with
  | [] => None
  | _ => Some (rows_or_all (length qs) active.*1, sp_top_p <$> active.*2)
  end.

Definition sample_metadata (ps : list sampling) (vocab_size : Z)
    : list Q * list (Z * option (list Z)) * option (option (list Z) * list Q) * bool :=
  let temperatures := sp_temperature <$> ps in
  if forallb (λ t, Qeq_bool t 0) temperatures then (temperatures, [], None, true) else
  let rows := top_k_rows vocab_size (enumerate ps) in
  let buckets := (λ k, (k, rows_or_all (length ps) (default [] (rows !! k))))
                   <$> merge_sort Z.le (elements (dom rows)) in
  (temperatures, buckets, top_p_plan_of (enumerate ps), false).

Definition _prepare_sample_metadata (seqs : list sequence) (vocab_size : Z) :=
  sample_metadata (params <$> seqs) vocab_size.

(** The full-batch vector of cut-offs: the listed rows, 1 elsewhere.  A row
    index is taken from the end when negative and raises out of range. *)
Definition _expand_top_ps (batch_size : Z) (top_p_plan : option (list Z) * list Q)
    : outcome (list Q) :=
  let '(rows, active_top_ps) := top_p_plan in
  match rows with
  | None =>
      oraise_if (negb (Z.of_nat (length active_top_ps) =? batch_size))
        (ValueError "homogeneous top-p metadata must cover the batch") ;?
      Ok active_top_ps
  | Some rows =>
      oraise_if (negb (length rows =? length active_top_ps)%nat)
        (ValueError "top-p rows and values must have the same length") ;?
      ofold (λ top_ps '(r, p),
        let j := if r <? 0 then r + Z.of_nat (length top_ps) else r in
        if (j <? 0) || (Z.of_nat (length top_ps) <=? j) then Raise IndexError
        else Ok (<[Z.to_nat j := p]> top_ps))
        (zip rows active_top_ps) (replicate (Z.to_nat batch_size) 1%Q)
  end.
