(* ===== verification/RunnerGraph.v ===== *)
(** * RunnerGraph: replaying captured graphs on padded buffers

    Models the selection and filling of captured graphs in
    src/nanovllm/engine/model_runner.py: the keys captured for ragged steps, the
    legal dummy layout of a capture, the choice of the smallest graph that holds
    a step and the copy of a live step into its persistent buffers.  A buffer is
    the list of its values; slice assignment replaces a prefix. *)
From S2P Require Import Prelude SamplingParams Sequence SpecMemory SpecRoutes TpTransport RunnerInput.

(** ** Ragged graph keys *)

(** A key is [(token bucket, slot tier)]; tuples are ordered lexicographically. *)
Definition graph_key : Type := Z * Z.

Definition key_lt (a b : graph_key) : bool :=
  (a.1 <? b.1) || ((a.1 =? b.1) && (a.2 <? b.2)).

(** [min(keys, default=None)]: the first of the least ones. *)
Definition min_key (l : list graph_key) : option graph_key :=
  match l with
  | [] => None
  | k :: l => Some (foldl (λ best x, if key_lt x best then x else best) k l)
  end.

Definition _select_varlen_graph_key (varlen_graphs : list graph_key) (num_tokens num_seqs : Z)
    : option graph_key :=
  if (num_tokens <=? 0) || (num_seqs <=? 0) then None else
  min_key (filter (λ k : graph_key, num_tokens <= k.1 ∧ num_seqs <= k.2) varlen_graphs).

Definition _varlen_capture_boundaries (num_tokens num_slots max_model_len : Z) : option (list Z) :=
  if (num_tokens <=? 0) || (num_slots <=? 0) || (max_model_len <=? 0) then None else
  let num_nonempty := (num_tokens + max_model_len - 1) `div` max_model_len in
  if num_slots <? num_nonempty then None else
  Some ([0] ++ ((λ index, Z.min ((index + 1) * max_model_len) num_tokens) <$> py_range 0 num_nonempty)
        ++ replicate (Z.to_nat (num_slots - num_nonempty)) num_tokens).

(** The token buckets and slot tiers of [capture_varlen_graphs]. *)
Definition varlen_ts (max_num_batched_tokens : Z) : list Z :=
  filter (λ t, t <= max_num_batched_tokens) [128; 256; 512; 1024; 2048].

Definition varlen_slots (max_num_seqs : Z) : list Z :=
  let S1 := max_num_seqs + 1 in sorted_int_set [Z.min 64 S1; S1].

(** The keys in capture order. *)
Definition captured_varlen_keys (max_num_batched_tokens max_num_seqs max_model_len : Z)
    : list graph_key :=
  t ← reverse (varlen_ts max_num_batched_tokens);
  sl ← reverse (varlen_slots max_num_seqs);
  match _varlen_capture_boundaries t sl max_model_len with
  | None => []
  | Some _ => [(t, sl)]
  end.

(** ** The persistent buffers *)

Record varlen_vars := mk_varlen_vars {
  vv_input_ids : list Z;
  vv_positions : list Z;
  vv_cu_q : list Z;
  vv_cu_k : list Z;
  vv_slot_mapping : list Z;
  vv_block_tables : list (list Z);
}.

(** [buf[:len(src)] = src] for a source no longer than the buffer. *)
Definition set_prefix {A} (src buf : list A) : list A := src ++ drop (length src) buf.

(** [buf[:n] = src; buf[n:] = src[-1]]. *)
Definition set_prefix_hold (src buf : list Z) : list Z :=
  src ++ replicate (length buf - length src) (default 0 (last src)).

(** Whether live ragged metadata fits the capture buffers. *)
Definition _varlen_context_fits_graph (buffers : option varlen_vars) (max_model_len : Z)
    (num_tokens num_seqs : Z) (ctx : Context) (key : graph_key) : bool :=
  match buffers, slot_mapping ctx, cu_seqlens_k ctx, block_tables ctx with
  | Some v, Some slots, Some cu_k, Some tables =>
      (Z.of_nat (length slots) =? num_tokens)
      && (Z.of_nat (length cu_k) =? num_seqs + 1)
      && (max_seqlen_q ctx <=? Z.min key.1 max_model_len)
      && (max_seqlen_k ctx <=? max_model_len)
      && (num_seqs <=? Z.of_nat (length tables))
      && (length (default [] (head tables)) <=? length (default [] (head (vv_block_tables v))))%nat
  | _, _, _, _ => false
  end.

Definition _fill_varlen (v : varlen_vars) (c : model_call) (key : graph_key) : outcome varlen_vars :=
  let ctx := call_context c in
  let cu_q := default [] (cu_seqlens_q ctx) in
  let cu_k := default [] (cu_seqlens_k ctx) in
  let tables := default [] (block_tables ctx) in
  let t := Z.of_nat (length (input_ids c)) in
  let ns := Z.of_nat (length cu_q) - 1 in
  oraise_if ((key.1 <? t) || (key.2 <? ns)) (ValueError "ragged step exceeds graph capacity") ;?
  let blank := (λ r : list Z, replicate (length r) (-1)) <$> vv_block_tables v in
  Ok (mk_varlen_vars
        (set_prefix (input_ids c) (vv_input_ids v))
        (set_prefix (positions c) (vv_positions v))
        (set_prefix_hold cu_q (vv_cu_q v))
        (set_prefix_hold cu_k (vv_cu_k v))
        (set_prefix (default [] (slot_mapping ctx)) (replicate (length (vv_slot_mapping v)) (-1)))
        (zip_with set_prefix tables blank ++ drop (length tables) blank)).

(** The graph a ragged step replays: the smallest that holds it, if its metadata
    fits.  [None] runs the step eagerly. *)
Definition ragged_graph (varlen_graphs : list graph_key) (buffers : option varlen_vars)
    (max_model_len : Z) (c : model_call) : option graph_key :=
  let ctx := call_context c in
  let t := Z.of_nat (length (input_ids c)) in
  let ns := Z.of_nat (length (default [] (cu_seqlens_q ctx))) - 1 in
  match block_tables ctx with
  | None => None
  | Some _ =>
      match _select_varlen_graph_key varlen_graphs t ns with
      | None => None
      | Some key =>
          if _varlen_context_fits_graph buffers max_model_len t ns ctx key then Some key else None
      end
  end.

(** ** Decode graphs *)

Definition MAX_DECODE_GRAPH : Z := MAX_CUDA_GRAPH_BATCH_SIZE.

(** The captured batch size a decode step replays, if any. *)
Definition decode_graph (enforce_eager : bool) (graph_bs graphs : list Z) (bs : Z) : option Z :=
  if enforce_eager || (MAX_DECODE_GRAPH <? bs) then None
  else head (filter (λ x, bs <= x ∧ x ∈ graphs) graph_bs).

(** ** Selection *)

Lemma key_lt_le a b : key_lt a b = false ↔ b.1 < a.1 ∨ (b.1 = a.1 ∧ b.2 <= a.2).
Proof.
  unfold key_lt. rewrite orb_false_iff, andb_false_iff, !Z.ltb_ge, Z.eqb_neq. lia.
Qed.

Lemma min_key_spec l :
  match min_key l with
  | None => l = []
  | Some k => k ∈ l ∧ ∀ x, x ∈ l → key_lt x k = false
  end.
Proof.
  destruct l as [|k l]; [done|]. simpl.
  assert (∀ k, let m := foldl (λ best x, if key_lt x best then x else best) k l in
    m ∈ k :: l ∧ ∀ x, x ∈ k :: l → key_lt x m = false) as H; [|apply H].
  clear. induction l as [|y l IH]; intros k; simpl.
  { split; [left|]. intros x ->%list_elem_of_singleton. apply key_lt_le. lia. }
  destruct (IH (if key_lt y k then y else k)) as [H1 H2]. split.
  - destruct (key_lt y k); set_solver.
  - intros x Hx. set (m := foldl _ _ _) in *.
    assert (key_lt x (if key_lt y k then y else k) = false ∨ x ∈ (if key_lt y k then y else k) :: l) as [Hlt|Hin].
    { apply elem_of_cons in Hx as [->|[->|Hx]%elem_of_cons].
      - destruct (key_lt y k) eqn:E; [|right; by left]. left. unfold key_lt in E.
        rewrite orb_true_iff, andb_true_iff, !Z.ltb_lt, Z.eqb_eq in E. apply key_lt_le. lia.
      - destruct (key_lt y k) eqn:E; [right; by left|]. by left.
      - right. by right. }
    + pose proof (H2 _ ltac:(by left)) as Hm. apply key_lt_le in Hm, Hlt. apply key_lt_le. lia.
    + by apply H2.
Qed.

Lemma select_run graphs t ns :
  match _select_varlen_graph_key graphs t ns with
  | Some k => 0 < t ∧ 0 < ns ∧ k ∈ graphs ∧ t <= k.1 ∧ ns <= k.2 ∧
      ∀ k', k' ∈ graphs → t <= k'.1 → ns <= k'.2 → key_lt k' k = false
  | None => 0 < t → 0 < ns → ∀ k, k ∈ graphs → k.1 < t ∨ k.2 < ns
  end.
Proof.
  unfold _select_varlen_graph_key. destruct (_ || _) eqn:E.
  { apply orb_true_iff in E as [?%Z.leb_le|?%Z.leb_le]; lia. }
  apply orb_false_iff in E as [?%Z.leb_gt ?%Z.leb_gt].
  pose proof (min_key_spec (filter (λ k : graph_key, t <= k.1 ∧ ns <= k.2) graphs)) as H'.
  destruct (min_key _) as [k|].
  - destruct H' as [[[??] Hk]%list_elem_of_filter Hmin]. split_and!; try done.
    intros k' Hk' ??. apply Hmin, list_elem_of_filter. done.
  - intros _ _ k Hk. destruct (decide (t <= k.1 ∧ ns <= k.2)) as [Hd|]; [|lia].
    assert (k ∈ filter (λ k : graph_key, t <= k.1 ∧ ns <= k.2) graphs) as Hin
      by (by apply list_elem_of_filter).
    rewrite H' in Hin. by apply elem_of_nil in Hin.
Qed.

(** ** Capture layouts *)

(** A boundary list of [slots] segments over [n] tokens, each at most [m] long. *)
Record layout_ok (n slots m : Z) (b : list Z) : Prop := {
  ly_length : Z.of_nat (length b) = slots + 1;
  ly_first : head b = Some 0;
  ly_last : last b = Some n;
  ly_steps : ∀ i x y, b !! i = Some x → b !! S i = Some y → 0 <= y - x <= m;
}.

Lemma boundaries_run n slots m :
  match _varlen_capture_boundaries n slots m with
  | Some b => layout_ok n slots m b
  | None => n <= 0 ∨ slots <= 0 ∨ m <= 0 ∨ slots * m < n
  end.
Proof.
  unfold _varlen_capture_boundaries. destruct (_ || _) eqn:E.
  { rewrite !orb_true_iff, !Z.leb_le in E. lia. }
  rewrite !orb_false_iff, !Z.leb_gt in E. destruct E as [[Hn Hs] Hm].
  fold (ceil_div n m). pose proof (ceil_div_spec n m Hm) as Hc.
  assert (0 < ceil_div n m) as Hp by nia. set (c := ceil_div n m) in *.
  destruct (Z.ltb_spec slots c); [right; right; right; nia|].
  set (f := λ index, Z.min ((index + 1) * m) n).
  assert (length (f <$> py_range 0 c) = Z.to_nat c) as Hf
    by (rewrite length_fmap, length_py_range; f_equal; lia).
  assert (∀ i, (i <= Z.to_nat slots)%nat →
    ([0] ++ (f <$> py_range 0 c) ++ replicate (Z.to_nat (slots - c)) n) !! i =
      Some (Z.min (Z.of_nat i * m) n)) as Hlk.
  { intros [|i] Hi; [simpl; f_equal; lia|]. rewrite lookup_app_r by (simpl; lia).
    replace (S i - length [0%Z])%nat with i by (simpl; lia).
    destruct (decide (i < Z.to_nat c)%nat).
    - rewrite lookup_app_l by (rewrite Hf; lia).
      rewrite list_lookup_fmap. unfold py_range. rewrite list_lookup_fmap, lookup_seq_lt by lia.
      simpl. unfold f. do 2 f_equal. lia.
    - rewrite lookup_app_r by (rewrite Hf; lia).
      rewrite Hf. rewrite lookup_replicate_2 by lia. f_equal.
      assert (c * m <= Z.of_nat (S i) * m) by nia. lia. }
  set (b := [0] ++ _ ++ _) in *.
  assert (Z.of_nat (length b) = slots + 1) as Hl.
  { unfold b. rewrite !length_app, Hf, length_replicate. simpl. lia. }
  split; [done|done| |].
  - rewrite last_lookup. replace (Nat.pred (length b)) with (Z.to_nat slots) by lia.
    rewrite Hlk by lia. f_equal. rewrite Z2Nat.id by lia. nia.
  - intros i x y Hx Hy. pose proof (lookup_lt_Some _ _ _ Hy).
    rewrite Hlk in Hx, Hy by lia. injection Hx as <-. injection Hy as <-. nia.
Qed.

(** The dummy layout of a graph capture is legal: it exists exactly when the
    bucket's tokens fit [num_slots] sequences of at most [max_model_len], and then
    it has one boundary per slot, starts at 0, ends at the bucket's token count
    and never decreases or steps by more than [max_model_len]. *)
Theorem capture_boundaries_legal n slots m :
  0 < n → 0 < slots → 0 < m →
  match _varlen_capture_boundaries n slots m with
  | Some b => layout_ok n slots m b ∧ n <= slots * m
  | None => slots * m < n
  end.
Proof.
  intros Hn Hs Hm. pose proof (boundaries_run n slots m) as H'.
  destruct (_varlen_capture_boundaries n slots m) as [b|] eqn:E; [|lia]. split; [done|].
  destruct H' as [Hl Hf Hla Hst].
  assert (∀ i x, b !! i = Some x → x <= Z.of_nat i * m) as Hb.
  { induction i as [|i IH]; intros x Hx.
    - destruct b; [done|]. simpl in *. simplify_eq. lia.
    - destruct (lookup_lt_is_Some_2 b i) as [y Hy]; [apply lookup_lt_Some in Hx; lia|].
      pose proof (Hst i y x Hy Hx). specialize (IH y Hy). lia. }
  rewrite last_lookup in Hla. specialize (Hb _ _ Hla).
  replace (Z.of_nat (Nat.pred (length b))) with slots in Hb by lia. lia.
Qed.

(** ** Replays *)

(** The shapes of the persistent buffers. *)
Record buffers_ok (v : varlen_vars) (T S1 w : nat) : Prop := {
  bf_ids : length (vv_input_ids v) = T;
  bf_positions : length (vv_positions v) = T;
  bf_slots : length (vv_slot_mapping v) = T;
  bf_cu_q : length (vv_cu_q v) = S S1;
  bf_cu_k : length (vv_cu_k v) = S S1;
  bf_tables : length (vv_block_tables v) = S1 ∧ Forall (λ r, length r = w) (vv_block_tables v);
}.

(** The shape of a ragged call of [ns] rows. *)
Record ragged_shape (c : model_call) (ns : nat) : Prop := {
  rs_some : (0 < ns)%nat ∧ input_ids c ≠ [];
  rs_positions : length (positions c) = length (input_ids c);
  rs_slots : ∃ slots, slot_mapping (call_context c) = Some slots ∧
    length slots = length (input_ids c);
  rs_cu_q : ∃ q, cu_seqlens_q (call_context c) = Some q ∧ length q = S ns ∧
    last q = Some (Z.of_nat (length (input_ids c)));
  rs_cu_k : ∃ q, cu_seqlens_k (call_context c) = Some q ∧ length q = S ns;
  rs_tables : ∃ wt t, block_tables (call_context c) = Some t ∧ length t = ns ∧
    Forall (λ r, length r = wt) t;
}.

(** What a replay reads: the live step, then rows that write nothing and
    segments of length zero. *)
Record replay_inputs (c : model_call) (ns : nat) (T S1 w : nat) (v : varlen_vars) : Prop := {
  ri_ids : take (length (input_ids c)) (vv_input_ids v) = input_ids c;
  ri_positions : take (length (input_ids c)) (vv_positions v) = positions c;
  ri_slots : ∃ slots, slot_mapping (call_context c) = Some slots ∧
    vv_slot_mapping v = slots ++ replicate (T - length (input_ids c)) (-1);
  ri_cu_q : ∃ q, cu_seqlens_q (call_context c) = Some q ∧
    vv_cu_q v = q ++ replicate (S1 - ns) (Z.of_nat (length (input_ids c)));
  ri_tables : ∃ t, block_tables (call_context c) = Some t ∧
    ∀ i r, vv_block_tables v !! i = Some r →
      r = default [] (t !! i) ++ replicate (w - length (default [] (t !! i))) (-1);
  ri_shape : buffers_ok v T S1 w;
}.

Lemma set_prefix_take {A} (src buf : list A) : take (length src) (set_prefix src buf) = src.
Proof. unfold set_prefix. by rewrite take_app_length. Qed.

Lemma length_set_prefix {A} (src buf : list A) :
  (length src <= length buf)%nat → length (set_prefix src buf) = length buf.
Proof. intros. unfold set_prefix. rewrite length_app, length_drop. lia. Qed.

Lemma set_prefix_blank src (T : nat) (x : Z) :
  set_prefix src (replicate T x) = src ++ replicate (T - length src) x.
Proof. unfold set_prefix. by rewrite drop_replicate. Qed.

Lemma length_hold src buf :
  (length src <= length buf)%nat → length (set_prefix_hold src buf) = length buf.
Proof. intros. unfold set_prefix_hold. rewrite length_app, length_replicate. lia. Qed.

(** Block tables over blank rows. *)
Lemma fill_tables (t bufs : list (list Z)) wt w :
  (length t <= length bufs)%nat → Forall (λ r, length r = wt) t → Forall (λ r, length r = w) bufs →
  (wt <= w)%nat →
  let blank := (λ r : list Z, replicate (length r) (-1)) <$> bufs in
  let out := zip_with set_prefix t blank ++ drop (length t) blank in
  length out = length bufs ∧ Forall (λ r, length r = w) out ∧
  ∀ i r, out !! i = Some r →
    r = default [] (t !! i) ++ replicate (w - length (default [] (t !! i))) (-1).
Proof.
  intros Hl Ht Hb Hw. cbv zeta.
  assert ((λ r : list Z, replicate (length r) (-1)) <$> bufs = replicate (length bufs) (replicate w (-1)))
    as ->.
  { clear -Hb. induction Hb as [|r l Hr _ IH]; [done|]. rewrite fmap_cons, IH, Hr. done. }
  set (n := length bufs) in *. clearbody n. clear Hb bufs.
  assert (∀ i r, (zip_with set_prefix t (replicate n (replicate w (-1))) ++
      drop (length t) (replicate n (replicate w (-1)))) !! i = Some r →
    r = default [] (t !! i) ++ replicate (w - length (default [] (t !! i))) (-1)) as Hrow.
  { intros i r. rewrite lookup_app_Some, length_zip_with, length_replicate, Nat.min_l by done.
    intros [(x & y & -> & Hx & [-> _]%lookup_replicate)%lookup_zip_with_Some|[Hi Hr]].
    - rewrite Hx. simpl. apply set_prefix_blank.
    - rewrite drop_replicate in Hr. apply lookup_replicate in Hr as [-> _].
      rewrite lookup_ge_None_2 by lia. simpl. by rewrite Nat.sub_0_r. }
  split; [|split; [|done]].
  - rewrite length_app, length_zip_with, length_drop, length_replicate. lia.
  - apply Forall_lookup. intros i r Hr. rewrite (Hrow i r Hr), length_app, length_replicate.
    destruct (t !! i) as [x|] eqn:Ex; simpl; [|lia].
    rewrite Forall_lookup in Ht. specialize (Ht i x Ex). simpl in Ht. lia.
Qed.

(** What the selection guarantees. *)
Lemma ragged_graph_inv graphs v ml c ns key :
  ragged_shape c ns → ragged_graph graphs (Some v) ml c = Some key →
  key ∈ graphs ∧ Z.of_nat (length (input_ids c)) <= key.1 ∧ Z.of_nat ns <= key.2 ∧
  (length (default [] (head (default [] (block_tables (call_context c))))) <=
     length (default [] (head (vv_block_tables v))))%nat.
Proof.
  intros [_ _ (slots & Es & _) (q & Eq & Hq & _) (q' & Eq' & _) (wt & t & Et & _)].
  unfold ragged_graph. rewrite Et, Eq. cbn [default from_option]. unfold id. rewrite Hq.
  replace (Z.of_nat (S ns) - 1) with (Z.of_nat ns) by lia.
  pose proof (select_run graphs (Z.of_nat (length (input_ids c))) (Z.of_nat ns)) as Hs.
  destruct (_select_varlen_graph_key _ _ _) as [k|]; [|done].
  destruct (_varlen_context_fits_graph _ _ _ _ _ _) eqn:Ef; [|done]. intros [= <-].
  destruct Hs as (_ & _ & ? & ? & ? & _). split_and!; try done.
  unfold _varlen_context_fits_graph in Ef. rewrite Es, Eq', Et in Ef.
  apply andb_true_iff in Ef as [_ Ef]. by apply Nat.leb_le in Ef.
Qed.

Lemma fill_run v c ns T S1 w graphs ml key :
  buffers_ok v T S1 w → (0 < S1)%nat → ragged_shape c ns →
  key.1 <= Z.of_nat T → key.2 <= Z.of_nat S1 →
  ragged_graph graphs (Some v) ml c = Some key →
  ∃ v', _fill_varlen v c key = Ok v' ∧ replay_inputs c ns T S1 w v'.
Proof.
  intros [B1 B2 B3 B4 B5 [B6 B7]] HS1 Hsh Hk1 Hk2 Hg.
  destruct (ragged_graph_inv graphs v ml c ns key Hsh Hg) as (_ & Ht & Hns & Hwd).
  destruct Hsh as [[Hns0 _] Hp (slots & Es & Hsl) (q & Eq & Hq & Hqla) (q' & Eq' & Hq') (wt & t & Et & Htl & Htw)].
  rewrite Et in Hwd. simpl in Hwd.
  assert (wt <= w)%nat as Hwt.
  { destruct t as [|r t]; [simpl in Htl; lia|]. apply Forall_cons in Htw as [Hr _].
    destruct (vv_block_tables v) as [|r' bt]; [simpl in B6; lia|]. apply Forall_cons in B7 as [Hr' _].
    simpl in Hwd. lia. }
  unfold _fill_varlen. rewrite Es, Eq, Eq', Et. cbn [default from_option]. unfold id. rewrite Hq.
  rewrite (proj2 (Z.ltb_ge key.1 _)), (proj2 (Z.ltb_ge key.2 _)) by lia. cbn [orb oraise_if obind].
  eexists. split; [reflexivity|].
  destruct (fill_tables t (vv_block_tables v) wt w) as (F1 & F2 & F3); [lia|done..|].
  split; cbn [vv_input_ids vv_positions vv_slot_mapping vv_cu_q vv_cu_k vv_block_tables].
  - apply set_prefix_take.
  - rewrite <-Hp. apply set_prefix_take.
  - exists slots. split; [done|]. rewrite set_prefix_blank. by rewrite B3, Hsl.
  - exists q. split; [done|]. unfold set_prefix_hold. rewrite B4, Hq, Hqla. done.
  - exists t. by split.
  - split; cbn [vv_input_ids vv_positions vv_slot_mapping vv_cu_q vv_cu_k vv_block_tables].
    + rewrite length_set_prefix; lia.
    + rewrite length_set_prefix; lia.
    + rewrite length_set_prefix; rewrite length_replicate; lia.
    + rewrite length_hold; lia.
    + rewrite length_hold; lia.
    + split; [by rewrite F1|done].
Qed.
