(* ===== verification/RunnerRun.v ===== *)
(** * RunnerRun: one step on the device, as rank zero drives it

    Models [run], [run_model], [prepare_sample] and the buffers of the captured
    graphs of src/nanovllm/engine/model_runner.py, and the row selection of the
    language-model head of src/nanovllm/layers/embed_head.py.  The forward pass,
    the replay of a captured graph and the samplers are an environment; the
    persistent buffers and the miss counter are the state. *)
From Stdlib Require Import QArith.
From S2P Require Import Prelude SamplingParams Sequence SpecMemory SpecRoutes TpTransport.
From S2P Require Import RunnerInput RunnerGraph.
#[local] Open Scope Z_scope.

(** ** Configuration and buffers *)

Record run_config := mk_run_config {
  (** [numerical_mode == "invariant"] *)
  rn_invariant : bool;
  rn_enforce_eager : bool;
  (** [top_p_backend == "flashinfer"] *)
  rn_flashinfer : bool;
  rn_block_size : Z;
  rn_max_num_batched_tokens : Z;
  rn_max_num_seqs : Z;
  rn_max_model_len : Z;
  rn_vocab_size : Z;
}.

(** The persistent buffers of the decode graphs. *)
Record decode_vars := mk_decode_vars {
  dv_input_ids : list Z;
  dv_positions : list Z;
  dv_slot_mapping : list Z;
  dv_context_lens : list Z;
  dv_block_tables : list (list Z);
}.

Record run_state := mk_run_state {
  graph_bs : list Z;
  graphs : list Z;
  graph_vars : decode_vars;
  (** [None] when nothing was captured: the attribute is missing *)
  varlen_graphs : option (list graph_key);
  rs_varlen_vars : option varlen_vars;
  varlen_miss : Z;
}.
Definition set_graph_vars v st :=
  mk_run_state (graph_bs st) (graphs st) v (varlen_graphs st) (rs_varlen_vars st) (varlen_miss st).
Definition set_varlen_vars v st :=
  mk_run_state (graph_bs st) (graphs st) (graph_vars st) (varlen_graphs st) v (varlen_miss st).
Definition count_miss st :=
  mk_run_state (graph_bs st) (graphs st) (graph_vars st) (varlen_graphs st) (rs_varlen_vars st)
    (varlen_miss st + 1).

(** Blocks of a longest sequence, the width of the table buffers. *)
Definition max_blocks (c : run_config) : Z :=
  (rn_max_model_len c + rn_block_size c - 1) `div` rn_block_size c.

Definition zeros (n : Z) : list Z := replicate (Z.to_nat n) 0.

(** The buckets and buffers of [capture_cudagraph]; the capture itself runs on
    the device. *)
Definition capture_cudagraph (c : run_config) : outcome (list Z * decode_vars) :=
  let max_bs := Z.min (rn_max_num_seqs c) MAX_DECODE_GRAPH in
  let? bs := draft_graph_batch_buckets max_bs in
  Ok (bs, mk_decode_vars (zeros max_bs) (zeros max_bs) (zeros max_bs) (zeros max_bs)
        (replicate (Z.to_nat max_bs) (zeros (max_blocks c)))).

(** The graphs and buffers of [capture_varlen_graphs]: of the buffers' contents
    only what the capture leaves is kept. *)
Definition capture_varlen_graphs (c : run_config) : list graph_key * option varlen_vars :=
  match last (varlen_ts (rn_max_num_batched_tokens c)) with
  | None => ([], None)
  | Some T =>
      let S1 := rn_max_num_seqs c + 1 in
      let keys := captured_varlen_keys (rn_max_num_batched_tokens c) (rn_max_num_seqs c)
                    (rn_max_model_len c) in
      let capture (v : varlen_vars) (k : graph_key) : varlen_vars :=
        match _varlen_capture_boundaries k.1 k.2 (rn_max_model_len c) with
        | None => v
        | Some b =>
            let cu := set_prefix b (replicate (length (vv_cu_q v)) k.1) in
            mk_varlen_vars (vv_input_ids v) (vv_positions v) cu cu (vv_slot_mapping v)
              (vv_block_tables v)
        end in
      let v := foldl capture
        (mk_varlen_vars (zeros T) (zeros T) (zeros (S1 + 1)) (zeros (S1 + 1))
           (replicate (Z.to_nat T) (-1)) (replicate (Z.to_nat S1) (zeros (max_blocks c)))) keys in
      (keys, if bool_decide (keys = []) then None else Some v)
  end.

Definition no_decode_vars : decode_vars := mk_decode_vars [] [] [] [] [].

(** The state after start-up: eager mode captures nothing. *)
Definition run_state_init (c : run_config) : outcome run_state :=
  if rn_enforce_eager c || rn_invariant c
  then Ok (mk_run_state [] [] no_decode_vars None None 0)
  else
    let? (bs, v) := capture_cudagraph c in
    let (keys, vv) := capture_varlen_graphs c in
    Ok (mk_run_state bs (reverse bs) v (Some keys) vv 0).

(** ** The device *)

Record model_env (hidden logits : Type) := mk_model_env {
  (** one hidden state per input token *)
  forward : model_call → outcome (list hidden);
  (** the outputs buffer after replaying a graph on its buffers *)
  replay_decode : Z → decode_vars → outcome (list hidden);
  replay_varlen : graph_key → varlen_vars → outcome (list hidden);
  (** the vocabulary projection of one hidden state *)
  linear : hidden → logits;
  argmax : logits → Z;
  filter_top_k : list logits → option (list Z) → Z → outcome (list logits);
  (** the cut-offs [1 - top_p] are rounded on the way to the device *)
  filter_top_p : list logits → list Q → option (list Z) → list Q → outcome (list logits);
  sample_top_p_flashinfer : list logits → list Q → list Q → outcome (list Z);
  sample : list logits → list Q → outcome (list Z);
}.
Arguments forward {hidden logits}.
Arguments replay_decode {hidden logits}.
Arguments replay_varlen {hidden logits}.
Arguments linear {hidden logits}.
Arguments argmax {hidden logits}.
Arguments filter_top_k {hidden logits}.
Arguments filter_top_p {hidden logits}.
Arguments sample_top_p_flashinfer {hidden logits}.
Arguments sample {hidden logits}.

Abbreviation MRun := (M run_state).

Section run.
Context {hidden logits : Type} (env : model_env hidden logits) (cfg : run_config).

(** ** The head *)

(** [x[i]] of a tensor: a negative index counts from the end. *)
Definition tensor_at {A} (x : list A) (i : Z) : outcome A :=
  let j := if i <? 0 then i + Z.of_nat (length x) else i in
  if j <? 0 then Raise IndexError else
  match x !! Z.to_nat j with Some a => Ok a | None => Raise IndexError end.

(** The rows [ParallelLMHead.forward] projects. *)
Definition last_indices (context : Context) : list Z :=
  match rn_invariant cfg, emission_query_indices context with
  | true, Some indices => indices
  | _, _ => (λ x, x - 1) <$> tail (default [] (cu_seqlens_q context))
  end.

Definition compute_logits (context : Context) (x : list hidden) : outcome (list logits) :=
  let? x := (if cx_is_prefill context then omap_all (tensor_at x) (last_indices context) else Ok x) in
  Ok (linear env <$> x).

(** ** The model *)

(** Copy a decode step into the graph's buffers.  The block tables are not
    cleared first. *)
Definition fill_decode (c : model_call) : MRun unit :=
  let context := call_context c in
  let tables := default [] (block_tables context) in
  let* st := get in
  let v := graph_vars st in
  let v := mk_decode_vars (set_prefix (input_ids c) (dv_input_ids v))
    (set_prefix (positions c) (dv_positions v))
    (set_prefix (default [] (slot_mapping context)) (replicate (length (dv_slot_mapping v)) (-1)))
    (set_prefix (default [] (context_lens context)) (replicate (length (dv_context_lens v)) 0))
    (dv_block_tables v) in
  modify (set_graph_vars v) ;;;
  raise_if (length (default [] (head (dv_block_tables v))) <? length (default [] (head tables)))%nat
    (RuntimeError "shape mismatch") ;;;
  modify (set_graph_vars (mk_decode_vars (dv_input_ids v) (dv_positions v) (dv_slot_mapping v)
    (dv_context_lens v)
    (zip_with set_prefix tables (dv_block_tables v) ++ drop (length tables) (dv_block_tables v)))).

Definition run_model (c : model_call) (is_prefill : bool) : MRun (list logits) :=
  let context := call_context c in
  let eager := let* hidden_states := lift (forward env c) in
               lift (compute_logits context hidden_states) in
  let n := length (input_ids c) in
  let* st := get in
  if negb is_prefill then
    match decode_graph (rn_enforce_eager cfg || rn_invariant cfg) (graph_bs st) (graphs st)
            (Z.of_nat n) with
    | None => eager
    | Some bs =>
        fill_decode c ;;;
        let* outputs := inspect (λ st, replay_decode env bs (graph_vars st)) in
        lift (compute_logits context (take n outputs))
    end
  else
    match ragged_graph (default [] (varlen_graphs st)) (rs_varlen_vars st) (rn_max_model_len cfg) c with
    | None =>
        (if bool_decide (is_Some (varlen_graphs st)) && bool_decide (is_Some (block_tables context))
         then modify count_miss else ret tt) ;;;
        eager
    | Some key =>
        match rs_varlen_vars st with
        | None => eager
        | Some v =>
            let* v := lift (_fill_varlen v c key) in
            modify (set_varlen_vars (Some v)) ;;;
            let* outputs := lift (replay_varlen env key v) in
            lift (compute_logits context (take n outputs))
        end
    end.

(** ** Sampling *)

(** The temperatures (none when every row is greedy), the top-k groups and the
    top-p plan: the probabilities for FlashInfer, the cutoffs [1 - top_p] for the
    exact filter. *)
Definition prepare_sample (seqs : list sequence)
    : outcome (list Q * list (Z * option (list Z)) * option (option (list Z) * list Q) * bool) :=
  let '(temperatures, top_k_buckets, top_p_plan, all_greedy) :=
    _prepare_sample_metadata seqs (rn_vocab_size cfg) in
  if all_greedy then Ok ([], [], None, true) else
  match top_p_plan with
  | None => Ok (temperatures, top_k_buckets, None, false)
  | Some plan =>
      if rn_flashinfer cfg then
        let? top_ps := _expand_top_ps (Z.of_nat (length temperatures)) plan in
        Ok (temperatures, top_k_buckets, Some (None, top_ps), false)
      else Ok (temperatures, top_k_buckets, Some (plan.1, (λ p, (1 - p)%Q) <$> plan.2), false)
  end.

(** The branches of [run] on the sampler. *)
Definition sample_tokens
    (m : list Q * list (Z * option (list Z)) * option (option (list Z) * list Q) * bool)
    (x : list logits) : outcome (list Z) :=
  let '(temperatures, top_k_buckets, top_p_plan, all_greedy) := m in
  if all_greedy then Ok (argmax env <$> x) else
  let? x := ofold (λ x '(top_k, rows), filter_top_k env x rows top_k) top_k_buckets x in
  match top_p_plan with
  | Some (rows, cutoffs) =>
      if rn_flashinfer cfg then sample_top_p_flashinfer env x temperatures cutoffs
      else let? x := filter_top_p env x temperatures rows cutoffs in sample env x temperatures
  | None => sample env x temperatures
  end.

(** The rows that are sampled: in invariant mode a ragged step samples only the
    rows that finish their tokens. *)
Definition emitting_indices (seqs : list sequence) (is_prefill : bool) : list Z :=
  if rn_invariant cfg && is_prefill
  then (filter (λ iq : Z * sequence,
          num_cached_tokens iq.2 + num_scheduled_tokens iq.2 = num_tokens iq.2) (enumerate seqs)).*1
  else py_range 0 (Z.of_nat (length seqs)).

(** [zip(..., strict=True)] into a list of zeros. *)
Definition place (n : nat) (indices tokens : list Z) : outcome (list Z) :=
  oraise_if (negb (length indices =? length tokens)%nat)
    (ValueError "zip() arguments have different lengths") ;?
  Ok (foldl (λ l it, <[Z.to_nat it.1 := it.2]> l) (replicate n 0) (zip indices tokens)).

(** [run] on rank zero.  Resetting the context is left out: the context is part
    of the call. *)
Definition run_step (seqs : list sequence) (is_prefill : bool) : MRun (list Z) :=
  let* c := lift (prepare_inputs (rn_block_size cfg) is_prefill seqs) in
  let emitting := emitting_indices seqs is_prefill in
  let sample_seqs := omap (λ i, seqs !! Z.to_nat i) emitting in
  let* m := lift (prepare_sample sample_seqs) in
  let* x := run_model c is_prefill in
  let* tokens := lift (if bool_decide (sample_seqs = []) then Ok [] else sample_tokens m x) in
  lift (place (length seqs) emitting tokens).
End run.
