(* ===== verification/RunnerSpec.v ===== *)
(** * RunnerSpec: the model inputs are the scheduled tokens, written privately

    The inputs prepared for a scheduled batch are those of the reference
    definition (each new token at its position and at the physical slot of that
    position), a worker prepares the inputs of rank zero, and a step writes
    every slot once, in blocks nobody else can read. *)
From Stdlib Require Import QArith.
From S2P Require Import Prelude SamplingParams Sequence Heap BlockManager Reservation AllocatorInv.
From S2P Require Import BlockManagerInv CacheInv SpecMemory SpecRoutes Scheduler KVContract SchedInv.
From S2P Require Import ScheduleSpec PrefillSpec TpTransport RunnerInput RunnerGraph.
#[local] Open Scope Z_scope.

(** ** Slots *)

(** The physical slot of a position. *)
Definition slot_of (bs : Z) (table : list nat) (p : Z) : Z :=
  Z.of_nat (table !!! Z.to_nat (p `div` bs)) * bs + p `mod` bs.

Lemma table_at_nth table i :
  0 <= i < Z.of_nat (length table) → table_at table i = Ok (Z.of_nat (table !!! Z.to_nat i)).
Proof.
  intros Hi. unfold table_at. rewrite (proj2 (Z.ltb_ge i 0)) by lia. cbv zeta.
  rewrite (proj2 (Z.ltb_ge i 0)) by lia.
  destruct (lookup_lt_is_Some_2 table (Z.to_nat i)) as [b Hb]; [lia|].
  by rewrite Hb, (list_lookup_total_correct _ _ _ Hb).
Qed.

Lemma slot_shift bs table i p :
  0 < bs → i * bs <= p < (i + 1) * bs →
  slot_of bs table p = p + (Z.of_nat (table !!! Z.to_nat i) * bs - i * bs).
Proof.
  intros Hbs Hp. assert (p `div` bs = i) as E by (symmetry; apply (Z.div_unique_pos _ _ _ (p - i * bs)); lia).
  unfold slot_of. rewrite E. rewrite Z.mod_eq, E by lia. lia.
Qed.

Lemma slots_range bs table i u v :
  0 < bs → i * bs <= u → v <= (i + 1) * bs →
  slot_of bs table <$> py_range u v =
  py_range (u + (Z.of_nat (table !!! Z.to_nat i) * bs - i * bs))
           (v + (Z.of_nat (table !!! Z.to_nat i) * bs - i * bs)).
Proof.
  intros Hbs Hu Hv. rewrite <-py_range_shift. apply list_fmap_ext. intros j p Hp.
  apply list_elem_of_lookup_2, elem_of_py_range in Hp. apply slot_shift; lia.
Qed.

Lemma block_slots_eq bs table start stop i :
  0 < bs → 0 <= start <= stop → ceil_div stop bs <= Z.of_nat (length table) →
  start `div` bs <= i < ceil_div stop bs →
  block_slots bs table start stop i =
    Ok (slot_of bs table <$> py_range (Z.max start (i * bs)) (Z.min stop ((i + 1) * bs))).
Proof.
  intros Hbs Hs Hl Hi. pose proof (Z.div_pos start bs ltac:(lia) Hbs).
  pose proof (ceil_div_spec stop bs Hbs). fold (ceil_div stop bs).
  pose proof (Z.mul_div_le start bs Hbs). pose proof (Z.mul_succ_div_gt start bs Hbs).
  unfold block_slots. fold (ceil_div stop bs). rewrite table_at_nth by lia. cbn [obind]. cbv zeta.
  rewrite (slots_range bs table i) by lia. do 2 f_equal.
  - destruct (Z.eqb_spec i (start `div` bs)) as [->|Hne].
    + rewrite Z.max_l by lia. rewrite Z.mod_eq by lia. lia.
    + rewrite Z.max_r by nia. lia.
  - destruct (Z.eqb_spec i (ceil_div stop bs - 1)) as [->|Hne]; simpl negb; cbv iota.
    + rewrite Z.min_l by lia. lia.
    + rewrite Z.min_r by nia. lia.
Qed.

Lemma row_slots_eq bs table start stop :
  0 < bs → 0 <= start <= stop → ceil_div stop bs <= Z.of_nat (length table) →
  row_slots bs table start stop = Ok (slot_of bs table <$> py_range start stop).
Proof.
  intros Hbs Hs Hl. unfold row_slots. fold (ceil_div stop bs).
  rewrite (omap_all_eq _ (fmap (slot_of bs table) ∘ λ i,
    py_range (Z.max start (i * bs)) (Z.min stop ((i + 1) * bs)))).
  2: { intros i Hi%elem_of_py_range. by apply block_slots_eq. }
  simpl. f_equal. pose proof (ceil_div_spec stop bs Hbs).
  pose proof (Z.mul_div_le start bs Hbs). pose proof (Z.mul_succ_div_gt start bs Hbs).
  rewrite list_fmap_compose, <-fmap_concat. f_equal.
  assert (start `div` bs <= ceil_div stop bs) by (unfold ceil_div; apply Z.div_le_mono; lia).
  replace (ceil_div stop bs) with (start `div` bs + Z.of_nat (Z.to_nat (ceil_div stop bs - start `div` bs)))
    by lia.
  rewrite py_range_blocks by lia. rewrite Z2Nat.id by lia. rewrite Zplus_minus. f_equal. lia.
Qed.

(** ** Ragged batches *)

Lemma length_enumerate {A} (l : list A) : length (enumerate l) = length l.
Proof. unfold enumerate. rewrite length_zip_with, length_py_range. lia. Qed.

Lemma enumerate_lookup {A} (l : list A) i : enumerate l !! i = (λ x, (Z.of_nat i, x)) <$> l !! i.
Proof.
  unfold enumerate. destruct (l !! i) as [x|] eqn:E; simpl.
  - apply lookup_zip_with_Some. exists (Z.of_nat i), x. split; [done|]. split; [|done].
    pose proof (lookup_lt_Some _ _ _ E). unfold py_range.
    rewrite list_lookup_fmap, lookup_seq_lt by lia. simpl. by rewrite Z.add_0_l.
  - apply lookup_ge_None_2. apply lookup_ge_None_1 in E. rewrite length_zip_with, length_py_range. lia.
Qed.

Lemma enumerate_fst {A} (l : list A) : (enumerate l).*1 = py_range 0 (Z.of_nat (length l)).
Proof.
  unfold enumerate. apply fst_zip. rewrite length_py_range. lia.
Qed.

(** The ends of consecutive segments of the given lengths. *)
Fixpoint ends (from : Z) (l : list Z) : list Z :=
  match l with
  | [] => []
  | n :: l' => (from + n) :: ends (from + n) l'
  end.

Lemma length_ends l from : length (ends from l) = length l.
Proof. revert from. induction l as [|n l IH]; intros from; simpl; by rewrite ?IH. Qed.

Section rows.
Context {row : Type} `{!BatchRow row}.
Variable bs : Z.

Definition row_stop (q : row) : Z := row_cached q + row_scheduled q.
Definition row_ids (q : row) : list Z := if row_prefill q then row_input q else [row_last q].
Definition row_positions (q : row) : list Z := py_range (row_cached q) (row_stop q).
Definition row_write_slots (q : row) : list Z := slot_of bs (row_table q) <$> row_positions q.

(** A row input preparation can serve: its table covers its work. *)
Record row_ready (q : row) : Prop := {
  rr_cached : 0 <= row_cached q;
  rr_scheduled : 0 < row_scheduled q;
  rr_table : ceil_div (row_stop q) bs <= Z.of_nat (length (row_table q));
}.

(** The reference inputs of a ragged batch. *)
Record ragged_call (qs : list row) (c : model_call) : Prop := {
  rc_ids : input_ids c = concat (row_ids <$> qs);
  rc_positions : positions c = concat (row_positions <$> qs);
  rc_cu_q : cu_seqlens_q (call_context c) = Some (0 :: ends 0 (row_scheduled <$> qs));
  rc_cu_k : cu_seqlens_k (call_context c) = Some (0 :: ends 0 (row_stop <$> qs));
  rc_max_q : max_seqlen_q (call_context c) = foldl Z.max 0 (row_scheduled <$> qs);
  rc_max_k : max_seqlen_k (call_context c) = foldl Z.max 0 (row_stop <$> qs);
  rc_slots : slot_mapping (call_context c) = Some (concat (row_write_slots <$> qs));
  rc_owner : query_sequence_ids (call_context c) =
    Some (concat ((λ iq : Z * row, replicate (Z.to_nat (row_scheduled iq.2)) iq.1) <$> enumerate qs));
  rc_lengths : query_context_lengths (call_context c) =
    Some (concat ((λ q, py_range (row_cached q + 1) (row_stop q + 1)) <$> qs));
  rc_emission : emission_query_indices (call_context c) =
    Some (omap (λ qe : row * Z, if row_stop qe.1 =? row_total qe.1 then Some (qe.2 - 1) else None)
            (zip qs (ends 0 (row_scheduled <$> qs))));
  rc_tables : ∃ w t, block_tables (call_context c) = Some t ∧
    Forall2 (λ q r, length r = w ∧ take (length (row_table q)) r = Z.of_nat <$> row_table q) qs t;
  rc_prefill : cx_is_prefill (call_context c) = true ∧ context_lens (call_context c) = None;
}.

Lemma row_table_ready q : 0 < bs → row_ready q → row_table q ≠ [].
Proof.
  intros Hbs [H0 H1 H2] E. rewrite E in H2. simpl in H2. unfold row_stop in H2.
  pose proof (ceil_div_spec (row_cached q + row_scheduled q) bs Hbs). nia.
Qed.

Definition ragged_next (g : ragged) (i : Z) (q : row) : ragged := mk_ragged
  (rg_input_ids g ++ row_ids q) (rg_positions g ++ row_positions q)
  (rg_query_sequence_ids g ++ replicate (Z.to_nat (row_scheduled q)) i)
  (rg_query_context_lengths g ++ py_range (row_cached q + 1) (row_stop q + 1))
  (if row_stop q =? row_total q
   then rg_emission g ++ [default 0 (last (rg_cu_q g)) + row_scheduled q - 1] else rg_emission g)
  (rg_cu_q g ++ [default 0 (last (rg_cu_q g)) + row_scheduled q])
  (rg_cu_k g ++ [default 0 (last (rg_cu_k g)) + row_stop q])
  (Z.max (row_scheduled q) (rg_max_q g)) (Z.max (row_stop q) (rg_max_k g))
  (rg_slots g ++ row_write_slots q).

Lemma ragged_row_run g i q :
  0 < bs → row_ready q → ragged_row bs g (i, q) = Ok (ragged_next g i q).
Proof.
  intros Hbs Hr. pose proof (row_table_ready q Hbs Hr) as Ht. destruct Hr as [H0 H1 H2].
  unfold ragged_row. fold (row_stop q).
  assert (row_slots bs (row_table q) (row_cached q) (row_stop q) = Ok (row_write_slots q)) as E.
  { apply row_slots_eq; [done|unfold row_stop; lia|done]. }
  destruct (row_table q) eqn:Et; [done|]. rewrite E. reflexivity.
Qed.

(** The loop over the rows, from any accumulator. *)
Lemma ragged_loop qs g n :
  0 < bs → Forall row_ready qs →
  ∃ g', ofold (ragged_row bs) (zip (py_range n (n + Z.of_nat (length qs))) qs) g = Ok g' ∧
    rg_input_ids g' = rg_input_ids g ++ concat (row_ids <$> qs) ∧
    rg_positions g' = rg_positions g ++ concat (row_positions <$> qs) ∧
    rg_query_sequence_ids g' = rg_query_sequence_ids g ++
      concat ((λ iq : Z * row, replicate (Z.to_nat (row_scheduled iq.2)) iq.1)
                <$> zip (py_range n (n + Z.of_nat (length qs))) qs) ∧
    rg_query_context_lengths g' = rg_query_context_lengths g ++
      concat ((λ q, py_range (row_cached q + 1) (row_stop q + 1)) <$> qs) ∧
    rg_emission g' = rg_emission g ++
      omap (λ qe : row * Z, if row_stop qe.1 =? row_total qe.1 then Some (qe.2 - 1) else None)
        (zip qs (ends (default 0 (last (rg_cu_q g))) (row_scheduled <$> qs))) ∧
    rg_cu_q g' = rg_cu_q g ++ ends (default 0 (last (rg_cu_q g))) (row_scheduled <$> qs) ∧
    rg_cu_k g' = rg_cu_k g ++ ends (default 0 (last (rg_cu_k g))) (row_stop <$> qs) ∧
    rg_max_q g' = foldl Z.max (rg_max_q g) (row_scheduled <$> qs) ∧
    rg_max_k g' = foldl Z.max (rg_max_k g) (row_stop <$> qs) ∧
    rg_slots g' = rg_slots g ++ concat (row_write_slots <$> qs).
Proof.
  intros Hbs. revert g n. induction qs as [|q qs IH]; intros g n Hr.
  { exists g. rewrite py_range_empty by (simpl; lia). simpl. rewrite !app_nil_r. by split_and!. }
  apply Forall_cons in Hr as [Hq Hr].
  rewrite py_range_cons by (simpl; lia). cbn [zip zip_with ofold].
  rewrite (ragged_row_run g n q Hbs Hq). cbn [obind].
  destruct (IH (ragged_next g n q) (n + 1) Hr) as (g' & E & H1 & H2 & H3 & H4 & H5 & H6 & H7 & H8 & H9 & H10).
  replace (n + Z.of_nat (length (q :: qs))) with (n + 1 + Z.of_nat (length qs)) by (simpl; lia).
  exists g'. split; [exact E|]. rewrite H1, H2, H3, H4, H5, H6, H7, H8, H9, H10.
  simpl. rewrite !last_snoc. simpl. rewrite <-!app_assoc.
  split_and!; try done; try (by rewrite Z.max_comm).
  by destruct (row_stop q =? row_total q); rewrite <-?app_assoc.
Qed.

(** Tables padded to the longest one. *)
Lemma block_tables_run (qs : list row) :
  qs ≠ [] → ∃ w t, prepare_block_tables qs = Ok t ∧
    Forall2 (λ q r, length r = w ∧ take (length (row_table q)) r = Z.of_nat <$> row_table q) qs t.
Proof.
  intros Hne. unfold prepare_block_tables. destruct qs as [|q0 qs]; [done|]. rewrite fmap_cons.
  set (w := foldl Nat.max _ _). exists w. eexists. split; [reflexivity|].
  assert (∀ q, q ∈ q0 :: qs → (length (row_table q) <= w)%nat) as Hw.
  { assert (∀ l n, (n <= foldl Nat.max n l)%nat ∧ ∀ x, x ∈ l → (x <= foldl Nat.max n l)%nat) as Hm.
    { induction l as [|x l IH]; intros n; simpl; [split; [done|set_solver]|].
      destruct (IH (Nat.max n x)) as [H1 H2]. split; [lia|]. intros y [->|Hy]%elem_of_cons; [lia|].
      by apply H2. }
    destruct (Hm ((λ q, length (row_table q)) <$> qs) (length (row_table q0))) as [H1 H2].
    intros q [->|Hq]%elem_of_cons; [done|]. apply H2.
    by apply (list_elem_of_fmap_2 (λ q, length (row_table q))). }
  clearbody w. generalize dependent (q0 :: qs). clear. intros l _ Hw.
  induction l as [|q l IH]; simpl; constructor.
  - specialize (Hw q ltac:(set_solver)). rewrite length_app, length_fmap, length_replicate.
    split; [lia|]. rewrite take_app_length' by (by rewrite length_fmap). done.
  - apply IH. intros. apply Hw. set_solver.
Qed.

Lemma prepare_ragged_run qs :
  0 < bs → qs ≠ [] → Forall row_ready qs →
  ∃ c, prepare_ragged bs qs = Ok c ∧ ragged_call qs c.
Proof.
  intros Hbs Hne Hr. unfold prepare_ragged, enumerate.
  destruct (ragged_loop qs ragged_empty 0 Hbs Hr)
    as (g & E & H1 & H2 & H3 & H4 & H5 & H6 & H7 & H8 & H9 & H10).
  rewrite !Z.add_0_l in *. rewrite E. cbn [obind].
  destruct (block_tables_run qs Hne) as (w & t & Et & Ht).
  destruct qs as [|q qs]; [done|]. apply Forall_cons in Hr as Hr'. destruct Hr' as [Hq _].
  pose proof (row_table_ready q Hbs Hq) as Hqt. rewrite Et.
  destruct (row_table q) eqn:Eq; [done|]. cbn [obind]. eexists. split; [reflexivity|].
  simpl in H1, H2, H3, H4, H5, H6, H7, H8, H9, H10.
  split; simpl; rewrite ?H1, ?H2, ?H3, ?H4, ?H5, ?H6, ?H7, ?H8, ?H9, ?H10; try done.
  by exists w, t.
Qed.

(** ** Decode batches *)

(** A row that decodes its last token. *)
Definition row_decodes (q : row) : Prop :=
  row_scheduled q = 1 ∧ row_stop q = row_total q ∧ row_prefill q = false ∧
  Z.of_nat (length (row_table q)) = ceil_div (row_total q) bs.

Lemma decode_slot_eq q :
  0 < bs → row_ready q → row_decodes q →
  decode_slot bs q = Ok (slot_of bs (row_table q) (row_total q - 1)).
Proof.
  intros Hbs [H0 H1 H2] (Hs & Ht & _ & Hl). unfold row_stop in *.
  pose proof (ceil_div_spec (row_total q) bs Hbs) as Hc.
  assert (1 <= ceil_div (row_total q) bs) by nia.
  unfold decode_slot, table_at. change (-1 <? 0) with true. cbv iota zeta.
  rewrite (proj2 (Z.ltb_ge (-1 + _) 0)) by lia. cbv iota.
  destruct (lookup_lt_is_Some_2 (row_table q) (Z.to_nat (-1 + Z.of_nat (length (row_table q)))))
    as [b Hb]; [lia|].
  rewrite Hb. cbn [obind]. f_equal.
  assert ((row_total q - 1) `div` bs = ceil_div (row_total q) bs - 1) as E
    by (symmetry; apply (Z.div_unique_pos _ _ _ (row_total q - 1 - (ceil_div (row_total q) bs - 1) * bs)); lia).
  unfold slot_of. rewrite Z.mod_eq, E by lia.
  rewrite (list_lookup_total_correct _ _ b); [lia|]. rewrite <-Hb. f_equal. lia.
Qed.

Lemma prepare_decode_run qs :
  0 < bs → qs ≠ [] → Forall row_ready qs → Forall row_decodes qs →
  ∃ c, prepare_decode bs qs = Ok c ∧ input_ids c = concat (row_ids <$> qs) ∧
    positions c = concat (row_positions <$> qs) ∧
    slot_mapping (call_context c) = Some (concat (row_write_slots <$> qs)) ∧
    query_context_lengths (call_context c) =
      Some (concat ((λ q, py_range (row_cached q + 1) (row_stop q + 1)) <$> qs)) ∧
    context_lens (call_context c) = query_context_lengths (call_context c) ∧
    ∃ w t, block_tables (call_context c) = Some t ∧
      Forall2 (λ q r, length r = w ∧ take (length (row_table q)) r = Z.of_nat <$> row_table q) qs t.
Proof.
  intros Hbs Hne Hr Hd. unfold prepare_decode.
  rewrite (omap_all_eq _ (λ q, slot_of bs (row_table q) (row_total q - 1))).
  2: { intros q Hq. rewrite Forall_forall in Hr, Hd. by apply decode_slot_eq; auto. }
  cbn [obind]. destruct (block_tables_run qs Hne) as (w & t & -> & Ht). cbn [obind].
  eexists. split; [reflexivity|]. simpl. clear Hne. cut (
    row_last <$> qs = concat (row_ids <$> qs) ∧
    (λ q, row_total q - 1) <$> qs = concat (row_positions <$> qs) ∧
    (λ q, slot_of bs (row_table q) (row_total q - 1)) <$> qs = concat (row_write_slots <$> qs) ∧
    row_total <$> qs = concat ((λ q, py_range (row_cached q + 1) (row_stop q + 1)) <$> qs)).
  { intros (H1 & H2 & H3 & H4). split; [exact H1|]. split; [exact H2|]. split; [by rewrite H3|].
    split; [by rewrite H4|]. split; [done|]. by exists w, t. }
  clear Ht. induction qs as [|q qs IH]; [done|].
  apply Forall_cons in Hr as [_ Hr], Hd as [(Hs & Ht & Hp & _) Hd].
  destruct (IH Hr Hd) as (H1 & H2 & H3 & H4). rewrite !fmap_cons. simpl. rewrite H1, H2, H3, H4.
  unfold row_ids, row_write_slots, row_positions. unfold row_stop in *. rewrite Hp.
  rewrite (py_range_cons (row_cached q)), (py_range_empty (row_cached q + 1)) by lia.
  rewrite (py_range_cons (row_cached q + 1)), (py_range_empty (row_cached q + 1 + 1)) by lia.
  simpl. split_and!; try done; do 2 f_equal; lia.
Qed.
End rows.

(** ** Two views of one batch *)

Section views.
Context {A B : Type} `{!BatchRow A} `{!BatchRow B}.

(** The rows agree on everything input preparation reads. *)
Record same_row (a : A) (b : B) : Prop := {
  sr_cached : row_cached a = row_cached b;
  sr_scheduled : row_scheduled a = row_scheduled b;
  sr_total : row_total a = row_total b;
  sr_prefill : row_prefill a = row_prefill b;
  sr_last : row_last a = row_last b;
  sr_table : row_table a = row_table b;
  sr_input : row_input a = row_input b;
}.

Lemma same_rows_tables (l : list A) (k : list B) :
  Forall2 same_row l k → prepare_block_tables l = prepare_block_tables k.
Proof.
  intros H. unfold prepare_block_tables.
  assert ((λ q, length (row_table q)) <$> l = (λ q, length (row_table q)) <$> k) as ->.
  { induction H as [|x y l k [] _ IH]; [done|]. rewrite !fmap_cons, IH. congruence. }
  destruct ((λ q, length (row_table q)) <$> k) as [|n ns]; [done|]. f_equal.
  induction H as [|x y l k [] _ IH]; [done|]. rewrite !fmap_cons, IH. congruence.
Qed.

Lemma same_rows_ragged bs (l : list A) (k : list B) g ix :
  Forall2 same_row l k →
  ofold (ragged_row bs) (zip ix l) g = ofold (ragged_row bs) (zip ix k) g.
Proof.
  intros H. revert g ix. induction H as [|a b l k Hab _ IH]; intros g [|i ix]; try done.
  cbn [zip zip_with ofold].
  assert (ragged_row bs g (i, a) = ragged_row bs g (i, b)) as ->.
  { destruct Hab as [E1 E2 E3 E4 E5 E6 E7]. unfold ragged_row. by rewrite E1, E2, E3, E4, E5, E6, E7. }
  destruct (ragged_row bs g (i, b)); [|done]. apply IH.
Qed.

Lemma same_rows_inputs bs hp (l : list A) (k : list B) :
  Forall2 same_row l k → prepare_inputs bs hp l = prepare_inputs bs hp k.
Proof.
  intros H. unfold prepare_inputs, prepare_ragged, prepare_decode, enumerate.
  rewrite (same_rows_tables l k H), (Forall2_length _ _ _ H), (same_rows_ragged bs l k _ _ H).
  destruct hp.
  - destruct (ofold _ _ _); [|done]. cbn [obind]. by destruct H as [|x y l k [_ _ _ _ _ -> _] _].
  - assert (omap_all (decode_slot bs) l = omap_all (decode_slot bs) k ∧
      row_last <$> l = row_last <$> k ∧ row_total <$> l = row_total <$> k ∧
      (λ q, row_total q - 1) <$> l = (λ q, row_total q - 1) <$> k) as (-> & -> & -> & ->); [|done].
    induction H as [|x y l k [E1 E2 E3 E4 E5 E6 E7] _ (H1 & H2 & H3 & H4)]; [done|].
    rewrite !fmap_cons, H2, H3, H4, E3, E5. simpl. rewrite H1. unfold decode_slot.
    by rewrite E3, E6.
Qed.
End views.

(** The wire record of a sequence is the same row. *)
Lemma from_sequence_same q w : from_sequence q = Ok w → same_row q w.
Proof.
  unfold from_sequence. intros [_ [_ [= <-]]%obind_unit_ok]%obind_unit_ok. by split.
Qed.

Lemma from_sequence_ok q :
  seq_wf q → 0 <= num_cached_tokens q → 0 < num_scheduled_tokens q →
  num_cached_tokens q + num_scheduled_tokens q <= num_tokens q →
  ∃ w, from_sequence q = Ok w.
Proof.
  intros [Hl _ _] H0 H1 H2. unfold from_sequence.
  rewrite (proj2 (Z.ltb_ge _ 0)), (proj2 (Z.leb_gt _ 0)), (proj2 (Z.ltb_ge _ _)) by lia. simpl.
  rewrite length_slice by lia. rewrite Z.add_simpl_l, Z.eqb_refl. by eexists.
Qed.

(** ** The batch of a step *)

(** A name counted once stands at one place. *)
Lemma count_once_nth i (l : list nat) j j' :
  (count i l <= 1)%nat → l !! j = Some i → l !! j' = Some i → j' = j.
Proof.
  revert j j'. induction l as [|x l IH]; intros j j' Hc Hj Hj'; [done|].
  unfold count in *. simpl in Hc. fold (count i l) in *.
  destruct (Nat.eq_dec x i) as [->|Hne].
  - assert (i ∉ l) as Hn by (intros Hin; apply count_pos in Hin; lia).
    destruct j as [|j], j' as [|j']; simpl in *; try done;
      destruct Hn; by eapply list_elem_of_lookup_2.
  - destruct j as [|j], j' as [|j']; simpl in *; try congruence. f_equal. by apply (IH j j').
Qed.

Section step.
Context (compute_hash : list Z → Z → Z) (clock : nat → Z)
  (compute_hash_nonneg : ∀ toks p, 0 <= compute_hash toks p).
#[local] Abbreviation kv_inv := (kv_inv compute_hash).
#[local] Instance runner_manager : KVAllocator compute_hash kv_inv :=
  block_manager_contract compute_hash compute_hash_nonneg.

(** The tokens scheduled for a row. *)
Definition scheduled_span (q : sequence) : list Z :=
  slice (token_ids q) (num_cached_tokens q) (num_cached_tokens q + num_scheduled_tokens q).

(** A scheduled row is ready, and its input is its scheduled span. *)
Lemma scheduled_ready l s k :
  sinv kv_inv [] l s → k ∈ l → k ∈ waiting s ++ running s →
  ∃ q, seqs s !! k = Some q ∧ row_ready (bsz s) q ∧ row_ids q = scheduled_span q ∧
    cov_exact (bsz s) q ∧ (k ∈ running s → row_stop q = num_tokens q).
Proof.
  intros Hs Hk Hq. pose proof (si_heap _ _ _ _ Hs) as Hi.
  assert (∃ q, seqs s !! k = Some q ∧ cov_exact (bsz s) q ∧ 0 < num_scheduled_tokens q ∧
    (is_prefill q = true ∨ num_scheduled_tokens q = 1 ∧ row_stop q = num_tokens q) ∧
    (k ∈ running s → row_stop q = num_tokens q))
    as (q & E & Hc & Hn & Hp & Hrun).
  { apply elem_of_app in Hq as [Hw|Hr].
    - destruct (si_wait _ _ _ _ Hs k Hw) as (q & E & [_ Hpf] & Hc & _ & _ & Hn).
      rewrite decide_True in Hn by done. exists q. split_and!; try done; [by left|].
      intros Hr. pose proof (si_nodup _ _ _ _ Hs) as Hnd. apply NoDup_app in Hnd as (_ & Hd & _).
      destruct (Hd k Hw). rewrite app_nil_r. done.
    - destruct (si_run _ _ _ _ Hs k) as (q & E & _ & Hc & Hn); [by rewrite app_nil_r|].
      rewrite decide_True in Hn by done. destruct Hn as (? & ? & Hp). exists q.
      split_and!; try done. destruct Hp; [by left|by right]. }
  exists q. split; [done|]. destruct Hc as [H0 H1 H2 H3]. split; [|split; [|done]].
  - split; unfold row_stop; simpl; lia.
  - unfold row_ids. simpl. destruct Hp as [->|[Hp1 Hp2]]; [done|].
    destruct (is_prefill q); [done|]. unfold row_stop in Hp2. simpl in Hp2.
    destruct (kv_seq _ _ _ Hi E) as [_ [Hl _ Hlast]]. unfold scheduled_span, slice.
    apply last_Some in Hlast as [l' El]. rewrite El in Hl |- *. rewrite length_app in Hl. simpl in Hl.
    rewrite drop_app_length' by lia. by replace (Z.to_nat _) with 1%nat by lia.
Qed.

(** The blocks written by a step: private, and unknown to the prefix cache. *)
Definition private_block (h : heap) (i : nat) : Prop :=
  ∃ b, blocks (hp_bm h) !! i = Some b ∧ b_ref_count b = 1 ∧ b_hash b = -1.

Lemma write_block h k q p :
  kv_inv h → hp_seqs h !! k = Some q →
  num_cached_tokens q <= p < Z.of_nat (length (block_table q)) * block_size (hp_bm h) →
  ∃ i, block_table q !! Z.to_nat (p `div` block_size (hp_bm h)) = Some i ∧ private_block h i ∧
    ∀ k' q' j', hp_seqs h !! k' = Some q' → block_table q' !! j' = Some i →
      k' = k ∧ j' = Z.to_nat (p `div` block_size (hp_bm h)).
Proof.
  intros (Hok & _ & Hc) Hk Hp. destruct (ok_size _ _ Hok) as [Hbs _].
  pose proof (cov_bound _ _ _ (Hc _ _ Hk)) as [H0 _]. set (bs := block_size (hp_bm h)) in *.
  pose proof (Z.div_pos p bs ltac:(lia) Hbs). pose proof (Z.mul_div_le p bs Hbs).
  pose proof (Z.mul_succ_div_gt p bs Hbs).
  destruct (lookup_lt_is_Some_2 (block_table q) (Z.to_nat (p `div` bs))) as [i Hi]; [nia|].
  exists i. split; [done|]. destruct (cov_pos _ _ _ (Hc _ _ Hk) _ _ Hi) as (b & Hb & Hpos).
  unfold position_ok in Hpos. fold bs in Hpos. rewrite (proj2 (Z.leb_gt _ _)) in Hpos by lia.
  destruct Hpos as (Hh & _ & Hr). split; [by exists b|].
  intros k' q' j' Hk' Hj'. assert (k' = k) as ->.
  { destruct (decide (k' = k)) as [|Hne]; [done|exfalso].
    apply (once_elsewhere h k q _ i b k' q' Hok Hk Hi Hb Hr Hk' Hne). by eapply list_elem_of_lookup_2. }
  split; [done|]. simplify_eq. destruct (ok_block _ _ Hok _ _ Hb) as [_ Hrefs _ _].
  unfold none in Hrefs. pose proof (refs_ge _ _ _ i Hk) as Hge.
  apply (count_once_nth i (block_table q)); [lia|done..].
Qed.

Lemma slot_inj bs t t' p p' :
  0 < bs → slot_of bs t p = slot_of bs t' p' →
  t !!! Z.to_nat (p `div` bs) = t' !!! Z.to_nat (p' `div` bs) ∧ p `mod` bs = p' `mod` bs.
Proof.
  intros Hbs E. unfold slot_of in E. pose proof (Z.mod_pos_bound p bs Hbs).
  pose proof (Z.mod_pos_bound p' bs Hbs). rewrite !(Z.mul_comm _ bs) in E.
  apply Z.div_mod_unique in E as [E1 E2]; [|by left..]. split; [lia|done].
Qed.

(** The slot a scheduled row writes is in nobody else's table, at no other
    position of its own. *)
Lemma write_slot_unique h k q p k' q' p' :
  kv_inv h → hp_seqs h !! k = Some q → hp_seqs h !! k' = Some q' →
  num_cached_tokens q <= p < Z.of_nat (length (block_table q)) * block_size (hp_bm h) →
  0 <= p' < Z.of_nat (length (block_table q')) * block_size (hp_bm h) →
  slot_of (block_size (hp_bm h)) (block_table q) p =
    slot_of (block_size (hp_bm h)) (block_table q') p' → k = k' ∧ p = p'.
Proof.
  intros Hi Hk Hk' Hp Hp' E. pose proof Hi as (Hok & _ & Hc).
  destruct (ok_size _ _ Hok) as [Hbs _]. pose proof (cov_bound _ _ _ (Hc _ _ Hk)) as [H0 _].
  destruct (write_block h k q p Hi Hk Hp) as (i & Ht & _ & Honly).
  set (bs := block_size (hp_bm h)) in *. apply slot_inj in E as [E1 E2]; [|done].
  pose proof (Z.div_pos p' bs ltac:(lia) Hbs). pose proof (Z.div_pos p bs ltac:(lia) Hbs).
  pose proof (Z.mul_div_le p' bs Hbs).
  destruct (lookup_lt_is_Some_2 (block_table q') (Z.to_nat (p' `div` bs))) as [i' Ht']; [nia|].
  rewrite (list_lookup_total_correct _ _ _ Ht), (list_lookup_total_correct _ _ _ Ht') in E1.
  subst i'. destruct (Honly k' q' _ Hk' Ht') as [-> Ej]. split; [done|].
  rewrite (Z.div_mod p bs), (Z.div_mod p' bs) by lia. rewrite E2. f_equal. f_equal. lia.
Qed.

(** ** The properties *)

#[local] Abbreviation schedule := (schedule compute_hash clock).

(** The rows of a scheduled batch. *)
Lemma scheduled_rows s l hp s' :
  sinv kv_inv [] [] s → schedule s = (Ok (l, hp), s') →
  sinv kv_inv [] l s' ∧ NoDup l ∧ l ≠ [] ∧ (hp = false → running s' = l) ∧
  ∃ qs, Forall2 (λ k q, seqs s' !! k = Some q) l qs ∧ Forall (row_ready (bsz s')) qs ∧
    row_ids <$> qs = scheduled_span <$> qs ∧
    (hp = false → Forall (row_decodes (bsz s')) qs).
Proof.
  intros Hs E. pose proof (schedule_run compute_hash clock kv_inv s Hs) as Hr. rewrite E in Hr.
  destruct Hr as (Hs' & Hnd & Hne & Hsub & _ & _ & _ & _ & dec & pre & El & Ehp & Hdec & Hrun).
  split; [done|]. split; [done|]. split; [done|]. assert (hp = false → running s' = l ∧ l = dec) as Hd.
  { intros ->. destruct (decide (pre = [])) as [->|]; [|by rewrite bool_decide_eq_false_2 in Ehp].
    split; [by apply Hrun|]. by rewrite El, app_nil_r. }
  split; [apply Hd|]. clear Ehp El Hrun Hne.
  assert (∀ k, k ∈ l → ∃ q, seqs s' !! k = Some q ∧ row_ready (bsz s') q ∧
    row_ids q = scheduled_span q ∧ (hp = false → row_decodes (bsz s') q)) as Hrow.
  { intros k Hk. destruct (scheduled_ready l s' k Hs' Hk (Hsub k Hk)) as (q & Eq & Hq & Hid & Hc & Hst).
    exists q. split_and!; try done. intros Hhp. destruct (Hd Hhp) as [Hrn ->].
    rewrite Forall_forall in Hdec. destruct (Hdec k Hk) as (q' & Eq' & Hsc & Hpf).
    assert (q' = q) as -> by congruence. rewrite Hrn in Hst. specialize (Hst Hk).
    split; [done|]. split; [done|]. split; [done|].
    change (row_total q) with (num_tokens q). rewrite <-Hst. apply Hc. }
  clear -Hrow. induction l as [|k l IH].
  { exists []. split_and!; constructor. }
  destruct (Hrow k ltac:(set_solver)) as (q & Eq & Hq & Hid & Hdq).
  destruct IH as (qs & H1 & H2 & H3 & H4); [intros; apply Hrow; set_solver|].
  exists (q :: qs). split; [by constructor|]. split; [by constructor|].
  rewrite !fmap_cons, Hid, H3. split; [done|]. intros Hhp. constructor; auto.
Qed.

Lemma step_call_run s l hp s' :
  sinv kv_inv [] [] s → schedule s = (Ok (l, hp), s') →
  ∃ qs c, Forall2 (λ k q, seqs s' !! k = Some q) l qs ∧
    prepare_inputs (bsz s') hp qs = Ok c ∧
    input_ids c = concat (scheduled_span <$> qs) ∧
    positions c = concat (row_positions <$> qs) ∧
    slot_mapping (call_context c) = Some (concat (row_write_slots (bsz s') <$> qs)) ∧
    query_context_lengths (call_context c) =
      Some (concat ((λ q, py_range (num_cached_tokens q + 1) (row_stop q + 1)) <$> qs)) ∧
    ∃ w t, block_tables (call_context c) = Some t ∧
      Forall2 (λ q r, length r = w ∧ take (length (block_table q)) r = Z.of_nat <$> block_table q) qs t.
Proof.
  intros Hs E. destruct (scheduled_rows s l hp s' Hs E) as (Hs' & _ & Hne & _ & qs & Hqs & Hr & Hid & Hd).
  destruct (si_bs _ _ _ _ Hs') as [_ Hbs].
  assert (qs ≠ []) as Hqne by (intros ->; by apply Forall2_nil_inv_r in Hqs).
  exists qs. unfold prepare_inputs. destruct hp.
  - destruct (prepare_ragged_run (bsz s') qs ltac:(lia) Hqne Hr) as (c & Ec & []).
    exists c. rewrite <-Hid. split_and!; done.
  - destruct (prepare_decode_run (bsz s') qs ltac:(lia) Hqne Hr (Hd eq_refl))
      as (c & Ec & H1 & H2 & H3 & H4 & _ & H5).
    exists c. rewrite <-Hid. split_and!; done.
Qed.

(** C22: the model call of a scheduled step is the scheduled work: its token ids
    are the scheduled span of every row in batch order, its positions are the
    positions of those tokens, its slot mapping sends each of them to the
    physical slot of its position in the row's block table, each query sees
    exactly the prefix that ends with itself, and the block tables are padded to
    one width.  The ragged and the decode preparation agree on all of it. *)
Theorem step_inputs s l hp s' :
  sinv kv_inv [] [] s → schedule s = (Ok (l, hp), s') →
  ∃ qs c, Forall2 (λ k q, seqs s' !! k = Some q) l qs ∧
    prepare_inputs (bsz s') hp qs = Ok c ∧
    input_ids c = concat (scheduled_span <$> qs) ∧
    positions c = concat (row_positions <$> qs) ∧
    slot_mapping (call_context c) = Some (concat (row_write_slots (bsz s') <$> qs)) ∧
    query_context_lengths (call_context c) =
      Some (concat ((λ q, py_range (num_cached_tokens q + 1) (row_stop q + 1)) <$> qs)) ∧
    ∃ w t, block_tables (call_context c) = Some t ∧
      Forall2 (λ q r, length r = w ∧ take (length (block_table q)) r = Z.of_nat <$> block_table q) qs t.
Proof. apply step_call_run. Qed.

(** The written positions of a row are inside its table, past its coverage. *)
Lemma written_position bs q p :
  0 < bs → row_ready bs q → p ∈ row_positions q →
  num_cached_tokens q <= p < Z.of_nat (length (block_table q)) * bs.
Proof.
  intros Hbs [H0 H1 H2] [Hp1 Hp2]%elem_of_py_range. unfold row_stop in *. simpl in *.
  pose proof (ceil_div_spec (num_cached_tokens q + num_scheduled_tokens q) bs Hbs). nia.
Qed.

Lemma write_slots_nodup h l qs :
  kv_inv h → NoDup l → Forall2 (λ k q, hp_seqs h !! k = Some q) l qs →
  Forall (row_ready (block_size (hp_bm h))) qs →
  NoDup (concat (row_write_slots (block_size (hp_bm h)) <$> qs)).
Proof.
  intros Hi Hnd Hqs Hr. pose proof Hi as (Hok & _). destruct (ok_size _ _ Hok) as [Hbs _].
  assert (∀ k k' q q' p p', hp_seqs h !! k = Some q → hp_seqs h !! k' = Some q' →
    row_ready (block_size (hp_bm h)) q → row_ready (block_size (hp_bm h)) q' →
    p ∈ row_positions q → p' ∈ row_positions q' →
    slot_of (block_size (hp_bm h)) (block_table q) p =
      slot_of (block_size (hp_bm h)) (block_table q') p' → k = k' ∧ p = p') as Huniq.
  { intros k k' q q' p p' Hk Hk' Hq Hq' Hp Hp' E.
    pose proof (written_position _ _ _ Hbs Hq Hp). pose proof (written_position _ _ _ Hbs Hq' Hp').
    pose proof (rr_cached _ _ Hq'). simpl in *.
    eapply (write_slot_unique h k q p k' q' p'); try done; lia. }
  revert Hnd Hr. induction Hqs as [|k q l qs Hk Hqs IH]; intros Hnd Hr; [constructor|].
  apply NoDup_cons in Hnd as [Hn Hnd]. apply Forall_cons in Hr as [Hq Hr].
  rewrite fmap_cons. simpl. apply NoDup_app. split; [|split; [|by apply IH]].
  - unfold row_write_slots. simpl. apply NoDup_fmap_2_strong.
    + intros p p' Hp Hp' E. by apply (Huniq k k q q p p').
    + unfold row_positions, py_range. apply NoDup_fmap_2; [intros x y; lia|apply NoDup_seq].
  - intros x Hx Hx'. apply list_elem_of_fmap in Hx as (p & -> & Hp).
    apply list_elem_of_In, in_concat in Hx' as (sl & Hsl & Hin).
    apply list_elem_of_In, list_elem_of_fmap in Hsl as (q' & -> & Hq').
    apply list_elem_of_In, list_elem_of_fmap in Hin as (p' & E & Hp').
    apply list_elem_of_lookup in Hq' as [i Hq'].
    destruct (Forall2_lookup_r _ _ _ _ _ Hqs Hq') as (k' & Hk' & Hkq').
    destruct (Huniq k k' q q' p p' Hk Hkq' Hq) as [-> _]; try done.
    + rewrite Forall_lookup in Hr. by eapply Hr.
    + apply Hn. by eapply list_elem_of_lookup_2.
Qed.

Lemma step_private_run s l hp s' qs c slots :
  sinv kv_inv [] [] s → schedule s = (Ok (l, hp), s') →
  Forall2 (λ k q, seqs s' !! k = Some q) l qs →
  prepare_inputs (bsz s') hp qs = Ok c → slot_mapping (call_context c) = Some slots →
  NoDup slots ∧
  (∀ slot, slot ∈ slots → ∃ i, private_block (sc_heap s') i ∧
     Z.of_nat i * bsz s' <= slot < (Z.of_nat i + 1) * bsz s' ∧
     (i < length (blocks (hp_bm (sc_heap s'))))%nat) ∧
  ∀ k q p, seqs s' !! k = Some q → 0 <= p < num_cached_tokens q →
    slot_of (bsz s') (block_table q) p ∉ slots.
Proof.
  intros Hs E Hqs Ec Esl.
  destruct (scheduled_rows s l hp s' Hs E) as (Hs' & Hnd & _ & _ & qs' & Hqs' & Hr & _).
  destruct (step_call_run s l hp s' Hs E) as (qs2 & c2 & Hqs2 & Ec2 & _ & _ & Esl2 & _).
  assert (∀ a, Forall2 (λ k q, seqs s' !! k = Some q) l a → a = qs) as Huq.
  { intros a Ha. eapply Forall2_unique; [exact Ha|exact Hqs|]. intros x y z ??. congruence. }
  assert (qs' = qs) as -> by auto. assert (qs2 = qs) as -> by auto. clear Huq Hqs' Hqs2.
  assert (slots = concat (row_write_slots (bsz s') <$> qs)) as -> by congruence. clear Ec Ec2 Esl Esl2.
  pose proof (si_heap _ _ _ _ Hs') as Hi. pose proof Hi as (Hok & _ & Hc).
  destruct (ok_size _ _ Hok) as [Hbs _].
  split; [by eapply write_slots_nodup|].
  assert (∀ slot, slot ∈ concat (row_write_slots (bsz s') <$> qs) → ∃ k q p,
    seqs s' !! k = Some q ∧ slot = slot_of (bsz s') (block_table q) p ∧
    num_cached_tokens q <= p < Z.of_nat (length (block_table q)) * bsz s') as Hin.
  { intros slot Hsl. apply list_elem_of_In, in_concat in Hsl as (sl & Hsl & Hin).
    apply list_elem_of_In, list_elem_of_fmap in Hsl as (q & -> & Hq).
    apply list_elem_of_In, list_elem_of_fmap in Hin as (p & -> & Hp).
    apply list_elem_of_lookup in Hq as [i Hq].
    destruct (Forall2_lookup_r _ _ _ _ _ Hqs Hq) as (k & _ & Hk).
    exists k, q, p. split; [done|]. split; [done|]. apply written_position; [done| |done].
    rewrite Forall_lookup in Hr. by eapply Hr. }
  split.
  - intros slot (k & q & p & Hk & -> & Hp)%Hin.
    destruct (write_block (sc_heap s') k q p Hi Hk Hp) as (i & Ht & Hpriv & _). exists i.
    split; [done|]. unfold slot_of. rewrite (list_lookup_total_correct _ _ _ Ht).
    pose proof (Z.mod_pos_bound p (bsz s') Hbs). split; [lia|].
    apply (ok_table _ _ Hok k q); [done|]. by eapply list_elem_of_lookup_2.
  - intros k' q' p' Hk' Hp' (k & q & p & Hk & Esl & Hp)%Hin.
    pose proof (cov_table _ _ _ (Hc _ _ Hk')).
    destruct (write_slot_unique (sc_heap s') k q p k' q' p') as [-> ->]; try done; [lia|].
    rewrite Hk in Hk'. injection Hk' as ->. lia.
Qed.

Lemma workers_run s l hp s' qs :
  sinv kv_inv [] [] s → schedule s = (Ok (l, hp), s') →
  Forall2 (λ k q, seqs s' !! k = Some q) l qs →
  ∃ ws, compact_run_args (RunArgs qs hp) = Ok (ws, hp) ∧
    prepare_inputs (bsz s') hp ws = prepare_inputs (bsz s') hp qs.
Proof.
  intros Hs E Hqs. pose proof (schedule_run compute_hash clock kv_inv s Hs) as Hr. rewrite E in Hr.
  destruct Hr as (Hs' & _ & _ & Hsub & _).
  destruct (omap_all_total from_sequence qs) as (ws & Ews).
  { intros q [i Hq]%list_elem_of_lookup. destruct (Forall2_lookup_r _ _ _ _ _ Hqs Hq) as (k & Hk & Hkq).
    apply list_elem_of_lookup_2 in Hk.
    destruct (scheduled_ready l s' k Hs' Hk (Hsub k Hk)) as (q' & Eq & [H0 H1 _] & _ & [_ _ H2 _] & _).
    assert (q' = q) as -> by congruence. apply from_sequence_ok; try done.
    by destruct (kv_seq _ _ _ (si_heap _ _ _ _ Hs') Eq). }
  exists ws. unfold compact_run_args. rewrite Ews. split; [done|].
  symmetry. apply same_rows_inputs. eapply Forall2_impl; [by apply omap_all_ok|].
  intros q w. apply from_sequence_same.
Qed.

(** C27: tensor-parallel ranks agree: the batch of every scheduled step can be
    sent to the workers, and a worker prepares from the compact wire records
    exactly the model call (tokens, positions, slots, tables, context) that rank
    zero prepares from its sequences. *)
Theorem workers_prepare_same s l hp s' qs :
  sinv kv_inv [] [] s → schedule s = (Ok (l, hp), s') →
  Forall2 (λ k q, seqs s' !! k = Some q) l qs →
  ∃ ws, compact_run_args (RunArgs qs hp) = Ok (ws, hp) ∧
    prepare_inputs (bsz s') hp ws = prepare_inputs (bsz s') hp qs.
Proof. apply workers_run. Qed.

(** C20: a step never corrupts the KV cache: the slots it writes are pairwise
    distinct, each lies in a block of the pool that exactly one sequence owns
    and the prefix cache does not know, and none of them is the slot of a
    position any sequence has already cached. *)
Theorem step_writes_private s l hp s' qs c slots :
  sinv kv_inv [] [] s → schedule s = (Ok (l, hp), s') →
  Forall2 (λ k q, seqs s' !! k = Some q) l qs →
  prepare_inputs (bsz s') hp qs = Ok c → slot_mapping (call_context c) = Some slots →
  NoDup slots ∧
  (∀ slot, slot ∈ slots → ∃ i, private_block (sc_heap s') i ∧
     Z.of_nat i * bsz s' <= slot < (Z.of_nat i + 1) * bsz s' ∧
     (i < length (blocks (hp_bm (sc_heap s'))))%nat) ∧
  ∀ k q p, seqs s' !! k = Some q → 0 <= p < num_cached_tokens q →
    slot_of (bsz s') (block_table q) p ∉ slots.
Proof. apply step_private_run. Qed.

(** ** Replaying the step *)

Lemma last_ends l from : last (from :: ends from l) = Some (from + foldr Z.add 0 l).
Proof.
  revert from. induction l as [|n l IH]; intros from; [simpl; f_equal; lia|].
  cbn [ends]. change (last (from :: (from + n) :: ends (from + n) l))
    with (last ((from + n) :: ends (from + n) l)). rewrite IH. simpl. f_equal. lia.
Qed.

Lemma concat_lengths {A} (f : A → list Z) (g : A → Z) l :
  Forall (λ x, Z.of_nat (length (f x)) = g x) l →
  Z.of_nat (length (concat (f <$> l))) = foldr Z.add 0 (g <$> l).
Proof.
  induction 1 as [|x l Hx _ IH]; [done|]. rewrite !fmap_cons. cbn [concat foldr].
  rewrite length_app, Nat2Z.inj_add, IH. lia.
Qed.

Lemma step_shape s l s' qs c :
  sinv kv_inv [] [] s → schedule s = (Ok (l, true), s') →
  Forall2 (λ k q, seqs s' !! k = Some q) l qs →
  prepare_inputs (bsz s') true qs = Ok c → ragged_shape c (length l).
Proof.
  intros Hs E Hqs Ec.
  destruct (scheduled_rows s l true s' Hs E) as (Hs' & _ & Hne & _ & qs' & Hqs' & Hr & Hid & _).
  assert (qs' = qs) as ->.
  { eapply Forall2_unique; [exact Hqs'|exact Hqs|]. intros x y z ??. congruence. }
  destruct (si_bs _ _ _ _ Hs') as [_ Hbs].
  assert (qs ≠ []) as Hqne by (intros ->; by apply Forall2_nil_inv_r in Hqs).
  destruct (prepare_ragged_run (bsz s') qs ltac:(lia) Hqne Hr) as (c' & Ec' & Hc).
  simpl in Ec. rewrite Ec' in Ec. injection Ec as ->.
  destruct Hc as [H1 H2 H3 H4 _ _ H5 _ _ _ (w & t & Et & Ht) _].
  pose proof (si_heap _ _ _ _ Hs') as Hi.
  assert (Forall (λ q, Z.of_nat (length (row_ids q)) = row_scheduled q ∧
    Z.of_nat (length (row_positions q)) = row_scheduled q ∧ 0 < row_scheduled q) qs) as Hlen.
  { apply Forall_lookup. intros i q Hq. rewrite Forall_lookup in Hr. destruct (Hr i q Hq) as [H0 Hn _].
    destruct (Forall2_lookup_r _ _ _ _ _ Hqs Hq) as (k & Hk & Hkq).
    pose proof (f_equal (lookup i) Hid) as Hidi. rewrite !list_lookup_fmap, Hq in Hidi. simpl in Hidi.
    injection Hidi as ->. destruct (kv_seq _ _ _ Hi Hkq) as [_ [Hl _ _]].
    split; [|split; [|done]].
    - unfold scheduled_span. rewrite length_slice; [simpl; lia|simpl in *; lia..|].
      apply list_elem_of_lookup_2 in Hk. pose proof (schedule_run compute_hash clock kv_inv s Hs) as Hsr.
      rewrite E in Hsr. destruct Hsr as (_ & _ & _ & Hsub & _).
      destruct (scheduled_ready l s' k Hs' Hk (Hsub k Hk)) as (q' & Eq & _ & _ & [_ _ Hb _] & _).
      assert (q' = q) as -> by congruence. lia.
    - unfold row_positions, row_stop. rewrite length_py_range. lia. }
  assert (Z.of_nat (length (input_ids c)) = foldr Z.add 0 (row_scheduled <$> qs)) as Hids.
  { rewrite H1. apply concat_lengths. eapply Forall_impl; [exact Hlen|]. by intros q (? & _). }
  assert (Z.of_nat (length (concat (row_positions <$> qs))) = foldr Z.add 0 (row_scheduled <$> qs)) as Hpos.
  { apply concat_lengths. eapply Forall_impl; [exact Hlen|]. by intros q (_ & ? & _). }
  pose proof (Forall2_length _ _ _ Hqs) as Hll. pose proof (Forall2_length _ _ _ Ht) as Htl.
  split.
  - split; [destruct l; [done|simpl; lia]|]. intros En. rewrite En in Hids. destruct qs as [|q qs]; [done|].
    apply Forall_cons in Hlen as [(_ & _ & Hq) Hlen]. rewrite fmap_cons in Hids.
    cbn [foldr length] in Hids. assert (0 <= foldr Z.add 0 (row_scheduled <$> qs)); [|lia].
    clear -Hlen. induction Hlen as [|x xs (_ & _ & ?) _ IH]; [done|]. rewrite fmap_cons. cbn [foldr]. lia.
  - rewrite H2. lia.
  - eexists. split; [done|]. unfold row_write_slots. assert (length (concat
      ((λ q, slot_of (bsz s') (row_table q) <$> row_positions q) <$> qs)) =
      length (concat (row_positions <$> qs))) as ->; [|lia].
    clear. induction qs as [|q qs IH]; [done|]. rewrite !fmap_cons. cbn [concat].
    by rewrite !length_app, IH, length_fmap.
  - eexists. split; [done|]. split.
    + simpl. by rewrite length_ends, length_fmap, Hll.
    + rewrite last_ends. f_equal. lia.
  - eexists. split; [done|]. simpl. by rewrite length_ends, length_fmap, Hll.
  - exists w, t. split; [done|]. split; [lia|].
    clear -Ht. induction Ht as [|x y xs ys [? _] _ IH]; by constructor.
Qed.

(** Replaying a captured graph is running the step: when a graph is selected
    for a scheduled ragged step it is the least captured one that holds the
    step, filling the buffers succeeds, and the buffers then hold exactly the
    live tokens, positions, slots and block tables, every padding token writes
    no slot, and every padding segment is empty. *)
Theorem ragged_replay_exact s l s' qs c graphs v ml key T S1 w :
  sinv kv_inv [] [] s → schedule s = (Ok (l, true), s') →
  Forall2 (λ k q, seqs s' !! k = Some q) l qs →
  prepare_inputs (bsz s') true qs = Ok c →
  buffers_ok v T S1 w → (0 < S1)%nat →
  Forall (λ k : graph_key, k.1 <= Z.of_nat T ∧ k.2 <= Z.of_nat S1) graphs →
  ragged_graph graphs (Some v) ml c = Some key →
  (key ∈ graphs ∧ Z.of_nat (length (input_ids c)) <= key.1 ∧ Z.of_nat (length l) <= key.2) ∧
  ∃ v', _fill_varlen v c key = Ok v' ∧ replay_inputs c (length l) T S1 w v'.
Proof.
  intros Hs E Hqs Ec Hb HS1 Hcap Hg. pose proof (step_shape s l s' qs c Hs E Hqs Ec) as Hsh.
  destruct (ragged_graph_inv graphs v ml c (length l) key Hsh Hg) as (Hin & Ht & Hns & _).
  split; [done|]. rewrite Forall_forall in Hcap. destruct (Hcap key Hin) as [Hk1 Hk2].
  by eapply fill_run.
Qed.
End step.
