(* ===== verification/RunnerRunSpec.v ===== *)
(** * RunnerRunSpec: a scheduled step on the device

    What [run] answers for a batch [schedule] chose: every row is sampled from
    the hidden state of its own last scheduled token, captured graphs change
    nothing but the miss counter, and the answer is one [postprocess] commits.
    The device appears as an environment; a captured graph is faithful when
    replaying it on buffers that hold a call is running that call. *)
From Stdlib Require Import QArith.
From S2P Require Import Prelude SamplingParams Sequence Heap BlockManager Reservation AllocatorInv.
From S2P Require Import BlockManagerInv CacheInv SpecMemory SpecRoutes RouteInv RouteSpec Scheduler.
From S2P Require Import KVContract SchedInv ScheduleSpec PrefillSpec StepSpec EngineLoop TpTransport.
From S2P Require Import RunnerInput RunnerGraph RunnerRun RunnerSpec.
#[local] Open Scope Z_scope.

(** ** Lists *)

Lemma zip_fmap_lr {A B C D} (f : A → C) (g : B → D) (l : list A) (k : list B) :
  zip (f <$> l) (g <$> k) = (λ ab : A * B, (f ab.1, g ab.2)) <$> zip l k.
Proof. revert k. induction l as [|a l IH]; intros [|b k]; try done. csimpl. by rewrite IH. Qed.

Lemma filter_zip_r {A B} (P : A → Prop) `{!∀ x, Decision (P x)} (l : list A) (k : list B) :
  length l = length k →
  (filter (λ ab : A * B, P ab.1) (zip l k)).*1 = filter P l.
Proof.
  revert k. induction l as [|a l IH]; intros [|b k] [=]; [done|]. csimpl.
  rewrite !filter_cons. simpl. destruct (decide (P a)); csimpl; by rewrite IH.
Qed.

Lemma enumerate_NoDup {A} (l : list A) : NoDup (enumerate l).*1.
Proof.
  rewrite enumerate_fst. unfold py_range. apply NoDup_fmap_2; [intros x y; lia|apply NoDup_seq].
Qed.

Lemma fmap_sublist {A B} (f : A → B) (l k : list A) : sublist l k → sublist (f <$> l) (f <$> k).
Proof. induction 1; csimpl; by constructor. Qed.

Lemma zip_sublist {A B} (l : list A) (k : list B) : sublist (zip l k).*1 l.
Proof.
  revert k. induction l as [|a l IH]; intros [|b k]; csimpl; try constructor; [|done].
  apply sublist_nil_l.
Qed.

(** The list a strict [zip] fills in. *)
Lemma place_spec (l : list Z) (ps : list (Z * Z)) :
  NoDup ps.*1 → Forall (λ p, 0 <= p.1 < Z.of_nat (length l)) ps →
  let r := foldl (λ l it, <[Z.to_nat it.1 := it.2]> l) l ps in
  length r = length l ∧
  (∀ i t, (i, t) ∈ ps → r !! Z.to_nat i = Some t) ∧
  ∀ i, Z.of_nat i ∉ ps.*1 → r !! i = l !! i.
Proof.
  revert l. induction ps as [|[j t] ps IH]; intros l Hnd Hb; [split_and!; try done; set_solver|].
  rewrite fmap_cons in Hnd. apply NoDup_cons in Hnd as [Hj Hnd]. apply Forall_cons in Hb as [Hbj Hb].
  simpl in Hj, Hbj. cbn [foldl fst snd]. set (l1 := <[Z.to_nat j := t]> l).
  assert (length l1 = length l) as Hl1 by apply length_insert.
  destruct (IH l1 Hnd) as (H1 & H2 & H3); [by rewrite Hl1|]. cbv zeta. split; [by rewrite H1|]. split.
  - intros i t' [[= -> ->]|Hin]%elem_of_cons; [|by apply H2].
    rewrite H3; [|rewrite Z2Nat.id by lia; done]. apply list_lookup_insert_eq. lia.
  - intros i. rewrite fmap_cons, not_elem_of_cons. simpl. intros [Hne Hn]. rewrite H3 by done.
    apply list_lookup_insert_ne. lia.
Qed.

(** ** The head *)

(** The hidden state of the last scheduled token of every row. *)
Definition row_ends {row} `{!BatchRow row} (qs : list row) : list Z := ends 0 (row_scheduled <$> qs).

Lemma ends_lookup l from i n :
  l !! i = Some n → ends from l !! i = Some (from + foldr Z.add 0 (take i l) + n).
Proof.
  revert from i. induction l as [|m l IH]; intros from [|i] E; simplify_eq/=.
  - f_equal. lia.
  - rewrite IH by done. f_equal. lia.
Qed.

Lemma sum_take_le l i :
  Forall (λ n, 0 <= n) l → 0 <= foldr Z.add 0 (take i l) <= foldr Z.add 0 l.
Proof.
  intros H. revert i. induction H as [|n l Hn _ IH]; intros [|i]; simpl; [lia..| |].
  - specialize (IH 0%nat). rewrite take_0 in IH. simpl in IH. lia.
  - specialize (IH i). lia.
Qed.

Lemma sum_split l i n :
  l !! i = Some n →
  foldr Z.add 0 l = foldr Z.add 0 (take i l) + n + foldr Z.add 0 (drop (S i) l).
Proof.
  revert i. induction l as [|m l IH]; intros [|i] E; [done|done| |].
  - injection E as ->. change (drop 1 (n :: l)) with l. cbn [take foldr]. lia.
  - cbn [take foldr]. rewrite (IH i E). change (drop (S (S i)) (m :: l)) with (drop (S i) l). lia.
Qed.

Lemma sum_take_S l i n :
  l !! i = Some n → foldr Z.add 0 (take (S i) l) = foldr Z.add 0 (take i l) + n.
Proof.
  revert i. induction l as [|m l IH]; intros [|i] E; [done|done| |].
  - injection E as ->. change (take 1 (n :: l)) with (n :: take 0 l). rewrite !take_0. simpl. lia.
  - specialize (IH i E). change (take (S (S i)) (m :: l)) with (m :: take (S i) l).
    change (take (S i) (m :: l)) with (m :: take i l). cbn [foldr]. lia.
Qed.

Lemma ends_bound l i e :
  Forall (λ n, 0 < n) l → ends 0 l !! i = Some e → 0 < e <= foldr Z.add 0 l.
Proof.
  intros Hl E. destruct (lookup_lt_is_Some_2 l i) as [n Hn].
  { apply lookup_lt_Some in E. by rewrite length_ends in E. }
  rewrite (ends_lookup _ _ _ _ Hn) in E. injection E as <-. rewrite (sum_split l i n Hn).
  assert (Forall (λ n, 0 <= n) l) as H0 by (eapply Forall_impl; [exact Hl|]; simpl; lia).
  pose proof (sum_take_le l i H0). pose proof (sum_take_le (drop (S i) l) 0 ltac:(by apply Forall_drop)).
  rewrite Forall_lookup in Hl. specialize (Hl i n Hn). cbn beta in Hl.
  rewrite take_0 in *. cbn [foldr] in *. lia.
Qed.

Lemma enumerate_snd {A} (l : list A) : (enumerate l).*2 = l.
Proof. unfold enumerate. apply snd_zip. rewrite length_py_range. lia. Qed.

Lemma tensor_at_nth {A} (x : list A) e a :
  x !! Z.to_nat (e - 1) = Some a → 0 < e → tensor_at x (e - 1) = Ok a.
Proof.
  intros E He. unfold tensor_at. rewrite (proj2 (Z.ltb_ge (e - 1) 0)) by lia. cbv zeta.
  by rewrite (proj2 (Z.ltb_ge (e - 1) 0)), E by lia.
Qed.

Section head.
Context {hidden logits : Type} (env : model_env hidden logits) (cfg : run_config).

(** The hidden states of the ends [es]. *)
Definition at_ends (hs : list hidden) (es : list Z) : list hidden := omap (λ e, hs !! Z.to_nat (e - 1)) es.

Definition row_outputs (qs : list sequence) (hs : list hidden) : list ((Z * sequence) * hidden) :=
  zip (enumerate qs) (at_ends hs (row_ends qs)).

Definition finishes (q : sequence) : Prop :=
  num_cached_tokens q + num_scheduled_tokens q = num_tokens q.
#[local] Instance finishes_dec q : Decision (finishes q) :=
  decide (num_cached_tokens q + num_scheduled_tokens q = num_tokens q).

(** The rows that are sampled, each with its place and its hidden state. *)
Definition sampled_outputs (hp : bool) (qs : list sequence) (hs : list hidden)
    : list ((Z * sequence) * hidden) :=
  if rn_invariant cfg && hp then filter (λ x, finishes x.1.2) (row_outputs qs hs)
  else row_outputs qs hs.

Definition ends_in (hs : list hidden) (es : list Z) : Prop :=
  Forall (λ e, 0 < e <= Z.of_nat (length hs)) es.

Lemma at_ends_run hs es :
  ends_in hs es →
  omap_all (tensor_at hs) ((λ e, e - 1) <$> es) = Ok (at_ends hs es) ∧
  length (at_ends hs es) = length es.
Proof.
  induction 1 as [|e es He _ [IH1 IH2]]; [done|].
  destruct (lookup_lt_is_Some_2 hs (Z.to_nat (e - 1))) as [h Hh]; [lia|].
  rewrite fmap_cons. unfold at_ends in *. cbn [omap_all omap list_omap]. rewrite Hh.
  rewrite (tensor_at_nth hs e h Hh) by lia. rewrite IH1. cbn [obind length]. by rewrite IH2.
Qed.

Lemma emission_run hs (iqs : list (Z * sequence)) es :
  ends_in hs es → length iqs = length es →
  omap_all (tensor_at hs)
    (omap (λ qe : sequence * Z, if row_stop qe.1 =? row_total qe.1 then Some (qe.2 - 1) else None)
       (zip iqs.*2 es)) =
  Ok (filter (λ x : (Z * sequence) * hidden, finishes x.1.2) (zip iqs (at_ends hs es))).*2.
Proof.
  intros Hes. revert iqs. induction Hes as [|e es He _ IH]; intros [|[i q] iqs] [=]; [done|].
  destruct (lookup_lt_is_Some_2 hs (Z.to_nat (e - 1))) as [h Hh]; [lia|].
  unfold at_ends in *. csimpl. rewrite Hh. csimpl. rewrite filter_cons. simpl. unfold finishes at 1.
  unfold row_stop. simpl. destruct (Z.eqb_spec (num_cached_tokens q + num_scheduled_tokens q) (num_tokens q)).
  - rewrite decide_True by done. csimpl. rewrite (tensor_at_nth hs e h Hh) by lia.
    by rewrite IH.
  - rewrite decide_False by done. by apply IH.
Qed.

(** The logits of a ragged call. *)
Lemma ragged_logits bs qs c hs :
  ragged_call bs qs c → Forall (row_ready bs) qs →
  Z.of_nat (length hs) = foldr Z.add 0 (row_scheduled <$> qs) →
  compute_logits env cfg (call_context c) hs = Ok (linear env <$> (sampled_outputs true qs hs).*2).
Proof.
  intros [_ _ Hcu _ _ _ _ _ _ Hem _ [Hpf _]] Hr Hl. unfold compute_logits. rewrite Hpf.
  assert (ends_in hs (row_ends qs)) as Hes.
  { unfold ends_in. rewrite Hl. apply Forall_lookup. intros i e He. eapply ends_bound; [|exact He].
    apply Forall_fmap. eapply Forall_impl; [exact Hr|]. by intros q []. }
  unfold last_indices, sampled_outputs, row_outputs. rewrite Hem, Hcu. cbn [default from_option tail].
  assert (length (enumerate qs) = length (row_ends qs)) as Hle
    by (unfold row_ends; by rewrite length_enumerate, length_ends, length_fmap).
  unfold id. destruct (rn_invariant cfg); cbn [andb].
  - pose proof (emission_run hs (enumerate qs) (row_ends qs) Hes Hle) as He.
    rewrite enumerate_snd in He. unfold row_ends in He |- *. by rewrite He.
  - destruct (at_ends_run hs _ Hes) as [He Hlen]. change (tail (0 :: ends 0 (row_scheduled <$> qs))) with (row_ends qs).
    rewrite He. cbn [obind].
    rewrite snd_zip; [done|]. rewrite Hlen. lia.
Qed.

Lemma at_ends_all (pre hs : list hidden) l :
  Forall (λ n, n = 1) l → length hs = length l →
  at_ends (pre ++ hs) (ends (Z.of_nat (length pre)) l) = hs.
Proof.
  revert pre l. induction hs as [|h hs IH]; intros pre [|n l] Hl [=]; [done|].
  apply Forall_cons in Hl as [-> Hl]. cbn [ends]. unfold at_ends in *. cbn [omap list_omap].
  replace (Z.to_nat (Z.of_nat (length pre) + 1 - 1)) with (length pre) by lia.
  rewrite lookup_app_r, Nat.sub_diag by done. simpl. f_equal.
  etransitivity; [|by apply (IH (pre ++ [h]) l)].
  rewrite <-app_assoc, length_app, Nat2Z.inj_add. done.
Qed.

(** The logits of a decode call: one hidden state per row. *)
Lemma decode_logits (qs : list sequence) c hs :
  cx_is_prefill (call_context c) = false → Forall (λ q, num_scheduled_tokens q = 1) qs →
  length hs = length qs →
  compute_logits env cfg (call_context c) hs = Ok (linear env <$> (sampled_outputs false qs hs).*2).
Proof.
  intros Hpf Hq Hl. unfold compute_logits, sampled_outputs, row_outputs. rewrite Hpf, andb_false_r.
  pose proof (at_ends_all [] hs (row_scheduled <$> qs)) as He. unfold row_ends.
  change (Z.of_nat (length [])) with 0 in He. change ([] ++ hs) with hs in He.
  rewrite He; [|by apply Forall_fmap|by rewrite length_fmap].
  cbn [obind]. rewrite snd_zip; [done|]. rewrite length_enumerate. lia.
Qed.
End head.

(** ** The persistent buffers *)

(** [n] rows, tables of width [w]. *)
Record decode_ok (v : decode_vars) (n w : nat) : Prop := {
  db_ids : length (dv_input_ids v) = n;
  db_positions : length (dv_positions v) = n;
  db_slots : length (dv_slot_mapping v) = n;
  db_lens : length (dv_context_lens v) = n;
  db_tables : length (dv_block_tables v) = n ∧ Forall (λ r, length r = w) (dv_block_tables v);
}.

(** The shape of a decode call of [k] rows. *)
Record decode_shape (c : model_call) (k wt : nat) : Prop := {
  ds_some : (0 < k)%nat;
  ds_ids : length (input_ids c) = k;
  ds_positions : length (positions c) = k;
  ds_slots : ∃ l, slot_mapping (call_context c) = Some l ∧ length l = k;
  ds_lens : ∃ l, context_lens (call_context c) = Some l ∧ length l = k;
  ds_tables : ∃ t, block_tables (call_context c) = Some t ∧ length t = k ∧ Forall (λ r, length r = wt) t;
}.

(** What a decode replay reads: the live step, then rows that write nothing
    and attend to nothing.  Only the table entries past the live ones are
    left over from earlier steps. *)
Record decode_inputs (c : model_call) (n w : nat) (v : decode_vars) : Prop := {
  di_ids : take (length (input_ids c)) (dv_input_ids v) = input_ids c;
  di_positions : take (length (input_ids c)) (dv_positions v) = positions c;
  di_slots : ∃ l, slot_mapping (call_context c) = Some l ∧
    dv_slot_mapping v = l ++ replicate (n - length (input_ids c)) (-1);
  di_lens : ∃ l, context_lens (call_context c) = Some l ∧
    dv_context_lens v = l ++ replicate (n - length (input_ids c)) 0;
  di_tables : ∃ t, block_tables (call_context c) = Some t ∧
    ∀ i r, t !! i = Some r → ∃ r', dv_block_tables v !! i = Some r' ∧ take (length r) r' = r;
  di_shape : decode_ok v n w;
}.

Lemma overlay_tables (t bufs : list (list Z)) wt w :
  (length t <= length bufs)%nat → Forall (λ r, length r = wt) t → Forall (λ r, length r = w) bufs →
  (wt <= w)%nat →
  let out := zip_with set_prefix t bufs ++ drop (length t) bufs in
  length out = length bufs ∧ Forall (λ r, length r = w) out ∧
  ∀ i r, t !! i = Some r → ∃ r', out !! i = Some r' ∧ take (length r) r' = r.
Proof.
  intros Hl Ht Hb Hw. cbv zeta. split; [|split].
  - rewrite length_app, length_zip_with, length_drop. lia.
  - apply Forall_app. split; [|by apply Forall_drop]. apply Forall_lookup. intros i r Hi.
    apply lookup_zip_with_Some in Hi as (x & y & -> & Hx & Hy).
    rewrite Forall_lookup in Ht, Hb. specialize (Ht i x Hx). specialize (Hb i y Hy). simpl in *.
    rewrite length_set_prefix; lia.
  - intros i r Hr. pose proof (lookup_lt_Some _ _ _ Hr).
    destruct (lookup_lt_is_Some_2 bufs i) as [y Hy]; [lia|].
    exists (set_prefix r y). split; [|apply set_prefix_take].
    rewrite lookup_app_l by (rewrite length_zip_with; lia). apply lookup_zip_with_Some. by exists r, y.
Qed.

Lemma fill_decode_run c k wt n w st :
  decode_ok (graph_vars st) n w → decode_shape c k wt → (k <= n)%nat → (wt <= w)%nat →
  ∃ v', fill_decode c st = (Ok tt, set_graph_vars v' st) ∧ decode_inputs c n w v'.
Proof.
  intros [B1 B2 B3 B4 [B5 B6]] [Hk H1 H2 (sl & Es & H3) (cl & Ec & H4) (t & Et & H5 & H6)] Hkn Hw.
  unfold fill_decode. rewrite Es, Ec, Et. cbn [default from_option]. unfold id.
  unfold bind at 1, get. cbv zeta. mstep. cbn [dv_input_ids dv_positions dv_slot_mapping dv_context_lens dv_block_tables].
  assert ((length (default [] (head (dv_block_tables (graph_vars st)))) <?
    length (default [] (head t)))%nat = false) as Hwd.
  { destruct t as [|r t]; [simpl in H5; lia|]. destruct (dv_block_tables (graph_vars st)) as [|r' t'];
      [simpl in B5; lia|]. apply Forall_cons in H6 as [H6 _], B6 as [B6 _]. simpl.
    apply Nat.ltb_ge. lia. }
  cbn [default from_option] in Hwd. unfold id in Hwd. rewrite Hwd. mstep.
  eexists. split; [reflexivity|].
  destruct (overlay_tables t (dv_block_tables (graph_vars st)) wt w) as (F1 & F2 & F3); [lia|done..|].
  assert (∀ (src buf : list Z), length src = k → length buf = n → length (set_prefix src buf) = n) as Hsp
    by (intros; rewrite length_set_prefix; lia).
  split; cbn [dv_input_ids dv_positions dv_slot_mapping dv_context_lens dv_block_tables].
  - apply set_prefix_take.
  - rewrite H1, <-H2. apply set_prefix_take.
  - exists sl. split; [done|]. by rewrite set_prefix_blank, B3, H1, H3.
  - exists cl. split; [done|]. by rewrite set_prefix_blank, B4, H1, H4.
  - exists t. by split.
  - split; cbn [dv_input_ids dv_positions dv_slot_mapping dv_context_lens dv_block_tables];
      try (apply Hsp; rewrite ?length_replicate; done). by rewrite F1.
Qed.

(** The state of a runner: every captured graph fits its buffers. *)
Record state_ok (cfg : run_config) (st : run_state) : Prop := {
  so_decode : ∃ n, decode_ok (graph_vars st) n (Z.to_nat (max_blocks cfg)) ∧
    Forall (λ b, b <= Z.of_nat n) (graph_bs st);
  so_varlen : ∀ v, rs_varlen_vars st = Some v → ∃ T S1 w, buffers_ok v T S1 w ∧ (0 < S1)%nat ∧
    Forall (λ k : graph_key, k.1 <= Z.of_nat T ∧ k.2 <= Z.of_nat S1) (default [] (varlen_graphs st));
}.

(** Replaying a graph on buffers that hold a call is running that call. *)
Record faithful {hidden logits} (env : model_env hidden logits) : Prop := {
  fa_rows : ∀ c hs, forward env c = Ok hs → length hs = length (input_ids c);
  fa_decode : ∀ b v c n w, decode_inputs c n w v → Z.of_nat (length (input_ids c)) <= b →
    (let? out := replay_decode env b v in Ok (take (length (input_ids c)) out)) = forward env c;
  fa_varlen : ∀ key v c ns T S1 w, replay_inputs c ns T S1 w v →
    Z.of_nat (length (input_ids c)) <= key.1 → Z.of_nat ns <= key.2 →
    (let? out := replay_varlen env key v in Ok (take (length (input_ids c)) out)) = forward env c;
}.

Section model.
Context {hidden logits : Type} (env : model_env hidden logits) (cfg : run_config).
Context (Hfaithful : faithful env).

Definition eager_logits (c : model_call) : outcome (list logits) :=
  let? hs := forward env c in compute_logits env cfg (call_context c) hs.

Lemma take_logits (o : outcome (list hidden)) c :
  (let? out := o in Ok (take (length (input_ids c)) out)) = forward env c →
  (let? out := o in compute_logits env cfg (call_context c) (take (length (input_ids c)) out)) =
    eager_logits c.
Proof. intros E. unfold eager_logits. rewrite <-E. by destruct o. Qed.

Lemma eager_run c (st : run_state) :
  (let* hs := lift (forward env c) in lift (compute_logits env cfg (call_context c) hs)) st =
    (eager_logits c, st).
Proof. unfold eager_logits, bind, lift. by destruct (forward env c). Qed.

(** A ragged call. *)
Lemma run_ragged c ns st :
  state_ok cfg st → ragged_shape c ns →
  ∃ st', run_model env cfg c true st = (eager_logits c, st') ∧ state_ok cfg st'.
Proof.
  intros [Hd Hv] Hsh. unfold run_model. unfold bind at 1, get. cbn [negb].
  destruct (ragged_graph _ _ _ c) as [key|] eqn:Eg.
  2: { destruct (bool_decide _ && _); mstep; eexists; (split; [apply eager_run|by split]). }
  destruct (rs_varlen_vars st) as [v|] eqn:Ev.
  2: { eexists. split; [apply eager_run|]. split; [done|]. by rewrite Ev. }
  destruct (Hv v eq_refl) as (T & S1 & w & Hb & HS1 & Hk).
  destruct (ragged_graph_inv _ v _ c ns key Hsh Eg) as (Hin & Ht & Hns & _).
  rewrite Forall_forall in Hk. pose proof (Hk key Hin) as [Hk1 Hk2].
  destruct (fill_run v c ns T S1 w _ _ key Hb HS1 Hsh Hk1 Hk2 Eg) as (v' & Efill & Hri).
  rewrite Efill. mstep. mstep.
  pose proof (take_logits _ c (fa_varlen _ Hfaithful key v' c ns T S1 w Hri Ht Hns)) as Hout.
  exists (set_varlen_vars (Some v') st). split.
  - rewrite <-Hout. unfold bind, lift. by destruct (replay_varlen env key v').
  - split; [done|]. simpl. intros v2 [= <-]. exists T, S1, w. split; [by destruct Hri|].
    split; [done|]. by apply Forall_forall.
Qed.

Lemma decode_graph_le eager bs captured n b :
  decode_graph eager bs captured n = Some b → b ∈ bs ∧ n <= b.
Proof.
  unfold decode_graph. destruct (_ || _); [done|]. intros E. apply head_Some in E as [l E].
  assert (b ∈ filter (λ x, n <= x ∧ x ∈ captured) bs) as H by (rewrite E; by left).
  apply list_elem_of_filter in H. tauto.
Qed.

(** A decode call whose tables fit the longest sequence. *)
Lemma run_decode c k wt st :
  state_ok cfg st → decode_shape c k wt → (wt <= Z.to_nat (max_blocks cfg))%nat →
  ∃ st', run_model env cfg c false st = (eager_logits c, st') ∧ state_ok cfg st'.
Proof.
  intros Hst Hsh Hw. pose proof Hst as [(n & Hd & Hbs) Hv].
  unfold run_model. unfold bind at 1, get. cbn [negb].
  destruct (decode_graph _ _ _ _) as [b|] eqn:Eg; [|eexists; split; [apply eager_run|done]].
  apply decode_graph_le in Eg as [Hin Hb]. rewrite Forall_forall in Hbs. pose proof (Hbs b Hin).
  pose proof (ds_ids _ _ _ Hsh) as Hk.
  destruct (fill_decode_run c k wt n (Z.to_nat (max_blocks cfg)) st Hd Hsh) as (v' & Efill & Hdi); [lia|done|].
  mstep_with Efill.
  pose proof (take_logits _ c (fa_decode _ Hfaithful b v' c n _ Hdi Hb)) as Hout.
  exists (set_graph_vars v' st). split.
  - rewrite <-Hout. unfold bind, inspect, lift. simpl. by destruct (replay_decode env b v').
  - split; [|done]. exists n. split; [by destruct Hdi|]. by apply Forall_forall.
Qed.
End model.

(** ** Start-up *)

Lemma length_zeros n : length (zeros n) = Z.to_nat n.
Proof. apply length_replicate. Qed.

Lemma varlen_ts_last m T : last (varlen_ts m) = Some T → 0 < T ∧ ∀ t, t ∈ varlen_ts m → t <= T.
Proof.
  unfold varlen_ts. rewrite !filter_cons, filter_nil.
  repeat case_decide; try lia; intros [= <-]; (split; [lia|]); intros t Ht; set_unfold in Ht; lia.
Qed.

Lemma captured_key_bounds b n m key :
  key ∈ captured_varlen_keys b n m →
  key.1 ∈ varlen_ts b ∧ key.2 <= n + 1 ∧ ∃ l, _varlen_capture_boundaries key.1 key.2 m = Some l.
Proof.
  unfold captured_varlen_keys. rewrite list_elem_of_bind. intros (t & Hk & Ht).
  apply list_elem_of_bind in Hk as (sl & Hk & Hsl).
  destruct (_varlen_capture_boundaries t sl m) as [l|] eqn:E; [|by apply elem_of_nil in Hk].
  apply list_elem_of_singleton in Hk as ->. rewrite elem_of_reverse in Ht, Hsl.
  split; [done|]. split; [|by exists l]. simpl. unfold varlen_slots in Hsl.
  rewrite (proj2 (sorted_int_set_spec _)) in Hsl. rewrite elem_of_cons, list_elem_of_singleton in Hsl. lia.
Qed.

Lemma capture_keeps S1 T w m keys v :
  (∀ k, k ∈ keys → k.2 <= Z.of_nat S1) → buffers_ok v T S1 w →
  buffers_ok (foldl (λ v (k : graph_key),
    match _varlen_capture_boundaries k.1 k.2 m with
    | None => v
    | Some b =>
        let cu := set_prefix b (replicate (length (vv_cu_q v)) k.1) in
        mk_varlen_vars (vv_input_ids v) (vv_positions v) cu cu (vv_slot_mapping v) (vv_block_tables v)
    end) v keys) T S1 w.
Proof.
  revert v. induction keys as [|k keys IH]; intros v Hk Hv; [done|]. simpl.
  apply IH; [intros; apply Hk; by right|]. specialize (Hk k ltac:(by left)).
  pose proof (boundaries_run k.1 k.2 m) as Hb.
  destruct (_varlen_capture_boundaries k.1 k.2 m) as [b|]; [|done].
  destruct Hb as [Hlb _ _ _], Hv as [V1 V2 V3 V4 V5 V6].
  split; cbn [vv_input_ids vv_positions vv_slot_mapping vv_cu_q vv_cu_k vv_block_tables]; try done;
    (rewrite length_set_prefix; rewrite length_replicate; lia).
Qed.

Lemma init_state_ok cfg st :
  0 < rn_max_num_seqs cfg → run_state_init cfg = Ok st → state_ok cfg st.
Proof.
  intros Hn. unfold run_state_init. destruct (_ || _).
  { intros [= <-]. split; [|done]. exists 0%nat. split; [|constructor]. by repeat split. }
  intros [[bs v] [Ec E]]%obind_ok.
  destruct (capture_varlen_graphs cfg) as [keys vv] eqn:Ev. injection E as <-. split; simpl.
  - unfold capture_cudagraph in Ec. apply obind_ok in Ec as (bs' & Ebs & Ec). injection Ec as -> <-.
    set (n := Z.min (rn_max_num_seqs cfg) MAX_DECODE_GRAPH) in *. exists (Z.to_nat n). split.
    + split; cbn [dv_input_ids dv_positions dv_slot_mapping dv_context_lens dv_block_tables];
        rewrite ?length_zeros; try done. rewrite length_replicate. split; [done|].
      apply Forall_replicate. apply length_zeros.
    + assert (0 <= n) as H0 by (unfold n, MAX_DECODE_GRAPH, MAX_CUDA_GRAPH_BATCH_SIZE; lia).
      destruct (proj2 (draft_graph_batch_buckets_spec n) H0) as (l & El & _ & Hl & _).
      rewrite El in Ebs. injection Ebs as <-. apply Forall_forall. intros b Hb%Hl. lia.
  - intros v' ->. unfold capture_varlen_graphs in Ev.
    destruct (last (varlen_ts _)) as [T|] eqn:ET; [|done]. apply varlen_ts_last in ET as [HT Hts].
    injection Ev as <- Ev. destruct (bool_decide _); [done|]. injection Ev as <-.
    set (S1 := rn_max_num_seqs cfg + 1).
    assert (∀ k, k ∈ captured_varlen_keys (rn_max_num_batched_tokens cfg) (rn_max_num_seqs cfg)
      (rn_max_model_len cfg) → k.1 <= T ∧ k.2 <= S1) as Hkeys.
    { intros k (H1 & H2 & _)%captured_key_bounds. split; [by apply Hts|done]. }
    exists (Z.to_nat T), (Z.to_nat S1), (Z.to_nat (max_blocks cfg)). split; [|split].
    + apply capture_keeps; [intros k [_ ?]%Hkeys; lia|].
      split; cbn [vv_input_ids vv_positions vv_slot_mapping vv_cu_q vv_cu_k vv_block_tables];
        rewrite ?length_zeros, ?length_replicate; try done; try lia.
      split; [done|]. apply Forall_replicate, length_zeros.
    + lia.
    + apply Forall_forall. intros k [? ?]%Hkeys. lia.
Qed.

(** ** Sampling metadata *)

Lemma all_greedy_metadata qs vocab :
  Forall (λ q, Qeq_bool (sp_temperature (params q)) 0 = true) qs →
  (_prepare_sample_metadata qs vocab).2 = true.
Proof.
  intros H. unfold _prepare_sample_metadata, sample_metadata.
  rewrite (proj2 (forallb_forall _ _)); [done|]. intros t Ht.
  rewrite <-list_elem_of_In, <-list_fmap_compose in Ht.
  apply list_elem_of_fmap in Ht as (q & -> & Hq). rewrite Forall_forall in H. by apply H.
Qed.

Lemma expand_rows n rows ps (l : list Q) :
  length l = n → Forall (λ i, 0 <= i < Z.of_nat n) rows →
  ∃ out, ofold (λ (top_ps : list Q) '(r, p),
        let j := if r <? 0 then r + Z.of_nat (length top_ps) else r in
        if (j <? 0) || (Z.of_nat (length top_ps) <=? j) then Raise IndexError
        else Ok (<[Z.to_nat j := p]> top_ps)) (zip rows ps) l = Ok out ∧ length out = n.
Proof.
  intros Hl Hr. revert ps l Hl. induction Hr as [|r rows Hr _ IH]; intros [|p ps] l Hl;
    try (by exists l). cbn [zip zip_with ofold]. cbv zeta.
  rewrite (proj2 (Z.ltb_ge r 0)) by lia. rewrite (proj2 (Z.ltb_ge r 0)), (proj2 (Z.leb_gt _ r)) by lia.
  cbn [orb obind]. apply IH. by rewrite length_insert.
Qed.

(** The plan of the active rows always expands to the whole batch. *)
Lemma expand_total ps plan :
  top_p_plan_of (enumerate ps) = Some plan →
  ∃ out, _expand_top_ps (Z.of_nat (length ps)) plan = Ok out ∧ length out = length ps.
Proof.
  unfold top_p_plan_of. set (active := filter _ _). intros E.
  assert (Forall (λ i, 0 <= i < Z.of_nat (length ps)) active.*1) as Hin.
  { apply Forall_fmap, Forall_forall. intros [i p] H. apply list_elem_of_filter in H as [_ H].
    apply (list_elem_of_fmap_2 fst) in H. rewrite enumerate_fst in H. apply elem_of_py_range in H.
    simpl in *. lia. }
  assert (plan = (rows_or_all (length (enumerate ps)) active.*1, sp_top_p <$> active.*2)) as ->.
  { by destruct active; [|injection E as <-]. }
  clear E. unfold rows_or_all, _expand_top_ps. rewrite length_enumerate, length_fmap.
  destruct (Nat.eqb_spec (length active) (length ps)) as [Ha|Ha].
  - rewrite !length_fmap, Ha, Z.eqb_refl. simpl. eexists. split; [done|]. by rewrite !length_fmap.
  - rewrite !length_fmap, Nat.eqb_refl. cbn [negb oraise_if obind].
    apply expand_rows; [|done]. rewrite length_replicate. lia.
Qed.

Lemma metadata_top_p qs vocab :
  let '(ts, _, plan, greedy) := _prepare_sample_metadata qs vocab in
  length ts = length qs ∧ (greedy = false → plan = top_p_plan_of (enumerate (params <$> qs))).
Proof.
  unfold _prepare_sample_metadata, sample_metadata. rewrite <-list_fmap_compose.
  destruct (forallb _ _); by rewrite length_fmap.
Qed.

(** ** The sampled rows *)

Section sampled.
Context {hidden : Type} (cfg : run_config).

Lemma emitting_eq hp qs (hs : list hidden) :
  length (at_ends hs (row_ends qs)) = length qs →
  emitting_indices cfg qs hp = (sampled_outputs cfg hp qs hs).*1.*1.
Proof.
  intros Hl. unfold emitting_indices, sampled_outputs, row_outputs.
  assert (length (enumerate qs) = length (at_ends hs (row_ends qs))) as He by by rewrite length_enumerate.
  destruct (_ && hp).
  - exact (f_equal (fmap fst) (eq_sym (filter_zip_r (λ iq : Z * sequence, finishes iq.2) _ _ He))).
  - rewrite fst_zip by lia. by rewrite enumerate_fst.
Qed.

Lemma sampled_sub hp qs (hs : list hidden) x :
  x ∈ sampled_outputs cfg hp qs hs →
  x ∈ row_outputs qs hs ∧ (rn_invariant cfg && hp = true → finishes x.1.2).
Proof.
  unfold sampled_outputs. destruct (_ && hp); [|done]. rewrite list_elem_of_filter. tauto.
Qed.

Lemma row_outputs_elem qs (hs : list hidden) i q h :
  (i, q, h) ∈ row_outputs qs hs →
  0 <= i < Z.of_nat (length qs) ∧ qs !! Z.to_nat i = Some q ∧
  at_ends hs (row_ends qs) !! Z.to_nat i = Some h.
Proof.
  unfold row_outputs. intros [j Hj]%list_elem_of_lookup.
  apply lookup_zip_with_Some in Hj as (iq & h' & [= <- <-] & Hq & Hh).
  rewrite enumerate_lookup in Hq. destruct (qs !! j) as [q'|] eqn:Eq; [|done].
  injection Hq as <- <-. rewrite Nat2Z.id. apply lookup_lt_Some in Eq as ?. split_and!; try done; lia.
Qed.

Lemma sample_seqs_eq hp qs (hs : list hidden) :
  omap (λ i, qs !! Z.to_nat i) (sampled_outputs cfg hp qs hs).*1.*1 =
    (sampled_outputs cfg hp qs hs).*1.*2.
Proof.
  assert (∀ x, x ∈ sampled_outputs cfg hp qs hs → qs !! Z.to_nat x.1.1 = Some x.1.2) as H.
  { intros [[i q] h] Hx. apply sampled_sub in Hx as [Hx _]. by apply row_outputs_elem in Hx as (_ & ? & _). }
  induction (sampled_outputs cfg hp qs hs) as [|x l IH]; [done|]. rewrite !fmap_cons. cbn [omap list_omap].
  rewrite (H x) by left. f_equal. apply IH. intros y Hy. apply H. by right.
Qed.

Lemma sampled_places hp qs (hs : list hidden) (toks : list Z) :
  length toks = length (sampled_outputs cfg hp qs hs) →
  let ps := zip (sampled_outputs cfg hp qs hs).*1.*1 toks in
  NoDup ps.*1 ∧ Forall (λ p, 0 <= p.1 < Z.of_nat (length qs)) ps.
Proof.
  intros Hl ps. unfold ps. assert (NoDup (sampled_outputs cfg hp qs hs).*1.*1) as Hnd.
  { assert (NoDup (row_outputs qs hs).*1.*1) as Hr.
    { unfold row_outputs. eapply sublist_NoDup; [apply (enumerate_NoDup qs)|].
      apply (fmap_sublist fst), zip_sublist. }
    unfold sampled_outputs. destruct (_ && hp); [|done].
    eapply sublist_NoDup; [exact Hr|]. do 2 apply fmap_sublist. apply sublist_filter. }
  split; [rewrite fst_zip; [done|rewrite !length_fmap; lia]|].
  apply Forall_forall. intros [i t] Hit. apply elem_of_zip_l in Hit.
  apply list_elem_of_fmap in Hit as ([i' q] & -> & Hiq). apply list_elem_of_fmap in Hiq as ([[i2 q2] h] & [= -> ->] & Hx).
  apply sampled_sub in Hx as [Hx _]. apply row_outputs_elem in Hx. simpl. tauto.
Qed.
End sampled.

(** ** A scheduled step *)

(** A decode preparation has the shape of its batch. *)
Lemma prepare_tables_width {row} `{!BatchRow row} (qs : list row) w t :
  Forall (λ q, (length (row_table q) <= w)%nat) qs → prepare_block_tables qs = Ok t →
  ∃ wt, (wt <= w)%nat ∧ length t = length qs ∧ Forall (λ r, length r = wt) t.
Proof.
  intros Hw. unfold prepare_block_tables. destruct qs as [|q qs]; [done|]. rewrite fmap_cons.
  set (wt := foldl Nat.max _ _). assert (∀ l n, (n <= w)%nat → Forall (λ m, m <= w)%nat l →
    (n <= foldl Nat.max n l <= w)%nat ∧ Forall (λ m, m <= foldl Nat.max n l)%nat l) as Hm.
  { induction l as [|m l IH]; intros n Hn Hl; simpl; [split; [lia|done]|].
    apply Forall_cons in Hl as [Hm Hl]. destruct (IH (Nat.max n m) ltac:(lia) Hl) as [H1 H2].
    split; [lia|]. apply Forall_cons. split; [lia|done]. }
  apply Forall_cons in Hw as Hw'. destruct Hw' as [Hq Hqs].
  destruct (Hm ((λ q, length (row_table q)) <$> qs) (length (row_table q)) Hq) as [H1 H2];
    [by apply Forall_fmap|]. fold wt in H1, H2. intros [= <-]. exists wt.
  split; [lia|]. split; [simpl; by rewrite length_fmap|].
  refine (proj2 (Forall_fmap _ _ (q :: qs)) _).
  eapply (Forall_impl (λ q, (length (row_table q) <= wt)%nat)).
  - apply Forall_cons. split; [lia|]. by rewrite Forall_fmap in H2.
  - intros q' Hq'. simpl. rewrite length_app, length_fmap, length_replicate. lia.
Qed.

Lemma prepare_decode_shape {row} `{!BatchRow row} bs (qs : list row) w c :
  qs ≠ [] → Forall (λ q, (length (row_table q) <= w)%nat) qs → prepare_decode bs qs = Ok c →
  cx_is_prefill (call_context c) = false ∧ ∃ wt, (wt <= w)%nat ∧ decode_shape c (length qs) wt.
Proof.
  intros Hne Hw. unfold prepare_decode. intros (sl & Esl & (t & Et & E)%obind_ok)%obind_ok.
  injection E as <-. split; [done|].
  destruct (prepare_tables_width qs w t Hw Et) as (wt & Hwt & Ht & Hr). exists wt. split; [done|].
  apply omap_all_ok, Forall2_length in Esl.
  split; cbn [input_ids positions call_context slot_mapping context_lens block_tables];
    rewrite ?length_fmap; try done.
  - by destruct qs; [|simpl; lia].
  - by exists sl.
  - eexists. split; [done|]. by rewrite length_fmap.
  - exists t. by split.
Qed.

Definition eager_config (c : run_config) : run_config :=
  mk_run_config (rn_invariant c) true (rn_flashinfer c) (rn_block_size c)
    (rn_max_num_batched_tokens c) (rn_max_num_seqs c) (rn_max_model_len c) (rn_vocab_size c).

Definition eager_state : run_state := mk_run_state [] [] no_decode_vars None None 0.

Lemma eager_state_ok c : state_ok c eager_state.
Proof. split; [|done]. exists 0%nat. split; [|constructor]. by repeat split. Qed.

Section step.
Context (compute_hash : list Z → Z → Z) (clock : nat → Z)
  (compute_hash_nonneg : ∀ toks p, 0 <= compute_hash toks p).
#[local] Abbreviation kv_inv := (kv_inv compute_hash).
#[local] Abbreviation schedule := (schedule compute_hash clock).
#[local] Instance run_manager : KVAllocator compute_hash kv_inv :=
  block_manager_contract compute_hash compute_hash_nonneg.

(** The rows of the batch [schedule] chose, for a runner configured as the
    scheduler is. *)
Record scheduled_batch (cfg : run_config) (s s' : scheduler) (l : list nat) (hp : bool)
    (qs : list sequence) : Prop := {
  sb_idle : sinv kv_inv [] [] s;
  sb_step : schedule s = (Ok (l, hp), s');
  sb_rows : Forall2 (λ k q, seqs s' !! k = Some q) l qs;
  sb_block_size : rn_block_size cfg = bsz s';
  sb_lengths : Forall (λ q, num_tokens q <= rn_max_model_len cfg) qs;
}.

Section model.
Context {hidden logits : Type} (env : model_env hidden logits).

Definition hidden_rows (qs : list sequence) (hs : list hidden) : Prop :=
  Z.of_nat (length hs) = foldr Z.add 0 (row_scheduled <$> qs).

Lemma step_model cfg s s' l hp qs :
  scheduled_batch cfg s s' l hp qs →
  qs ≠ [] ∧ Forall (λ q, 0 < num_scheduled_tokens q) qs ∧
  ∃ c, prepare_inputs (rn_block_size cfg) hp qs = Ok c ∧
    (faithful env → ∀ st, state_ok cfg st →
      ∃ st', run_model env cfg c hp st = (eager_logits env cfg c, st') ∧ state_ok cfg st') ∧
    ∀ hs, length hs = length (input_ids c) → hidden_rows qs hs ∧
      compute_logits env cfg (call_context c) hs = Ok (linear env <$> (sampled_outputs cfg hp qs hs).*2).
Proof.
  intros [Hs E Hqs Hbs Hml].
  destruct (scheduled_rows compute_hash clock compute_hash_nonneg s l hp s' Hs E)
    as (Hs' & _ & Hne & _ & qs' & Hqs' & Hr & _ & Hd).
  assert (qs' = qs) as ->.
  { eapply Forall2_unique; [exact Hqs'|exact Hqs|]. intros x y z ??. congruence. }
  destruct (si_bs _ _ _ _ Hs') as [_ Hb]. rewrite Hbs.
  assert (qs ≠ []) as Hqne by (intros ->; by apply Forall2_nil_inv_r in Hqs).
  split; [done|]. split; [eapply Forall_impl; [exact Hr|]; by intros q []|].
  destruct hp; unfold prepare_inputs.
  - destruct (prepare_ragged_run (bsz s') qs ltac:(lia) Hqne Hr) as (c & Ec & Hc).
    pose proof (step_shape compute_hash clock compute_hash_nonneg s l s' qs c Hs E Hqs Ec) as Hsh.
    exists c. split; [done|]. split; [intros Hf st Hst; by eapply run_ragged|].
    intros hs Hh. assert (hidden_rows qs hs) as Hl.
    { unfold hidden_rows. rewrite Hh. destruct (rs_cu_q _ _ Hsh) as (q & Eq & _ & Hlast).
      rewrite (rc_cu_q _ _ _ Hc) in Eq. injection Eq as <-. rewrite last_ends in Hlast.
      injection Hlast as <-. by rewrite Z.add_0_l. }
    split; [done|]. by eapply ragged_logits.
  - specialize (Hd eq_refl).
    destruct (prepare_decode_run (bsz s') qs ltac:(lia) Hqne Hr Hd) as (c & Ec & _).
    assert (Forall (λ q, (length (row_table q) <= Z.to_nat (max_blocks cfg))%nat) qs) as Hw.
    { apply Forall_lookup. intros i q Hq. rewrite !Forall_lookup in Hd, Hml.
      destruct (Hd i q Hq) as (_ & _ & _ & Hl). specialize (Hml i q Hq). simpl in Hl, Hml |- *.
      assert (ceil_div (num_tokens q) (bsz s') <= max_blocks cfg); [|lia].
      unfold max_blocks, ceil_div. rewrite Hbs. apply Z.div_le_mono; lia. }
    destruct (prepare_decode_shape _ qs _ c Hqne Hw Ec) as (Hpf & wt & Hwt & Hsh).
    exists c. split; [done|]. split; [intros Hf st Hst; by eapply run_decode|].
    intros hs Hh. rewrite (ds_ids _ _ _ Hsh) in Hh.
    assert (Forall (λ q, num_scheduled_tokens q = 1) qs) as H1
      by (eapply Forall_impl; [exact Hd|]; by intros q (? & _)).
    split; [|by apply decode_logits]. unfold hidden_rows. rewrite Hh. clear -H1.
    induction H1 as [|q qs Hq _ IH]; [done|]. rewrite fmap_cons. cbn [foldr length].
    change (row_scheduled q) with (num_scheduled_tokens q). lia.
Qed.
(** What [run] answers, as a function of the batch. *)
Definition run_outcome (cfg : run_config) (qs : list sequence) (hp : bool) : outcome (list Z) :=
  let emitting := emitting_indices cfg qs hp in
  let sample_seqs := omap (λ i, qs !! Z.to_nat i) emitting in
  let? c := prepare_inputs (rn_block_size cfg) hp qs in
  let? m := prepare_sample cfg sample_seqs in
  let? x := eager_logits env cfg c in
  let? tokens := if bool_decide (sample_seqs = []) then Ok [] else sample_tokens env cfg m x in
  place (length qs) emitting tokens.

Lemma run_step_run cfg s s' l hp qs st :
  scheduled_batch cfg s s' l hp qs → faithful env → state_ok cfg st →
  ∃ st', run_step env cfg qs hp st = (run_outcome cfg qs hp, st') ∧ state_ok cfg st'.
Proof.
  intros Hb Hf Hst. destruct (step_model cfg s s' l hp qs Hb) as (_ & _ & c & Ec & Hm & _).
  unfold run_step, run_outcome. rewrite Ec. mstep.
  destruct (prepare_sample cfg _) as [m|e]; [|by eexists]. mstep.
  destruct (Hm Hf st Hst) as (st' & Em & Hst'). exists st'. split; [|done]. cbn [obind].
  destruct (eager_logits env cfg c) as [x|e].
  - rewrite (bind_ok _ _ _ _ _ Em). cbn [obind]. unfold bind, lift.
    by destruct (if bool_decide _ then _ else _).
  - by rewrite (bind_raise _ _ _ _ _ Em).
Qed.

Lemma run_outcome_eager cfg qs hp : run_outcome (eager_config cfg) qs hp = run_outcome cfg qs hp.
Proof. reflexivity. Qed.


(** The runner serves one scheduled batch. *)
Definition serves (cfg : run_config) (st st' : run_state) : Prop :=
  ∃ s s' l hp qs, scheduled_batch cfg s s' l hp qs ∧ st' = (run_step env cfg qs hp st).2.


(** ** Which tokens *)

Lemma hidden_outputs qs (hs : list hidden) :
  Forall (λ q, 0 < num_scheduled_tokens q) qs → hidden_rows qs hs →
  ends_in hs (row_ends qs) ∧ length (at_ends hs (row_ends qs)) = length qs.
Proof.
  intros Hq Hl. assert (ends_in hs (row_ends qs)) as He.
  { unfold ends_in. rewrite Hl. apply Forall_lookup. intros i e E. eapply ends_bound; [|exact E].
    by apply Forall_fmap. }
  split; [done|]. destruct (at_ends_run hs _ He) as [_ ->]. unfold row_ends.
  by rewrite length_ends, length_fmap.
Qed.

(** The answer, from the tokens of the sampled rows. *)
Lemma placed_tokens cfg hp qs (hs : list hidden) toks :
  length (at_ends hs (row_ends qs)) = length qs → length toks = length (sampled_outputs cfg hp qs hs) →
  ∃ out, place (length qs) (emitting_indices cfg qs hp) toks = Ok out ∧ length out = length qs ∧
    (∀ j i q h t, sampled_outputs cfg hp qs hs !! j = Some (i, q, h) → toks !! j = Some t →
      out !! Z.to_nat i = Some t) ∧
    ∀ i q, qs !! i = Some q → rn_invariant cfg && hp = true → ¬ finishes q → out !! i = Some 0.
Proof.
  intros Hl Ht. rewrite (emitting_eq cfg hp qs hs Hl). unfold place.
  rewrite !length_fmap, Ht, Nat.eqb_refl. cbn [negb oraise_if obind]. eexists. split; [reflexivity|].
  destruct (sampled_places cfg hp qs hs toks Ht) as [Hnd Hb].
  destruct (place_spec (replicate (length qs) 0) (zip (sampled_outputs cfg hp qs hs).*1.*1 toks))
    as (H1 & H2 & H3); [done|by rewrite length_replicate|].
  rewrite length_replicate in H1. split; [done|]. split.
  - intros j i q h t Hj Htj. apply H2. apply list_elem_of_lookup. exists j.
    apply lookup_zip_with_Some. exists i, t. split; [done|]. by rewrite !list_lookup_fmap, Hj.
  - intros i q Hq Hinv Hn. rewrite H3; [apply lookup_replicate_2; by eapply lookup_lt_Some|].
    rewrite fst_zip by (rewrite !length_fmap; lia). intros Hin.
    apply list_elem_of_fmap in Hin as ([i' q'] & Ei & Hin). apply list_elem_of_fmap in Hin as ([[i2 q2] h] & [= -> ->] & Hin).
    apply sampled_sub in Hin as [Hin Hfin]. apply row_outputs_elem in Hin as (_ & Hq' & _).
    simpl in Ei, Hfin. rewrite <-Ei, Nat2Z.id in Hq'. apply Hn. rewrite Hq in Hq'. injection Hq' as ->. auto.
Qed.
Lemma at_ends_lookup (hs : list hidden) es i e :
  ends_in hs es → es !! i = Some e →
  ∃ h, at_ends hs es !! i = Some h ∧ hs !! Z.to_nat (e - 1) = Some h.
Proof.
  intros He. revert i. induction He as [|e' es He _ IH]; intros [|i] E; simplify_eq/=.
  - destruct (lookup_lt_is_Some_2 hs (Z.to_nat (e - 1))) as [h Hh]; [lia|]. exists h.
    unfold at_ends. cbn [omap list_omap]. by rewrite Hh.
  - destruct (lookup_lt_is_Some_2 hs (Z.to_nat (e' - 1))) as [h' Hh']; [lia|].
    destruct (IH i E) as (h & Hh & ?). exists h. unfold at_ends in *. cbn [omap list_omap].
    by rewrite Hh'.
Qed.

Lemma sampled_has cfg hp qs (hs : list hidden) i q h :
  qs !! i = Some q → at_ends hs (row_ends qs) !! i = Some h →
  (rn_invariant cfg && hp = true → finishes q) →
  (Z.of_nat i, q, h) ∈ sampled_outputs cfg hp qs hs.
Proof.
  intros Hq Hh Hf. assert ((Z.of_nat i, q, h) ∈ row_outputs qs hs) as Hin.
  { apply list_elem_of_lookup. exists i. apply lookup_zip_with_Some.
    exists (Z.of_nat i, q), h. split; [done|]. by rewrite enumerate_lookup, Hq. }
  unfold sampled_outputs. destruct (_ && hp) eqn:E; [|done]. apply list_elem_of_filter. auto.
Qed.

(** Tokens scheduled for the first [i + 1] rows. *)
Lemma row_end_sum (qs : list sequence) i q :
  qs !! i = Some q →
  row_ends qs !! i = Some (foldr Z.add 0 (num_scheduled_tokens <$> take (S i) qs)).
Proof.
  intros Hq. unfold row_ends. rewrite (ends_lookup _ 0 i (num_scheduled_tokens q)).
  - f_equal. rewrite fmap_take. change (row_scheduled <$> qs) with (num_scheduled_tokens <$> qs).
    rewrite (sum_take_S _ i (num_scheduled_tokens q)); [lia|]. by rewrite list_lookup_fmap, Hq.
  - rewrite list_lookup_fmap, Hq. done.
Qed.

Lemma greedy_tokens cfg hp qs (hs : list hidden) m :
  m.2 = true →
  (if bool_decide ((sampled_outputs cfg hp qs hs).*1.*2 = []) then Ok []
   else sample_tokens env cfg m (linear env <$> (sampled_outputs cfg hp qs hs).*2)) =
  Ok ((λ x, argmax env (linear env x.2)) <$> sampled_outputs cfg hp qs hs).
Proof.
  intros Hm. destruct m as [[[ts ks] p] g]. simpl in Hm. subst g. case_bool_decide as E.
  - destruct (sampled_outputs cfg hp qs hs); [done|discriminate].
  - unfold sample_tokens. by rewrite <-!list_fmap_compose.
Qed.

(** A greedy batch, whatever the graphs: what [run] answers when the forward pass
    answers one hidden state per token. *)
Lemma greedy_outcome cfg s s' l hp qs c hs :
  scheduled_batch cfg s s' l hp qs →
  Forall (λ q, Qeq_bool (sp_temperature (params q)) 0 = true) qs →
  prepare_inputs (rn_block_size cfg) hp qs = Ok c → forward env c = Ok hs →
  length hs = length (input_ids c) →
  ∃ toks, run_outcome cfg qs hp = Ok toks ∧ length toks = length qs ∧
    ∀ i q, qs !! i = Some q → ∃ h,
      hs !! Z.to_nat (foldr Z.add 0 (num_scheduled_tokens <$> take (S i) qs) - 1) = Some h ∧
      toks !! i = Some (if rn_invariant cfg && hp && negb (bool_decide (finishes q)) then 0
                        else argmax env (linear env h)).
Proof.
  intros Hb Hg Ec Eh Hrows.
  destruct (step_model cfg s s' l hp qs Hb) as (_ & Hpos & c' & Ec' & _ & Hlog).
  assert (c' = c) as -> by congruence. destruct (Hlog hs Hrows) as [Hl El].
  destruct (hidden_outputs qs hs Hpos Hl) as [He Ha].
  unfold run_outcome. rewrite Ec, (emitting_eq cfg hp qs hs Ha), (sample_seqs_eq cfg hp qs hs). cbn [obind].
  assert (∃ m, prepare_sample cfg (sampled_outputs cfg hp qs hs).*1.*2 = Ok m ∧ m.2 = true) as (m & -> & Hm).
  { unfold prepare_sample. pose proof (all_greedy_metadata (sampled_outputs cfg hp qs hs).*1.*2 (rn_vocab_size cfg)) as Hm.
    destruct (_prepare_sample_metadata _ _) as [[[ts ks] p] g]. simpl in Hm. rewrite Hm; [by eexists|].
    apply Forall_fmap, Forall_fmap, Forall_forall. intros [[i q] h] Hx. apply sampled_sub in Hx as [Hx _].
    apply row_outputs_elem in Hx as (_ & Hq & _). rewrite Forall_lookup in Hg. simpl. by eapply Hg. }
  cbn [obind]. unfold eager_logits. rewrite Eh. cbn [obind]. rewrite El. cbn [obind].
  rewrite greedy_tokens by done. cbn [obind]. rewrite <-(emitting_eq cfg hp qs hs Ha).
  destruct (placed_tokens cfg hp qs hs ((λ x, argmax env (linear env x.2)) <$> sampled_outputs cfg hp qs hs) Ha)
    as (out & -> & Ho & Hrow & Hskip); [by rewrite length_fmap|].
  exists out. split; [done|]. split; [done|]. intros i q Hq.
  destruct (at_ends_lookup hs _ i _ He (row_end_sum qs i q Hq)) as (h & Hh & Hhs). exists h.
  split; [done|]. destruct (rn_invariant cfg && hp && negb (bool_decide (finishes q))) eqn:Es.
  - apply andb_true_iff in Es as [Einv Efin]. apply (Hskip i q Hq Einv).
    apply negb_true_iff in Efin. by apply bool_decide_eq_false_1 in Efin.
  - assert (rn_invariant cfg && hp = true → finishes q) as Hfin.
    { intros Einv. rewrite Einv in Es. apply negb_false_iff in Es. by apply bool_decide_eq_true_1 in Es. }
    pose proof (sampled_has cfg hp qs hs i q h Hq Hh Hfin) as [j Hj]%list_elem_of_lookup.
    pose proof (Hrow j _ q h (argmax env (linear env h)) Hj) as Hr. rewrite Nat2Z.id in Hr.
    apply Hr. by rewrite list_lookup_fmap, Hj.
Qed.

Lemma greedy_run cfg s s' l hp qs st c hs :
  scheduled_batch cfg s s' l hp qs → faithful env → state_ok cfg st →
  Forall (λ q, Qeq_bool (sp_temperature (params q)) 0 = true) qs →
  prepare_inputs (rn_block_size cfg) hp qs = Ok c → forward env c = Ok hs →
  ∃ toks st', run_step env cfg qs hp st = (Ok toks, st') ∧ length toks = length qs ∧
    ∀ i q, qs !! i = Some q → ∃ h,
      hs !! Z.to_nat (foldr Z.add 0 (num_scheduled_tokens <$> take (S i) qs) - 1) = Some h ∧
      toks !! i = Some (if rn_invariant cfg && hp && negb (bool_decide (finishes q)) then 0
                        else argmax env (linear env h)).
Proof.
  intros Hb Hf Hst Hg Ec Eh. destruct (run_step_run cfg s s' l hp qs st Hb Hf Hst) as (st' & -> & _).
  destruct (greedy_outcome cfg s s' l hp qs c hs Hb Hg Ec Eh (fa_rows _ Hf c hs Eh)) as (toks & -> & ?).
  by exists toks, st'.
Qed.

(** ** The step is committed *)

Definition vocabulary (v : Z) (toks : list Z) : Prop := Forall (λ t, 0 <= t < v) toks.

(** A device that answers: every forward pass returns, every sampler draws one
    vocabulary token per row, the filters keep the rows. *)
Record device_answers (v : Z) : Prop := {
  an_forward : ∀ c, ∃ hs, forward env c = Ok hs;
  an_argmax : ∀ x, 0 <= argmax env x < v;
  an_top_k : ∀ x rows k, ∃ y, filter_top_k env x rows k = Ok y ∧ length y = length x;
  an_top_p : ∀ x ts rows ps, ∃ y, filter_top_p env x ts rows ps = Ok y ∧ length y = length x;
  an_flashinfer : ∀ x ts ps, ∃ toks, sample_top_p_flashinfer env x ts ps = Ok toks ∧
    length toks = length x ∧ vocabulary v toks;
  an_sample : ∀ x ts, ∃ toks, sample env x ts = Ok toks ∧ length toks = length x ∧ vocabulary v toks;
}.

Lemma filters_answer v ks x :
  device_answers v →
  ∃ y, ofold (λ x '(top_k, rows), filter_top_k env x rows top_k) ks x = Ok y ∧ length y = length x.
Proof.
  intros Hv. revert x. induction ks as [|[k rows] ks IH]; intros x; [by exists x|].
  cbn [ofold]. destruct (an_top_k v Hv x rows k) as (y & -> & Hy). cbn [obind].
  destruct (IH y) as (z & -> & Hz). exists z. split; [done|]. lia.
Qed.

Lemma sampler_answers cfg v m x :
  device_answers v →
  ∃ toks, sample_tokens env cfg m x = Ok toks ∧ length toks = length x ∧ vocabulary v toks.
Proof.
  intros Hv. destruct m as [[[ts ks] p] g]. unfold sample_tokens. destruct g.
  { eexists. split; [done|]. split; [by rewrite length_fmap|].
    apply Forall_fmap, Forall_forall. intros y _. by apply an_argmax. }
  destruct (filters_answer v ks x Hv) as (y & -> & Hy). cbn [obind]. rewrite <-Hy.
  destruct p as [[rows ps]|]; [|by apply an_sample]. destruct (rn_flashinfer cfg); [by apply an_flashinfer|].
  destruct (an_top_p v Hv y ts rows ps) as (z & -> & Hz). cbn [obind]. rewrite <-Hz. by apply an_sample.
Qed.

Lemma prepare_sample_answers cfg qs : ∃ m, prepare_sample cfg qs = Ok m.
Proof.
  unfold prepare_sample. pose proof (metadata_top_p qs (rn_vocab_size cfg)) as Hm.
  destruct (_prepare_sample_metadata _ _) as [[[ts ks] p] g]. destruct Hm as [Hl Hp].
  destruct g; [by eexists|]. destruct p as [plan|]; [|by eexists].
  destruct (rn_flashinfer cfg); [|by eexists].
  destruct (expand_total (params <$> qs) plan) as (out & Eo & _); [by rewrite <-Hp|].
  rewrite length_fmap, <-Hl in Eo. rewrite Eo. by eexists.
Qed.

Lemma run_answers cfg s s' l hp qs st v :
  scheduled_batch cfg s s' l hp qs → faithful env → state_ok cfg st → device_answers v → 0 < v →
  ∃ toks st', run_step env cfg qs hp st = (Ok toks, st') ∧ state_ok cfg st' ∧
    length toks = length l ∧ vocabulary v toks.
Proof.
  intros Hb Hf Hst Hv H0. destruct (run_step_run cfg s s' l hp qs st Hb Hf Hst) as (st' & -> & Hst').
  destruct (step_model cfg s s' l hp qs Hb) as (_ & Hpos & c & Ec & _ & Hlog).
  destruct (an_forward v Hv c) as [hs Eh]. destruct (Hlog hs (fa_rows _ Hf c hs Eh)) as [Hl El].
  destruct (hidden_outputs qs hs Hpos Hl) as [He Ha]. exists (default [] (match run_outcome cfg qs hp with Ok t => Some t | Raise _ => None end)), st'.
  unfold run_outcome. rewrite Ec, (emitting_eq cfg hp qs hs Ha), (sample_seqs_eq cfg hp qs hs). cbn [obind].
  destruct (prepare_sample_answers cfg (sampled_outputs cfg hp qs hs).*1.*2) as [m ->]. cbn [obind].
  unfold eager_logits. rewrite Eh. cbn [obind]. rewrite El. cbn [obind].
  assert (∃ toks, (if bool_decide ((sampled_outputs cfg hp qs hs).*1.*2 = []) then Ok []
      else sample_tokens env cfg m (linear env <$> (sampled_outputs cfg hp qs hs).*2)) = Ok toks ∧
    length toks = length (sampled_outputs cfg hp qs hs) ∧ vocabulary v toks) as (toks & -> & Ht & Hvoc).
  { case_bool_decide as E.
    - exists []. split; [done|]. split; [|constructor]. by destruct (sampled_outputs cfg hp qs hs).
    - destruct (sampler_answers cfg v m (linear env <$> (sampled_outputs cfg hp qs hs).*2) Hv)
        as (toks & -> & Ht & ?). exists toks. by rewrite !length_fmap in Ht. }
  cbn [obind]. rewrite <-(emitting_eq cfg hp qs hs Ha).
  destruct (placed_tokens cfg hp qs hs toks Ha Ht) as (out & Eo & Ho & Hrow & Hskip).
  rewrite Eo. split; [done|]. split; [done|]. simpl.
  split; [by rewrite Ho, <-(Forall2_length _ _ _ (sb_rows _ _ _ _ _ _ Hb))|].
  apply Forall_lookup. intros i t Hi.
  destruct (lookup_lt_is_Some_2 qs i) as [q Hq]; [apply lookup_lt_Some in Hi; lia|].
  destruct (decide (rn_invariant cfg && hp = true → finishes q)) as [Hfin|Hn].
  - destruct (at_ends_lookup hs _ i _ He (row_end_sum qs i q Hq)) as (h & Hh & _).
    pose proof (sampled_has cfg hp qs hs i q h Hq Hh Hfin) as [j Hj]%list_elem_of_lookup.
    destruct (lookup_lt_is_Some_2 toks j) as [t' Ht']; [apply lookup_lt_Some in Hj; lia|].
    pose proof (Hrow j _ q h t' Hj Ht') as Hr. rewrite Nat2Z.id, Hi in Hr. injection Hr as ->.
    unfold vocabulary in Hvoc. rewrite Forall_lookup in Hvoc. by eapply Hvoc.
  - assert (rn_invariant cfg && hp = true ∧ ¬ finishes q) as [Hinv Hnf].
    { destruct (rn_invariant cfg && hp); [|by destruct Hn]. split; [done|]. tauto. }
    rewrite (Hskip i q Hq Hinv Hnf) in Hi. injection Hi as <-. lia.
Qed.

End model.
End step.
