(* ===== verification/RunnerDraft.v ===== *)
(** * RunnerDraft: the draft model's side of a speculative cycle

    Models the draft execution of src/nanovllm/engine/model_runner.py: the
    fail-closed validation of a plan against the live rows, the catch-up and
    proposal inputs of the draft model, the choice of a captured graph and the
    proposal loop.  The forward pass, the sampler and the route registry's
    runtime readiness are arguments; tensors enter as the lists they are built
    from. *)
From Stdlib Require Import QArith.
From S2P Require Import Prelude SamplingParams Sequence SpecMemory SpecRoutes SpecPlan Scheduler.
From S2P Require Import SpecScheduler Metrics Engine RunnerInput.
#[local] Open Scope Z_scope.

(** ** Rows *)

Record DraftCycleRow := mk_cycle_row {
  cr_seq_id : nat;
  cr_token_ids : list Z;
  cr_committed_len : Z;
  cr_target_cached_tokens : Z;
  cr_draft_cached_tokens : Z;
  cr_block_table : list nat;
  cr_temperature : Q;
  cr_top_k : Z;
  cr_top_p : Q;
}.

Record DraftCatchupView := mk_catchup_view {
  cv_scheduled_token_ids : list Z;
  cv_is_prefill : bool;
  cv_num_cached_tokens : Z;
  cv_num_scheduled_tokens : Z;
  cv_num_tokens : Z;
  cv_last_token : Z;
  cv_block_table : list nat;
}.

#[export] Instance catchup_row : BatchRow DraftCatchupView := {
  row_cached := cv_num_cached_tokens;
  row_scheduled := cv_num_scheduled_tokens;
  row_total := cv_num_tokens;
  row_prefill := cv_is_prefill;
  row_last := cv_last_token;
  row_table := cv_block_table;
  row_input := cv_scheduled_token_ids;
}.

(** ** The runner's view of its configuration *)

Record draft_runner := mk_draft_runner {
  dn_speculation_enabled : bool;
  dn_configured_k : Z;
  dn_max_num_batched_tokens : Z;
  dn_max_model_len : Z;
  dn_memory_plan : SpeculativeMemoryPlan;
  dn_registry : option DraftRouteRegistry;
  dn_enforce_eager : bool;
  dn_block_size : Z;
  (** [kv_cache.size(2)] and [draft_kv_cache.size(2)], when allocated *)
  dn_target_blocks : option Z;
  dn_draft_blocks : option Z;
  dn_draft_vocab : Z;
}.

Definition refuse (c : bool) (msg : string) : outcome unit :=
  oraise_if c (SpeculativeDraftPlanError msg).

Definition _require_plan_int (name : string) (minimum value : Z) : outcome Z :=
  refuse (value <? minimum) (name ++ " must be at least its minimum")%string ;? Ok value.

(** ** Validation *)

(** The checks of the plan before its rows.  Returns K, the catch-up work, the
    route key and the number of physical draft blocks. *)
Definition validate_discard_header (r : draft_runner) (plan : DraftDiscardPlan)
    (seqs : list sequence) : outcome (Z * Z * DraftRouteKey * Z) :=
  refuse (negb (dn_speculation_enabled r))
    "draft discard execution requires speculation to be enabled" ;?
  refuse (bool_decide (is_Some (dp_fallback_reason plan)))
    "a fallback discard plan cannot execute the draft model" ;?
  let? k := _require_plan_int "plan.effective_k" 1 (dp_effective_k plan) in
  let? configured := _require_plan_int "plan.configured_k" 1 (dp_configured_k plan) in
  refuse (negb (configured =? dn_configured_k r))
    "discard plan configured_k does not match the runner" ;?
  let? route_cap := _require_plan_int "plan.workspace_route_cap" 1 (dp_workspace_route_cap plan) in
  refuse (Z.min configured route_cap <? k)
    "discard plan effective_k exceeds its configured/workspace cap" ;?
  refuse (bool_decide (dp_rows plan = [])) "discard plan rows must be a non-empty tuple" ;?
  refuse (negb (length seqs =? length (dp_rows plan))%nat)
    "live sequence batch must match the discard-plan row count" ;?
  let batch_size := Z.of_nat (length (dp_rows plan)) in
  let? fits := speculative_route_fits_plan (dn_memory_plan r) batch_size k in
  refuse (negb fits) "discard route exceeds the runner's reserved workspace plan" ;?
  refuse (Plan.max_effective_k (dn_memory_plan r) <? route_cap)
    "scheduler workspace cap exceeds the runner's reserved plan" ;?
  let? catchup := _require_plan_int "plan.draft_catchup_tokens" 0 (dp_draft_catchup_tokens plan) in
  match dp_route_key plan, dn_registry r with
  | Some key, Some registry =>
      let? known := validate_runtime_key registry key batch_size k catchup in
      refuse (negb known) "discard plan route is unregistered, uncertified, or unwarmed" ;?
      refuse (negb (bool_decide (execution_mode key =
                if dn_enforce_eager r then EAGER_DYNAMIC else CUDA_GRAPH)))
        "discard plan execution mode does not match the runner" ;?
      let? total := _require_plan_int "plan.total_scheduled_tokens" 1 (dp_total_scheduled_tokens plan) in
      refuse (negb (total =? catchup + batch_size * (k + 1)))
        "total_scheduled_tokens does not match catch-up plus discard work" ;?
      refuse (dn_max_num_batched_tokens r <? total)
        "discard plan exceeds max_num_batched_tokens" ;?
      refuse (negb (bool_decide (dp_draft_step_token_counts plan = replicate (Z.to_nat k) batch_size)))
        "draft_step_token_counts must contain one full-batch count per step" ;?
      let? target := _require_plan_int "plan.target_query_tokens" 1 (dp_target_query_tokens plan) in
      refuse (negb (target =? batch_size))
        "target_query_tokens does not match the ordinary target batch" ;?
      match dn_draft_blocks r with
      | None => Raise (SpeculativeDraftPlanError "draft KV cache is unavailable or has invalid geometry")
      | Some physical_blocks =>
          refuse (physical_blocks <? 1) "draft KV cache contains no blocks" ;?
          refuse (negb (bool_decide (NoDup (seq_id <$> seqs))))
            "live sequences must have unique integer seq_id values" ;?
          Ok (k, catchup, key, physical_blocks)
      end
  | _, _ => Raise (SpeculativeDraftPlanError "discard plan does not carry a registered route key")
  end.

(** One row against its live sequence. *)
Definition validate_discard_row (r : draft_runner) (k physical_blocks : Z) (ids seen : list nat)
    (row : DraftDiscardRow) (q : sequence) : outcome DraftCycleRow :=
  refuse (bool_decide (dr_seq_id row ∈ seen) || negb (bool_decide (dr_seq_id row ∈ ids)))
    "discard rows must name each live sequence exactly once" ;?
  refuse (negb (dr_seq_id row =? seq_id q)%nat)
    "discard-plan row order must match the live decode batch" ;?
  let? committed_len := _require_plan_int "row.committed_tokens" 1 (dr_committed_tokens row) in
  refuse (negb (committed_len =? num_tokens q)) "stale committed-token snapshot" ;?
  refuse (is_prefill q || negb (num_scheduled_tokens q =? 1)) "not a one-token decode row" ;?
  let? target_cached := _require_plan_int "target_cached_tokens" 0 (dr_target_cached_tokens row) in
  refuse (negb (target_cached =? num_cached_tokens q) || negb (target_cached =? committed_len - 1))
    "stale target-cache coverage" ;?
  let? draft_cached := _require_plan_int "draft_cached_tokens" 0 (dr_draft_cached_tokens row) in
  refuse (negb (draft_cached =? num_draft_cached_tokens q)) "stale draft-cache coverage" ;?
  refuse (committed_len - 1 <? draft_cached) "draft coverage passes the decode boundary" ;?
  let? remaining :=
    _require_plan_int "remaining_completion_tokens" 1 (dr_remaining_completion_tokens row) in
  refuse (negb (remaining =? remaining_tokens q) || (remaining <? k + 1))
    "lacks completion-token headroom" ;?
  let? headroom := _require_plan_int "model_position_headroom" 1 (dr_model_position_headroom row) in
  refuse (negb (headroom =? dn_max_model_len r - committed_len) || (headroom <? k))
    "stale model-position headroom" ;?
  let highest := committed_len + k - 2 in
  refuse (negb (bool_decide (dr_highest_proposal_input_position row = Some highest)))
    "invalid highest proposal input" ;?
  refuse (dn_max_model_len r <=? highest) "exceeds the model position limit" ;?
  refuse (negb (bool_decide (dr_block_table row = block_table q))) "stale block-table snapshot" ;?
  refuse (Z.of_nat (length (dr_block_table row)) <? highest `div` dn_block_size r + 1)
    "lacks reserved proposal blocks" ;?
  refuse (existsb (λ b, physical_blocks <=? Z.of_nat b) (dr_block_table row))
    "contains an invalid physical block ID" ;?
  refuse (negb (Z.of_nat (length (token_ids q)) =? committed_len)
          || existsb (λ t, (t <? 0) || (dn_draft_vocab r <=? t)) (token_ids q))
    "invalid committed token IDs" ;?
  Ok (mk_cycle_row (seq_id q) (token_ids q) committed_len target_cached draft_cached
        (dr_block_table row) (sp_temperature (params q)) (sp_top_k (params q)) (sp_top_p (params q))).

(** The loop over the rows. *)
Fixpoint validate_discard_rows (r : draft_runner) (k physical_blocks : Z) (ids seen : list nat)
    (rows : list DraftDiscardRow) (seqs : list sequence) : outcome (list DraftCycleRow) :=
  match rows, seqs with
  | row :: rows', q :: seqs' =>
      let? v := validate_discard_row r k physical_blocks ids seen row q in
      let? vs := validate_discard_rows r k physical_blocks ids (dr_seq_id row :: seen) rows' seqs' in
      Ok (v :: vs)
  | _, _ => Ok []
  end.

Definition missing_draft_tokens (v : DraftCycleRow) : Z :=
  cr_committed_len v - 1 - cr_draft_cached_tokens v.

Definition validate_discard (r : draft_runner) (plan : DraftDiscardPlan) (seqs : list sequence)
    : outcome (list DraftCycleRow * Z * DraftRouteKey) :=
  let? (k, catchup, key, physical_blocks) := validate_discard_header r plan seqs in
  let? views := validate_discard_rows r k physical_blocks (seq_id <$> seqs) [] (dp_rows plan) seqs in
  refuse (negb (foldr Z.add 0 (missing_draft_tokens <$> views) =? catchup))
    "draft_catchup_tokens does not match live draft-cache coverage" ;?
  Ok (views, k, key).

(** [except (TypeError, ValueError) as error: raise SpeculativeDraftPlanError]. *)
Definition as_plan_error {A} (o : outcome A) : outcome A :=
  match o with
  | Raise (ValueError m) | Raise (TypeError m) => Raise (SpeculativeDraftPlanError m)
  | _ => o
  end.

(** The target writes of one planned row. *)
Definition check_target_row (r : draft_runner) (target_blocks : Z) (row : SpecPlanRow) : outcome unit :=
  match highest_target_write_position row with
  | None => Raise (TypeError "'>=' not supported")
  | Some highest =>
      oraise_if (dn_max_model_len r <=? highest)
        (ValueError "planned target write exceeds model position limit") ;?
      oraise_if (Z.of_nat (length (row_block_table row)) <? highest `div` dn_block_size r + 1)
        (ValueError "planned target write lacks reserved blocks") ;?
      oraise_if (negb (bool_decide (NoDup (row_block_table row))))
        (ValueError "speculative row repeats a physical block") ;?
      oraise_if (existsb (λ b, target_blocks <=? Z.of_nat b) (row_block_table row))
        (ValueError "planned target block exceeds the physical pool")
  end.

#[export] Instance plan_row_eq_dec : EqDecision SpecPlanRow.
Proof. solve_decision. Defined.
#[export] Instance step_plan_eq_dec : EqDecision SpecStepPlan.
Proof. solve_decision. Defined.

Section validate.
Context (torch : torch_dtypes) (sha256_hexdigest : payload → string).

Definition _validate_speculative_step_plan (r : draft_runner) (plan : SpecStepPlan)
    (seqs : list sequence) : outcome (list DraftCycleRow * Z * DraftRouteKey) :=
  as_plan_error (
    SpecStepPlan_post_init plan ;?
    ofor_each SpecPlanRow_post_init (rows plan) ;?
    let? expected := build_speculative_step_plan torch sha256_hexdigest (cycle_id plan) (rows plan)
      (dn_configured_k r) (workspace_route_cap plan) (plan_effective_k plan)
      (dn_max_num_batched_tokens r) (dn_memory_plan r) (route_key plan) (bypass_reason plan) in
    oraise_if (negb (bool_decide (plan = expected)))
      (ValueError "speculative plan geometry or workspace certificate drifted") ;?
    oraise_if (negb (uses_speculation plan))
      (ValueError "fallback speculative plans cannot execute") ;?
    match dn_target_blocks r with
    | None => Raise (ValueError "target KV cache is unavailable")
    | Some n => ofor_each (check_target_row r n) (rows plan)
    end) ;?
  validate_discard r (as_draft_discard_plan plan) seqs.

Definition _validate_draft_discard_plan (r : draft_runner) (plan : cycle_plan)
    (seqs : list sequence) : outcome (list DraftCycleRow * Z * DraftRouteKey) :=
  match plan with
  | StepPlan p => _validate_speculative_step_plan r p seqs
  | DiscardPlan p => validate_discard r p seqs
  end.
End validate.

(** ** Draft inputs *)

Definition _draft_graph_key (r : draft_runner) (graph_bs : list Z) (graphs : option (list Z))
    (variables : option Z) (batch_size : Z) (context : Context) (route_key : DraftRouteKey)
    : outcome (option Z) :=
  match execution_mode route_key with
  | EAGER_DYNAMIC =>
      refuse (negb (dn_enforce_eager r)) "an eager draft route is not registered for graph mode" ;?
      Ok None
  | CUDA_GRAPH =>
      refuse (dn_enforce_eager r) "draft route execution mode does not match graph availability" ;?
      match graph_bs, graphs, variables with
      | _ :: _, Some captured, Some width =>
          let key := batch_bucket route_key in
          refuse (negb (bool_decide (key ∈ graph_bs)) || negb (bool_decide (key ∈ captured))
                  || negb ((0 <? batch_size) && (batch_size <=? key)))
            "registered draft graph bucket is unavailable" ;?
          match slot_mapping context, context_lens context, block_tables context with
          | Some _, Some _, Some tables =>
              refuse (negb (Z.of_nat (length tables) =? batch_size)
                      || (width <? Z.of_nat (length (default [] (head tables)))))
                "live draft decode metadata does not fit its registered graph" ;?
              Ok (Some key)
          | _, _, _ => Raise (SpeculativeDraftPlanError
                         "live draft decode metadata does not fit its registered graph")
          end
      | _, _, _ => Raise (SpeculativeDraftPlanError "registered draft graph resources are unavailable")
      end
  end.

Section inputs.
Variable block_size : Z.

Definition catchup_views (rows : list DraftCycleRow) : outcome (list DraftCatchupView) :=
  omap_all (λ v,
    match (cr_token_ids v) !! Z.to_nat (cr_committed_len v - 2) with
    | Some last => Ok (mk_catchup_view
        (slice (cr_token_ids v) (cr_draft_cached_tokens v) (cr_committed_len v - 1)) true
        (cr_draft_cached_tokens v) (missing_draft_tokens v) (cr_committed_len v - 1) last
        (cr_block_table v))
    | None => Raise IndexError
    end)
    (filter (λ v, cr_draft_cached_tokens v < cr_committed_len v - 1) rows).

(** The slot of a position of the row. *)
Definition draft_slot (table : list nat) (position : Z) : outcome Z :=
  let? b := table_at table (position `div` block_size) in
  Ok (b * block_size + position `mod` block_size).

(** One iteration of the loop over the catch-up rows, on the lists of
    [prepare_ragged]. *)
Definition catchup_row_step (g : ragged) (iv : Z * DraftCatchupView) : outcome ragged :=
  let '(index, v) := iv in
  let start := cv_num_cached_tokens v in
  let stop := cv_num_tokens v in
  let query_len := stop - start in
  let? slots := omap_all (draft_slot (cv_block_table v)) (py_range start stop) in
  Ok (mk_ragged (rg_input_ids g ++ cv_scheduled_token_ids v)
        (rg_positions g ++ py_range start stop)
        (rg_query_sequence_ids g ++ replicate (Z.to_nat query_len) index)
        (rg_query_context_lengths g ++ py_range (start + 1) (stop + 1)) (rg_emission g)
        (rg_cu_q g ++ [default 0 (last (rg_cu_q g)) + query_len])
        (rg_cu_k g ++ [default 0 (last (rg_cu_k g)) + stop])
        (Z.max (rg_max_q g) query_len) (Z.max (rg_max_k g) stop) (rg_slots g ++ slots)).

(** [None] when no row lags: nothing is run. *)
Definition _prepare_draft_catchup (rows : list DraftCycleRow) : outcome (option model_call) :=
  let? views := catchup_views rows in
  match views with
  | [] => Ok None
  | _ =>
      let? g := ofold catchup_row_step (enumerate views) ragged_empty in
      let? tables := prepare_block_tables views in
      Ok (Some (mk_call (rg_input_ids g) (rg_positions g)
        (mk_context true (Some (rg_cu_q g)) (Some (rg_cu_k g)) (rg_max_q g) (rg_max_k g)
           (Some (rg_slots g)) None (Some tables) (Some (rg_query_sequence_ids g))
           (Some (rg_query_context_lengths g)) None)))
  end.

(** The block tables of cycle rows: only the table enters. *)
Definition cycle_tables (rows : list DraftCycleRow) : outcome (list (list Z)) :=
  prepare_block_tables ((λ v, mk_catchup_view [] false 0 0 0 0 (cr_block_table v)) <$> rows).

Definition _prepare_draft_decode (rows : list DraftCycleRow) (input_token_ids : list Z) (step : Z)
    : outcome model_call :=
  let ps := (λ v, cr_committed_len v - 1 + step) <$> rows in
  let? slots := omap_all (λ vp : DraftCycleRow * Z, draft_slot (cr_block_table vp.1) vp.2) (zip rows ps) in
  let? tables := cycle_tables rows in
  Ok (mk_call input_token_ids ps
        (mk_context false None None 0 0 (Some slots) (Some ((λ p, p + 1) <$> ps)) (Some tables)
           (Some (py_range 0 (Z.of_nat (length rows)))) (Some ((λ p, p + 1) <$> ps)) None)).
End inputs.

(** ** The proposal loop *)

(** The draft model and its sampler.  [draft_forward] is one forward pass, the
    [n]-th of the cycle, through the given captured graph or eagerly; it answers
    the logits of its rows.  [draft_sample] draws one token per row and retains the
    law it was drawn from. *)
Record draft_env (logits : Type) := mk_draft_env {
  draft_forward : nat → model_call → option Z → outcome logits;
  draft_sample : nat → logits → list DraftCycleRow → outcome (list Z * list (list Q));
  graph_bs : list Z;
  captured : option (list Z);
  graph_width : option Z;
}.
Arguments draft_forward {logits}.
Arguments draft_sample {logits}.
Arguments graph_bs {logits}.
Arguments captured {logits}.
Arguments graph_width {logits}.

(** The state is the log of the forward passes. *)
Abbreviation MR := (M (list model_call)).

Section execute.
Context {logits : Type} (env : draft_env logits) (r : draft_runner).

Definition run_draft_model (c : model_call) (key : option Z) : MR logits :=
  let* log := get in
  modify (λ l, l ++ [c]) ;;;
  lift (draft_forward env (length log) c key).

(** Answers the logits and whether a graph was replayed. *)
Definition _run_draft_decode_model (c : model_call) (route_key : DraftRouteKey)
    : MR (logits * bool) :=
  let* graph_key := lift (_draft_graph_key r (graph_bs env) (captured env) (graph_width env)
    (Z.of_nat (length (input_ids c))) (call_context c) route_key) in
  let* out := run_draft_model c graph_key in
  ret (out, bool_decide (is_Some graph_key)).

(** [row.token_ids[i]] for a position of the row. *)
Definition token_at (v : DraftCycleRow) (i : Z) : outcome Z :=
  match cr_token_ids v !! Z.to_nat i with Some t => Ok t | None => Raise IndexError end.

(** Returns the number of draft positions computed. *)
Definition _run_draft_catchup (rows : list DraftCycleRow) (route_key : DraftRouteKey) : MR Z :=
  let one_token_rows := filter (λ v, missing_draft_tokens v = 1) rows in
  if negb (bool_decide (one_token_rows = []))
     && forallb (λ v, missing_draft_tokens v <=? 1) rows then
    let* ids := lift (omap_all (λ v, token_at v (cr_draft_cached_tokens v)) one_token_rows) in
    let* c := lift (_prepare_draft_decode (dn_block_size r) one_token_rows ids (-1)) in
    _run_draft_decode_model c route_key ;;;
    ret (Z.of_nat (length one_token_rows))
  else
    let* c := lift (_prepare_draft_catchup (dn_block_size r) rows) in
    match c with
    | None => ret 0
    | Some c => run_draft_model c None ;;; ret (Z.of_nat (length (input_ids c)))
    end.

Definition _run_draft_proposal_step (rows : list DraftCycleRow) (input_token_ids : list Z)
    (step : Z) (route_key : DraftRouteKey) : MR (list Z * list (list Q) * bool) :=
  let* c := lift (_prepare_draft_decode (dn_block_size r) rows input_token_ids step) in
  let* (out, used_graph) := _run_draft_decode_model c route_key in
  let* log := get in
  let* (token_ids, probabilities) := lift (draft_sample env (length log) out rows) in
  raise_if (negb ((length probabilities =? length rows)%nat
                  && forallb (λ q, Z.of_nat (length q) =? dn_draft_vocab r) probabilities))
    (SpeculativeDraftPlanError "sampler did not retain probabilities in the reserved q row") ;;;
  raise_if (negb (length token_ids =? length rows)%nat)
    (SpeculativeDraftPlanError "draft sampler returned invalid token IDs") ;;;
  ret (token_ids, probabilities, used_graph).

(** [clamp(0, vocab_size - 1)]. *)
Definition clamp_token (t : Z) : Z := Z.min (Z.max t 0) (dn_draft_vocab r - 1).

(** The accumulators of the loop over the steps. *)
Record proposals := mk_proposals {
  pr_inputs : list Z;
  (** the columns written so far, in step order *)
  pr_columns : list (list Z);
  (** [q_storage]: the laws of the steps *)
  pr_laws : list (list (list Q));
  pr_invalid : bool;
  pr_graph_steps : Z;
  pr_eager_steps : Z;
}.

Fixpoint proposal_loop (rows : list DraftCycleRow) (route_key : DraftRouteKey) (steps : list Z)
    (a : proposals) : MR proposals :=
  match steps with
  | [] => ret a
  | step :: steps' =>
      let* (sampled, q_step, used_graph) := _run_draft_proposal_step rows (pr_inputs a) step route_key in
      proposal_loop rows route_key steps'
        (mk_proposals (clamp_token <$> sampled) (pr_columns a ++ [sampled])
           (pr_laws a ++ [q_step])
           (pr_invalid a || existsb (λ t, (t <? 0) || (dn_draft_vocab r <=? t)) sampled)
           (pr_graph_steps a + if used_graph then 1 else 0)
           (pr_eager_steps a + if used_graph then 0 else 1))
  end.

Record DraftProposalExecution := mk_execution {
  ex_rows : list DraftCycleRow;
  ex_proposal_token_ids : list (list Z);
  ex_q_storage_kbv : list (list (list Q));
  (** its B-major view *)
  ex_q_probabilities : list (list (list Q));
  ex_catchup_positions : Z;
  ex_graph_decode_steps : Z;
  ex_eager_decode_steps : Z;
}.

(** Row [i] of the proposal matrix. *)
Definition proposal_row (columns : list (list Z)) (i : nat) : list Z := (λ c, c !!! i) <$> columns.
Definition law_row (laws : list (list (list Q))) (i : nat) : list (list Q) := (λ c, c !!! i) <$> laws.

Definition _execute_draft_proposals_validated (rows : list DraftCycleRow) (effective_k : Z)
    (route_key : DraftRouteKey) : MR DraftProposalExecution :=
  let* catchup := _run_draft_catchup rows route_key in
  let* inputs := lift (omap_all (λ v, match last (cr_token_ids v) with
                                      | Some t => Ok t | None => Raise IndexError end) rows) in
  let* a := proposal_loop rows route_key (py_range 0 effective_k) (mk_proposals inputs [] [] false 0 0) in
  raise_if (pr_invalid a) (SpeculativeDraftPlanError "draft sampler returned invalid token IDs") ;;;
  ret (mk_execution rows (proposal_row (pr_columns a) <$> seq 0 (length rows))
         (pr_laws a) (law_row (pr_laws a) <$> seq 0 (length rows)) catchup
         (pr_graph_steps a) (pr_eager_steps a)).

(** The strides of a contiguous tensor, and of its view with the first two
    dimensions exchanged. *)
Definition contiguous_strides (shape : list Z) : list Z :=
  foldr (λ n st, default 1 (head st) * n :: st) [1] (tail shape).

Definition permute_102 {A} (l : list A) : list A :=
  match l with a :: b :: l' => b :: a :: l' | _ => l end.

Definition _host_draft_discard_result (e : DraftProposalExecution) (effective_k : Z)
    (route_key : DraftRouteKey) : DraftDiscardResult :=
  let kbv := [effective_k; Z.of_nat (length (ex_rows e)); dn_draft_vocab r] in
  mk_ddr (zip_with (λ v ts, mk_ddr_row (cr_seq_id v) (cr_committed_len v) ts effective_k)
            (ex_rows e) (ex_proposal_token_ids e))
    route_key effective_k (ex_catchup_positions e)
    (Z.of_nat (length (ex_rows e)) * effective_k)
    (ex_graph_decode_steps e) (ex_eager_decode_steps e)
    (permute_102 kbv) (permute_102 (contiguous_strides kbv)) "torch.float32" true true.

Context (torch : torch_dtypes) (sha256_hexdigest : payload → string).

(** [run_speculative_discard]: validate, execute, report; a failed execution is
    re-raised as one host-only error. *)
Definition run_speculative_discard_runner (plan : cycle_plan) (seqs : list sequence)
    : MR DraftDiscardResult :=
  let* (rows, effective_k, route_key) :=
    lift (_validate_draft_discard_plan torch sha256_hexdigest r plan seqs) in
  λ log, match _execute_draft_proposals_validated rows effective_k route_key log with
  | (Ok e, log') => (Ok (_host_draft_discard_result e effective_k route_key), log')
  | (Raise _, log') => (Raise (RuntimeError "V3 draft execution failed"), log')
  end.
End execute.
