(* ===== verification/RunnerDraftSpec.v ===== *)
(** * RunnerDraftSpec: a validated plan is executed inside the pool

    What the runner's validation guarantees: every forward pass of a validated
    cycle reads and writes only slots of the pool at the positions of its rows,
    and the result it reports is one the engine accepts. *)
From Stdlib Require Import QArith.
From S2P Require Import Prelude SamplingParams Sequence SpecMemory SpecRoutes SpecPlan Scheduler.
From S2P Require Import SpecScheduler Metrics Engine RunnerInput RunnerSpec RunnerDraft.
#[local] Open Scope Z_scope.

(** ** Inversion of the checks *)

Lemma refuse_ok c msg u : refuse c msg = Ok u ↔ c = false.
Proof. unfold refuse, oraise_if. destruct c, u; naive_solver. Qed.

Lemma require_ok name m v a : _require_plan_int name m v = Ok a → a = v ∧ m <= v.
Proof.
  unfold _require_plan_int, refuse, oraise_if. destruct (Z.ltb_spec v m); simpl; [done|].
  by intros [= <-].
Qed.

(** Peel the checks off a computation that returned. *)
Ltac peel H :=
  repeat first
    [ apply obind_ok in H as ([] & ?%refuse_ok & H)
    | let E := fresh in
      apply obind_ok in H as (? & E & H); apply require_ok in E as [-> ?] ].

(** ** Validated rows *)

Section views.
Context (r : draft_runner) (k nb : Z).

(** A view the draft model can execute for [k] steps. *)
Record view_ok (v : DraftCycleRow) : Prop := {
  vo_len : Z.of_nat (length (cr_token_ids v)) = cr_committed_len v;
  vo_committed : 1 <= cr_committed_len v;
  vo_draft : 0 <= cr_draft_cached_tokens v <= cr_committed_len v - 1;
  vo_model : cr_committed_len v + k - 2 < dn_max_model_len r;
  vo_table : (cr_committed_len v + k - 2) `div` dn_block_size r + 1 <=
    Z.of_nat (length (cr_block_table v));
  vo_blocks : Forall (λ b, Z.of_nat b < nb) (cr_block_table v);
  vo_tokens : Forall (λ t, 0 <= t < dn_draft_vocab r) (cr_token_ids v);
}.

(** The view of a row. *)
Definition view_of (row : DraftDiscardRow) (q : sequence) (v : DraftCycleRow) : Prop :=
  dr_seq_id row = seq_id q ∧ cr_seq_id v = seq_id q ∧ cr_committed_len v = dr_committed_tokens row ∧
  cr_draft_cached_tokens v = dr_draft_cached_tokens row ∧ cr_token_ids v = token_ids q ∧
  cr_block_table v = block_table q ∧ cr_committed_len v = num_tokens q.

Lemma validate_row_inv ids seen row q v :
  validate_discard_row r k nb ids seen row q = Ok v →
  view_ok v ∧ view_of row q v ∧ dr_seq_id row ∉ seen.
Proof.
  unfold validate_discard_row. intros H. peel H. cbv zeta in H. peel H. injection H as <-.
  repeat match goal with
  | E : _ || _ = false |- _ => apply orb_false_iff in E as [? ?]
  | E : negb _ = false |- _ => apply negb_false_iff in E
  | E : bool_decide _ = true |- _ => apply bool_decide_eq_true in E
  | E : bool_decide _ = false |- _ => apply bool_decide_eq_false in E
  | E : (_ =? _) = true |- _ => apply Z.eqb_eq in E
  | E : (_ =? _)%nat = true |- _ => apply Nat.eqb_eq in E
  | E : (_ <? _) = false |- _ => apply Z.ltb_ge in E
  | E : (_ <=? _) = false |- _ => apply Z.leb_gt in E
  end.
  assert (∀ (f : nat → bool) l, existsb f l = false → Forall (λ x, f x = false) l) as Hn.
  { intros f l. induction l as [|x l IH]; simpl; [constructor|].
    intros [? ?]%orb_false_iff. constructor; auto. }
  assert (∀ (f : Z → bool) l, existsb f l = false → Forall (λ x, f x = false) l) as Hz.
  { intros f l. induction l as [|x l IH]; simpl; [constructor|].
    intros [? ?]%orb_false_iff. constructor; auto. }
  split; [|split; [|done]].
  - split; simpl; try done; try lia.
    + eapply Forall_impl; [by apply Hn|]. intros b Hb. simpl in Hb. apply Z.leb_gt in Hb. lia.
    + eapply Forall_impl; [by apply Hz|]. intros t Ht. simpl in Ht.
      apply orb_false_iff in Ht as [?%Z.ltb_ge ?%Z.leb_gt]. lia.
  - by split_and!.
Qed.

Lemma validate_rows_inv ids seen rows qs vs :
  length rows = length qs → validate_discard_rows r k nb ids seen rows qs = Ok vs →
  Forall view_ok vs ∧ Forall3 view_of rows qs vs ∧ NoDup (dr_seq_id <$> rows).
Proof.
  intros Hl E. cut (Forall view_ok vs ∧ Forall3 view_of rows qs vs ∧ NoDup (dr_seq_id <$> rows) ∧
    ∀ x, x ∈ dr_seq_id <$> rows → x ∉ seen); [naive_solver|].
  revert qs seen vs Hl E. induction rows as [|row rows IH]; intros [|q qs] seen vs Hl; try done; simpl.
  { intros [= <-]. split_and!; [constructor..|]. set_solver. }
  intros (v & Hv & (vs' & E & [= <-])%obind_ok)%obind_ok.
  apply validate_row_inv in Hv as (? & ? & Hn).
  destruct (IH qs (dr_seq_id row :: seen) vs') as (H1 & H2 & H3 & H4); [simpl in Hl; lia|done|].
  split_and!; [by constructor|by constructor| |].
  - constructor; [|done]. intros Hin. apply (H4 _ Hin). left.
  - intros x [->|Hx]%elem_of_cons; [done|]. intros ?. apply (H4 x Hx). by right.
Qed.
End views.

(** The plan the checks look at. *)
Definition discard_view (plan : cycle_plan) : DraftDiscardPlan :=
  match plan with StepPlan p => as_draft_discard_plan p | DiscardPlan p => p end.

(** A plan that passed. *)
Record plan_valid (r : draft_runner) (p : DraftDiscardPlan) (qs : list sequence)
    (vs : list DraftCycleRow) (k : Z) (key : DraftRouteKey) (nb : Z) : Prop := {
  pv_k : 1 <= k ∧ dp_effective_k p = k;
  pv_key : dp_route_key p = Some key;
  pv_rows : dp_rows p ≠ [] ∧ length qs = length (dp_rows p);
  pv_catchup : dp_draft_catchup_tokens p = foldr Z.add 0 (missing_draft_tokens <$> vs);
  pv_total : dp_total_scheduled_tokens p =
    dp_draft_catchup_tokens p + Z.of_nat (length (dp_rows p)) * (k + 1);
  pv_counts : dp_draft_step_token_counts p = replicate (Z.to_nat k) (Z.of_nat (length (dp_rows p)));
  pv_target : dp_target_query_tokens p = Z.of_nat (length (dp_rows p));
  pv_blocks : dn_draft_blocks r = Some nb;
  pv_views : Forall (view_ok r k nb) vs;
  pv_match : Forall3 view_of (dp_rows p) qs vs;
  pv_nodup : NoDup (dr_seq_id <$> dp_rows p);
}.

Lemma validate_discard_inv r p qs vs k key :
  validate_discard r p qs = Ok (vs, k, key) → ∃ nb, plan_valid r p qs vs k key nb.
Proof.
  unfold validate_discard. intros ([[[k' catchup] key'] nb] & Hh & H)%obind_ok.
  apply obind_ok in H as (views & Hr & H). peel H. injection H as -> -> ->.
  match goal with E : negb (_ =? _) = false |- _ => apply negb_false_iff, Z.eqb_eq in E; rename E into Hsum end.
  unfold validate_discard_header in Hh. peel Hh.
  apply obind_ok in Hh as (fits & _ & Hh). peel Hh.
  destruct (dp_route_key p) as [key0|] eqn:Ekey; [|done].
  destruct (dn_registry r) as [reg|]; [|done].
  apply obind_ok in Hh as (known & _ & Hh). peel Hh.
  destruct (dn_draft_blocks r) as [nb'|] eqn:Enb; [|done]. peel Hh. injection Hh as E1 E2 E3 E4. subst.
  repeat match goal with
  | E : negb _ = false |- _ => apply negb_false_iff in E
  | E : (_ =? _) = true |- _ => apply Z.eqb_eq in E
  | E : (_ =? _)%nat = true |- _ => apply Nat.eqb_eq in E
  | E : bool_decide _ = true |- _ => apply bool_decide_eq_true in E
  | E : bool_decide _ = false |- _ => apply bool_decide_eq_false in E
  end.
  exists nb. apply validate_rows_inv in Hr as (Hv & Hm & Hnd); [|done]. by split.
Qed.

Lemma validate_plan_inv torch sha r plan qs vs k key :
  _validate_draft_discard_plan torch sha r plan qs = Ok (vs, k, key) →
  ∃ nb, plan_valid r (discard_view plan) qs vs k key nb.
Proof.
  destruct plan as [p|p]; simpl; [apply validate_discard_inv|].
  unfold _validate_speculative_step_plan. intros (? & _ & H)%obind_ok. by apply validate_discard_inv.
Qed.

(** ** Draft inputs *)

Section calls.
Context (r : draft_runner) (k nb : Z) (vs : list DraftCycleRow).
Context (Hbs : 0 < dn_block_size r) (Hk : 1 <= k) (Hvs : Forall (view_ok r k nb) vs).
#[local] Abbreviation bs := (dn_block_size r).

Lemma view_in v : v ∈ vs → view_ok r k nb v.
Proof. rewrite Forall_forall in Hvs. apply Hvs. Qed.

(** A forward pass at positions of the rows, each at its own slot. *)
Definition call_sound (c : model_call) : Prop :=
  ∃ vps : list (DraftCycleRow * Z),
    Forall (λ vp, vp.1 ∈ vs ∧ 0 <= vp.2 < cr_committed_len vp.1 + k - 1) vps ∧
    positions c = vps.*2 ∧
    slot_mapping (call_context c) = Some ((λ vp, slot_of bs (cr_block_table vp.1) vp.2) <$> vps) ∧
    length (input_ids c) = length vps.

(** Such a pass stays inside the pool and the model's positions. *)
Lemma call_in_pool c : call_sound c →
  Forall (λ p, 0 <= p < dn_max_model_len r) (positions c) ∧
  ∀ slots, slot_mapping (call_context c) = Some slots → Forall (λ s, 0 <= s < nb * bs) slots.
Proof.
  intros (vps & Hp & -> & Hs & _). rewrite Forall_forall in Hp. split.
  - apply Forall_fmap, Forall_forall. intros [v p] [Hv Hb]%Hp. simpl in *.
    pose proof (vo_model _ _ _ _ (view_in v Hv)). lia.
  - intros slots E. rewrite Hs in E. injection E as <-. apply Forall_fmap, Forall_forall.
    intros [v p] [Hv Hb]%Hp. simpl in *. destruct (view_in v Hv) as [_ _ _ _ Ht Hbl _].
    pose proof (Z.div_pos p bs ltac:(lia) Hbs).
    pose proof (Z.div_le_mono p (cr_committed_len v + k - 2) bs Hbs ltac:(lia)).
    destruct (lookup_lt_is_Some_2 (cr_block_table v) (Z.to_nat (p `div` bs))) as [b Hlb]; [lia|].
    unfold slot_of. rewrite (list_lookup_total_correct _ _ _ Hlb).
    rewrite Forall_lookup in Hbl. specialize (Hbl _ _ Hlb). simpl in Hbl.
    pose proof (Z.mod_pos_bound p bs Hbs). nia.
Qed.

Lemma draft_slot_eq v p :
  v ∈ vs → 0 <= p < cr_committed_len v + k - 1 →
  draft_slot bs (cr_block_table v) p = Ok (slot_of bs (cr_block_table v) p).
Proof.
  intros Hv Hp. destruct (view_in v Hv) as [_ _ _ _ Ht _ _].
  pose proof (Z.div_pos p bs ltac:(lia) Hbs).
  pose proof (Z.div_le_mono p (cr_committed_len v + k - 2) bs Hbs ltac:(lia)).
  unfold draft_slot. rewrite table_at_nth by lia. done.
Qed.

Lemma prepare_decode_sound vs' ids step :
  vs' ≠ [] → (∀ v, v ∈ vs' → v ∈ vs ∧ 0 <= cr_committed_len v - 1 + step) → step < k →
  length ids = length vs' →
  ∃ c, _prepare_draft_decode bs vs' ids step = Ok c ∧ call_sound c ∧
    input_ids c = ids.
Proof.
  intros Hne Hin Hst Hl. unfold _prepare_draft_decode, cycle_tables.
  set (pos := λ v, cr_committed_len v - 1 + step).
  assert (zip vs' (pos <$> vs') = (λ v, (v, pos v)) <$> vs') as Ez.
  { clear. induction vs' as [|v l IH]; [done|]. rewrite !fmap_cons. simpl. by rewrite IH. }
  rewrite Ez.
  rewrite (omap_all_eq _ (λ vp, slot_of bs (cr_block_table vp.1) vp.2)); last first.
  { intros vp (v & -> & Hv)%list_elem_of_fmap. simpl. destruct (Hin v Hv) as [Hvv H0].
    apply draft_slot_eq; [done|]. unfold pos. lia. }
  cbn [obind].
  destruct (block_tables_run ((λ v, mk_catchup_view [] false 0 0 0 0 (cr_block_table v)) <$> vs'))
    as (w & t & -> & _); [by destruct vs'|]. cbn [obind].
  eexists. split; [reflexivity|]. split; [|done].
  exists ((λ v, (v, pos v)) <$> vs'). simpl. split_and!.
  - apply Forall_fmap, Forall_forall. intros v Hv. simpl. destruct (Hin v Hv) as [Hvv H0].
    split; [done|]. unfold pos. lia.
  - by rewrite <-list_fmap_compose.
  - done.
  - by rewrite length_fmap.
Qed.

(** ** Catch-up *)

Definition lagging : list DraftCycleRow :=
  filter (λ v, cr_draft_cached_tokens v < cr_committed_len v - 1) vs.

Definition catchup_view (v : DraftCycleRow) : DraftCatchupView :=
  mk_catchup_view (slice (cr_token_ids v) (cr_draft_cached_tokens v) (cr_committed_len v - 1)) true
    (cr_draft_cached_tokens v) (missing_draft_tokens v) (cr_committed_len v - 1)
    (cr_token_ids v !!! Z.to_nat (cr_committed_len v - 2)) (cr_block_table v).

Lemma catchup_views_run : catchup_views vs = Ok (catchup_view <$> lagging).
Proof.
  unfold catchup_views. apply omap_all_eq. intros v [Hlt Hv]%list_elem_of_filter.
  destruct (view_in v Hv) as [Hl Hc Hd _ _ _ _].
  destruct (lookup_lt_is_Some_2 (cr_token_ids v) (Z.to_nat (cr_committed_len v - 2))) as [t Ht]; [lia|].
  rewrite Ht. unfold catchup_view. by rewrite (list_lookup_total_correct _ _ _ Ht).
Qed.

Definition lag_positions (v : DraftCycleRow) : list Z :=
  py_range (cr_draft_cached_tokens v) (cr_committed_len v - 1).

Lemma catchup_loop l g ix :
  length ix = length l → (∀ v, v ∈ l → v ∈ vs ∧ cr_draft_cached_tokens v < cr_committed_len v - 1) →
  ∃ g', ofold (catchup_row_step bs) (zip ix (catchup_view <$> l)) g = Ok g' ∧
    rg_positions g' = rg_positions g ++ concat (lag_positions <$> l) ∧
    rg_slots g' = rg_slots g ++
      concat ((λ v, slot_of bs (cr_block_table v) <$> lag_positions v) <$> l) ∧
    Z.of_nat (length (rg_input_ids g')) =
      Z.of_nat (length (rg_input_ids g)) + foldr Z.add 0 (missing_draft_tokens <$> l).
Proof.
  revert g ix. induction l as [|v l IH]; intros g ix Hl Hin.
  { destruct ix; [|done]. exists g. simpl. rewrite !app_nil_r. split_and!; try done. lia. }
  destruct ix as [|i ix]; [done|]. destruct (Hin v ltac:(set_solver)) as [Hv Hlt].
  destruct (view_in v Hv) as [Hlen Hc Hd _ _ _ _].
  rewrite fmap_cons. cbn [zip zip_with ofold]. unfold catchup_row_step at 1. cbn [catchup_view cv_num_cached_tokens
    cv_num_tokens cv_block_table cv_scheduled_token_ids].
  rewrite (omap_all_eq _ (slot_of bs (cr_block_table v))); last first.
  { intros p Hp%elem_of_py_range. apply draft_slot_eq; [done|lia]. }
  cbn [obind]. set (g1 := mk_ragged _ _ _ _ _ _ _ _ _ _).
  destruct (IH g1 ix) as (g' & E & H1 & H2 & H3); [by injection Hl|intros; apply Hin; set_solver|].
  exists g'. split; [exact E|]. rewrite H1, H2, H3. unfold g1. simpl. rewrite <-!app_assoc, length_app.
  split_and!; try done. rewrite Nat2Z.inj_add, length_slice by lia.
  change (list_fmap _ _ missing_draft_tokens l) with (missing_draft_tokens <$> l).
  unfold missing_draft_tokens at 2. lia.
Qed.

Lemma lagging_sum :
  foldr Z.add 0 (missing_draft_tokens <$> lagging) = foldr Z.add 0 (missing_draft_tokens <$> vs).
Proof.
  unfold lagging. assert (Forall (λ v, 0 <= missing_draft_tokens v) vs) as Hm.
  { apply Forall_forall. intros v Hv. destruct (view_in v Hv). unfold missing_draft_tokens. lia. }
  clear Hvs. induction Hm as [|v l Hm _ IH]; [done|].
  rewrite filter_cons. case_decide as Hlt; rewrite ?fmap_cons; cbn [foldr]; rewrite IH; [done|].
  assert (missing_draft_tokens v = 0) as -> by (unfold missing_draft_tokens in *; lia). done.
Qed.

Lemma prepare_catchup_sound :
  ∃ co, _prepare_draft_catchup bs vs = Ok co ∧
    match co with
    | None => foldr Z.add 0 (missing_draft_tokens <$> vs) = 0
    | Some c => call_sound c ∧
        Z.of_nat (length (input_ids c)) = foldr Z.add 0 (missing_draft_tokens <$> vs)
    end.
Proof.
  unfold _prepare_draft_catchup. rewrite catchup_views_run. cbn [obind]. rewrite <-lagging_sum.
  assert (∀ v, v ∈ lagging → v ∈ vs ∧ cr_draft_cached_tokens v < cr_committed_len v - 1) as Hlag.
  { intros v [??]%list_elem_of_filter. done. }
  destruct lagging as [|v0 l0] eqn:El; [by exists None|]. rewrite <-El in *.
  assert (catchup_view <$> lagging = catchup_view v0 :: (catchup_view <$> l0)) as Ev by (by rewrite El).
  destruct (catchup_loop lagging ragged_empty (py_range 0 (Z.of_nat (length (catchup_view <$> lagging)))))
    as (g & Eg & H1 & H2 & H3); [rewrite length_py_range, length_fmap; lia|done|].
  unfold enumerate. rewrite Eg.
  destruct (block_tables_run (catchup_view <$> lagging)) as (w & t & Et & _); [by rewrite Ev|].
  rewrite Et. cbn [obind]. rewrite Ev. cbn iota. eexists. split; [reflexivity|]. cbn iota.
  simpl in H1, H2, H3. split; [|done].
  exists (concat ((λ v, (v,.) <$> lag_positions v) <$> lagging)). simpl.
  split_and!.
  - apply Forall_concat, Forall_fmap, Forall_forall. intros v Hv. simpl.
    apply Forall_fmap, Forall_forall. intros p Hp%elem_of_py_range. simpl.
    destruct (Hlag v Hv) as [Hvv _]. destruct (view_in v Hvv) as [_ _ Hd _ _ _ _]. split; [done|lia].
  - rewrite H1. clear. induction lagging as [|v l IH]; [done|]. rewrite !fmap_cons. simpl.
    rewrite fmap_app, <-IH. f_equal. rewrite <-list_fmap_compose. by rewrite list_fmap_id.
  - rewrite H2. f_equal. clear. induction lagging as [|v l IH]; [done|]. rewrite !fmap_cons. simpl.
    rewrite fmap_app, <-IH. f_equal. by rewrite <-list_fmap_compose.
  - apply Nat2Z.inj. rewrite H3. clear -Hlag Hvs. revert Hlag. induction lagging as [|v l IH]; intros Hlag; [done|].
    rewrite !fmap_cons. simpl. rewrite length_app, length_fmap, Nat2Z.inj_add.
    rewrite <-IH by (intros; apply Hlag; set_solver). unfold lag_positions. rewrite length_py_range.
    destruct (Hlag v ltac:(set_solver)) as [Hvv Hlt]. unfold missing_draft_tokens. lia.
Qed.

(** ** Execution *)

Context {logits : Type} (env : draft_env logits) (key : DraftRouteKey).
#[local] Abbreviation in_range t := (0 <= t < dn_draft_vocab r).

(** A run that only logs sound passes. *)
Definition sound_run {A} (m : MR A) (Q : A → Prop) : Prop :=
  ∀ log, Forall call_sound log →
    wp m (λ a log', Forall call_sound log' ∧ Q a) (λ _ log', Forall call_sound log') log.

Lemma sound_bind {A B} (m : MR A) (f : A → MR B) P Q :
  sound_run m P → (∀ a, P a → sound_run (f a) Q) → sound_run (bind m f) Q.
Proof.
  intros Hm Hf log Hl. apply wp_bind. eapply wp_mono; [by apply Hm| |done].
  intros a log' [Hl' Ha]. by apply Hf.
Qed.

Lemma sound_ret {A} (a : A) (Q : A → Prop) : Q a → sound_run (ret a) Q.
Proof. by intros HQ log Hl. Qed.

Lemma sound_lift {A} (o : outcome A) (Q : A → Prop) : (∀ a, o = Ok a → Q a) → sound_run (lift o) Q.
Proof. intros HQ log Hl. apply wp_lift; auto. Qed.

Lemma sound_raise_if c e (Q : unit → Prop) : (c = false → Q tt) → sound_run (raise_if c e) Q.
Proof. intros HQ log Hl. apply wp_raise_if; auto. Qed.

Lemma model_sound c gk : call_sound c → sound_run (run_draft_model env c gk) (λ _, True).
Proof.
  intros Hc log Hl. unfold run_draft_model. apply wp_bind. eapply wp_eq; [reflexivity|].
  apply wp_bind. eapply wp_eq; [reflexivity|].
  assert (Forall call_sound (log ++ [c])) by (apply Forall_app; by split; [|constructor]).
  by apply wp_lift.
Qed.

Lemma decode_model_sound c :
  call_sound c → sound_run (_run_draft_decode_model env r c key) (λ _, True).
Proof.
  intros Hc. unfold _run_draft_decode_model. eapply sound_bind; [by apply (sound_lift _ (λ _, True))|].
  intros gk _. eapply sound_bind; [by apply model_sound|]. intros out _. by apply sound_ret.
Qed.

Lemma one_token_sum l :
  Forall (λ v, 0 <= missing_draft_tokens v <= 1) l →
  Z.of_nat (length (filter (λ v, missing_draft_tokens v = 1) l)) =
    foldr Z.add 0 (missing_draft_tokens <$> l).
Proof.
  induction 1 as [|v l Hv _ IH]; [done|]. rewrite filter_cons, fmap_cons. cbn [foldr].
  case_decide; rewrite ?length_cons; lia.
Qed.

Lemma catchup_sound :
  sound_run (_run_draft_catchup env r vs key)
    (λ n, n = foldr Z.add 0 (missing_draft_tokens <$> vs)).
Proof.
  unfold _run_draft_catchup. destruct (negb _ && _) eqn:Eb.
  - apply andb_true_iff in Eb as [Hne%negb_true_iff%bool_decide_eq_false Hle].
    set (one := filter _ vs) in *.
    assert (∀ v, v ∈ one → v ∈ vs ∧ missing_draft_tokens v = 1) as Hone
      by (intros v [??]%list_elem_of_filter; done).
    eapply sound_bind; [apply (sound_lift _ (λ ids, length ids = length one))|].
    { intros ids E. apply omap_all_ok, Forall2_length in E. done. }
    intros ids Hids.
    destruct (prepare_decode_sound one ids (-1) Hne) as (c & Ec & Hc & Ei); [|lia|done|].
    { intros v Hv. destruct (Hone v Hv) as [Hvv Hm]. destruct (view_in v Hvv).
      unfold missing_draft_tokens in Hm. split; [done|lia]. }
    eapply sound_bind; [apply (sound_lift _ call_sound); by intros a [= <-]%(eq_trans (eq_sym Ec))|].
    intros a Ha. eapply sound_bind; [by apply decode_model_sound|]. intros _ _. apply sound_ret.
    apply one_token_sum. apply Forall_forall. intros v Hv. rewrite forallb_forall in Hle.
    specialize (Hle v (proj1 (list_elem_of_In _ _) Hv)). destruct (view_in v Hv).
    unfold missing_draft_tokens in *. lia.
  - destruct prepare_catchup_sound as (co & Eco & Hco).
    eapply sound_bind; [apply (sound_lift _ (λ a, a = co)); intros a E; congruence|].
    intros a ->. destruct co as [c|]; [|by apply sound_ret]. destruct Hco as [Hc Hn].
    eapply sound_bind; [by apply model_sound|]. intros _ _. by apply sound_ret.
Qed.

(** The laws of one step: one per row, over the draft vocabulary. *)
Definition laws_ok (qs : list (list Q)) : Prop :=
  length qs = length vs ∧ Forall (λ q, Z.of_nat (length q) = dn_draft_vocab r) qs.

Lemma step_sound ids step :
  vs ≠ [] → length ids = length vs → 0 <= step < k →
  sound_run (_run_draft_proposal_step env r vs ids step key) (λ tg, length tg.1.1 = length vs ∧ laws_ok tg.1.2).
Proof.
  intros Hne Hids Hst. unfold _run_draft_proposal_step.
  destruct (prepare_decode_sound vs ids step Hne) as (c & Ec & Hc & _); [|lia|done|].
  { intros v Hv. destruct (view_in v Hv). split; [done|lia]. }
  eapply sound_bind; [apply (sound_lift _ call_sound); by intros a [= <-]%(eq_trans (eq_sym Ec))|].
  intros a Ha. eapply sound_bind; [by apply decode_model_sound|]. intros [out g] _.
  eapply (sound_bind _ _ (λ _, True)); [by intros log Hl|]. intros log _.
  eapply sound_bind; [by apply (sound_lift _ (λ _, True))|]. intros [toks qs] _.
  eapply sound_bind; [apply (sound_raise_if _ _ (λ _, laws_ok qs))|].
  { intros [?%Nat.eqb_eq Hw]%negb_false_iff%andb_true_iff. split; [done|].
    apply Forall_forall. intros q Hq%list_elem_of_In. rewrite forallb_forall in Hw. by apply Z.eqb_eq, Hw. }
  intros [] Hqs.
  eapply sound_bind; [by apply (sound_raise_if _ _ (λ _, length toks = length vs));
    intros ?%negb_false_iff%Nat.eqb_eq|].
  intros [] Hl. by apply sound_ret.
Qed.

(** The accumulators of the loop. *)
Record proposals_ok (a : proposals) : Prop := {
  po_inputs : length (pr_inputs a) = length vs;
  po_columns : Forall (λ col, length col = length vs) (pr_columns a);
  po_laws : Forall laws_ok (pr_laws a) ∧ length (pr_laws a) = length (pr_columns a);
  po_tokens : pr_invalid a = false → Forall (Forall (λ t, in_range t)) (pr_columns a);
  po_steps : pr_graph_steps a + pr_eager_steps a = Z.of_nat (length (pr_columns a));
  po_counts : 0 <= pr_graph_steps a ∧ 0 <= pr_eager_steps a;
}.

Lemma loop_sound steps a :
  vs ≠ [] → (∀ st, st ∈ steps → 0 <= st < k) → proposals_ok a →
  sound_run (proposal_loop env r vs key steps a)
    (λ a', proposals_ok a' ∧ length (pr_columns a') = (length (pr_columns a) + length steps)%nat).
Proof.
  intros Hne. revert a. induction steps as [|st steps IH]; intros a Hst Ha.
  { apply sound_ret. split; [done|]. simpl. lia. }
  cbn [proposal_loop]. destruct Ha as [H1 H2 [Hq1 Hq2] H3 H4 [H5 H6]].
  eapply sound_bind; [apply step_sound; [done|done|apply Hst; left]|].
  intros [[sampled qs] g] [Hl Hqs]. cbn [fst snd] in Hl, Hqs.
  set (a1 := mk_proposals _ _ _ _ _ _). assert (proposals_ok a1) as Ha1.
  { split; simpl.
    - by rewrite length_fmap.
    - apply Forall_app. split; [done|]. by constructor.
    - rewrite Forall_app, !length_app, Hq2. split; [|done]. split; [done|by constructor].
    - intros [Hi He]%orb_false_iff. apply Forall_app. split; [by apply H3|]. constructor; [|constructor].
      clear -He. induction sampled as [|t l IH]; [constructor|]. simpl in He.
      apply orb_false_iff in He as [[?%Z.ltb_ge ?%Z.leb_gt]%orb_false_iff He]. constructor; [lia|auto].
    - rewrite length_app. simpl. destruct g; lia.
    - destruct g; lia. }
  intros log Hlog. eapply wp_mono; [apply (IH a1); [set_solver|done|done]| |done].
  intros a' log' [Hl' [Ha' E]]. split; [done|]. split; [done|]. rewrite E. unfold a1. simpl.
  rewrite length_app. simpl. lia.
Qed.

(** What a completed execution reports. *)
Record execution_ok (e : DraftProposalExecution) : Prop := {
  eo_rows : ex_rows e = vs;
  eo_catchup : ex_catchup_positions e = foldr Z.add 0 (missing_draft_tokens <$> vs);
  eo_steps : ex_graph_decode_steps e + ex_eager_decode_steps e = k;
  eo_counts : 0 <= ex_graph_decode_steps e ∧ 0 <= ex_eager_decode_steps e;
  eo_matrix : length (ex_proposal_token_ids e) = length vs ∧
    Forall (λ row, Z.of_nat (length row) = k ∧ Forall (λ t, in_range t) row) (ex_proposal_token_ids e);
  eo_laws : length (ex_q_probabilities e) = length vs ∧
    Forall (λ qs, Z.of_nat (length qs) = k ∧ Forall (λ q, Z.of_nat (length q) = dn_draft_vocab r) qs)
      (ex_q_probabilities e);
}.

Lemma execute_sound :
  vs ≠ [] → sound_run (_execute_draft_proposals_validated env r vs k key) execution_ok.
Proof.
  intros Hne. unfold _execute_draft_proposals_validated.
  eapply sound_bind; [apply catchup_sound|]. intros n Hn.
  eapply sound_bind; [apply (sound_lift _ (λ ids, length ids = length vs))|].
  { intros ids E. apply omap_all_ok, Forall2_length in E. done. }
  intros ids Hids. eapply sound_bind; [apply loop_sound; [done| |]|].
  - intros st Hst%elem_of_py_range. lia.
  - split; simpl; [done|constructor|by split|constructor|done|done].
  - intros a [[H1 H2 [Hq1 Hq2] H3 H4 H5] Hl]. simpl in Hl. rewrite length_py_range in Hl.
    eapply sound_bind; [by apply (sound_raise_if _ _ (λ _, pr_invalid a = false))|]. intros [] Hi.
    apply sound_ret. split; simpl; try done; [lia|split; [by rewrite length_fmap, length_seq|]..].
    2:{ apply Forall_fmap, Forall_forall. intros i Hi'%elem_of_seq. simpl. unfold law_row.
      split; [rewrite length_fmap; lia|]. apply Forall_fmap, Forall_forall. intros qs Hqs. simpl.
      rewrite Forall_forall in Hq1. destruct (Hq1 qs Hqs) as [Hlq Hw].
      destruct (lookup_lt_is_Some_2 qs i) as [q Hq]; [lia|].
      rewrite (list_lookup_total_correct _ _ _ Hq). rewrite Forall_lookup in Hw. by eapply Hw. }
    apply Forall_fmap, Forall_forall. intros i Hi'%elem_of_seq. simpl. unfold proposal_row.
    split; [rewrite length_fmap; lia|]. apply Forall_fmap, Forall_forall. intros col Hcol. simpl.
    specialize (H3 Hi). rewrite Forall_forall in H2, H3. pose proof (H2 col Hcol) as Hlc.
    destruct (lookup_lt_is_Some_2 col i) as [t Ht]; [lia|].
    rewrite (list_lookup_total_correct _ _ _ Ht).
    specialize (H3 col Hcol). rewrite Forall_lookup in H3. by eapply H3.
Qed.
End calls.

(** ** The properties *)

Section plan.
Context (torch : torch_dtypes) (sha256_hexdigest : payload → string) (r : draft_runner).
Context {logits : Type} (env : draft_env logits).

Lemma views_nonempty p qs vs k key nb : plan_valid r p qs vs k key nb → vs ≠ [].
Proof.
  intros Hv ->. destruct (pv_rows _ _ _ _ _ _ _ Hv) as [Hne _].
  pose proof (pv_match _ _ _ _ _ _ _ Hv) as Hm. by inversion Hm; congruence.
Qed.

Lemma cycle_run plan qs vs k key log :
  0 < dn_block_size r →
  _validate_draft_discard_plan torch sha256_hexdigest r plan qs = Ok (vs, k, key) →
  (_execute_draft_proposals_validated env r vs k key []).2 = log →
  ∃ nb, dn_draft_blocks r = Some nb ∧
    Forall (λ c, Forall (λ p, 0 <= p < dn_max_model_len r) (positions c) ∧
      ∀ slots, slot_mapping (call_context c) = Some slots →
        length slots = length (positions c) ∧ Forall (λ s, 0 <= s < nb * dn_block_size r) slots) log.
Proof.
  intros Hbs Ev E. apply validate_plan_inv in Ev as [nb Hv]. exists nb.
  split; [apply Hv|]. pose proof (views_nonempty _ _ _ _ _ _ Hv) as Hne.
  destruct Hv as [[Hk _] _ _ _ _ _ _ _ Hvs _ _].
  pose proof (execute_sound r k nb vs Hbs Hk Hvs env key Hne [] (Forall_nil_2 _)) as Hs.
  unfold wp in Hs. assert (Forall (call_sound r k vs) log) as Hlog
    by (rewrite <-E; destruct (_execute_draft_proposals_validated _ _ _ _ _ _) as [[e|x] l]; apply Hs).
  eapply Forall_impl; [exact Hlog|]. intros c Hc.
  destruct (call_in_pool r k nb vs Hbs Hvs c Hc) as [Hp Hsl]. split; [done|]. intros slots Es.
  split; [|by apply Hsl]. destruct Hc as (vps & _ & Ep & Es' & _). rewrite Es in Es'.
  injection Es' as ->. by rewrite Ep, !length_fmap.
Qed.

(** C31: a plan that passes the runner's fail-closed validation is executed
    inside the pool, whatever the draft model and the sampler answer or raise:
    every forward pass of the catch-up and of the K proposal steps runs at model
    positions below [max_model_len] and writes one slot per position, each
    inside the allocated draft KV blocks. *)
Theorem validated_cycle_in_pool plan qs vs k key log :
  0 < dn_block_size r →
  _validate_draft_discard_plan torch sha256_hexdigest r plan qs = Ok (vs, k, key) →
  (_execute_draft_proposals_validated env r vs k key []).2 = log →
  ∃ nb, dn_draft_blocks r = Some nb ∧
    Forall (λ c, Forall (λ p, 0 <= p < dn_max_model_len r) (positions c) ∧
      ∀ slots, slot_mapping (call_context c) = Some slots →
        length slots = length (positions c) ∧ Forall (λ s, 0 <= s < nb * dn_block_size r) slots) log.
Proof. apply cycle_run. Qed.

(** ** The reported result *)

Lemma rows_accepted k vocab prs qs vs mat cov :
  Forall3 view_of prs qs vs → length mat = length vs →
  Forall (λ row, Z.of_nat (length row) = k ∧ Forall (λ t, 0 <= t < vocab) row) mat →
  NoDup (dr_seq_id <$> prs) → (∀ x, x ∈ dr_seq_id <$> prs → cov !! x = None) →
  ∃ cov', validate_ddr_rows k vocab prs
      (zip_with (λ v ts, mk_ddr_row (cr_seq_id v) (cr_committed_len v) ts k) vs mat) qs cov = Ok cov' ∧
    (∀ x, x ∉ dr_seq_id <$> prs → cov' !! x = cov !! x) ∧
    ∀ q, q ∈ qs → cov' !! seq_id q = Some (num_tokens q).
Proof.
  intros Hm. revert mat cov. induction Hm as [|pr q v prs qs vs Hrow Hm IH];
    intros [|ts mat] cov Hl Hmat Hnd Hcov; try done.
  { exists cov. split; [done|]. split; [done|]. set_solver. }
  destruct Hrow as (E1 & E2 & E3 & _ & _ & _ & E4).
  apply Forall_cons in Hmat as [[Hk Ht] Hmat]. rewrite fmap_cons in Hnd, Hcov.
  apply NoDup_cons in Hnd as [Hn Hnd]. cbn [zip_with validate_ddr_rows ddr_seq_id
    coverage_after_commit proposal_count ddr_proposed_token_ids].
  rewrite E2, E1, E3, !Nat.eqb_refl, !Z.eqb_refl, Hk, Z.eqb_refl. cbn [negb orb].
  assert (existsb (λ t, (t <? 0) || (vocab <=? t)) ts = false) as ->.
  { clear -Ht. induction Ht as [|t l Ht _ IH]; [done|]. simpl. rewrite IH.
    rewrite (proj2 (Z.ltb_ge _ _)), (proj2 (Z.leb_gt _ _)) by lia. done. }
  rewrite bool_decide_eq_false_2; [|rewrite <-E1, (Hcov (dr_seq_id pr)) by left; apply is_Some_None].
  cbn [oraise_if obind].
  destruct (IH mat (<[seq_id q:=dr_committed_tokens pr]> cov)) as (cov' & E & Hout & Hin);
    [by injection Hl|done|done| |].
  { intros x Hx. rewrite lookup_insert_ne by (intros <-; by rewrite E1 in Hn). apply Hcov. by right. }
  exists cov'. split; [exact E|]. split.
  - intros x Hx. rewrite fmap_cons, not_elem_of_cons in Hx. destruct Hx as [Hne Hx].
    rewrite Hout by done. apply lookup_insert_ne. congruence.
  - intros q' [->|Hq']%elem_of_cons; [|by apply Hin].
    rewrite Hout by (by rewrite <-E1). rewrite lookup_insert_eq. congruence.
Qed.

Lemma missing_total prs qs vs :
  Forall3 view_of prs qs vs →
  foldr Z.add 0 ((λ x, dr_committed_tokens x - 1 - dr_draft_cached_tokens x) <$> prs) =
    foldr Z.add 0 (missing_draft_tokens <$> vs).
Proof.
  induction 1 as [|pr q v prs qs vs (_ & _ & E1 & E2 & _) _ IH]; [done|].
  rewrite !fmap_cons. cbn [foldr]. rewrite IH. unfold missing_draft_tokens. by rewrite E1, E2.
Qed.

Lemma result_run n plan qs res log :
  0 < dn_block_size r →
  run_speculative_discard_runner env r torch sha256_hexdigest plan qs [] = (Ok res, log) →
  ∃ cov, _validate_draft_discard_result (mk_plan_ref n plan) res qs (dn_draft_vocab r) = Ok cov ∧
    ∀ q, q ∈ qs → cov !! seq_id q = Some (num_tokens q).
Proof.
  intros Hbs E. unfold run_speculative_discard_runner in E.
  apply bind_ok_inv in E as ([[vs k] key] & log' & Ev & E). injection Ev as Ev <-.
  apply validate_plan_inv in Ev as [nb Hv]. pose proof (views_nonempty _ _ _ _ _ _ Hv) as Hne.
  destruct Hv as [[Hk Ek] Ekey [Hrne Hlen] Hcat Htot Hcnt Htgt _ Hvs Hm Hnd].
  pose proof (execute_sound r k nb vs Hbs Hk Hvs env key Hne [] (Forall_nil_2 _)) as Hs.
  unfold wp in Hs. destruct (_execute_draft_proposals_validated _ _ _ _ _ _) as [[e|x] l]; [|done].
  destruct Hs as [_ [Er Ecat Esteps [Hg Heg] [Hlm Hmat]]]. injection E as <- <-.
  assert (length vs = length (dp_rows (discard_view plan))) as Hlv.
  { clear -Hm. induction Hm as [|pr q v prs qs' vs' _ _ IH]; [done|].
    simpl. by rewrite IH. }
  assert (1 <= dn_draft_vocab r) as Hvoc.
  { destruct vs as [|v vs']; [done|]. apply Forall_cons in Hvs as [[Hl Hc _ _ _ _ Ht] _].
    destruct (cr_token_ids v) as [|t l']; [simpl in Hl; lia|]. apply Forall_cons in Ht as [? _]. lia. }
  destruct (rows_accepted k (dn_draft_vocab r) _ _ _ (ex_proposal_token_ids e) ∅ Hm Hlm Hmat Hnd)
    as (cov & Ecov & _ & Hcov); [intros; apply lookup_empty|].
  exists cov. split; [|done]. unfold _validate_draft_discard_result. cbn [pr_plan].
  change (match plan with StepPlan p => as_draft_discard_plan p | DiscardPlan p => p end)
    with (discard_view plan).
  assert (validate_ddr_header (discard_view plan) (_host_draft_discard_result r e k key) (length qs)
    (dn_draft_vocab r) = Ok tt) as ->.
  { unfold validate_ddr_header. rewrite (missing_total _ _ _ Hm).
    cbn [_host_draft_discard_result ddr_rows ddr_route_key ddr_effective_k catchup_positions
      ddr_draft_positions graph_decode_steps eager_decode_steps q_shape q_stride q_dtype
      q_storage_contiguous q_view_zero_copy].
    rewrite Ek, Er, length_zip_with, Hlm, Nat.min_id, Hlv, Hlen, Ekey, Hcat, Htot, Hcat, Hcnt, Htgt, Ecat.
    rewrite !Nat.eqb_refl, !Z.eqb_refl, Esteps, Z.eqb_refl.
    rewrite (proj2 (Z.ltb_ge _ _)) by lia. rewrite (proj2 (Z.ltb_ge k 1)) by lia.
    rewrite (proj2 (Z.ltb_ge (ex_graph_decode_steps e) 0)) by lia.
    rewrite (proj2 (Z.ltb_ge (ex_eager_decode_steps e) 0)) by lia.
    rewrite !bool_decide_eq_true_2; [done|..]; try done.
    cbn [contiguous_strides permute_102 tail foldr head default]. unfold id.
    rewrite !Z.mul_1_l. by rewrite (Z.mul_comm (dn_draft_vocab r)). }
  cbn [obind]. rewrite Ek. rewrite <-Ecov. unfold _host_draft_discard_result. cbn [ddr_rows].
  by rewrite Er.
Qed.

(** C32: the two sides of a compute-then-discard cycle agree: a result the runner
    reports for a plan it validated is always accepted by the engine's check of
    that result, which then stages, for every live sequence, draft coverage of
    exactly its committed tokens. *)
Theorem discard_result_accepted n plan qs res log :
  0 < dn_block_size r →
  run_speculative_discard_runner env r torch sha256_hexdigest plan qs [] = (Ok res, log) →
  ∃ cov, _validate_draft_discard_result (mk_plan_ref n plan) res qs (dn_draft_vocab r) = Ok cov ∧
    ∀ q, q ∈ qs → cov !! seq_id q = Some (num_tokens q).
Proof. apply result_run. Qed.
End plan.
