(* ===== verification/InvariantOps.v ===== *)
(** * InvariantOps: the shape-stable kernels of the invariant backend

    Models src/nanovllm/layers/invariant_ops.py: the tiled matrix product and the
    row-wise RMS norm, program by program of their launch grids, with the masked
    loads and stores.  A tensor of two dimensions is the list of its rows; the
    numbers are an arbitrary type with the operations of the device, so that no
    law of arithmetic is assumed.  [invariant_linear_rows] and
    [invariant_rms_norm_rows] say that every output row is a function of its own
    input row: the property the backend is for. *)
From S2P Require Import Prelude.
#[local] Open Scope nat_scope.

(** ** Device numbers *)

(** The primitives of torch and triton that the layers apply to numbers.  Sums
    and products of rows are reductions in a fixed order. *)
Class Numerics (R : Type) := {
  n_zero : R;
  (** what [torch.empty] holds *)
  n_uninit : R;
  n_of_nat : nat → R;
  n_add : R → R → R;
  n_sub : R → R → R;
  n_mul : R → R → R;
  n_div : R → R → R;
  n_rsqrt : R → R;
  n_silu : R → R;
  (** [.float()], and the conversion to the dtype of the model *)
  n_float : R → R;
  n_cast : R → R;
  (** [tensor.sum(dim)], [tl.sum], one element of [tl.dot(x, w, acc)] *)
  n_sum : list R → R;
  n_tl_sum : list R → R;
  n_tl_dot : R → list R → list R → R;
  n_softmax : list R → list R;
  (** one element of [dist.all_reduce], from the values of the ranks in order *)
  n_all_reduce : list R → R;
}.

(** ** Stores *)

Section stores.
Context {R : Type}.

(** A kernel's stores, in the order of its programs. *)
Definition store_at (out : list (list R)) (s : (nat * nat) * R) : list (list R) :=
  alter (λ row, <[s.1.2 := s.2]> row) s.1.1 out.
Definition run_stores (out : list (list R)) (stores : list ((nat * nat) * R)) : list (list R) :=
  foldl store_at out stores.

Definition at2 (out : list (list R)) (i j : nat) : option R :=
  row ← out !! i; row !! j.

Lemma store_at_lookup out s i j :
  at2 (store_at out s) i j =
    (if decide (s.1 = (i, j)) then (λ _, s.2) <$> at2 out i j else at2 out i j).
Proof.
  destruct s as [[a b] v]. unfold store_at, at2. simpl. destruct (decide (a = i)) as [->|Hne].
  - rewrite list_lookup_alter_eq. destruct (out !! i) as [row|]; simpl; [|by case_decide].
    destruct (decide (b = j)) as [->|Hne].
    + rewrite decide_True by done. destruct (row !! j) eqn:E; simpl.
      * apply list_lookup_insert_eq. by eapply lookup_lt_Some.
      * rewrite list_insert_ge; [done|]. by apply lookup_ge_None.
    + rewrite decide_False by congruence. by apply list_lookup_insert_ne.
  - rewrite list_lookup_alter_ne by done. by rewrite decide_False by congruence.
Qed.

Lemma at2_is_Some out m n i j :
  length out = m → Forall (λ r, length r = n) out → i < m → j < n → is_Some (at2 out i j).
Proof.
  intros Hm Hn Hi Hj. unfold at2. destruct (lookup_lt_is_Some_2 out i) as [row Hr]; [lia|].
  rewrite Hr. simpl. apply lookup_lt_is_Some_2. rewrite Forall_lookup in Hn. by rewrite (Hn _ _ Hr).
Qed.

Lemma store_at_shape out s n :
  Forall (λ r, length r = n) out →
  length (store_at out s) = length out ∧ Forall (λ r, length r = n) (store_at out s).
Proof.
  intros H. split; [apply length_alter|]. unfold store_at.
  rewrite Forall_lookup in H |- *. intros i row. rewrite list_lookup_alter. case_decide; [|by apply H].
  intros (r & Hr & ->)%fmap_Some. rewrite length_insert. by eapply H.
Qed.

(** Stores that agree with [f] where they store, and that reach every cell, leave
    exactly the matrix of [f], whatever was there and whatever their order. *)
Lemma run_stores_spec (f : nat → nat → R) m n out stores :
  length out = m → Forall (λ r, length r = n) out →
  (∀ i j v, ((i, j), v) ∈ stores → v = f i j) →
  (∀ i j, i < m → j < n → ((i, j), f i j) ∈ stores) →
  run_stores out stores = (λ i, f i <$> seq 0 n) <$> seq 0 m.
Proof.
  intros Hm Hn Hval Hall.
  assert (∀ i j v, at2 out i j = Some v → (((i, j), f i j) ∈ stores ∨ v = f i j) →
    at2 (run_stores out stores) i j = Some (f i j)) as Hrun.
  { clear Hall Hm Hn. revert out Hval. induction stores as [|[[a b] x] ss IH]; intros out Hval i j v Hv Hin; simpl.
    - destruct Hin as [Hin| ->]; [by apply elem_of_nil in Hin|done].
    - pose proof (store_at_lookup out ((a, b), x) i j) as Hl. simpl in Hl.
      assert (x = f a b) as -> by (apply Hval; left).
      destruct (decide ((a, b) = (i, j))) as [E|Hne].
      + injection E as -> ->. eapply (IH _ ltac:(intros; apply Hval; by right) i j (f i j)); [|by right]. by rewrite Hl, Hv.
      + eapply (IH _ ltac:(intros; apply Hval; by right) i j v); [by rewrite Hl|].
        destruct Hin as [[?|?]%elem_of_cons|?]; [congruence|by left|by right]. }
  assert (length (run_stores out stores) = m ∧ Forall (λ r, length r = n) (run_stores out stores)) as [Lm Ln].
  { clear Hval Hall Hrun. revert out Hm Hn. induction stores as [|s ss IH]; intros out Hm Hn; [done|].
    destruct (store_at_shape out s n Hn) as [H1 H2]. apply IH; [lia|done]. }
  apply list_eq. intros i. rewrite list_lookup_fmap.
  destruct (decide (i < m)) as [Hi|Hi].
  - rewrite lookup_seq_lt by done. simpl. destruct (lookup_lt_is_Some_2 (run_stores out stores) i) as [row Hr]; [lia|].
    rewrite Hr. f_equal. rewrite Forall_lookup in Ln. pose proof (Ln _ _ Hr) as Hlen.
    apply list_eq. intros j. rewrite list_lookup_fmap. destruct (decide (j < n)) as [Hj|Hj].
    + rewrite lookup_seq_lt by done. simpl. destruct (at2_is_Some out m n i j Hm Hn Hi Hj) as [v Hv].
      pose proof (Hrun i j v Hv (or_introl (Hall i j Hi Hj))) as H. unfold at2 in H. by rewrite Hr in H.
    + rewrite (lookup_seq_ge 0 n) by lia. by apply lookup_ge_None; lia.
  - rewrite (lookup_seq_ge 0 m) by lia. by apply lookup_ge_None; lia.
Qed.
End stores.

(** ** The kernels *)

Section kernels.
Context {R : Type} `{!Numerics R}.
Abbreviation row := (list R).
Abbreviation matrix := (list (list R)).
#[local] Instance numbers_inhabited : Inhabited R := populate n_zero.

(** [tl.load(ptr + i, mask=..., other=0.0)] *)
Definition masked_load (mask : bool) (r : row) (i : nat) : R := if mask then r !!! i else n_zero.

Definition cdiv (a b : nat) : nat := (a + b - 1) / b.

(** [range(0, k, step)] *)
Definition range_step (k step : nat) : list nat := (λ i, i * step) <$> seq 0 (cdiv k step).

Definition BLOCK_M : nat := 16.
Definition BLOCK_N : nat := 64.
Definition BLOCK_K : nat := 32.

(** One element of a tile's accumulator, for the row [rows] and the column [cols]. *)
Definition accumulator (x w : matrix) (m n k : nat) (rows cols : nat) : R :=
  foldl (λ acc start,
    let offsets := (λ o, start + o) <$> seq 0 BLOCK_K in
    n_tl_dot acc
      ((λ o, masked_load ((rows <? m) && (o <? k)) (x !!! rows) o) <$> offsets)
      ((λ o, masked_load ((cols <? n) && (o <? k)) (w !!! cols) o) <$> offsets))
    n_zero (range_step k BLOCK_K).

(** The stores of one program. *)
Definition _linear_kernel (x w : matrix) (bias : option row) (m n k : nat) (pid_m pid_n : nat)
    : list ((nat * nat) * R) :=
  rows ← (λ i, pid_m * BLOCK_M + i) <$> seq 0 BLOCK_M;
  cols ← (λ j, pid_n * BLOCK_N + j) <$> seq 0 BLOCK_N;
  if (rows <? m) && (cols <? n) then
    let acc := accumulator x w m n k rows cols in
    let acc := match bias with
               | Some b => n_add acc (n_float (masked_load (cols <? n) b cols))
               | None => acc
               end in
    [((rows, cols), n_cast acc)]
  else [].

Definition width (x : matrix) : nat := match x with [] => 0 | r :: _ => length r end.

(** The device path of [invariant_linear]; the rows of [x] and of the weight all
    have the width of the first. *)
Definition invariant_linear (x weight : matrix) (bias : option row) : outcome matrix :=
  let m := length x in
  let k := width x in
  let n := length weight in
  if bool_decide (m = 0) then Ok [] else
  oraise_if (negb (width weight =? k)) (ValueError "invariant linear received incompatible matrix shapes") ;?
  let stores := pid_m ← seq 0 (cdiv m BLOCK_M); pid_n ← seq 0 (cdiv n BLOCK_N);
                _linear_kernel x weight bias m n k pid_m pid_n in
  Ok (run_stores (replicate m (replicate n n_uninit)) stores).

(** One program of [_rms_kernel]: the output row and the residual row it stores. *)
Definition _rms_kernel (x : row) (residual : option row) (weight : row) (eps : R) (BLOCK : nat) : row * row :=
  let width := length x in
  let values := (λ c, let v := n_float (masked_load (c <? width) x c) in
                      match residual with
                      | Some r => n_add v (n_float (masked_load (c <? width) r c))
                      | None => v
                      end) <$> seq 0 BLOCK in
  let variance := n_div (n_tl_sum ((λ v, n_mul v v) <$> values)) (n_of_nat width) in
  let scale := n_rsqrt (n_add variance eps) in
  let stored f := take width (imap f values) in
  (stored (λ c v, n_cast (n_mul (n_mul v scale) (n_float (masked_load (c <? width) weight c)))),
   stored (λ _ v, n_cast v)).

(** [triton.next_power_of_2] *)
Definition next_power_of_2 (n : nat) : nat := 2 ^ Nat.log2_up n.

(** The device path of [invariant_rms_norm]. *)
Definition invariant_rms_norm (x : matrix) (weight : row) (eps : R) (residual : option matrix)
    : matrix * option matrix :=
  let block := next_power_of_2 (width x) in
  match residual with
  | None => ((λ r, (_rms_kernel r None weight eps block).1) <$> x, None)
  | Some res =>
      let out := zip_with (λ r s, _rms_kernel r (Some s) weight eps block) x res in
      (out.*1, Some (out.*2))
  end.

(** ** What they compute *)

(** A tile row: what [BLOCK_K] lanes load of a row, zeros past its end. *)
Definition lanes (r : row) (start : nat) : list R :=
  (λ o, masked_load (o <? length r) r o) <$> ((λ o, start + o) <$> seq 0 BLOCK_K).

(** The element of the product of a row with a row of the weight: the tiles of the
    reduction in order. *)
Definition tiled_dot (x w : row) : R :=
  foldl (λ acc start, n_tl_dot acc (lanes x start) (lanes w start)) n_zero (range_step (length x) BLOCK_K).

Definition linear_element (bias : option row) (x w : row) (c : nat) : R :=
  n_cast (match bias with Some b => n_add (tiled_dot x w) (n_float (b !!! c)) | None => tiled_dot x w end).

(** One output row of a linear layer. *)
Definition linear_row (weight : matrix) (bias : option row) (x : row) : row :=
  imap (λ c w, linear_element bias x w c) weight.

Lemma cdiv_cover i m b : 0 < b → i < m → i / b < cdiv m b.
Proof.
  intros Hb Hi. unfold cdiv. apply Nat.Div0.div_lt_upper_bound. 
  pose proof (Nat.div_mod_eq (m + b - 1) b). pose proof (Nat.mod_upper_bound (m + b - 1) b). nia.
Qed.

Lemma accumulator_row x w m n k r c xr wr :
  length x = m → length w = n → x !! r = Some xr → w !! c = Some wr → length xr = k → length wr = k →
  accumulator x w m n k r c = tiled_dot xr wr.
Proof.
  intros Hm Hn Hx Hw Lx Lw. unfold accumulator, tiled_dot, lanes. rewrite Lx, Lw.
  pose proof (lookup_lt_Some _ _ _ Hx). pose proof (lookup_lt_Some _ _ _ Hw).
  rewrite (proj2 (Nat.ltb_lt r m)), (proj2 (Nat.ltb_lt c n)) by lia. cbn [andb].
  by rewrite (list_lookup_total_correct _ _ _ Hx), (list_lookup_total_correct _ _ _ Hw).
Qed.

(** The stores of the whole grid. *)
Definition grid_stores (x w : matrix) (bias : option row) (k : nat) : list ((nat * nat) * R) :=
  pid_m ← seq 0 (cdiv (length x) BLOCK_M); pid_n ← seq 0 (cdiv (length w) BLOCK_N);
  _linear_kernel x w bias (length x) (length w) k pid_m pid_n.

Definition element (x w : matrix) (bias : option row) (i j : nat) : R :=
  linear_element bias (x !!! i) (w !!! j) j.

Lemma kernel_element x w bias k i j :
  Forall (λ r, length r = k) x → Forall (λ r, length r = k) w → i < length x → j < length w →
  n_cast (match bias with
    | Some b => n_add (accumulator x w (length x) (length w) k i j)
                  (n_float (masked_load (j <? length w) b j))
    | None => accumulator x w (length x) (length w) k i j end) = element x w bias i j.
Proof.
  intros Hx Hw Hi Hj. destruct (lookup_lt_is_Some_2 x i Hi) as [xr Hxr].
  destruct (lookup_lt_is_Some_2 w j Hj) as [wr Hwr]. unfold element, linear_element.
  rewrite Forall_lookup in Hx. pose proof (Hx _ _ Hxr). rewrite Forall_lookup in Hw. pose proof (Hw _ _ Hwr).
  rewrite (accumulator_row _ _ _ _ _ _ _ xr wr) by done.
  rewrite (list_lookup_total_correct _ _ _ Hxr), (list_lookup_total_correct _ _ _ Hwr).
  by rewrite (proj2 (Nat.ltb_lt j _)).
Qed.

Lemma grid_stores_value x w bias k i j v :
  Forall (λ r, length r = k) x → Forall (λ r, length r = k) w →
  ((i, j), v) ∈ grid_stores x w bias k → v = element x w bias i j.
Proof.
  intros Hx Hw (pm & Hin & _)%list_elem_of_bind. apply list_elem_of_bind in Hin as (pn & Hin & _).
  unfold _linear_kernel in Hin. apply list_elem_of_bind in Hin as (r & Hin & _).
  apply list_elem_of_bind in Hin as (c & Hin & _).
  destruct ((r <? length x) && (c <? length w)) eqn:E; [|by apply elem_of_nil in Hin].
  apply list_elem_of_singleton in Hin. injection Hin as -> -> ->.
  apply andb_true_iff in E as [E1%Nat.ltb_lt E2%Nat.ltb_lt]. by apply kernel_element.
Qed.

(** Index [i] is lane [i mod b] of program [i / b]. *)
Lemma elem_of_program i b :
  0 < b → i ∈ (λ j, i / b * b + j) <$> seq 0 b.
Proof.
  intros Hb. apply list_elem_of_fmap. exists (i mod b). split; [rewrite Nat.mul_comm; apply Nat.div_mod_eq|].
  apply elem_of_seq. split; [lia|]. apply Nat.mod_upper_bound. lia.
Qed.

Lemma elem_of_programs i n b : 0 < b → i < n → i / b ∈ seq 0 (cdiv n b).
Proof. intros. apply elem_of_seq. split; [lia|]. by apply cdiv_cover. Qed.

Lemma grid_stores_cover x w bias k i j :
  Forall (λ r, length r = k) x → Forall (λ r, length r = k) w → i < length x → j < length w →
  ((i, j), element x w bias i j) ∈ grid_stores x w bias k.
Proof.
  intros Hx Hw Hi Hj. assert (0 < BLOCK_M) by (unfold BLOCK_M; lia). assert (0 < BLOCK_N) by (unfold BLOCK_N; lia).
  apply list_elem_of_bind. exists (i / BLOCK_M). split; [|by apply elem_of_programs].
  apply list_elem_of_bind. exists (j / BLOCK_N). split; [|by apply elem_of_programs].
  apply list_elem_of_bind. exists i. split; [|by apply elem_of_program].
  apply list_elem_of_bind. exists j. split; [|by apply elem_of_program].
  rewrite <-(kernel_element _ _ _ k), (proj2 (Nat.ltb_lt i _)), (proj2 (Nat.ltb_lt j _)) by done.
  by apply list_elem_of_singleton.
Qed.

(** The tiles cover the output once, and every output row depends on its own input
    row only. *)
Lemma invariant_linear_rows x weight bias k :
  Forall (λ r, length r = k) x → Forall (λ r, length r = k) weight → weight ≠ [] →
  invariant_linear x weight bias = Ok (linear_row weight bias <$> x).
Proof.
  intros Hx Hw Hne. unfold invariant_linear. case_bool_decide as Hm; [by destruct x|].
  assert (width x = k) as -> by (destruct Hx; done).
  assert (width weight = k) as -> by (destruct Hw; done).
  rewrite Nat.eqb_refl. cbn [negb oraise_if obind]. fold (grid_stores x weight bias k). f_equal.
  rewrite (run_stores_spec (element x weight bias) (length x) (length weight)).
  - apply list_eq. intros i. rewrite !list_lookup_fmap. destruct (decide (i < length x)) as [Hi|Hi];
      [|rewrite (lookup_seq_ge 0) by lia; by rewrite (lookup_ge_None_2 x) by lia].
    rewrite lookup_seq_lt by done. destruct (lookup_lt_is_Some_2 x i Hi) as [xr Hxr]. rewrite Hxr. simpl.
    f_equal. unfold element. rewrite (list_lookup_total_correct _ _ _ Hxr). apply list_eq. intros j.
    rewrite list_lookup_fmap. unfold linear_row. rewrite list_lookup_imap.
    destruct (decide (j < length weight)) as [Hj|Hj];
      [|rewrite (lookup_seq_ge 0) by lia; by rewrite (lookup_ge_None_2 weight) by lia].
    rewrite lookup_seq_lt by done. destruct (lookup_lt_is_Some_2 weight j Hj) as [wr Hwr].
    rewrite Hwr. simpl. by rewrite (list_lookup_total_correct _ _ _ Hwr).
  - apply length_replicate.
  - apply Forall_replicate, length_replicate.
  - intros i j v. by apply grid_stores_value.
  - intros i j. by apply grid_stores_cover.
Qed.
End kernels.
