(* ===== verification/Layers.v ===== *)
(** * Layers: normalisation, activation, rotary embedding and paged attention

    Models src/nanovllm/layers/layernorm.py, activation.py, rotary_embedding.py and
    attention.py.  A hidden state is a row of numbers and a batch of them the list
    of its rows; queries, keys and values are lists of heads.  A paged cache is the
    list of its slots: block [b] of size [s] is the slots from [b * s] on, as the
    tensor's contiguous layout has it.  The flash-attention kernels and the matrix
    product of torch are parameters. *)
From S2P Require Import Prelude InvariantOps RunnerInput RunnerRun.
#[local] Open Scope Z_scope.

Abbreviation row R := (list R).
Abbreviation matrix R := (list (list R)).
(** one row of heads per token *)
Abbreviation heads R := (list (list R)).

(** [x.chunk(2, -1)] of one row: the first part takes the odd element. *)
Definition halves {A} (x : list A) : list A * list A :=
  let h := Nat.div2 (S (length x)) in (take h x, drop h x).

Section layers.
Context {R : Type} `{!Numerics R}.

(** ** RMSNorm *)

Definition square_mean (x : row R) : R :=
  n_div (n_sum ((λ v, n_mul v v) <$> x)) (n_of_nat (length x)).

Definition normalized (x : row R) (weight : row R) (eps : R) : row R :=
  let scale := n_rsqrt (n_add (square_mean x) eps) in
  zip_with (λ v w, n_cast (n_mul (n_cast (n_mul v scale)) w)) x weight.

Definition rms_forward (x : matrix R) (weight : row R) (eps : R) : matrix R :=
  (λ r : row R, normalized (n_float <$> r) weight eps) <$> x.

Definition add_rms_forward (x residual : matrix R) (weight : row R) (eps : R) : matrix R * matrix R :=
  let sum := zip_with (λ r s, zip_with (λ a b, n_add (n_float a) (n_float b)) r s) x residual in
  ((λ r, normalized r weight eps) <$> sum, (λ r : row R, n_cast <$> r) <$> sum).

(** [RMSNorm.forward]; the second result is the new residual. *)
Definition RMSNorm (invariant : bool) (weight : row R) (eps : R) (x : matrix R) (residual : option (matrix R))
    : matrix R * option (matrix R) :=
  if invariant then invariant_rms_norm x weight eps residual
  else match residual with
       | None => (rms_forward x weight eps, None)
       | Some res => let '(y, res') := add_rms_forward x res weight eps in (y, Some res')
       end.

(** ** SiluAndMul *)

Definition silu_and_mul (x : row R) : row R :=
  let '(gate, value) := halves x in
  zip_with (λ g v, n_cast (n_mul (n_cast (n_silu g)) v)) gate value.

Definition SiluAndMul (x : matrix R) : matrix R := silu_and_mul <$> x.

(** ** Rotary embedding *)

Definition apply_rotary_emb (x : heads R) (cos sin : row R) : heads R :=
  (λ h : row R,
    let '(x1, x2) := halves (n_float <$> h) in
    let y1 := zip_with n_sub (zip_with n_mul x1 cos) (zip_with n_mul x2 sin) in
    let y2 := zip_with n_add (zip_with n_mul x2 cos) (zip_with n_mul x1 sin) in
    n_cast <$> y1 ++ y2) <$> x.

(** [self.cos_sin_cache[positions]] and the rotation of one token's heads. *)
Definition rotary_row (cos_sin_cache : matrix R) (position : Z) (query key : heads R) : outcome (heads R * heads R) :=
  let? cos_sin := tensor_at cos_sin_cache position in
  let '(cos, sin) := halves cos_sin in
  Ok (apply_rotary_emb query cos sin, apply_rotary_emb key cos sin).

Definition RotaryEmbedding (cos_sin_cache : matrix R) (positions : list Z) (query key : list (heads R))
    : outcome (list (heads R) * list (heads R)) :=
  let? rows := omap_all (λ '(p, (q, k)), rotary_row cos_sin_cache p q k) (zip positions (zip query key)) in
  Ok (rows.*1, rows.*2).

(** ** The paged cache *)

Record kv_cache := mk_kv_cache {
  k_cache : list (heads R);
  v_cache : list (heads R);
}.

(** One program per token: slot -1 is skipped. *)
Definition store_kvcache_kernel (key value : heads R) (slot : Z) (c : kv_cache) : kv_cache :=
  if slot =? -1 then c else
  mk_kv_cache (<[Z.to_nat slot := key]> (k_cache c)) (<[Z.to_nat slot := value]> (v_cache c)).

Abbreviation MC := (M kv_cache).

Definition store_kvcache (key value : list (heads R)) (slot_mapping : list Z) : MC unit :=
  assert (Z.of_nat (length slot_mapping) =? Z.of_nat (length key)) ;;;
  modify (λ c, foldl (λ c '((k, v), slot), store_kvcache_kernel k v slot c) c (zip (zip key value) slot_mapping)).

(** ** Attention *)

(** The geometry of the attention of one rank. *)
Record attention_config := mk_attention_config {
  num_heads : nat;
  num_kv_heads : nat;
  head_dim : nat;
  scaling : R;
  (** [k_cache.size(1)] *)
  cache_block_size : Z;
}.

(** [cache.index_select(0, block_ids).flatten(0, 1)] *)
Definition select_blocks (block_size : Z) (cache : list (heads R)) (block_ids : list Z) : outcome (list (heads R)) :=
  let? blocks := omap_all (λ b,
      oraise_if ((b <? 0) || (Z.of_nat (length cache) <=? b * block_size)) IndexError ;?
      Ok (take (Z.to_nat block_size) (drop (Z.to_nat (b * block_size)) cache))) block_ids in
  Ok (concat blocks).

(** One head of one query over its keys and values. *)
Definition attend_head (scale : R) (query : row R) (keys values : list (row R)) : row R :=
  let query := n_float <$> query in
  let scores := (λ k, n_mul (n_sum (zip_with n_mul query (n_float <$> k))) scale) <$> keys in
  let probabilities := n_softmax scores in
  (λ d, n_cast (n_sum (zip_with (λ p v, n_mul p (n_float (nth d v n_zero))) probabilities values)))
    <$> seq 0 (length query).

(** [keys[:, :, None, :].expand(-1, -1, groups, -1).reshape(...)] of one token. *)
Definition expand_heads (groups : nat) (kv : heads R) : heads R := kv ≫= replicate groups.

(** All heads of one query. *)
Definition attend (cfg : attention_config) (q : heads R) (keys values : list (heads R)) : heads R :=
  let groups := (num_heads cfg / num_kv_heads cfg)%nat in
  let head (kvs : list (heads R)) h := (λ kv, nth h (expand_heads groups kv) []) <$> kvs in
  imap (λ h query, attend_head (scaling cfg) query (head keys h) (head values h)) q.

(** The body of the loop over the queries. *)
Definition attend_query (cfg : attention_config) (c : kv_cache) (tables : list (list Z))
    (q : heads R) (sequence_index context_length : Z) : outcome (heads R) :=
  oraise_if (context_length <? 1) (RuntimeError "invariant attention context lengths must be positive") ;?
  let bs := cache_block_size cfg in
  let block_count := (context_length + bs - 1) `div` bs in
  let? table := tensor_at tables sequence_index in
  let block_ids := take (Z.to_nat block_count) table in
  let? keys := select_blocks bs (k_cache c) block_ids in
  let? values := select_blocks bs (v_cache c) block_ids in
  let keys := take (Z.to_nat context_length) keys in
  let values := take (Z.to_nat context_length) values in
  oraise_if (negb (Z.of_nat (length keys) =? context_length)) (RuntimeError "shape is invalid for input of size") ;?
  oraise_if (negb (Z.of_nat (length values) =? context_length)) (RuntimeError "shape is invalid for input of size") ;?
  Ok (attend cfg q keys values).

Definition _invariant_paged_attention (cfg : attention_config) (context : Context) (q : list (heads R))
    : MC (list (heads R)) :=
  match query_sequence_ids context, query_context_lengths context with
  | Some owners, Some lengths =>
      raise_if (negb (bool_decide (length owners = length q)) || negb (bool_decide (length lengths = length q)))
        (RuntimeError "invariant attention requires complete query metadata") ;;;
      match block_tables context with
      | None => raise (RuntimeError "invariant attention requires paged KV block tables")
      | Some tables =>
          raise_if (bool_decide (num_kv_heads cfg = 0%nat)) ZeroDivisionError ;;;
          raise_if (negb (bool_decide ((num_heads cfg) mod (num_kv_heads cfg) = 0)%nat))
            (RuntimeError "invariant attention requires integral grouped-query heads") ;;;
          let* c := get in
          let* outputs := lift (omap_all (λ '(q, (owner, len)), attend_query cfg c tables q owner len)
                                  (zip q (zip owners lengths))) in
          raise_if (bool_decide (outputs = [])) (RuntimeError "stack expects a non-empty TensorList") ;;;
          ret outputs
      end
  | _, _ => raise (RuntimeError "invariant attention requires complete query metadata")
  end.

(** The flash-attention functions: queries, keys, values (of the batch, or the
    caches) and the metadata. *)
Record flash_attn := mk_flash_attn {
  flash_attn_varlen_func :
    Context → R → list (heads R) → list (heads R) → list (heads R) → outcome (list (heads R));
  flash_attn_with_kvcache :
    Context → R → list (heads R) → list (heads R) → list (heads R) → outcome (list (heads R));
}.

(** [Attention.forward] *)
Definition Attention (flash : flash_attn) (invariant : bool) (cfg : attention_config) (context : Context)
    (q k v : list (heads R)) : MC (list (heads R)) :=
  let* c := get in
  (if negb (bool_decide (length (k_cache c) = 0%nat)) && negb (bool_decide (length (v_cache c) = 0%nat)) then
     match slot_mapping context with
     | Some slots => store_kvcache k v slots
     | None => raise AttributeError
     end
   else ret tt) ;;;
  if invariant && bool_decide (is_Some (block_tables context)) then _invariant_paged_attention cfg context q
  else
    let* c := get in
    if cx_is_prefill context then
      let '(k, v) := if bool_decide (is_Some (block_tables context)) then (k_cache c, v_cache c) else (k, v) in
      lift (flash_attn_varlen_func flash context (scaling cfg) q k v)
    else lift (flash_attn_with_kvcache flash context (scaling cfg) q (k_cache c) (v_cache c)).
End layers.
Arguments kv_cache R : clear implicits.
Arguments attention_config R : clear implicits.
Arguments flash_attn R : clear implicits.
