(* ===== verification/Linear.v ===== *)
(** * Linear: tensor-parallel linear layers and the vocabulary-parallel head

    Models src/nanovllm/layers/linear.py and embed_head.py with the shape checks of
    utils/loader.py: how a rank takes its shard of a checkpoint tensor, and what a
    layer computes.  The ranks run the same program in lockstep: a value every rank
    holds is given once, a value that differs is the list over the ranks, and
    [dist.all_reduce] and [dist.gather] combine such lists. *)
From S2P Require Import Prelude InvariantOps RunnerRun Layers.
#[local] Open Scope nat_scope.

(** ** Parameters and their shapes *)

(** A weight is a matrix of a given width, a bias a vector. *)
Inductive tensor (R : Type) :=
  | Vec (l : row R)
  | Mat (width : nat) (rows : matrix R).
Arguments Vec {R} l.
Arguments Mat {R} width rows.

Section tensors.
Context {R : Type}.

Definition shape (t : tensor R) : list nat :=
  match t with Vec l => [length l] | Mat w rows => [length rows; w] end.

Definition require_exact_weight_shape (destination loaded_weight : tensor R) : outcome unit :=
  oraise_if (negb (bool_decide (shape loaded_weight = shape destination)))
    (ValueError "checkpoint tensor shape does not match its local destination").

(** [shard_dim] is an index from 0: the layers use no negative one. *)
Definition require_exact_global_weight_shape (local_destination loaded_weight : tensor R)
    (shard_dim num_shards : nat) : outcome unit :=
  oraise_if (num_shards <? 1) (ValueError "num_shards must be a positive integer") ;?
  oraise_if (negb (shard_dim <? length (shape local_destination)))
    (ValueError "shard_dim is outside the destination rank") ;?
  let expected_global_shape := alter (λ n, n * num_shards) shard_dim (shape local_destination) in
  oraise_if (negb (bool_decide (shape loaded_weight = expected_global_shape)))
    (ValueError "checkpoint tensor shape does not match its expected global source geometry").

Definition size (t : tensor R) (dim : nat) : nat := shape t !!! dim.

Definition slice_of {A} (start len : nat) (l : list A) : list A := take len (drop start l).

(** [t.narrow(dim, start, length)] *)
Definition narrow (t : tensor R) (dim start len : nat) : outcome (tensor R) :=
  oraise_if (size t dim <? start + len) (RuntimeError "narrow: start + length exceeds dimension size") ;?
  Ok (match t, dim with
      | Vec l, _ => Vec (slice_of start len l)
      | Mat w rows, 0 => Mat w (slice_of start len rows)
      | Mat w rows, _ => Mat len (slice_of start len <$> rows)
      end).

(** [t.chunk(n, dim)[i]]: every chunk but the last has the size rounded up. *)
Definition chunk_at (t : tensor R) (n dim i : nat) : outcome (tensor R) :=
  let s := cdiv (size t dim) n in
  oraise_if (size t dim <=? i * s) IndexError ;?
  narrow t dim (i * s) (Nat.min s (size t dim - i * s)).

(** [param.narrow(0, start, ...).copy_(t)] of a tensor of the view's shape. *)
Definition copy_rows (param : tensor R) (start : nat) (t : tensor R) : tensor R :=
  match param, t with
  | Vec l, Vec l' => Vec (take start l ++ l' ++ drop (start + length l') l)
  | Mat w rows, Mat _ rows' => Mat w (take start rows ++ rows' ++ drop (start + length rows') rows)
  | _, _ => param
  end.
End tensors.

Definition divide (numerator denominator : nat) : outcome nat :=
  oraise_if (denominator =? 0) ZeroDivisionError ;?
  oraise_if (negb (numerator mod denominator =? 0)) AssertionError ;?
  Ok (numerator / denominator).

(** ** Weight loaders

    Each answers the new value of the parameter. *)

Section loaders.
Context {R : Type} (tp_rank tp_size : nat).

Definition default_weight_loader (param loaded_weight : tensor R) : outcome (tensor R) :=
  require_exact_weight_shape param loaded_weight ;? Ok loaded_weight.

Definition ReplicatedLinear_weight_loader : tensor R → tensor R → outcome (tensor R) := default_weight_loader.

(** [ColumnParallelLinear] with [tp_dim] 0, [RowParallelLinear] with 1, and
    [VocabParallelEmbedding] with 0: the rank's range of the sharded dimension. *)
Definition sharded_weight_loader (tp_dim : nat) (param loaded_weight : tensor R) : outcome (tensor R) :=
  require_exact_global_weight_shape param loaded_weight tp_dim tp_size ;?
  let shard_size := size param tp_dim in
  let start_idx := tp_rank * shard_size in
  let? loaded_weight := narrow loaded_weight tp_dim start_idx shard_size in
  require_exact_weight_shape param loaded_weight ;?
  Ok loaded_weight.

Definition ColumnParallelLinear_weight_loader := sharded_weight_loader 0.
Definition VocabParallelEmbedding_weight_loader := sharded_weight_loader 0.

Definition RowParallelLinear_weight_loader (param loaded_weight : tensor R) : outcome (tensor R) :=
  if length (shape param) =? 1 then default_weight_loader param loaded_weight
  else sharded_weight_loader 1 param loaded_weight.

(** The packed loaders: the rank's chunk of one source goes to its place in the
    rank's parameter. *)
Definition packed_weight_loader (shard_offset shard_size : nat) (param loaded_weight : tensor R)
    : outcome (tensor R) :=
  let? param_data := narrow param 0 shard_offset shard_size in
  require_exact_global_weight_shape param_data loaded_weight 0 tp_size ;?
  let? loaded_weight := chunk_at loaded_weight tp_size 0 tp_rank in
  require_exact_weight_shape param_data loaded_weight ;?
  Ok (copy_rows param shard_offset loaded_weight).

Definition MergedColumnParallelLinear_weight_loader (output_sizes : list nat) (param loaded_weight : tensor R)
    (loaded_shard_id : nat) : outcome (tensor R) :=
  match output_sizes !! loaded_shard_id with
  | None => Raise IndexError
  | Some n =>
      packed_weight_loader (sum_list (take loaded_shard_id output_sizes) / tp_size) (n / tp_size) param loaded_weight
  end.

Inductive qkv_shard := ShardQ | ShardK | ShardV.

Definition QKVParallelLinear_weight_loader (num_heads num_kv_heads head_size : nat) (param loaded_weight : tensor R)
    (loaded_shard_id : qkv_shard) : outcome (tensor R) :=
  let '(shard_size, shard_offset) :=
    match loaded_shard_id with
    | ShardQ => (num_heads * head_size, 0)
    | ShardK => (num_kv_heads * head_size, num_heads * head_size)
    | ShardV => (num_kv_heads * head_size, num_heads * head_size + num_kv_heads * head_size)
    end in
  packed_weight_loader shard_offset shard_size param loaded_weight.
End loaders.

(** The local sizes the constructors ask for: the rows of the parameter, and the
    heads of the rank. *)
Definition ColumnParallelLinear_rows (output_size tp_size : nat) : outcome nat := divide output_size tp_size.
Definition RowParallelLinear_columns (input_size tp_size : nat) : outcome nat := divide input_size tp_size.
Definition QKVParallelLinear_sizes (head_size total_num_heads : nat) (total_num_kv_heads : option nat) (tp_size : nat)
    : outcome (nat * nat * nat) :=
  let total_num_kv_heads := match total_num_kv_heads with
                            | Some (S n) => S n | _ => total_num_heads end in
  let? num_heads := divide total_num_heads tp_size in
  let? num_kv_heads := divide total_num_kv_heads tp_size in
  let? rows := ColumnParallelLinear_rows ((total_num_heads + 2 * total_num_kv_heads) * head_size) tp_size in
  Ok (num_heads, num_kv_heads, rows).

(** ** Forward passes *)

Section forward.
Context {R : Type} `{!Numerics R}.
#[local] Instance linear_inhabited : Inhabited R := populate n_zero.

Record linear_params := mk_linear {
  weight : matrix R;
  bias : option (row R);
}.

(** The numerical mode, [F.linear] of torch, and the number of ranks. *)
Record linear_env := mk_linear_env {
  le_invariant : bool;
  F_linear : matrix R → matrix R → option (row R) → matrix R;
}.

Variable env : linear_env.

Definition _linear (p : linear_params) (x : matrix R) (b : option (row R)) : outcome (matrix R) :=
  if le_invariant env then invariant_linear x (weight p) b else Ok (F_linear env x (weight p) b).

(** [ReplicatedLinear.forward], and [ColumnParallelLinear.forward] on one rank. *)
Definition ColumnParallelLinear (p : linear_params) (x : matrix R) : outcome (matrix R) := _linear p x (bias p).

(** One element per cell of the ranks' matrices, which have one shape. *)
Definition all_reduce (ys : list (matrix R)) : matrix R :=
  match ys with
  | [] => []
  | y :: _ => imap (λ i r, imap (λ j _, n_all_reduce ((λ m : matrix R, (m !!! i) !!! j) <$> ys)) r) y
  end.

(** [RowParallelLinear.forward]: only rank 0 adds the bias. *)
Definition RowParallelLinear (ps : list linear_params) (xs : list (matrix R)) : outcome (matrix R) :=
  let? ys := omap_all (λ '(r, (p, x)), _linear p x (if r =? 0 then bias p else None))
               (zip (seq 0 (length ps)) (zip ps xs)) in
  match ys with
  | [y] => Ok y
  | _ => Ok (all_reduce ys)
  end.

(** [F.embedding] *)
Definition F_embedding (x : list Z) (w : matrix R) : outcome (matrix R) :=
  omap_all (λ t, if (t <? 0)%Z then Raise IndexError else
    match w !! Z.to_nat t with Some r => Ok r | None => Raise IndexError end) x.

Definition bool_number (b : bool) : R := n_of_nat (if b then 1 else 0).

(** What one of several ranks computes: foreign tokens read row 0, and are masked. *)
Definition embed_on_rank (w : matrix R) (num_embeddings_per_partition tp_rank : nat) (x : list Z)
    : outcome (matrix R) :=
  let vocab_start_idx := Z.of_nat (num_embeddings_per_partition * tp_rank) in
  let vocab_end_idx := (vocab_start_idx + Z.of_nat num_embeddings_per_partition)%Z in
  let mask := (λ t, (vocab_start_idx <=? t)%Z && (t <? vocab_end_idx)%Z) <$> x in
  let x := zip_with (λ (m : bool) t, if m then (t - vocab_start_idx)%Z else 0%Z) mask x in
  let? y := F_embedding x w in
  Ok (zip_with (λ m r, n_mul (bool_number m) <$> (r : row R)) mask y).

Definition VocabParallelEmbedding (ws : list (matrix R)) (num_embeddings_per_partition : nat) (x : list Z)
    : outcome (matrix R) :=
  match ws with
  | [w] => F_embedding x w
  | _ =>
      let? ys := omap_all (λ '(r, w), embed_on_rank w num_embeddings_per_partition r x)
                   (zip (seq 0 (length ws)) ws) in
      Ok (all_reduce ys)
  end.

(** [ParallelLMHead.forward] after the choice of the rows: the ranks' logits side by
    side on rank 0. *)
Definition ParallelLMHead (ws : list (matrix R)) (x : matrix R) : outcome (matrix R) :=
  let? all_logits := omap_all (λ w, _linear (mk_linear w None) x None) ws in
  match all_logits with
  | [logits] => Ok logits
  | _ => Ok (foldr (zip_with app) (replicate (length x) []) all_logits)
  end.
End forward.
Arguments linear_params R : clear implicits.
Arguments linear_env R : clear implicits.
