(* ===== verification/Qwen3.v ===== *)
(** * Qwen3: the decoder model over tensor-parallel ranks

    Models src/nanovllm/models/qwen3.py: attention and MLP blocks, decoder layers
    and the whole model, with the paged caches of every rank and layer as the
    state.  The ranks run in lockstep (see Linear): the hidden states are common,
    each rank has its own weights, its own heads and its own caches. *)
From S2P Require Import Prelude InvariantOps RunnerInput RunnerRun Layers Linear.
#[local] Open Scope Z_scope.

Section qwen3.
Context {R : Type} `{!Numerics R}.

(** The weights of one layer on one rank. *)
Record rank_layer := mk_rank_layer {
  qkv_proj : linear_params R;
  o_proj : linear_params R;
  (** the norms of the heads, when the projections have no bias *)
  q_norm : option (row R);
  k_norm : option (row R);
  gate_up_proj : linear_params R;
  down_proj : linear_params R;
}.

Record decoder_layer := mk_decoder_layer {
  layer_ranks : list rank_layer;
  input_layernorm : row R;
  post_attention_layernorm : row R;
}.

Record qwen3 := mk_qwen3 {
  embed_tokens : list (matrix R);
  model_layers : list decoder_layer;
  final_norm : row R;
  lm_head : list (matrix R);
}.

(** What the modules share: the geometry of a rank, the rotation table, and the
    functions of torch and of the flash-attention library. *)
Record model_config := mk_model_config {
  mc_linear : linear_env R;
  mc_flash : flash_attn R;
  mc_attention : attention_config R;
  mc_eps : R;
  mc_cos_sin_cache : matrix R;
  mc_vocab_per_partition : nat;
}.

Variable cfg : model_config.
Abbreviation invariant := (le_invariant (mc_linear cfg)).
Abbreviation geometry := (mc_attention cfg).

(** ** Attention *)

(** [x.view(-1, n, d)] of one row. *)
Fixpoint view_heads (n d : nat) (x : row R) : heads R :=
  match n with O => [] | S n => take d x :: view_heads n d (drop d x) end.

(** [qkv.split([q_size, kv_size, kv_size], dim=-1)] and the views, of one row. *)
Definition split_qkv (x : row R) : heads R * heads R * heads R :=
  let d := head_dim geometry in
  let q_size := (num_heads geometry * d)%nat in
  let kv_size := (num_kv_heads geometry * d)%nat in
  (view_heads (num_heads geometry) d (take q_size x),
   view_heads (num_kv_heads geometry) d (take kv_size (drop q_size x)),
   view_heads (num_kv_heads geometry) d (take kv_size (drop (q_size + kv_size) x))).

(** [self.q_norm(q)]: the norm of every head of every token. *)
Definition norm_heads (weight : option (row R)) (x : list (heads R)) : list (heads R) :=
  match weight with
  | None => x
  | Some w => (λ h : heads R, (RMSNorm invariant w (mc_eps cfg) h None).1) <$> x
  end.

(** The attention of one rank, before the output projection. *)
Definition rank_attention (context : Context) (positions : list Z) (x : matrix R) (r : rank_layer)
    : M (kv_cache R) (matrix R) :=
  let* qkv := lift (ColumnParallelLinear (mc_linear cfg) (qkv_proj r) x) in
  let parts : list (heads R * heads R * heads R) := split_qkv <$> qkv in
  let q := norm_heads (q_norm r) (parts.*1.*1) in
  let k := norm_heads (k_norm r) (parts.*1.*2) in
  let v := parts.*2 in
  let* qk := lift (RotaryEmbedding (mc_cos_sin_cache cfg) positions q k) in
  let* o := Attention (mc_flash cfg) invariant geometry context qk.1 qk.2 v in
  ret ((λ h : heads R, concat h) <$> o).

(** One program per rank, each on its own cache. *)
Fixpoint on_ranks {S A B} (f : A → M S B) (xs : list A) : M (list S) (list B) := λ ss,
  match xs, ss with
  | x :: xs, s :: ss =>
      match f x s with
      | (Raise e, s') => (Raise e, s' :: ss)
      | (Ok b, s') =>
          match on_ranks f xs ss with
          | (Raise e, ss') => (Raise e, s' :: ss')
          | (Ok bs, ss') => (Ok (b :: bs), s' :: ss')
          end
      end
  | _, _ => (Ok [], ss)
  end.

Definition Qwen3Attention (context : Context) (positions : list Z) (ranks : list rank_layer) (x : matrix R)
    : M (list (kv_cache R)) (matrix R) :=
  let* os := on_ranks (rank_attention context positions x) ranks in
  lift (RowParallelLinear (mc_linear cfg) (o_proj <$> ranks) os).

(** ** MLP *)

Definition rank_mlp (x : matrix R) (r : rank_layer) : outcome (matrix R) :=
  let? gate_up := ColumnParallelLinear (mc_linear cfg) (gate_up_proj r) x in
  Ok (SiluAndMul gate_up).

Definition Qwen3MLP (ranks : list rank_layer) (x : matrix R) : outcome (matrix R) :=
  let? xs := omap_all (rank_mlp x) ranks in
  RowParallelLinear (mc_linear cfg) (down_proj <$> ranks) xs.

(** ** Layers *)

Definition Qwen3DecoderLayer (context : Context) (positions : list Z) (l : decoder_layer)
    (hidden_states : matrix R) (residual : option (matrix R)) : M (list (kv_cache R)) (matrix R * option (matrix R)) :=
  let '(hidden, residual) :=
    match residual with
    | None => ((RMSNorm invariant (input_layernorm l) (mc_eps cfg) hidden_states None).1, Some hidden_states)
    | Some _ => RMSNorm invariant (input_layernorm l) (mc_eps cfg) hidden_states residual
    end in
  let* hidden := Qwen3Attention context positions (layer_ranks l) hidden in
  let '(hidden, residual) := RMSNorm invariant (post_attention_layernorm l) (mc_eps cfg) hidden residual in
  let* hidden := lift (Qwen3MLP (layer_ranks l) hidden) in
  ret (hidden, residual).

(** The loop over the layers, each with the caches of its ranks. *)
Fixpoint run_layers (context : Context) (positions : list Z) (ls : list decoder_layer)
    (hidden_states : matrix R) (residual : option (matrix R))
    : M (list (list (kv_cache R))) (matrix R * option (matrix R)) := λ css,
  match ls, css with
  | l :: ls, cs :: css =>
      match Qwen3DecoderLayer context positions l hidden_states residual cs with
      | (Raise e, cs') => (Raise e, cs' :: css)
      | (Ok (h, r), cs') =>
          let '(out, css') := run_layers context positions ls h r css in (out, cs' :: css')
      end
  | _, _ => (Ok (hidden_states, residual), css)
  end.

Definition Qwen3Model (m : qwen3) (c : model_call) : M (list (list (kv_cache R))) (matrix R) :=
  let* hidden := lift (VocabParallelEmbedding (embed_tokens m) (mc_vocab_per_partition cfg) (input_ids c)) in
  let* out := run_layers (call_context c) (positions c) (model_layers m) hidden None in
  ret (RMSNorm invariant (final_norm m) (mc_eps cfg) out.1 out.2).1.

(** [Qwen3ForCausalLM.compute_logits_all]: every row is projected. *)
Definition compute_logits_all (m : qwen3) (hidden_states : matrix R) : outcome (matrix R) :=
  ParallelLMHead (mc_linear cfg) (lm_head m) hidden_states.
End qwen3.
Arguments rank_layer R : clear implicits.
Arguments decoder_layer R : clear implicits.
Arguments qwen3 R : clear implicits.
Arguments model_config R : clear implicits.

(** Source checkpoint names and the parameter and shard each goes to. *)
Definition packed_modules_mapping : list (string * (string * (qkv_shard + nat))) :=
  [("q_proj", ("qkv_proj", inl ShardQ)); ("k_proj", ("qkv_proj", inl ShardK)); ("v_proj", ("qkv_proj", inl ShardV));
   ("gate_proj", ("gate_up_proj", inr 0%nat)); ("up_proj", ("gate_up_proj", inr 1%nat))]%string.
