(* ===== verification/LayerSpec.v ===== *)
(** * LayerSpec: the layers act on rows, and paged reads see what was stored

    In the invariant mode every layer is a function of one row; storing the keys of
    a batch at distinct slots and reading a sequence back through its block table
    gives the sequence's keys in order. *)
From S2P Require Import Prelude InvariantOps RunnerInput RunnerRun RunnerSpec Layers Linear.
#[local] Open Scope nat_scope.

(** ** Lists of equal rows *)

Lemma concat_uniform_lookup {A} n (ll : list (list A)) i :
  0 < n → Forall (λ l, length l = n) ll → concat ll !! i = ll !! (i / n) ≫= (.!! (i mod n)).
Proof.
  intros Hn H. revert i. induction H as [|l ll Hl _ IH]; intros i; [done|]. simpl concat.
  destruct (decide (i < n)) as [Hi|Hi].
  - rewrite lookup_app_l by lia. by rewrite Nat.div_small, Nat.mod_small.
  - rewrite lookup_app_r by lia. rewrite IH, Hl.
    replace i with ((i - n) + 1 * n) at 3 4 by lia.
    rewrite Nat.div_add, Nat.Div0.mod_add by lia. rewrite Nat.add_1_r. done.
Qed.

Lemma omap_all_zip_fmap {A B C D} (f : A → B) (g : A → C) (h : B * C → outcome D) l :
  omap_all h (zip (f <$> l) (g <$> l)) = omap_all (λ x, h (f x, g x)) l.
Proof. induction l as [|x l IH]; [done|]. rewrite !fmap_cons. cbn [zip zip_with omap_all obind]. by rewrite <-IH. Qed.

Lemma omap_all_fmap {A B D} (f : A → B) (h : B → outcome D) l :
  omap_all h (f <$> l) = omap_all (λ x, h (f x)) l.
Proof. induction l as [|x l IH]; [done|]. rewrite !fmap_cons. cbn [omap_all obind]. by rewrite <-IH. Qed.

Lemma zip_with_fmap_both {A B C D} (f : B → C → D) (g : A → B) (h : A → C) l :
  zip_with f (g <$> l) (h <$> l) = (λ x, f (g x) (h x)) <$> l.
Proof. induction l as [|x l IH]; [done|]. rewrite !fmap_cons. cbn [zip_with]. by rewrite <-IH. Qed.

Lemma zip_fmap_both {A B C} (g : A → B) (h : A → C) l :
  zip (g <$> l) (h <$> l) = (λ x, (g x, h x)) <$> l.
Proof. apply zip_with_fmap_both. Qed.

Lemma zip_fmap_r {A B C} (g : B → C) (l : list A) k :
  zip l (g <$> k) = (λ p : A * B, (p.1, g p.2)) <$> zip l k.
Proof.
  revert k. induction l as [|x l IH]; intros [|y k]; try done.
  rewrite fmap_cons. cbn [zip zip_with]. rewrite fmap_cons. f_equal. apply IH.
Qed.

Lemma imap_take {A B} (f : nat → A → B) l n : imap f (take n l) = take n (imap f l).
Proof.
  revert f n. induction l as [|x l IH]; intros f [|n]; try done.
  cbn [take]. rewrite !imap_cons. cbn [take]. by rewrite IH.
Qed.

Section rows.
Context {R : Type} `{!Numerics R}.
#[local] Existing Instance linear_inhabited.

(** ** Row functions *)

(** The norm of one row. *)
Definition norm_row (w : row R) (eps : R) (x : row R) : row R :=
  (_rms_kernel x None w eps (next_power_of_2 (length x))).1.

(** The norm of the sum with a residual, and the sum. *)
Definition add_norm_row (w : row R) (eps : R) (x r : row R) : row R * row R :=
  _rms_kernel x (Some r) w eps (next_power_of_2 (length x)).

Lemma width_fmap {Q} (f : Q → row R) d l :
  l ≠ [] → (∀ q, q ∈ l → length (f q) = d) → width (f <$> l) = d.
Proof. intros Hne Hd. destruct l as [|q l]; [done|]. simpl. apply Hd. left. Qed.

Lemma norm_rows {Q} w eps (f : Q → row R) d l :
  (∀ q, q ∈ l → length (f q) = d) →
  RMSNorm true w eps (f <$> l) None = ((λ q, norm_row w eps (f q)) <$> l, None).
Proof.
  intros Hd. unfold RMSNorm, invariant_rms_norm. f_equal. rewrite <-list_fmap_compose.
  apply list_fmap_ext. intros i q Hq%list_elem_of_lookup_2. unfold compose, norm_row.
  rewrite (width_fmap f d) by (done || (by intros ->; apply elem_of_nil in Hq)). by rewrite (Hd q).
Qed.

Lemma add_norm_rows {Q} w eps (f g : Q → row R) d l :
  (∀ q, q ∈ l → length (f q) = d) →
  RMSNorm true w eps (f <$> l) (Some (g <$> l)) =
    ((λ q, (add_norm_row w eps (f q) (g q)).1) <$> l, Some ((λ q, (add_norm_row w eps (f q) (g q)).2) <$> l)).
Proof.
  intros Hd. unfold RMSNorm, invariant_rms_norm. rewrite zip_with_fmap_both.
  rewrite (list_fmap_ext _ (λ q, add_norm_row w eps (f q) (g q)) l).
  - by rewrite <-!list_fmap_compose.
  - intros i q Hq%list_elem_of_lookup_2. unfold add_norm_row.
    rewrite (width_fmap f d) by (done || (by intros ->; apply elem_of_nil in Hq)). by rewrite (Hd q).
Qed.

Lemma next_power_of_2_le n : n <= next_power_of_2 n.
Proof.
  unfold next_power_of_2. destruct (decide (n <= 1)) as [H|H].
  - pose proof (Nat.pow_nonzero 2 (Nat.log2_up n)). lia.
  - apply Nat.log2_up_spec. lia.
Qed.

Lemma length_rms_kernel x res w eps :
  length (_rms_kernel x res w eps (next_power_of_2 (length x))).1 = length x ∧
  length (_rms_kernel x res w eps (next_power_of_2 (length x))).2 = length x.
Proof.
  pose proof (next_power_of_2_le (length x)). unfold _rms_kernel. simpl.
  rewrite !length_take, !length_imap, length_fmap, length_seq. lia.
Qed.

Lemma length_norm_row w eps x : length (norm_row w eps x) = length x.
Proof. apply length_rms_kernel. Qed.

(** ** Linear layers *)

(** A weight of [n] rows of [k] numbers. *)
Record weight_shape (w : matrix R) (n k : nat) : Prop := {
  ws_rows : length w = n;
  ws_width : Forall (λ r, length r = k) w;
  ws_pos : 0 < n;
}.

Lemma length_linear_row w b (x : row R) : length (linear_row w b x) = length w.
Proof. apply length_imap. Qed.

Variable env : linear_env R.
Hypothesis invariant : le_invariant env = true.

Lemma linear_rows {Q} p (f : Q → row R) b n k l :
  weight_shape (weight p) n k → (∀ q, q ∈ l → length (f q) = k) →
  _linear env p (f <$> l) b = Ok ((λ q, linear_row (weight p) b (f q)) <$> l).
Proof.
  intros [Hn Hk Hp] Hf. unfold _linear. rewrite invariant.
  rewrite (invariant_linear_rows (f <$> l) (weight p) b k).
  - by rewrite <-list_fmap_compose.
  - apply Forall_fmap, Forall_forall. exact Hf.
  - done.
  - intros E. rewrite E in Hn. simpl in Hn. lia.
Qed.

(** The ranks' rows combined. *)
Definition reduce_row (ys : list (row R)) : row R :=
  match ys with
  | [] => []
  | [y] => y
  | y :: _ => imap (λ j _, n_all_reduce ((λ r : row R, r !!! j) <$> ys)) y
  end.

Definition row_parallel_row (ps : list (linear_params R)) (xs : list (row R)) : row R :=
  reduce_row ((λ '(r, (p, x)), linear_row (weight p) (if r =? 0 then bias p else None) x) <$>
    zip (seq 0 (length ps)) (zip ps xs)).

Lemma all_reduce_rows {Q} (ys : list (Q → row R)) (l : list Q) :
  (2 <= length ys) →
  all_reduce ((λ y : Q → row R, y <$> l) <$> ys) = (λ q, reduce_row ((λ y : Q → row R, y q) <$> ys)) <$> l.
Proof.
  intros Hl. destruct ys as [|y [|y' ys]]; [simpl in Hl; lia..|]. unfold all_reduce.
  rewrite !fmap_cons. apply list_eq. intros i. rewrite list_lookup_imap, !list_lookup_fmap.
  destruct (l !! i) as [q|] eqn:Hq; [|done]. simpl. f_equal. unfold reduce_row.
  assert (∀ z : Q → row R, ((z <$> l) !!! i) = z q) as Hz.
  { intros z. apply list_lookup_total_correct. by rewrite list_lookup_fmap, Hq. }
  apply imap_ext. intros j x _. f_equal.
  assert (∀ zs : list (Q → row R), (λ m : matrix R, m !!! i !!! j) <$> ((λ z : Q → row R, z <$> l) <$> zs)
    = (λ r : row R, r !!! j) <$> ((λ z : Q → row R, z q) <$> zs)) as Hall; [|exact (Hall (y :: y' :: ys))].
  intros zs. rewrite <-!list_fmap_compose. apply list_fmap_ext. intros k z _. unfold compose. by rewrite Hz.
Qed.

(** [RowParallelLinear] on rows: [X] gives each rank's row of a query. *)
Lemma row_parallel_rows {Q I} (ranks : list I) (P : I → linear_params R) (X : I → Q → row R) n k l :
  ranks ≠ [] → (∀ r, r ∈ ranks → weight_shape (weight (P r)) n k) →
  (∀ r q, r ∈ ranks → q ∈ l → length (X r q) = k) →
  RowParallelLinear env (P <$> ranks) ((λ r, X r <$> l) <$> ranks) =
    Ok ((λ q, row_parallel_row (P <$> ranks) ((λ r, X r q) <$> ranks)) <$> l).
Proof.
  intros Hne Hw HX. unfold RowParallelLinear.
  set (Y (ir : nat * I) (q : Q) := linear_row (weight (P ir.2)) (if ir.1 =? 0 then bias (P ir.2) else None) (X ir.2 q)).
  set (idx := zip (seq 0 (length ranks)) ranks).
  assert (zip (seq 0 (length (P <$> ranks))) (zip (P <$> ranks) ((λ r, X r <$> l) <$> ranks))
    = (λ ir : nat * I, (ir.1, (P ir.2, X ir.2 <$> l))) <$> idx) as ->.
  { rewrite zip_fmap_both, length_fmap. unfold idx. rewrite zip_fmap_r. by apply list_fmap_ext; intros ? [] _. }
  rewrite omap_all_fmap. rewrite (omap_all_eq _ (λ ir, Y ir <$> l)).
  2:{ intros [i r] Hir. unfold idx in Hir. assert (r ∈ ranks) as Hr.
      { apply list_elem_of_lookup in Hir as [j Hj]. apply lookup_zip_Some in Hj as [_ Hj].
        by eapply list_elem_of_lookup_2. }
      apply (linear_rows _ _ _ n k); [by apply Hw|]. intros q Hq. by apply HX. }
  cbn [obind].
  assert (∀ q, row_parallel_row (P <$> ranks) ((λ r, X r q) <$> ranks) = reduce_row ((λ ir, Y ir q) <$> idx)) as Hq.
  { intros q. unfold row_parallel_row. rewrite zip_fmap_both, length_fmap. unfold idx. rewrite zip_fmap_r.
    by rewrite <-list_fmap_compose. }
  assert (length idx = length ranks) as Hidx by (unfold idx; rewrite length_zip_with, length_seq; lia).
  destruct idx as [|ir [|ir' idx']] eqn:E.
  - destruct ranks; [done|simpl in Hidx; lia].
  - f_equal. apply list_fmap_ext. intros j q _. by rewrite Hq.
  - pose proof (all_reduce_rows (Y <$> ir :: ir' :: idx') l) as Ha. rewrite <-list_fmap_compose in Ha.
    rewrite !fmap_cons in Ha |- *. f_equal. unfold compose in Ha. rewrite Ha by (simpl; lia).
    apply list_fmap_ext. intros j q _. rewrite Hq, !fmap_cons, <-list_fmap_compose. done.
Qed.
(** ** The vocabulary *)

(** The embedding of one token: the row of its rank, and masked rows elsewhere. *)
Definition masked_row (w : matrix R) (part r : nat) (t : Z) : row R :=
  let start := Z.of_nat (part * r) in
  let mine := (start <=? t)%Z && (t <? start + Z.of_nat part)%Z in
  n_mul (bool_number mine) <$> w !!! Z.to_nat (if mine then t - start else 0)%Z.

Definition embed_row (ws : list (matrix R)) (part : nat) (t : Z) : row R :=
  match ws with
  | [w] => w !!! Z.to_nat t
  | _ => reduce_row ((λ '(r, w), masked_row w part r t) <$> zip (seq 0 (length ws)) ws)
  end.

Lemma embedding_lookup {Q} (f : Q → Z) (w : matrix R) l :
  (∀ q, q ∈ l → (0 <= f q < Z.of_nat (length w))%Z) →
  F_embedding (f <$> l) w = Ok ((λ q, w !!! Z.to_nat (f q)) <$> l).
Proof.
  intros Hf. unfold F_embedding. rewrite omap_all_fmap. apply omap_all_eq. intros q Hq.
  specialize (Hf q Hq). rewrite (proj2 (Z.ltb_ge _ _)) by lia.
  destruct (lookup_lt_is_Some_2 w (Z.to_nat (f q))) as [r Hr]; [lia|].
  by rewrite Hr, (list_lookup_total_correct _ _ _ Hr).
Qed.

Lemma embed_on_rank_rows {Q} (f : Q → Z) (w : matrix R) part r l :
  length w = part → 0 < part →
  embed_on_rank w part r (f <$> l) = Ok ((λ q, masked_row w part r (f q)) <$> l).
Proof.
  intros Hw Hpart. unfold embed_on_rank. rewrite <-list_fmap_compose. unfold compose.
  rewrite zip_with_fmap_both, embedding_lookup.
  - cbn [obind]. by rewrite zip_with_fmap_both.
  - intros q _. simpl. case_match eqn:E; [|lia]. apply andb_true_iff in E as [E1%Z.leb_le E2%Z.ltb_lt]. lia.
Qed.

Lemma embed_rows {Q} (f : Q → Z) (ws : list (matrix R)) part l :
  ws ≠ [] → Forall (λ w, length w = part) ws → 0 < part →
  (∀ q, q ∈ l → (0 <= f q < Z.of_nat (length ws * part))%Z) →
  VocabParallelEmbedding ws part (f <$> l) = Ok ((λ q, embed_row ws part (f q)) <$> l).
Proof.
  intros Hne Hws Hpart Hf. unfold VocabParallelEmbedding, embed_row.
  destruct ws as [|w [|w' ws']]; [done| |].
  - apply embedding_lookup. intros q Hq. specialize (Hf q Hq). apply Forall_cons in Hws as [-> _]. simpl in Hf. lia.
  - set (idx := zip (seq 0 (length (w :: w' :: ws'))) (w :: w' :: ws')).
    set (Y (rw : nat * matrix R) (q : Q) := masked_row rw.2 part rw.1 (f q)).
    rewrite (omap_all_eq _ (λ rw, Y rw <$> l)).
    2:{ intros [r m] Hrm. apply embed_on_rank_rows; [|done]. apply list_elem_of_lookup in Hrm as [j Hj].
        apply lookup_zip_Some in Hj as [_ Hj]. rewrite Forall_lookup in Hws. by eapply Hws. }
    cbn [obind]. f_equal. pose proof (all_reduce_rows (Y <$> idx) l) as Ha. rewrite <-list_fmap_compose in Ha.
    unfold compose in Ha. rewrite Ha by (unfold idx; simpl; lia).
    apply list_fmap_ext. intros j q _. rewrite <-list_fmap_compose. f_equal.
    apply list_fmap_ext. by intros ? [] _.
Qed.

(** The logits of one row: the ranks' shares side by side. *)
Definition head_row (ws : list (matrix R)) (x : row R) : row R :=
  concat ((λ w, linear_row w None x) <$> ws).

Lemma zip_app_rows {Q} (Y : list (Q → row R)) (l : list Q) :
  foldr (zip_with app) (replicate (length l) []) ((λ y : Q → row R, y <$> l) <$> Y) =
    (λ q, concat ((λ y : Q → row R, y q) <$> Y)) <$> l.
Proof.
  induction Y as [|y Y IH]; simpl.
  - induction l as [|q l IH]; [done|]. simpl. by rewrite IH.
  - change (foldr _ _ _) with (foldr (zip_with app) (replicate (length l) []) ((λ y : Q → row R, y <$> l) <$> Y)).
    rewrite IH. apply zip_with_fmap_both.
Qed.

Lemma head_rows {Q} (f : Q → row R) (ws : list (matrix R)) n k l :
  ws ≠ [] → Forall (λ w, weight_shape w n k) ws → (∀ q, q ∈ l → length (f q) = k) →
  ParallelLMHead env ws (f <$> l) = Ok ((λ q, head_row ws (f q)) <$> l).
Proof.
  intros Hne Hws Hf. unfold ParallelLMHead.
  rewrite (omap_all_eq _ (λ w, (λ q, linear_row w None (f q)) <$> l)).
  2:{ intros w Hw. rewrite Forall_forall in Hws. by apply (linear_rows (mk_linear w None) f None n k); [apply Hws|]. }
  cbn [obind]. pose proof (zip_app_rows ((λ w q, linear_row w None (f q)) <$> ws) l) as Hz.
  rewrite <-list_fmap_compose in Hz. unfold compose in Hz. rewrite length_fmap, Hz.
  assert ((λ q : Q, concat ((λ y : Q → row R, y q) <$> ((λ w q, linear_row w None (f q)) <$> ws))) <$> l
    = (λ q, head_row ws (f q)) <$> l) as E.
  { apply list_fmap_ext. intros i q _. by rewrite <-list_fmap_compose. }
  destruct ws as [|w [|w' ws']]; [done| |by rewrite <-E].
  rewrite <-E. simpl. f_equal. apply list_fmap_ext. intros i q _. by rewrite app_nil_r.
Qed.
End rows.

(** ** The paged cache *)

Section paged.
Context {R : Type} `{!Numerics R}.

(** Storing at distinct slots inside the cache: every stored token is at its slot,
    the other slots are as they were. *)
Lemma store_kernel_spec (l : list ((heads R * heads R) * Z)) (c : kv_cache R) n :
  length (k_cache c) = n → length (v_cache c) = n → NoDup (l.*2) →
  Forall (λ x, (0 <= x.2 < Z.of_nat n)%Z) l →
  let c' := foldl (λ c '((k, v), slot), store_kvcache_kernel k v slot c) c l in
  length (k_cache c') = n ∧ length (v_cache c') = n ∧
  (∀ k v s, ((k, v), s) ∈ l → k_cache c' !! Z.to_nat s = Some k ∧ v_cache c' !! Z.to_nat s = Some v) ∧
  (∀ s, (0 <= s)%Z → s ∉ l.*2 → k_cache c' !! Z.to_nat s = k_cache c !! Z.to_nat s ∧
                                v_cache c' !! Z.to_nat s = v_cache c !! Z.to_nat s).
Proof.
  revert c. induction l as [|[[k v] s] l IH]; intros c Hk Hv Hnd Hl.
  { split_and!; try done. intros k v s Hin. by apply elem_of_nil in Hin. }
  rewrite fmap_cons in Hnd. apply NoDup_cons in Hnd as [Hs Hnd]. apply Forall_cons in Hl as [Hs0 Hl]. simpl in Hs, Hs0.
  cbn [foldl]. set (c1 := store_kvcache_kernel k v s c).
  assert (k_cache c1 = <[Z.to_nat s := k]> (k_cache c) ∧ v_cache c1 = <[Z.to_nat s := v]> (v_cache c)) as [E1 E2].
  { unfold c1, store_kvcache_kernel. by rewrite (proj2 (Z.eqb_neq s (-1))) by lia. }
  destruct (IH c1) as (L1 & L2 & Hin & Hout); [by rewrite E1, length_insert|by rewrite E2, length_insert|done|done|].
  split_and!; [done|done| |].
  - intros k' v' s' [[= -> -> ->]|H]%elem_of_cons; [|by apply Hin].
    destruct (Hout s ltac:(lia) Hs) as [-> ->]. rewrite E1, E2. split; apply list_lookup_insert_eq; lia.
  - intros s' Hs' Hn. rewrite fmap_cons in Hn. apply not_elem_of_cons in Hn as [Hne Hn].
    destruct (Hout s' Hs' Hn) as [-> ->]. rewrite E1, E2. simpl in Hne.
    split; apply list_lookup_insert_ne; lia.
Qed.

(** Reading a sequence of [len] tokens through its block table. *)
Lemma select_blocks_spec {A} (f : nat → heads A) bs (cache : list (heads A)) (table : list nat) (padded : list Z) len n :
  0 < bs → length cache = n * bs → take (length table) padded = Z.of_nat <$> table →
  cdiv len bs <= length table → Forall (λ b, b < n) table →
  (∀ p, p < len → cache !! (table !!! (p / bs) * bs + p mod bs) = Some (f p)) →
  ∃ blocks, select_blocks (Z.of_nat bs) cache (take (cdiv len bs) padded) = Ok blocks ∧
    take len blocks = f <$> seq 0 len.
Proof.
  intros Hbs Hc Ht Hlen Hb Hf.
  assert (take (cdiv len bs) padded = Z.of_nat <$> take (cdiv len bs) table) as ->.
  { rewrite fmap_take, <-Ht, take_take. f_equal. lia. }
  set (ids := take (cdiv len bs) table).
  assert (Forall (λ b, b < n) ids) as Hids by (by apply Forall_take).
  unfold select_blocks. rewrite omap_all_fmap.
  rewrite (omap_all_eq _ (λ b, take bs (drop (b * bs) cache))).
  2:{ intros b Hin. rewrite Forall_forall in Hids. specialize (Hids b Hin).
      rewrite (proj2 (Z.ltb_ge (Z.of_nat b) 0)), (proj2 (Z.leb_gt _ _)) by nia. cbn [orb oraise_if obind].
      do 3 f_equal; lia. }
  eexists. split; [done|]. apply list_eq. intros p. destruct (decide (p < len)) as [Hp|Hp].
  - rewrite lookup_take_lt by done. rewrite (concat_uniform_lookup bs); [|done|].
    + rewrite !list_lookup_fmap, lookup_seq_lt by done. simpl. rewrite <-(Hf p Hp).
      assert (p / bs < cdiv len bs) as Hq by (by apply cdiv_cover).
      unfold ids. rewrite lookup_take_lt by done.
      destruct (lookup_lt_is_Some_2 table (p / bs)) as [b Eb]; [lia|]. rewrite Eb. simpl.
      rewrite (list_lookup_total_correct _ _ _ Eb). rewrite lookup_take_lt by (apply Nat.mod_upper_bound; lia).
      by rewrite lookup_drop.
    + apply Forall_fmap, Forall_forall. intros b Hin. rewrite Forall_forall in Hids. specialize (Hids b Hin).
      simpl. rewrite length_take, length_drop. nia.
  - rewrite lookup_take_ge by lia. symmetry. apply lookup_ge_None. rewrite length_fmap, length_seq. lia.
Qed.
End paged.
