(* ===== verification/ModelSpec.v ===== *)
(** * ModelSpec: paged, batched, chunked inference is dense causal inference

    The reference [dense_model] runs the decoder over one whole token sequence with
    ordinary causal attention and no cache.  A model call over a batch of requests,
    each a span of its sequence past what its blocks already hold, answers for every
    query row the reference's hidden state at that position, and leaves the caches
    holding the keys and values of the span as well. *)
From S2P Require Import Prelude InvariantOps RunnerInput RunnerRun RunnerSpec Layers Linear LayerSpec Qwen3.
#[local] Open Scope nat_scope.

(** ** The reference model *)

Section dense.
Context {R : Type} `{!Numerics R} (cfg : model_config R).
Abbreviation geometry := (mc_attention cfg).
Abbreviation eps := (mc_eps cfg).

(** The hidden state of a token and, after the first layer, its residual. *)
Abbreviation row_state := (row R * option (row R))%type.

(** The query, key and value heads of a rank at one position. *)
Definition row_qkv (r : rank_layer R) (p : nat) (x : row R) : heads R * heads R * heads R :=
  let '(q, k, v) := split_qkv cfg (linear_row (weight (qkv_proj r)) (bias (qkv_proj r)) x) in
  let norm w h := match w with None => h | Some w => (RMSNorm true w eps h None).1 end in
  match rotary_row (mc_cos_sin_cache cfg) (Z.of_nat p) (norm (q_norm r) q) (norm (k_norm r) k) with
  | Ok (q, k) => (q, k, v)
  | Raise _ => ([], [], v)
  end.

Definition dense_keys (r : rank_layer R) (xs : list (row R)) : list (heads R) :=
  imap (λ p x, (row_qkv r p x).1.2) xs.
Definition dense_values (r : rank_layer R) (xs : list (row R)) : list (heads R) :=
  imap (λ p x, (row_qkv r p x).2) xs.

(** Causal attention: position [p] sees the positions up to itself. *)
Definition attention_row (r : rank_layer R) (xs : list (row R)) (p : nat) (x : row R) : row R :=
  concat (attend geometry (row_qkv r p x).1.1 (take (S p) (dense_keys r xs)) (take (S p) (dense_values r xs))).

(** The normalised input of a layer, and the residual it continues with. *)
Definition norm_in (l : decoder_layer R) (s : row_state) : row R * row R :=
  match s.2 with
  | None => (norm_row (input_layernorm l) eps s.1, s.1)
  | Some res => add_norm_row (input_layernorm l) eps s.1 res
  end.

Definition mlp_row (ranks : list (rank_layer R)) (h : row R) : row R :=
  row_parallel_row (down_proj <$> ranks)
    ((λ r, silu_and_mul (linear_row (weight (gate_up_proj r)) (bias (gate_up_proj r)) h)) <$> ranks).

Definition layer_inputs (l : decoder_layer R) (st : list row_state) : list (row R) := (λ s, (norm_in l s).1) <$> st.

Definition attention_out (l : decoder_layer R) (xs : list (row R)) (p : nat) (x : row R) : row R :=
  row_parallel_row (o_proj <$> layer_ranks l) ((λ r, attention_row r xs p x) <$> layer_ranks l).

Definition layer_row (l : decoder_layer R) (xs : list (row R)) (p : nat) (s : row_state) : row_state :=
  let h := add_norm_row (post_attention_layernorm l) eps (attention_out l xs p (norm_in l s).1) (norm_in l s).2 in
  (mlp_row (layer_ranks l) h.1, Some h.2).

Definition dense_layer (st : list row_state) (l : decoder_layer R) : list row_state :=
  imap (layer_row l (layer_inputs l st)) st.

Definition embed_states (m : qwen3 R) (ts : list Z) : list row_state :=
  (λ t, (embed_row (embed_tokens m) (mc_vocab_per_partition cfg) t, None)) <$> ts.

Definition final_row (m : qwen3 R) (s : row_state) : row R :=
  match s.2 with
  | None => norm_row (final_norm m) eps s.1
  | Some res => (add_norm_row (final_norm m) eps s.1 res).1
  end.

(** The hidden states of a whole sequence. *)
Definition dense_model (m : qwen3 R) (ts : list Z) : list (row R) :=
  final_row m <$> foldl dense_layer (embed_states m ts) (model_layers m).

(** The logits that follow a sequence. *)
Definition next_logits (m : qwen3 R) (ts : list Z) : row R :=
  head_row (lm_head m) (default [] (last (dense_model m ts))).

(** *** Causality *)

Lemma dense_keys_take r xs n : dense_keys r (take n xs) = take n (dense_keys r xs).
Proof. unfold dense_keys. apply imap_take. Qed.

Lemma dense_values_take r xs n : dense_values r (take n xs) = take n (dense_values r xs).
Proof. apply imap_take. Qed.

Lemma attention_row_take r xs n p x : p < n → attention_row r (take n xs) p x = attention_row r xs p x.
Proof.
  intros Hp. unfold attention_row. rewrite dense_keys_take, dense_values_take, !take_take.
  by rewrite Nat.min_l by lia.
Qed.

Lemma dense_layer_take l st n : dense_layer (take n st) l = take n (dense_layer st l).
Proof.
  unfold dense_layer. rewrite <-imap_take. apply imap_ext. intros p s Hs. unfold layer_row, attention_out.
  assert (p < n) as Hp.
  { apply lookup_lt_Some in Hs. rewrite length_take in Hs. lia. }
  unfold layer_inputs. rewrite fmap_take.
  assert ((λ r, attention_row r (take n (layer_inputs l st)) p (norm_in l s).1) <$> layer_ranks l
    = (λ r, attention_row r (layer_inputs l st) p (norm_in l s).1) <$> layer_ranks l) as H.
  { apply list_fmap_ext. intros i r _. by apply attention_row_take. }
  unfold layer_inputs in H. by rewrite H.
Qed.

Lemma dense_layers_take ls st n : foldl dense_layer (take n st) ls = take n (foldl dense_layer st ls).
Proof. revert st. induction ls as [|l ls IH]; intros st; [done|]. simpl. by rewrite dense_layer_take, IH. Qed.

(** The state of a position depends on the tokens up to it. *)
Lemma dense_model_take m ts n : dense_model m (take n ts) = take n (dense_model m ts).
Proof. unfold dense_model, embed_states. by rewrite fmap_take, dense_layers_take, fmap_take. Qed.

Lemma length_dense_layers ls st : length (foldl dense_layer st ls) = length st.
Proof. revert st. induction ls as [|l ls IH]; intros st; [done|]. simpl. rewrite IH. apply length_imap. Qed.

Lemma length_dense_model m ts : length (dense_model m ts) = length ts.
Proof. unfold dense_model, embed_states. by rewrite length_fmap, length_dense_layers, length_fmap. Qed.
(** The table covers the positions in use. *)
Lemma rotary_ok p q k :
  p < length (mc_cos_sin_cache cfg) → ∃ q' k', rotary_row (mc_cos_sin_cache cfg) (Z.of_nat p) q k = Ok (q', k').
Proof.
  intros Hp. unfold rotary_row, tensor_at. rewrite (proj2 (Z.ltb_ge (Z.of_nat p) 0)) by lia. cbv zeta.
  rewrite (proj2 (Z.ltb_ge (Z.of_nat p) 0)), Nat2Z.id by lia.
  destruct (lookup_lt_is_Some_2 _ _ Hp) as [cs ->]. cbn [obind]. destruct (halves cs). eauto.
Qed.

End dense.

(** ** Batches *)

(** One request of a batch: its tokens, its block table, and the span of positions
    the call computes; the positions before the span are in its blocks. *)
Record request := mk_request {
  rq_tokens : list Z;
  rq_table : list nat;
  rq_start : nat;
  rq_stop : nat;
}.

Abbreviation query := (request * nat)%type.

Definition queries (reqs : list request) : list query :=
  reqs ≫= λ rq, (λ p, (rq, p)) <$> seq (rq_start rq) (rq_stop rq - rq_start rq).

Lemma elem_of_queries reqs rq p :
  (rq, p) ∈ queries reqs ↔ rq ∈ reqs ∧ rq_start rq <= p < rq_stop rq.
Proof.
  unfold queries. rewrite list_elem_of_bind. split.
  - intros (rq' & Hin & Hrq). apply list_elem_of_fmap in Hin as (p' & [= -> ->] & Hp%elem_of_seq).
    split; [done|lia].
  - intros [Hrq Hp]. exists rq. split; [|done]. apply list_elem_of_fmap. exists p. split; [done|].
    apply elem_of_seq. lia.
Qed.

(** The physical slot of a position. *)
Definition slot (bs : nat) (q : query) : nat := rq_table q.1 !!! (q.2 / bs) * bs + q.2 mod bs.

Record request_ok (bs n : nat) (rq : request) : Prop := {
  ro_span : rq_start rq < rq_stop rq <= length (rq_tokens rq);
  ro_table : cdiv (rq_stop rq) bs <= length (rq_table rq);
  ro_blocks : Forall (λ b, b < n) (rq_table rq);
}.

(** A call that runs the requests over a cache of [n] blocks of [bs] slots: the
    inputs are their spans in order, every query sees its own prefix through its own
    table, and every slot written is written once and read by nobody else. *)
Record batch_call (bs n : nat) (reqs : list request) (c : model_call) : Prop := {
  bc_pos : 0 < bs;
  bc_requests : Forall (request_ok bs n) reqs;
  bc_nonempty : reqs ≠ [];
  bc_ids : input_ids c = (λ q : query, rq_tokens q.1 !!! q.2) <$> queries reqs;
  bc_positions : positions c = (λ q : query, Z.of_nat q.2) <$> queries reqs;
  bc_slots : slot_mapping (call_context c) = Some ((λ q, Z.of_nat (slot bs q)) <$> queries reqs);
  bc_lengths : query_context_lengths (call_context c) = Some ((λ q : query, Z.of_nat (S q.2)) <$> queries reqs);
  bc_tables : ∃ tables owners, block_tables (call_context c) = Some tables ∧
    query_sequence_ids (call_context c) = Some owners ∧
    Forall2 (λ o (q : query), ∃ padded, tensor_at tables o = Ok padded ∧
      take (length (rq_table q.1)) padded = Z.of_nat <$> rq_table q.1) owners (queries reqs);
  bc_distinct : NoDup (slot bs <$> queries reqs);
  bc_private : ∀ rq p, rq ∈ reqs → p < rq_start rq → slot bs (rq, p) ∉ slot bs <$> queries reqs;
}.

Lemma slot_lt bs n rq p : 0 < bs → request_ok bs n rq → p < rq_stop rq → slot bs (rq, p) < n * bs.
Proof.
  intros Hbs [_ Ht Hb] Hp. unfold slot. simpl. pose proof (cdiv_cover p (rq_stop rq) bs Hbs Hp).
  destruct (lookup_lt_is_Some_2 (rq_table rq) (p / bs)) as [b Eb]; [lia|].
  rewrite (list_lookup_total_correct _ _ _ Eb). rewrite Forall_lookup in Hb. specialize (Hb _ _ Eb). simpl in Hb.
  pose proof (Nat.mod_upper_bound p bs). nia.
Qed.

Lemma cdiv_mono a b d : 0 < d → a <= b → cdiv a d <= cdiv b d.
Proof. intros. unfold cdiv. apply Nat.Div0.div_le_mono. lia. Qed.

(** ** One rank's attention *)

Section attention.
Context {R : Type} `{!Numerics R} (cfg : model_config R).
Abbreviation geometry := (mc_attention cfg).
Hypothesis invariant : le_invariant (mc_linear cfg) = true.
Hypothesis geometry_ok : 0 < num_kv_heads geometry ∧ num_heads geometry mod num_kv_heads geometry = 0.
Context (bs n : nat) (block_size_ok : cache_block_size geometry = Z.of_nat bs).

(** The cache of a rank has the pool's size, and holds the first [len] keys and
    values of a request. *)
Definition cache_shape (c : kv_cache R) : Prop := length (k_cache c) = n * bs ∧ length (v_cache c) = n * bs.

Definition holds (r : rank_layer R) (xs : list (row R)) (c : kv_cache R) (rq : request) (len : nat) : Prop :=
  ∀ p, p < len → k_cache c !! slot bs (rq, p) = dense_keys cfg r xs !! p ∧
                 v_cache c !! slot bs (rq, p) = dense_values cfg r xs !! p.

(** The slots outside a call are untouched. *)
Definition untouched (qs : list query) (c c' : kv_cache R) : Prop :=
  ∀ s, s ∉ slot bs <$> qs → k_cache c' !! s = k_cache c !! s ∧ v_cache c' !! s = v_cache c !! s.

Lemma dense_keys_lookup r xs p x : xs !! p = Some x → dense_keys cfg r xs !! p = Some (row_qkv cfg r p x).1.2.
Proof. intros H. unfold dense_keys. by rewrite list_lookup_imap, H. Qed.

Lemma dense_values_lookup r xs p x : xs !! p = Some x → dense_values cfg r xs !! p = Some (row_qkv cfg r p x).2.
Proof. intros H. unfold dense_values. by rewrite list_lookup_imap, H. Qed.

(** A query reads its own prefix through the table. *)
Lemma attend_query_spec (c : kv_cache R) tables padded o rq p qh (K V : nat → heads R) :
  0 < bs → request_ok bs n rq → cache_shape c → p < rq_stop rq →
  tensor_at tables o = Ok padded → take (length (rq_table rq)) padded = Z.of_nat <$> rq_table rq →
  (∀ j, j <= p → k_cache c !! slot bs (rq, j) = Some (K j) ∧ v_cache c !! slot bs (rq, j) = Some (V j)) →
  attend_query geometry c tables qh o (Z.of_nat (S p)) =
    Ok (attend geometry qh (K <$> seq 0 (S p)) (V <$> seq 0 (S p))).
Proof.
  intros Hbs Hrq [Lk Lv] Hp Ht Htab Hkv. pose proof (ro_table _ _ _ Hrq) as Hlen. pose proof (ro_blocks _ _ _ Hrq) as Hb.
  pose proof (cdiv_mono (S p) (rq_stop rq) bs Hbs ltac:(lia)) as Hm.
  unfold attend_query. rewrite (proj2 (Z.ltb_ge _ 1)) by lia. cbn [oraise_if obind]. rewrite Ht. cbn [obind].
  rewrite block_size_ok.
  assert (Z.to_nat ((Z.of_nat (S p) + Z.of_nat bs - 1) `div` Z.of_nat bs) = cdiv (S p) bs) as ->.
  { unfold cdiv. replace (Z.of_nat (S p) + Z.of_nat bs - 1)%Z with (Z.of_nat (S p + bs - 1)) by lia.
    rewrite <-Nat2Z.inj_div. lia. }
  destruct (select_blocks_spec K bs (k_cache c) (rq_table rq) padded (S p) n) as (kb & -> & Ek); try done; [lia| |].
  { intros j Hj. apply Hkv. lia. }
  destruct (select_blocks_spec V bs (v_cache c) (rq_table rq) padded (S p) n) as (vb & -> & Ev); try done; [lia| |].
  { intros j Hj. apply Hkv. lia. }
  cbn [obind]. rewrite Nat2Z.id, Ek, Ev, !length_fmap, !length_seq, !Z.eqb_refl. done.
Qed.

Context (reqs : list request) (call : model_call) (Hcall : batch_call bs n reqs call).
Abbreviation Q := (queries reqs).

(** The inputs of the layer at each request's positions. *)
Context (X : request → list (row R)) (HX : ∀ rq, rq ∈ reqs → length (X rq) = length (rq_tokens rq)).

Lemma query_span q : q ∈ Q → q.1 ∈ reqs ∧ rq_start q.1 <= q.2 < rq_stop q.1 ∧ q.2 < length (X q.1).
Proof.
  destruct q as [rq p]. intros [Hrq Hp]%elem_of_queries. simpl.
  pose proof (bc_requests _ _ _ _ Hcall) as Hok. rewrite Forall_forall in Hok. pose proof (ro_span _ _ _ (Hok _ Hrq)).
  rewrite (HX _ Hrq). split_and!; [done|lia..].
Qed.

Lemma queries_nonempty : Q ≠ [].
Proof.
  destruct reqs as [|rq l] eqn:E; [by destruct (bc_nonempty _ _ _ _ Hcall)|].
  pose proof (bc_requests _ _ _ _ Hcall) as Hok. apply Forall_cons in Hok as [[Hs _ _] _].
  intros HQ. assert ((rq, rq_start rq) ∈ queries (rq :: l)) as Hin by (apply elem_of_queries; split; [left|lia]).
  rewrite HQ in Hin. by apply elem_of_nil in Hin.
Qed.

(** Storing the batch's keys and values extends what every request's blocks hold. *)
Lemma store_batch r c :
  cache_shape c → (∀ rq, rq ∈ reqs → holds r (X rq) c rq (rq_start rq)) →
  let qkv q := row_qkv cfg r q.2 (X q.1 !!! q.2) in
  ∃ c', store_kvcache ((λ q, (qkv q).1.2) <$> Q) ((λ q, (qkv q).2) <$> Q) ((λ q, Z.of_nat (slot bs q)) <$> Q) c = (Ok tt, c') ∧
    cache_shape c' ∧ (∀ rq, rq ∈ reqs → holds r (X rq) c' rq (rq_stop rq)) ∧ untouched Q c c'.
Proof.
  intros [Lk Lv] Hold qkv. unfold store_kvcache. rewrite !length_fmap.
  unfold mbind, bind, assert, raise_if. rewrite Z.eqb_refl. simpl. eexists. split; [done|].
  rewrite !zip_fmap_both. set (l := _ <$> Q).
  assert (l.*2 = Z.of_nat <$> (slot bs <$> Q)) as Hl2 by (unfold l; by rewrite <-!list_fmap_compose).
  destruct (store_kernel_spec l c (n * bs)) as (L1 & L2 & Hin & Hout); try done.
  { rewrite Hl2. apply NoDup_fmap_2; [apply _|]. apply Hcall. }
  { apply Forall_fmap, Forall_forall. intros [rq p] Hq. simpl. pose proof (query_span _ Hq) as (Hrq & Hp & _). simpl in *.
    pose proof (bc_requests _ _ _ _ Hcall) as Hok. rewrite Forall_forall in Hok.
    pose proof (slot_lt bs n rq p (bc_pos _ _ _ _ Hcall) (Hok _ Hrq) ltac:(lia)). lia. }
  set (c' := foldl _ c l) in *.
  assert (untouched Q c c') as Hun.
  { intros s Hs. destruct (Hout (Z.of_nat s) ltac:(lia)) as [E1 E2].
    - rewrite Hl2. intros (s' & Hs' & Hin')%list_elem_of_fmap. by simplify_eq.
    - by rewrite Nat2Z.id in E1, E2. }
  split_and!; [by split| |done]. intros rq Hrq p Hp.
  destruct (decide (p < rq_start rq)) as [Hlt|Hge].
  - destruct (Hun (slot bs (rq, p))) as [-> ->]; [by apply (bc_private _ _ _ _ Hcall)|]. by apply Hold.
  - assert ((rq, p) ∈ Q) as Hq by (apply elem_of_queries; split; [done|lia]).
    destruct (query_span _ Hq) as (_ & _ & Hlen). simpl in Hlen.
    destruct (Hin (qkv (rq, p)).1.2 (qkv (rq, p)).2 (Z.of_nat (slot bs (rq, p)))) as [E1 E2].
    { unfold l. apply list_elem_of_fmap. by exists (rq, p). }
    rewrite Nat2Z.id in E1, E2. rewrite E1, E2.
    destruct (lookup_lt_is_Some_2 (X rq) p Hlen) as [x Hx].
    rewrite (dense_keys_lookup _ _ _ _ Hx), (dense_values_lookup _ _ _ _ Hx). unfold qkv. simpl.
    by rewrite (list_lookup_total_correct _ _ _ Hx).
Qed.
Lemma seq_take {A} `{!Inhabited A} (l : list A) k :
  k <= length l → (λ j, l !!! j) <$> seq 0 k = take k l.
Proof.
  intros Hk. apply list_eq. intros j. rewrite list_lookup_fmap. destruct (decide (j < k)) as [Hj|Hj].
  - rewrite lookup_seq_lt, lookup_take_lt by done. simpl. symmetry. apply list_lookup_lookup_total_lt. lia.
  - rewrite lookup_take_ge, lookup_seq_ge by lia. done.
Qed.

Lemma omap_all_zip3 {B C D} (f : query → B) (h : B * (C * Z) → outcome D) (g : query → D) (len : query → Z)
    (P : C → query → Prop) owners l :
  Forall2 P owners l → (∀ o q, q ∈ l → P o q → h (f q, (o, len q)) = Ok (g q)) →
  omap_all h (zip (f <$> l) (zip owners (len <$> l))) = Ok (g <$> l).
Proof.
  intros HP Hh. apply omap_all_ok. revert Hh. induction HP as [|o q owners l Ho _ IH]; intros Hh; [constructor|].
  rewrite !fmap_cons. cbn [zip zip_with]. constructor; [apply Hh; [left|done]|].
  apply IH. intros o' q' Hq'. apply Hh. by right.
Qed.

(** Reading every query of the batch. *)
Lemma attend_batch r c (qh : query → heads R) :
  cache_shape c → (∀ rq, rq ∈ reqs → holds r (X rq) c rq (rq_stop rq)) →
  _invariant_paged_attention geometry (call_context call) (qh <$> Q) c =
    (Ok ((λ q, attend geometry (qh q) (take (S q.2) (dense_keys cfg r (X q.1))) (take (S q.2) (dense_values cfg r (X q.1))))
          <$> Q), c).
Proof.
  intros Hc Hh. destruct (bc_tables _ _ _ _ Hcall) as (tables & owners & Et & Eo & Hown).
  unfold _invariant_paged_attention. rewrite Eo, (bc_lengths _ _ _ _ Hcall), Et, !length_fmap, (Forall2_length _ _ _ Hown).
  destruct geometry_ok as [Hkv Hdiv].
  rewrite (bool_decide_eq_true_2 (length Q = length Q)), (bool_decide_eq_false_2 (num_kv_heads geometry = 0)),
    (bool_decide_eq_true_2 (num_heads geometry mod num_kv_heads geometry = 0)) by (done || lia).
  unfold mbind, bind, raise_if, get, lift, ret. cbn [negb orb]. cbv beta iota.
  rewrite (omap_all_zip3 qh _ (λ q, attend geometry (qh q) (take (S q.2) (dense_keys cfg r (X q.1)))
    (take (S q.2) (dense_values cfg r (X q.1)))) _ _ _ _ Hown).
  - rewrite bool_decide_eq_false_2; [done|]. intros E. by apply fmap_nil_inv, queries_nonempty in E.
  - intros o [rq p] Hq (padded & Hp & Htab). destruct (query_span _ Hq) as (Hrq & Hspan & Hlen). simpl in *.
    pose proof (bc_requests _ _ _ _ Hcall) as Hok. rewrite Forall_forall in Hok.
    assert (length (dense_keys cfg r (X rq)) = length (X rq)) as Lk by apply length_imap.
    assert (length (dense_values cfg r (X rq)) = length (X rq)) as Lv by apply length_imap.
    rewrite (attend_query_spec c tables padded o rq p (qh (rq, p)) (λ j, dense_keys cfg r (X rq) !!! j)
      (λ j, dense_values cfg r (X rq) !!! j)); try done.
    + by rewrite !seq_take by lia.
    + apply (bc_pos _ _ _ _ Hcall).
    + by apply Hok.
    + lia.
    + intros j Hj. destruct (Hh rq Hrq j) as [-> ->]; [lia|].
      split; apply list_lookup_lookup_total_lt; lia.
Qed.

(** ** One rank of one layer *)

Context (d : nat) (Hwidth : ∀ rq x, rq ∈ reqs → x ∈ X rq → length x = d).
Context (Hpositions : ∀ rq, rq ∈ reqs → length (rq_tokens rq) <= length (mc_cos_sin_cache cfg)).

Lemma query_input_row q : q ∈ Q → X q.1 !! q.2 = Some (X q.1 !!! q.2) ∧ length (X q.1 !!! q.2) = d.
Proof.
  intros Hq. destruct (query_span _ Hq) as (Hrq & _ & Hlen).
  pose proof (list_lookup_lookup_total_lt _ _ Hlen) as Hx. split; [done|].
  eapply Hwidth; [done|]. by eapply list_elem_of_lookup_2.
Qed.

(** The projected, normalised and rotated heads of the batch. *)
Lemma rotary_batch r :
  let parts := (λ q : query, split_qkv cfg (linear_row (weight (qkv_proj r)) (bias (qkv_proj r)) (X q.1 !!! q.2))) <$> Q in
  RotaryEmbedding (mc_cos_sin_cache cfg) ((λ q : query, Z.of_nat q.2) <$> Q)
    (norm_heads cfg (q_norm r) (parts.*1.*1)) (norm_heads cfg (k_norm r) (parts.*1.*2)) =
  Ok ((λ q, (row_qkv cfg r q.2 (X q.1 !!! q.2)).1.1) <$> Q, (λ q, (row_qkv cfg r q.2 (X q.1 !!! q.2)).1.2) <$> Q).
Proof.
  intros parts.
  set (norm w (h : heads R) := match w with None => h | Some w => (RMSNorm true w (mc_eps cfg) h None).1 end).
  assert (∀ w (l : list (heads R)), norm_heads cfg w l = norm w <$> l) as Hn.
  { intros [w|] l; unfold norm_heads; [by rewrite invariant|]. symmetry. apply list_fmap_id. }
  rewrite !Hn. unfold parts. rewrite <-!list_fmap_compose. unfold RotaryEmbedding. rewrite !zip_fmap_both, omap_all_fmap.
  rewrite (omap_all_eq _ (λ q, (row_qkv cfg r q.2 (X q.1 !!! q.2)).1)).
  - cbn [obind]. by rewrite <-!list_fmap_compose.
  - intros q Hq. destruct (query_span _ Hq) as (Hrq & _ & Hlen). rewrite (HX _ Hrq) in Hlen. specialize (Hpositions _ Hrq).
    unfold row_qkv, compose. destruct (split_qkv cfg _) as [[qq kk] vv]. cbn [fst snd].
    destruct (rotary_ok cfg q.2 (norm (q_norm r) qq) (norm (k_norm r) kk)) as (q' & k' & E); [lia|].
    unfold norm in *. by rewrite !E.
Qed.

Lemma rank_attention_spec r c n_qkv :
  weight_shape (weight (qkv_proj r)) n_qkv d → cache_shape c →
  (∀ rq, rq ∈ reqs → holds r (X rq) c rq (rq_start rq)) →
  ∃ c', rank_attention cfg (call_context call) (positions call) ((λ q, X q.1 !!! q.2) <$> Q) r c =
      (Ok ((λ q, attention_row cfg r (X q.1) q.2 (X q.1 !!! q.2)) <$> Q), c') ∧
    cache_shape c' ∧ (∀ rq, rq ∈ reqs → holds r (X rq) c' rq (rq_stop rq)) ∧ untouched Q c c'.
Proof.
  intros Hw Hc Hold. destruct (store_batch r c Hc Hold) as (c' & Es & Hc' & Hnew & Hun). exists c'.
  split; [|done]. unfold rank_attention, ColumnParallelLinear, mbind, bind, lift.
  rewrite (linear_rows _ invariant _ _ _ n_qkv d) by (done || (intros q Hq; by apply query_input_row)).
  cbv beta iota zeta. rewrite <-(list_fmap_compose _ (split_qkv cfg)). unfold compose.
  rewrite (bc_positions _ _ _ _ Hcall), rotary_batch. cbn [fst snd].
  unfold Attention, mbind, bind, get. destruct Hc as [Lk Lv].
  assert (0 < n * bs) as Hpos.
  { destruct Q as [|[rq p] l] eqn:EQ; [by destruct queries_nonempty|].
    assert ((rq, p) ∈ Q) as Hq by (rewrite EQ; left). destruct (query_span _ Hq) as (Hrq & Hp & _). simpl in Hp.
    pose proof (bc_requests _ _ _ _ Hcall) as Hok. rewrite Forall_forall in Hok.
    pose proof (slot_lt bs n rq p (bc_pos _ _ _ _ Hcall) (Hok _ Hrq) ltac:(lia)). lia. }
  rewrite !bool_decide_eq_false_2 by lia. cbn [negb andb]. rewrite (bc_slots _ _ _ _ Hcall).
  assert (((λ q : query, split_qkv cfg (linear_row (weight (qkv_proj r)) (bias (qkv_proj r)) (X q.1 !!! q.2))) <$> Q).*2
    = (λ q, (row_qkv cfg r q.2 (X q.1 !!! q.2)).2) <$> Q) as ->.
  { rewrite <-list_fmap_compose. apply list_fmap_ext. intros i q _. unfold compose, row_qkv.
    destruct (split_qkv cfg _) as [[qq kk] vv]. by destruct (rotary_row _ _ _ _) as [[]|]. }
  rewrite Es. destruct (bc_tables _ _ _ _ Hcall) as (tables & owners & Et & Eo & Hown).
  rewrite invariant, Et, bool_decide_eq_true_2 by done. cbn [andb].
  rewrite (attend_batch r c' _ Hc' Hnew). unfold ret. rewrite <-list_fmap_compose. done.
Qed.
End attention.

(** ** Shapes *)

Section shapes.
Context {R : Type} `{!Numerics R} (cfg : model_config R) (d inter : nat).
Abbreviation geometry := (mc_attention cfg).
Abbreviation row_state := (row R * option (row R))%type.

(** The shards of one rank fit the hidden size [d] and each other. *)
Record rank_wf (r : rank_layer R) : Prop := {
  rw_qkv : weight_shape (weight (qkv_proj r))
    ((num_heads geometry + 2 * num_kv_heads geometry) * head_dim geometry) d;
  rw_o : weight_shape (weight (o_proj r)) d (num_heads geometry * head_dim geometry);
  rw_gate_up : weight_shape (weight (gate_up_proj r)) (2 * inter) d;
  rw_down : weight_shape (weight (down_proj r)) d inter;
}.

Definition layer_wf (l : decoder_layer R) : Prop := layer_ranks l ≠ [] ∧ ∀ r, r ∈ layer_ranks l → rank_wf r.

(** An even head size, as wide as the rotation table. *)
Definition rotary_wf : Prop :=
  Nat.Even (head_dim geometry) ∧ Forall (λ cs, length cs = head_dim geometry) (mc_cos_sin_cache cfg).

Lemma length_reduce_row (ys : list (row R)) k :
  ys ≠ [] → Forall (λ y, length y = k) ys → length (reduce_row ys) = k.
Proof.
  intros Hne H. destruct H as [|y [|y' ys] Hy]; [done|done|]. simpl. by rewrite length_imap.
Qed.

Lemma length_row_parallel_row {I} (ranks : list I) (P : I → linear_params R) (f : I → row R) k :
  ranks ≠ [] → (∀ r, r ∈ ranks → length (weight (P r)) = k) →
  length (row_parallel_row (P <$> ranks) (f <$> ranks)) = k.
Proof.
  intros Hne Hw. unfold row_parallel_row. apply length_reduce_row.
  - destruct ranks; [done|]. simpl. done.
  - rewrite zip_fmap_both, length_fmap, zip_fmap_r, <-list_fmap_compose.
    apply Forall_fmap, Forall_forall. intros [i r] Hir. simpl. rewrite length_linear_row. apply Hw.
    apply list_elem_of_lookup in Hir as [j Hj]. apply lookup_zip_Some in Hj as [_ Hj]. by eapply list_elem_of_lookup_2.
Qed.

Lemma view_heads_shape k h x :
  k * h <= length x → length (view_heads k h x) = k ∧ Forall (λ y : row R, length y = h) (view_heads k h x).
Proof.
  revert x. induction k as [|k IH]; intros x Hx; [by split; [|constructor]|]. simpl.
  destruct (IH (drop h x)) as [H1 H2]; [rewrite length_drop; lia|].
  split; [by rewrite H1|]. constructor; [rewrite length_take; lia|done].
Qed.

Lemma length_halves {A} (x : list A) h : Nat.Even h → length x = h → length (halves x).1 = h / 2 ∧ length (halves x).2 = h / 2.
Proof.
  intros [m Hm] Hx. unfold halves. cbn [fst snd]. rewrite length_take, length_drop, Hx.
  assert (Nat.div2 (S h) = m) as ->.
  { subst h. rewrite Nat.div2_succ_double. done. }
  assert (h / 2 = m) as -> by (subst h; rewrite Nat.mul_comm, Nat.div_mul; lia). lia.
Qed.

Lemma rotary_shape p q k q' k' :
  rotary_wf → Forall (λ y, length y = head_dim geometry) q →
  rotary_row (mc_cos_sin_cache cfg) p q k = Ok (q', k') →
  length q' = length q ∧ Forall (λ y, length y = head_dim geometry) q'.
Proof.
  intros [Heven Hcs] Hq H. apply obind_ok in H as (cs & Hc & H).
  assert (length cs = head_dim geometry) as Lcs.
  { unfold tensor_at in Hc. rewrite Forall_lookup in Hcs. repeat case_match; simplify_eq; by eapply Hcs. }
  destruct (length_halves cs _ Heven Lcs) as [L1 L2]. destruct (halves cs) as [cos sin]. cbn [fst snd] in L1, L2.
  injection H as <- _. unfold apply_rotary_emb. split; [apply length_fmap|].
  apply Forall_fmap. eapply Forall_impl; [exact Hq|]. intros y Hy. unfold compose. cbv beta in Hy |- *.
  destruct (length_halves (n_float <$> y) (head_dim geometry) Heven) as [M1 M2]; [by rewrite length_fmap|].
  destruct (halves (n_float <$> y)) as [y1 y2]. cbn [fst snd] in M1, M2.
  cbv beta iota zeta. rewrite length_fmap, length_app, !length_zip_with. destruct Heven as [m Hm].
  assert (head_dim geometry / 2 = m) as E by (rewrite Hm, Nat.mul_comm, Nat.div_mul; lia). lia.
Qed.

Lemma row_qkv_shape r p x :
  rotary_wf → rank_wf r → p < length (mc_cos_sin_cache cfg) →
  length (row_qkv cfg r p x).1.1 = num_heads geometry ∧
  Forall (λ y, length y = head_dim geometry) (row_qkv cfg r p x).1.1.
Proof.
  intros Hrot Hr Hp. unfold row_qkv, split_qkv.
  set (lx := linear_row (weight (qkv_proj r)) (bias (qkv_proj r)) x).
  assert (length lx = (num_heads geometry + 2 * num_kv_heads geometry) * head_dim geometry) as Lx.
  { unfold lx. rewrite length_linear_row. apply (ws_rows _ _ _ (rw_qkv _ Hr)). }
  destruct (view_heads_shape (num_heads geometry) (head_dim geometry) (take (num_heads geometry * head_dim geometry) lx))
    as [L1 F1]; [rewrite length_take; nia|].
  set (qh := view_heads _ _ (take (num_heads geometry * head_dim geometry) lx)) in *.
  set (kh := view_heads _ _ (take _ (drop _ lx))).
  set (norm w (h : heads R) := match w with None => h | Some w => (RMSNorm true w (mc_eps cfg) h None).1 end).
  assert (length (norm (q_norm r) qh) = num_heads geometry ∧ Forall (λ y, length y = head_dim geometry) (norm (q_norm r) qh)) as [L2 F2].
  { unfold norm. destruct (q_norm r) as [w|]; [|done].
    pose proof (norm_rows w (mc_eps cfg) id (head_dim geometry) qh) as Hn. rewrite list_fmap_id in Hn.
    rewrite Hn by (by apply Forall_forall). cbn [fst]. split; [by rewrite length_fmap|].
    apply Forall_fmap. eapply Forall_impl; [exact F1|]. intros y Hy. simpl. by rewrite length_norm_row. }
  destruct (rotary_ok cfg p (norm (q_norm r) qh) (norm (k_norm r) kh) Hp) as (q' & k' & E).
  unfold norm in E at 1 2. rewrite E. cbn [fst]. destruct (rotary_shape _ _ _ _ _ Hrot F2 E) as [-> ?]. done.
Qed.

Lemma length_concat_heads (l : heads R) k : Forall (λ y, length y = k) l → length (concat l) = length l * k.
Proof. induction 1 as [|y l Hy _ IH]; [done|]. simpl. rewrite length_app, IH, Hy. lia. Qed.

Lemma length_attention_row r xs p x :
  rotary_wf → rank_wf r → p < length (mc_cos_sin_cache cfg) →
  length (attention_row cfg r xs p x) = num_heads geometry * head_dim geometry.
Proof.
  intros Hrot Hr Hp. destruct (row_qkv_shape r p x Hrot Hr Hp) as [Lq Fq]. unfold attention_row, attend.
  rewrite (length_concat_heads _ (head_dim geometry)); [by rewrite length_imap, Lq|].
  apply Forall_lookup. intros i y Hy. rewrite list_lookup_imap in Hy. apply fmap_Some in Hy as (z & Hz & ->).
  unfold attend_head. rewrite length_fmap, length_seq, length_fmap. rewrite Forall_lookup in Fq. by eapply Fq.
Qed.

Definition state_ok (s : row_state) : Prop := length s.1 = d.

Lemma length_norm_in l s : state_ok s → length (norm_in cfg l s).1 = d.
Proof.
  intros Hs. unfold norm_in. destruct s.2; cbn [fst]; [|by rewrite length_norm_row].
  unfold add_norm_row. by rewrite (proj1 (length_rms_kernel _ _ _ _)).
Qed.

Lemma layer_row_ok l xs p s : layer_wf l → state_ok (layer_row cfg l xs p s).
Proof.
  intros [Hne Hr]. unfold state_ok, layer_row. cbn [fst]. unfold mlp_row.
  apply length_row_parallel_row; [done|]. intros r Hin. apply (ws_rows _ _ _ (rw_down _ (Hr r Hin))).
Qed.

Lemma dense_layer_ok l st : layer_wf l → Forall state_ok (dense_layer cfg st l).
Proof.
  intros Hl. apply Forall_lookup. intros p s. unfold dense_layer. rewrite list_lookup_imap.
  intros (s0 & _ & ->)%fmap_Some. by apply layer_row_ok.
Qed.

Lemma length_silu_and_mul (x : row R) : length x = 2 * inter → length (silu_and_mul x) = inter.
Proof.
  intros Hx. unfold silu_and_mul. destruct (length_halves x (2 * inter)) as [L1 L2]; [by exists inter|done|].
  destruct (halves x) as [g v]. cbn [fst snd] in *. rewrite length_zip_with.
  rewrite (Nat.mul_comm 2), Nat.div_mul in L1, L2 by lia. lia.
Qed.
End shapes.

(** ** Ranks, layers and the model *)

Lemma on_ranks_spec {S A B} (f : A → M S B) (g : A → B) (Pre Post : A → S → Prop) (U : S → S → Prop) xs ss :
  (∀ x s, x ∈ xs → Pre x s → ∃ s', f x s = (Ok (g x), s') ∧ Post x s' ∧ U s s') →
  Forall2 Pre xs ss →
  ∃ ss', on_ranks f xs ss = (Ok (g <$> xs), ss') ∧ Forall2 Post xs ss' ∧ Forall2 U ss ss'.
Proof.
  intros Hf H. induction H as [|x s xs ss Hx _ IH].
  - exists []. by split_and!; [|constructor|constructor].
  - destruct (Hf x s ltac:(left) Hx) as (s' & E & Hpost & HU).
    destruct IH as (ss' & E' & Hp' & HU'); [intros; apply Hf; [by right|done]|].
    exists (s' :: ss'). simpl. rewrite E, E'. split_and!; [done|by constructor..].
Qed.

Section model.
Context {R : Type} `{!Numerics R} (cfg : model_config R) (d inter bs n : nat).
Abbreviation geometry := (mc_attention cfg).
Abbreviation row_state := (row R * option (row R))%type.
#[local] Instance row_state_inhabited : Inhabited row_state := populate ([], None).

(** The invariant mode, over a well-formed geometry and rotation table. *)
Record config_ok : Prop := {
  cf_invariant : le_invariant (mc_linear cfg) = true;
  cf_geometry : 0 < num_kv_heads geometry ∧ num_heads geometry mod num_kv_heads geometry = 0;
  cf_block_size : cache_block_size geometry = Z.of_nat bs;
  cf_rotary : rotary_wf cfg;
}.
Hypothesis config : config_ok.

Context (reqs : list request) (call : model_call) (Hcall : batch_call bs n reqs call).
Hypothesis positions_ok : ∀ rq, rq ∈ reqs → length (rq_tokens rq) <= length (mc_cos_sin_cache cfg).
Abbreviation Q := (queries reqs).

(** The caches of one layer: one per rank, of the pool's size, holding what the
    layer computes at the first positions of every request. *)
Definition rank_holds (X : request → list (row R)) (len : request → nat) (r : rank_layer R) (c : kv_cache R) : Prop :=
  cache_shape bs n c ∧ ∀ rq, rq ∈ reqs → holds cfg bs r (X rq) c rq (len rq).

(** The state of every request before a layer. *)
Record states_ok (st : request → list row_state) : Prop := {
  so_length : ∀ rq, rq ∈ reqs → length (st rq) = length (rq_tokens rq);
  so_width : ∀ rq, rq ∈ reqs → Forall (state_ok d) (st rq);
}.

Definition cell (st : request → list row_state) (q : query) : row_state := st q.1 !!! q.2.

(** The residual is there for every query or for none. *)
Definition residual_ok (st : request → list row_state) (residual : option (matrix R)) : Prop :=
  (residual = None ∧ ∀ q, q ∈ Q → (cell st q).2 = None) ∨
  ∃ f, residual = Some (f <$> Q) ∧ ∀ q, q ∈ Q → (cell st q).2 = Some (f q).

Lemma cell_lookup st q : states_ok st → q ∈ Q → st q.1 !! q.2 = Some (cell st q) ∧ state_ok d (cell st q).
Proof.
  intros Hst Hq. destruct q as [rq p]. pose proof Hq as [Hrq Hp]%elem_of_queries.
  pose proof (bc_requests _ _ _ _ Hcall) as Hok. rewrite Forall_forall in Hok. pose proof (ro_span _ _ _ (Hok _ Hrq)).
  assert (st rq !! p = Some (cell st (rq, p))) as Hl.
  { apply list_lookup_lookup_total_lt. simpl. rewrite (so_length _ Hst _ Hrq). lia. }
  split; [done|]. pose proof (so_width _ Hst _ Hrq) as Hw. rewrite Forall_lookup in Hw. by eapply Hw.
Qed.

Lemma layer_inputs_cell l st q :
  states_ok st → q ∈ Q → layer_inputs cfg l (st q.1) !!! q.2 = (norm_in cfg l (cell st q)).1.
Proof.
  intros Hst Hq. destruct (cell_lookup st q Hst Hq) as [Hl _]. apply list_lookup_total_correct.
  unfold layer_inputs. by rewrite list_lookup_fmap, Hl.
Qed.

(** The input norm of a batch. *)
Lemma norm_in_rows l st residual :
  states_ok st → residual_ok st residual →
  (match residual with
   | None => ((RMSNorm true (input_layernorm l) (mc_eps cfg) ((λ q, (cell st q).1) <$> Q) None).1,
              Some ((λ q, (cell st q).1) <$> Q))
   | Some _ => RMSNorm true (input_layernorm l) (mc_eps cfg) ((λ q, (cell st q).1) <$> Q) residual
   end) = ((λ q, (norm_in cfg l (cell st q)).1) <$> Q, Some ((λ q, (norm_in cfg l (cell st q)).2) <$> Q)).
Proof.
  intros Hst Hres. assert (∀ q, q ∈ Q → length (cell st q).1 = d) as Hd by (intros q Hq; by apply cell_lookup).
  destruct Hres as [[-> Hn]|(f & -> & Hs)].
  - rewrite (norm_rows _ _ _ d) by done. cbn [fst].
    f_equal; [|f_equal]; apply list_fmap_ext; intros i q Hq%list_elem_of_lookup_2; unfold norm_in; by rewrite Hn.
  - rewrite (add_norm_rows _ _ _ _ d) by done.
    f_equal; [|f_equal]; apply list_fmap_ext; intros i q Hq%list_elem_of_lookup_2; unfold norm_in; by rewrite Hs.
Qed.

Lemma dense_layer_states l st :
  layer_wf cfg d inter l → states_ok st → states_ok (λ rq, dense_layer cfg (st rq) l).
Proof.
  intros Hl Hst. split; intros rq Hrq.
  - unfold dense_layer. rewrite length_imap. by apply Hst.
  - by apply (dense_layer_ok cfg d inter).
Qed.

Lemma dense_layer_cell l st q :
  states_ok st → q ∈ Q →
  cell (λ rq, dense_layer cfg (st rq) l) q = layer_row cfg l (layer_inputs cfg l (st q.1)) q.2 (cell st q).
Proof.
  intros Hst Hq. destruct (cell_lookup st q Hst Hq) as [Hl _]. unfold cell at 1. apply list_lookup_total_correct.
  unfold dense_layer. by rewrite list_lookup_imap, Hl.
Qed.

(** Attention over all ranks. *)
Lemma attention_batch l st cs :
  layer_wf cfg d inter l → states_ok st →
  Forall2 (rank_holds (λ rq, layer_inputs cfg l (st rq)) rq_start) (layer_ranks l) cs →
  ∃ cs', Qwen3Attention cfg (call_context call) (positions call) (layer_ranks l)
      ((λ q, (norm_in cfg l (cell st q)).1) <$> Q) cs =
      (Ok ((λ q, attention_out cfg l (layer_inputs cfg l (st q.1)) q.2 (norm_in cfg l (cell st q)).1) <$> Q), cs') ∧
    Forall2 (rank_holds (λ rq, layer_inputs cfg l (st rq)) rq_stop) (layer_ranks l) cs' ∧
    Forall2 (untouched bs Q) cs cs'.
Proof.
  intros [Hne Hr] Hst Hcs. destruct config as [Hinv Hgeo Hbs Hrot].
  set (X rq := layer_inputs cfg l (st rq)) in *.
  assert (∀ rq, rq ∈ reqs → length (X rq) = length (rq_tokens rq)) as HX.
  { intros rq Hrq. unfold X, layer_inputs. rewrite length_fmap. by apply Hst. }
  assert (∀ rq x, rq ∈ reqs → x ∈ X rq → length x = d) as Hw.
  { intros rq x Hrq (s & -> & Hs)%list_elem_of_fmap. apply length_norm_in.
    pose proof (so_width _ Hst _ Hrq) as Hf. rewrite Forall_forall in Hf. by apply Hf. }
  assert ((λ q, (norm_in cfg l (cell st q)).1) <$> Q = (λ q : query, X q.1 !!! q.2) <$> Q) as ->.
  { apply list_fmap_ext. intros i q Hq%list_elem_of_lookup_2. symmetry. by apply layer_inputs_cell. }
  destruct (on_ranks_spec (rank_attention cfg (call_context call) (positions call) ((λ q : query, X q.1 !!! q.2) <$> Q))
    (λ r, (λ q, attention_row cfg r (X q.1) q.2 (X q.1 !!! q.2)) <$> Q)
    (rank_holds X rq_start) (rank_holds X rq_stop) (untouched bs Q) (layer_ranks l) cs) as (cs' & E & Hpost & HU).
  { intros r c Hin [Hc Hh]. 
    destruct (rank_attention_spec cfg Hinv Hgeo bs n Hbs reqs call Hcall X HX d Hw positions_ok r c _ (rw_qkv _ _ _ _ (Hr r Hin)) Hc Hh)
      as (c' & Ec & Hc' & Hh' & Hu). exists c'. split; [exact Ec|]. split; [by split|done]. }
  { exact Hcs. }
  exists cs'. split; [|by split]. unfold Qwen3Attention, mbind, bind, lift. rewrite E.
  rewrite (row_parallel_rows _ Hinv (layer_ranks l) o_proj (λ r q, attention_row cfg r (X q.1) q.2 (X q.1 !!! q.2))
    d (num_heads geometry * head_dim geometry)).
  - do 2 f_equal. apply list_fmap_ext. intros i q Hq%list_elem_of_lookup_2. unfold attention_out. fold (X q.1).
    by rewrite (layer_inputs_cell l st q Hst Hq : X q.1 !!! q.2 = _).
  - done.
  - intros r Hin. apply (rw_o _ _ _ _ (Hr r Hin)).
  - intros r q Hin Hq. apply (length_attention_row cfg d inter); [done|by apply Hr|].
    destruct q as [rq p]. apply elem_of_queries in Hq as [Hrq Hp]. simpl in *.
    pose proof (bc_requests _ _ _ _ Hcall) as Hok. rewrite Forall_forall in Hok. pose proof (ro_span _ _ _ (Hok _ Hrq)).
    specialize (positions_ok _ Hrq). lia.
Qed.

(** The MLP of a batch. *)
Lemma mlp_batch l (f : query → row R) :
  layer_wf cfg d inter l → (∀ q, q ∈ Q → length (f q) = d) →
  Qwen3MLP cfg (layer_ranks l) (f <$> Q) = Ok ((λ q, mlp_row (layer_ranks l) (f q)) <$> Q).
Proof.
  intros [Hne Hr] Hf. pose proof (cf_invariant config) as Hinv. unfold Qwen3MLP.
  rewrite (omap_all_eq _ (λ r, (λ q, silu_and_mul (linear_row (weight (gate_up_proj r)) (bias (gate_up_proj r)) (f q))) <$> Q)).
  - cbn [obind]. rewrite (row_parallel_rows _ Hinv (layer_ranks l) down_proj
      (λ r q, silu_and_mul (linear_row (weight (gate_up_proj r)) (bias (gate_up_proj r)) (f q))) d inter); try done.
    + intros r Hin. apply (rw_down _ _ _ _ (Hr r Hin)).
    + intros r q Hin Hq. apply length_silu_and_mul. rewrite length_linear_row.
      apply (ws_rows _ _ _ (rw_gate_up _ _ _ _ (Hr r Hin))).
  - intros r Hin. unfold rank_mlp, ColumnParallelLinear.
    rewrite (linear_rows _ Hinv _ _ _ _ d _ (rw_gate_up _ _ _ _ (Hr r Hin)) Hf). cbn [obind].
    unfold SiluAndMul. by rewrite <-list_fmap_compose.
Qed.

Lemma layer_batch l st residual cs :
  layer_wf cfg d inter l → states_ok st → residual_ok st residual →
  Forall2 (rank_holds (λ rq, layer_inputs cfg l (st rq)) rq_start) (layer_ranks l) cs →
  let st' rq := dense_layer cfg (st rq) l in
  ∃ residual' cs', Qwen3DecoderLayer cfg (call_context call) (positions call) l ((λ q, (cell st q).1) <$> Q) residual cs =
      (Ok ((λ q, (cell st' q).1) <$> Q, residual'), cs') ∧
    residual_ok st' residual' ∧
    Forall2 (rank_holds (λ rq, layer_inputs cfg l (st rq)) rq_stop) (layer_ranks l) cs' ∧
    Forall2 (untouched bs Q) cs cs'.
Proof.
  intros Hl Hst Hres Hcs st'. destruct (attention_batch l st cs Hl Hst Hcs) as (cs' & Ea & Hpost & HU).
  set (A q := attention_out cfg l (layer_inputs cfg l (st q.1)) q.2 (norm_in cfg l (cell st q)).1) in *.
  set (H q := add_norm_row (post_attention_layernorm l) (mc_eps cfg) (A q) (norm_in cfg l (cell st q)).2).
  exists (Some ((λ q, (H q).2) <$> Q)), cs'. split; [|split; [|done]].
  2:{ right. exists (λ q, (H q).2). split; [done|]. intros q Hq. unfold st'. by rewrite dense_layer_cell. }
  unfold Qwen3DecoderLayer. rewrite (cf_invariant config), (norm_in_rows l st residual Hst Hres).
  unfold mbind, bind. rewrite Ea. unfold lift.
  assert (∀ q, q ∈ Q → length (A q) = d) as HA.
  { intros q Hq. destruct Hl as [Hne Hr]. unfold A, attention_out. apply length_row_parallel_row; [done|].
    intros r Hin. apply (ws_rows _ _ _ (rw_o _ _ _ _ (Hr r Hin))). }
  rewrite (add_norm_rows _ _ _ _ d) by done. cbv beta iota zeta.
  pose proof (mlp_batch l (λ q, (H q).1) Hl) as Em. unfold H in Em at 1 2. rewrite Em; clear Em.
  2:{ intros q Hq. unfold H, add_norm_row. rewrite (proj1 (length_rms_kernel _ _ _ _)). by apply HA. }
  unfold ret. do 3 f_equal. apply list_fmap_ext. intros i q Hq%list_elem_of_lookup_2.
  unfold st'. by rewrite dense_layer_cell.
Qed.
(** The caches of a model at the spans [len]: layer by layer. *)
Fixpoint caches_hold (len : request → nat) (ls : list (decoder_layer R)) (st : request → list row_state)
    (css : list (list (kv_cache R))) : Prop :=
  match ls, css with
  | [], [] => True
  | l :: ls, cs :: css =>
      Forall2 (rank_holds (λ rq, layer_inputs cfg l (st rq)) len) (layer_ranks l) cs ∧
      caches_hold len ls (λ rq, dense_layer cfg (st rq) l) css
  | _, _ => False
  end.

Lemma run_layers_spec ls st residual css :
  Forall (layer_wf cfg d inter) ls → states_ok st → residual_ok st residual → caches_hold rq_start ls st css →
  let st' rq := foldl (dense_layer cfg) (st rq) ls in
  ∃ residual' css', run_layers cfg (call_context call) (positions call) ls ((λ q, (cell st q).1) <$> Q) residual css =
      (Ok ((λ q, (cell st' q).1) <$> Q, residual'), css') ∧
    states_ok st' ∧ residual_ok st' residual' ∧ caches_hold rq_stop ls st css' ∧
    Forall2 (Forall2 (untouched bs Q)) css css'.
Proof.
  intros Hls. revert st residual css. induction Hls as [|l ls Hl Hls IH]; intros st residual css Hst Hres Hcs; simpl.
  - destruct css; [|done]. exists residual, []. by split_and!.
  - destruct css as [|cs css]; [done|]. destruct Hcs as [Hc Hcs].
    destruct (layer_batch l st residual cs Hl Hst Hres Hc) as (res1 & cs' & E & Hres1 & Hc' & HU).
    rewrite E. destruct (IH _ res1 css (dense_layer_states l st Hl Hst) Hres1 Hcs) as (res' & css' & E' & H1 & H2 & H3 & H4).
    rewrite E'. exists res', (cs' :: css'). split; [done|]. split; [done|]. split; [done|].
    split; [by split|by constructor].
Qed.
End model.

(** ** What one slot holds *)

Section slots.
Context {R : Type} `{!Numerics R} (cfg : model_config R) (bs n : nat).
Abbreviation row_state := (row R * option (row R))%type.

(** Slot [s] holds, in every layer and rank, the key and value of the last token of
    a sequence whose states before the layers are [st]. *)
Fixpoint slot_holds_layers (ls : list (decoder_layer R)) (st : list row_state) (s : nat)
    (css : list (list (kv_cache R))) : Prop :=
  match ls, css with
  | [], [] => True
  | l :: ls, cs :: css =>
      Forall2 (λ r c, k_cache c !! s = last (dense_keys cfg r (layer_inputs cfg l st)) ∧
                      v_cache c !! s = last (dense_values cfg r (layer_inputs cfg l st))) (layer_ranks l) cs ∧
      slot_holds_layers ls (dense_layer cfg st l) s css
  | _, _ => False
  end.

Definition slot_holds (m : qwen3 R) (ts : list Z) (s : nat) (css : list (list (kv_cache R))) : Prop :=
  slot_holds_layers (model_layers m) (embed_states cfg m ts) s css.

(** Every layer has a cache of the pool's size for every rank. *)
Definition caches_shape (ls : list (decoder_layer R)) (css : list (list (kv_cache R))) : Prop :=
  Forall2 (λ l cs, Forall2 (λ _ c, cache_shape bs n c) (layer_ranks l) cs) ls css.

Lemma last_take {A} (l : list A) p : p < length l → last (take (S p) l) = l !! p.
Proof.
  intros Hp. rewrite last_lookup, length_take, Nat.min_l by lia. simpl. apply lookup_take_lt. lia.
Qed.

Lemma slot_holds_untouched ls st s qs css css' :
  s ∉ slot bs <$> qs → Forall2 (Forall2 (untouched bs qs)) css css' →
  slot_holds_layers ls st s css → slot_holds_layers ls st s css'.
Proof.
  intros Hs HU. revert ls st. induction HU as [|cs cs' css css' Hc _ IH]; intros [|l ls] st; try done. simpl.
  intros [H1 H2]. split; [|by apply IH]. clear H2 IH. revert cs' Hc. induction H1 as [|r c ranks cs [Hk Hv] _ IH]; intros cs' Hc; inversion Hc; subst; constructor.
  - match goal with H : untouched _ _ _ _ |- _ => destruct (H s Hs) as [-> ->] end. done.
  - by apply IH.
Qed.

Lemma caches_shape_untouched ls qs css css' : 
  caches_shape ls css → Forall2 (Forall2 (untouched bs qs)) css css' →
  Forall2 (λ cs cs', length cs = length cs') css css'.
Proof.
  intros _ HU. eapply Forall2_impl; [exact HU|]. intros cs cs' Hc. by eapply Forall2_length.
Qed.

(** A request's prefix is in the caches when every slot of it holds its token. *)
Lemma holds_slots len reqs ls (st : request → list row_state) css :
  (∀ rq, rq ∈ reqs → len rq <= length (st rq)) →
  caches_hold cfg bs n reqs len ls st css ↔
    caches_shape ls css ∧
    ∀ rq p, rq ∈ reqs → p < len rq → slot_holds_layers ls (take (S p) (st rq)) (slot bs (rq, p)) css.
Proof.
  revert st css. induction ls as [|l ls IH]; intros st [|cs css] Hlen; simpl.
  - split; [|done]. intros _. split; [constructor|done].
  - split; [done|]. intros [H _]. inversion H.
  - split; [done|]. intros [H _]. inversion H.
  - rewrite IH by (intros rq Hrq; unfold dense_layer; rewrite length_imap; by apply Hlen).
    assert (∀ rq p r, rq ∈ reqs → p < len rq →
      last (dense_keys cfg r (layer_inputs cfg l (take (S p) (st rq)))) = dense_keys cfg r (layer_inputs cfg l (st rq)) !! p ∧
      last (dense_values cfg r (layer_inputs cfg l (take (S p) (st rq)))) = dense_values cfg r (layer_inputs cfg l (st rq)) !! p) as Hlast.
    { intros rq p r Hrq Hp. specialize (Hlen rq Hrq). unfold layer_inputs. rewrite fmap_take, dense_keys_take, dense_values_take.
      split; apply last_take; unfold dense_keys, dense_values; rewrite length_imap, length_fmap; lia. }
    unfold rank_holds, holds. split.
    + intros [Hc [Hs' Hh']]. split; [constructor; [|done]; eapply Forall2_impl; [exact Hc|]; by intros r c [? _]|].
      intros rq p Hrq Hp. split; [|rewrite dense_layer_take; by apply Hh'].
      eapply Forall2_impl; [exact Hc|]. intros r c [_ Hr]. destruct (Hlast rq p r Hrq Hp) as [-> ->]. by apply Hr.
    + intros [Hs Hh]. inversion Hs as [|? ? ? ? Hsl Hss]; subst. split; [|split; [done|]].
      * apply Forall2_same_length_lookup. split; [by eapply Forall2_length|]. intros i r c Hr Hc.
        split; [apply (Forall2_lookup_lr _ _ _ _ _ _ Hsl Hr Hc)|]. intros rq Hrq p Hp.
        destruct (Hh rq p Hrq Hp) as [H1 _]. destruct (Forall2_lookup_lr _ _ _ _ _ _ H1 Hr Hc) as [-> ->]. by apply Hlast.
      * intros rq p Hrq Hp. destruct (Hh rq p Hrq Hp) as [_ H]. by rewrite dense_layer_take in H.
Qed.

(** *** The model call *)

Record model_wf (d inter : nat) (m : qwen3 R) : Prop := {
  mw_layers : Forall (layer_wf cfg d inter) (model_layers m);
  mw_embed : embed_tokens m ≠ [] ∧ 0 < mc_vocab_per_partition cfg ∧
    Forall (λ w, length w = mc_vocab_per_partition cfg ∧ Forall (λ r, length r = d) w) (embed_tokens m);
}.

Definition vocab_size (m : qwen3 R) : nat := length (embed_tokens m) * mc_vocab_per_partition cfg.

Lemma embed_row_width d inter m t :
  model_wf d inter m → (0 <= t < Z.of_nat (vocab_size m))%Z →
  length (embed_row (embed_tokens m) (mc_vocab_per_partition cfg) t) = d.
Proof.
  intros [_ (Hne & Hpos & Hw)] Ht. unfold embed_row, vocab_size in *.
  assert (∀ w i, w ∈ embed_tokens m → i < mc_vocab_per_partition cfg → length (w !!! i) = d) as Hrow.
  { intros w i Hin Hi. rewrite Forall_forall in Hw. destruct (Hw w Hin) as [Hl Hf]. rewrite Forall_lookup in Hf.
    apply (Hf i). apply list_lookup_lookup_total_lt. lia. }
  destruct (embed_tokens m) as [|w [|w' ws]] eqn:E; [done| |].
  - apply Hrow; [left|]. simpl in Ht. lia.
  - apply length_reduce_row; [done|]. apply Forall_fmap, Forall_forall. intros [i x] Hx. simpl.
    unfold masked_row. rewrite length_fmap. apply list_elem_of_lookup in Hx as [j Hj].
    apply lookup_zip_Some in Hj as [_ Hj]. apply Hrow; [by eapply list_elem_of_lookup_2|].
    case_match eqn:Em; [|lia]. apply andb_true_iff in Em as [E1%Z.leb_le E2%Z.ltb_lt]. lia.
Qed.

Lemma Qwen3Model_spec d inter m reqs call css :
  config_ok cfg bs → model_wf d inter m → batch_call bs n reqs call →
  (∀ rq, rq ∈ reqs → length (rq_tokens rq) <= length (mc_cos_sin_cache cfg)) →
  (∀ rq t, rq ∈ reqs → t ∈ rq_tokens rq → (0 <= t < Z.of_nat (vocab_size m))%Z) →
  caches_shape (model_layers m) css →
  (∀ rq p, rq ∈ reqs → p < rq_start rq → slot_holds m (take (S p) (rq_tokens rq)) (slot bs (rq, p)) css) →
  ∃ css', Qwen3Model cfg m call css =
      (Ok ((λ q : query, dense_model cfg m (rq_tokens q.1) !!! q.2) <$> queries reqs), css') ∧
    caches_shape (model_layers m) css' ∧
    (∀ rq p, rq ∈ reqs → p < rq_stop rq → slot_holds m (take (S p) (rq_tokens rq)) (slot bs (rq, p)) css') ∧
    (∀ ts s, s ∉ slot bs <$> queries reqs → slot_holds m ts s css → slot_holds m ts s css').
Proof.
  intros Hcfg Hm Hcall Hpos Htok Hshape Hslots. set (st rq := embed_states cfg m (rq_tokens rq)).
  pose proof (bc_requests _ _ _ _ Hcall) as Hok. rewrite Forall_forall in Hok.
  assert (∀ rq, length (st rq) = length (rq_tokens rq)) as Lst by (intros rq; apply length_fmap).
  assert (states_ok d reqs st) as Hst.
  { split; intros rq Hrq; [done|]. apply Forall_fmap, Forall_forall. intros t Ht.
    unfold state_ok. simpl. eapply embed_row_width; [done|]. by eapply Htok. }
  assert (caches_hold cfg bs n reqs rq_start (model_layers m) st css) as Hc.
  { apply holds_slots; [intros rq Hrq; rewrite Lst; pose proof (ro_span _ _ _ (Hok _ Hrq)); lia|]. split; [done|].
    intros rq p Hrq Hp. unfold st, embed_states. rewrite <-fmap_take. by apply Hslots. }
  destruct (run_layers_spec cfg d inter bs n Hcfg reqs call Hcall Hpos (model_layers m) st None css
    (mw_layers _ _ _ Hm) Hst) as (res' & css' & E & Hst' & Hres' & Hc' & HU); [|done|].
  { left. split; [done|]. intros [rq p] _. unfold cell, st, embed_states. simpl.
    rewrite list_lookup_total_alt, list_lookup_fmap. by destruct (_ !! p). }
  exists css'. split; [|split; [|split]].
  - unfold Qwen3Model, mbind, bind, lift. destruct (mw_embed _ _ _ Hm) as (Hne & Hvp & Hw).
    rewrite (bc_ids _ _ _ _ Hcall), (embed_rows (λ q : query, rq_tokens q.1 !!! q.2)); [|done| |done|].
    2:{ eapply Forall_impl; [exact Hw|]. by intros w [? _]. }
    2:{ intros [rq p] [Hrq Hp]%elem_of_queries. simpl. apply (Htok rq); [done|].
        pose proof (ro_span _ _ _ (Hok _ Hrq)). eapply list_elem_of_lookup_2, list_lookup_lookup_total_lt. lia. }
    assert ((λ q : query, embed_row (embed_tokens m) (mc_vocab_per_partition cfg) (rq_tokens q.1 !!! q.2)) <$> queries reqs
      = (λ q, (cell st q).1) <$> queries reqs) as ->.
    { apply list_fmap_ext. intros i [rq p] Hq%list_elem_of_lookup_2. pose proof Hq as [Hrq Hp]%elem_of_queries. simpl in *.
      pose proof (ro_span _ _ _ (Hok _ Hrq)). destruct (lookup_lt_is_Some_2 (rq_tokens rq) p) as [t Ht]; [lia|].
      unfold cell, st, embed_states. simpl. erewrite list_lookup_total_correct by done.
      erewrite list_lookup_total_correct by (rewrite list_lookup_fmap, Ht; done). done. }
    rewrite E. unfold ret. rewrite (cf_invariant _ _ Hcfg). do 2 f_equal. cbn [fst snd].
    assert (∀ q, q ∈ queries reqs → dense_model cfg m (rq_tokens q.1) !!! q.2 = final_row cfg m (cell (λ rq, foldl (dense_layer cfg) (st rq) (model_layers m)) q)) as Hfin.
    { intros q Hq. destruct (cell_lookup d bs n reqs call Hcall _ q Hst' Hq) as [Hl _]. apply list_lookup_total_correct.
      unfold dense_model. fold (st q.1). by rewrite list_lookup_fmap, Hl. }
    assert (∀ q, q ∈ queries reqs → length (cell (λ rq, foldl (dense_layer cfg) (st rq) (model_layers m)) q).1 = d) as Hd
      by (intros q Hq; by apply (cell_lookup d bs n reqs call Hcall _ q Hst')).
    destruct Hres' as [[-> Hn]|(f & -> & Hf)].
    + rewrite (norm_rows _ _ _ d) by done. cbn [fst]. apply list_fmap_ext. intros i q Hq%list_elem_of_lookup_2.
      rewrite (Hfin q Hq). unfold final_row. by rewrite (Hn q Hq).
    + rewrite (add_norm_rows _ _ _ _ d) by done. cbn [fst]. apply list_fmap_ext. intros i q Hq%list_elem_of_lookup_2.
      rewrite (Hfin q Hq). unfold final_row. by rewrite (Hf q Hq).
  - apply holds_slots in Hc' as [? _]; [done|]. intros rq Hrq. rewrite Lst. pose proof (ro_span _ _ _ (Hok _ Hrq)). lia.
  - intros rq p Hrq Hp. apply holds_slots in Hc' as [_ Hc']; [|intros rq' Hrq'; rewrite Lst; pose proof (ro_span _ _ _ (Hok _ Hrq')); lia].
    unfold slot_holds, embed_states. rewrite fmap_take. by apply Hc'.
  - intros ts s Hs. by apply (slot_holds_untouched _ _ _ _ _ _ Hs HU).
Qed.
End slots.
