(* ===== verification/Sampler.v ===== *)
(** * Sampler: exact sampling laws and modified rejection

    Models src/nanovllm/layers/sampler.py on tensors given by their metadata and
    their row-major data.  A tensor operation has its documented meaning on rows,
    and the float values of weights, probabilities and noise are exact rationals:
    rounding is left out.  [exp], the order in which a sort leaves equal logits
    and the random draws are parameters. *)
From Stdlib Require Import QArith.
From S2P Require Import Prelude SamplingParams.
#[local] Open Scope nat_scope.

(** ** Rows of numbers *)

Definition Qltb (a b : Q) : bool := negb (Qle_bool b a).
Definition Qsum (l : list Q) : Q := foldr Qplus 0%Q l.
Definition Qmaximum (a b : Q) : Q := if Qltb a b then b else a.
Definition Qminimum (a b : Q) : Q := if Qltb b a then b else a.

(** The first index of a maximal element. *)
Fixpoint argmax_from {A} (ltb : A → A → bool) (i best : nat) (x : A) (l : list A) : nat :=
  match l with
  | [] => best
  | y :: l' => if ltb x y then argmax_from ltb (S i) i y l' else argmax_from ltb (S i) best x l'
  end.
Definition argmax_by {A} (ltb : A → A → bool) (l : list A) : nat :=
  match l with [] => 0 | x :: l' => argmax_from ltb 1 0 x l' end.
Definition argmax : list Q → nat := argmax_by Qltb.

Definition one_hot (n i : nat) : list Q := <[i := 1%Q]> (replicate n 0%Q).

(** Cutting row-major data into [k] rows of length [n]. *)
Fixpoint chunks {A} (k n : nat) (l : list A) : list (list A) :=
  match k with O => [] | S k' => take n l :: chunks k' n (drop n l) end.

(** ** Tensors *)

Inductive dtype := Float32 | Float64 | Float16 | BFloat16 | Int64 | Int32 | Bool8.
#[global] Instance dtype_eq_dec : EqDecision dtype.
Proof. solve_decision. Defined.
Definition is_floating_point (d : dtype) : bool :=
  match d with Float32 | Float64 | Float16 | BFloat16 => true | _ => false end.

(** A float of a tensor. *)
Inductive fval := FNum (q : Q) | FPosInf | FNegInf | FNaN.
Definition isfinite (v : fval) : bool := match v with FNum _ => true | _ => false end.
Definition num (v : fval) : Q := match v with FNum q => q | _ => 0%Q end.
Definition nums1 : list fval → list Q := map num.
Definition nums2 : list (list fval) → list (list Q) := map nums1.
Definition nums3 : list (list (list fval)) → list (list (list Q)) := map nums2.
(** Comparison with a number; false on NaN. *)
Definition fless (v : fval) (q : Q) : bool :=
  match v with FNum x => Qltb x q | FNegInf => true | _ => false end.
Definition fgreater (v : fval) (q : Q) : bool :=
  match v with FNum x => Qltb q x | FPosInf => true | _ => false end.

Record tensor (A : Type) := mk_tensor {
  tn_dtype : dtype;
  tn_device : nat;
  tn_shape : list nat;
  tn_storage : nat;
  tn_contiguous : bool;
  tn_data : list A;
}.
Arguments mk_tensor {A}.
Arguments tn_dtype {A}. Arguments tn_device {A}. Arguments tn_shape {A}.
Arguments tn_storage {A}. Arguments tn_contiguous {A}. Arguments tn_data {A}.

(** An argument: [None], an object that is no tensor, or a tensor. *)
Inductive arg (A : Type) := ANone | ANotTensor | ATensor (t : tensor A).
Arguments ANone {A}. Arguments ANotTensor {A}. Arguments ATensor {A} t.
Definition is_none {A} (a : arg A) : bool := match a with ANone => true | _ => false end.

Definition rows2 {A} (t : tensor A) : list (list A) :=
  match tn_shape t with [b; v] => chunks b v (tn_data t) | _ => [] end.
Definition rows3 {A} (t : tensor A) : list (list (list A)) :=
  match tn_shape t with [b; k; v] => chunks k v <$> chunks b (k * v) (tn_data t) | _ => [] end.

Definition invariant_error {A} (name msg : string) : outcome A :=
  Raise (SpeculativeSamplingInvariantError (name +:+ msg)).
Definition check (c : bool) (e : exn) : outcome unit := oraise_if (negb c) e.
#[local] Abbreviation Invariant := SpeculativeSamplingInvariantError.

(** ** Validation of arguments *)

(** The number of active rows. *)
Definition _validate_row_indices (row_indices : arg Z) (batch_size device : nat) (name : string)
    : outcome nat :=
  match row_indices with
  | ANone => Ok batch_size
  | ANotTensor => Raise (TypeError (name +:+ " must be a tensor or None"))
  | ATensor t =>
      check (bool_decide (tn_dtype t = Int64)) (TypeError (name +:+ " must have dtype torch.int64")) ;?
      check (bool_decide (tn_device t = device)) (ValueError (name +:+ " must be on the logits device")) ;?
      check (bool_decide (length (tn_shape t) = 1)) (ValueError (name +:+ " must be one-dimensional")) ;?
      check (negb (bool_decide (tn_data t = []))) (ValueError (name +:+ " must not be empty")) ;?
      oraise_if (existsb (λ r, (r <? 0)%Z || (Z.of_nat batch_size <=? r)%Z) (tn_data t))
        (ValueError (name +:+ " contains an out-of-range row")) ;?
      check (bool_decide (NoDup (tn_data t))) (ValueError (name +:+ " contains duplicate rows")) ;?
      Ok (length (tn_data t))
  end.

Definition _validate_race_noise (noise : arg fval) (shape : list nat) (device : nat) (name : string)
    : outcome unit :=
  match noise with
  | ATensor t =>
      check (bool_decide (tn_shape t = shape)) (Invariant (name +:+ " must have shape")) ;?
      check (bool_decide (tn_device t = device)) (Invariant (name +:+ " must be on the sampling device")) ;?
      check (bool_decide (tn_dtype t = Float32)) (Invariant (name +:+ " must have dtype torch.float32")) ;?
      check (forallb (λ v, isfinite v && fgreater v 0) (tn_data t))
        (Invariant (name +:+ " must contain finite, strictly positive values"))
  | _ => invariant_error name " must be a tensor"
  end.

Definition _validate_probabilities_out (probabilities_out : arg fval) (shape : list nat) (device : nat)
    : outcome unit :=
  match probabilities_out with
  | ANone => Ok tt
  | ANotTensor => Raise (TypeError "probabilities_out must be a tensor or None")
  | ATensor t =>
      check (bool_decide (tn_shape t = shape)) (ValueError "probabilities_out must have shape") ;?
      check (bool_decide (tn_dtype t = Float32)) (TypeError "probabilities_out must have dtype torch.float32") ;?
      check (bool_decide (tn_device t = device)) (ValueError "probabilities_out must be on the logits device") ;?
      check (tn_contiguous t) (ValueError "probabilities_out must be contiguous")
  end.

(** [torch._C._overlaps] reports a shared storage. *)
Definition _reject_probabilities_out_alias {A} (probabilities_out : arg fval) (other : arg A)
    (other_name : string) : outcome unit :=
  match probabilities_out, other with
  | ATensor p, ATensor o =>
      oraise_if (bool_decide (tn_device p = tn_device o) && bool_decide (tn_storage p = tn_storage o))
        (ValueError ("probabilities_out must not share storage with " +:+ other_name))
  | _, _ => Ok tt
  end.

(** The sums over the last dimension, for the two layouts in use. *)
Definition row_masses (t : tensor fval) (ndim : nat) : list Q :=
  (λ row, Qsum (nums1 row)) <$> (if ndim =? 2 then rows2 t else concat (rows3 t)).

Definition _validate_canonical_weights (weights : arg fval) (name : string) (ndim : nat)
    : outcome (tensor fval) :=
  match weights with
  | ATensor t =>
      check (bool_decide (tn_dtype t = Float32))
        (Invariant (name +:+ " must retain the canonical torch.float32 dtype")) ;?
      check (bool_decide (length (tn_shape t) = ndim)) (Invariant (name +:+ " must be -dimensional")) ;?
      oraise_if (existsb (λ n, n =? 0) (tn_shape t)) (Invariant (name +:+ " must have no empty dimensions")) ;?
      check (forallb isfinite (tn_data t)) (Invariant (name +:+ " contains non-finite weights")) ;?
      oraise_if (existsb (λ v, fless v 0) (tn_data t)) (Invariant (name +:+ " contains negative weights")) ;?
      check (forallb (Qltb 0) (row_masses t ndim))
        (Invariant (name +:+ " rows must have finite, strictly positive mass")) ;?
      Ok t
  | _ => invariant_error name " must be a tensor"
  end.

(** Two rows of weights over the same vocabulary. *)
Definition _validate_pair (target_weights draft_weights : arg fval) (ndim : nat)
    : outcome (tensor fval * tensor fval) :=
  let? t := _validate_canonical_weights target_weights "target_weights" ndim in
  let? d := _validate_canonical_weights draft_weights "draft_weights" ndim in
  check (bool_decide (tn_shape t = tn_shape d))
    (Invariant "target_weights and draft_weights must have identical shapes") ;?
  check (bool_decide (tn_device t = tn_device d))
    (Invariant "target_weights and draft_weights must be on the same device") ;?
  Ok (t, d).

(** ** Laws of one row *)

Definition normalize (row : list Q) : list Q := (λ x, x / Qsum row)%Q <$> row.

(** [max(p - q, 0)] *)
Definition residual (p q : list Q) : list Q := zip_with (λ a b, Qmaximum (a - b) 0)%Q p q.

(** The corrective law of one row of weights, and whether it fell back to the
    target. *)
Definition correction_law (target draft : list Q) : list Q * bool :=
  let p := normalize target in
  let r := residual p (normalize draft) in
  let mass := Qsum r in
  if Qeq_bool mass 0 then (p, true) else ((λ x, x / mass)%Q <$> r, false).

(** The race: the first index that maximizes weight over noise. *)
Definition _sample_exponential_race (weights noise : list Q) : nat :=
  argmax (zip_with Qdiv weights noise).

(** The probability that the draft token [d] is accepted.  Over a draft
    probability of zero the ratio is infinite, clamped to 1, or not a number, which
    no uniform number is below: 0. *)
Definition acceptance (target draft : list Q) (d : nat) : Q :=
  let p := nth d (normalize target) 0%Q in
  let q := nth d (normalize draft) 0%Q in
  if Qeq_bool q 0 then if Qltb 0 p then 1%Q else 0%Q else Qminimum (p / q)%Q 1.

(** [cumprod] of the acceptance flags, and its sum. *)
Fixpoint cumprod (acc : nat) (l : list bool) : list nat :=
  match l with
  | [] => []
  | b :: l' => let acc' := acc * Nat.b2n b in acc' :: cumprod acc' l'
  end.
Definition accepted_count (accepts : list bool) : nat := sum_list (cumprod 1 accepts).

(** ** Rejection sampling *)

Record ResidualSample := mk_residual_sample {
  rs_token_ids : list Z;
  rs_used_reference : list bool;
  rs_target_fallback : list bool;
}.

Record ModifiedRejectionResult := mk_rejection {
  accepted_counts : list nat;
  corrective_token_ids : list Z;
  used_reference : list bool;
  target_fallback : list bool;
}.

Section rejection.
(** The generators: a matrix of uniforms or of exponential draws. *)
Context (rand : nat → nat → list (list Q)) (exponential : nat → nat → list (list fval)).

(** The noise given, or a validated draw. *)
Definition race_noise (noise : arg fval) (n v : nat) (name : string) : outcome (list (list Q)) :=
  match noise with
  | ATensor t => Ok (nums2 (rows2 t))
  | _ =>
      let drawn := exponential n v in
      check (forallb (forallb (λ x, isfinite x && fgreater x 0)) drawn)
        (Invariant (name +:+ " must contain finite, strictly positive values")) ;?
      Ok (nums2 drawn)
  end.

Definition sample_correction (target_weights draft_weights correction_noise : arg fval)
    : outcome ResidualSample :=
  let? (t, d) := _validate_pair target_weights draft_weights 2 in
  let n := nth 0 (tn_shape t) 0 in
  let v := nth 1 (tn_shape t) 0 in
  (if is_none correction_noise then Ok tt
   else _validate_race_noise correction_noise [n; v] (tn_device t) "correction_noise") ;?
  let laws := zip_with (λ p q, correction_law (nums1 p) (nums1 q)) (rows2 t) (rows2 d) in
  let? noise := race_noise correction_noise n v "generated correction_noise" in
  Ok (mk_residual_sample
        (zip_with (λ law e, Z.of_nat (_sample_exponential_race law.1 e)) laws noise)
        (replicate n true) laws.*2).

(** One row of the batch: its accepted prefix, and at its first rejected
    position the correction. *)
Definition row_accepts (target draft : list (list Q)) (tokens : list nat) (uniforms : list Q) : list bool :=
  zip_with (λ pq du, Qltb du.2 (acceptance pq.1 pq.2 du.1)) (zip target draft) (zip tokens uniforms).

Definition accept_trusted (target_weights : list (list (list Q))) (draft_tokens : list (list nat))
    (draft_weights : list (list (list Q))) (uniforms : option (list (list Q)))
    (correction_noise : option (list (list fval))) : ModifiedRejectionResult :=
  let batch := length target_weights in
  let proposal_length := length (default [] (head target_weights)) in
  let vocab := length (default [] (head (default [] (head target_weights)))) in
  let uniforms := default (rand batch proposal_length) uniforms in
  let noise := nums2 (default (exponential batch vocab) correction_noise) in
  let rows := zip (zip target_weights draft_weights) (zip draft_tokens uniforms) in
  let counts := (λ r, accepted_count (row_accepts r.1.1 r.1.2 r.2.1 r.2.2)) <$> rows in
  let position c := Nat.min c (proposal_length - 1) in
  let laws := zip_with (λ r c,
    let p := nth (position c) r.1.1 [] in
    let q := nth (position c) r.1.2 [] in
    let target_law := normalize p in
    let r := residual target_law (normalize q) in
    let mass := Qsum r in
    let fallback := (c <? proposal_length) && Qeq_bool mass 0 in
    (if fallback then target_law else (λ x, x / (if Qeq_bool mass 0 then 1 else mass))%Q <$> r, fallback))
    rows counts in
  mk_rejection counts
    (zip_with (λ law e, Z.of_nat (_sample_exponential_race law.1 e)) laws noise)
    ((λ c, c <? proposal_length) <$> counts) laws.*2.

(** The checks of [accept] on the tokens and the uniforms. *)
Definition check_tokens (draft_tokens : arg Z) (batch k vocab device : nat) : outcome (tensor Z) :=
  match draft_tokens with
  | ATensor t =>
      check (bool_decide (tn_dtype t = Int64)) (Invariant "draft_tokens must have dtype torch.int64") ;?
      check (bool_decide (tn_shape t = [batch; k]))
        (Invariant "draft_tokens must have shape [batch_size, proposal_length]") ;?
      check (bool_decide (tn_device t = device)) (Invariant "draft_tokens must be on the sampling device") ;?
      oraise_if (existsb (λ x, (x <? 0)%Z || (Z.of_nat vocab <=? x)%Z) (tn_data t))
        (Invariant "draft_tokens contains an out-of-range token ID") ;?
      Ok t
  | _ => Raise (Invariant "draft_tokens must be a tensor")
  end.

Definition check_uniforms (uniforms : arg fval) (batch k device : nat) : outcome unit :=
  match uniforms with
  | ANone => Ok tt
  | ANotTensor => Raise (Invariant "uniforms must be a tensor")
  | ATensor t =>
      check (bool_decide (tn_shape t = [batch; k]))
        (Invariant "uniforms must have shape [batch_size, proposal_length]") ;?
      check (bool_decide (tn_device t = device)) (Invariant "uniforms must be on the sampling device") ;?
      check (bool_decide (tn_dtype t = Float32)) (Invariant "uniforms must have dtype torch.float32") ;?
      check (forallb (λ v, isfinite v && negb (fless v 0) && fless v 1) (tn_data t))
        (Invariant "uniforms must be finite and in the half-open interval [0, 1)")
  end.

(** The rows that were rejected, gathered into tensors for [sample_correction]. *)
Definition gathered (t : tensor fval) (vocab : nat) (rows : list (list fval)) : tensor fval :=
  mk_tensor (tn_dtype t) (tn_device t) [length rows; vocab] (tn_storage t) true (concat rows).

Definition accept (target_weights : arg fval) (draft_tokens : arg Z)
    (draft_weights uniforms correction_noise : arg fval) : outcome ModifiedRejectionResult :=
  let? (t, d) := _validate_pair target_weights draft_weights 3 in
  let batch := nth 0 (tn_shape t) 0 in
  let k := nth 1 (tn_shape t) 0 in
  let vocab := nth 2 (tn_shape t) 0 in
  let device := tn_device t in
  let? tok := check_tokens draft_tokens batch k vocab device in
  check_uniforms uniforms batch k device ;?
  (if is_none correction_noise then Ok tt
   else _validate_race_noise correction_noise [batch; vocab] device "correction_noise") ;?
  let target := nums3 (rows3 t) in
  let draft := nums3 (rows3 d) in
  let tokens := map (map Z.to_nat) (rows2 tok) in
  check (forallb (λ dr, forallb (λ qd, Qltb 0 (nth qd.2 qd.1 0%Q)) (zip dr.1 dr.2)) (zip draft tokens))
    (Invariant "every selected draft token must have finite q(d) > 0") ;?
  let us := match uniforms with ATensor u => nums2 (rows2 u) | _ => rand batch k end in
  let counts := (λ r, accepted_count (row_accepts r.1.1 r.1.2 r.2.1 r.2.2)) <$>
    zip (zip target draft) (zip tokens us) in
  let rejected_rows := filter (λ i, nth i counts 0 < k) (seq 0 batch) in
  if bool_decide (rejected_rows = [])
  then Ok (mk_rejection counts (replicate batch (-1)%Z) (replicate batch false) (replicate batch false))
  else
    let pick (x : tensor fval) := (λ i, nth (nth i counts 0) (nth i (rows3 x) []) []) <$> rejected_rows in
    let rejected_noise := match correction_noise with
      | ATensor e => ATensor (gathered e vocab ((λ i, nth i (rows2 e) []) <$> rejected_rows))
      | _ => ANone
      end in
    let? c := sample_correction (ATensor (gathered t vocab (pick t)))
              (ATensor (gathered d vocab (pick d))) rejected_noise in
    let copy {A} (base : list A) (xs : list A) :=
      foldl (λ l ix, <[ix.1 := ix.2]> l) base (zip rejected_rows xs) in
    Ok (mk_rejection counts (copy (replicate batch (-1)%Z) (rs_token_ids c))
          (copy (replicate batch false) (rs_used_reference c))
          (copy (replicate batch false) (rs_target_fallback c))).
End rejection.

(** ** Filtering logits *)

(** A logit: a finite number, or [None] for minus infinity. *)
Abbreviation logit := (option Q).
Definition logit_ltb (a b : logit) : bool :=
  match a, b with
  | _, None => false
  | None, Some _ => true
  | Some x, Some y => Qltb x y
  end.

Definition TOP_P_CHUNK_SIZE : nat := 64.
(** [temperatures.clamp_min(1e-10)] *)
Definition clamp_temperature (t : Q) : Q := Qmaximum t (1 # 10000000000).
Definition scale (t : Q) (row : list logit) : list logit :=
  (λ x, option_map (λ x, x / clamp_temperature t)%Q x) <$> row.

(** [index_select] and [index_copy_] along the rows. *)
Definition index_select {A} (rows : option (list nat)) (x : list A) : list A :=
  match rows with None => x | Some ixs => omap (λ i, x !! i) ixs end.
Definition index_copy {A} (rows : option (list nat)) (x active : list A) : list A :=
  match rows with
  | None => active
  | Some ixs => foldl (λ l ir, <[ir.1 := ir.2]> l) x (zip ixs active)
  end.

(** The running sums of a row. *)
Fixpoint cumsum (acc : Q) (l : list Q) : list Q :=
  match l with [] => [] | x :: l' => let acc' := (acc + x)%Q in acc' :: cumsum acc' l' end.

Section filters.
(** [exp], and the indices that sort a row in ascending order. *)
Context (exp : Q → Q) (argsort : list logit → list nat).

(** The least of the [k] largest logits. *)
Definition top_k_threshold (k : nat) (row : list logit) : logit :=
  let order := reverse (argsort row) in
  nth (k - 1) ((λ i, nth i row None) <$> order) None.

Definition filter_top_k_row (k : nat) (row : list logit) : list logit :=
  let threshold := top_k_threshold k row in
  (λ x, if logit_ltb x threshold then None else x) <$> row.

Definition filter_top_k (logits : list (list logit)) (rows : option (list nat)) (k : nat)
    : list (list logit) :=
  index_copy rows logits (filter_top_k_row k <$> index_select rows logits).

Definition weight (x : logit) : Q := match x with Some x => exp x | None => 0%Q end.
(** [None] when every logit is minus infinity: the row is NaN. *)
Definition softmax (row : list logit) : option (list Q) :=
  if forallb (λ x, negb (bool_decide (is_Some x))) row then None
  else Some (normalize (weight <$> row)).

(** The positions of a row that the nucleus drops, in the order of the sort; the
    comparisons with a NaN row are false. *)
Definition removed_sorted (cutoff : Q) (sorted : list logit) : list bool :=
  match softmax sorted with
  | None => replicate (length sorted) false
  | Some probs =>
      imap (λ i c, if S i =? length sorted then false else Qle_bool c cutoff) (cumsum 0 probs)
  end.

Definition filter_top_p_row (temperature cutoff : Q) (row : list logit) : list logit :=
  let scaled := scale temperature row in
  let sorted_indices := argsort scaled in
  let sorted_logits := (λ i, nth i scaled None) <$> sorted_indices in
  let remove := foldl (λ l ib, <[ib.1 := ib.2]> l) (replicate (length row) false)
                  (zip sorted_indices (removed_sorted cutoff sorted_logits)) in
  zip_with (λ (b : bool) x, if b then None else x) remove row.

(** The loop over chunks of rows. *)
Fixpoint top_p_chunks (fuel : nat) (rows : list (list logit)) (temperatures cutoffs : list Q)
    : list (list logit) :=
  match fuel, rows with
  | O, _ | _, [] => []
  | S fuel', _ =>
      zip_with (λ row tc, filter_top_p_row tc.1 tc.2 row) (take TOP_P_CHUNK_SIZE rows)
        (zip (take TOP_P_CHUNK_SIZE temperatures) (take TOP_P_CHUNK_SIZE cutoffs)) ++
      top_p_chunks fuel' (drop TOP_P_CHUNK_SIZE rows) (drop TOP_P_CHUNK_SIZE temperatures)
        (drop TOP_P_CHUNK_SIZE cutoffs)
  end.

Definition filter_top_p (logits : list (list logit)) (temperatures : list Q)
    (rows : option (list nat)) (cutoffs : list Q) : list (list logit) :=
  let active := index_select rows logits in
  index_copy rows logits
    (top_p_chunks (length active) active (index_select rows temperatures) cutoffs).

(** ** The exact law of every row *)

(** The rows after every filter. *)
Definition filtered (logits : list (list logit)) (temperatures : list Q)
    (top_k_buckets : list (nat * option (list nat))) (top_p_plan : option (option (list nat) * list Q))
    : list (list logit) :=
  let x := foldl (λ x kr, filter_top_k x kr.2 kr.1) logits top_k_buckets in
  match top_p_plan with
  | Some (rows, cutoffs) => filter_top_p x temperatures rows cutoffs
  | None => x
  end.

(** Softmax of the scaled rows, the greedy rows replaced by their argmax. *)
Definition laws (vocab : nat) (logits x : list (list logit)) (temperatures : list Q)
    : list (option (list Q)) :=
  zip_with (λ tg row, if Qeq_bool tg.1 0 then Some (one_hot vocab tg.2) else softmax (scale tg.1 row))
    (zip temperatures (argmax_by logit_ltb <$> logits)) x.

(** A bucket and a plan as the caller passes them. *)
Inductive bucket_arg := BadBucket | Bucket (top_k : pyval) (row_indices : arg Z).
Inductive plan_arg := NoPlan | BadPlan | Plan (row_indices : arg Z) (cutoffs : arg fval).

Definition row_arg (a : arg Z) : option (list nat) :=
  match a with ATensor t => Some (Z.to_nat <$> tn_data t) | _ => None end.

(** The buckets, validated in turn; [seen] are the rows already filtered. *)
Definition validate_bucket (vocab batch device : nat) (out : arg fval)
    (acc : list nat * list (nat * option (list nat))) (b : bucket_arg)
    : outcome (list nat * list (nat * option (list nat))) :=
  match b with
  | BadBucket => Raise (TypeError "each top-k bucket must be a (top_k, row_indices) tuple")
  | Bucket top_k row_indices =>
      check (type_is_int top_k) (TypeError "top_k must be an integer") ;?
      let k := int_value top_k in
      check ((1 <=? k)%Z && (k <=? Z.of_nat vocab)%Z) (ValueError "top_k must be in [1, vocab_size]") ;?
      let? _ := _validate_row_indices row_indices batch device "top_k_buckets[].row_indices" in
      _reject_probabilities_out_alias out row_indices "top_k_buckets[].row_indices" ;?
      let active := default (seq 0 batch) (row_arg row_indices) in
      oraise_if (existsb (λ r, bool_decide (r ∈ acc.1)) active)
        (ValueError "top-k buckets must not overlap") ;?
      Ok (acc.1 ++ active, acc.2 ++ [(Z.to_nat k, row_arg row_indices)])
  end.

Definition validate_plan (batch device : nat) (out : arg fval) (p : plan_arg)
    : outcome (option (option (list nat) * list Q)) :=
  match p with
  | NoPlan => Ok None
  | BadPlan => Raise (TypeError "top_p_plan must be a (row_indices, probability_cutoffs) tuple")
  | Plan row_indices cutoffs =>
      let? active := _validate_row_indices row_indices batch device "top_p_plan.row_indices" in
      match cutoffs with
      | ATensor c =>
          check (bool_decide (tn_shape c = [active]))
            (ValueError "probability_cutoffs must have one value per active row") ;?
          check (bool_decide (tn_device c = device))
            (ValueError "probability_cutoffs must be on the logits device") ;?
          check (is_floating_point (tn_dtype c)) (TypeError "probability_cutoffs must be floating point") ;?
          check (forallb (λ v, isfinite v && negb (fless v 0) && fless v 1) (tn_data c))
            (ValueError "probability_cutoffs must be finite and in [0, 1)") ;?
          _reject_probabilities_out_alias out row_indices "top_p_plan.row_indices" ;?
          _reject_probabilities_out_alias out cutoffs "top_p_plan.probability_cutoffs" ;?
          Ok (Some (row_arg row_indices, nums1 (tn_data c)))
      | _ => Raise (TypeError "probability_cutoffs must be a tensor")
      end
  end.

(** The rows of the law, all numbers with positive mass. *)
Definition checked_laws (ps : list (option (list Q))) : outcome (list (list Q)) :=
  check (forallb (λ p, match p with Some p => Qltb 0 (Qsum p) | None => false end) ps)
    (Invariant "canonical probability rows must be finite with positive mass") ;?
  Ok (omap id ps).

Definition prepare_exact_probabilities (logits : arg logit) (temperatures : arg fval)
    (top_k_buckets : list bucket_arg) (top_p_plan : plan_arg) (probabilities_out : arg fval)
    : outcome (list (list Q)) :=
  match logits with
  | ATensor l =>
      check (bool_decide (length (tn_shape l) = 2)) (ValueError "logits must be a two-dimensional tensor") ;?
      check (is_floating_point (tn_dtype l)) (TypeError "logits must have a floating-point dtype") ;?
      let batch := nth 0 (tn_shape l) 0 in
      let vocab := nth 1 (tn_shape l) 0 in
      oraise_if ((batch =? 0) || (vocab =? 0))
        (ValueError "logits must have non-empty batch and vocabulary dimensions") ;?
      match temperatures with
      | ATensor t =>
          check (bool_decide (tn_shape t = [batch])) (ValueError "temperatures must have shape [batch_size]") ;?
          check (bool_decide (tn_device t = tn_device l))
            (ValueError "temperatures must be on the logits device") ;?
          check (is_floating_point (tn_dtype t))
            (TypeError "temperatures must have a floating-point dtype") ;?
          check (forallb (λ v, isfinite v && negb (fless v 0)) (tn_data t))
            (ValueError "temperatures must be finite and non-negative") ;?
          _validate_probabilities_out probabilities_out (tn_shape l) (tn_device l) ;?
          _reject_probabilities_out_alias probabilities_out logits "logits" ;?
          _reject_probabilities_out_alias probabilities_out temperatures "temperatures" ;?
          let? (_, buckets) := ofold (validate_bucket vocab batch (tn_device l) probabilities_out)
                                 top_k_buckets ([], []) in
          let? plan := validate_plan batch (tn_device l) probabilities_out top_p_plan in
          let ts := nums1 (tn_data t) in
          checked_laws (laws vocab (rows2 l) (filtered (rows2 l) ts buckets plan) ts)
      | _ => Raise (TypeError "temperatures must be a tensor")
      end
  | _ => Raise (ValueError "logits must be a two-dimensional tensor")
  end.

(** On metadata the engine validated; [vocab] is the width of the rows. *)
Definition prepare_exact_probabilities_trusted (vocab : nat) (logits : list (list logit))
    (temperatures : list Q) (top_k_buckets : list (nat * option (list nat)))
    (top_p_plan : option (option (list nat) * list Q)) (all_greedy : bool)
    : list (option (list Q)) :=
  if all_greedy then (λ row, Some (one_hot vocab (argmax_by logit_ltb row))) <$> logits
  else laws vocab logits (filtered logits temperatures top_k_buckets top_p_plan) temperatures.

(** ** Drawing from the law *)

(** The rows of the law may be NaN on the unchecked path. *)
Record ExactSample := mk_exact_sample {
  es_token_ids : list nat;
  es_probabilities : list (option (list Q));
}.

Context (exponential : nat → nat → list (list fval)).

(** The rows drawn by the race, and the argmax of the greedy ones; the argmax of
    a NaN row is its first entry. *)
Definition drawn_token (t : Q) (p : option (list Q)) (noise : list Q) : nat :=
  match p with
  | Some p => if Qeq_bool t 0 then argmax p else _sample_exponential_race p noise
  | None => 0
  end.
Definition drawn_tokens (temperatures : list Q) (ps : list (option (list Q))) (noise : list (list Q))
    : list nat :=
  zip_with (λ (t : Q) pn, drawn_token t pn.1 pn.2) temperatures (zip ps noise).

Definition sample_exact_with_probabilities_trusted (vocab : nat) (logits : list (list logit))
    (temperatures : list Q) (top_k_buckets : list (nat * option (list nat)))
    (top_p_plan : option (option (list nat) * list Q)) (all_greedy : bool) : ExactSample :=
  let ps := prepare_exact_probabilities_trusted vocab logits temperatures top_k_buckets
              top_p_plan all_greedy in
  if all_greedy then mk_exact_sample ((λ p, argmax (default [] p)) <$> ps) ps
  else mk_exact_sample (drawn_tokens temperatures ps (nums2 (exponential (length ps) vocab))) ps.

Definition sample_exact_with_probabilities (logits : arg logit) (temperatures : arg fval)
    (top_k_buckets : list bucket_arg) (top_p_plan : plan_arg) (noise probabilities_out : arg fval)
    : outcome ExactSample :=
  (match logits with
   | ATensor l =>
       if bool_decide (length (tn_shape l) = 2) then
         _validate_probabilities_out probabilities_out (tn_shape l) (tn_device l) ;?
         if is_none noise then Ok tt else
         _validate_race_noise noise (tn_shape l) (tn_device l) "race_noise" ;?
         _reject_probabilities_out_alias probabilities_out noise "race_noise"
       else Ok tt
   | _ => Ok tt
   end) ;?
  let? ps := prepare_exact_probabilities logits temperatures top_k_buckets top_p_plan probabilities_out in
  let ts := match temperatures with ATensor t => nums1 (tn_data t) | _ => [] end in
  if forallb (λ t, Qeq_bool t 0) ts then Ok (mk_exact_sample (argmax <$> ps) (Some <$> ps)) else
  let? e := race_noise exponential noise (length ps) (length (default [] (head ps)))
              "generated race_noise" in
  Ok (mk_exact_sample (drawn_tokens ts (Some <$> ps) e) (Some <$> ps)).
End filters.

(** [forward]: the ordinary sampler, whose noise is clamped from below. *)
Definition forward (exp : Q → Q) (logits : list (list logit)) (temperatures : list Q)
    (noise : list (list Q)) : list nat :=
  zip_with (λ tl e,
      if Qeq_bool tl.1 0 then argmax_by logit_ltb tl.2
      else argmax (zip_with (λ p x, p / Qmaximum x (1 # 10000000000))%Q
             (default [] (softmax exp (scale tl.1 tl.2))) e))
    (zip temperatures logits) noise.

(** [greedy] *)
Definition greedy (logits : list (list logit)) : list nat := argmax_by logit_ltb <$> logits.

(** [sample_top_p_flashinfer]; the two kernels of the optional backend are
    arguments. *)
Definition sample_top_p_flashinfer
    (softmax_kernel : list (list logit) → list Q → list (list Q))
    (top_p_sampling_from_probs : list (list Q) → list Q → list nat)
    (logits : list (list logit)) (temperatures top_ps : list Q) : list nat :=
  let greedy_tokens := argmax_by logit_ltb <$> logits in
  let probabilities := softmax_kernel logits (clamp_temperature <$> temperatures) in
  let sample_tokens := top_p_sampling_from_probs probabilities top_ps in
  zip_with (λ (t : Q) gs, if Qeq_bool t 0 then gs.1 else gs.2) temperatures
    (zip greedy_tokens sample_tokens).
