(* ===== verification/SamplerSpec.v ===== *)
(** * SamplerSpec: the laws of the sampler and of modified rejection

    Facts on rows of weights and on the laws made from them: normalization, the
    residual, the race, the filters; then the checked and the trusted paths agree. *)
From Stdlib Require Import QArith Qfield Lqa.
From S2P Require Import Prelude SamplingParams Sampler.
#[local] Open Scope nat_scope.

#[local] Arguments Qplus : simpl never.
#[local] Arguments Qmult : simpl never.
#[local] Arguments Qminus : simpl never.
#[local] Arguments Qdiv : simpl never.
#[local] Arguments Qopp : simpl never.

(** ** Sums of rationals *)

#[export] Instance Qeq_decision (a b : Q) : Decision (a == b)%Q := Qeq_dec a b.

Lemma Qltb_lt a b : Qltb a b = true ↔ (a < b)%Q.
Proof.
  unfold Qltb. rewrite negb_true_iff, <-not_true_iff_false, Qle_bool_iff. split; [apply Qnot_le_lt|apply Qlt_not_le].
Qed.
Lemma Qltb_ge a b : Qltb a b = false ↔ (b <= a)%Q.
Proof. unfold Qltb. by rewrite negb_false_iff, Qle_bool_iff. Qed.

Lemma Qmaximum_spec a b : (b <= a ∧ Qmaximum a b = a ∨ a < b ∧ Qmaximum a b = b)%Q.
Proof. unfold Qmaximum. destruct (Qltb a b) eqn:E; [right; by apply Qltb_lt in E|left; by apply Qltb_ge in E]. Qed.
Lemma Qminimum_spec a b : (a <= b ∧ Qminimum a b = a ∨ b < a ∧ Qminimum a b = b)%Q.
Proof. unfold Qminimum. destruct (Qltb b a) eqn:E; [right; by apply Qltb_lt in E|left; by apply Qltb_ge in E]. Qed.

Lemma Qsum_app l1 l2 : (Qsum (l1 ++ l2) == Qsum l1 + Qsum l2)%Q.
Proof. induction l1 as [|x l IH]; simpl; [lra|rewrite IH; lra]. Qed.

Lemma Qsum_scale c l : (Qsum ((λ x, x / c) <$> l) == Qsum l / c)%Q.
Proof.
  induction l as [|x l IH]; [symmetry; apply Qmult_0_l|]. rewrite fmap_cons. cbn [Qsum foldr].
  fold (Qsum l). fold (Qsum ((λ x, x / c)%Q <$> l)). rewrite IH. unfold Qdiv. ring.
Qed.

Lemma Qsum_ext {A} (f g : A → Q) l :
  (∀ x, x ∈ l → f x == g x)%Q → (Qsum (f <$> l) == Qsum (g <$> l))%Q.
Proof.
  intros H. induction l as [|x l IH]; csimpl; [reflexivity|].
  rewrite (H x) by set_solver. rewrite IH; [reflexivity|]. intros y Hy. apply H. set_solver.
Qed.

Lemma Qsum_add {A} (f g : A → Q) l :
  (Qsum ((λ x, f x + g x)%Q <$> l) == Qsum (f <$> l) + Qsum (g <$> l))%Q.
Proof. induction l as [|x l IH]; csimpl; [lra|]. rewrite IH. ring. Qed.

Lemma Qsum_mult {A} c (f : A → Q) l : (Qsum ((λ x, c * f x)%Q <$> l) == c * Qsum (f <$> l))%Q.
Proof. induction l as [|x l IH]; csimpl; [lra|]. rewrite IH. ring. Qed.

Lemma Qsum_nonneg l : Forall (λ x, 0 <= x)%Q l → (0 <= Qsum l)%Q.
Proof. induction 1; csimpl; lra. Qed.

(** A sum of non-negative terms is null exactly when they all are. *)
Lemma Qsum_zero l x : Forall (λ x, 0 <= x)%Q l → (Qsum l == 0)%Q → x ∈ l → (x == 0)%Q.
Proof.
  induction 1 as [|y l Hy Hl IH]; csimpl; intros Hs Hx; [by apply elem_of_nil in Hx|].
  pose proof (Qsum_nonneg l Hl). apply elem_of_cons in Hx as [->|Hx]; [lra|]. apply IH; [lra|done].
Qed.

Lemma Qsum_ge l x : Forall (λ x, 0 <= x)%Q l → x ∈ l → (x <= Qsum l)%Q.
Proof.
  induction 1 as [|y l Hy Hl IH]; csimpl; intros Hx; [by apply elem_of_nil in Hx|].
  pose proof (Qsum_nonneg l Hl). apply elem_of_cons in Hx as [->|Hx]; [lra|]. specialize (IH Hx). lra.
Qed.

(** ** Laws *)

(** Weights over a vocabulary. *)
Record weights (l : list Q) : Prop := {
  wt_nonneg : Forall (λ x, 0 <= x)%Q l;
  wt_mass : (0 < Qsum l)%Q;
}.

Record is_law (l : list Q) : Prop := {
  lw_nonneg : Forall (λ x, 0 <= x)%Q l;
  lw_mass : (Qsum l == 1)%Q;
}.

Declare Scope row_scope.
Notation "l .[ i ]" := (nth i l 0%Q) (at level 1, format "l .[ i ]") : row_scope.
#[local] Open Scope row_scope.

Lemma nth_nonneg l i : Forall (λ x, 0 <= x)%Q l → (0 <= l.[i])%Q.
Proof. intros H. revert i. induction H; intros [|i]; simpl; try lra. apply IHForall. Qed.

Lemma law_weights l : is_law l → weights l.
Proof. intros [? ?]. split; [done|lra]. Qed.

Lemma div_nonneg a b : (0 <= a → 0 < b → 0 <= a / b)%Q.
Proof. intros. apply Qle_shift_div_l; [done|]. lra. Qed.

Lemma normalize_law l : weights l → is_law (normalize l).
Proof.
  intros [Hn Hm]. split.
  - apply Forall_fmap, (Forall_impl _ _ _ Hn). intros x Hx. by apply div_nonneg.
  - unfold normalize. rewrite Qsum_scale. field. lra.
Qed.

Lemma nth_normalize l i : ((normalize l).[i] == l.[i] / Qsum l)%Q.
Proof.
  unfold normalize. generalize (Qsum l) as c. intros c. revert i.
  induction l as [|x l IH]; intros [|i]; simpl; try reflexivity; [unfold Qdiv; ring..|apply IH].
Qed.

Lemma length_normalize l : length (normalize l) = length l.
Proof. apply length_fmap. Qed.

(** A sum over positions. *)
Lemma Qsum_positions l : (Qsum l == Qsum ((λ i, l.[i]) <$> seq 0 (length l)))%Q.
Proof.
  induction l as [|x l IH]; [reflexivity|]. simpl. rewrite IH, <-fmap_S_seq, <-list_fmap_compose. reflexivity.
Qed.

Lemma nth_residual p q i : length p = length q → ((residual p q).[i] == Qmaximum (p.[i] - q.[i]) 0)%Q.
Proof.
  unfold residual. revert q i. induction p as [|x p IH]; intros [|y q] i Hl; try done.
  - destruct i; simpl; (destruct (Qmaximum_spec (0 - 0) 0) as [[? ->]|[? ->]]; lra).
  - destruct i as [|i]; simpl; [reflexivity|]. apply IH. by injection Hl.
Qed.

Lemma residual_nonneg p q : Forall (λ x, 0 <= x)%Q (residual p q).
Proof.
  unfold residual. revert q. induction p as [|x p IH]; intros [|y q]; simpl; constructor; [|apply IH].
  destruct (Qmaximum_spec (x - y) 0) as [[? ->]|[? ->]]; lra.
Qed.

Lemma length_residual p q : length p = length q → length (residual p q) = length p.
Proof. intros. unfold residual. rewrite length_zip_with. lia. Qed.

(** ** Acceptance and correction at one position *)

Lemma acceptance_ratio target draft d :
  (0 < (normalize draft).[d])%Q →
  acceptance target draft d = Qminimum ((normalize target).[d] / (normalize draft).[d])%Q 1.
Proof.
  intros Hq. unfold acceptance. destruct (Qeq_bool _ 0) eqn:E; [|done].
  apply Qeq_bool_iff in E. rewrite E in Hq. by apply Qlt_irrefl in Hq.
Qed.

Lemma accept_min target draft d :
  weights target → weights draft →
  ((normalize draft).[d] * acceptance target draft d ==
   Qminimum (normalize target).[d] (normalize draft).[d])%Q.
Proof.
  intros [Hp _]%normalize_law [Hq _]%normalize_law. unfold acceptance.
  set (p := (normalize target).[d]). set (q := (normalize draft).[d]).
  assert (0 <= p)%Q as Hp0 by by apply nth_nonneg. assert (0 <= q)%Q as Hq0 by by apply nth_nonneg.
  destruct (Qeq_dec q 0) as [E|E].
  - match goal with |- (q * ?x == _)%Q => generalize x end.
    intros x. destruct (Qminimum_spec p q) as [[? ->]|[? ->]]; nra.
  - destruct (Qeq_bool q 0) eqn:Eb; [by apply Qeq_bool_iff in Eb|].
    assert (0 < q)%Q by lra. assert (p == q * (p / q))%Q as Epq by (field; lra).
    destruct (Qminimum_spec (p / q) 1) as [[Hle ->]|[Hlt ->]], (Qminimum_spec p q) as [[? ->]|[? ->]]; try lra; nra.
Qed.

Lemma acceptance_bounds target draft d :
  weights target → weights draft → (0 <= acceptance target draft d <= 1)%Q.
Proof.
  intros [Hp _]%normalize_law [Hq _]%normalize_law. unfold acceptance.
  set (p := (normalize target).[d]). set (q := (normalize draft).[d]).
  assert (0 <= p)%Q as Hp0 by by apply nth_nonneg. assert (0 <= q)%Q as Hq0 by by apply nth_nonneg.
  destruct (Qeq_bool q 0) eqn:E; [destruct (Qltb 0 p); lra|]. apply Qeq_bool_neq in E.
  assert (0 <= p / q)%Q by (apply div_nonneg; lra).
  destruct (Qminimum_spec (p / q) 1) as [[? ->]|[? ->]]; lra.
Qed.

(** The two parts of a law: what both laws share, and the excess. *)
Lemma min_plus_residual p q : (Qminimum p q + Qmaximum (p - q) 0 == p)%Q.
Proof.
  destruct (Qminimum_spec p q) as [[? ->]|[? ->]], (Qmaximum_spec (p - q) 0) as [[? ->]|[? ->]]; lra.
Qed.

(** The mass of the excess is the probability of a rejection. *)
Lemma residual_mass target draft :
  weights target → weights draft → length target = length draft →
  (Qsum (residual (normalize target) (normalize draft)) ==
   Qsum ((λ d, (normalize draft).[d] * (1 - acceptance target draft d))%Q <$> seq 0 (length draft)))%Q.
Proof.
  intros Ht Hd Hl. pose proof (normalize_law _ Ht) as [_ Ep]. pose proof (normalize_law _ Hd) as [_ Eq].
  rewrite (Qsum_positions (residual _ _)), length_residual, length_normalize by (by rewrite !length_normalize).
  rewrite (Qsum_ext _ (λ i, Qmaximum ((normalize target).[i] - (normalize draft).[i]) 0)).
  2: { intros i _. apply nth_residual. by rewrite !length_normalize. }
  rewrite Qsum_positions, length_normalize in Ep. rewrite Qsum_positions, length_normalize in Eq.
  rewrite Hl in *. set (l := seq 0 (length draft)) in *.
  assert (Qsum ((λ i, (normalize target).[i]) <$> l) ==
    Qsum ((λ i, Qminimum (normalize target).[i] (normalize draft).[i]) <$> l) +
    Qsum ((λ i, Qmaximum ((normalize target).[i] - (normalize draft).[i]) 0) <$> l))%Q as E1.
  { rewrite <-Qsum_add. apply Qsum_ext. intros i _. symmetry. apply min_plus_residual. }
  assert (Qsum ((λ i, (normalize draft).[i]) <$> l) ==
    Qsum ((λ i, Qminimum (normalize target).[i] (normalize draft).[i]) <$> l) +
    Qsum ((λ d, (normalize draft).[d] * (1 - acceptance target draft d))%Q <$> l))%Q as E2.
  { rewrite <-Qsum_add. apply Qsum_ext. intros i _. rewrite <-(accept_min target draft i) by done. ring. }
  lra.
Qed.

Lemma correction_law_length target draft :
  length target = length draft → length (correction_law target draft).1 = length target.
Proof.
  intros Hl. unfold correction_law. destruct (Qeq_bool _ 0); simpl; [apply length_normalize|].
  rewrite length_fmap, length_residual; rewrite !length_normalize; done.
Qed.

Lemma correction_is_law target draft :
  weights target → is_law (correction_law target draft).1.
Proof.
  intros Ht. unfold correction_law. destruct (Qeq_bool _ 0) eqn:E; [by apply normalize_law|].
  assert (¬ Qsum (residual (normalize target) (normalize draft)) == 0)%Q as Hne.
  { intros H%Qeq_bool_iff. congruence. }
  apply (normalize_law (residual _ _)). pose proof (residual_nonneg (normalize target) (normalize draft)) as Hn.
  split; [done|]. pose proof (Qsum_nonneg _ Hn). lra.
Qed.

(** The rejected mass, drawn from the corrective law, is the excess. *)
Lemma correction_excess target draft t :
  length target = length draft →
  (Qsum (residual (normalize target) (normalize draft)) * (correction_law target draft).1.[t] ==
   Qmaximum ((normalize target).[t] - (normalize draft).[t]) 0)%Q.
Proof.
  intros Hl. set (p := normalize target). set (q := normalize draft).
  assert (length p = length q) as Hpq by (unfold p, q; by rewrite !length_normalize).
  rewrite <-nth_residual by done. unfold correction_law. fold p q.
  destruct (Qeq_bool (Qsum (residual p q)) 0) eqn:E.
  - apply Qeq_bool_iff in E. rewrite E. rewrite Qmult_0_l. symmetry.
    destruct (decide (t < length (residual p q))) as [Ht|Ht].
    + apply (Qsum_zero (residual p q)); [apply residual_nonneg|done|].
      apply list_elem_of_In, nth_In. done.
    + rewrite nth_overflow by lia. reflexivity.
  - assert (¬ Qsum (residual p q) == 0)%Q as Hne by (intros H%Qeq_bool_iff; congruence).
    change (fst (_ <$> residual p q, false)) with (normalize (residual p q)).
    rewrite nth_normalize. field. done.
Qed.

(** ** The argmax *)

Section argmax.
Context {A : Type} (ltb : A → A → bool).
#[local] Abbreviation le x y := (ltb y x = false).
Hypothesis le_trans : ∀ x y z, le x y → le y z → le x z.
Hypothesis lt_le : ∀ x y, ltb x y = true → le x y.

Lemma argmax_from_spec i best x l :
  (argmax_from ltb i best x l = best ∧ ∀ y, y ∈ l → le y x) ∨
  ∃ k y, argmax_from ltb i best x l = i + k ∧ l !! k = Some y ∧ ltb x y = true ∧ ∀ z, z ∈ l → le z y.
Proof.
  revert i best x. induction l as [|y l IH]; intros i best x; simpl.
  { left. split; [done|]. by intros y ?%elem_of_nil. }
  destruct (ltb x y) eqn:E.
  - right. destruct (IH (S i) i y) as [[-> H]|(k & z & -> & Hk & Hz & H)].
    + exists 0, y. split; [lia|]. split; [done|]. split; [done|].
      intros z [->|Hz]%elem_of_cons; [|by apply H].
      destruct (ltb y y) eqn:Ey; [by rewrite (lt_le _ _ Ey) in Ey|done].
    + exists (S k), z. split; [lia|]. split; [done|]. split.
      * destruct (ltb x z) eqn:Exz; [done|]. pose proof (le_trans y z x (lt_le _ _ Hz) Exz). congruence.
      * intros u [->|Hu]%elem_of_cons; [by apply lt_le|by apply H].
  - destruct (IH (S i) best x) as [[-> H]|(k & z & -> & Hk & Hz & H)].
    + left. split; [done|]. intros u [->|Hu]%elem_of_cons; [done|by apply H].
    + right. exists (S k), z. split; [lia|]. split; [done|]. split; [done|].
      intros u [->|Hu]%elem_of_cons; [|by apply H]. by apply (le_trans y x z), lt_le.
Qed.

Lemma argmax_by_spec l :
  l ≠ [] → ∃ x, l !! argmax_by ltb l = Some x ∧ ∀ y, y ∈ l → le y x.
Proof.
  destruct l as [|x l]; [done|]. intros _. unfold argmax_by.
  destruct (argmax_from_spec 1 0 x l) as [[-> H]|(k & y & -> & Hk & Hy & H)].
  - exists x. split; [done|]. intros y [->|Hu]%elem_of_cons; [|by apply H].
    destruct (ltb x x) eqn:Ex; [by rewrite (lt_le _ _ Ex) in Ex|done].
  - exists y. split; [done|]. intros z [->|Hz]%elem_of_cons; [by apply lt_le|by apply H].
Qed.
End argmax.

Lemma argmax_spec l : l ≠ [] → ∃ x, l !! argmax l = Some x ∧ ∀ y, y ∈ l → (y <= x)%Q.
Proof.
  intros Hl. destruct (argmax_by_spec Qltb) with l as (x & Hx & H); [| |done|].
  - intros x y z. rewrite !Qltb_ge. intros. lra.
  - intros x y. rewrite Qltb_lt, Qltb_ge. lra.
  - exists x. split; [done|]. intros y Hy. by apply Qltb_ge, H.
Qed.

Lemma positive_entry l :
  Forall (λ x, 0 <= x)%Q l → (0 < Qsum l)%Q → ∃ i x, l !! i = Some x ∧ (0 < x)%Q.
Proof.
  induction 1 as [|x l Hx Hl IH]; simpl; intros Hm; [lra|].
  destruct (Qlt_le_dec 0 x); [by exists 0, x|]. destruct IH as (i & y & ? & ?); [lra|]. by exists (S i), y.
Qed.

(** The race never draws a token of weight zero. *)
Lemma race_positive l noise :
  length noise = length l → Forall (λ x, 0 < x)%Q noise → (0 < Qsum l)%Q →
  Forall (λ x, 0 <= x)%Q l →
  ∃ w, l !! _sample_exponential_race l noise = Some w ∧ (0 < w)%Q.
Proof.
  intros Hn Hpos Hm Hnn. unfold _sample_exponential_race.
  destruct (positive_entry l Hnn Hm) as (i & y & Hi & Hy).
  set (r := zip_with Qdiv l noise). assert (length r = length l) as Hr.
  { unfold r. rewrite length_zip_with. lia. }
  destruct (argmax_spec r) as (x & Hx & Hmax); [by intros E; rewrite E in Hr; destruct l|].
  apply lookup_zip_with_Some in Hx as (w & e & -> & Hw' & He). exists w. split; [done|].
  destruct (lookup_lt_is_Some_2 noise i) as [e' He']; [rewrite Hn; by eapply lookup_lt_Some|].
  rewrite Forall_lookup in Hpos. pose proof (Hpos _ _ He). pose proof (Hpos _ _ He').
  assert (y / e' <= w / e)%Q as Hle.
  { apply Hmax. apply list_elem_of_lookup. exists i. unfold r. apply lookup_zip_with_Some. by exists y, e'. }
  assert (0 < y / e')%Q by (apply Qlt_shift_div_l; lra).
  assert (w == (w / e) * e)%Q as -> by (field; lra). nra.
Qed.

(** ** The accepted prefix *)

(** The first rejection ends the accepted prefix. *)
Lemma cumprod_zero l : sum_list (cumprod 0 l) = 0.
Proof. induction l as [|b l IH]; [done|]. simpl. by rewrite IH. Qed.

Lemma accepted_count_cons b l :
  accepted_count (b :: l) = if b then S (accepted_count l) else 0.
Proof. unfold accepted_count. destruct b; [done|]. simpl. apply cumprod_zero. Qed.
