(* ===== verification/SpecLaw.v ===== *)
(** * SpecLaw: speculative sampling draws from the target law

    A probabilistic reading of one speculative cycle: the draft proposes [K]
    tokens from its own laws, modified rejection keeps a prefix of them and draws
    one more token, from the corrective law or, when all were kept, from the
    target law.  The theorem: followed by ordinary sampling, the tokens are
    distributed as if the target alone had been sampled, whatever the draft. *)
From Stdlib Require Import QArith Qfield Lqa Morphisms.
From S2P Require Import Prelude SamplingParams Sampler SamplerSpec.
#[local] Open Scope nat_scope.
#[local] Arguments Qplus : simpl never.
#[local] Arguments Qmult : simpl never.
#[local] Arguments Qminus : simpl never.
#[local] Arguments Qdiv : simpl never.
#[local] Open Scope row_scope.

(** ** Finite distributions *)

(** Outcomes with their weights; an outcome may be listed several times. *)
Definition dist (A : Type) : Type := list (A * Q).

Definition dret {A} (a : A) : dist A := [(a, 1%Q)].
Definition dbind {A B} (d : dist A) (k : A → dist B) : dist B :=
  concat ((λ aw, (λ bv, (bv.1, aw.2 * bv.2)%Q) <$> k aw.1) <$> d).
Notation "'draw' x ':=' d 'in' k" := (dbind d (fun x => k))
  (at level 10, x pattern, d at level 100, k at level 200, format "'draw'  x  ':='  d  'in' '//' k").

(** The expectation of [f]. *)
Definition expect {A} (d : dist A) (f : A → Q) : Q := Qsum ((λ aw, aw.2 * f aw.1)%Q <$> d).

(** The probability of an outcome. *)
Definition prob {A} `{!EqDecision A} (d : dist A) (a : A) : Q :=
  expect d (λ b, if decide (b = a) then 1 else 0)%Q.

(** Equally distributed. *)
Definition same_law {A} (d d' : dist A) : Prop := ∀ f, (expect d f == expect d' f)%Q.
Infix "≈" := same_law (at level 70).

#[export] Instance same_law_equiv {A} : Equivalence (@same_law A).
Proof.
  split; [by intros d f|by intros d d' H f; symmetry; apply H|].
  intros d1 d2 d3 H1 H2 f. etransitivity; [apply H1|apply H2].
Qed.

Lemma expect_ret {A} (a : A) f : (expect (dret a) f == f a)%Q.
Proof. unfold expect, dret. csimpl. ring. Qed.

Lemma expect_app {A} (d d' : dist A) f : (expect (d ++ d') f == expect d f + expect d' f)%Q.
Proof. unfold expect. rewrite fmap_app. apply Qsum_app. Qed.

Lemma expect_weigh {A} c (d : dist A) f :
  (expect ((λ av, (av.1, c * av.2)%Q) <$> d) f == c * expect d f)%Q.
Proof.
  unfold expect. rewrite <-list_fmap_compose, <-Qsum_mult. apply Qsum_ext. intros x _. simpl. ring.
Qed.

Lemma expect_bind {A B} (d : dist A) (k : A → dist B) f :
  (expect (dbind d k) f == expect d (λ a, expect (k a) f))%Q.
Proof.
  unfold dbind. induction d as [|[a w] d IH]; [reflexivity|]. csimpl.
  rewrite expect_app, IH, expect_weigh. unfold expect at 3. csimpl. reflexivity.
Qed.

Lemma expect_ext {A} (d : dist A) f g : (∀ a, f a == g a)%Q → (expect d f == expect d g)%Q.
Proof. intros H. apply Qsum_ext. intros x _. by rewrite H. Qed.

Lemma expect_mult {A} (d : dist A) c f : (expect d (λ a, c * f a) == c * expect d f)%Q.
Proof. unfold expect. rewrite <-Qsum_mult. apply Qsum_ext. intros x _. ring. Qed.

Lemma expect_add {A} (d : dist A) f g :
  (expect d (λ a, f a + g a) == expect d f + expect d g)%Q.
Proof. unfold expect. rewrite <-Qsum_add. apply Qsum_ext. intros x _. ring. Qed.

(** All the mass is there. *)
Definition proper (A : Type) (d : dist A) : Prop := (expect d (λ _, 1) == 1)%Q.
Arguments proper {A}.

Lemma expect_const {A} (d : dist A) c : proper d → (expect d (λ _, c) == c)%Q.
Proof.
  intros H. transitivity (expect d (λ _, c * 1))%Q; [apply expect_ext; intros; ring|].
  rewrite expect_mult. unfold proper in H. rewrite H. ring.
Qed.

Lemma dbind_ext {A B} (d : dist A) (k k' : A → dist B) :
  (∀ a, k a ≈ k' a) → dbind d k ≈ dbind d k'.
Proof. intros H f. rewrite !expect_bind. apply expect_ext. intros a. apply H. Qed.

Lemma dbind_assoc {A B C} (d : dist A) (k : A → dist B) (h : B → dist C) :
  dbind (dbind d k) h ≈ dbind d (λ a, dbind (k a) h).
Proof. intros f. rewrite !expect_bind. apply expect_ext. intros a. by rewrite expect_bind. Qed.

Lemma dbind_ret {A B} (a : A) (k : A → dist B) : dbind (dret a) k ≈ k a.
Proof. intros f. by rewrite expect_bind, expect_ret. Qed.


(** ** The draws of a cycle *)

(** A token of a law. *)
Definition categorical (law : list Q) : dist nat := (λ i, (i, law.[i])) <$> seq 0 (length law).
(** A uniform number is below [a]. *)
Definition flip (a : Q) : dist bool := [(true, a); (false, 1 - a)%Q].

Lemma expect_categorical law f :
  (expect (categorical law) f == Qsum ((λ i, law.[i] * f i)%Q <$> seq 0 (length law)))%Q.
Proof. unfold expect, categorical. by rewrite <-list_fmap_compose. Qed.

Lemma categorical_proper law : is_law law → proper (categorical law).
Proof.
  intros [_ Hm]. unfold proper. rewrite expect_categorical, <-Hm, (Qsum_positions law).
  apply Qsum_ext. intros. ring.
Qed.

Lemma expect_flip a f : (expect (flip a) f == a * f true + (1 - a) * f false)%Q.
Proof. unfold expect, flip. csimpl. ring. Qed.

Lemma flip_proper a : proper (flip a).
Proof. unfold proper. rewrite expect_flip. ring. Qed.

(** ** One position *)

(** A draft token, its acceptance test, and the corrective token. *)
Definition position (target draft : list Q) : dist (nat * bool) :=
  draw d := categorical (normalize draft) in
  draw ok := flip (acceptance target draft d) in
  if ok then dret (d, true)
  else draw t := categorical (correction_law target draft).1 in dret (t, false).

Lemma position_expect target draft f :
  weights target → weights draft → length target = length draft →
  (expect (position target draft) f ==
   Qsum ((λ i, Qminimum (normalize target).[i] (normalize draft).[i] * f (i, true) +
               Qmaximum ((normalize target).[i] - (normalize draft).[i]) 0 * f (i, false))%Q
          <$> seq 0 (length target)))%Q.
Proof.
  intros Ht Hd Hl. unfold position. rewrite expect_bind, expect_categorical, length_normalize.
  set (c := expect (categorical (correction_law target draft).1) (λ t, f (t, false))).
  rewrite (Qsum_ext _ (λ d, Qminimum (normalize target).[d] (normalize draft).[d] * f (d, true) +
    c * ((normalize draft).[d] * (1 - acceptance target draft d)))%Q).
  2: { intros d _. rewrite expect_bind, expect_flip, expect_ret, expect_bind.
       assert (expect (categorical (correction_law target draft).1) (λ a, expect (dret (a, false)) f) == c)%Q as ->.
       { apply expect_ext. intros a. apply expect_ret. }
       rewrite <-(accept_min target draft d) by done. ring. }
  rewrite Qsum_add, Qsum_mult, <-residual_mass by done. rewrite <-Hl, Qsum_add.
  apply Qplus_comp; [reflexivity|]. unfold c.
  rewrite expect_categorical, correction_law_length, Qmult_comm, <-Qsum_mult by done.
  apply Qsum_ext. intros i _. rewrite Qmult_assoc, correction_excess by done. ring.
Qed.

(** The emitted token has the target law. *)
Lemma position_target target draft f :
  weights target → weights draft → length target = length draft →
  (expect (position target draft) (λ tb, f tb.1) == expect (categorical (normalize target)) f)%Q.
Proof.
  intros Ht Hd Hl. rewrite position_expect, expect_categorical, length_normalize by done.
  apply Qsum_ext. intros i _. simpl. rewrite <-Qmult_plus_distr_l, min_plus_residual. reflexivity.
Qed.

(** ** A cycle *)

(** The tests of a whole row, each on its own uniform number. *)
Fixpoint flip_all (l : list Q) : dist (list bool) :=
  match l with
  | [] => dret []
  | a :: l' => draw b := flip a in draw bs := flip_all l' in dret (b :: bs)
  end.

Lemma flip_all_proper l : proper (flip_all l).
Proof.
  induction l as [|a l IH]; [apply (expect_ret (A:=list bool) [] (λ _, 1%Q))|]. unfold proper. simpl. rewrite expect_bind.
  rewrite (expect_ext _ _ (λ _, 1%Q)); [apply flip_proper|]. intros b. rewrite expect_bind.
  rewrite (expect_ext _ _ (λ _, 1%Q)); [apply IH|]. intros bs. apply (expect_ret (b :: bs) (λ _, 1%Q)).
Qed.

Section cycle.
(** The weights after a prefix, of the target and of the draft. *)
Context (target draft : list nat → list Q).

(** [n] tokens sampled in order from a model. *)
Fixpoint chain (law : list nat → list Q) (n : nat) (prefix : list nat) : dist (list nat) :=
  match n with
  | O => dret []
  | S n' =>
      draw t := categorical (normalize (law prefix)) in
      draw l := chain law n' (prefix ++ [t]) in
      dret (t :: l)
  end.

(** The acceptance probabilities along the proposals. *)
Fixpoint acceptances (prefix ds : list nat) : list Q :=
  match ds with
  | [] => []
  | d :: ds' => acceptance (target prefix) (draft prefix) d :: acceptances (prefix ++ [d]) ds'
  end.

(** A speculative cycle of [k] proposals: the tokens it emits. *)
Definition cycle (k : nat) (prefix : list nat) : dist (list nat) :=
  draw ds := chain draft k prefix in
  draw accepts := flip_all (acceptances prefix ds) in
  let c := accepted_count accepts in
  let here := prefix ++ take c ds in
  draw t := categorical (if c =? k then normalize (target here)
                         else (correction_law (target here) (draft here)).1) in
  dret (take c ds ++ [t]).

(** The cycle, then ordinary sampling up to [n] tokens. *)
Definition completed (n k : nat) (prefix : list nat) : dist (list nat) :=
  draw burst := cycle k prefix in
  draw rest := chain target (n - length burst) (prefix ++ burst) in
  dret (burst ++ rest).

Hypothesis target_weights : ∀ prefix, weights (target prefix).
Hypothesis draft_weights : ∀ prefix, weights (draft prefix).
Hypothesis same_vocabulary : ∀ prefix, length (target prefix) = length (draft prefix).

Lemma chain_proper law n prefix : (∀ x, weights (law x)) → proper (chain law n prefix).
Proof.
  intros Hw. revert prefix. induction n as [|n IH]; intros prefix; [apply (expect_ret (A:=list nat) [] (λ _, 1%Q))|].
  unfold proper. simpl. rewrite expect_bind. rewrite (expect_ext _ _ (λ _, 1%Q)).
  - apply categorical_proper. by apply normalize_law.
  - intros t. rewrite expect_bind. rewrite (expect_ext _ _ (λ _, 1%Q)); [apply IH|].
    intros l. apply (expect_ret (t :: l) (λ _, 1%Q)).
Qed.

Lemma chain_expect law n prefix f :
  (expect (chain law (S n) prefix) f ==
   expect (categorical (normalize (law prefix))) (λ t, expect (chain law n (prefix ++ [t])) (λ l, f (t :: l))))%Q.
Proof.
  simpl. rewrite expect_bind. apply expect_ext. intros t. rewrite expect_bind.
  apply expect_ext. intros l. apply expect_ret.
Qed.

(** The cycle, position by position. *)
Lemma cycle_expect k prefix f :
  (expect (cycle (S k) prefix) f ==
   expect (position (target prefix) (draft prefix)) (λ tb : nat * bool,
     if tb.2 then expect (cycle k (prefix ++ [tb.1])) (λ b, f (tb.1 :: b)) else f [tb.1]))%Q.
Proof.
  set (g := λ tb : nat * bool, if tb.2
    then expect (cycle k (prefix ++ [tb.1])) (λ b, f (tb.1 :: b)) else f [tb.1]).
  unfold cycle at 1, position. rewrite !expect_bind, chain_expect. apply expect_ext. intros d.
  set (a := acceptance (target prefix) (draft prefix) d).
  set (corrected := expect (categorical (correction_law (target prefix) (draft prefix)).1) (λ t, f [t])).
  rewrite expect_bind, expect_flip, expect_ret, expect_bind.
  assert (expect (categorical (correction_law (target prefix) (draft prefix)).1)
    (λ a0, expect (dret (a0, false)) g) == corrected)%Q as ->.
  { apply expect_ext. intros t. apply (expect_ret (t, false) g). }
  unfold g, cycle. cbn [fst snd]. rewrite expect_bind.
  rewrite <-(expect_const (chain draft k (prefix ++ [d])) corrected) by by apply chain_proper.
  rewrite <-!expect_mult, <-expect_add. apply expect_ext. intros ds.
  rewrite !expect_bind. cbn [acceptances flip_all]. fold a. rewrite expect_bind, expect_flip.
  rewrite !expect_bind. apply Qplus_comp; (apply Qmult_comp; [reflexivity|]).
  - apply expect_ext. intros bs. rewrite expect_ret, accepted_count_cons. cbn [Nat.eqb take].
    rewrite !expect_bind, <-!(assoc_L (++)). apply expect_ext. intros t. by rewrite !expect_ret.
  - rewrite <-(expect_const (flip_all (acceptances (prefix ++ [d]) ds)) corrected) by apply flip_all_proper.
    apply expect_ext. intros bs. rewrite expect_ret, accepted_count_cons. cbn [Nat.eqb take].
    rewrite expect_bind, app_nil_r. apply expect_ext. intros t. by rewrite expect_ret.
Qed.

Lemma completed_expect n k prefix f :
  (expect (completed n k prefix) f ==
   expect (cycle k prefix) (λ b, expect (chain target (n - length b) (prefix ++ b)) (λ l, f (b ++ l))))%Q.
Proof.
  unfold completed. rewrite expect_bind. apply expect_ext. intros b. rewrite expect_bind.
  apply expect_ext. intros l. apply expect_ret.
Qed.

Lemma completed_chain n k prefix f :
  k < n → (expect (completed n k prefix) f == expect (chain target n prefix) f)%Q.
Proof.
  revert n prefix f. induction k as [|k IH]; intros n prefix f Hn; (destruct n as [|n]; [lia|]).
  - rewrite completed_expect, chain_expect. unfold cycle. rewrite expect_bind. simpl chain at 1.
    rewrite expect_ret, expect_bind. cbn [acceptances flip_all]. rewrite expect_ret, expect_bind.
    cbn [Nat.eqb take]. rewrite app_nil_r. unfold accepted_count. simpl.
    apply expect_ext. intros t. rewrite expect_ret. simpl. by rewrite Nat.sub_0_r.
  - rewrite completed_expect, cycle_expect, chain_expect.
    rewrite <-(position_target (target prefix) (draft prefix)) by done. apply expect_ext.
    intros [t [|]]; cbn [fst snd].
    + rewrite <-(IH n (prefix ++ [t]) (λ l, f (t :: l))) by lia. rewrite completed_expect.
      apply expect_ext. intros b. simpl. rewrite <-(assoc_L (++)). reflexivity.
    + simpl. by rewrite Nat.sub_0_r.
Qed.

(** C7: speculative sampling is exact.  Whatever the weights of the draft, a
    cycle of [k] proposals, its acceptance tests, its corrective or bonus token,
    then ordinary sampling, give every sequence of [n > k] tokens the probability
    that sampling the target alone gives it. *)
Theorem speculative_sampling_exact n k prefix l :
  k < n → (prob (completed n k prefix) l == prob (chain target n prefix) l)%Q.
Proof. apply completed_chain. Qed.
End cycle.
