(* ===== verification/AcceptSpec.v ===== *)
(** * AcceptSpec: modified rejection on tensors

    What [accept] answers, row by row, when its arguments pass the checks; that
    every token it lets through has positive target probability and that its
    numerical fallback is unreachable; that the trusted device path computes the
    same; and that greedy rows come out as greedy decoding. *)
From Stdlib Require Import QArith Qfield Lqa.
From S2P Require Import Prelude SamplingParams Sampler SamplerSpec.
#[local] Open Scope nat_scope.
#[local] Arguments Qplus : simpl never.
#[local] Arguments Qmult : simpl never.
#[local] Arguments Qminus : simpl never.
#[local] Arguments Qdiv : simpl never.
#[local] Open Scope row_scope.

(** ** Rows of a tensor *)

(** The data fill the shape. *)
Definition wf_tensor {A} (t : tensor A) : Prop :=
  length (tn_data t) = foldr Nat.mul 1 (tn_shape t).

Lemma length_chunks {A} k n (l : list A) : length (chunks k n l) = k.
Proof. revert l. induction k as [|k IH]; intros l; [done|]. simpl. by rewrite IH. Qed.

Lemma chunks_rows {A} k n (l : list A) :
  length l = k * n → Forall (λ row, length row = n) (chunks k n l).
Proof.
  revert l. induction k as [|k IH]; intros l Hl; [constructor|]. simpl. constructor.
  - rewrite length_take. lia.
  - apply IH. rewrite length_drop. lia.
Qed.

Lemma chunks_elem {A} k n (l : list A) row x : row ∈ chunks k n l → x ∈ row → x ∈ l.
Proof.
  revert l. induction k as [|k IH]; intros l; [by intros ?%elem_of_nil|]. simpl.
  intros [->|H]%elem_of_cons Hx; rewrite <-(take_drop n l); apply elem_of_app; [by left|right; by apply IH].
Qed.

Lemma chunks_concat {A} n (rows : list (list A)) :
  Forall (λ row, length row = n) rows → chunks (length rows) n (concat rows) = rows.
Proof.
  induction 1 as [|row rows Hr _ IH]; [done|]. simpl.
  by rewrite take_app_length', drop_app_length', IH.
Qed.

Lemma length_concat_rows {A} n (rows : list (list A)) :
  Forall (λ row, length row = n) rows → length (concat rows) = length rows * n.
Proof. induction 1 as [|row rows Hr _ IH]; [done|]. simpl. rewrite length_app. lia. Qed.

(** ** The accepted prefix *)

Lemma accepted_count_spec l :
  accepted_count l ≤ length l ∧ (∀ i, i < accepted_count l → l !! i = Some true) ∧
  (accepted_count l < length l → l !! accepted_count l = Some false).
Proof.
  induction l as [|b l (H1 & H2 & H3)]; [split_and!; [done|intros; simpl in *; unfold accepted_count in *; simpl in *; lia|simpl; lia]|].
  rewrite accepted_count_cons. destruct b; simpl.
  - split_and!; [lia| |intros; apply H3; lia]. intros [|i] Hi; [done|]. apply H2. lia.
  - split_and!; [lia|intros; lia|done].
Qed.

(** ** One rejected position *)

Lemma rejection_mass target draft d u :
  weights target → weights draft → length target = length draft → d < length draft →
  (0 < draft.[d])%Q → (u < 1)%Q → Qltb u (acceptance target draft d) = false →
  (0 < Qsum (residual (normalize target) (normalize draft)))%Q.
Proof.
  intros Ht Hd Hl Hdl Hq Hu Hr. apply Qltb_ge in Hr.
  pose proof (Qsum_nonneg _ (residual_nonneg (normalize target) (normalize draft))) as Hn.
  destruct (Qlt_le_dec 0 (Qsum (residual (normalize target) (normalize draft)))) as [|Hz]; [done|].
  assert (Qsum (residual (normalize target) (normalize draft)) == 0)%Q as E by lra.
  rewrite residual_mass in E by done.
  assert ((normalize draft).[d] * (1 - acceptance target draft d) == 0)%Q as Ez.
  { eapply (Qsum_zero _ _ _ E). apply list_elem_of_fmap. exists d. split; [done|]. apply elem_of_seq. lia. }
  rewrite nth_normalize in Ez. destruct Hd as [_ Hm]. pose proof (acceptance_bounds target draft d Ht) as Hb.
  assert (0 < draft.[d] / Qsum draft)%Q by (apply Qlt_shift_div_l; lra). nra.
  Unshelve. apply Forall_fmap, Forall_forall. intros i _. simpl.
  pose proof (acceptance_bounds target draft i Ht Hd). 
  pose proof (nth_nonneg _ i (lw_nonneg _ (normalize_law _ Hd))). nra.
Qed.

(** A rejection never falls back, and its token has more weight in the target. *)
Lemma correction_token target draft noise d u :
  weights target → weights draft → length target = length draft → d < length draft →
  (0 < draft.[d])%Q → (u < 1)%Q → Qltb u (acceptance target draft d) = false →
  length noise = length target → Forall (λ x, 0 < x)%Q noise →
  let '(law, fallback) := correction_law target draft in
  let t := _sample_exponential_race law noise in
  fallback = false ∧ t < length target ∧ ((normalize draft).[t] < (normalize target).[t])%Q.
Proof.
  intros Ht Hd Hl Hdl Hq Hu Hr Hnl Hn.
  pose proof (rejection_mass target draft d u Ht Hd Hl Hdl Hq Hu Hr) as Hm.
  pose proof (correction_law_length target draft Hl) as Hcl.
  destruct (correction_is_law target draft Ht) as [Hcn Hcm].
  unfold correction_law in *. set (r := residual _ _) in *.
  destruct (Qeq_bool (Qsum r) 0) eqn:E; [apply Qeq_bool_iff in E; lra|]. cbn [fst snd] in *.
  destruct (race_positive _ noise (eq_trans Hnl (eq_sym Hcl)) Hn) as (w & Hw & Hwp); [lra|done|].
  set (t := _sample_exponential_race _ _) in *. split; [done|].
  split; [rewrite <-Hcl; by eapply lookup_lt_Some|].
  apply list_lookup_fmap_Some in Hw as (x & -> & Hx).
  assert (0 < x)%Q as Hxp.
  { assert (x == x / Qsum r * Qsum r)%Q as -> by (field; lra). nra. }
  pose proof (nth_residual (normalize target) (normalize draft) t) as Hres.
  rewrite !length_normalize in Hres. specialize (Hres Hl). fold r in Hres.
  rewrite (nth_lookup_Some r t 0%Q x Hx) in Hres.
  destruct (Qmaximum_spec ((normalize target).[t] - (normalize draft).[t]) 0) as [[? Em]|[? Em]];
    rewrite Em in Hres; lra.
Qed.

(** ** What the checks establish *)

Lemma check_ok c e : check c e = Ok tt ↔ c = true.
Proof. unfold check. rewrite oraise_if_ok. by destruct c. Qed.

Lemma forallb_Forall {A} (f : A → bool) l : forallb f l = true ↔ Forall (λ x, f x = true) l.
Proof. rewrite forallb_forall, Forall_forall. by setoid_rewrite list_elem_of_In. Qed.

Lemma existsb_none {A} (f : A → bool) l : existsb f l = false ↔ Forall (λ x, f x = false) l.
Proof.
  induction l as [|x l IH]; simpl; [by split|]. rewrite orb_false_iff, Forall_cons. tauto.
Qed.

(** Canonical weights: [b] matrices of [k] rows over [v] tokens. *)
Record cube (t : tensor fval) (b k v : nat) : Prop := {
  cb_dtype : tn_dtype t = Float32;
  cb_shape : tn_shape t = [b; k; v];
  cb_wf : wf_tensor t;
  cb_pos : 0 < b ∧ 0 < k ∧ 0 < v;
  cb_finite : Forall (λ x, isfinite x = true) (tn_data t);
  cb_nonneg : Forall (λ x, fless x 0 = false) (tn_data t);
  cb_mass : Forall (Forall (λ row, Qltb 0 (Qsum (nums1 row)) = true)) (rows3 t);
}.

Lemma nums1_weights row :
  Forall (λ x, isfinite x = true) row → Forall (λ x, fless x 0 = false) row →
  Qltb 0 (Qsum (nums1 row)) = true → weights (nums1 row).
Proof.
  intros Hf Hn Hm. split; [|by apply Qltb_lt]. apply Forall_fmap.
  rewrite Forall_forall in Hf, Hn |- *. intros x Hx. specialize (Hf x Hx). specialize (Hn x Hx).
  destruct x as [q| | |]; try done. simpl in *. by apply Qltb_ge.
Qed.

Lemma validate_cube name t b k v :
  cube t b k v → _validate_canonical_weights (ATensor t) name 3 = Ok t.
Proof.
  intros [Hd Hs Hwf (Hb & Hk & Hv) Hf Hn Hm]. unfold _validate_canonical_weights.
  rewrite (proj2 (check_ok _ _)) by by apply bool_decide_eq_true. cbn [obind].
  rewrite (proj2 (check_ok _ _)) by (rewrite Hs; by apply bool_decide_eq_true). cbn [obind].
  rewrite (proj2 (oraise_if_ok _ _)). cbn [obind].
  2: { apply existsb_none. rewrite Hs, !Forall_cons, !Nat.eqb_neq. split_and!; [lia..|constructor]. }
  rewrite (proj2 (check_ok _ _)) by by apply forallb_Forall. cbn [obind].
  rewrite (proj2 (oraise_if_ok _ _)) by by apply existsb_none. cbn [obind].
  rewrite (proj2 (check_ok _ _)); [done|]. apply forallb_Forall, Forall_fmap.
  simpl. apply Forall_forall. intros row Hrow. apply list_elem_of_In, in_concat in Hrow as (m & Hmm & Hrow).
  apply list_elem_of_In in Hmm, Hrow. rewrite Forall_forall in Hm. specialize (Hm m Hmm).
  rewrite Forall_forall in Hm. by apply Hm.
Qed.

(** The rows of a cube. *)
Lemma cube_rows t b k v :
  cube t b k v → length (rows3 t) = b ∧
    Forall (λ m, length m = k ∧ Forall (λ row, length row = v ∧ weights (nums1 row) ∧
      Forall (λ x, isfinite x = true) row ∧ Forall (λ x, fless x 0 = false) row) m) (rows3 t).
Proof.
  intros [Hd Hs Hwf (Hb & Hk & Hv) Hf Hn Hm]. unfold wf_tensor in Hwf. rewrite Hs in Hwf. simpl in Hwf.
  assert (∀ m row x, m ∈ rows3 t → row ∈ m → x ∈ row → x ∈ tn_data t) as Hin.
  { unfold rows3. rewrite Hs. intros m row x (m0 & -> & Hm0)%list_elem_of_fmap Hrow Hx.
    eapply chunks_elem; [exact Hm0|]. by eapply chunks_elem. }
  assert (Forall (λ m, length m = k ∧ Forall (λ row, length row = v) m) (rows3 t)) as Hrows.
  { unfold rows3. rewrite Hs. apply Forall_fmap.
    eapply Forall_impl; [apply chunks_rows; lia|]. intros m Hlm. simpl. rewrite length_chunks.
    split; [done|]. by apply chunks_rows. }
  split; [unfold rows3; by rewrite Hs, length_fmap, length_chunks|].
  rewrite Forall_forall in Hf. rewrite Forall_forall in Hn. rewrite Forall_forall in Hm.
  rewrite Forall_forall in Hrows. apply Forall_forall. intros m Hmm. destruct (Hrows m Hmm) as [Hlm Hlr].
  split; [done|]. specialize (Hm m Hmm). rewrite Forall_forall in Hm. rewrite Forall_forall in Hlr.
  apply Forall_forall. intros row Hr.
  assert (Forall (λ x, isfinite x = true) row) by (apply Forall_forall; eauto).
  assert (Forall (λ x, fless x 0 = false) row) by (apply Forall_forall; eauto).
  split_and!; try done; [by apply Hlr|]. by apply nums1_weights, Hm.
Qed.

(** Row [j] of matrix [i]. *)
Definition at3 (t : tensor fval) (i j : nat) : list fval := nth j (nth i (rows3 t) []) [].

Lemma cube_at t b k v i j :
  cube t b k v → i < b → j < k →
  length (at3 t i j) = v ∧ weights (nums1 (at3 t i j)) ∧
    Forall (λ x, isfinite x = true) (at3 t i j) ∧ Forall (λ x, fless x 0 = false) (at3 t i j).
Proof.
  intros [Hb Hr]%cube_rows Hi Hj. unfold at3.
  destruct (lookup_lt_is_Some_2 (rows3 t) i) as [m Hm]; [lia|]. rewrite (nth_lookup_Some _ _ [] m Hm).
  rewrite Forall_lookup in Hr. destruct (Hr _ _ Hm) as [Hk Hv].
  destruct (lookup_lt_is_Some_2 m j) as [row Hrow]; [lia|]. rewrite (nth_lookup_Some _ _ [] row Hrow).
  rewrite Forall_lookup in Hv. by eapply Hv.
Qed.

(** ** The gathered rows *)

Lemma gathered_rows t v rows :
  Forall (λ row, length row = v) rows → rows2 (gathered t v rows) = rows.
Proof. intros H. unfold rows2. simpl. by apply chunks_concat. Qed.

Lemma validate_gathered name t v rows :
  tn_dtype t = Float32 → rows ≠ [] → 0 < v →
  Forall (λ row, length row = v ∧ weights (nums1 row) ∧
      Forall (λ x, isfinite x = true) row ∧ Forall (λ x, fless x 0 = false) row) rows →
  _validate_canonical_weights (ATensor (gathered t v rows)) name 2 = Ok (gathered t v rows).
Proof.
  intros Hd Hne Hv Hr. unfold _validate_canonical_weights. simpl tn_dtype. simpl tn_shape.
  rewrite (proj2 (check_ok _ _)) by by apply bool_decide_eq_true. cbn [obind].
  rewrite (proj2 (check_ok _ _)) by done. cbn [obind].
  rewrite (proj2 (oraise_if_ok _ _)). cbn [obind].
  2: { apply existsb_none. rewrite !Forall_cons, !Nat.eqb_neq. split_and!; [by destruct rows|lia|constructor]. }
  rewrite Forall_forall in Hr.
  assert (∀ x, x ∈ concat rows → ∃ row, row ∈ rows ∧ x ∈ row) as Hin.
  { intros x Hx. apply list_elem_of_In, in_concat in Hx as (row & ? & ?). exists row.
    by rewrite !list_elem_of_In. }
  rewrite (proj2 (check_ok _ _)). cbn [obind].
  2: { apply forallb_Forall, Forall_forall. intros x (row & Hrow & Hx)%Hin.
       destruct (Hr row Hrow) as (_ & _ & Hf & _). rewrite Forall_forall in Hf. by apply Hf. }
  rewrite (proj2 (oraise_if_ok _ _)). cbn [obind].
  2: { apply existsb_none, Forall_forall. intros x (row & Hrow & Hx)%Hin.
       destruct (Hr row Hrow) as (_ & _ & _ & Hf). rewrite Forall_forall in Hf. by apply Hf. }
  rewrite (proj2 (check_ok _ _)); [done|]. apply forallb_Forall. unfold row_masses. simpl Nat.eqb. cbn iota.
  rewrite gathered_rows by (apply Forall_forall; intros row ?; by apply Hr).
  apply Forall_fmap, Forall_forall. intros row Hrow. simpl. apply Qltb_lt. by apply (Hr row Hrow).
Qed.

(** Copying one value per index into a batch. *)
Lemma copy_rows {A} (f : nat → A) base ixs n :
  NoDup ixs → length base = n → (∀ i, i ∈ ixs → i < n) →
  foldl (λ l ix, <[ix.1 := ix.2]> l) base (zip ixs (f <$> ixs)) =
  imap (λ i x, if bool_decide (i ∈ ixs) then f i else x) base.
Proof.
  intros Hnd Hl Hlt. revert base Hl. induction Hnd as [|i ixs Hi Hnd IH]; intros base Hl.
  { simpl. apply list_eq. intros j. rewrite list_lookup_imap. by destruct (base !! j). }
  cbn [zip zip_with fmap list_fmap foldl fst snd].
  change (zip_with pair ixs (list_fmap _ _ f ixs)) with (zip ixs (f <$> ixs)).
  rewrite IH; [|intros; apply Hlt; set_solver|by rewrite length_insert].
  apply list_eq. intros j. rewrite !list_lookup_imap, list_lookup_insert.
  case_decide as Hn; [destruct Hn as [-> Hj]|].
  - destruct (lookup_lt_is_Some_2 base j Hj) as [x Hx]. rewrite Hx. simpl.
    rewrite (bool_decide_eq_true_2 (j ∈ j :: ixs)) by set_solver. by destruct (bool_decide (j ∈ ixs)).
  - destruct (base !! j) as [x|] eqn:Hx; [|done]. simpl.
    apply lookup_lt_Some in Hx. destruct (decide (j ∈ ixs)) as [Hj|Hj].
    + by rewrite !bool_decide_eq_true_2 by set_solver.
    + rewrite !bool_decide_eq_false_2; [done|set_solver|done].
Qed.

(** ** A valid call *)

Section call.
Context (rand : nat → nat → list (list Q)) (exponential : nat → nat → list (list fval)).
Context (b k v : nat) (t d : tensor fval) (tok : tensor Z) (u e : tensor fval).

(** Canonical weights, tokens the draft could have proposed, uniforms below one
    and positive noise, all on one device. *)
Record valid_call : Prop := {
  vl_target : cube t b k v;
  vl_draft : cube d b k v;
  vl_device : tn_device d = tn_device t ∧ tn_device tok = tn_device t ∧ tn_device u = tn_device t ∧
    tn_device e = tn_device t;
  vl_dtype : tn_dtype tok = Int64 ∧ tn_dtype u = Float32 ∧ tn_dtype e = Float32;
  vl_shape : tn_shape tok = [b; k] ∧ tn_shape u = [b; k] ∧ tn_shape e = [b; v];
  vl_wf : wf_tensor tok ∧ wf_tensor u ∧ wf_tensor e;
  vl_tokens : Forall (λ x, (0 <= x < Z.of_nat v)%Z) (tn_data tok);
  vl_uniforms : Forall (λ x, isfinite x && negb (fless x 0) && fless x 1 = true) (tn_data u);
  vl_noise : Forall (λ x, isfinite x && fgreater x 0 = true) (tn_data e);
  vl_proposed : Forall (λ dr : list (list Q) * list nat,
      Forall (λ qd : list Q * nat, (0 < qd.1.[qd.2])%Q) (zip dr.1 dr.2))
    (zip (nums3 (rows3 d)) (map (map Z.to_nat) (rows2 tok)));
}.

(** Row [i] of the arguments. *)
Definition row_target (i : nat) : list (list Q) := nums2 (nth i (rows3 t) []).
Definition row_draft (i : nat) : list (list Q) := nums2 (nth i (rows3 d) []).
Definition row_tokens (i : nat) : list nat := map Z.to_nat (nth i (rows2 tok) []).
Definition row_uniforms (i : nat) : list Q := nums1 (nth i (rows2 u) []).
Definition row_noise (i : nat) : list Q := nums1 (nth i (rows2 e) []).

(** Its accepted count, and the law at its first rejected position. *)
Definition row_flags (i : nat) : list bool :=
  row_accepts (row_target i) (row_draft i) (row_tokens i) (row_uniforms i).
Definition row_count (i : nat) : nat := accepted_count (row_flags i).
Definition row_correction (i : nat) : list Q * bool :=
  correction_law (nth (row_count i) (row_target i) []) (nth (row_count i) (row_draft i) []).
Definition row_token (i : nat) : nat := _sample_exponential_race (row_correction i).1 (row_noise i).

(** What [accept] answers. *)
Definition row_results : ModifiedRejectionResult :=
  mk_rejection (row_count <$> seq 0 b)
    ((λ i, if row_count i <? k then Z.of_nat (row_token i) else (-1)%Z) <$> seq 0 b)
    ((λ i, row_count i <? k) <$> seq 0 b)
    ((λ i, (row_count i <? k) && (row_correction i).2) <$> seq 0 b).

Hypothesis Hcall : valid_call.

Lemma matrix_rows {A} (x : tensor A) m n :
  tn_shape x = [m; n] → wf_tensor x → length (rows2 x) = m ∧ Forall (λ row, length row = n) (rows2 x) ∧
    ∀ row y, row ∈ rows2 x → y ∈ row → y ∈ tn_data x.
Proof.
  intros Hs Hwf. unfold wf_tensor in Hwf. rewrite Hs in Hwf. simpl in Hwf. unfold rows2. rewrite Hs.
  split; [apply length_chunks|]. split; [apply chunks_rows; lia|]. intros row y. apply chunks_elem.
Qed.

(** The rows of the arguments, as functions of the index. *)
Lemma rows_by_index {A} (l : list A) x : l = (λ i, nth i l x) <$> seq 0 (length l).
Proof.
  induction l as [|y l IH]; [done|]. simpl. f_equal. rewrite <-fmap_S_seq, <-list_fmap_compose.
  exact IH.
Qed.

Lemma map_lookup_nth {A B} (f : A → B) l i x y : map f l !! i = Some y → f (nth i l x) = y.
Proof.
  intros H. change (map f l) with (f <$> l) in H. apply list_lookup_fmap_Some in H as (z & -> & Hz).
  by rewrite (nth_lookup_Some _ _ x z Hz).
Qed.

Lemma accepts_rows :
  (λ r : list (list Q) * list (list Q) * (list nat * list Q),
     accepted_count (row_accepts r.1.1 r.1.2 r.2.1 r.2.2)) <$>
    zip (zip (nums3 (rows3 t)) (nums3 (rows3 d))) (zip (map (map Z.to_nat) (rows2 tok)) (nums2 (rows2 u)))
  = row_count <$> seq 0 b.
Proof.
  destruct Hcall as [Ct Cd _ _ (Hs1 & Hs2 & _) (Hw1 & Hw2 & _) _ _ _ _].
  destruct (cube_rows _ _ _ _ Ct) as [Lt _], (cube_rows _ _ _ _ Cd) as [Ld _].
  destruct (matrix_rows tok b k Hs1 Hw1) as [Lk _], (matrix_rows u b k Hs2 Hw2) as [Lu _].
  apply list_eq_same_length with b; [by rewrite length_fmap, length_seq| |].
  { rewrite length_fmap, !length_zip_with. unfold nums3, nums2. rewrite !length_map. lia. }
  intros i x y Hi Hx Hy. apply list_lookup_fmap_Some in Hx as ([[P D] [T U]] & -> & Hz).
  apply lookup_zip_Some in Hz as [[HP HD]%lookup_zip_Some [HT HU]%lookup_zip_Some].
  apply list_lookup_fmap_Some in Hy as (j & -> & [-> _]%lookup_seq). simpl.
  unfold row_count, row_flags, row_target, row_draft, row_tokens, row_uniforms. simpl.
  by rewrite (map_lookup_nth _ _ _ [] _ HP), (map_lookup_nth _ _ _ [] _ HD),
    (map_lookup_nth _ _ _ [] _ HT), (map_lookup_nth _ _ _ [] _ HU).
Qed.

Lemma row_count_le i : i < b → row_count i ≤ k.
Proof.
  intros Hi. destruct Hcall as [Ct Cd _ _ _ _ _ _ _ _].
  destruct (cube_rows _ _ _ _ Ct) as [Lt Ft].
  destruct (lookup_lt_is_Some_2 (rows3 t) i) as [m Hm]; [lia|]. rewrite Forall_lookup in Ft.
  destruct (Ft _ _ Hm) as [Hk _]. unfold row_count. destruct (accepted_count_spec (row_flags i)) as [H _].
  etrans; [exact H|]. unfold row_flags, row_accepts, row_target. rewrite (nth_lookup_Some _ _ [] m Hm).
  rewrite !length_zip_with. unfold nums2. rewrite length_map. lia.
Qed.

Lemma zip_with_same {A B C D} (f : B → C → D) (g : A → B) (h : A → C) l :
  zip_with f (g <$> l) (h <$> l) = (λ x, f (g x) (h x)) <$> l.
Proof. induction l as [|x l IH]; [done|]. csimpl. by rewrite IH. Qed.

Lemma nth_nums2 l i : nth i (nums2 l) [] = nums1 (nth i l []).
Proof. exact (map_nth nums1 l [] i). Qed.

(** The corrections drawn for the rejected rows. *)
Lemma correction_run rows :
  rows ≠ [] → Forall (λ i, i < b ∧ row_count i < k) rows →
  let pick (x : tensor fval) := (λ i, nth (row_count i) (nth i (rows3 x) []) []) <$> rows in
  sample_correction exponential (ATensor (gathered t v (pick t))) (ATensor (gathered d v (pick d)))
    (ATensor (gathered e v ((λ i, nth i (rows2 e) []) <$> rows))) =
  Ok (mk_residual_sample ((λ i, Z.of_nat (row_token i)) <$> rows) ((λ _, true) <$> rows)
        ((λ i, (row_correction i).2) <$> rows)).
Proof.
  intros Hne Hrows pick. destruct Hcall as [Ct Cd (Hd1 & _ & _ & Hd4) (_ & _ & Hde) (_ & _ & Hse) (_ & _ & Hwe) _ _ Hn _].
  destruct (matrix_rows e b v Hse Hwe) as (Le & Fe & Ie). rewrite Forall_forall in Hrows.
  assert (∀ x, cube x b k v → _validate_canonical_weights (ATensor (gathered x v (pick x)))
    "target_weights" 2 = Ok (gathered x v (pick x)) ∧ _validate_canonical_weights (ATensor (gathered x v (pick x)))
    "draft_weights" 2 = Ok (gathered x v (pick x)) ∧ Forall (λ row, length row = v) (pick x)) as Hval.
  { intros x Cx. assert (Forall (λ row, length row = v ∧ weights (nums1 row) ∧
      Forall (λ x, isfinite x = true) row ∧ Forall (λ x, fless x 0 = false) row) (pick x)) as Hp.
    { apply Forall_fmap, Forall_forall. intros i Hi. destruct (Hrows i Hi). by apply (cube_at x b k v). }
    split_and!; [apply validate_gathered..|]; try done; try apply Cx; try (by destruct rows).
    eapply Forall_impl; [exact Hp|]. by intros ? []. }
  destruct (Hval t Ct) as (Et & _ & Ft), (Hval d Cd) as (_ & Ed & Fd).
  set (nrows := (λ i, nth i (rows2 e) []) <$> rows).
  assert (Forall (λ row, length row = v) nrows) as Fn.
  { apply Forall_fmap, Forall_forall. intros i Hi. destruct (Hrows i Hi) as [Hib _].
    destruct (lookup_lt_is_Some_2 (rows2 e) i) as [row Hrow]; [lia|]. simpl.
    rewrite (nth_lookup_Some _ _ [] row Hrow). rewrite Forall_lookup in Fe. by eapply Fe. }
  unfold sample_correction, _validate_pair. rewrite Et. cbn [obind]. rewrite Ed. cbn [obind].
  rewrite (proj2 (check_ok _ _)). cbn [obind].
  2: { apply bool_decide_eq_true. simpl. unfold pick. by rewrite !length_fmap. }
  rewrite (proj2 (check_ok _ _)) by (apply bool_decide_eq_true; done). cbn [obind is_none].
  assert (_validate_race_noise (ATensor (gathered e v nrows)) [length (pick t); v] (tn_device t)
    "correction_noise" = Ok tt) as En.
  { unfold _validate_race_noise. simpl tn_shape. simpl tn_device. simpl tn_dtype.
    rewrite (proj2 (check_ok _ _)). 2: { apply bool_decide_eq_true. unfold nrows, pick. by rewrite !length_fmap. }
    cbn [obind]. rewrite (proj2 (check_ok _ _)) by (by apply bool_decide_eq_true). cbn [obind].
    rewrite (proj2 (check_ok _ _)) by (by apply bool_decide_eq_true). cbn [obind].
    apply check_ok, forallb_Forall, Forall_forall. intros x Hx.
    apply list_elem_of_In, in_concat in Hx as (row & Hrow & Hx). apply list_elem_of_In in Hrow, Hx.
    apply list_elem_of_fmap in Hrow as (i & -> & Hi). rewrite Forall_forall in Hn. apply Hn.
    destruct (Hrows i Hi) as [Hib _]. destruct (lookup_lt_is_Some_2 (rows2 e) i) as [row Hrow]; [lia|].
    rewrite (nth_lookup_Some _ _ [] row Hrow) in Hx. eapply Ie; [by eapply list_elem_of_lookup_2|done]. }
  change (tn_shape (gathered t v (pick t))) with [length (pick t); v]. cbn [nth].
  change (tn_device (gathered t v (pick t))) with (tn_device t). rewrite En. cbn [obind race_noise].
  rewrite !gathered_rows by done.
  assert (zip_with (λ p q, correction_law (nums1 p) (nums1 q)) (pick t) (pick d) = row_correction <$> rows) as ->.
  { unfold pick. rewrite zip_with_same. apply list_fmap_ext. intros _ i _. unfold row_correction, row_target, row_draft.
    by rewrite !nth_nums2. }
  assert (nums2 nrows = row_noise <$> rows) as -> by (unfold nums2, nrows, row_noise; by rewrite <-list_fmap_compose).
  rewrite zip_with_same. unfold pick. rewrite length_fmap, <-list_fmap_compose.
  assert (replicate (length rows) true = (λ _, true) <$> rows) as -> by (symmetry; by apply const_fmap).
  done.
Qed.

(** The values copied to the rejected rows. *)
Lemma copied_rows {A} rejected (f : nat → A) (x : A) :
  NoDup rejected → (∀ i, i ∈ rejected ↔ i < b ∧ row_count i < k) →
  foldl (λ l ix, <[ix.1 := ix.2]> l) (replicate b x) (zip rejected (f <$> rejected)) =
  (λ i, if row_count i <? k then f i else x) <$> seq 0 b.
Proof.
  intros Hnd Hrej. rewrite (copy_rows _ _ _ b); [|done|apply length_replicate|apply Hrej].
  apply list_eq_same_length with b; [by rewrite length_fmap, length_seq|by rewrite length_imap, length_replicate|].
  intros i y z Hi Hy Hz. apply list_lookup_imap_Some in Hy as (y' & Hy & ->).
  apply lookup_replicate in Hy as [-> _]. apply list_lookup_fmap_Some in Hz as (j & -> & [-> _]%lookup_seq).
  simpl. destruct (Nat.ltb_spec (row_count i) k).
  - by rewrite bool_decide_eq_true_2 by by apply Hrej.
  - rewrite bool_decide_eq_false_2; [done|]. rewrite Hrej. lia.
Qed.

(** [accept] answers. *)
Lemma accept_run :
  accept rand exponential (ATensor t) (ATensor tok) (ATensor d) (ATensor u) (ATensor e) = Ok row_results.
Proof.
  pose proof Hcall as [Ct Cd (Hd1 & Hd2 & Hd3 & Hd4) (Ht1 & Ht2 & Ht3) (Hs1 & Hs2 & Hs3) (Hw1 & Hw2 & Hw3) Htok Hu He Hp].
  unfold accept, _validate_pair. rewrite (validate_cube _ _ _ _ _ Ct). cbn [obind].
  rewrite (validate_cube _ _ _ _ _ Cd). cbn [obind].
  rewrite (proj2 (check_ok _ _)). cbn [obind].
  2: { apply bool_decide_eq_true. by rewrite (cb_shape _ _ _ _ Ct), (cb_shape _ _ _ _ Cd). }
  rewrite (proj2 (check_ok _ _)) by (by apply bool_decide_eq_true). cbn [obind].
  rewrite (cb_shape _ _ _ _ Ct). cbn [nth].
  assert (check_tokens (ATensor tok) b k v (tn_device t) = Ok tok) as ->.
  { unfold check_tokens. do 3 (rewrite (proj2 (check_ok _ _)) by (by apply bool_decide_eq_true); cbn [obind]).
    rewrite (proj2 (oraise_if_ok _ _)); [done|]. apply existsb_none. eapply Forall_impl; [exact Htok|].
    intros x [? ?]. apply orb_false_iff. rewrite Z.ltb_ge, Z.leb_gt. lia. }
  cbn [obind]. assert (check_uniforms (ATensor u) b k (tn_device t) = Ok tt) as ->.
  { unfold check_uniforms. do 3 (rewrite (proj2 (check_ok _ _)) by (by apply bool_decide_eq_true); cbn [obind]).
    apply check_ok. by apply forallb_Forall. }
  cbn [obind is_none]. assert (_validate_race_noise (ATensor e) [b; v] (tn_device t) "correction_noise" = Ok tt) as ->.
  { unfold _validate_race_noise. do 3 (rewrite (proj2 (check_ok _ _)) by (by apply bool_decide_eq_true); cbn [obind]).
    apply check_ok. by apply forallb_Forall. }
  cbn [obind]. rewrite (proj2 (check_ok _ _)). cbn [obind].
  2: { apply forallb_Forall. eapply Forall_impl; [exact Hp|]. intros dr H. apply forallb_Forall.
       eapply Forall_impl; [exact H|]. intros qd. apply Qltb_lt. }
  rewrite accepts_rows. set (rejected := filter _ (seq 0 b)).
  assert (∀ i, i < b → nth i (row_count <$> seq 0 b) 0 = row_count i) as Hnth.
  { intros i Hi. apply nth_lookup_Some. rewrite list_lookup_fmap, lookup_seq_lt by done. done. }
  assert (∀ i, i ∈ rejected ↔ i < b ∧ row_count i < k) as Hrej.
  { intros i. unfold rejected. rewrite list_elem_of_filter, elem_of_seq. split.
    - intros [H ?]. rewrite Hnth in H by lia. lia.
    - intros [? ?]. rewrite Hnth by done. lia. }
  assert (NoDup rejected) as Hnd by (apply NoDup_filter, NoDup_seq).
  destruct (decide (rejected = [])) as [E|E].
  - rewrite bool_decide_eq_true_2 by done. unfold row_results. rewrite E in Hnd, Hrej. do 2 f_equal.
    + apply (copied_rows [] (λ i, Z.of_nat (row_token i)) (-1)%Z Hnd Hrej).
    + etrans; [apply (copied_rows [] (λ _, true) false Hnd Hrej)|].
      apply list_fmap_ext. intros _ i _. by destruct (_ <? _).
    + etrans; [apply (copied_rows [] (λ i, (row_correction i).2) false Hnd Hrej)|].
      apply list_fmap_ext. intros _ i _. by destruct (_ <? _).
  - rewrite bool_decide_eq_false_2 by done.
    assert (∀ x : tensor fval, (λ i, nth (nth i (row_count <$> seq 0 b) 0) (nth i (rows3 x) []) []) <$> rejected =
      (λ i, nth (row_count i) (nth i (rows3 x) []) []) <$> rejected) as Hpick.
    { intros x. apply list_fmap_ext. intros _ i Hi%list_elem_of_lookup_2%Hrej. rewrite Hnth; [done|by apply Hi]. }
    rewrite !Hpick, correction_run; [|done|apply Forall_forall; intros i; apply Hrej].
    cbn [obind rs_token_ids rs_used_reference rs_target_fallback]. unfold row_results.
    rewrite !copied_rows by done. do 2 f_equal; apply list_fmap_ext; intros _ i _; by destruct (_ <? _).
Qed.

(** The trusted path, row by row. *)
Definition trusted_law (i : nat) : list Q * bool :=
  let c := row_count i in
  let target_law := normalize (nth (Nat.min c (k - 1)) (row_target i) []) in
  let r := residual target_law (normalize (nth (Nat.min c (k - 1)) (row_draft i) [])) in
  let mass := Qsum r in
  let fallback := (c <? k) && Qeq_bool mass 0 in
  (if fallback then target_law else (λ x, x / (if Qeq_bool mass 0 then 1 else mass))%Q <$> r, fallback).

Lemma zip_with_index {A B C} (f : A → B → C) (la : list A) (lb : list B) (g : nat → C) n a0 b0 :
  length la = n → length lb = n → (∀ i, i < n → f (nth i la a0) (nth i lb b0) = g i) →
  zip_with f la lb = g <$> seq 0 n.
Proof.
  intros Ha Hb H. apply list_eq_same_length with n; [by rewrite length_fmap, length_seq|rewrite length_zip_with; lia|].
  intros i x y Hi Hx Hy. apply lookup_zip_with_Some in Hx as (x1 & x2 & -> & H1 & H2).
  apply list_lookup_fmap_Some in Hy as (j & -> & [-> _]%lookup_seq). simpl.
  by rewrite <-H, (nth_lookup_Some _ _ a0 x1 H1), (nth_lookup_Some _ _ b0 x2 H2).
Qed.

Lemma nth_seq_fmap {A} (g : nat → A) n i x : i < n → nth i (g <$> seq 0 n) x = g i.
Proof. intros Hi. apply nth_lookup_Some. by rewrite list_lookup_fmap, lookup_seq_lt. Qed.

Lemma trusted_run :
  accept_trusted rand exponential (nums3 (rows3 t)) (map (map Z.to_nat) (rows2 tok)) (nums3 (rows3 d))
    (Some (nums2 (rows2 u))) (Some (rows2 e)) =
  mk_rejection (row_count <$> seq 0 b)
    ((λ i, Z.of_nat (_sample_exponential_race (trusted_law i).1 (row_noise i))) <$> seq 0 b)
    ((λ i, row_count i <? k) <$> seq 0 b) ((λ i, (trusted_law i).2) <$> seq 0 b).
Proof.
  pose proof Hcall as [Ct Cd _ _ (Hs1 & Hs2 & Hs3) (Hw1 & Hw2 & Hw3) _ _ _ _].
  destruct (cube_rows _ _ _ _ Ct) as [Lt Ft], (cube_rows _ _ _ _ Cd) as [Ld Fd].
  destruct (matrix_rows tok b k Hs1 Hw1) as [Lk _], (matrix_rows u b k Hs2 Hw2) as [Lu _],
    (matrix_rows e b v Hs3 Hw3) as [Le _].
  destruct (cb_pos _ _ _ _ Ct) as (Hb & _).
  assert (length (default [] (head (nums3 (rows3 t)))) = k) as Hk.
  { destruct (rows3 t) as [|m l] eqn:E; [simpl in Lt; lia|]. simpl. unfold nums2. rewrite length_map.
    by apply Forall_cons in Ft as [[-> _] _]. }
  unfold accept_trusted. cbn [from_option id]. rewrite Hk, accepts_rows.
  set (rows := zip (zip _ _) (zip _ _)).
  match goal with |- context [zip_with ?f rows ?l] => assert (zip_with f rows l = trusted_law <$> seq 0 b) as -> end.
  { apply (zip_with_index _ _ _ _ _ (([], []), ([], [])) 0).
    - unfold rows. rewrite !length_zip_with. unfold nums3, nums2. rewrite !length_map. lia.
    - by rewrite length_fmap, length_seq.
    - intros i Hi. rewrite nth_seq_fmap by done.
      destruct (lookup_lt_is_Some_2 rows i) as [[[P D] [T U]] Hrow].
      { unfold rows. rewrite !length_zip_with. unfold nums3, nums2. rewrite !length_map. lia. }
      rewrite (nth_lookup_Some _ _ _ _ Hrow). apply lookup_zip_Some in Hrow as [[HP HD]%lookup_zip_Some _].
      simpl in HP, HD. unfold trusted_law, row_target, row_draft.
      by rewrite (map_lookup_nth _ _ _ [] _ HP), (map_lookup_nth _ _ _ [] _ HD). }
  rewrite <-!list_fmap_compose.
  match goal with |- context [zip_with ?f _ (nums2 _)] => assert (zip_with f (trusted_law <$> seq 0 b)
    (nums2 (rows2 e)) = (λ i, Z.of_nat (_sample_exponential_race (trusted_law i).1 (row_noise i))) <$> seq 0 b) as -> end.
  { apply (zip_with_index _ _ _ _ _ ([], false) []); [by rewrite length_fmap, length_seq|unfold nums2; by rewrite length_map|].
    intros i Hi. rewrite nth_seq_fmap by done. unfold row_noise. by rewrite nth_nums2. }
  done.
Qed.

(** Where a row was rejected, the trusted law is the corrective law. *)
Lemma trusted_correction i : row_count i < k → trusted_law i = row_correction i.
Proof.
  intros Hc. unfold trusted_law, row_correction, correction_law. rewrite Nat.min_l by lia.
  rewrite (proj2 (Nat.ltb_lt _ _) Hc). simpl andb. by destruct (Qeq_bool _ 0).
Qed.

(** ** What the rows hold *)

Lemma row_weights i j :
  i < b → j < k →
  weights (nth j (row_target i) []) ∧ weights (nth j (row_draft i) []) ∧
  length (nth j (row_target i) []) = v ∧ length (nth j (row_draft i) []) = v.
Proof.
  intros Hi Hj. pose proof Hcall as [Ct Cd _ _ _ _ _ _ _ _]. unfold row_target, row_draft. rewrite !nth_nums2.
  destruct (cube_at t b k v i j Ct Hi Hj) as (L1 & W1 & _), (cube_at d b k v i j Cd Hi Hj) as (L2 & W2 & _).
  unfold nums1 at 3 4. rewrite !length_map. by split_and!.
Qed.

Lemma lengths_of_row i : i < b →
  length (row_target i) = k ∧ length (row_draft i) = k ∧ length (row_tokens i) = k ∧
  length (row_uniforms i) = k ∧ length (row_noise i) = v.
Proof.
  intros Hi. pose proof Hcall as [Ct Cd _ _ (Hs1 & Hs2 & Hs3) (Hw1 & Hw2 & Hw3) _ _ _ _].
  destruct (cube_rows _ _ _ _ Ct) as [Lt Ft], (cube_rows _ _ _ _ Cd) as [Ld Fd].
  destruct (matrix_rows tok b k Hs1 Hw1) as (Lk & Fk & _), (matrix_rows u b k Hs2 Hw2) as (Lu & Fu & _),
    (matrix_rows e b v Hs3 Hw3) as (Le & Fe & _).
  unfold row_target, row_draft, row_tokens, row_uniforms, row_noise, nums2, nums1. rewrite !length_map.
  assert (∀ {A} (l : list A) x (P : A → Prop), length l = b → Forall P l → P (nth i l x)) as Hnth.
  { intros A l x P Hl HP. destruct (lookup_lt_is_Some_2 l i) as [y Hy]; [lia|].
    rewrite (nth_lookup_Some _ _ x y Hy). rewrite Forall_lookup in HP. by eapply HP. }
  split_and!; [by apply (Hnth _ (rows3 t) [] _ Lt Ft)|by apply (Hnth _ (rows3 d) [] _ Ld Fd)|..];
    by apply (Hnth _ _ [] (λ row, length row = _)).
Qed.

(** The test of position [j]. *)
Lemma row_flag i j : i < b → j < k →
  row_flags i !! j = Some (Qltb (row_uniforms i).[j]
    (acceptance (nth j (row_target i) []) (nth j (row_draft i) []) (nth j (row_tokens i) 0))).
Proof.
  intros Hi Hj. destruct (lengths_of_row i Hi) as (L1 & L2 & L3 & L4 & _). unfold row_flags, row_accepts.
  apply lookup_zip_with_Some.
  exists (nth j (row_target i) [], nth j (row_draft i) []), (nth j (row_tokens i) 0, (row_uniforms i).[j]).
  split; [done|]. assert (∀ {A} (l : list A) x, length l = k → l !! j = Some (nth j l x)) as Hnth.
  { intros A l x Hl. destruct (lookup_lt_is_Some_2 l j) as [y Hy]; [lia|].
    by rewrite (nth_lookup_Some _ _ x y Hy). }
  split; apply lookup_zip_Some; split; by apply Hnth.
Qed.

(** The token and the uniform number of position [j]. *)
Lemma row_draws i j : i < b → j < k →
  nth j (row_tokens i) 0 < v ∧ (0 < (nth j (row_draft i) []).[nth j (row_tokens i) 0%nat])%Q ∧
  (0 <= (row_uniforms i).[j] < 1)%Q.
Proof.
  intros Hi Hj. pose proof Hcall as [Ct Cd _ _ (Hs1 & Hs2 & _) (Hw1 & Hw2 & _) Htok Hu _ Hp].
  destruct (lengths_of_row i Hi) as (_ & L2 & L3 & L4 & _).
  destruct (matrix_rows tok b k Hs1 Hw1) as (Lk & Fk & Ik), (matrix_rows u b k Hs2 Hw2) as (Lu & Fu & Iu).
  destruct (cube_rows _ _ _ _ Cd) as [Ld _].
  destruct (lookup_lt_is_Some_2 (rows2 tok) i) as [T HT]; [lia|].
  destruct (lookup_lt_is_Some_2 (rows2 u) i) as [U HU]; [lia|].
  destruct (lookup_lt_is_Some_2 (rows3 d) i) as [D HD]; [lia|].
  unfold row_tokens, row_uniforms, row_draft in *.
  rewrite (nth_lookup_Some _ _ [] T HT) in *. rewrite (nth_lookup_Some _ _ [] U HU) in *.
  rewrite (nth_lookup_Some _ _ [] D HD) in *. unfold nums1 in L4. rewrite length_map in L3, L4.
  destruct (lookup_lt_is_Some_2 T j) as [x Hx]; [lia|]. destruct (lookup_lt_is_Some_2 U j) as [y Hy]; [lia|].
  assert (nth j (map Z.to_nat T) 0 = Z.to_nat x) as Ex.
  { apply nth_lookup_Some. change (map Z.to_nat T) with (Z.to_nat <$> T). by rewrite list_lookup_fmap, Hx. }
  assert ((nums1 U).[j] = num y) as Ey.
  { apply nth_lookup_Some. change (nums1 U) with (num <$> U). by rewrite list_lookup_fmap, Hy. }
  rewrite Ex, Ey. split_and!.
  - rewrite Forall_forall in Htok. specialize (Htok x).
    assert (x ∈ tn_data tok) as Hin by (eapply Ik; by eapply list_elem_of_lookup_2). specialize (Htok Hin). lia.
  - rewrite Forall_lookup in Hp. specialize (Hp i (nums2 D, map Z.to_nat T)). simpl in Hp.
    assert (zip (nums3 (rows3 d)) (map (map Z.to_nat) (rows2 tok)) !! i = Some (nums2 D, map Z.to_nat T)) as Hz.
    { apply lookup_zip_Some. change (nums3 ?l) with (nums2 <$> l). change (map ?f (rows2 tok)) with (f <$> rows2 tok).
      by rewrite !list_lookup_fmap, HD, HT. }
    specialize (Hp Hz). rewrite Forall_lookup in Hp. apply (Hp j (nth j (nums2 D) [], Z.to_nat x)).
    apply lookup_zip_Some. split.
    + destruct (lookup_lt_is_Some_2 (nums2 D) j) as [row Hrow]; [lia|].
      by rewrite (nth_lookup_Some _ _ [] row Hrow).
    + change (map Z.to_nat T) with (Z.to_nat <$> T). by rewrite list_lookup_fmap, Hx.
  - rewrite Forall_forall in Hu. specialize (Hu y (Iu U y ltac:(by eapply list_elem_of_lookup_2) ltac:(by eapply list_elem_of_lookup_2))).
    destruct y as [q| | |]; try done. simpl in *. apply andb_true_iff in Hu as [Hu _].
    apply negb_true_iff, Qltb_ge in Hu. done.
  - rewrite Forall_forall in Hu. specialize (Hu y (Iu U y ltac:(by eapply list_elem_of_lookup_2) ltac:(by eapply list_elem_of_lookup_2))).
    destruct y as [q| | |]; try done. simpl in *. apply andb_true_iff in Hu as [_ Hu]. by apply Qltb_lt.
Qed.

Lemma row_noise_positive i : i < b → Forall (λ x, 0 < x)%Q (row_noise i).
Proof.
  intros Hi. pose proof Hcall as [_ _ _ _ (_ & _ & Hs3) (_ & _ & Hw3) _ _ He _].
  destruct (matrix_rows e b v Hs3 Hw3) as (Le & Fe & Ie).
  destruct (lookup_lt_is_Some_2 (rows2 e) i) as [E HE]; [lia|].
  unfold row_noise. rewrite (nth_lookup_Some _ _ [] E HE). apply Forall_fmap, Forall_forall. intros x Hx.
  rewrite Forall_forall in He. specialize (He x (Ie E x ltac:(by eapply list_elem_of_lookup_2) Hx)).
  destruct x; try done. simpl in *. by apply Qltb_lt.
Qed.

(** The outcome of one row: every accepted token has weight in the target, and a
    rejected row draws, without falling back, a token the target prefers. *)
Record row_sound (i n : nat) : Prop := {
  sn_count : n = row_count i ∧ n ≤ k;
  sn_accepted : ∀ j, j < n → (0 < (nth j (row_target i) []).[nth j (row_tokens i) 0%nat])%Q;
  sn_rejected : n < k → (row_correction i).2 = false ∧ row_token i < v ∧
    ((normalize (nth n (row_draft i) [])).[row_token i] < (normalize (nth n (row_target i) [])).[row_token i])%Q;
}.

Lemma row_is_sound i : i < b → row_sound i (row_count i).
Proof.
  intros Hi. destruct (lengths_of_row i Hi) as (_ & _ & _ & _ & Ln).
  assert (length (row_flags i) = k) as Lf.
  { destruct (lengths_of_row i Hi) as (L1 & L2 & L3 & L4 & _). unfold row_flags, row_accepts.
    rewrite !length_zip_with. lia. }
  destruct (accepted_count_spec (row_flags i)) as (H1 & H2 & H3). fold (row_count i) in *. rewrite Lf in *.
  split; [done| |].
  - intros j Hj. pose proof (H2 j Hj) as Hf. rewrite row_flag in Hf by lia. injection Hf as Hf.
    apply Qltb_lt in Hf. destruct (row_draws i j Hi ltac:(lia)) as (_ & _ & Hu & _).
    destruct (row_weights i j Hi ltac:(lia)) as (Wt & _). set (x := nth j (row_tokens i) 0) in *.
    destruct (Qlt_le_dec 0 (nth j (row_target i) []).[x]) as [|Hz]; [done|]. exfalso.
    assert ((nth j (row_target i) []).[x] == 0)%Q as Ez.
    { pose proof (nth_nonneg _ x (wt_nonneg _ Wt)). lra. }
    assert (acceptance (nth j (row_target i) []) (nth j (row_draft i) []) x == 0)%Q as Ea; [|lra].
    unfold acceptance. pose proof (nth_normalize (nth j (row_target i) []) x) as En. rewrite Ez in En.
    assert ((normalize (nth j (row_target i) [])).[x] == 0)%Q as En0 by (rewrite En; unfold Qdiv; ring).
    destruct (Qeq_bool _ 0); [rewrite (proj2 (Qltb_ge _ _)) by lra; reflexivity|].
    set (p := (normalize (nth j (row_target i) [])).[x]) in *.
    assert (p / (normalize (nth j (row_draft i) [])).[x] == 0)%Q as Ep.
    { rewrite En. unfold Qdiv. ring. }
    destruct (Qminimum_spec (p / (normalize (nth j (row_draft i) [])).[x]) 1) as [[_ ->]|[? _]]; [done|lra].
  - intros Hn. pose proof (H3 Hn) as Hf. rewrite row_flag in Hf by lia. injection Hf as Hf.
    destruct (row_draws i (row_count i) Hi Hn) as (Hx & Hq & _ & Hu).
    destruct (row_weights i (row_count i) Hi Hn) as (Wt & Wd & Lt & Ld).
    pose proof (correction_token _ _ (row_noise i) _ _ Wt Wd ltac:(congruence) ltac:(rewrite Ld; exact Hx) Hq Hu Hf
      ltac:(congruence) (row_noise_positive i Hi)) as Hc.
    unfold row_token, row_correction. destruct (correction_law _ _) as [law fb]. cbn [fst snd] in *.
    rewrite Lt in Hc. exact Hc.
Qed.
End call.

(** C14: the checked and the trusted rejection agree.  On every call the checks
    admit, [accept] answers, and [accept_trusted] computes the same accepted
    counts, the same rejected rows, the same fallbacks, and on every rejected
    row the same corrective token. *)
Theorem accept_trusted_agrees rand exponential b k v t d tok u e :
  valid_call b k v t d tok u e →
  let target := nums3 (rows3 t) in
  let draft := nums3 (rows3 d) in
  let r' := accept_trusted rand exponential target (map (map Z.to_nat) (rows2 tok)) draft
              (Some (nums2 (rows2 u))) (Some (rows2 e)) in
  ∃ r, accept rand exponential (ATensor t) (ATensor tok) (ATensor d) (ATensor u) (ATensor e) = Ok r ∧
    accepted_counts r = accepted_counts r' ∧ used_reference r = used_reference r' ∧
    target_fallback r = target_fallback r' ∧
    ∀ i, used_reference r !! i = Some true → corrective_token_ids r !! i = corrective_token_ids r' !! i.
Proof.
  intros Hc target draft r'. subst r' target draft. rewrite (trusted_run rand exponential b k v t d tok u e Hc).
  exists (row_results b k t d tok u e). split; [by apply (accept_run _ _ b k v)|].
  unfold row_results. cbn [accepted_counts used_reference target_fallback corrective_token_ids].
  split; [done|]. split; [done|]. split.
  - apply list_fmap_ext. intros _ i _. cbv beta. destruct (Nat.ltb_spec (row_count t d tok u i) k) as [Hi|Hi].
    + by rewrite trusted_correction.
    + unfold trusted_law. cbn [snd]. by rewrite (proj2 (Nat.ltb_ge _ _) Hi).
  - intros i Hi. rewrite !list_lookup_fmap in *. destruct (seq 0 b !! i) as [j|]; [|done].
    cbn [fmap option_fmap option_map] in *.
    injection Hi as Hi. rewrite Hi. apply Nat.ltb_lt in Hi. unfold row_token.
    by rewrite trusted_correction.
Qed.


(** ** Greedy rows *)

Lemma Qsum_one_hot n i : i < n → (Qsum (one_hot n i) == 1)%Q.
Proof.
  unfold one_hot. revert i. induction n as [|n IH]; intros i Hi; [lia|].
  assert (Qsum (replicate n 0%Q) == 0)%Q as Hz.
  { clear. induction n as [|n IH]; simpl; [reflexivity|]. rewrite IH. ring. }
  destruct i as [|i]; simpl; [rewrite Hz; ring|]. rewrite IH by lia. ring.
Qed.

Lemma nth_one_hot n i j : i < n → (one_hot n i).[j] = if decide (j = i) then 1%Q else 0%Q.
Proof.
  intros Hi. unfold one_hot. destruct (decide (j < n)) as [Hj|Hj].
  - apply nth_lookup_Some. rewrite list_lookup_insert, length_replicate.
    case_decide as Hn; [destruct Hn as [-> _]; by rewrite decide_True|].
    rewrite decide_False by (intros ->; by apply Hn). by apply lookup_replicate_2.
  - rewrite nth_overflow by (rewrite length_insert, length_replicate; lia). rewrite decide_False by lia. done.
Qed.

Lemma nth_normalize_one_hot n i j :
  i < n → ((normalize (one_hot n i)).[j] == if decide (j = i) then 1 else 0)%Q.
Proof.
  intros Hi. rewrite nth_normalize, Qsum_one_hot, nth_one_hot by done. case_decide; field.
Qed.

(** A greedy target accepts exactly its own token. *)
Lemma greedy_acceptance n g draft x u :
  g < n → weights draft → (0 < draft.[x])%Q → (0 <= u < 1)%Q →
  Qltb u (acceptance (one_hot n g) draft x) = bool_decide (x = g).
Proof.
  intros Hg Hd Hx [Hu0 Hu1]. pose proof (nth_normalize_one_hot n g x Hg) as Hp.
  set (p := (normalize (one_hot n g)).[x]) in *. pose proof (nth_normalize draft x) as Hq.
  destruct Hd as [Hdn Hdm]. set (q := (normalize draft).[x]) in *.
  assert (0 < q)%Q as Hq0 by (rewrite Hq; apply Qlt_shift_div_l; lra).
  assert (q <= 1)%Q as Hq1.
  { rewrite Hq. apply Qle_shift_div_r; [done|]. rewrite Qmult_1_l. destruct (decide (x < length draft)) as [H|H].
    - apply Qsum_ge; [done|]. by apply list_elem_of_In, nth_In.
    - rewrite nth_overflow in Hx by lia. lra. }
  rewrite acceptance_ratio by done. fold p q. case_decide as E.
  - rewrite bool_decide_eq_true_2 by done. apply Qltb_lt.
    assert (1 <= p / q)%Q by (apply Qle_shift_div_l; lra).
    destruct (Qminimum_spec (p / q) 1) as [[? ->]|[? ->]]; lra.
  - rewrite bool_decide_eq_false_2 by done. apply Qltb_ge.
    assert (p / q == 0)%Q as Ez by (rewrite Hp; unfold Qdiv; ring).
    destruct (Qminimum_spec (p / q) 1) as [[? ->]|[? ->]]; lra.
Qed.

(** C12: modified rejection on a greedy row is greedy decoding.  When the target
    rows of row [i] are the one-hot laws of the tokens [g], whatever the draft and
    the randomness, the accepted tokens are [g 0, ..., g (n-1)], the next proposal
    differs from [g n], and the corrective token is [g n]. *)
Theorem accept_greedy rand exponential b k v t d tok u e i g :
  valid_call b k v t d tok u e → i < b →
  (∀ j, j < k → g j < v ∧ nth j (row_target t i) [] = one_hot v (g j)) →
  ∃ r n, accept rand exponential (ATensor t) (ATensor tok) (ATensor d) (ATensor u) (ATensor e) = Ok r ∧
    accepted_counts r !! i = Some n ∧ n ≤ k ∧
    (∀ j, j < n → nth j (row_tokens tok i) 0 = g j) ∧
    (n < k → nth n (row_tokens tok i) 0 ≠ g n ∧ corrective_token_ids r !! i = Some (Z.of_nat (g n))).
Proof.
  intros Hc Hi Hg. exists (row_results b k t d tok u e), (row_count t d tok u i).
  split; [by apply (accept_run _ _ b k v)|].
  pose proof (row_is_sound b k v t d tok u e Hc i Hi) as [[_ Hk] _ Hr].
  assert (∀ j, j < k → row_flags t d tok u i !! j = Some (bool_decide (nth j (row_tokens tok i) 0 = g j))) as Hf.
  { intros j Hj. rewrite (row_flag b k v t d tok u e Hc i j Hi Hj). destruct (Hg j Hj) as [Hgv ->]. f_equal.
    destruct (row_draws b k v t d tok u e Hc i j Hi Hj) as (_ & Hq & Hu).
    destruct (row_weights b k v t d tok u e Hc i j Hi Hj) as (_ & Wd & _). by apply greedy_acceptance. }
  assert (length (row_flags t d tok u i) = k) as Lf.
  { destruct (lengths_of_row b k v t d tok u e Hc i Hi) as (L1 & L2 & L3 & L4 & _). unfold row_flags, row_accepts.
    rewrite !length_zip_with. lia. }
  destruct (accepted_count_spec (row_flags t d tok u i)) as (_ & H2 & H3).
  fold (row_count t d tok u i) in *. rewrite Lf in *. unfold row_results.
  cbn [accepted_counts corrective_token_ids]. rewrite !list_lookup_fmap, lookup_seq_lt by done.
  cbn [fmap option_fmap option_map Nat.add]. split; [done|]. split; [done|]. split.
  - intros j Hj. specialize (H2 j Hj). rewrite Hf in H2 by lia. injection H2 as H2. by apply bool_decide_eq_true in H2.
  - intros Hn. specialize (H3 Hn). rewrite Hf in H3 by done. injection H3 as H3. apply bool_decide_eq_false in H3.
    split; [done|]. rewrite (proj2 (Nat.ltb_lt _ _) Hn). destruct (Hr Hn) as (_ & Hv & Hpq).
    destruct (Hg _ Hn) as [Hgv Eg]. rewrite Eg, (nth_normalize_one_hot v) in Hpq by done.
    destruct (row_weights b k v t d tok u e Hc i _ Hi Hn) as (_ & Wd & _).
    pose proof (nth_nonneg _ (row_token t d tok u e i) (lw_nonneg _ (normalize_law _ Wd))).
    case_decide as E; [by rewrite E|lra].
Qed.
