(* ===== verification/FilterSpec.v ===== *)
(** * FilterSpec: the filters and the exact law

    Top-k keeps the [k] largest logits and no smaller one; the nucleus drops at
    most the mass it is allowed; the chunked loop is the row-wise map; and the
    checked law of every row is a law, the same as on the trusted path. *)
From Stdlib Require Import QArith Qfield Lqa.
From S2P Require Import Prelude SamplingParams Sampler SamplerSpec AcceptSpec.
#[local] Open Scope nat_scope.
#[local] Arguments Qplus : simpl never.
#[local] Arguments Qmult : simpl never.
#[local] Arguments Qminus : simpl never.
#[local] Arguments Qdiv : simpl never.
#[local] Open Scope row_scope.

Section filters.
Context (exp : Q → Q) (argsort : list logit → list nat).
Hypothesis exp_positive : ∀ x, (0 < exp x)%Q.
(** A sort answers a permutation of the indices that puts the row in order. *)
Hypothesis argsort_perm : ∀ row, argsort row ≡ₚ seq 0 (length row).
Hypothesis argsort_sorted : ∀ row i j x y,
  i ≤ j → argsort row !! i = Some x → argsort row !! j = Some y →
  logit_ltb (nth y row None) (nth x row None) = false.

(** ** Top-k *)

Lemma logit_ltb_irrefl a : logit_ltb a a = false.
Proof. destruct a as [x|]; [|done]. apply Qltb_ge. lra. Qed.

Lemma logit_le_trans a b c : logit_ltb b a = false → logit_ltb c b = false → logit_ltb c a = false.
Proof.
  destruct a as [x|], b as [y|], c as [z|]; try done. simpl. rewrite !Qltb_ge. lra.
Qed.

Lemma logit_lt_le_trans a b c : logit_ltb a b = true → logit_ltb c b = false → logit_ltb a c = true.
Proof.
  destruct a as [x|], b as [y|], c as [z|]; try done. simpl. rewrite !Qltb_lt, Qltb_ge. lra.
Qed.

(** The number of entries of a row that satisfy [P]. *)
Definition count_row (P : logit → bool) (row : list logit) : nat :=
  length (filter (λ x, P x = true) row).

Lemma filter_every (P : logit → bool) (l : list logit) : (∀ x, x ∈ l → P x = true) → filter (λ x, P x = true) l = l.
Proof.
  induction l as [|x l IH]; intros H; [done|]. rewrite filter_cons_True by (apply H; set_solver).
  by rewrite IH by (intros; apply H; set_solver).
Qed.

Lemma filter_nothing (P : logit → bool) (l : list logit) : (∀ x, x ∈ l → P x = false) → filter (λ x, P x = true) l = [].
Proof.
  induction l as [|x l IH]; intros H; [done|]. rewrite filter_cons_False by (rewrite H by set_solver; done).
  by rewrite IH by (intros; apply H; set_solver).
Qed.

Lemma row_by_order row : (λ i, nth i row None) <$> argsort row ≡ₚ row.
Proof.
  rewrite argsort_perm. rewrite <-(rows_by_index row None). done.
Qed.

Lemma count_perm P l l' : l ≡ₚ l' → count_row P l = count_row P l'.
Proof. intros H. unfold count_row. by rewrite H. Qed.

(** [k] at least are kept, each entry dropped is below each entry kept, and fewer
    than [k] entries exceed the least one kept. *)
Record top_k_kept (k : nat) (row out : list logit) : Prop := {
  tk_entries : Forall2 (λ x y, y = x ∨ y = None) row out;
  tk_many : k ≤ count_row (λ x, negb (logit_ltb x (top_k_threshold argsort k row))) row;
  tk_kept : ∀ i x, row !! i = Some x →
    out !! i = Some (if logit_ltb x (top_k_threshold argsort k row) then None else x);
  tk_few : count_row (λ x, logit_ltb (top_k_threshold argsort k row) x) row < k;
}.

Lemma filter_top_k_row_spec k row :
  1 ≤ k ≤ length row → top_k_kept k row (filter_top_k_row argsort k row).
Proof.
  intros Hk. set (th := top_k_threshold argsort k row).
  set (sorted := (λ i, nth i row None) <$> argsort row).
  assert (length sorted = length row) as Hl.
  { unfold sorted. by rewrite length_fmap, (Permutation_length (argsort_perm row)), length_seq. }
  assert (sorted !! (length row - k) = Some th) as Hth.
  { unfold th, top_k_threshold. rewrite fmap_reverse. fold sorted.
    destruct (lookup_lt_is_Some_2 (reverse sorted) (k - 1)) as [x Hx]; [rewrite length_reverse; lia|].
    rewrite (nth_lookup_Some _ _ None x Hx). apply reverse_lookup_Some in Hx as [Hx _].
    rewrite Hl in Hx. by replace (length row - k) with (length row - S (k - 1)) by lia. }
  assert (∀ i j x y, i ≤ j → sorted !! i = Some x → sorted !! j = Some y → logit_ltb y x = false) as Hsorted.
  { intros i j x y Hij Hx Hy. apply list_lookup_fmap_Some in Hx as (a & -> & Ha).
    apply list_lookup_fmap_Some in Hy as (b & -> & Hb). by eapply argsort_sorted. }
  assert (sorted = take (length row - k) sorted ++ drop (length row - k) sorted) as Hsplit
    by by rewrite take_drop.
  split.
  - unfold filter_top_k_row. fold th. apply Forall2_fmap_r, Forall_Forall2_diag, Forall_forall.
    intros x _. simpl. destruct (logit_ltb x th); [by right|by left].
  - fold th. rewrite <-(count_perm _ sorted) by apply row_by_order. rewrite Hsplit. unfold count_row.
    rewrite filter_app, length_app, (filter_every _ (drop _ _)).
    + rewrite length_drop. lia.
    + intros x [j Hj]%list_elem_of_lookup. rewrite lookup_drop in Hj. apply negb_true_iff.
      by apply (Hsorted (length row - k) (length row - k + j) th x); [lia| |].
  - intros i x Hx. unfold filter_top_k_row. fold th. by rewrite list_lookup_fmap, Hx.
  - fold th. rewrite <-(count_perm _ sorted) by apply row_by_order. rewrite Hsplit. unfold count_row.
    rewrite filter_app, length_app, (filter_nothing _ (take _ _)).
    + simpl. rewrite (drop_S _ th) by done. rewrite filter_cons_False by by rewrite logit_ltb_irrefl.
      eapply Nat.le_lt_trans; [apply length_filter|]. rewrite length_drop. lia.
    + intros x [j Hj]%list_elem_of_lookup. apply lookup_take_Some in Hj as [Hj Hlt].
      apply (Hsorted j (length row - k) x th); [lia|done|done].
Qed.

(** ** The nucleus *)

Lemma weight_nonneg x : (0 <= weight exp x)%Q.
Proof. destruct x as [x|]; simpl; [apply Qlt_le_weak, exp_positive|lra]. Qed.

Lemma softmax_law row p : softmax exp row = Some p → is_law p ∧ length p = length row.
Proof.
  unfold softmax. destruct (forallb _ row) eqn:E; [done|]. intros [= <-].
  rewrite length_normalize, length_fmap. split; [|done]. apply normalize_law. split.
  - apply Forall_fmap, Forall_forall. intros x _. apply weight_nonneg.
  - assert (∃ x, Some x ∈ row) as (x & Hx).
    { clear -E. induction row as [|[x|] row IH]; simpl in E; [done|exists x; by left|].
      destruct (IH E) as [x Hx]. exists x. by right. }
    apply (Qlt_le_trans _ (weight exp (Some x))); [apply exp_positive|]. apply Qsum_ge.
    + apply Forall_fmap, Forall_forall. intros y _. apply weight_nonneg.
    + by apply list_elem_of_fmap_2.
Qed.
Lemma Qsum_perm l l' : l ≡ₚ l' → (Qsum l == Qsum l')%Q.
Proof. induction 1; simpl; [reflexivity|rewrite IHPermutation; reflexivity|ring|etransitivity; eassumption]. Qed.

(** Values along a list without repetition are those of a function. *)
Lemma values_function {A} (ixs : list nat) (m : list A) :
  NoDup ixs → length m = length ixs → ∀ d : A, ∃ f : nat → A, m = f <$> ixs.
Proof.
  intros Hnd. revert m. induction Hnd as [|i ixs Hi Hnd IH]; intros [|x m] Hl d; try done; [by exists (λ _, d)|].
  destruct (IH m ltac:(simpl in Hl; lia) d) as [f ->]. exists (λ j, if decide (j = i) then x else f j). csimpl.
  rewrite decide_True by done. f_equal. apply list_fmap_ext. intros _ j Hj%list_elem_of_lookup_2.
  rewrite decide_False; [done|]. by intros ->.
Qed.

(** The flags dropped by running sums carry at most the cutoff. *)
Lemma dropped_mass n i acc cutoff l :
  Forall (λ x, 0 <= x)%Q l →
  (Qsum (zip_with (λ (b : bool) x, if b then x else 0%Q)
     (imap (λ j c, if S (i + j) =? n then false else Qle_bool c cutoff) (cumsum acc l)) l) <=
   Qmaximum 0 (cutoff - acc))%Q.
Proof.
  intros Hl. revert i acc. induction Hl as [|x l Hx Hl IH]; intros i acc.
  { simpl. destruct (Qmaximum_spec 0 (cutoff - acc)) as [[? ->]|[? ->]]; lra. }
  cbn [cumsum imap zip_with Qsum foldr].
  match goal with |- (?a + foldr _ _ ?r <= _)%Q => assert (foldr Qplus 0%Q r <= Qmaximum 0 (cutoff - (acc + x)))%Q as IHr end.
  { specialize (IH (S i) (acc + x)%Q). eapply Qle_trans; [|exact IH]. apply Qle_lteq. right.
    unfold Qsum. match goal with |- (?a == ?b)%Q => enough (a = b) as -> by reflexivity end.
    do 2 f_equal. apply imap_ext. intros j c _. simpl. by rewrite Nat.add_succ_r. }
  destruct (Qle_bool (acc + x) cutoff) eqn:E.
  - apply Qle_bool_iff in E. destruct (S (i + 0) =? n);
      destruct (Qmaximum_spec 0 (cutoff - (acc + x))) as [[? Em]|[? Em]]; rewrite Em in IHr;
      destruct (Qmaximum_spec 0 (cutoff - acc)) as [[? ->]|[? ->]]; lra.
  - assert (cutoff < acc + x)%Q as Hgt.
    { apply Qnot_le_lt. intros H%Qle_bool_iff. congruence. }
    destruct (S (i + 0) =? n);
      destruct (Qmaximum_spec 0 (cutoff - (acc + x))) as [[? Em]|[? Em]]; rewrite Em in IHr;
      destruct (Qmaximum_spec 0 (cutoff - acc)) as [[? ->]|[? ->]]; lra.
Qed.
(** The mass of the law [p] on the entries a filter kept. *)
Definition kept_mass (p : list Q) (out : list logit) : Q :=
  Qsum (zip_with (λ (x : logit) y, match x with Some _ => y | None => 0%Q end) out p).

Lemma argsort_nodup row : NoDup (argsort row).
Proof. rewrite argsort_perm. apply NoDup_seq. Qed.

Lemma argsort_elem row i : i ∈ argsort row ↔ i < length row.
Proof. rewrite argsort_perm, elem_of_seq. lia. Qed.

Lemma length_argsort row : length (argsort row) = length row.
Proof. by rewrite (Permutation_length (argsort_perm row)), length_seq. Qed.

(** Scattering flags given in the order of the sort. *)
Lemma scattered row (f : nat → bool) n :
  length row = n →
  foldl (λ l ib, <[ib.1 := ib.2]> l) (replicate n false) (zip (argsort row) (f <$> argsort row)) =
  f <$> seq 0 n.
Proof.
  intros Hn. rewrite (copy_rows f _ _ n); [|apply argsort_nodup|apply length_replicate|].
  2: { intros i. rewrite argsort_elem. lia. }
  apply list_eq_same_length with n; [by rewrite length_fmap, length_seq|by rewrite length_imap, length_replicate|].
  intros i x y Hi Hx Hy. apply list_lookup_imap_Some in Hx as (z & _ & ->).
  apply list_lookup_fmap_Some in Hy as (j & -> & [-> _]%lookup_seq). simpl.
  rewrite bool_decide_eq_true_2; [done|]. apply argsort_elem. lia.
Qed.

Lemma Qsum_zip_with {A} (g : A → Q → Q) (la : list A) (lb : list Q) n a0 :
  length la = n → length lb = n →
  zip_with g la lb = (λ i, g (nth i la a0) lb.[i]) <$> seq 0 n.
Proof. intros. by apply (zip_with_index g _ _ _ _ a0 0%Q). Qed.

(** The mass of a sorted row is that of the row. *)
Lemma softmax_sorted row p :
  softmax exp row = Some p →
  ∃ ps, softmax exp ((λ i, nth i row None) <$> argsort row) = Some ps ∧ length ps = length row ∧
    ∀ j i, argsort row !! j = Some i → (ps.[j] == p.[i])%Q.
Proof.
  set (sorted := (λ i, nth i row None) <$> argsort row). intros Hp.
  assert (sorted ≡ₚ row) as Hperm by apply row_by_order.
  unfold softmax in *. destruct (forallb _ row) eqn:E; [done|]. injection Hp as <-.
  assert (forallb (λ x : logit, negb (bool_decide (is_Some x))) sorted = false) as ->.
  { apply not_true_iff_false. rewrite forallb_Forall, Hperm, <-forallb_Forall, E. done. }
  eexists. split; [done|]. split; [by rewrite length_normalize, length_fmap, (Permutation_length Hperm)|].
  intros j i Hj. rewrite !nth_normalize.
  assert (Qsum (weight exp <$> sorted) == Qsum (weight exp <$> row))%Q as -> by (apply Qsum_perm; by rewrite Hperm).
  assert (i < length row) as Hi by (apply argsort_elem; by eapply list_elem_of_lookup_2).
  assert ((weight exp <$> sorted).[j] = (weight exp <$> row).[i]) as ->; [|reflexivity].
  destruct (lookup_lt_is_Some_2 row i Hi) as [x Hx].
  rewrite (nth_lookup_Some (weight exp <$> row) i 0%Q (weight exp x)) by by rewrite list_lookup_fmap, Hx.
  apply nth_lookup_Some. unfold sorted. rewrite !list_lookup_fmap, Hj. simpl.
  by rewrite (nth_lookup_Some _ _ None x Hx).
Qed.

Lemma Qsum_sub {A} (f g : A → Q) l :
  (Qsum ((λ x, f x - g x)%Q <$> l) == Qsum (f <$> l) - Qsum (g <$> l))%Q.
Proof. induction l as [|x l IH]; csimpl; [lra|]. rewrite IH. ring. Qed.

Lemma Qsum_le {A} (f g : A → Q) l :
  (∀ x, x ∈ l → f x <= g x)%Q → (Qsum (f <$> l) <= Qsum (g <$> l))%Q.
Proof.
  induction l as [|x l IH]; intros H; csimpl; [lra|].
  pose proof (H x ltac:(set_solver)). assert (∀ y, y ∈ l → f y <= g y)%Q as Hl by (intros; apply H; set_solver).
  specialize (IH Hl). lra.
Qed.

(** The filter masks entries and nothing else, and the law of the scaled row
    keeps at least the mass [1 - cutoff]. *)
Lemma filter_top_p_row_spec t cutoff row p :
  (0 <= cutoff)%Q → softmax exp (scale t row) = Some p →
  let out := filter_top_p_row exp argsort t cutoff row in
  Forall2 (λ x y, y = x ∨ y = None) row out ∧ (1 - cutoff <= kept_mass p out)%Q.
Proof.
  intros Hc Hp out. set (scaled := scale t row) in *. set (n := length row).
  assert (length scaled = n) as Hls by apply length_fmap.
  destruct (softmax_sorted scaled p Hp) as (ps & Eps & Lps & Hps). destruct (softmax_law _ _ Hp) as [[Hpn Hpm] Lp].
  destruct (softmax_law _ _ Eps) as [[Hsn _] _].
  set (flags := removed_sorted exp cutoff ((λ i, nth i scaled None) <$> argsort scaled)).
  assert (length flags = n) as Lf.
  { unfold flags, removed_sorted. rewrite Eps, length_imap. clear -Lps Hls.
    assert (∀ acc l, length (cumsum acc l) = length l) as ->; [|lia].
    intros acc l. revert acc. induction l; intros acc; simpl; [done|]. by rewrite IHl. }
  destruct (values_function (argsort scaled) flags (argsort_nodup _)) with (d := false) as [f Ef].
  { rewrite length_argsort. lia. }
  assert (out = zip_with (λ (b : bool) (x : logit), if b then None else x) (f <$> seq 0 n) row) as Eout.
  { unfold out, filter_top_p_row. fold scaled. fold flags. rewrite Ef. by rewrite (scattered scaled f (length row)). }
  assert (∀ i, i < n → (f <$> seq 0 n) !! i = Some (f i)) as Hfi
    by (intros i Hi; by rewrite list_lookup_fmap, lookup_seq_lt).
  split.
  { rewrite Eout. apply Forall2_same_length_lookup_2; [rewrite length_zip_with, length_fmap, length_seq; lia|].
    intros i x y Hx Hy. apply lookup_zip_with_Some in Hy as (b & z & -> & Hb & Hz).
    assert (z = x) as -> by congruence. destruct b; [by right|by left]. }
  (* the mass that is dropped *)
  assert (Qsum ((λ i, if f i then p.[i] else 0%Q) <$> seq 0 n) <= cutoff)%Q as Hdrop.
  { assert (Qsum ((λ i, if f i then p.[i] else 0%Q) <$> seq 0 n) ==
      Qsum (zip_with (λ (b : bool) x, if b then x else 0%Q) flags ps))%Q as ->.
    { transitivity (Qsum ((λ i, if f i then p.[i] else 0%Q) <$> argsort scaled)).
      { apply Qsum_perm, fmap_Permutation. rewrite <-Hls. symmetry. apply argsort_perm. }
      rewrite Ef.
      rewrite (Qsum_zip_with _ _ _ n false); [|by rewrite length_fmap, length_argsort|lia].
      rewrite (rows_by_index (argsort scaled) 0) at 1. rewrite length_argsort, Hls, <-list_fmap_compose.
      apply Qsum_ext. intros j [_ Hj]%elem_of_seq. simpl.
      destruct (lookup_lt_is_Some_2 (argsort scaled) j) as [i Hi]; [rewrite length_argsort; lia|].
      rewrite (nth_lookup_Some _ _ 0 i Hi).
      rewrite (nth_lookup_Some (f <$> argsort scaled) j false (f i)) by by rewrite list_lookup_fmap, Hi.
      destruct (f i); [|reflexivity]. symmetry. by apply Hps. }
    unfold flags, removed_sorted. rewrite Eps.
    pose proof (dropped_mass (length ((λ i, nth i scaled None) <$> argsort scaled)) 0 0 cutoff ps Hsn) as Hd.
    eapply Qle_trans; [exact Hd|]. destruct (Qmaximum_spec 0 (cutoff - 0)) as [[? ->]|[? ->]]; lra. }
  unfold kept_mass. rewrite (Qsum_zip_with _ _ _ n None); [| |lia].
  2: { rewrite Eout, length_zip_with, length_fmap, length_seq. unfold n. lia. }
  apply (Qle_trans _ (Qsum ((λ i, p.[i] - (if f i then p.[i] else 0%Q))%Q <$> seq 0 n))).
  - rewrite Qsum_sub. assert (Qsum ((λ i, p.[i]) <$> seq 0 n) == 1)%Q as ->; [|lra].
    rewrite <-Hpm. rewrite (Qsum_positions p). rewrite Lp, Hls. reflexivity.
  - apply Qsum_le. intros i [_ Hi]%elem_of_seq. simpl in Hi.
    destruct (lookup_lt_is_Some_2 row i) as [x Hx]; [done|].
    assert (out !! i = Some (if f i then None else x)) as Hz.
    { rewrite Eout. apply lookup_zip_with_Some. exists (f i), x. by rewrite Hfi. }
    rewrite (nth_lookup_Some _ _ None _ Hz).
    pose proof (nth_nonneg p i Hpn). destruct (f i); [lra|]. destruct x as [x|]; [lra|].
    (* a masked entry has no mass *)
    assert (p.[i] == 0)%Q as ->; [|lra]. unfold softmax in Hp. destruct (forallb _ scaled); [done|].
    injection Hp as <-. rewrite nth_normalize.
    assert ((weight exp <$> scaled).[i] = 0%Q) as ->; [|unfold Qdiv; ring].
    apply nth_lookup_Some. unfold scaled, scale. by rewrite !list_lookup_fmap, Hx.
Qed.

(** The loop over chunks is the map over the rows. *)
Lemma top_p_chunks_rows fuel rows ts cs :
  length rows ≤ fuel → length ts = length rows → length cs = length rows →
  top_p_chunks exp argsort fuel rows ts cs =
  zip_with (λ row tc, filter_top_p_row exp argsort tc.1 tc.2 row) rows (zip ts cs).
Proof.
  revert rows ts cs. induction fuel as [|fuel IH]; intros rows ts cs Hf Ht Hcs.
  { destruct rows; [done|simpl in Hf; lia]. }
  destruct rows as [|row rows]; [done|]. cbn [top_p_chunks].
  set (R := row :: rows) in *. assert (length (drop TOP_P_CHUNK_SIZE R) ≤ fuel) as Hd.
  { rewrite length_drop. unfold TOP_P_CHUNK_SIZE, R in *. simpl in *. lia. }
  rewrite IH; [|done|rewrite !length_drop; lia..].
  rewrite <-(take_drop TOP_P_CHUNK_SIZE R) at 3. rewrite <-(take_drop TOP_P_CHUNK_SIZE ts) at 3.
  rewrite <-(take_drop TOP_P_CHUNK_SIZE cs) at 3.
  rewrite zip_with_app by (rewrite !length_take; lia).
  rewrite zip_with_app; [done|]. rewrite length_zip_with, !length_take. lia.
Qed.
(** ** Rows of a batch *)

(** A row of the vocabulary with a finite logit. *)
Definition proper_row (v : nat) (row : list logit) : Prop := length row = v ∧ ∃ x, Some x ∈ row.

Lemma index_select_Forall {A} (P : A → Prop) rows l : Forall P l → Forall P (index_select rows l).
Proof.
  destruct rows as [ixs|]; [|done]. intros H. apply Forall_forall. intros x (i & _ & Hx)%list_elem_of_omap.
  rewrite Forall_lookup in H. by eapply H.
Qed.

Lemma index_copy_Forall {A} (P : A → Prop) rows x active :
  Forall P x → Forall P active → Forall P (index_copy rows x active).
Proof.
  destruct rows as [ixs|]; [|done]. simpl. intros Hx Ha. revert x active Hx Ha.
  induction ixs as [|i ixs IH]; intros x [|a active] Hx Ha; try done. simpl.
  apply Forall_cons in Ha as [Ha Hl]. apply IH; [by apply Forall_insert|done].
Qed.

Lemma index_copy_length {A} rows (x active : list A) :
  (rows = None → length active = length x) → length (index_copy rows x active) = length x.
Proof.
  destruct rows as [ixs|]; simpl; [|by auto]. intros _. revert x active.
  induction ixs as [|i ixs IH]; intros x [|a active]; try done. simpl. by rewrite IH, length_insert.
Qed.

Lemma filter_top_k_row_proper v k row :
  1 ≤ k ≤ v → proper_row v row → proper_row v (filter_top_k_row argsort k row).
Proof.
  intros Hk [Hl (x & Hx)]. rewrite <-Hl in Hk. destruct (filter_top_k_row_spec k row Hk) as [He Hm Hkept _].
  split; [by rewrite <-(Forall2_length _ _ _ He)|].
  set (th := top_k_threshold argsort k row) in *.
  assert (∃ y, Some y ∈ row ∧ logit_ltb (Some y) th = false) as (y & Hy & Hth).
  { destruct th as [z|] eqn:Eth; [|by exists x].
    destruct (filter (λ x, negb (logit_ltb x (Some z)) = true) row) as [|w l] eqn:E;
      [unfold count_row in Hm; rewrite E in Hm; simpl in Hm; lia|].
    assert (w ∈ filter (λ x, negb (logit_ltb x (Some z)) = true) row) as [Hw Hin]%list_elem_of_filter
      by (rewrite E; left).
    apply negb_true_iff in Hw. destruct w as [w|]; [|done]. by exists w. }
  apply list_elem_of_lookup in Hy as [i Hi]. exists y. apply list_elem_of_lookup. exists i.
  by rewrite (Hkept i _ Hi), Hth.
Qed.

Lemma scale_softmax t row : (∃ x, Some x ∈ row) → ∃ p, softmax exp (scale t row) = Some p.
Proof.
  intros (x & Hx). unfold softmax. destruct (forallb _ _) eqn:E; [|by eexists].
  rewrite forallb_Forall, Forall_forall in E.
  assert (Some (x / clamp_temperature t)%Q ∈ scale t row) as Hin.
  { apply list_elem_of_fmap. by exists (Some x). }
  specialize (E _ Hin). done.
Qed.

Lemma filter_top_p_row_proper v t cutoff row :
  (0 <= cutoff < 1)%Q → proper_row v row → proper_row v (filter_top_p_row exp argsort t cutoff row).
Proof.
  intros Hc [Hl Hx]. destruct (scale_softmax t row Hx) as [p Hp].
  destruct (filter_top_p_row_spec t cutoff row p ltac:(lra) Hp) as [He Hm].
  split; [by rewrite <-(Forall2_length _ _ _ He)|].
  set (out := filter_top_p_row exp argsort t cutoff row) in *. unfold kept_mass in Hm.
  destruct (existsb (λ x : logit, bool_decide (is_Some x)) out) eqn:E.
  - apply existsb_exists in E as ([y|] & Hin & Hy); [|done]. exists y. by apply list_elem_of_In.
  - exfalso. apply existsb_none in E. assert (Qsum (zip_with (λ (x : logit) y, match x with Some _ => y | None => 0%Q end) out p) == 0)%Q;
      [|lra]. clear Hm He Hp. clearbody out. revert p.
    induction E as [|x l Hx' _ IH]; intros [|y p]; simpl; try reflexivity.
    rewrite IH. destruct x; [done|]. ring.
Qed.

Lemma filter_top_k_proper v k rows logits :
  1 ≤ k ≤ v → Forall (proper_row v) logits →
  Forall (proper_row v) (filter_top_k argsort logits rows k) ∧
  length (filter_top_k argsort logits rows k) = length logits.
Proof.
  intros Hk H. unfold filter_top_k. split.
  - apply index_copy_Forall; [done|]. apply Forall_fmap. eapply Forall_impl; [by apply index_select_Forall|].
    intros row. by apply filter_top_k_row_proper.
  - apply index_copy_length. intros ->. by rewrite length_fmap.
Qed.

Lemma top_p_chunks_proper v fuel rows ts cs :
  Forall (λ c, 0 <= c < 1)%Q cs → Forall (proper_row v) rows →
  Forall (proper_row v) (top_p_chunks exp argsort fuel rows ts cs).
Proof.
  revert rows ts cs. induction fuel as [|fuel IH]; intros rows ts cs Hc Hr; [constructor|].
  cbn [top_p_chunks]. destruct rows as [|row rows]; [constructor|]. apply Forall_app. split.
  - apply Forall_forall. intros out [i Hi]%list_elem_of_lookup.
    apply lookup_zip_with_Some in Hi as (r & [t c] & -> & Hr' & [_ Hc']%lookup_zip_Some).
    apply lookup_take_Some in Hr' as [Hr' _], Hc' as [Hc' _]. simpl.
    rewrite Forall_lookup in Hc. rewrite Forall_lookup in Hr. apply filter_top_p_row_proper; [by eapply Hc|by eapply Hr].
  - apply IH; by apply Forall_drop.
Qed.

(** The nucleus of a batch: cutoffs below one, one per active row. *)
Definition plan_ok (batch : nat) (plan : option (option (list nat) * list Q)) : Prop :=
  match plan with
  | Some (rows, cutoffs) => Forall (λ c, 0 <= c < 1)%Q cutoffs ∧ (rows = None → length cutoffs = batch)
  | None => True
  end.

Lemma filtered_proper v logits ts buckets plan :
  Forall (λ kr : nat * option (list nat), 1 ≤ kr.1 ≤ v) buckets → plan_ok (length logits) plan →
  length ts = length logits → Forall (proper_row v) logits →
  Forall (proper_row v) (filtered exp argsort logits ts buckets plan) ∧
  length (filtered exp argsort logits ts buckets plan) = length logits.
Proof.
  intros Hb Hp Ht Hl. unfold filtered.
  assert (Forall (proper_row v) (foldl (λ x kr, filter_top_k argsort x kr.2 kr.1) logits buckets) ∧
    length (foldl (λ x kr, filter_top_k argsort x kr.2 kr.1) logits buckets) = length logits) as [Hx Hlx].
  { clear Hp Ht. revert logits Hl. induction Hb as [|[k rows] buckets Hk _ IH]; intros logits Hl; [done|].
    simpl. destruct (filter_top_k_proper v k rows logits Hk Hl) as [H1 H2].
    destruct (IH _ H1) as [? E]. split; [done|]. by rewrite E. }
  destruct plan as [[rows cutoffs]|]; [|done]. destruct Hp as [Hc Hn]. unfold filter_top_p.
  set (x := foldl _ _ _) in *. split.
  - apply index_copy_Forall; [done|]. apply top_p_chunks_proper; [done|]. by apply index_select_Forall.
  - rewrite index_copy_length; [done|]. intros ->. specialize (Hn eq_refl). simpl.
    rewrite top_p_chunks_rows by lia. rewrite !length_zip_with. lia.
Qed.

(** ** The law of a row *)

Lemma one_hot_law n i : i < n → is_law (one_hot n i) ∧ length (one_hot n i) = n.
Proof.
  intros Hi. unfold one_hot. rewrite length_insert, length_replicate. split; [split|done].
  - apply Forall_insert; [|lra]. apply Forall_replicate. lra.
  - by apply Qsum_one_hot.
Qed.

Lemma argmax_logits_lt v row : proper_row v row → argmax_by logit_ltb row < v.
Proof.
  intros [<- (x & Hx)]. destruct (argmax_by_spec logit_ltb) with row as (y & Hy & _).
  - intros a b c. apply logit_le_trans.
  - intros a b H. destruct (logit_ltb b a) eqn:E; [|done].
    pose proof (logit_lt_le_trans a b a H). destruct a as [a|], b as [b|]; try done. simpl in *.
    apply Qltb_lt in H, E. lra.
  - intros ->. by apply elem_of_nil in Hx.
  - by eapply lookup_lt_Some.
Qed.

(** Every row of the law is one, of the width of the vocabulary; a greedy row is
    the one-hot law of the largest logit. *)
Lemma laws_spec v logits x ts :
  Forall (proper_row v) logits → Forall (proper_row v) x → length x = length logits →
  length ts = length logits →
  ∃ ps, laws exp v logits x ts = Some <$> ps ∧ length ps = length logits ∧
    Forall (λ p, is_law p ∧ length p = v) ps ∧
    ∀ i t row, ts !! i = Some t → logits !! i = Some row → (t == 0)%Q →
      ps !! i = Some (one_hot v (argmax_by logit_ltb row)).
Proof.
  intros Hl. revert x ts. induction Hl as [|row logits Hrow Hl IH]; intros [|xr x] [|t ts] Hx Hlx Hlt; try done.
  { by exists []. }
  apply Forall_cons in Hx as [Hxr Hx]. destruct (IH x ts Hx) as (ps & E & Lp & Hp & Hg); [by injection Hlx|by injection Hlt|].
  unfold laws in *. cbn [fmap list_fmap zip zip_with]. change (list_fmap _ _ (argmax_by logit_ltb) logits) with (argmax_by logit_ltb <$> logits).
  change (zip_with pair ts ?l) with (zip ts l). rewrite E. cbn [fst snd].
  pose proof (argmax_logits_lt v row Hrow) as Ha. destruct (Qeq_bool t 0) eqn:Et.
  - exists (one_hot v (argmax_by logit_ltb row) :: ps). split; [done|]. split; [simpl; congruence|]. split.
    + constructor; [by apply one_hot_law|done].
    + intros [|i] t' row' Ht' Hr' Hz; [|by eapply Hg]. simpl in *. congruence.
  - destruct Hxr as [Lx Hxs]. destruct (scale_softmax t xr Hxs) as [p Ep]. rewrite Ep.
    exists (p :: ps). split; [done|]. split; [simpl; congruence|]. split.
    + constructor; [|done]. destruct (softmax_law _ _ Ep) as [? ->]. split; [done|]. unfold scale. by rewrite length_fmap.
    + intros [|i] t' row' Ht' Hr' Hz; [|by eapply Hg]. simpl in *. injection Ht' as ->.
      apply Qeq_bool_iff in Hz. congruence.
Qed.
(** ** The checked law *)

Lemma validate_bucket_ok vocab batch device out acc b acc' :
  validate_bucket vocab batch device out acc b = Ok acc' →
  Forall (λ kr : nat * option (list nat), 1 ≤ kr.1 ≤ vocab) acc.2 →
  Forall (λ kr : nat * option (list nat), 1 ≤ kr.1 ≤ vocab) acc'.2.
Proof.
  unfold validate_bucket. destruct b as [|k rows]; [done|].
  intros (_ & (Hk & (n & _ & (_ & (_ & [= <-])%obind_unit_ok)%obind_unit_ok)%obind_ok)%obind_unit_ok)%obind_unit_ok Ha.
  apply check_ok, andb_true_iff in Hk as [H1%Z.leb_le H2%Z.leb_le]. cbn [snd].
  apply Forall_app. split; [done|]. apply Forall_singleton. simpl. lia.
Qed.

Lemma validate_buckets_ok vocab batch device out acc bs acc' :
  ofold (validate_bucket vocab batch device out) bs acc = Ok acc' →
  Forall (λ kr : nat * option (list nat), 1 ≤ kr.1 ≤ vocab) acc.2 →
  Forall (λ kr : nat * option (list nat), 1 ≤ kr.1 ≤ vocab) acc'.2.
Proof.
  revert acc. induction bs as [|b bs IH]; intros acc; simpl; [by intros [= <-]|].
  intros (acc1 & E1 & E)%obind_ok Ha. eapply IH; [exact E|]. by eapply validate_bucket_ok.
Qed.

Lemma validate_plan_ok batch device out p plan :
  validate_plan batch device out p = Ok plan →
  (∀ rows c, p = Plan rows (ATensor c) → wf_tensor c) → plan_ok batch plan.
Proof.
  unfold validate_plan. destruct p as [| |rows cutoffs]; [by intros [= <-]|done|].
  intros (n & Hn & H)%obind_ok Hwf. destruct cutoffs as [| |c]; try done.
  apply obind_unit_ok in H as (Hs & (_ & (_ & (Hc & (_ & (_ & [= <-])%obind_unit_ok)%obind_unit_ok)%obind_unit_ok)%obind_unit_ok)%obind_unit_ok).
  apply check_ok, bool_decide_eq_true in Hs. apply check_ok, forallb_Forall in Hc. split.
  - apply Forall_fmap. eapply Forall_impl; [exact Hc|]. intros [q| | |] Hq; try done. simpl in *.
    apply andb_true_iff in Hq as [Hq1%negb_true_iff Hq2]. apply Qltb_ge in Hq1. apply Qltb_lt in Hq2. done.
  - intros Hr. destruct rows as [| |r]; [|done|done].
    injection Hn as <-. specialize (Hwf _ _ eq_refl). unfold wf_tensor in Hwf. rewrite Hs in Hwf. simpl in Hwf.
    unfold nums1. rewrite length_map. lia.
Qed.

(** The metadata of a batch of logits and its temperatures. *)
Record valid_logits (l : tensor logit) (t out : arg fval) (ts : tensor fval) (batch vocab : nat) : Prop := {
  vg_shape : tn_shape l = [batch; vocab] ∧ 0 < batch ∧ 0 < vocab;
  vg_wf : wf_tensor l ∧ wf_tensor ts;
  vg_float : is_floating_point (tn_dtype l) = true ∧ is_floating_point (tn_dtype ts) = true;
  vg_temperatures : t = ATensor ts ∧ tn_shape ts = [batch] ∧ tn_device ts = tn_device l ∧
    Forall (λ v, isfinite v && negb (fless v 0) = true) (tn_data ts);
  vg_out : _validate_probabilities_out out [batch; vocab] (tn_device l) = Ok tt ∧
    _reject_probabilities_out_alias out (ATensor l) "logits" = Ok tt ∧
    _reject_probabilities_out_alias out t "temperatures" = Ok tt;
  vg_rows : Forall (proper_row vocab) (rows2 l);
}.

Lemma exact_law_run l t out ts batch vocab bs pl seen buckets plan :
  valid_logits l t out ts batch vocab →
  ofold (validate_bucket vocab batch (tn_device l) out) bs ([], []) = Ok (seen, buckets) →
  validate_plan batch (tn_device l) out pl = Ok plan →
  (∀ rows c, pl = Plan rows (ATensor c) → wf_tensor c) →
  ∃ ps, prepare_exact_probabilities exp argsort (ATensor l) t bs pl out = Ok ps ∧
    prepare_exact_probabilities_trusted exp argsort vocab (rows2 l) (nums1 (tn_data ts)) buckets plan
      (forallb (λ x, Qeq_bool x 0) (nums1 (tn_data ts))) = Some <$> ps ∧
    length ps = batch ∧ Forall (λ p, is_law p ∧ length p = vocab) ps ∧
    ∀ i x row, nums1 (tn_data ts) !! i = Some x → rows2 l !! i = Some row → (x == 0)%Q →
      ps !! i = Some (one_hot vocab (argmax_by logit_ltb row)).
Proof.
  intros [(Hs & Hb & Hv) [Hwl Hwt] [Hfl Hft] (-> & Hst & Hdt & Htv) (Ho1 & Ho2 & Ho3) Hrows] Hbs Hpl Hwc.
  set (T := nums1 (tn_data ts)). assert (length (rows2 l) = batch) as Ll.
  { unfold rows2. rewrite Hs. apply length_chunks. }
  assert (length T = length (rows2 l)) as LT.
  { unfold T, nums1. rewrite length_map, Ll. unfold wf_tensor in Hwt. rewrite Hst in Hwt. simpl in Hwt. lia. }
  pose proof (validate_buckets_ok _ _ _ _ _ _ _ Hbs (Forall_nil_2 _)) as Hbk. simpl in Hbk.
  pose proof (validate_plan_ok _ _ _ _ _ Hpl Hwc) as Hpk. rewrite <-Ll in Hpk.
  destruct (filtered_proper vocab (rows2 l) T buckets plan Hbk Hpk LT Hrows) as [Hx Hlx].
  destruct (laws_spec vocab (rows2 l) _ T Hrows Hx Hlx LT) as (ps & Eps & Lps & Hps & Hg).
  exists ps. split; [|split; [|split; [congruence|by split]]].
  - unfold prepare_exact_probabilities. rewrite Hs. cbn [nth length].
    rewrite (proj2 (check_ok _ _)) by done. cbn [obind]. rewrite (proj2 (check_ok _ _)) by done. cbn [obind].
    rewrite (proj2 (oraise_if_ok _ _)) by (apply orb_false_iff; rewrite !Nat.eqb_neq; lia). cbn [obind].
    do 2 (rewrite (proj2 (check_ok _ _)) by by apply bool_decide_eq_true; cbn [obind]).
    rewrite (proj2 (check_ok _ _)) by done. cbn [obind].
    rewrite (proj2 (check_ok _ _)) by by apply forallb_Forall. cbn [obind].
    rewrite Ho1. cbn [obind]. rewrite Ho2. cbn [obind]. rewrite Ho3. cbn [obind]. rewrite Hbs. cbn [obind].
    rewrite Hpl. cbn [obind]. fold T. rewrite Eps. unfold checked_laws.
    rewrite (proj2 (check_ok _ _)). cbn [obind].
    + f_equal. clear. induction ps as [|p ps IH]; [done|]. csimpl. by rewrite IH.
    + apply forallb_Forall, Forall_fmap. eapply Forall_impl; [exact Hps|]. intros p [[_ Hm] _]. simpl.
      apply Qltb_lt. rewrite Hm. reflexivity.
  - unfold prepare_exact_probabilities_trusted. destruct (forallb (λ x, Qeq_bool x 0) T) eqn:E; [|exact Eps].
    rewrite forallb_Forall in E. rewrite <-Eps. unfold laws. symmetry.
    apply list_eq_same_length with batch; [by rewrite length_fmap|rewrite !length_zip_with, length_fmap; lia|].
    intros i y z Hi Hy Hz. apply lookup_zip_with_Some in Hy as ([x g] & xr & -> & [Hx1 Hx2]%lookup_zip_Some & _).
    apply list_lookup_fmap_Some in Hx2 as (row & -> & Hrow). rewrite list_lookup_fmap, Hrow in Hz. injection Hz as <-.
    rewrite Forall_lookup in E. specialize (E _ _ Hx1). cbn [fst snd] in *. by rewrite E.
Qed.
End filters.

(** C15: the exact law.  On logits whose metadata are valid and whose rows each
    have a finite logit, with buckets and a plan that pass their checks,
    [prepare_exact_probabilities] answers, whatever [exp] (positive) and the order
    a sort gives to ties: every row is a probability law over the vocabulary, a
    greedy row is the one-hot law of its largest logit, and the trusted path
    computes the same rows. *)
Theorem exact_law (exp : Q → Q) (argsort : list logit → list nat)
    l t out ts batch vocab bs pl seen buckets plan :
  (∀ x, (0 < exp x)%Q) → (∀ row, argsort row ≡ₚ seq 0 (length row)) →
  (∀ row i j x y, i ≤ j → argsort row !! i = Some x → argsort row !! j = Some y →
    logit_ltb (nth y row None) (nth x row None) = false) →
  valid_logits l t out ts batch vocab →
  ofold (validate_bucket vocab batch (tn_device l) out) bs ([], []) = Ok (seen, buckets) →
  validate_plan batch (tn_device l) out pl = Ok plan →
  (∀ rows c, pl = Plan rows (ATensor c) → wf_tensor c) →
  ∃ ps, prepare_exact_probabilities exp argsort (ATensor l) t bs pl out = Ok ps ∧
    prepare_exact_probabilities_trusted exp argsort vocab (rows2 l) (nums1 (tn_data ts)) buckets plan
      (forallb (λ x, Qeq_bool x 0) (nums1 (tn_data ts))) = Some <$> ps ∧
    length ps = batch ∧ Forall (λ p, is_law p ∧ length p = vocab) ps ∧
    ∀ i x row, nums1 (tn_data ts) !! i = Some x → rows2 l !! i = Some row → (x == 0)%Q →
      ps !! i = Some (one_hot vocab (argmax_by logit_ltb row)).
Proof. intros. by eapply exact_law_run. Qed.

(** C16: the filters of one row.  Top-k keeps at least [k] logits, no dropped one
    reaches a kept one and fewer than [k] exceed the threshold; top-p changes no
    kept logit, and the law of the scaled row gives the kept tokens at least the
    probability [1 - cutoff]. *)
Theorem filters_exact (exp : Q → Q) (argsort : list logit → list nat) k t cutoff row p :
  (∀ x, (0 < exp x)%Q) → (∀ row, argsort row ≡ₚ seq 0 (length row)) →
  (∀ row i j x y, i ≤ j → argsort row !! i = Some x → argsort row !! j = Some y →
    logit_ltb (nth y row None) (nth x row None) = false) →
  1 ≤ k ≤ length row → (0 <= cutoff)%Q → softmax exp (scale t row) = Some p →
  top_k_kept argsort k row (filter_top_k_row argsort k row) ∧
  let out := filter_top_p_row exp argsort t cutoff row in
  Forall2 (λ x y, y = x ∨ y = None) row out ∧ (1 - cutoff <= kept_mass p out)%Q.
Proof.
  intros He Hp Hs Hk Hc E. split; [by eapply filter_top_k_row_spec|by eapply filter_top_p_row_spec].
Qed.
