(* ===== verification/Verifier.v ===== *)
(** * Verifier: the target's side of a verified speculative cycle

    Models src/nanovllm/engine/speculative_execution.py and [run_speculative] of
    src/nanovllm/engine/model_runner.py: the readiness certificate of the
    verifier, the single target pass over every proposal of every row, the
    sequential lane, greedy and sampled acceptance and the host result.  The
    target's forward passes and the random draws are arguments; tensors enter as
    the rows they hold. *)
From Stdlib Require Import QArith.
From S2P Require Import Prelude SamplingParams Sequence SpecMemory SpecRoutes SpecPlan SpecResult.
From S2P Require Import Scheduler SpecScheduler Metrics Engine RunnerInput RunnerDraft Sampler.
#[local] Open Scope Z_scope.

Definition MAX_VERIFY_BATCH : Z := 4.
Definition MAX_VERIFY_K : Z := 4.
Definition VERIFIER_ROUTE_SCHEMA : string := "target-verifier-v2-invariant-greedy".

(** ** The resources of the verifier *)

(** A tensor as the certificate sees it. *)
Record tensor_view := mk_tensor_view {
  tv_id : Z;
  tv_data_ptr : Z;
  tv_nbytes : Z;
  tv_storage_offset : Z;
  tv_shape : list Z;
  tv_stride : list Z;
  tv_dtype : string;
  tv_device : string;
  tv_contiguous : bool;
}.

(** A dict of objects by [repr] of the key, or another object. *)
Inductive mapping :=
  | NotDict (qualname : string) (id : Z)
  | Dict (items : list (string * (Z * option tensor_view))).

Record certificate := mk_certificate {
  ct_ready : bool;
  ct_shapes : list (Z * Z);
  ct_fingerprint : option string;
}.

(** The attributes of the runner; an attribute that is missing or no tensor is
    [None]. *)
Record verifier := mk_verifier {
  vr_runner : draft_runner;
  vr_numerical_mode : string;
  vr_registry_id : Z;
  vr_mapping : string → mapping;
  vr_tensor : string → option tensor_view;
  vr_certificate : certificate;
}.

Definition set_certificate (c : certificate) (v : verifier) : verifier :=
  mk_verifier (vr_runner v) (vr_numerical_mode v) (vr_registry_id v) (vr_mapping v) (vr_tensor v) c.

Definition PInts (l : list Z) : payload := PTuple (PInt <$> l).

Definition _tensor_readiness_identity (t : option tensor_view) : payload :=
  match t with
  | None => PNone
  | Some t => PTuple [ PInt (tv_id t); PInt (tv_data_ptr t); PInt (tv_nbytes t);
      PInt (tv_storage_offset t); PInts (tv_shape t); PInts (tv_stride t);
      PStr (tv_dtype t); PStr (tv_device t) ]
  end.

Definition _mapping_readiness_identity (m : mapping) : payload :=
  match m with
  | NotDict name id => PTuple [PStr name; PInt id]
  | Dict items => PTuple ((λ kv : string * (Z * option tensor_view),
      PTuple [PStr kv.1; PInt kv.2.1; _tensor_readiness_identity kv.2.2])
      <$> sorted (λ a b, String.leb a.1 b.1) items)
  end.

Definition workspace_names : list string :=
  ["kv_cache"; "draft_kv_cache"; "_spec_q_rows"; "_spec_proposal_ids"; "_spec_target_probability_rows";
   "_spec_bonus_noise"; "_spec_result_rows"].

Section readiness.
Context (sha256_hexdigest : payload → string).

(** A bool of the payload is its integer. *)
Definition _verifier_readiness_fingerprint (v : verifier) : string :=
  let named (f : string → payload) (names : list string) :=
    PTuple ((λ n, PTuple [PStr n; f n]) <$> names) in
  let mapped := named (λ n, _mapping_readiness_identity (vr_mapping v n)) in
  sha256_hexdigest (PRepr (PTuple [
    PStr VERIFIER_ROUTE_SCHEMA;
    PInt (vr_registry_id v);
    match dn_registry (vr_runner v) with Some g => PStr (reg_plan_fingerprint g) | None => PNone end;
    PStr (vr_numerical_mode v);
    PInt (Z.b2z (dn_enforce_eager (vr_runner v)));
    mapped ["graphs"; "varlen_graphs"; "draft_graphs"];
    mapped ["graph_vars"; "varlen_vars"; "draft_graph_vars"];
    named (λ n, _tensor_readiness_identity (vr_tensor v n)) workspace_names ])).

(** ** Workspaces *)

(** The five workspaces: name, dtype, rank, least rows and least columns. *)
Definition workspace_specs (v : verifier) : list (string * string * nat * Z * option Z) :=
  let plan := dn_memory_plan (vr_runner v) in
  let batch := Z.min MAX_VERIFY_BATCH (Plan.batch_size plan) in
  let k := Z.min MAX_VERIFY_K (Plan.max_effective_k plan) in
  let vocab := Plan.vocab_size plan in
  [ ("_spec_q_rows", "torch.float32", 2%nat, batch * k, Some vocab);
    ("_spec_proposal_ids", "torch.int64", 1%nat, batch * k, None);
    ("_spec_target_probability_rows", "torch.float32", 2%nat, batch * (k + 1), Some vocab);
    ("_spec_bonus_noise", "torch.float32", 2%nat, batch, Some vocab);
    ("_spec_result_rows", "torch.int64", 2%nat, batch, Some (k + 3)) ].

Definition workspace_fits (cache t : tensor_view) (dtype : string) (ndim : nat) (rows : Z)
    (columns : option Z) : bool :=
  bool_decide (tv_device t = tv_device cache) && bool_decide (tv_dtype t = dtype)
  && (length (tv_shape t) =? ndim)%nat && (rows <=? nth 0 (tv_shape t) 0)
  && match columns with Some c => c <=? nth 1 (tv_shape t) 0 | None => true end
  && tv_contiguous t.

(** [torch._C._overlaps]: a shared storage. *)
Definition overlaps (a b : tensor_view) : bool := tv_data_ptr a =? tv_data_ptr b.

Fixpoint none_overlap (l : list tensor_view) : bool :=
  match l with
  | [] => true
  | t :: l' => negb (existsb (overlaps t) l') && none_overlap l'
  end.

Definition _verifier_workspaces_ready (v : verifier) : bool :=
  match vr_tensor v "kv_cache" with
  | None => false
  | Some cache =>
      let found := (λ sp, let '(name, dtype, ndim, rows, columns) := sp in
        match vr_tensor v name with
        | Some t => if workspace_fits cache t dtype ndim rows columns then Some t else None
        | None => None
        end) <$> workspace_specs v in
      forallb (λ o, bool_decide (is_Some o)) found && none_overlap (omap id found)
  end.

Definition verifier_route_ready (v : verifier) (batch k : Z) : bool :=
  let c := vr_certificate v in
  ct_ready c && bool_decide ((batch, k) ∈ ct_shapes c)
  && bool_decide (ct_fingerprint c = Some (_verifier_readiness_fingerprint v))
  && _verifier_workspaces_ready v.
End readiness.

(** ** Target passes *)

Record target_env := mk_target_env {
  (** the logits after every query token of a ragged pass *)
  run_model_all_positions : model_call → outcome (list (list logit));
  (** [run_model(..., is_prefill=False)]: the logits after every row *)
  run_model_decode : model_call → outcome (list (list logit));
  exp_of : Q → Q;
  argsort_of : list logit → list nat;
  (** the generators of the acceptance tests, the corrections and the bonuses *)
  rand : nat → nat → list (list Q);
  correction_exponential : nat → nat → list (list fval);
  bonus_exponential : nat → nat → list (list Q);
}.

Section target.
Context (env : target_env) (r : draft_runner).
#[local] Abbreviation block_size := (dn_block_size r).

Definition last_token (v : DraftCycleRow) : outcome Z :=
  match last (cr_token_ids v) with Some t => Ok t | None => Raise IndexError end.

(** The running sums that start with 0. *)
Definition cumulative (l : list Z) : list Z :=
  foldl (λ c x, c ++ [default 0 (last c) + x]) [0] l.

(** The inputs of the single pass: the tail and the proposals of each row. *)
Definition target_call (rows : list DraftCycleRow) (proposals : list (list Z)) (k : Z)
    : outcome model_call :=
  let batch := Z.of_nat (length rows) in
  let query (v : DraftCycleRow) := py_range (cr_committed_len v - 1) (cr_committed_len v + k) in
  let? slots := omap_all (λ v, omap_all (draft_slot block_size (cr_block_table v)) (query v)) rows in
  let? tails := omap_all last_token rows in
  let? tables := cycle_tables rows in
  Ok (mk_call (concat (zip_with cons tails proposals)) (concat (query <$> rows))
        (mk_context true
           (Some ((λ i, i * (k + 1)) <$> py_range 0 (batch + 1)))
           (Some (cumulative ((λ v, cr_committed_len v + k) <$> rows)))
           (k + 1) (foldr Z.max 0 ((λ v, cr_committed_len v + k) <$> rows))
           (Some (concat slots)) None (Some tables)
           (Some (concat ((λ i, replicate (Z.to_nat (k + 1)) i) <$> py_range 0 batch)))
           (Some (concat ((λ v, (λ step, cr_committed_len v + step) <$> py_range 0 (k + 1)) <$> rows)))
           None)).

(** [reshape(batch, k + 1, -1)]: [k + 1] rows of logits per row. *)
Definition target_logits (rows : list DraftCycleRow) (proposals : list (list Z)) (k : Z)
    : outcome (list (list (list logit))) :=
  let? c := target_call rows proposals k in
  let? logits := run_model_all_positions env c in
  oraise_if (negb (Z.of_nat (length logits) =? Z.of_nat (length rows) * (k + 1)))
    (RuntimeError "shape is invalid for input") ;?
  Ok (chunks (length rows) (Z.to_nat (k + 1)) logits).

(** ** Probability laws *)

(** A cycle row as the sampling metadata reads it. *)
Definition cycle_sampling (v : DraftCycleRow) : sampling :=
  mk_sampling (cr_temperature v) 0 false (cr_top_k v) (cr_top_p v).

Definition rows_all_greedy (rows : list DraftCycleRow) : bool :=
  forallb (λ v, Qeq_bool (cr_temperature v) 0) rows.

Definition device_metadata : Type :=
  list Q * list (nat * option (list nat)) * option (option (list nat) * list Q).

Definition _prepare_draft_sample_metadata (rows : list DraftCycleRow) : device_metadata :=
  let '(temperatures, host_top_k, host_top_p, _) :=
    sample_metadata (cycle_sampling <$> rows) (dn_draft_vocab r) in
  (temperatures,
   (λ kr : Z * option (list Z), (Z.to_nat kr.1, (map Z.to_nat) <$> kr.2)) <$> host_top_k,
   (λ rp : option (list Z) * list Q, ((map Z.to_nat) <$> rp.1, (λ p, 1 - p)%Q <$> rp.2)) <$> host_top_p).

(** A row whose law is not a number is [None]. *)
Definition _prepare_probabilities (logits : list (list logit)) (m : device_metadata)
    (all_greedy : bool) : list (option (list Q)) :=
  prepare_exact_probabilities_trusted (exp_of env) (argsort_of env)
    (length (default [] (head logits))) logits m.1.1 m.1.2 m.2 all_greedy.

(** The [k + 1] steps of the sequential lane. *)
Fixpoint sequential_steps (rows : list DraftCycleRow) (proposals : list (list Z)) (m : device_metadata)
    (steps : list Z) : outcome (list (list (option (list Q)))) :=
  match steps with
  | [] => Ok []
  | step :: steps' =>
      let? inputs := (if step =? 0 then omap_all last_token rows
                      else Ok ((λ p : list Z, p !!! Z.to_nat (step - 1)) <$> proposals)) in
      let? c := _prepare_draft_decode block_size rows inputs step in
      let? logits := run_model_decode env c in
      let? rest := sequential_steps rows proposals m steps' in
      Ok (_prepare_probabilities logits m (rows_all_greedy rows) :: rest)
  end.

(** [storage.permute(1, 0, 2)] *)
Definition transpose_rows {A} `{!Inhabited A} (n : nat) (l : list (list A)) : list (list A) :=
  (λ i, (λ c, c !!! i) <$> l) <$> seq 0 n.

Definition sequential_target_probabilities (rows : list DraftCycleRow) (proposals : list (list Z)) (k : Z)
    : outcome (list (list (option (list Q)))) :=
  let? storage := sequential_steps rows proposals (_prepare_draft_sample_metadata rows) (py_range 0 (k + 1)) in
  Ok (transpose_rows (length rows) storage).

Definition target_probabilities (rows : list DraftCycleRow) (proposals : list (list Z)) (k : Z)
    : outcome (list (list (option (list Q)))) :=
  let? logits := target_logits rows proposals k in
  let repeated_rows := concat ((λ v, replicate (Z.to_nat (k + 1)) v) <$> rows) in
  let metadata := _prepare_draft_sample_metadata repeated_rows in
  Ok (chunks (length rows) (Z.to_nat (k + 1))
        (_prepare_probabilities (concat logits) metadata (rows_all_greedy rows))).

(** ** Acceptance *)

(** What a cycle decides for its rows. *)
Record verdicts := mk_verdicts {
  vd_counts : list nat;
  vd_terminal : list Z;
  vd_fallbacks : list bool;
}.

(** The invariant greedy branch, on the argmax of every position. *)
Definition greedy_verdicts (logits : list (list (list logit))) (proposals : list (list Z)) (k : Z)
    : verdicts :=
  let target_token_ids :=
    map (map (λ l, Z.of_nat (argmax_by logit_ltb l))) logits in
  let counts := zip_with (λ t p, accepted_count (zip_with Z.eqb (take (Z.to_nat k) t) p))
                  target_token_ids proposals in
  mk_verdicts counts (zip_with (λ t c, t !!! c) target_token_ids counts) (replicate (length counts) false).

(** The sampled branch, on the laws of the target and the draft.  A law that is
    not a number has no entries: it accepts nothing, its argmax is the first entry
    and its mass is not 0. *)
Definition sampled_verdicts (p : list (list (option (list Q)))) (proposals : list (list Z))
    (q : list (list (list Q))) (k : Z) : verdicts :=
  let n := Z.to_nat k in
  let laws := map (map (default [])) p in
  let accepted := accept_trusted (rand env) (correction_exponential env) (map (take n) laws)
                    (map (map Z.to_nat) proposals) q None None in
  let bonus_laws := map (λ row, row !!! n) laws in
  let noise := bonus_exponential env (length p) (length (default [] (head bonus_laws))) in
  let bonuses := zip_with (λ law e, Z.of_nat (_sample_exponential_race law e)) bonus_laws noise in
  mk_verdicts (accepted_counts accepted)
    (zip_with (λ (c : nat) bt, if Z.of_nat c =? k then bt.1 else bt.2)
       (accepted_counts accepted) (zip bonuses (corrective_token_ids accepted)))
    (zip_with (λ (fb : bool) rc, fb && bool_decide (is_Some (rc.1 !!! rc.2)))
       (target_fallback accepted) (zip p (accepted_counts accepted))).

(** ** The host result *)

(** The packed rows [k] proposals, count, terminal token, fallback, and what is
    read back from each. *)
Definition host_row (k : Z) (v : DraftCycleRow) (values : list Z) : SpecRowResult :=
  let n := Z.to_nat k in
  let proposed := take n values in
  let count := values !!! n in
  let terminal := values !!! S n in
  mk_row_result (cr_seq_id v) proposed (take (Z.to_nat count) proposed ++ [terminal]) count (count =? k)
    (values !!! S (S n)).

Definition result_workspace_ok (storage : option tensor_view) (device : string) (batch k : Z) : bool :=
  match storage with
  | None => false
  | Some t =>
      bool_decide (tv_device t = device) && bool_decide (tv_dtype t = "torch.int64")
      && (length (tv_shape t) =? 2)%nat && (batch <=? nth 0 (tv_shape t) 0)
      && (k + 3 <=? nth 1 (tv_shape t) 0) && tv_contiguous t
  end.

Definition _host_results (storage : option tensor_view) (device : string) (rows : list DraftCycleRow)
    (proposals : list (list Z)) (vd : verdicts) (k : Z) : outcome (list SpecRowResult) :=
  oraise_if (negb (result_workspace_ok storage device (Z.of_nat (length rows)) k))
    (RuntimeError "speculative result workspace is unavailable") ;?
  let packed := zip_with (λ p ctf, take (Z.to_nat k) p ++ [Z.of_nat ctf.1; ctf.2.1; Z.b2z ctf.2.2])
                  proposals (zip (vd_counts vd) (zip (vd_terminal vd) (vd_fallbacks vd))) in
  oraise_if (negb (length packed =? length rows)%nat)
    (ValueError "zip() argument 2 is shorter than argument 1") ;?
  Ok (zip_with (host_row k) rows packed).
End target.

(** ** The cycle *)

Section execute.
Context {logits : Type} (denv : draft_env logits) (env : target_env) (v : verifier).
Context (torch : torch_dtypes) (sha256_hexdigest : payload → string).
#[local] Abbreviation r := (vr_runner v).

(** The device of the draft's tensors. *)
Definition draft_device : string :=
  match vr_tensor v "draft_kv_cache" with Some t => tv_device t | None => "" end.

Definition invariant_mode : bool := bool_decide (vr_numerical_mode v = "invariant").

(** The verdicts of the branch the batch takes. *)
Definition verify (rows : list DraftCycleRow) (k : Z) (draft : DraftProposalExecution)
    : outcome verdicts :=
  let proposals := ex_proposal_token_ids draft in
  if rows_all_greedy rows && invariant_mode then
    let? t := target_logits env r rows proposals k in
    Ok (greedy_verdicts t proposals k)
  else
    let? p := (if existsb (λ w, Qeq_bool (cr_temperature w) 0) rows && negb invariant_mode
               then sequential_target_probabilities env r rows proposals k
               else target_probabilities env r rows proposals k) in
    Ok (sampled_verdicts env p proposals (ex_q_probabilities draft) k).

(** The cycle on validated rows.  The positional work the result reports is the
    plan's. *)
Definition execute_validated (plan : SpecStepPlan) (rows : list DraftCycleRow) (k : Z)
    (route_key : DraftRouteKey) : MR SpecExecutionResult :=
  raise_if (negb (verifier_route_ready sha256_hexdigest v (Z.of_nat (length rows)) k))
    (RuntimeError "target verifier route was not warmed") ;;;
  let* draft := _execute_draft_proposals_validated denv r rows k route_key in
  let* vd := lift (verify rows k draft) in
  let* results := lift (_host_results (vr_tensor v "_spec_result_rows") draft_device rows
                          (ex_proposal_token_ids draft) vd k) in
  ret (mk_execution_result (cycle_id plan) (workspace_fingerprint plan) results
         (target_query_tokens plan) (plan_draft_catchup_tokens plan + draft_query_tokens plan)).

Definition execute (plan : SpecStepPlan) (seqs : list sequence) : MR SpecExecutionResult :=
  let* (rows, k, route_key) := lift (_validate_draft_discard_plan torch sha256_hexdigest r (StepPlan plan) seqs) in
  execute_validated plan rows k route_key.

(** Every failure is re-raised as one host-only error. *)
Definition run_speculative (plan : SpecStepPlan) (seqs : list sequence) : MR SpecExecutionResult :=
  λ log, match execute plan seqs log with
  | (Ok res, log') => (Ok res, log')
  | (Raise _, log') => (Raise (RuntimeError "speculative verification failed"), log')
  end.
End execute.

(** ** Certification *)

Section warm.
Context (env : target_env) (sha256_hexdigest : payload → string).
(** One call of every sampling family on the laws of a shape, in place of their
    CUDA kernels; the peak of the memory they allocated; and the transient
    allocations the warmup has already paid for. *)
Context (touch_samplers : list (list (option (list Q))) → outcome unit) (peak_bytes transient_bytes : Z).

(** The rows of a shape: one token each, on consecutive blocks. *)
Definition warm_rows (batch blocks_per_row : Z) (temperature : Q) : list DraftCycleRow :=
  (λ i, mk_cycle_row (Z.to_nat i) [0] 1 0 0
     (Z.to_nat <$> py_range (i * blocks_per_row) ((i + 1) * blocks_per_row)) temperature (-1) 1)
  <$> py_range 0 batch.

Definition blocks_per_row (r : draft_runner) (k : Z) : Z :=
  (k + 1 + dn_block_size r - 1) `div` dn_block_size r.

(** The shapes the configuration can run; the target cache is allocated. *)
Definition warm_legal (r : draft_runner) (batch k : Z) : bool :=
  negb ((default 0 (dn_target_blocks r) <? batch * blocks_per_row r k)
        || (dn_max_num_batched_tokens r <? batch * (2 * k + 1))
        || (dn_max_model_len r <? k + 1)).

Definition warm_shape (r : draft_runner) (batch k : Z) : outcome unit :=
  let proposals := replicate (Z.to_nat batch) (replicate (Z.to_nat k) 0) in
  let? p := target_probabilities env r (warm_rows batch (blocks_per_row r k) 1) proposals k in
  touch_samplers p ;?
  let? _ := sequential_target_probabilities env r (warm_rows batch (blocks_per_row r k) 0) proposals k in
  Ok tt.

(** The two nested loops; [ready] in the order of the additions. *)
Definition warm_loop (r : draft_runner) : outcome (list (Z * Z)) :=
  let plan := dn_memory_plan r in
  let max_batch := Z.min MAX_VERIFY_BATCH (Plan.batch_size plan) in
  let max_k := Z.min MAX_VERIFY_K (Plan.max_effective_k plan) in
  ofold (λ ready bk, let '(batch, k) := bk in
      if warm_legal r batch k then warm_shape r batch k ;? Ok (ready ++ [(batch, k)]) else Ok ready)
    (concat ((λ batch, pair batch <$> py_range 1 (max_k + 1)) <$> py_range 1 (max_batch + 1))) [].

Definition warm_verifier : M verifier unit :=
  modify (set_certificate (mk_certificate false [] None)) ;;;
  let* v := get in
  let* ready := lift (warm_loop (vr_runner v)) in
  raise_if (bool_decide (ready = []))
    (RuntimeError "configuration has no legal target verifier route") ;;;
  raise_if (Plan.reservation_bytes (dn_memory_plan (vr_runner v)) + transient_bytes <? peak_bytes)
    (RuntimeError "target verifier pretouch exceeds the reserved runtime envelope") ;;;
  modify (set_certificate (mk_certificate false ready None)) ;;;
  raise_if (negb (_verifier_workspaces_ready v))
    (RuntimeError "target verifier workspaces failed readiness validation") ;;;
  let fingerprint := Some (_verifier_readiness_fingerprint sha256_hexdigest v) in
  modify (set_certificate (mk_certificate false ready fingerprint)) ;;;
  modify (set_certificate (mk_certificate true ready fingerprint)).
End warm.
