(* ===== verification/VerifierSpec.v ===== *)
(** * VerifierSpec: the verified cycle

    A certificate is issued only for the resources it was checked on and only for
    the shapes the configuration can run; the single target pass asks the target
    what the sequential decode steps would ask; a greedy cycle emits the target's
    own greedy continuation; and the result of a cycle is one the engine commits. *)
From Stdlib Require Import QArith.
From S2P Require Import Prelude SamplingParams Sequence SpecMemory SpecRoutes SpecPlan SpecResult.
From S2P Require Import ResultSpec Scheduler SpecScheduler Metrics Engine RunnerInput RunnerSpec RunnerDraft.
From S2P Require Import RunnerDraftSpec Sampler SamplerSpec AcceptSpec FilterSpec Verifier.
#[local] Open Scope Z_scope.

Lemma elem_of_concat {A} (ls : list (list A)) x : x ∈ concat ls ↔ ∃ l, x ∈ l ∧ l ∈ ls.
Proof.
  rewrite list_elem_of_In, in_concat. setoid_rewrite list_elem_of_In. naive_solver.
Qed.

(** ** The certificate *)

Section warm.
Context (env : target_env) (sha256_hexdigest : payload → string).
Context (touch_samplers : list (list (option (list Q))) → outcome unit) (peak_bytes transient_bytes : Z).
#[local] Abbreviation warm_verifier :=
  (warm_verifier env sha256_hexdigest touch_samplers peak_bytes transient_bytes).

(** The shapes a certificate covers. *)
Definition certified_shape (r : draft_runner) (batch k : Z) : Prop :=
  1 <= batch <= Z.min MAX_VERIFY_BATCH (Plan.batch_size (dn_memory_plan r)) ∧
  1 <= k <= Z.min MAX_VERIFY_K (Plan.max_effective_k (dn_memory_plan r)) ∧
  warm_legal r batch k = true.

Lemma warm_fold r l acc ready :
  ofold (λ ready bk, let '(batch, k) := bk in
    if warm_legal r batch k then warm_shape env touch_samplers r batch k ;? Ok (ready ++ [(batch, k)])
    else Ok ready) l acc = Ok ready →
  ready = acc ++ filter (λ bk, warm_legal r bk.1 bk.2 = true) l.
Proof.
  revert acc. induction l as [|[b k] l IH]; intros acc; simpl; [intros [= <-]; by rewrite app_nil_r|].
  intros (acc' & E & H)%obind_ok. apply IH in H. rewrite H. destruct (warm_legal r b k) eqn:El.
  - apply obind_unit_ok in E as [_ [= <-]]. rewrite filter_cons_True by done. by rewrite <-(assoc_L (++)).
  - injection E as <-. rewrite filter_cons_False; [done|]. simpl. congruence.
Qed.

Lemma warm_loop_ok r ready :
  warm_loop env touch_samplers r = Ok ready → ∀ b k, (b, k) ∈ ready ↔ certified_shape r b k.
Proof.
  intros E b k. apply warm_fold in E as ->. simpl. rewrite list_elem_of_filter. simpl.
  unfold certified_shape. rewrite elem_of_concat. split.
  - intros (Hl & row & Hbk & (b' & -> & Hb)%list_elem_of_fmap). apply list_elem_of_fmap in Hbk as (k' & [= -> ->] & Hk).
    apply elem_of_py_range in Hb, Hk. split_and!; [lia..|done].
  - intros (Hb & Hk & Hl). split; [done|].
    exists (pair b <$> py_range 1 (Z.min MAX_VERIFY_K (Plan.max_effective_k (dn_memory_plan r)) + 1)).
    split; [apply list_elem_of_fmap; exists k; split; [done|]|apply list_elem_of_fmap; exists b; split; [done|]];
      apply elem_of_py_range; lia.
Qed.

Lemma warm_run v :
  let '(o, v') := warm_verifier v in
  (∃ c, v' = set_certificate c v ∧ (ct_ready c = true → o = Ok tt)) ∧
  (o = Ok tt → ∃ ready, v' = set_certificate
      (mk_certificate true ready (Some (_verifier_readiness_fingerprint sha256_hexdigest v))) v ∧
    _verifier_workspaces_ready v = true ∧ ∀ b k, (b, k) ∈ ready ↔ certified_shape (vr_runner v) b k).
Proof.
  unfold warm_verifier, Verifier.warm_verifier, bind, modify, get, lift, raise_if. cbn [set_certificate vr_runner].
  destruct (warm_loop env touch_samplers (vr_runner v)) as [ready|e] eqn:E; [|split; [by eexists|done]].
  case_bool_decide; [split; [by eexists|done]|]. simpl.
  destruct (_ <? _); [split; [by eexists|done]|]. simpl.
  change (_verifier_workspaces_ready (set_certificate _ v)) with (_verifier_workspaces_ready v).
  destruct (_verifier_workspaces_ready v); simpl; [|split; [by eexists|done]].
  split; [by eexists|]. intros _. exists ready. split; [done|]. split; [done|]. by apply warm_loop_ok.
Qed.
End warm.

(** C11: the verifier's certificate is transactional and exact.  After
    [warm_verifier], whatever failed on the way and whatever certificate was there
    before, a route is ready only if the warm-up succeeded; when it did, the ready
    routes are exactly the shapes within the bounds that the configuration can
    run, and with other resources (another fingerprint) none is. *)
Theorem warm_certifies env sha256_hexdigest touch_samplers peak_bytes transient_bytes v o v' :
  warm_verifier env sha256_hexdigest touch_samplers peak_bytes transient_bytes v = (o, v') →
  (∀ b k, verifier_route_ready sha256_hexdigest v' b k = true → o = Ok tt) ∧
  (o = Ok tt → ∀ b k, verifier_route_ready sha256_hexdigest v' b k = true ↔ certified_shape (vr_runner v) b k) ∧
  ∀ w b k, vr_certificate w = vr_certificate v' →
    _verifier_readiness_fingerprint sha256_hexdigest w ≠ _verifier_readiness_fingerprint sha256_hexdigest v →
    verifier_route_ready sha256_hexdigest w b k = false.
Proof.
  intros E. pose proof (warm_run env sha256_hexdigest touch_samplers peak_bytes transient_bytes v) as H.
  rewrite E in H. destruct H as [(c & -> & Hc) Hok].
  unfold verifier_route_ready. cbn [vr_certificate set_certificate]. split; [|split].
  - intros b k. rewrite !andb_true_iff. intros [[[? _] _] _]. by apply Hc.
  - intros Ho b k. destruct (Hok Ho) as (ready & Ev & Hw & Hs). apply (f_equal vr_certificate) in Ev.
    cbn [vr_certificate set_certificate] in Ev. subst c. cbn [ct_ready ct_shapes ct_fingerprint].
    change (_verifier_workspaces_ready (set_certificate _ v)) with (_verifier_workspaces_ready v).
    change (_verifier_readiness_fingerprint sha256_hexdigest (set_certificate _ v))
      with (_verifier_readiness_fingerprint sha256_hexdigest v).
    rewrite Hw, !andb_true_r, (bool_decide_eq_true_2 (Some _ = Some _)) by done. rewrite andb_true_r. simpl.
    by rewrite bool_decide_eq_true.
  - intros w b k -> Hne. cbn [vr_certificate set_certificate]. destruct (ct_ready c) eqn:Er; [|done].
    destruct (Hok (Hc eq_refl)) as (ready & Ev & _ & _). apply (f_equal vr_certificate) in Ev.
    cbn [vr_certificate set_certificate] in Ev. subst c. cbn [ct_ready ct_shapes ct_fingerprint].
    assert (bool_decide (Some (_verifier_readiness_fingerprint sha256_hexdigest v) =
      Some (_verifier_readiness_fingerprint sha256_hexdigest w)) = false) as ->
      by (apply bool_decide_eq_false; congruence).
    by rewrite andb_false_r.
Qed.

(** ** Validated rows *)

(** What validation knows of the sequence of a row. *)
Definition row_fresh (row : DraftDiscardRow) (q : sequence) : Prop :=
  dr_committed_tokens row = num_tokens q ∧ dr_target_cached_tokens row = num_cached_tokens q ∧
  dr_draft_cached_tokens row = num_draft_cached_tokens q ∧ dr_block_table row = block_table q ∧
  is_prefill q = false ∧ num_scheduled_tokens q = 1 ∧ dr_remaining_completion_tokens row = remaining_tokens q.

Lemma validate_row_fresh r k nb ids seen row q v :
  validate_discard_row r k nb ids seen row q = Ok v → row_fresh row q.
Proof.
  unfold validate_discard_row. intros H. peel H. cbv zeta in H. peel H.
  repeat match goal with
  | E : _ || _ = false |- _ => apply orb_false_iff in E as [? ?]
  | E : negb _ = false |- _ => apply negb_false_iff in E
  | E : bool_decide _ = true |- _ => apply bool_decide_eq_true in E
  | E : (_ =? _) = true |- _ => apply Z.eqb_eq in E
  end.
  unfold row_fresh. by split_and!.
Qed.

Lemma validate_rows_fresh r k nb ids seen rows qs vs :
  length rows = length qs → validate_discard_rows r k nb ids seen rows qs = Ok vs → Forall2 row_fresh rows qs.
Proof.
  revert qs seen vs. induction rows as [|row rows IH]; intros [|q qs] seen vs Hl; try done; simpl.
  intros (v & Hv & (vs' & E & _)%obind_ok)%obind_ok. constructor; [by eapply validate_row_fresh|].
  eapply IH; [simpl in Hl; lia|exact E].
Qed.

Lemma validate_discard_fresh r p qs vs k key :
  validate_discard r p qs = Ok (vs, k, key) → Forall2 row_fresh (dp_rows p) qs.
Proof.
  intros E. pose proof (validate_discard_inv _ _ _ _ _ _ E) as [nb Hv].
  unfold validate_discard in E. apply obind_ok in E as ([[[k' catchup] key'] nb'] & _ & H).
  apply obind_ok in H as (views & Hr & _). eapply validate_rows_fresh; [|exact Hr].
  symmetry. apply Hv.
Qed.

(** A snapshot of the plan against its live sequence. *)
Lemma validated_snapshots torch sha256_hexdigest r p qs vs k key :
  _validate_draft_discard_plan torch sha256_hexdigest r (StepPlan p) qs = Ok (vs, k, key) →
  Forall (λ q, status q = RUNNING) qs → Forall2 snapshot_of (rows p) qs.
Proof.
  simpl. unfold _validate_speculative_step_plan. intros (? & _ & H)%obind_ok Hs.
  apply validate_discard_fresh in H. simpl in H. rewrite Forall2_fmap_l in H. revert Hs.
  induction H as [|sn q sns qs' Hq _ IH]; intros Hs; [constructor|]. apply Forall_cons in Hs as [Hs1 Hs2].
  constructor; [|by apply IH].
  destruct Hq as (H1 & H2 & H3 & H4 & H5 & H6 & H7). simpl in *. unfold remaining_tokens in H7.
  split; try done; congruence.
Qed.

(** ** Shapes of the laws *)

Section widths.
Context (exp : Q → Q) (argsort : list logit → list nat) (w : nat).
#[local] Abbreviation narrow := (λ row : list logit, length row ≤ w)%nat.

Lemma filter_top_p_row_narrow t c row : narrow row → narrow (filter_top_p_row exp argsort t c row).
Proof. unfold filter_top_p_row. rewrite length_zip_with. lia. Qed.

Lemma top_p_chunks_narrow fuel rows ts cs :
  Forall narrow rows → Forall narrow (top_p_chunks exp argsort fuel rows ts cs).
Proof.
  revert rows ts cs. induction fuel as [|fuel IH]; intros rows ts cs H; [destruct rows; constructor|].
  destruct rows as [|row rows]; [constructor|]. cbn [top_p_chunks]. apply Forall_app. split.
  - apply Forall_forall. intros x Hx. apply list_elem_of_lookup in Hx as [i Hi].
    apply lookup_zip_with_Some in Hi as (row' & tc & -> & Hr & _). apply filter_top_p_row_narrow.
    rewrite Forall_lookup in H. apply lookup_take_Some in Hr as [Hr _]. by eapply H.
  - apply IH. by apply Forall_drop.
Qed.

Lemma filtered_narrow logits ts buckets plan :
  length ts = length logits → Forall narrow logits →
  (∀ cs, plan = Some (None, cs) → length cs = length logits) →
  Forall narrow (filtered exp argsort logits ts buckets plan) ∧
  length (filtered exp argsort logits ts buckets plan) = length logits.
Proof.
  intros Ht Hl Hp. unfold filtered.
  assert (Forall narrow (foldl (λ x kr, filter_top_k argsort x kr.2 kr.1) logits buckets) ∧
    length (foldl (λ x kr, filter_top_k argsort x kr.2 kr.1) logits buckets) = length logits) as [Hx Hlx].
  { clear Ht Hp. revert logits Hl. induction buckets as [|[k rows] buckets IH]; intros logits Hl; [done|].
    simpl. destruct (IH (filter_top_k argsort logits rows k)) as [? E].
    - unfold filter_top_k. apply index_copy_Forall; [done|]. apply Forall_fmap.
      eapply Forall_impl; [by apply index_select_Forall|]. intros row H. simpl. unfold filter_top_k_row.
      by rewrite length_fmap.
    - split; [done|]. rewrite E. unfold filter_top_k. apply index_copy_length. intros ->. apply length_fmap. }
  destruct plan as [[rows cs]|]; [|done]. unfold filter_top_p. split.
  - apply index_copy_Forall; [done|]. apply top_p_chunks_narrow. by apply index_select_Forall.
  - rewrite index_copy_length; [done|]. intros ->. specialize (Hp cs eq_refl). simpl.
    rewrite top_p_chunks_rows by lia. rewrite !length_zip_with. lia.
Qed.

Lemma laws_narrow logits ts buckets plan all_greedy :
  length ts = length logits → Forall narrow logits →
  (∀ cs, plan = Some (None, cs) → length cs = length logits) →
  let ps := prepare_exact_probabilities_trusted exp argsort w logits ts buckets plan all_greedy in
  length ps = length logits ∧ Forall (λ o, length (default [] o) ≤ w)%nat ps.
Proof.
  intros Ht Hl Hp. destruct (filtered_narrow logits ts buckets plan Ht Hl Hp) as [Hx Hlx].
  assert (∀ i, length (one_hot w i) = w) as Ho.
  { intros i. unfold one_hot. by rewrite length_insert, length_replicate. }
  unfold prepare_exact_probabilities_trusted. destruct all_greedy; simpl.
  - rewrite length_fmap. split; [done|]. apply Forall_fmap, Forall_true. intros row. simpl. by rewrite Ho.
  - unfold laws. rewrite !length_zip_with, length_fmap. split; [lia|].
    apply Forall_forall. intros o Hin. apply list_elem_of_lookup in Hin as [i Hi].
    apply lookup_zip_with_Some in Hi as (tg & row & -> & _ & Hr). destruct (Qeq_bool _ _); simpl; [by rewrite Ho|].
    rewrite Forall_lookup in Hx. specialize (Hx _ _ Hr). simpl in Hx. unfold softmax.
    destruct (forallb _ _); simpl; [lia|]. rewrite length_normalize, length_fmap. unfold scale.
    by rewrite length_fmap.
Qed.
End widths.

(** A plan over the whole batch has a cut-off for each of its rows. *)
Lemma metadata_shape r rows :
  let m := _prepare_draft_sample_metadata r rows in
  length m.1.1 = length rows ∧ ∀ cs, m.2 = Some (None, cs) → length cs = length rows.
Proof.
  unfold _prepare_draft_sample_metadata, sample_metadata. destruct (forallb _ _); cbn [fst snd].
  { rewrite !length_fmap. split; [done|]. by intros cs. }
  rewrite !length_fmap. split; [done|]. intros cs. unfold top_p_plan_of.
  set (active := filter _ _). destruct active as [|a l]; [done|]. simpl. unfold rows_or_all.
  destruct (Nat.eqb _ _) eqn:E; [apply Nat.eqb_eq in E|done].
  intros [= <-]. rewrite length_enumerate, length_fmap in E. rewrite <-E. cbn [length]. f_equal.
  by rewrite !length_fmap.
Qed.

(** ** Verdicts *)

(** Verdicts for [n] rows of [k] proposals over a vocabulary. *)
Record verdicts_ok (n : nat) (k vocab : Z) (vd : verdicts) : Prop := {
  vo_lengths : length (vd_counts vd) = n ∧ length (vd_terminal vd) = n ∧ length (vd_fallbacks vd) = n;
  vo_counts : Forall (λ c, Z.of_nat c <= k) (vd_counts vd);
  vo_terminal : Forall (λ t, 0 <= t < vocab) (vd_terminal vd);
  vo_fallbacks : Forall2 (λ (c : nat) (f : bool), f = true → Z.of_nat c < k) (vd_counts vd) (vd_fallbacks vd);
}.

Lemma argmax_by_lt {A} (ltb : A → A → bool) l : (argmax_by ltb l < Nat.max 1 (length l))%nat.
Proof.
  destruct l as [|x l]; [simpl; lia|]. unfold argmax_by. cbn [length].
  assert (∀ l i best y, best < i → argmax_from ltb i best y l < i + length l)%nat as H; [|specialize (H l 1%nat 0%nat x); lia].
  clear. induction l as [|z l IH]; intros i best y Hb; simpl; [lia|].
  destruct (ltb y z); [specialize (IH (S i) i z)|specialize (IH (S i) best y)]; lia.
Qed.

Lemma race_lt law noise w :
  0 < w → Z.of_nat (length law) <= w → 0 <= Z.of_nat (_sample_exponential_race law noise) < w.
Proof.
  intros Hw Hl. unfold _sample_exponential_race, argmax.
  pose proof (argmax_by_lt Qltb (zip_with Qdiv law noise)) as H. rewrite length_zip_with in H. lia.
Qed.

Lemma accepted_count_le l n : length l = n → (accepted_count l ≤ n)%nat.
Proof. intros <-. apply accepted_count_spec. Qed.

(** The rows of a cycle's proposals and logits. *)
Definition matrix {A} (n k : nat) (l : list (list A)) : Prop :=
  length l = n ∧ Forall (λ row, length row = k) l.

Lemma chunks_matrix {A} n k (l : list A) : length l = (n * k)%nat → matrix n k (chunks n k l).
Proof. intros H. split; [apply length_chunks|by apply chunks_rows]. Qed.

Lemma greedy_verdicts_ok n k vocab logits proposals :
  0 <= k → 0 < vocab → matrix n (S (Z.to_nat k)) logits → matrix n (Z.to_nat k) proposals →
  Forall (Forall (λ row : list logit, Z.of_nat (length row) <= vocab)) logits →
  verdicts_ok n k vocab (greedy_verdicts logits proposals k).
Proof.
  intros Hk Hv [Ll Hl] [Lp Hp] Hw. unfold greedy_verdicts.
  set (T := map _ logits). set (counts := zip_with _ T proposals).
  assert (length T = n) as LT by (unfold T; by rewrite length_map).
  assert (length counts = n) as Lc by (unfold counts; rewrite length_zip_with; lia).
  assert (Forall (λ c, Z.of_nat c <= k) counts) as Hc.
  { apply Forall_forall. intros c Hin. apply list_elem_of_lookup in Hin as [i Hi].
    apply lookup_zip_with_Some in Hi as (t & p & -> & _ & Hpi). rewrite Forall_lookup in Hp.
    specialize (Hp _ _ Hpi). simpl in Hp.
    pose proof (proj1 (accepted_count_spec (zip_with Z.eqb (take (Z.to_nat k) t) p))) as H.
    rewrite length_zip_with in H. lia. }
  split; cbn [vd_counts vd_terminal vd_fallbacks].
  - rewrite length_zip_with, length_replicate. lia.
  - done.
  - apply Forall_forall. intros x Hin. apply list_elem_of_lookup in Hin as [i Hi].
    apply lookup_zip_with_Some in Hi as (t & c & -> & Ht & Hci). unfold T in Ht. rewrite list_lookup_fmap in Ht.
    destruct (logits !! i) as [row|] eqn:Er; [|done]. injection Ht as <-.
    rewrite Forall_lookup in Hl. rewrite Forall_lookup in Hc. specialize (Hl _ _ Er). specialize (Hc _ _ Hci).
    simpl in Hl, Hc.
    rewrite Forall_lookup in Hw. specialize (Hw _ _ Er). rewrite Forall_lookup in Hw.
    destruct (lookup_lt_is_Some_2 row c) as [g Hg]; [lia|].
    rewrite list_lookup_total_alt, list_lookup_fmap, Hg. simpl. specialize (Hw _ _ Hg). simpl in Hw.
    pose proof (argmax_by_lt logit_ltb g). lia.
  - apply Forall2_same_length_lookup. rewrite length_replicate. split; [done|].
    intros i c f _ [-> _]%lookup_replicate. done.
Qed.

(** A generator answers a matrix of the shape asked for. *)
Record draws_ok (env : target_env) : Prop := {
  do_rand : ∀ n m, matrix n m (rand env n m);
  do_correction : ∀ n m, matrix n m (correction_exponential env n m);
  do_bonus : ∀ n m, matrix n m (bonus_exponential env n m);
}.

Lemma Forall_zip_with {A B C} (P : C → Prop) (f : A → B → C) l1 l2 :
  (∀ i x y, l1 !! i = Some x → l2 !! i = Some y → P (f x y)) → Forall P (zip_with f l1 l2).
Proof.
  intros H. apply Forall_lookup. intros i z (x & y & -> & Hx & Hy)%lookup_zip_with_Some. by eapply H.
Qed.

(** What the trusted acceptance answers on matrices. *)
Lemma trusted_verdicts env n k w target tokens q :
  (0 < n)%nat → (0 < k)%nat → 0 < w → draws_ok env → matrix n k target →
  Forall (Forall (λ l : list Q, Z.of_nat (length l) <= w)) target → length tokens = n → length q = n →
  let a := accept_trusted (rand env) (correction_exponential env) target tokens q None None in
  length (accepted_counts a) = n ∧ length (corrective_token_ids a) = n ∧ length (target_fallback a) = n ∧
  Forall (λ c, c ≤ k)%nat (accepted_counts a) ∧ Forall (λ t, 0 <= t < w) (corrective_token_ids a) ∧
  Forall2 (λ (c : nat) f, f = true → c < k)%nat (accepted_counts a) (target_fallback a).
Proof.
  intros Hn Hk Hw Hd [Lt Ht] Hwt Lk Lq. unfold accept_trusted.
  assert (length (default [] (head target)) = k) as ->.
  { destruct target as [|row target]; [simpl in Lt; lia|]. by apply Forall_cons in Ht as [? _]. }
  set (vocab := length (default [] (head (default [] (head target))))). rewrite Lt. cbn [default].
  destruct (do_rand env Hd n k) as [Lr _]. destruct (do_correction env Hd n vocab) as [Le _].
  set (rows := zip _ (zip tokens _)). assert (length rows = n) as Lrows.
  { unfold rows. rewrite !length_zip_with. lia. }
  assert (∀ r, r ∈ rows → r.1.1 ∈ target) as Hin.
  { intros r Hr. apply list_elem_of_lookup in Hr as [i Hi]. unfold rows in Hi.
    apply lookup_zip_with_Some in Hi as (x & y & -> & Hx & _).
    apply lookup_zip_with_Some in Hx as (x1 & x2 & -> & Hx & _). simpl. by eapply list_elem_of_lookup_2. }
  set (counts := _ <$> rows). assert (length counts = n) as Lc by (unfold counts; by rewrite length_fmap).
  set (laws := zip_with _ rows counts). assert (length laws = n) as Ll.
  { unfold laws. rewrite length_zip_with. lia. }
  cbn [accepted_counts corrective_token_ids target_fallback].
  split_and!; [done|unfold nums2; rewrite length_zip_with, length_map; lia|by rewrite length_fmap|..].
  - apply Forall_fmap, Forall_forall. intros r Hr. simpl. rewrite Forall_forall in Ht.
    specialize (Ht _ (Hin r Hr)). simpl in Ht. etrans; [apply accepted_count_spec|]. unfold row_accepts.
    rewrite !length_zip_with. lia.
  - apply Forall_zip_with. intros i law e Hl _. apply race_lt; [done|].
    apply lookup_zip_with_Some in Hl as (r & c & -> & Hr & _). apply list_elem_of_lookup_2 in Hr.
    assert (Z.of_nat (length (nth (c `min` (k - 1)) r.1.1 [])) <= w) as Hp.
    { rewrite Forall_forall in Hwt. specialize (Hwt _ (Hin r Hr)). rewrite Forall_lookup in Hwt.
      rewrite nth_lookup. destruct (r.1.1 !! _) as [l|] eqn:E; simpl; [by eapply Hwt|lia]. }
    destruct (_ && _); cbn [fst]; [by rewrite length_normalize|]. rewrite length_fmap. unfold residual.
    rewrite length_zip_with, !length_normalize. lia.
  - apply Forall2_same_length_lookup. rewrite length_fmap. split; [congruence|].
    intros i c f Hc Hf. rewrite list_lookup_fmap in Hf. destruct (laws !! i) as [law|] eqn:El; [|done].
    injection Hf as <-. apply lookup_zip_with_Some in El as (r & c' & -> & _ & Hc').
    rewrite Hc in Hc'. injection Hc' as <-. simpl. by intros [?%Nat.ltb_lt _]%andb_true_iff.
Qed.

Lemma sampled_verdicts_ok env n k vocab p proposals q :
  (0 < n)%nat → 1 <= k → 0 < vocab → draws_ok env → matrix n (S (Z.to_nat k)) p →
  Forall (Forall (λ o : option (list Q), Z.of_nat (length (default [] o)) <= vocab)) p →
  length proposals = n → length q = n →
  verdicts_ok n k vocab (sampled_verdicts env p proposals q k).
Proof.
  intros Hn Hk Hv Hd [Lp Hp] Hw Lk Lq. unfold sampled_verdicts.
  set (laws := map (map (default [])) p). set (m := Z.to_nat k).
  assert (matrix n m (map (take m) laws)) as Hm.
  { split; [unfold laws; by rewrite !length_map|]. apply Forall_fmap, Forall_fmap.
    eapply Forall_impl; [exact Hp|]. intros row Hr. simpl in *. rewrite length_take, length_map. lia. }
  assert (Forall (Forall (λ l : list Q, Z.of_nat (length l) <= vocab)) laws) as Hl.
  { apply Forall_fmap. eapply Forall_impl; [exact Hw|]. intros row Hr. by apply Forall_fmap. }
  assert (Forall (Forall (λ l : list Q, Z.of_nat (length l) <= vocab)) (map (take m) laws)) as Hlt.
  { apply Forall_fmap. eapply Forall_impl; [exact Hl|]. intros row Hr. by apply Forall_take. }
  destruct (trusted_verdicts env n m vocab (map (take m) laws) (map (map Z.to_nat) proposals) q)
    as (L1 & L2 & L3 & Hc & Ht & Hf); [done|lia|done|done|done|done|by rewrite length_map|done|].
  set (a := accept_trusted _ _ _ _ _ _ _) in *. cbn [default].
  set (bonus_laws := map _ laws). set (noise := bonus_exponential _ _ _).
  assert (length noise = n) as Ln.
  { unfold noise. destruct (do_bonus env Hd (length p) (length (default [] (head bonus_laws)))) as [-> _]. done. }
  assert (length bonus_laws = n) as Lb by (unfold bonus_laws, laws; by rewrite !length_map).
  set (bonuses := zip_with _ bonus_laws noise).
  assert (length bonuses = n) as Lbo by (unfold bonuses; rewrite length_zip_with; lia).
  assert (Forall (λ t, 0 <= t < vocab) bonuses) as Hb.
  { apply Forall_zip_with. intros i law e Hi _. apply race_lt; [done|]. unfold bonus_laws in Hi.
    rewrite list_lookup_fmap in Hi. destruct (laws !! i) as [row|] eqn:Er; [|done]. injection Hi as <-.
    rewrite Forall_lookup in Hl. specialize (Hl _ _ Er). rewrite Forall_lookup in Hl.
    rewrite list_lookup_total_alt. destruct (row !! m) as [l|] eqn:E; simpl; [by eapply Hl|lia]. }
  split; cbn [vd_counts vd_terminal vd_fallbacks].
  - rewrite !length_zip_with. lia.
  - eapply Forall_impl; [exact Hc|]. intros c H. simpl in H. lia.
  - apply Forall_zip_with. intros i c [bt ct] _ [Hbi Hci]%lookup_zip_Some. cbn [fst snd].
    rewrite Forall_lookup in Hb. rewrite Forall_lookup in Ht. destruct (_ =? _); [by eapply Hb|by eapply Ht].
  - apply Forall2_same_length_lookup. split; [rewrite !length_zip_with; lia|].
    intros i c f Hci Hfi Htrue. apply lookup_zip_with_Some in Hfi as (fb & rc & -> & Hfb & _).
    apply andb_true_iff in Htrue as [-> _]. rewrite Forall2_lookup in Hf. specialize (Hf i).
    rewrite Hci, Hfb in Hf. inversion Hf as [? ? H|]; subst. specialize (H eq_refl). lia.
Qed.

(** ** Verification *)

(** The documented shapes of the target's answers: a row of logits over the
    vocabulary per query token, per row of a decode step. *)
Record target_ok (env : target_env) (vocab : Z) : Prop := {
  to_draws : draws_ok env;
  to_all : ∀ c l, run_model_all_positions env c = Ok l → Forall (λ row, Z.of_nat (length row) = vocab) l;
  to_decode : ∀ c l, run_model_decode env c = Ok l →
    Forall (λ row, Z.of_nat (length row) = vocab) l ∧ length l = length (positions c);
}.

Section verify.
Context (env : target_env) (r : draft_runner) (vocab : Z) (Hto : target_ok env vocab).

Lemma prepare_probabilities_shape rows logits all_greedy :
  length logits = length rows → Forall (λ row : list logit, Z.of_nat (length row) = vocab) logits →
  let ps := _prepare_probabilities env logits (_prepare_draft_sample_metadata r rows) all_greedy in
  length ps = length rows ∧ Forall (λ o, Z.of_nat (length (default [] o)) <= vocab) ps.
Proof.
  intros Hl Hw. unfold _prepare_probabilities. destruct (metadata_shape r rows) as [H1 H2].
  set (w := length (default [] (head logits))).
  assert (Forall (λ row : list logit, length row ≤ w)%nat logits ∧ (logits ≠ [] → Z.of_nat w = vocab)) as [Hn Hv].
  { unfold w. destruct logits as [|l logits]; [done|]. simpl.
    pose proof Hw as [Hl0 _]%Forall_cons. split; [|done]. eapply Forall_impl; [exact Hw|]. intros row Hr.
    simpl in *. lia. }
  destruct (laws_narrow (exp_of env) (argsort_of env) w logits (_prepare_draft_sample_metadata r rows).1.1
    (_prepare_draft_sample_metadata r rows).1.2 (_prepare_draft_sample_metadata r rows).2 all_greedy)
    as [L F]; [congruence|done|by intros cs ->%H2|].
  split; [congruence|]. destruct logits as [|l logits]; [simpl in L; destruct (prepare_exact_probabilities_trusted _ _ _ _ _ _ _ _); [constructor|done]|].
  eapply Forall_impl; [exact F|]. intros o Ho. specialize (Hv ltac:(done)). simpl in *. lia.
Qed.

Lemma target_logits_shape rows proposals k t :
  0 <= k → target_logits env r rows proposals k = Ok t →
  matrix (length rows) (S (Z.to_nat k)) t ∧ Forall (Forall (λ row : list logit, Z.of_nat (length row) = vocab)) t.
Proof.
  intros Hk. unfold target_logits. intros (c & _ & (l & El & (Hl & [= <-])%obind_unit_ok)%obind_ok)%obind_ok.
  apply oraise_if_ok, negb_false_iff, Z.eqb_eq in Hl.
  replace (Z.to_nat (k + 1)) with (S (Z.to_nat k)) by lia. split; [apply chunks_matrix; nia|].
  pose proof (to_all _ _ Hto _ _ El) as Hw. rewrite Forall_forall in Hw.
  apply Forall_forall. intros row Hr. apply Forall_forall. intros x Hx. apply Hw. by eapply chunks_elem.
Qed.

Lemma matrix_concat {A} n k (l : list (list A)) : matrix n k l → length (concat l) = (n * k)%nat.
Proof. intros [<- H]. by apply length_concat_rows. Qed.

Lemma target_probabilities_shape rows proposals k p :
  0 <= k → target_probabilities env r rows proposals k = Ok p →
  matrix (length rows) (S (Z.to_nat k)) p ∧
  Forall (Forall (λ o : option (list Q), Z.of_nat (length (default [] o)) <= vocab)) p.
Proof.
  intros Hk. unfold target_probabilities. intros (t & Et & [= <-])%obind_ok.
  destruct (target_logits_shape _ _ _ _ Hk Et) as [Hm Hw].
  replace (Z.to_nat (k + 1)) with (S (Z.to_nat k)) by lia.
  set (repeated := concat (_ <$> rows)). assert (length repeated = length rows * S (Z.to_nat k))%nat as Lr.
  { unfold repeated. apply matrix_concat. split; [apply length_fmap|].
    apply Forall_fmap, Forall_true. intros v. apply length_replicate. }
  pose proof (matrix_concat _ _ _ Hm) as Lc.
  destruct (prepare_probabilities_shape repeated (concat t) (rows_all_greedy rows)) as [L F]; [congruence| |].
  { apply Forall_concat. done. }
  split; [apply chunks_matrix; congruence|].
  rewrite Forall_forall in F. apply Forall_forall. intros row Hr. apply Forall_forall. intros x Hx. apply F.
  by eapply chunks_elem.
Qed.

Lemma sequential_steps_shape rows proposals steps st :
  sequential_steps env r rows proposals (_prepare_draft_sample_metadata r rows) steps = Ok st →
  length st = length steps ∧ Forall (λ ps, length ps = length rows ∧
    Forall (λ o : option (list Q), Z.of_nat (length (default [] o)) <= vocab) ps) st.
Proof.
  revert st. induction steps as [|s steps IH]; intros st; simpl; [by intros [= <-]|].
  intros (ids & _ & (c & Ec & (l & El & (rest & Er & [= <-])%obind_ok)%obind_ok)%obind_ok)%obind_ok.
  destruct (IH _ Er) as [L F]. destruct (to_decode _ _ Hto _ _ El) as [Hw Hl].
  assert (length (positions c) = length rows) as Hp.
  { unfold _prepare_draft_decode in Ec. apply obind_ok in Ec as (? & _ & (? & _ & [= <-])%obind_ok).
    simpl. apply length_fmap. }
  split; [simpl; by rewrite L|]. constructor; [|done]. apply prepare_probabilities_shape; [congruence|done].
Qed.

Lemma sequential_shape rows proposals k p :
  0 <= k → sequential_target_probabilities env r rows proposals k = Ok p →
  matrix (length rows) (S (Z.to_nat k)) p ∧
  Forall (Forall (λ o : option (list Q), Z.of_nat (length (default [] o)) <= vocab)) p.
Proof.
  intros Hk. unfold sequential_target_probabilities. intros (st & Es & [= <-])%obind_ok.
  destruct (sequential_steps_shape _ _ _ _ Es) as [L F]. rewrite length_py_range in L.
  unfold transpose_rows. split.
  - split; [by rewrite length_fmap, length_seq|]. apply Forall_fmap, Forall_true. intros i. simpl.
    rewrite length_fmap. lia.
  - apply Forall_fmap, Forall_forall. intros i [_ Hi]%elem_of_seq. apply Forall_fmap.
    eapply Forall_impl; [exact F|]. intros ps [Hl Hw]. simpl.
    destruct (lookup_lt_is_Some_2 ps i) as [o Ho]; [lia|]. rewrite (list_lookup_total_correct _ _ _ Ho).
    rewrite Forall_lookup in Hw. by eapply Hw.
Qed.
End verify.

Lemma verify_ok env v vocab rows k draft vd :
  target_ok env vocab → rows ≠ [] → 1 <= k → 0 < vocab →
  matrix (length rows) (Z.to_nat k) (ex_proposal_token_ids draft) →
  length (ex_q_probabilities draft) = length rows →
  verify env v rows k draft = Ok vd → verdicts_ok (length rows) k vocab vd.
Proof.
  intros Hto Hne Hk Hv Hp Hq. unfold verify. destruct (rows_all_greedy rows && invariant_mode v).
  - intros (t & Et & [= <-])%obind_ok.
    destruct (target_logits_shape env (vr_runner v) vocab Hto rows _ k t ltac:(lia) Et) as [Hm Hw].
    apply greedy_verdicts_ok; [lia|done..|]. eapply Forall_impl; [exact Hw|]. intros row Hr.
    eapply Forall_impl; [exact Hr|]. simpl. lia.
  - intros (p & Ep & [= <-])%obind_ok.
    assert (matrix (length rows) (S (Z.to_nat k)) p ∧
      Forall (Forall (λ o : option (list Q), Z.of_nat (length (default [] o)) <= vocab)) p) as [Hm Hw].
    { destruct (_ && _); [eapply sequential_shape in Ep|eapply target_probabilities_shape in Ep]; eauto; lia. }
    apply sampled_verdicts_ok; try done; [destruct rows; simpl; [done|lia]|apply Hto|apply Hp].
Qed.

(** ** The host result *)

(** The result of a row by its verdict. *)
Definition verdict_result (k : Z) (v : DraftCycleRow) (p : list Z) (ctf : nat * (Z * bool)) : SpecRowResult :=
  mk_row_result (cr_seq_id v) p (take ctf.1 p ++ [ctf.2.1]) (Z.of_nat ctf.1) (Z.of_nat ctf.1 =? k)
    (Z.b2z ctf.2.2).

(** Packing the fields into one row and reading them back loses nothing. *)
Lemma host_row_packed k v p ctf :
  length p = Z.to_nat k →
  host_row k v (take (Z.to_nat k) p ++ [Z.of_nat ctf.1; ctf.2.1; Z.b2z ctf.2.2]) = verdict_result k v p ctf.
Proof.
  intros Hl. destruct ctf as [c [t f]]. unfold host_row, verdict_result. cbn [fst snd].
  rewrite (take_ge p) by lia. set (l := [_; _; _]).
  assert (∀ i, (p ++ l) !!! (Z.to_nat k + i)%nat = l !!! i) as Hi.
  { intros i. rewrite !list_lookup_total_alt, lookup_app_r by lia. do 2 f_equal. lia. }
  pose proof (Hi 0%nat) as H0. pose proof (Hi 1%nat) as H1. pose proof (Hi 2%nat) as H2.
  rewrite Nat.add_0_r in H0. replace (Z.to_nat k + 1)%nat with (S (Z.to_nat k)) in H1 by lia.
  replace (Z.to_nat k + 2)%nat with (S (S (Z.to_nat k))) in H2 by lia.
  rewrite H0, H1, H2. unfold l. simpl. rewrite take_app_length' by done. by rewrite Nat2Z.id.
Qed.

Lemma host_results_run storage device rows proposals vd k res :
  matrix (length rows) (Z.to_nat k) proposals →
  _host_results storage device rows proposals vd k = Ok res →
  res = zip_with (λ v pc, verdict_result k v pc.1 pc.2) rows
          (zip proposals (zip (vd_counts vd) (zip (vd_terminal vd) (vd_fallbacks vd)))).
Proof.
  intros [Lp Hp]. unfold _host_results. intros (_ & (_ & [= <-])%obind_unit_ok)%obind_unit_ok.
  generalize (zip (vd_counts vd) (zip (vd_terminal vd) (vd_fallbacks vd))) as ctfs. clear vd.
  revert rows Lp. induction Hp as [|p proposals Hl _ IH]; intros [|v rows] Lp ctfs; try done.
  destruct ctfs as [|ctf ctfs]; [done|]. cbn [zip zip_with fst snd]. f_equal; [by apply host_row_packed|].
  apply IH. by injection Lp.
Qed.

(** A verdict is a valid result of its row. *)
Lemma verdict_result_ok k vocab sn q v p c t f :
  snapshot_of sn q → row_seq_id sn = seq_id q → cr_seq_id v = seq_id q →
  Z.of_nat (length p) = k → Forall (λ t, 0 <= t < vocab) p → Z.of_nat c <= k → 0 <= t < vocab →
  (f = true → Z.of_nat c < k) → row_result_ok k (Some vocab) sn (verdict_result k v p (c, (t, f))) q.
Proof.
  intros Hs E1 E2 Hl Hp Hc Ht Hf. unfold verdict_result. cbn [fst snd]. split; simpl; try done.
  - split; congruence.
  - lia.
  - by rewrite Z.eqb_eq.
  - destruct f; simpl; [right; split; [done|by apply Hf]|by left].
  - exists t. by rewrite Nat2Z.id.
  - intros x Hx. assert (0 <= x < vocab) as [? ?]; [|split; [done|by intros ? [= <-]]].
    rewrite Forall_forall in Hp. apply elem_of_app in Hx as [?|[Hx| ->%list_elem_of_singleton]%elem_of_app]; [by apply Hp| |done].
    apply Hp. eapply list_elem_of_lookup in Hx as [i [Hi _]%lookup_take_Some]. by eapply list_elem_of_lookup_2.
Qed.

Lemma verdict_rows_ok k vocab sns drs qs vs ps cs ts fs :
  Forall3 view_of drs qs vs → Forall2 snapshot_of sns qs → (row_seq_id <$> sns) = (dr_seq_id <$> drs) →
  length ps = length vs → Forall (λ row, Z.of_nat (length row) = k ∧ Forall (λ t, 0 <= t < vocab) row) ps →
  length cs = length vs → Forall (λ c, Z.of_nat c <= k) cs →
  length ts = length vs → Forall (λ t, 0 <= t < vocab) ts →
  Forall2 (λ (c : nat) (f : bool), f = true → Z.of_nat c < k) cs fs →
  Forall3 (row_result_ok k (Some vocab)) sns
    (zip_with (λ v pc, verdict_result k v pc.1 pc.2) vs (zip ps (zip cs (zip ts fs)))) qs.
Proof.
  intros Hm. revert sns ps cs ts fs.
  induction Hm as [|dr q v drs qs vs Hrow Hm IH]; intros sns ps cs ts fs Hs Hid Lp Hp Lc Hc Lt Ht Hf.
  { inversion Hs. constructor. }
  destruct sns as [|sn sns], ps as [|p ps], cs as [|c cs], ts as [|t ts]; try done; try (by inversion Hs).
  inversion Hf as [|? f ? fs' Hf1 Hf2]; subst. apply Forall2_cons in Hs as [Hs1 Hs2].
  apply Forall_cons in Hp as [[Hp1 Hp2] Hp3]. apply Forall_cons in Hc as [Hc1 Hc2]. apply Forall_cons in Ht as [Ht1 Ht2].
  injection Hid as Hid1 Hid2. destruct Hrow as (E1 & E2 & _). cbn [zip zip_with fst snd]. constructor.
  - apply verdict_result_ok; try done. congruence.
  - apply IH; try done; simpl in *; lia.
Qed.

(** ** The cycle *)

Section cycle.
Context {logits : Type} (denv : draft_env logits) (env : target_env) (v : verifier).
Context (torch : torch_dtypes) (sha256_hexdigest : payload → string).
#[local] Abbreviation r := (vr_runner v).
#[local] Abbreviation validated plan qs vs k key :=
  (_validate_draft_discard_plan torch sha256_hexdigest r (StepPlan plan) qs = Ok (vs, k, key)).
#[local] Abbreviation execute := (execute denv env v torch sha256_hexdigest).

(** The stages of a cycle that returned. *)
Lemma execute_stages plan qs res log :
  0 < dn_block_size r → execute plan qs [] = (Ok res, log) →
  ∃ vs k key nb draft vd, validated plan qs vs k key ∧
    plan_valid r (as_draft_discard_plan plan) qs vs k key nb ∧
    verifier_route_ready sha256_hexdigest v (Z.of_nat (length vs)) k = true ∧
    execution_ok r k vs draft ∧ verify env v vs k draft = Ok vd ∧
    (res_cycle_id res = cycle_id plan ∧ res_workspace_fingerprint res = workspace_fingerprint plan ∧
     target_verification_positions res = target_query_tokens plan ∧
     draft_positions res = plan_draft_catchup_tokens plan + draft_query_tokens plan) ∧
    _host_results (vr_tensor v "_spec_result_rows") (draft_device v) vs (ex_proposal_token_ids draft) vd k =
      Ok (res_rows res).
Proof.
  intros Hbs. unfold Verifier.execute, execute_validated, bind, lift, ret, raise_if.
  destruct (_validate_draft_discard_plan _ _ _ _ _) as [[[vs k] key]|e] eqn:Ev; [|done].
  pose proof (validate_plan_inv _ _ _ _ _ _ _ _ Ev) as [nb Hv]. simpl in Hv.
  destruct (verifier_route_ready _ _ _ _) eqn:Er; [|done]. cbn [negb ret].
  pose proof (views_nonempty _ _ _ _ _ _ _ Hv) as Hne.
  pose proof (execute_sound r k nb vs Hbs (proj1 (pv_k _ _ _ _ _ _ _ Hv)) (pv_views _ _ _ _ _ _ _ Hv)
    denv key Hne [] (Forall_nil_2 _)) as Hs. unfold wp in Hs.
  destruct (_execute_draft_proposals_validated _ _ _ _ _ _) as [[draft|e] log']; [|done].
  destruct Hs as [_ Hd].
  destruct (verify env v vs k draft) as [vd|e] eqn:Evd; [|done].
  destruct (_host_results _ _ _ _ _ _) as [results|e] eqn:Eh; [|done]. intros [= <- <-].
  exists vs, k, key, nb, draft, vd. by split_and!.
Qed.

Lemma vocabulary_positive plan qs vs k key nb :
  plan_valid r plan qs vs k key nb → 0 < dn_draft_vocab r.
Proof.
  intros Hv. pose proof (views_nonempty _ _ _ _ _ _ _ Hv) as Hne. pose proof (pv_views _ _ _ _ _ _ _ Hv) as Hvs.
  destruct vs as [|w vs]; [done|]. apply Forall_cons in Hvs as [Hw _]. destruct Hw as [Hl Hc _ _ _ _ Ht].
  destruct (cr_token_ids w) as [|t l]; [simpl in Hl; lia|]. apply Forall_cons in Ht as [? _]. lia.
Qed.

Lemma proposals_matrix k vs draft :
  execution_ok r k vs draft → matrix (length vs) (Z.to_nat k) (ex_proposal_token_ids draft).
Proof.
  intros He. destruct (eo_matrix _ _ _ _ He) as [Hl Hf]. split; [done|].
  eapply Forall_impl; [exact Hf|]. intros row [Hr _]. simpl. lia.
Qed.

Lemma execute_accepted plan qs res log :
  0 < dn_block_size r → target_ok env (dn_draft_vocab r) → Forall (λ q, status q = RUNNING) qs →
  execute plan qs [] = (Ok res, log) →
  validate_result plan res qs (Some (dn_draft_vocab r)) = Ok tt.
Proof.
  intros Hbs Hto Hrun (vs & k & key & nb & draft & vd & Ev & Hv & _ & He & Evd & Eres & Eh)%execute_stages; [|done].
  apply validate_result_ok_iff. destruct Eres as (E1 & E2 & E3 & E4). split_and!; try done.
  destruct (pv_k _ _ _ _ _ _ _ Hv) as [Hk Ek]. simpl in Ek. rewrite Ek.
  pose proof (proposals_matrix _ _ _ He) as Hm.
  pose proof (views_nonempty _ _ _ _ _ _ _ Hv) as Hne. pose proof (vocabulary_positive _ _ _ _ _ _ Hv) as Hvp.
  pose proof (verify_ok env v _ vs k draft vd Hto Hne Hk Hvp Hm (proj1 (eo_laws _ _ _ _ He)) Evd) as Hvd.
  rewrite (host_results_run _ _ _ _ _ _ _ Hm Eh). destruct Hvd as [(L1 & L2 & L3) Hc Ht Hf].
  apply (verdict_rows_ok k _ _ (dp_rows (as_draft_discard_plan plan))); try done.
  - apply Hv.
  - by eapply validated_snapshots.
  - simpl. by rewrite <-list_fmap_compose.
  - apply He.
  - apply He.
Qed.

(** ** Greedy cycles *)

(** The target's greedy continuation of a prefix. *)
Fixpoint greedy_tokens (next : list Z → list logit) (n : nat) (prefix : list Z) : list Z :=
  match n with
  | O => []
  | S n' => let t := Z.of_nat (argmax_by logit_ltb (next prefix)) in t :: greedy_tokens next n' (prefix ++ [t])
  end.

(** What a causal target answers for one row: the logits after its tokens and
    each prefix of its proposals. *)
Definition causal_row (next : list Z → list logit) (prefix p : list Z) : list (list logit) :=
  (λ j, next (prefix ++ take j p)) <$> seq 0 (S (length p)).

Lemma causal_row_cons next prefix x p :
  causal_row next prefix (x :: p) = next prefix :: causal_row next (prefix ++ [x]) p.
Proof.
  unfold causal_row. change (seq 0 (S (length (x :: p)))) with (0%nat :: seq 1 (S (length p))).
  rewrite fmap_cons, take_0, app_nil_r. f_equal. rewrite <-fmap_S_seq, <-list_fmap_compose.
  apply list_fmap_ext. intros i j _. simpl. by rewrite <-(assoc_L (++)).
Qed.

(** The accepted prefix of the proposals and the next argmax are the greedy
    continuation. *)
Lemma greedy_row next prefix p :
  let T := (λ l, Z.of_nat (argmax_by logit_ltb l)) <$> causal_row next prefix p in
  let c := accepted_count (zip_with Z.eqb (take (length p) T) p) in
  take c p ++ [T !!! c] = greedy_tokens next (S c) prefix.
Proof.
  revert prefix. induction p as [|x p IH]; intros prefix.
  { cbv zeta. unfold causal_row. cbn [length seq]. csimpl. rewrite app_nil_r. done. }
  specialize (IH (prefix ++ [x])). cbv zeta in IH |- *. rewrite causal_row_cons. rewrite fmap_cons.
  cbn [length take zip_with]. rewrite accepted_count_cons.
  destruct (Z.eqb_spec (Z.of_nat (argmax_by logit_ltb (next prefix))) x) as [E|E]; [|done].
  set (c := accepted_count _) in *. cbn [take app greedy_tokens]. rewrite E. f_equal. exact IH.
Qed.

(** The target pass answers as a causal model over the rows of the cycle. *)
Definition causal_target (next : list Z → list logit) (vs : list DraftCycleRow) (k : Z) : Prop :=
  ∀ proposals c, matrix (length vs) (Z.to_nat k) proposals → target_call r vs proposals k = Ok c →
    run_model_all_positions env c =
      Ok (concat (zip_with (λ w p, causal_row next (cr_token_ids w) p) vs proposals)).

Lemma causal_logits next vs k proposals t :
  0 <= k → matrix (length vs) (Z.to_nat k) proposals → causal_target next vs k →
  target_logits env r vs proposals k = Ok t →
  t = zip_with (λ w p, causal_row next (cr_token_ids w) p) vs proposals.
Proof.
  intros Hk Hm Hc. unfold target_logits. intros (c & Ec & (l & El & (_ & [= <-])%obind_unit_ok)%obind_ok)%obind_ok.
  rewrite (Hc _ _ Hm Ec) in El. injection El as <-. destruct Hm as [Lp Hp].
  set (rows := zip_with _ vs proposals).
  assert (length rows = length vs) as <- by (unfold rows; rewrite length_zip_with; lia).
  apply chunks_concat. apply Forall_zip_with. intros i w p _ Hi. rewrite Forall_lookup in Hp.
  specialize (Hp _ _ Hi). simpl in Hp. unfold causal_row. rewrite length_fmap, length_seq. lia.
Qed.

Lemma greedy_cycle next plan qs vs k key res log :
  0 < dn_block_size r → vr_numerical_mode v = "invariant" → validated plan qs vs k key →
  rows_all_greedy vs = true → causal_target next vs k → execute plan qs [] = (Ok res, log) →
  length (res_rows res) = length qs ∧
  ∀ i q rr, qs !! i = Some q → res_rows res !! i = Some rr → ∃ n, (1 <= n)%nat ∧ Z.of_nat n <= k + 1 ∧
    accepted_draft_tokens rr = Z.of_nat n - 1 ∧ committed_token_ids rr = greedy_tokens next n (token_ids q).
Proof.
  intros Hbs Hmode Ev Hg Hc (vs' & k' & key' & nb & draft & vd & Ev' & Hv & _ & He & Evd & _ & Eh)%execute_stages; [|done].
  rewrite Ev in Ev'. injection Ev' as <- <- <-. destruct (pv_k _ _ _ _ _ _ _ Hv) as [Hk _].
  pose proof (proposals_matrix _ _ _ He) as Hm. unfold verify, invariant_mode in Evd.
  rewrite Hg, Hmode, bool_decide_eq_true_2 in Evd by done. cbn [andb] in Evd.
  apply obind_ok in Evd as (t & Et & [= <-]). apply (causal_logits next) in Et; [|lia|done|done].
  rewrite (host_results_run _ _ _ _ _ _ _ Hm Eh). subst t. destruct Hm as [Lp Hp].
  pose proof (pv_match _ _ _ _ _ _ _ Hv) as Hmatch. pose proof (Forall3_length_lm _ _ _ _ Hmatch) as L1.
  pose proof (Forall3_length_lr _ _ _ _ Hmatch) as L2. cbn [vd_counts vd_terminal vd_fallbacks greedy_verdicts].
  split; [repeat first [rewrite length_zip_with|rewrite length_map|rewrite length_replicate]; lia|].
  intros i q rr Hq Hrr. apply lookup_zip_with_Some in Hrr as (w & [p [c [x f]]] & -> & Hw & Hz).
  apply lookup_zip_Some in Hz as [Hpi (Hci & [Hxi _]%lookup_zip_Some)%lookup_zip_Some]. cbn [fst snd].
  apply lookup_zip_with_Some in Hci as (T & p' & -> & HT & Hp'). rewrite Hpi in Hp'. injection Hp' as <-.
  apply lookup_zip_with_Some in Hxi as (T' & c' & -> & HT' & Hc'). rewrite HT in HT'. injection HT' as <-.
  apply lookup_zip_with_Some in Hc' as (T2 & p2 & -> & HT2 & Hp2). rewrite HT in HT2. injection HT2 as <-.
  rewrite Hpi in Hp2. injection Hp2 as <-. rewrite list_lookup_fmap in HT.
  destruct (zip_with _ vs _ !! i) as [row|] eqn:Er; [|done]. injection HT as <-.
  apply lookup_zip_with_Some in Er as (w' & p3 & -> & Hw' & Hp3). rewrite Hw in Hw'. injection Hw' as <-.
  rewrite Hpi in Hp3. injection Hp3 as <-.
  rewrite Forall_lookup in Hp. specialize (Hp _ _ Hpi). simpl in Hp.
  destruct (Forall3_lookup_m _ _ _ _ _ _ Hmatch Hq) as (dr & w' & _ & Hw' & (_ & _ & _ & _ & Htok & _)).
  rewrite Hw in Hw'. injection Hw' as <-.
  pose proof (greedy_row next (cr_token_ids w) p) as Hrow. cbv zeta in Hrow. rewrite Hp in Hrow.
  change (map ?f ?l) with (f <$> l). set (c := accepted_count _) in *.
  exists (S c). rewrite <-Htok, <-Hrow. cbn [accepted_draft_tokens committed_token_ids verdict_result fst snd].
  assert (c ≤ length p)%nat; [|split_and!; try done; lia].
  unfold c. etrans; [apply accepted_count_spec|]. rewrite length_zip_with. lia.
Qed.
End cycle.

(** ** The single pass and the decode steps *)

Lemma concat_lookup_rows {A} n (ll : list (list A)) i j l :
  Forall (λ l, length l = n) ll → ll !! i = Some l → (j < n)%nat → concat ll !! (i * n + j)%nat = l !! j.
Proof.
  intros H. revert i. induction H as [|l' ll Hl _ IH]; intros i Hi Hj; [done|].
  destruct i as [|i]; simpl in *.
  - injection Hi as ->. by rewrite lookup_app_l by lia.
  - rewrite lookup_app_r by lia. rewrite Hl. replace (n + i * n + j - n)%nat with (i * n + j)%nat by lia.
    by apply IH.
Qed.

Section pass.
Context (r : draft_runner) (k : Z) (vs : list DraftCycleRow) (proposals : list (list Z)).
#[local] Abbreviation bs := (dn_block_size r).

(** A row whose blocks hold every position the cycle writes. *)
Definition target_row_ok (w : DraftCycleRow) : Prop :=
  1 <= cr_committed_len w ∧ cr_token_ids w ≠ [] ∧
  (cr_committed_len w + k - 1) `div` bs + 1 <= Z.of_nat (length (cr_block_table w)).

Context (Hbs : 0 < bs) (Hk : 0 <= k) (Hne : vs ≠ []) (Hvs : Forall target_row_ok vs)
        (Hp : matrix (length vs) (Z.to_nat k) proposals).

Definition tail_token (w : DraftCycleRow) : Z := default 0 (last (cr_token_ids w)).
Definition query_positions (w : DraftCycleRow) : list Z :=
  py_range (cr_committed_len w - 1) (cr_committed_len w + k).

Lemma row_slot w p :
  w ∈ vs → 0 <= p <= cr_committed_len w + k - 1 →
  draft_slot bs (cr_block_table w) p = Ok (slot_of bs (cr_block_table w) p).
Proof.
  intros Hw Hpos. rewrite Forall_forall in Hvs. destruct (Hvs w Hw) as (H1 & _ & Ht).
  pose proof (Z.div_pos p bs ltac:(lia) Hbs).
  pose proof (Z.div_le_mono p (cr_committed_len w + k - 1) bs Hbs ltac:(lia)).
  unfold draft_slot. by rewrite table_at_nth by lia.
Qed.

Lemma tails_run : omap_all last_token vs = Ok (tail_token <$> vs).
Proof.
  apply omap_all_eq. intros w Hw. rewrite Forall_forall in Hvs. destruct (Hvs w Hw) as (_ & Ht & _).
  unfold last_token, tail_token. destruct (last (cr_token_ids w)) eqn:E; [done|]. by apply last_None in E.
Qed.

Lemma tables_run : ∃ t, cycle_tables vs = Ok t.
Proof.
  unfold cycle_tables. destruct (block_tables_run ((λ v, mk_catchup_view [] false 0 0 0 0 (cr_block_table v)) <$> vs))
    as (w & t & -> & _); [by destruct vs|]. by exists t.
Qed.

Lemma target_call_run :
  ∃ t c, cycle_tables vs = Ok t ∧ target_call r vs proposals k = Ok c ∧
    input_ids c = concat (zip_with cons (tail_token <$> vs) proposals) ∧
    positions c = concat (query_positions <$> vs) ∧
    slot_mapping (call_context c) =
      Some (concat ((λ w, slot_of bs (cr_block_table w) <$> query_positions w) <$> vs)) ∧
    block_tables (call_context c) = Some t ∧
    query_context_lengths (call_context c) =
      Some (concat ((λ w, (λ p, p + 1) <$> query_positions w) <$> vs)).
Proof.
  destruct tables_run as [t Et]. exists t. unfold target_call.
  rewrite (omap_all_eq _ (λ w, slot_of bs (cr_block_table w) <$> query_positions w)); last first.
  { intros w Hw. apply omap_all_eq. intros p Hpos%elem_of_py_range. apply row_slot; [done|].
    rewrite Forall_forall in Hvs. destruct (Hvs w Hw). lia. }
  cbn [obind]. rewrite tails_run. cbn [obind]. rewrite Et. cbn [obind].
  eexists. split; [done|]. split; [done|]. cbn [input_ids positions call_context slot_mapping block_tables query_context_lengths].
  split_and!; try done. do 2 f_equal. apply list_fmap_ext. intros _ w _. unfold query_positions, py_range.
  rewrite <-!list_fmap_compose. replace (Z.to_nat (cr_committed_len w + k - (cr_committed_len w - 1)))
    with (Z.to_nat (k + 1 - 0)) by lia.
  apply list_fmap_ext. intros _ i _. simpl. lia.
Qed.

Lemma decode_run step ids :
  0 <= step <= k →
  ∃ t d, cycle_tables vs = Ok t ∧ _prepare_draft_decode bs vs ids step = Ok d ∧ input_ids d = ids ∧
    positions d = (λ w, cr_committed_len w - 1 + step) <$> vs ∧
    slot_mapping (call_context d) =
      Some ((λ w, slot_of bs (cr_block_table w) (cr_committed_len w - 1 + step)) <$> vs) ∧
    block_tables (call_context d) = Some t ∧
    query_context_lengths (call_context d) = Some ((λ w, cr_committed_len w + step) <$> vs).
Proof.
  intros Hst. destruct tables_run as [t Et]. exists t. unfold _prepare_draft_decode.
  set (pos := λ w, cr_committed_len w - 1 + step).
  assert (zip vs (pos <$> vs) = (λ w, (w, pos w)) <$> vs) as ->.
  { clear. induction vs as [|w l IH]; [done|]. rewrite !fmap_cons. simpl. by rewrite IH. }
  rewrite (omap_all_eq _ (λ vp, slot_of bs (cr_block_table vp.1) vp.2)); last first.
  { intros vp (w & -> & Hw)%list_elem_of_fmap. simpl. apply row_slot; [done|]. unfold pos.
    rewrite Forall_forall in Hvs. destruct (Hvs w Hw). lia. }
  cbn [obind]. rewrite Et. cbn [obind]. eexists. split; [done|]. split; [done|].
  cbn [input_ids positions call_context slot_mapping block_tables query_context_lengths].
  rewrite <-!list_fmap_compose. split_and!; try done. f_equal. apply list_fmap_ext. intros _ w _. unfold pos. simpl. lia.
Qed.

(** The inputs of step [step] of the sequential lane. *)
Definition step_inputs (step : Z) : list Z :=
  if step =? 0 then tail_token <$> vs else (λ p : list Z, p !!! Z.to_nat (step - 1)) <$> proposals.

Lemma query_row w step :
  0 <= step <= k → query_positions w !! Z.to_nat step = Some (cr_committed_len w - 1 + step).
Proof.
  intros Hst. unfold query_positions, py_range. rewrite list_lookup_fmap, lookup_seq_lt by lia. simpl. f_equal. lia.
Qed.

Lemma pass_row {A} (f : DraftCycleRow → list A) i w step x :
  (∀ w, length (f w) = S (Z.to_nat k)) → vs !! i = Some w → 0 <= step <= k → f w !! Z.to_nat step = Some x →
  concat (f <$> vs) !! (i * S (Z.to_nat k) + Z.to_nat step)%nat = Some x.
Proof.
  intros Hf Hw Hst Hx. rewrite <-Hx. apply concat_lookup_rows; [by apply Forall_fmap, Forall_true| |lia].
  by rewrite list_lookup_fmap, Hw.
Qed.

Lemma length_query w : length (query_positions w) = S (Z.to_nat k).
Proof. unfold query_positions. rewrite length_py_range. lia. Qed.

Lemma input_row i w step :
  vs !! i = Some w → 0 <= step <= k →
  concat (zip_with cons (tail_token <$> vs) proposals) !! (i * S (Z.to_nat k) + Z.to_nat step)%nat =
    step_inputs step !! i.
Proof.
  intros Hw Hst. destruct Hp as [Lp Hf].
  destruct (lookup_lt_is_Some_2 proposals i) as [p Hpi]; [rewrite Lp; by eapply lookup_lt_Some|].
  rewrite (concat_lookup_rows _ _ _ _ (tail_token w :: p)); [| |by rewrite lookup_zip_with, list_lookup_fmap, Hw, Hpi|lia].
  2:{ apply Forall_zip_with. intros j x q _ Hq. rewrite Forall_lookup in Hf. specialize (Hf _ _ Hq). simpl in *. lia. }
  rewrite Forall_lookup in Hf. specialize (Hf _ _ Hpi). simpl in Hf. unfold step_inputs.
  destruct (Z.eqb_spec step 0) as [->|Hs]; [by rewrite list_lookup_fmap, Hw|].
  rewrite list_lookup_fmap, Hpi. replace (Z.to_nat step) with (S (Z.to_nat (step - 1))) by lia. simpl.
  destruct (lookup_lt_is_Some_2 p (Z.to_nat (step - 1))) as [x Hx]; [lia|].
  by rewrite (list_lookup_total_correct _ _ _ Hx), Hx.
Qed.
End pass.

(** C10: the single verification pass asks what decoding would ask.  For rows whose
    blocks hold the cycle's writes, the pass over tail and proposals is built, and
    its query [step] of row [i] has the token, the position, the KV slot, the
    context length and the block table of row [i] in decode step [step] of the
    sequential lane. *)
Theorem single_pass_is_decoding r k vs proposals :
  0 < dn_block_size r → 0 <= k → vs ≠ [] → Forall (target_row_ok r k) vs →
  matrix (length vs) (Z.to_nat k) proposals →
  ∃ c, target_call r vs proposals k = Ok c ∧ ∀ step, 0 <= step <= k →
    ∃ d, _prepare_draft_decode (dn_block_size r) vs (step_inputs vs proposals step) step = Ok d ∧
      block_tables (call_context c) = block_tables (call_context d) ∧
      ∀ i w, vs !! i = Some w → let m := (i * S (Z.to_nat k) + Z.to_nat step)%nat in
        input_ids c !! m = input_ids d !! i ∧ positions c !! m = positions d !! i ∧
        default [] (slot_mapping (call_context c)) !! m = default [] (slot_mapping (call_context d)) !! i ∧
        default [] (query_context_lengths (call_context c)) !! m =
          default [] (query_context_lengths (call_context d)) !! i.
Proof.
  intros Hbs Hk Hne Hvs Hp.
  destruct (target_call_run r k vs proposals Hbs Hk Hne Hvs Hp) as (t & c & Et & Ec & C1 & C2 & C3 & C4 & C5).
  exists c. split; [done|]. intros step Hst.
  destruct (decode_run r k vs proposals Hbs Hne Hvs Hp step (step_inputs vs proposals step) Hst)
    as (t' & d & Et' & Ed & D1 & D2 & D3 & D4 & D5).
  rewrite Et in Et'. injection Et' as <-. exists d. split; [done|]. split; [congruence|]. intros i w Hw m.
  rewrite C1, C2, C3, C5, D1, D2, D3, D5. cbn [default from_option]. unfold id. rewrite !list_lookup_fmap, Hw.
  split; [by eapply input_row|].
  assert (query_positions k w !! Z.to_nat step = Some (cr_committed_len w - 1 + step)) as Hq by (eapply query_row; eassumption).
  split; [|split]; 
    (eapply pass_row; [intros; rewrite ?length_fmap; eapply length_query; eassumption|eassumption|eassumption|]).
  - done.
  - by rewrite list_lookup_fmap, Hq.
  - rewrite list_lookup_fmap, Hq. simpl. f_equal. lia.
Qed.

(** C9: a verified cycle returns what the engine commits.  Over a target and draws
    of the documented shapes and for running sequences, whichever branch the batch
    takes and whatever the draft proposed, a result that [execute] returns passes
    [validate_result]: it names the plan's cycle, workspace and work, and every row
    is an accepted prefix of its K proposals and one more token of the vocabulary,
    with a fallback only after a rejection. *)
Theorem verified_result_accepted {logits} (denv : draft_env logits) env v torch sha256_hexdigest plan qs res log :
  0 < dn_block_size (vr_runner v) → target_ok env (dn_draft_vocab (vr_runner v)) →
  Forall (λ q, status q = RUNNING) qs →
  execute denv env v torch sha256_hexdigest plan qs [] = (Ok res, log) →
  validate_result plan res qs (Some (dn_draft_vocab (vr_runner v))) = Ok tt.
Proof. apply execute_accepted. Qed.

(** C8: a greedy cycle is greedy decoding.  In invariant mode, for a greedy batch
    and a causal target, a cycle that returns emits for every sequence between one
    and K + 1 tokens, and these are exactly the target's own greedy continuation of
    the sequence, whatever the draft proposed. *)
Theorem verified_cycle_greedy {logits} (denv : draft_env logits) env v torch sha256_hexdigest
    next plan qs vs k key res log :
  0 < dn_block_size (vr_runner v) → vr_numerical_mode v = "invariant" →
  _validate_draft_discard_plan torch sha256_hexdigest (vr_runner v) (StepPlan plan) qs = Ok (vs, k, key) →
  rows_all_greedy vs = true → causal_target env v next vs k →
  execute denv env v torch sha256_hexdigest plan qs [] = (Ok res, log) →
  length (res_rows res) = length qs ∧
  ∀ i q rr, qs !! i = Some q → res_rows res !! i = Some rr → ∃ n, (1 <= n)%nat ∧ Z.of_nat n <= k + 1 ∧
    accepted_draft_tokens rr = Z.of_nat n - 1 ∧ committed_token_ids rr = greedy_tokens next n (token_ids q).
Proof. apply greedy_cycle. Qed.
