(* ===== verification/Policy.v ===== *)
(** * Policy: the performance gate of adaptive speculation

    Models src/nanovllm/engine/speculative_policy.py: calibration cells and their
    checks, the choice of K for a batch, the running estimate of the accepted
    prefix and the decision counters.  Floats are the rationals they denote, and
    their arithmetic is exact. *)
From Stdlib Require Import QArith.
From stdpp Require Import pretty.
From S2P Require Import Prelude SamplingParams Sequence SpecRoutes SpecResult.
#[local] Open Scope Z_scope.

Definition MIN_PREDICTED_SPEEDUP : Q := 11 # 10.

(** ** Calibration cells *)

(** The arguments of a cell. *)
Record cell_args := mk_cell_args {
  ca_batch_size : pyval;
  ca_sampling_family : pyval;
  ca_context_bucket : pyval;
  ca_catchup_bucket : pyval;
  ca_k : pyval;
  ca_ordinary_ms_per_token : pyval;
  ca_cycle_ms : pyval;
  ca_expected_committed_tokens : pyval;
}.

Record CalibrationCell := mk_cell {
  cell_batch_size : Z;
  sampling_family : string;
  context_bucket : Z;
  catchup_bucket : Z;
  cell_k : Z;
  ordinary_ms_per_token : Q;
  cycle_ms : Q;
  expected_committed_tokens : Q;
}.

Definition non_negative_integer (name : string) (v : pyval) : outcome Z :=
  oraise_if (negb (type_is_int v) || (int_value v <? 0))
    (ValueError (name +:+ " must be a non-negative integer")) ;?
  Ok (int_value v).

Definition positive_number (name : string) (v : pyval) : outcome Q :=
  oraise_if (is_bool v || negb (is_int_or_float v)) (TypeError (name +:+ " must be a number")) ;?
  match finite_value v with
  | Some q =>
      oraise_if (Qle_bool q 0) (ValueError (name +:+ " must be finite and positive")) ;? Ok q
  | None => Raise (ValueError (name +:+ " must be finite and positive"))
  end.

(** The constructor with its [__post_init__]. *)
Definition CalibrationCell_init (a : cell_args) : outcome CalibrationCell :=
  let? batch_size := non_negative_integer "batch_size" (ca_batch_size a) in
  let? context := non_negative_integer "context_bucket" (ca_context_bucket a) in
  let? catchup := non_negative_integer "catchup_bucket" (ca_catchup_bucket a) in
  let? k := non_negative_integer "k" (ca_k a) in
  oraise_if ((batch_size <? 1) || (context <? 1) || (k <? 1))
    (ValueError "batch_size, context_bucket, and k must be positive") ;?
  match ca_sampling_family a with
  | VStr family =>
      oraise_if (bool_decide (family = ""%string)) (ValueError "sampling_family must be a non-empty string") ;?
      let? ordinary := positive_number "ordinary_ms_per_token" (ca_ordinary_ms_per_token a) in
      let? cycle := positive_number "cycle_ms" (ca_cycle_ms a) in
      let? expected := positive_number "expected_committed_tokens" (ca_expected_committed_tokens a) in
      oraise_if (Qlt_bool (inject_Z (k + 1)) expected)
        (ValueError "expected committed tokens cannot exceed K+1") ;?
      Ok (mk_cell batch_size family context catchup k ordinary cycle expected)
  | _ => Raise (ValueError "sampling_family must be a non-empty string")
  end.

Abbreviation calibration_key := (Z * string * Z * Z * Z)%type.
Definition cell_key (c : CalibrationCell) : calibration_key :=
  (cell_batch_size c, sampling_family c, context_bucket c, catchup_bucket c, cell_k c).

(** ** The policy *)

Record AdaptiveDecision := mk_decision {
  selected_k : option Z;
  reason : string;
  predicted_speedup : option Q;
  decision_key : option calibration_key;
}.

Record AdaptiveSpeculativePolicy := mk_policy {
  _cells : gmap calibration_key CalibrationCell;
  _accepted_prefix_ema : gmap calibration_key Q;
  _decision_counts : gmap string Z;
  _last_decision : option AdaptiveDecision;
}.

Definition Policy_init : AdaptiveSpeculativePolicy := mk_policy ∅ ∅ ∅ None.

Abbreviation MP := (M AdaptiveSpeculativePolicy).

(** [(n).bit_length()] of a non-negative number. *)
Definition bit_length (n : Z) : Z := if n =? 0 then 0 else Z.log2 n + 1.

Definition _power_of_two_bucket (value : Z) : Z :=
  if value <=? 0 then 0 else Z.shiftl 1 (bit_length (value - 1)).

Definition row_family (p : sampling) : string :=
  let k := negb (sp_top_k p =? -1) in
  let n := negb (Qeq_bool (sp_top_p p) 1) in
  if k && n then "top_k_top_p" else if k then "top_k" else if n then "top_p" else "temperature".

Definition _sampling_family (rows : list sequence) : string :=
  if forallb (λ q, Qeq_bool (sp_temperature (params q)) 0) rows then "greedy" else
  let families := remove_dups (row_family ∘ params <$>
    filter (λ q, negb (Qeq_bool (sp_temperature (params q)) 0) = true) rows) in
  match families with [family] => family | _ => "mixed" end.

(** The loop over the cells: each a cell already built, or its arguments. *)
Definition load_cell (loaded : gmap calibration_key CalibrationCell) (value : CalibrationCell + cell_args)
    : outcome (gmap calibration_key CalibrationCell) :=
  let? cell := (match value with inl c => Ok c | inr a => CalibrationCell_init a end) in
  oraise_if (bool_decide (is_Some (loaded !! cell_key cell)))
    (ValueError "duplicate speculative calibration cell") ;?
  Ok (<[cell_key cell := cell]> loaded).

Definition load (cells : list (CalibrationCell + cell_args)) : MP unit :=
  let* loaded := lift (ofold (λ acc v, load_cell acc v) cells ∅) in
  raise_if (bool_decide (loaded = ∅))
    (ValueError "adaptive calibration must contain at least one cell") ;;;
  modify (λ _, mk_policy loaded ∅ ∅ None).

Definition decision_label (d : AdaptiveDecision) : string :=
  match selected_k d with
  | Some k => "chosen_k_" +:+ pretty k
  | None => "bypass_" +:+ reason d
  end.

Definition _record (d : AdaptiveDecision) : MP AdaptiveDecision :=
  modify (λ p, mk_policy (_cells p) (_accepted_prefix_ema p)
    (<[decision_label d := default 0 (_decision_counts p !! decision_label d) + 1]> (_decision_counts p))
    (Some d)) ;;;
  ret d.

(** The predicted speedup of a calibrated route. *)
Definition predicted (p : AdaptiveSpeculativePolicy) (key : calibration_key) (cell : CalibrationCell) : Q :=
  let k := key.2 in
  let expected_commits :=
    match _accepted_prefix_ema p !! key with
    | Some observed => ((if Qle_bool observed (inject_Z k) then observed else inject_Z k) + 1)%Q
    | None => expected_committed_tokens cell
    end in
  let speculative_ms_per_token := (cycle_ms cell / expected_commits)%Q in
  (ordinary_ms_per_token cell / speculative_ms_per_token)%Q.

(** [max(candidates)] on (speedup, k): the keys of equal pairs are equal. *)
Definition candidate_lt (a b : Q * Z) : bool :=
  Qlt_bool a.1 b.1 || (Qeq_bool a.1 b.1 && (a.2 <? b.2)).
Definition max_candidate (c : Q * Z) (cs : list (Q * Z)) : Q * Z :=
  foldl (λ best x, if candidate_lt best x then x else best) c cs.

Definition min_over_rows (f : sequence → Z) (q : sequence) (qs : list sequence) : Z :=
  foldl Z.min (f q) (f <$> qs).
Definition max_over_rows (f : sequence → Z) (q : sequence) (qs : list sequence) : Z :=
  foldl Z.max (f q) (f <$> qs).

(** The caps on K of a batch. *)
Definition request_cap (q : sequence) (qs : list sequence) : Z :=
  min_over_rows (λ q, Z.max (sp_max_tokens (params q) - num_completion_tokens q - 1) 0) q qs.
Definition model_cap (max_model_len : Z) (q : sequence) (qs : list sequence) : Z :=
  min_over_rows (λ q, Z.max (max_model_len - num_tokens q) 0) q qs.
Definition budget_cap (max_num_batched_tokens catchup_tokens batch : Z) : Z :=
  Z.max ((max_num_batched_tokens - catchup_tokens) `div` batch - 1) 0.

Definition bypass (why : string) : AdaptiveDecision := mk_decision None why None None.

Definition choose (rows : list sequence) (candidate_ks : list Z) (catchup_tokens : Z)
    (numerical_mode : string) (max_model_len max_num_batched_tokens : Z) : MP AdaptiveDecision :=
  let candidate_ks := sorted_int_set candidate_ks in
  match rows, candidate_ks with
  | [], _ | _, [] => _record (bypass "route_unavailable")
  | q :: qs, k0 :: ks =>
      let family := _sampling_family rows in
      if bool_decide (family = "greedy"%string) && negb (bool_decide (numerical_mode = "invariant"%string))
      then _record (bypass "fast_greedy_sequential_verifier") else
      let batch := Z.of_nat (length rows) in
      let legal_cap := Z.min (Z.min (Z.min (foldl Z.max k0 ks) (request_cap q qs))
        (model_cap max_model_len q qs)) (budget_cap max_num_batched_tokens catchup_tokens batch) in
      let legal := filter (λ k, k <= legal_cap) candidate_ks in
      if bool_decide (legal = []) then _record (bypass "tail_or_budget") else
      let context := _power_of_two_bucket (max_over_rows num_tokens q qs) in
      let catchup := _power_of_two_bucket catchup_tokens in
      let key k : calibration_key := (batch, family, context, catchup, k) in
      let* p := get in
      let candidates := omap (λ k, (λ cell, (predicted p (key k) cell, k)) <$> _cells p !! key k) legal in
      match candidates with
      | [] => _record (bypass "uncalibrated_route")
      | c :: cs =>
          let '(speedup, k) := max_candidate c cs in
          if Qlt_bool speedup MIN_PREDICTED_SPEEDUP
          then _record (mk_decision None "below_10_percent_gate" (Some speedup) (Some (key k)))
          else _record (mk_decision (Some k) "selected" (Some speedup) (Some (key k)))
      end
  end.

Definition observe (d : AdaptiveDecision) (result : SpecExecutionResult) : MP unit :=
  match selected_k d, decision_key d, res_rows result with
  | Some _, Some key, r :: rs =>
      let rows := r :: rs in
      let observed := (inject_Z (foldr Z.add 0%Z (accepted_draft_tokens <$> rows))
                       / inject_Z (Z.of_nat (length rows)))%Q in
      modify (λ p, mk_policy (_cells p)
        (<[key := match _accepted_prefix_ema p !! key with
                  | None => observed
                  | Some previous => (previous * (9 # 10) + observed * (1 # 10))%Q
                  end]> (_accepted_prefix_ema p)) (_decision_counts p) (_last_decision p))
  | _, _, _ => ret tt
  end.

Record policy_snapshot := mk_policy_snapshot {
  calibration_cells : nat;
  decision_counts : list (string * Z);
  last_decision : option AdaptiveDecision;
}.

Definition snapshot (p : AdaptiveSpeculativePolicy) : policy_snapshot :=
  mk_policy_snapshot (size (_cells p))
    (sorted (λ a b : string * Z, String.leb a.1 b.1) (map_to_list (_decision_counts p))) (_last_decision p).
