(* ===== verification/PolicySpec.v ===== *)
(** * PolicySpec: what the performance gate guarantees

    A policy is well formed when its cells are stored under their own keys and
    within the checked ranges, and when every running estimate of a stored route
    lies between 0 and its K.  [load], [choose] and [observe] keep it well formed,
    so the divisions of the prediction are defined; [choose] selects a K exactly
    when some candidate that the whole batch can afford is calibrated and
    predicted to win by ten per cent, and it takes the best one. *)
From Stdlib Require Import QArith Lqa.
From S2P Require Import Prelude SamplingParams Sequence SpecRoutes RouteInv SpecResult Engine Policy.
#[local] Open Scope Z_scope.

(** ** Cells *)

Record cell_ok (c : CalibrationCell) : Prop := {
  co_batch : 1 <= cell_batch_size c;
  co_family : sampling_family c ≠ ""%string;
  co_context : 1 <= context_bucket c;
  co_catchup : 0 <= catchup_bucket c;
  co_k : 1 <= cell_k c;
  co_ordinary : (0 < ordinary_ms_per_token c)%Q;
  co_cycle : (0 < cycle_ms c)%Q;
  co_expected : (0 < expected_committed_tokens c)%Q;
  co_expected_le : (expected_committed_tokens c <= inject_Z (cell_k c + 1))%Q;
}.

Lemma non_negative_integer_ok name v n :
  non_negative_integer name v = Ok n → 0 <= n ∧ v = VInt n.
Proof.
  unfold non_negative_integer. rewrite obind_unit_ok, oraise_if_ok, orb_false_iff, negb_false_iff.
  rewrite type_is_int_value. intros [[-> Hn] [= <-]]. simpl in *. split; [lia|done].
Qed.

Lemma positive_number_ok name v q : positive_number name v = Ok q → (0 < q)%Q.
Proof.
  unfold positive_number. rewrite obind_unit_ok. intros [_ H].
  destruct (finite_value v) as [q'|]; [|done]. apply obind_unit_ok in H as [H [= <-]].
  apply oraise_if_ok in H. apply Qnot_le_lt. intros Hle. apply Qle_bool_iff in Hle. congruence.
Qed.

Lemma CalibrationCell_init_ok a c : CalibrationCell_init a = Ok c → cell_ok c.
Proof.
  unfold CalibrationCell_init. intros H.
  apply obind_ok in H as (b & Hb & H). apply obind_ok in H as (x & Hx & H).
  apply obind_ok in H as (y & Hy & H). apply obind_ok in H as (k & Hk & H).
  apply obind_unit_ok in H as [Hpos H]. apply oraise_if_ok in Hpos.
  destruct (ca_sampling_family a) as [| | |family|]; try done.
  apply obind_unit_ok in H as [Hf H]. apply oraise_if_ok, bool_decide_eq_false in Hf.
  apply obind_ok in H as (o & Ho & H). apply obind_ok in H as (cy & Hc & H).
  apply obind_ok in H as (ex & He & H). apply obind_unit_ok in H as [Hle [= <-]].
  apply oraise_if_ok, Qlt_bool_false in Hle.
  apply non_negative_integer_ok in Hb, Hx, Hy, Hk. apply positive_number_ok in Ho, Hc, He.
  constructor; simpl; try done; lia.
Qed.

(** ** Well-formed policies *)

Record policy_wf (p : AdaptiveSpeculativePolicy) : Prop := {
  pw_key : ∀ key c, _cells p !! key = Some c → cell_key c = key ∧ cell_ok c;
  pw_ema : ∀ key x, _accepted_prefix_ema p !! key = Some x → (0 <= x <= inject_Z key.2)%Q;
}.

Lemma policy_wf_init : policy_wf Policy_init.
Proof. by split; intros ??; simpl; rewrite lookup_empty. Qed.

(** The cells a load is given: built by the constructor, or its arguments. *)
Definition loadable (v : CalibrationCell + cell_args) : Prop :=
  match v with inl c => cell_ok c | inr _ => True end.

Lemma load_cell_wf loaded v loaded' :
  loadable v → (∀ key c, loaded !! key = Some c → cell_key c = key ∧ cell_ok c) →
  load_cell loaded v = Ok loaded' →
  ∀ key c, loaded' !! key = Some c → cell_key c = key ∧ cell_ok c.
Proof.
  intros Hv Hl H. apply obind_ok in H as (cell & Hc & H). apply obind_unit_ok in H as [_ [= <-]].
  intros key c. rewrite lookup_insert_Some. intros [[<- <-]|[_ ?]]; [|eauto].
  split; [done|]. destruct v; [by simplify_eq|by eapply CalibrationCell_init_ok].
Qed.

Lemma load_cells_wf l loaded loaded' :
  Forall loadable l → (∀ key c, loaded !! key = Some c → cell_key c = key ∧ cell_ok c) →
  ofold load_cell l loaded = Ok loaded' →
  ∀ key c, loaded' !! key = Some c → cell_key c = key ∧ cell_ok c.
Proof.
  intros Hl. revert loaded. induction Hl as [|v l Hv _ IH]; intros loaded Hw H; simpl in H.
  - by simplify_eq.
  - apply obind_ok in H as (b & Hb & H). by eapply IH; [eapply load_cell_wf|].
Qed.

(** A load either replaces the whole policy by a well-formed one, with no
    estimate, or raises and leaves it as it was. *)
Lemma load_run cells p :
  Forall loadable cells →
  match load cells p with
  | (Ok _, p') => policy_wf p' ∧ _cells p' ≠ ∅ ∧ _accepted_prefix_ema p' = ∅ ∧ _decision_counts p' = ∅
  | (Raise _, p') => p' = p
  end.
Proof.
  intros Hl. unfold load, mbind, lift, raise_if. simpl.
  unfold bind.
  destruct (ofold _ cells ∅) as [loaded|e] eqn:E; [|done].
  destruct (decide (loaded = ∅)) as [|Hne]; [by rewrite bool_decide_true|].
  rewrite bool_decide_false by done. simpl. split_and!; [|done|done|done]. split; simpl.
  - eapply load_cells_wf; [done| |exact E]. intros ??. by rewrite lookup_empty.
  - intros ??. by rewrite lookup_empty.
Qed.

(** ** Buckets *)

(** A bucket is the least power of two above the value. *)
Lemma power_of_two_bucket_spec v :
  0 < v → ∃ n, 0 <= n ∧ _power_of_two_bucket v = 2 ^ n ∧ v <= 2 ^ n < 2 * v.
Proof.
  intros Hv. unfold _power_of_two_bucket, bit_length. rewrite (proj2 (Z.leb_gt v 0)) by done.
  destruct (Z.eqb_spec (v - 1) 0) as [He|He].
  - exists 0. rewrite Z.shiftl_1_l, Z.pow_0_r. lia.
  - exists (Z.log2 (v - 1) + 1). pose proof (Z.log2_nonneg (v - 1)).
    rewrite Z.shiftl_1_l. destruct (Z.log2_spec (v - 1)) as [H1 H2]; [lia|].
    rewrite Z.pow_succ_r in H2 by lia. rewrite Z.pow_add_r, Z.pow_1_r by lia. lia.
Qed.

Lemma power_of_two_bucket_pos v : 0 <= _power_of_two_bucket v.
Proof.
  destruct (Z.leb_spec v 0) as [H|H].
  - unfold _power_of_two_bucket. by rewrite (proj2 (Z.leb_le v 0)).
  - apply power_of_two_bucket_spec in H as (n & Hn & -> & _). by apply Z.pow_nonneg.
Qed.

(** ** The predicted speedup *)

Definition expected_commits (p : AdaptiveSpeculativePolicy) (key : calibration_key) (c : CalibrationCell) : Q :=
  match _accepted_prefix_ema p !! key with
  | Some x => x + 1 | None => expected_committed_tokens c
  end.

Lemma expected_commits_pos p key c :
  policy_wf p → _cells p !! key = Some c → (0 < expected_commits p key c <= inject_Z (key.2 + 1))%Q.
Proof.
  intros Hp Hc. apply (pw_key _ Hp) in Hc as [<- Hok]. unfold expected_commits.
  destruct (_ !! _) as [x|] eqn:Hx.
  - apply (pw_ema _ Hp) in Hx. rewrite inject_Z_plus. change (inject_Z 1) with 1%Q. lra.
  - split; [apply Hok|]. apply Hok.
Qed.

(** The prediction is the ratio of the ordinary time of the expected commits to
    the time of a cycle. *)
Lemma predicted_spec p key c :
  policy_wf p → _cells p !! key = Some c →
  (predicted p key c == ordinary_ms_per_token c * expected_commits p key c / cycle_ms c)%Q.
Proof.
  intros Hp Hc. pose proof (expected_commits_pos _ _ _ Hp Hc) as [Hpos _].
  pose proof (pw_key _ Hp _ _ Hc) as [_ Hok]. pose proof (co_cycle _ Hok) as Hcy.
  unfold predicted, expected_commits in *. destruct (_accepted_prefix_ema p !! key) as [x|] eqn:Hx.
  - apply (pw_ema _ Hp) in Hx as [H1 H2]. apply Qle_bool_iff in H2. rewrite H2.
    field. split; lra.
  - field. split; lra.
Qed.

(** ** Minima, maxima and the best candidate *)

Lemma min_over_rows_le f q qs k :
  k <= min_over_rows f q qs ↔ ∀ x, x ∈ q :: qs → k <= f x.
Proof.
  unfold min_over_rows. setoid_rewrite elem_of_cons.
  assert (∀ m, k <= foldl Z.min m (f <$> qs) ↔ k <= m ∧ ∀ x, x ∈ qs → k <= f x) as ->.
  { induction qs as [|x qs IH]; intros m; simpl; [set_solver|].
    rewrite IH. setoid_rewrite elem_of_cons. rewrite Z.min_glb_iff. naive_solver. }
  naive_solver.
Qed.

Lemma foldl_max_spec m l :
  foldl Z.max m l ∈ m :: l ∧ ∀ x, x ∈ m :: l → x <= foldl Z.max m l.
Proof.
  revert m. induction l as [|y l IH]; intros m; simpl.
  - split; [left|]. intros x ->%list_elem_of_singleton. lia.
  - destruct (IH (Z.max m y)) as [H1 H2]. pose proof (H2 (Z.max m y) ltac:(left)) as Hm. split.
    + apply elem_of_cons in H1 as [->|H1]; [|by do 2 right].
      destruct (Z.max_spec m y) as [[_ ->]|[_ ->]]; [right|]; left.
    + intros x [->|[->|Hx]%elem_of_cons]%elem_of_cons; [lia|lia|]. apply H2. by right.
Qed.

(** The context bucket is taken at the longest row. *)
Lemma max_over_rows_spec f q qs :
  (∃ x, x ∈ q :: qs ∧ max_over_rows f q qs = f x) ∧ ∀ x, x ∈ q :: qs → f x <= max_over_rows f q qs.
Proof.
  unfold max_over_rows. destruct (foldl_max_spec (f q) (f <$> qs)) as [H1 H2]. split.
  - change (f q :: (f <$> qs)) with (f <$> q :: qs) in H1.
    apply list_elem_of_fmap in H1 as (x & Hx & Hin). by exists x.
  - intros x Hx. apply H2. change (f q :: (f <$> qs)) with (f <$> q :: qs).
    by apply list_elem_of_fmap_2.
Qed.

Definition candidate_le (a b : Q * Z) : Prop := (a.1 <= b.1)%Q ∧ ((a.1 == b.1)%Q → a.2 <= b.2).

Lemma candidate_lt_spec a b : candidate_lt a b = false ↔ candidate_le b a.
Proof.
  unfold candidate_lt, candidate_le.
  rewrite orb_false_iff, Qlt_bool_false, andb_false_iff, Z.ltb_ge, <-not_true_iff_false, Qeq_bool_iff.
  split; intros [H1 H2]; (split; [done|]).
  - intros He. destruct H2 as [H2|]; [|done]. by destruct H2.
  - destruct (Qeq_dec a.1 b.1) as [He|]; [right; by apply H2|by left].
Qed.

Lemma candidate_le_trans a b c : candidate_le a b → candidate_le b c → candidate_le a c.
Proof.
  intros [H1 H2] [H3 H4]. split; [by eapply Qle_trans|]. intros He.
  assert (a.1 == b.1)%Q as Hab by lra. assert (b.1 == c.1)%Q as Hbc by lra.
  specialize (H2 Hab). specialize (H4 Hbc). lia.
Qed.

Lemma candidate_le_refl a : candidate_le a a.
Proof. split; [apply Qle_refl|lia]. Qed.

Lemma max_candidate_spec c cs :
  max_candidate c cs ∈ c :: cs ∧ ∀ x, x ∈ c :: cs → candidate_le x (max_candidate c cs).
Proof.
  unfold max_candidate. revert c. induction cs as [|y cs IH]; intros c; simpl.
  - split; [left|]. intros x ->%list_elem_of_singleton. apply candidate_le_refl.
  - destruct (candidate_lt c y) eqn:E.
    + destruct (IH y) as [H1 H2]. split; [by right|]. intros x [->|Hx]%elem_of_cons; [|by apply H2].
      eapply candidate_le_trans; [|apply H2; left].
      unfold candidate_lt in E. apply orb_true_iff in E as [E|E].
      * apply Qlt_bool_spec in E. split; [by apply Qlt_le_weak|]. intros He. rewrite He in E. by apply Qlt_irrefl in E.
      * apply andb_true_iff in E as [E1 E2]. apply Qeq_bool_iff in E1. split; [lra|]. intros _. lia.
    + destruct (IH c) as [H1 H2]. split.
      * apply elem_of_cons in H1 as [->|H1]; [left|by do 2 right].
      * intros x [->|[->|Hx]%elem_of_cons]%elem_of_cons; [apply H2; left| |apply H2; by right].
        eapply candidate_le_trans; [by apply candidate_lt_spec|apply H2; left].
Qed.

(** ** The choice *)

Section choose.
Context (q : sequence) (qs : list sequence) (candidate_ks : list Z) (catchup : Z) (numerical_mode : string)
  (max_model_len max_num_batched_tokens : Z).
Abbreviation rows := (q :: qs).

(** What a batch must be able to afford: one more token than the proposals for
    every request, room in the model length, and every proposal with its bonus
    row, after the catch-up, in the token budget. *)
Definition affordable (k : Z) : Prop :=
  (∀ r, r ∈ rows → num_completion_tokens r + k < sp_max_tokens (params r) ∧
                   num_tokens r + k <= max_model_len) ∧
  catchup + Z.of_nat (length rows) * (k + 1) <= max_num_batched_tokens.

(** The calibration key of a batch for K. *)
Definition route_of (k : Z) : calibration_key :=
  (Z.of_nat (length rows), _sampling_family rows,
   _power_of_two_bucket (max_over_rows num_tokens q qs), _power_of_two_bucket catchup, k).

Definition eligible (p : AdaptiveSpeculativePolicy) (k : Z) (c : CalibrationCell) : Prop :=
  k ∈ candidate_ks ∧ affordable k ∧ _cells p !! route_of k = Some c.

Definition greedy_needs_invariance : Prop :=
  _sampling_family rows = "greedy"%string ∧ numerical_mode ≠ "invariant"%string.

Lemma legal_iff ks0 k0 k :
  1 <= k → k ∈ k0 :: ks0 →
  k <= Z.min (Z.min (Z.min (foldl Z.max k0 ks0) (request_cap q qs)) (model_cap max_model_len q qs))
         (budget_cap max_num_batched_tokens catchup (Z.of_nat (length rows))) ↔ affordable k.
Proof.
  intros Hk Hin. rewrite !Z.min_glb_iff. unfold request_cap, model_cap, budget_cap, affordable.
  rewrite !min_over_rows_le.
  assert (k <= foldl Z.max k0 ks0) as Hmax. by (by apply foldl_max_spec).
  set (B := Z.of_nat (length rows)). assert (0 < B) as HB by (unfold B; simpl; lia).
  assert (k <= Z.max ((max_num_batched_tokens - catchup) `div` B - 1) 0 ↔ catchup + B * (k + 1) <= max_num_batched_tokens) as ->.
  { pose proof (mul_le_div (k + 1) (max_num_batched_tokens - catchup) B HB) as Hd. split; intros H.
    - assert (k + 1 <= (max_num_batched_tokens - catchup) `div` B) as H' by lia. apply Hd in H'. lia.
    - assert ((k + 1) * B <= max_num_batched_tokens - catchup) as H' by lia. apply Hd in H'. lia. }
  split.
  - intros [[[_ H1] H2] H3]. split; [|done]. intros r Hr. specialize (H1 r Hr). specialize (H2 r Hr). lia.
  - intros [H1 H3]. split_and!; try done; intros r Hr; destruct (H1 r Hr); lia.
Qed.

(** The predicted speedup of K for this batch. *)
Definition speedup (p : AdaptiveSpeculativePolicy) (k : Z) (c : CalibrationCell) : Q :=
  (ordinary_ms_per_token c * expected_commits p (route_of k) c / cycle_ms c)%Q.

(** What a decision means: the best affordable calibrated K, at least ten per cent
    ahead, or none of them is. *)
Definition decision_ok (p : AdaptiveSpeculativePolicy) (d : AdaptiveDecision) : Prop :=
  match selected_k d with
  | Some k => ¬ greedy_needs_invariance ∧ decision_key d = Some (route_of k) ∧
      ∃ c, eligible p k c ∧ (11 # 10 <= speedup p k c)%Q ∧
        ∀ k' c', eligible p k' c' → candidate_le (speedup p k' c', k') (speedup p k c, k)
  | None => greedy_needs_invariance ∨ ∀ k c, eligible p k c → (speedup p k c < 11 # 10)%Q
  end.

(** The effect of recording a decision: only the counters. *)
Definition recorded (p : AdaptiveSpeculativePolicy) (d : AdaptiveDecision) : AdaptiveSpeculativePolicy :=
  mk_policy (_cells p) (_accepted_prefix_ema p)
    (<[decision_label d := default 0 (_decision_counts p !! decision_label d) + 1]> (_decision_counts p)) (Some d).

Lemma record_run d p : _record d p = (Ok d, recorded p d).
Proof. done. Qed.

Definition candidates_of (p : AdaptiveSpeculativePolicy) (ks : list Z) : list (Q * Z) :=
  omap (λ k, (λ cell, (predicted p (route_of k) cell, k)) <$> _cells p !! route_of k) ks.

Lemma elem_of_predicted_candidates p ks s k :
  (s, k) ∈ candidates_of p ks ↔ k ∈ ks ∧ ∃ c, _cells p !! route_of k = Some c ∧ s = predicted p (route_of k) c.
Proof.
  unfold candidates_of. rewrite list_elem_of_omap. split.
  - intros (k' & Hk' & H). apply fmap_Some in H as (c & Hc & [= -> ->]). eauto.
  - intros (Hk & c & Hc & ->). exists k. by rewrite Hc.
Qed.

Lemma predicted_speedup_eq p k c :
  policy_wf p → _cells p !! route_of k = Some c → (predicted p (route_of k) c == speedup p k c)%Q.
Proof. intros. by apply predicted_spec. Qed.

(** The choice among the legal candidates. *)
Lemma choose_among p legal c cs s k :
  policy_wf p → (∀ k' c', eligible p k' c' ↔ k' ∈ legal ∧ _cells p !! route_of k' = Some c') →
  candidates_of p legal = c :: cs → max_candidate c cs = (s, k) →
  ∃ cell, eligible p k cell ∧ (s == speedup p k cell)%Q ∧
    ∀ k' c', eligible p k' c' → candidate_le (speedup p k' c', k') (speedup p k cell, k).
Proof.
  intros Hp Hel Hc Hm. destruct (max_candidate_spec c cs) as [Hin Hmax]. rewrite Hm, <-Hc in Hin, Hmax.
  apply elem_of_predicted_candidates in Hin as (Hk & cell & Hcell & ->). exists cell.
  split_and!; [by apply Hel|by apply predicted_speedup_eq|]. intros k' c' He. apply Hel in He as [Hk' Hc'].
  assert ((predicted p (route_of k') c', k') ∈ candidates_of p legal) as Hin'
    by (apply elem_of_predicted_candidates; eauto).
  specialize (Hmax _ Hin'). unfold candidate_le in *. simpl in *. by rewrite !predicted_speedup_eq in Hmax.
Qed.

Lemma choose_run p :
  policy_wf p → Forall (λ k, 1 <= k) candidate_ks →
  ∃ d, choose rows candidate_ks catchup numerical_mode max_model_len max_num_batched_tokens p
       = (Ok d, recorded p d) ∧ decision_ok p d.
Proof.
  intros Hp Hks. rewrite Forall_forall in Hks. unfold choose.
  destruct (sorted_int_set_spec candidate_ks) as [_ Hset].
  destruct (sorted_int_set candidate_ks) as [|k0 ks0] eqn:Eks.
  { eexists. split; [apply record_run|]. right. intros k c (Hk & _). apply Hset in Hk. by apply elem_of_nil in Hk. }
  destruct (bool_decide (_sampling_family rows = "greedy"%string) && negb (bool_decide (numerical_mode = "invariant"%string))) eqn:Eg.
  { eexists. split; [apply record_run|]. left. apply andb_true_iff in Eg as [E1 E2].
    apply bool_decide_eq_true in E1. apply negb_true_iff, bool_decide_eq_false in E2. by split. }
  assert (¬ greedy_needs_invariance) as Hng.
  { intros [H1 H2]. rewrite bool_decide_true, bool_decide_false in Eg by done. done. }
  set (legal := filter _ (k0 :: ks0)).
  assert (∀ k' c', eligible p k' c' ↔ k' ∈ legal ∧ _cells p !! route_of k' = Some c') as Hel.
  { intros k' c'. unfold eligible, legal. rewrite list_elem_of_filter, <-Hset.
    pose proof (λ H, legal_iff ks0 k0 k' (Hks k' (proj1 (Hset k') H)) H) as Hl. split.
    - intros (Hin & Ha & Hc). split; [|done]. split; [by apply Hl|done].
    - intros ((Hle & Hin) & Hc). split; [done|]. split; [by apply Hl|done]. }
  destruct (decide (legal = [])) as [Hnil|Hne].
  { rewrite bool_decide_true by done. eexists. split; [apply record_run|]. right.
    intros k c [Hk _]%Hel. rewrite Hnil in Hk. by apply elem_of_nil in Hk. }
  rewrite bool_decide_false by done. unfold mbind, bind, get. change (omap _ legal) with (candidates_of p legal).
  destruct (candidates_of p legal) as [|c cs] eqn:Ec.
  { eexists. split; [apply record_run|]. right. intros k c [Hk Hc]%Hel.
    assert ((predicted p (route_of k) c, k) ∈ candidates_of p legal) as Hin by (apply elem_of_predicted_candidates; eauto).
    rewrite Ec in Hin. by apply elem_of_nil in Hin. }
  destruct (max_candidate c cs) as [s k] eqn:Em.
  destruct (choose_among p legal c cs s k Hp Hel Ec Em) as (cell & He & Hs & Hmax).
  destruct (Qlt_bool s MIN_PREDICTED_SPEEDUP) eqn:Es.
  - eexists. split; [apply record_run|]. right. intros k' c' He'. apply Hmax in He' as [Hle _].
    apply Qlt_bool_spec in Es. rewrite Hs in Es. simpl in Hle. by eapply Qle_lt_trans.
  - eexists. split; [apply record_run|]. split_and!; [done|done|]. exists cell.
    apply Qlt_bool_false in Es. rewrite Hs in Es. by split_and!.
Qed.

End choose.

(** ** Observation *)

(** A result's accepted counts lie between 0 and the K it ran. *)
Definition accepted_within (k : Z) (result : SpecExecutionResult) : Prop :=
  Forall (λ r, 0 <= accepted_draft_tokens r <= k) (res_rows result).

Lemma mean_within k rs :
  rs ≠ [] → Forall (λ r, 0 <= accepted_draft_tokens r <= k) rs →
  (0 <= inject_Z (foldr Z.add 0%Z (accepted_draft_tokens <$> rs)) / inject_Z (Z.of_nat (length rs)) <= inject_Z k)%Q.
Proof.
  intros Hne H.
  assert (0 <= foldr Z.add 0 (accepted_draft_tokens <$> rs) <= k * Z.of_nat (length rs)) as [H1 H2].
  { clear Hne. induction H as [|r rs Hr _ IH]; [simpl; lia|].
    rewrite fmap_cons, length_cons, Nat2Z.inj_succ. simpl foldr. nia. }
  assert (0 < inject_Z (Z.of_nat (length rs)))%Q as Hl.
  { change 0%Q with (inject_Z 0). rewrite <-Zlt_Qlt. destruct rs; simpl; [done|lia]. }
  split.
  - apply Qle_shift_div_l; [done|]. rewrite Qmult_0_l. change 0%Q with (inject_Z 0). by rewrite <-Zle_Qle.
  - apply Qle_shift_div_r; [done|]. rewrite <-inject_Z_mult. by rewrite <-Zle_Qle.
Qed.

(** Observing a result the decision's K bounds keeps the estimates within [0, K]
    and touches nothing else. *)
Lemma observe_run d result p :
  policy_wf p → (∀ key, decision_key d = Some key → accepted_within key.2 result) →
  ∃ p', observe d result p = (Ok tt, p') ∧ policy_wf p' ∧ _cells p' = _cells p ∧
    _decision_counts p' = _decision_counts p ∧ _last_decision p' = _last_decision p ∧
    ∀ key, Some key ≠ decision_key d → _accepted_prefix_ema p' !! key = _accepted_prefix_ema p !! key.
Proof.
  intros Hp Hd. unfold observe.
  destruct (selected_k d) as [k|]; [|by exists p].
  destruct (decision_key d) as [key|]; [|by exists p].
  specialize (Hd key eq_refl). unfold accepted_within in Hd.
  destruct (res_rows result) as [|r rs] eqn:Er; [by exists p|].
  eexists. split; [done|]. pose proof (mean_within key.2 (r :: rs) ltac:(done) Hd) as Hm.
  revert Hm. set (o := (_ / _)%Q). intros Hm. split_and!; [|done|done|done|].
  - split; [apply Hp|]. intros key' x. simpl. rewrite lookup_insert_Some.
    intros [[<- <-]|[_ Hx]]; [|by apply (pw_ema _ Hp)].
    destruct (_accepted_prefix_ema p !! key) as [x|] eqn:Ex; [|done].
    apply (pw_ema _ Hp) in Ex. split; lra.
  - intros key' Hne. simpl. apply lookup_insert_ne. congruence.
Qed.

(** ** The policy in the engine *)

(** What the engine does to its policy. *)
Inductive policy_step : AdaptiveSpeculativePolicy → AdaptiveSpeculativePolicy → Prop :=
  | step_load cells p : Forall loadable cells → policy_step p (load cells p).2
  | step_choose rows ks catchup mode mml mnbt p :
      Forall (λ k, 1 <= k) ks → policy_step p (choose rows ks catchup mode mml mnbt p).2
  | step_observe d result p :
      (∀ key, decision_key d = Some key → accepted_within key.2 result) →
      policy_step p (observe d result p).2.

Lemma recorded_wf p d : policy_wf p → policy_wf (recorded p d).
Proof. intros Hp. split; apply Hp. Qed.

Lemma policy_step_wf p p' : policy_wf p → policy_step p p' → policy_wf p'.
Proof.
  intros Hp Hs. revert Hp. destruct Hs as [cells p Hl|[|q qs] ks catchup mode mml mnbt p Hks|d result p Hd]; intros Hp.
  - pose proof (load_run cells p Hl) as H. destruct (load cells p) as [[|] p']; [apply H|].
    by rewrite H.
  - by apply recorded_wf.
  - destruct (choose_run q qs ks catchup mode mml mnbt p Hp Hks) as (d & -> & _). by apply recorded_wf.
  - by destruct (observe_run d result p Hp Hd) as (p' & -> & Hp' & _).
Qed.

Lemma reachable_policy_wf p : rtc policy_step Policy_init p → policy_wf p.
Proof.
  intros H. assert (policy_wf Policy_init) as Hi by apply policy_wf_init. revert Hi.
  induction H as [|p1 p2 p3 Hs _ IH]; [done|]. intros Hi. apply IH. by eapply policy_step_wf.
Qed.

(** An admission cut to K routes is valid and offers exactly 1, ..., K. *)
Lemma take_admission a k :
  DraftRouteAdmission_post_init a = Ok tt → k ∈ effective_k <$> route_keys a →
  ∃ a', with_route_keys a (take (Z.to_nat k) (route_keys a)) = Ok a' ∧
    effective_k <$> route_keys a' = py_range 1 (k + 1).
Proof.
  unfold with_route_keys, DraftRouteAdmission_post_init. simpl. rewrite !obind_unit_ok, !oraise_if_ok.
  intros (H1 & H2 & H3 & H4 & H5) Hk. rewrite H1, H2, H3, H4. simpl.
  apply negb_false_iff, bool_decide_eq_true in H5. rewrite H5, elem_of_py_range in Hk.
  assert (effective_k <$> take (Z.to_nat k) (route_keys a) = py_range 1 (k + 1)) as Ht.
  { rewrite fmap_take, H5, (py_range_app 1 (k + 1) (Z.of_nat (length (route_keys a)) + 1)) by lia.
    apply take_app_length'. rewrite length_py_range. lia. }
  assert (contiguous_k (take (Z.to_nat k) (route_keys a)) = true) as ->.
  { apply bool_decide_eq_true. rewrite Ht, length_take. f_equal. lia. }
  by eexists.
Qed.

