(* ===== verification/Demo.v ===== *)
(** * Demo: a concrete run of the engine loop

    A small configuration (four-token blocks, eight blocks, a toy content hash
    and clock), three reachable scheduler states and a heap with a live lease,
    on which the witnesses evaluate the definitions.  In [served] two requests
    with a common prompt prefix share two prefix-cached blocks. *)
From Stdlib Require Import QArith.
From S2P Require Import Prelude SamplingParams Sequence Heap BlockManager Reservation.
From S2P Require Import AllocatorInv ReservationInv CacheInv SpecMemory SpecRoutes SpecPlan.
From S2P Require Import Scheduler KVContract SchedInv StepSpec EngineLoop.
#[local] Open Scope Z_scope.

Definition toy_hash (toks : list Z) (prefix : Z) : Z :=
  foldl (λ h t, (31 * h + t) `mod` 1000003) (prefix + 7) toks `mod` 1000003.

Lemma toy_hash_nonneg toks p : 0 <= toy_hash toks p.
Proof. unfold toy_hash. apply Z.mod_pos_bound. lia. Qed.

Definition toy_clock (n : nat) : Z := Z.of_nat n.

Definition toy_config : sched_config :=
  mk_sched_config 4 16 2 (Some 100) 4 2 64 "strict".

Definition toy_params : sampling := mk_sampling 1%Q 3 false (-1) 1%Q.

Definition request (k : nat) (toks : list Z) : sequence :=
  match Sequence_init k toks toy_params None None 0 with
  | Ok q => q
  | Raise _ => mk_sequence k WAITING [] 0 0 0 0 0 0 true [] toy_params
                 (mk_timing 0 0 None None None None None []) None
  end.

(** A step of the loop whose model answers [toks]. *)
Definition step (toks : list Z) (s : scheduler) : outcome (list StreamOutput) * scheduler :=
  match schedule toy_hash toy_clock s with
  | (Ok (batch, _), s1) => postprocess toy_hash toy_clock batch toks s1
  | (Raise e, s1) => (Raise e, s1)
  end.

Definition prompt0 : list Z := [5; 6; 7; 8; 9; 10; 11; 12; 13].
Definition prompt1 : list Z := [5; 6; 7; 8; 9; 10; 11; 12; 14; 15].

Definition fresh : scheduler := Scheduler_init toy_config 8.
Definition queued : scheduler := (submit 0 (request 0 prompt0) fresh).2.
Definition decoding : scheduler := (step [20] queued).2.
Definition arrived : scheduler := (submit 1 (request 1 prompt1) decoding).2.
Definition served : scheduler := (step [21; 22] arrived).2.

Definition reachable (s : scheduler) : Prop :=
  rtc (engine_step toy_hash toy_clock) fresh s.

Lemma reachable_step toks s :
  reachable s → is_ok (step toks s).1 = true → reachable (step toks s).2.
Proof.
  intros Hr Hok. eapply rtc_r; [exact Hr|]. revert Hok. unfold step.
  destruct (schedule toy_hash toy_clock s) as [[[batch hp]|e] s1] eqn:E; simpl; [|done].
  destruct (postprocess _ _ _ _ _) as [[evs|e] s2] eqn:E2; simpl; [|done].
  intros _. by eapply step_forward.
Qed.

Lemma reachable_submit k toks s :
  reachable s → bool_decide (seqs s !! k = None) = true →
  is_ok (Sequence_init k toks toy_params None None 0) = true →
  reachable (submit k (request k toks) s).2.
Proof.
  intros Hr Hk%bool_decide_eq_true Hq. eapply rtc_r; [exact Hr|].
  unfold request. destruct (Sequence_init _ _ _ _ _ _) as [q|] eqn:Eq; [|done].
  eapply step_submit; [exact Hk|exact Eq|apply surjective_pairing].
Qed.

Lemma queued_reachable : reachable queued.
Proof. apply reachable_submit; [constructor|reflexivity..]. Qed.

Lemma decoding_reachable : reachable decoding.
Proof. apply reachable_step; [apply queued_reachable|reflexivity]. Qed.

Lemma arrived_reachable : reachable arrived.
Proof. apply reachable_submit; [apply decoding_reachable|reflexivity..]. Qed.

Lemma served_reachable : reachable served.
Proof. apply reachable_step; [apply arrived_reachable|vm_compute; reflexivity]. Qed.

Lemma reachable_demo_idle s : reachable s → idle toy_hash s.
Proof. apply reachable_idle; [exact toy_hash_nonneg|done|done]. Qed.

Lemma idle_kv s : idle toy_hash s →
  alloc_ok none (sc_heap s) ∧ quiescent (sc_heap s) ∧ cache_ok toy_hash (sc_heap s).
Proof. intros Hs. apply (si_heap _ _ _ _ Hs). Qed.

(** The demo heaps and their invariants. *)
Definition heap1 : heap := sc_heap arrived.
Definition heap2 : heap := sc_heap served.

Lemma heap1_kv : alloc_ok none heap1 ∧ quiescent heap1 ∧ cache_ok toy_hash heap1.
Proof. apply idle_kv, reachable_demo_idle, arrived_reachable. Qed.

Lemma heap2_kv : alloc_ok none heap2 ∧ quiescent heap2 ∧ cache_ok toy_hash heap2.
Proof. apply idle_kv, reachable_demo_idle, served_reachable. Qed.

(** The stored sequence [k], or a fresh one. *)
Definition stored (h : heap) (k : nat) : sequence := default (request k [0]) (hp_seqs h !! k).

Lemma stored_lookup h k : bool_decide (is_Some (hp_seqs h !! k)) = true →
  hp_seqs h !! k = Some (stored h k).
Proof. intros [q Hq]%bool_decide_eq_true. unfold stored. by rewrite Hq. Qed.

(** Closed equations, by the virtual machine. *)
Ltac vm := vm_compute; reflexivity.

(** What a weakest precondition says of a run that returns [a]. *)
Lemma wp_returns {S A} (m : M S A) Q E (s : S) (a d : A) :
  wp m Q E s → match (m s).1 with Ok b => b | Raise _ => d end = a → is_ok (m s).1 = true →
  m s = (Ok a, (m s).2) ∧ Q a (m s).2.
Proof. unfold wp. destruct (m s) as [[b|e] s']; simpl; [by intros ? <-|done]. Qed.
