(* ===== verification/Witnesses.v ===== *)
(** * Witnesses: the properties at concrete inputs

    One closed instance per property with hypotheses, on the demo states: each
    applies the theorem where its hypotheses hold, and states what it gives
    there. *)
From Stdlib Require Import QArith.
From stdpp Require Import sorting.
From S2P Require Import Prelude SamplingParams Sequence Heap BlockManager Reservation.
From S2P Require Import AllocatorInv BlockManagerInv BlockManagerSpec ReservationInv.
From S2P Require Import ReservationSpec FinalizeSpec CacheInv SpecMemory SpecRoutes RouteInv.
From S2P Require Import RouteSpec SpecPlan PlanSpec SpecResult Scheduler KVContract SchedInv ScheduleSpec.
From S2P Require Import PrefillSpec StepSpec CancelSpec EngineLoop SpecScheduler Detokenizer.
From S2P Require Import TpTransport Demo.
#[local] Open Scope Z_scope.

(** ** The block manager *)

Lemma allocate_incremental_witness :
  ∃ h', allocate_incremental toy_hash 1 2 10 heap1 = (Ok true, h') ∧ alloc_ok none h'.
Proof.
  destruct heap1_kv as (Hok & _ & _).
  pose proof (allocate_incremental_spec toy_hash heap1 1 (stored heap1 1) 2 10 Hok
    (stored_lookup heap1 1 ltac:(vm))) as H.
  destruct (wp_returns _ _ _ _ true false H ltac:(vm) ltac:(vm)) as (E & _ & ids & _ & Hok' & _).
  eexists. split; [exact E|exact Hok'].
Defined.

Lemma can_allocate_witness :
  ∃ nc, can_allocate toy_hash 1 heap1 = (Ok nc, heap1) ∧ nc = 2 ∧
    ∃ h', allocate_incremental toy_hash 1 nc 10 heap1 = (Ok true, h').
Proof.
  destruct heap1_kv as (Hok & Hq & _).
  destruct (can_allocate_admits toy_hash heap1 1 (stored heap1 1) Hok
    (stored_lookup heap1 1 ltac:(vm))) as (nc & E & Hnc).
  assert (nc = 2) as -> by (apply (f_equal fst) in E; vm_compute in E; congruence).
  exists 2. split; [exact E|]. split; [done|]. destruct Hnc as [Hnc|[_ Hnc]]; [discriminate Hnc|].
  apply Hnc; [by apply quiescent_unfenced|vm|vm_compute; split; congruence].
Defined.

Lemma extend_witness :
  ∃ h', extend 0 11 heap2 = (Ok true, h') ∧ alloc_ok none h'.
Proof.
  destruct heap2_kv as (Hok & _ & _).
  pose proof (extend_spec heap2 0 (stored heap2 0) 11 Hok (stored_lookup heap2 0 ltac:(vm))) as H.
  destruct (wp_returns _ _ _ _ true false H ltac:(vm) ltac:(vm)) as (E & _ & Hok' & _).
  eexists. split; [exact E|exact Hok'].
Defined.

Lemma may_append_witness :
  can_append 0 heap2 = (Ok true, heap2) ∧
  ∃ h', may_append 0 heap2 = (Ok tt, h') ∧ alloc_ok none h'.
Proof.
  destruct heap2_kv as (Hok & Hq & _).
  destruct (may_append_spec heap2 0 (stored heap2 0) Hok (quiescent_unfenced _ Hq)
    (stored_lookup heap2 0 ltac:(vm))) as (ok & E & H).
  assert (ok = true) as -> by (apply (f_equal fst) in E; vm_compute in E; congruence).
  split; [exact E|]. destruct H as (h' & new & E' & _ & _ & Hok').
  exists h'. split; [exact E'|exact Hok'].
Defined.

(** Block 0 is shared and stays used, block 2 is private and becomes free. *)
Lemma deallocate_witness :
  ∃ h', deallocate 0 heap2 = (Ok tt, h') ∧ alloc_ok none h' ∧
    (0 ∉ free_block_ids (hp_bm h'))%nat ∧ (2 ∈ free_block_ids (hp_bm h'))%nat.
Proof.
  destruct heap2_kv as (Hok & Hq & _).
  destruct (deallocate_spec heap2 0 (stored heap2 0) Hok (quiescent_unfenced _ Hq)
    (stored_lookup heap2 0 ltac:(vm))) as (h' & E & Hok' & _ & _ & _ & _ & Hfree).
  exists h'. split; [exact E|]. split; [exact Hok'|]. split.
  - rewrite (Hfree 0%nat) by (vm_compute; repeat constructor). by vm_compute.
  - apply (Hfree 2%nat); [vm_compute; repeat constructor|by vm_compute].
Defined.

Lemma BlockManager_init_witness :
  alloc_ok none (mk_heap (BlockManager_init 8 4) ∅ 4).
Proof. apply (BlockManager_init_ok 8 4 ∅); [reflexivity|intros k s; by rewrite lookup_empty]. Defined.

(** ** Reservations *)

Definition lease_rows : list (nat * Z) := [(0%nat, 13); (1%nat, 12)].
Definition leased_run : outcome (option TemporaryBlockReservation) * heap :=
  reserve_temporary_append lease_rows heap2.
Definition no_lease : TemporaryBlockReservation := mk_reservation 0 0 [] [] [] ∅ ∅ [].
Definition lease : TemporaryBlockReservation :=
  match leased_run.1 with Ok (Some r) => r | _ => no_lease end.
Definition leased_heap : heap := leased_run.2.

Lemma lease_run : reserve_temporary_append lease_rows heap2 = (Ok (Some lease), leased_heap).
Proof. vm_compute. reflexivity. Qed.

Lemma reserve_temporary_append_witness :
  leased heap2 lease leased_heap ∧ alloc_ok none leased_heap ∧ needed_blocks heap2 lease_rows = 2.
Proof.
  destruct heap2_kv as (Hok & Hq & _).
  pose proof (reserve_temporary_append_spec heap2 lease_rows Hok Hq) as H.
  unfold wp in H. rewrite lease_run in H. destruct H as (_ & Hl & Hok' & _).
  split; [exact Hl|]. split; [exact Hok'|]. vm_compute. reflexivity.
Defined.

Lemma reserve_rollback_witness :
  rollback_temporary_append lease leased_heap = (Ok true, bump heap2).
Proof.
  destruct heap2_kv as (Hok & Hq & _).
  apply (reserve_rollback_roundtrip heap2 lease_rows lease leased_heap Hok Hq lease_run).
Defined.

Lemma lease_fences_witness :
  ∃ e, may_append 0 leased_heap = (Raise e, leased_heap).
Proof.
  destruct heap2_kv as (Hok & Hq & _).
  assert (leased heap2 lease leased_heap) as Hl.
  { pose proof (reserve_run heap2 lease_rows Hok Hq) as H. unfold wp in H.
    rewrite lease_run in H. apply H. }
  pose proof (lease_fences_allocator toy_hash heap2 lease leased_heap 0 5 1 [] Hl) as H.
  rewrite Forall_forall in H. apply H. by right; left.
Defined.

Lemma deallocate_under_lease_witness :
  ∃ h2, deallocate 0 leased_heap = (Ok tt, h2) ∧ alloc_ok none h2.
Proof.
  destruct heap2_kv as (Hok & Hq & _).
  pose proof (deallocate_under_lease heap2 lease_rows lease leased_heap 0 Hok Hq lease_run
    (ex_intro _ _ (stored_lookup heap2 0 ltac:(vm)))) as H.
  rewrite decide_True in H by (vm_compute; repeat constructor).
  destruct H as (_ & h2 & E & Hok' & _). exists h2. split; [exact E|exact Hok'].
Defined.

Definition kept_items : list (nat * Z) := [(0%nat, 0); (1%nat, 1)].

Lemma finalize_temporary_append_witness :
  ∃ h2, finalize_temporary_append lease kept_items leased_heap = (Ok true, h2) ∧
    alloc_ok none h2 ∧ quiescent h2.
Proof.
  destruct heap2_kv as (Hok & Hq & _).
  pose proof (finalize_temporary_append_spec heap2 lease_rows lease leased_heap kept_items
    Hok Hq lease_run) as H.
  destruct (wp_returns _ _ _ _ true false H ltac:(vm) ltac:(vm)) as (E & _ & _ & _ & Hok' & Hq').
  eexists. split; [exact E|]. split; [exact Hok'|exact Hq'].
Defined.

Lemma prepare_target_writes_witness :
  ∃ r' h2, prepare_temporary_target_writes lease leased_heap = (Ok r', h2) ∧ alloc_ok none h2.
Proof.
  destruct heap2_kv as (Hok & Hq & _).
  destruct (prepare_target_writes_rollback heap2 lease_rows lease leased_heap Hok Hq lease_run)
    as (r' & h2 & E & Hok' & _). exists r', h2. split; [exact E|exact Hok'].
Defined.

(** ** The prefix cache *)


Lemma allocate_incremental_cache_witness :
  cache_ok toy_hash (allocate_incremental toy_hash 1 2 10 heap1).2.
Proof.
  destruct heap1_kv as (Hok & _ & Hc).
  apply (allocate_incremental_cache toy_hash heap1 1 (stored heap1 1) 2 10 _ Hok Hc
    (stored_lookup heap1 1 ltac:(vm)) ltac:(vm)).
Defined.

Lemma table_ops_cache_witness : cache_ok toy_hash (may_append 0 heap2).2.
Proof.
  destruct heap2_kv as (Hok & Hq & Hc).
  apply (table_ops_cache toy_hash heap2 0 (stored heap2 0) 11 _ Hok Hc (quiescent_unfenced _ Hq)
    (stored_lookup heap2 0 ltac:(vm))).
  right; left. vm.
Defined.

#[local] Instance toy_contract : KVAllocator toy_hash (kv_inv toy_hash) :=
  block_manager_contract toy_hash toy_hash_nonneg.

(** The scheduled batch of the second request, before its commit. *)
Definition scheduled_state : scheduler := (schedule toy_hash toy_clock arrived).2.
Definition heap_in_step : heap := sc_heap scheduled_state.

Lemma in_step_kv :
  alloc_ok none heap_in_step ∧ quiescent heap_in_step ∧ cache_ok toy_hash heap_in_step.
Proof.
  pose proof (schedule_run toy_hash toy_clock (kv_inv toy_hash) arrived
    (reachable_demo_idle _ arrived_reachable)) as H.
  assert (schedule toy_hash toy_clock arrived = (Ok ([0%nat; 1%nat], true), scheduled_state))
    as E by vm.
  rewrite E in H. destruct H as [H _]. exact (si_heap _ _ _ _ H).
Qed.

Lemma hash_blocks_commit_witness :
  ∃ h', (hash_blocks toy_hash 1 ;;;
         upd_seq 1 (λ s, set_num_cached_tokens
           (num_cached_tokens s + num_scheduled_tokens s) s)) heap_in_step = (Ok tt, h') ∧
    cache_ok toy_hash h'.
Proof.
  destruct in_step_kv as (Hok & Hq & Hc).
  destruct (hash_blocks_commit toy_hash toy_hash_nonneg heap_in_step 1 (stored heap_in_step 1)
    Hok Hc (quiescent_unfenced _ Hq) (stored_lookup heap_in_step 1 ltac:(vm))) as (h' & E & _ & Hc' & _).
  - vm_compute. repeat split; congruence.
  - exists h'. split; [exact E|exact Hc'].
Defined.

(** ** Workspace plans and routes *)

Definition half : dtype := mk_dtype true 2.
Definition toy_plan_run : outcome SpeculativeMemoryPlan :=
  plan_speculative_workspace 100 2 4 16 64 half half.
Definition toy_plan : SpeculativeMemoryPlan :=
  match toy_plan_run with
  | Ok p => p
  | Raise _ => empty_workspace_plan 2 100 4 16 64 2 2
  end.

Lemma toy_plan_ok : plan_speculative_workspace 100 2 4 16 64 half half = Ok toy_plan.
Proof. vm. Qed.

Lemma route_fits_witness :
  speculative_route_fits_plan toy_plan 3 2 = Ok true ∧
  ∃ q, plan_speculative_workspace 100 2 3 9 3 half half = Ok q ∧
       Plan.reservation_bytes q <= Plan.reservation_bytes toy_plan.
Proof.
  destruct (route_fits_reservation 100 2 4 16 64 half half toy_plan 3 2 toy_plan_ok
    ltac:(done) ltac:(done) ltac:(done) ltac:(done)) as [E H].
  assert (speculative_route_fits_plan toy_plan 3 2 = Ok true) as E' by vm.
  split; [exact E'|]. destruct (H E') as (q & Eq & _ & _ & Hle). exists q. by split.
Defined.

Definition toy_hf_config : hf_config := 
  mk_hf_config (Some 2) (Some 4) None (Some 32) (Some 4) None.

Lemma kv_cache_block_bytes_witness :
  ∃ n full, kv_cache_block_bytes toy_hf_config 256 2 (Some half) = Ok n ∧
    kv_cache_block_bytes toy_hf_config 256 1 (Some half) = Ok full ∧ full = 2 * n.
Proof.
  assert (∃ n, kv_cache_block_bytes toy_hf_config 256 2 (Some half) = Ok n) as [n E]
    by (eexists; vm).
  destruct (kv_cache_block_bytes_shards _ _ _ _ _ E) as (full & E' & Hf).
  exists n, full. split; [exact E|]. split; [exact E'|exact Hf].
Defined.

Lemma draft_graph_batch_buckets_witness :
  ∃ l, draft_graph_batch_buckets 20 = Ok l ∧ l = [1; 2; 4; 8; 16; 20] ∧ StronglySorted Z.lt l.
Proof.
  destruct (draft_graph_batch_buckets_spec 20) as [_ H].
  destruct (H ltac:(lia)) as (l & E & Hs & _). exists l. split; [exact E|]. split; [|exact Hs].
  vm_compute in E. congruence.
Defined.

Lemma max_eligible_draft_catchup_witness :
  max_eligible_draft_catchup 16 8 4 = Ok (12, 2) ∧
  ∀ b, 1 <= b <= 4 → eligible_catchup 16 8 b <= 12.
Proof.
  destruct (max_eligible_draft_catchup_spec 16 8 4 ltac:(lia) ltac:(lia) ltac:(lia))
    as (m & b & E & _ & Hmax & _).
  assert (max_eligible_draft_catchup 16 8 4 = Ok (12, 2)) as E' by vm.
  assert (m = 12) as -> by congruence. split; [exact E'|exact Hmax].
Defined.

(** A digest function with the length of SHA-256. *)
Definition toy_digest (_ : payload) : string :=
  "0123456789abcdef0123456789abcdef0123456789abcdef0123456789abcdef".

Definition toy_registry : DraftRouteRegistry :=
  built_registry toy_plan true (toy_digest PNone).

Lemma toy_registry_ok :
  build_draft_route_registry toy_digest toy_plan true "flash" = Ok toy_registry.
Proof. by rewrite build_run. Qed.

Definition toy_components : list DraftWarmComponentKey :=
  elements (desired_warm_components toy_registry).

Definition warm_registry : DraftRouteRegistry :=
  mk_registry DRAFT_ROUTE_SCHEMA (toy_digest PNone) (entries toy_registry)
    (list_to_set toy_components).

Lemma warm_registry_ok : with_warmed_components toy_registry toy_components = Ok warm_registry.
Proof.
  unfold with_warmed_components, toy_components. rewrite list_to_set_elements_L.
  rewrite bool_decide_eq_true_2 by done. cbn [negb oraise_if obind].
  assert (0 <= Plan.batch_size toy_plan) as HB by (vm_compute; congruence).
  pose proof (built_post_init toy_plan true HB (toy_digest PNone)) as Hp.
  unfold warm_registry, toy_components. rewrite list_to_set_elements_L.
  fold toy_registry in Hp. cbn [reg_schema reg_plan_fingerprint toy_registry built_registry].
  unfold toy_registry in *. by rewrite Hp.
Qed.

(** The key of K = 1 with catch-up serves a live batch of three. *)
Lemma toy_key_serves : serves warm_registry 3 1 (plan_key true 4 1 PAGED_EAGER_DYNAMIC).
Proof.
  assert (0 <= Plan.batch_size toy_plan) as HB by (vm_compute; congruence).
  assert (0 <= Plan.vocab_size toy_plan) as HV by (vm_compute; congruence).
  assert (route_reachable toy_plan 0 (plan_buckets toy_plan true) 4 1 PAGED_EAGER_DYNAMIC) as Hr.
  { assert (plan_buckets toy_plan true = [4]) as -> by vm. split; [by apply list_elem_of_singleton|].
    split; [vm_compute; split; congruence|]. exists 3. split; [lia|]. split; [|vm_compute; congruence].
    intros c ->%list_elem_of_singleton. lia. }
  split; [|split; [reflexivity|simpl; lia]].
  apply (ready_iff toy_plan true (toy_digest PNone) (list_to_set toy_components) HB HV).
  exists 4, 1, PAGED_EAGER_DYNAMIC. split; [reflexivity|]. split; [exact Hr|].
  split; [vm_compute; split; congruence|].
  unfold toy_components. rewrite list_to_set_elements_L. intros x Hx.
  unfold desired_warm_components. apply elem_of_union_list. eexists. split; [|exact Hx].
  apply list_elem_of_fmap_2, elem_of_built; [exact HB|].
  exists 4, 1, PAGED_EAGER_DYNAMIC. split; [reflexivity|exact Hr].
Qed.

Lemma build_draft_route_registry_witness :
  ∃ r, build_draft_route_registry toy_digest toy_plan true "flash" = Ok r ∧
    Sorted key_leb (entry_key <$> entries r) ∧ length (entries r) = 4%nat.
Proof.
  pose proof (build_draft_route_registry_spec toy_digest toy_plan true "flash" ltac:(vm_compute; congruence)) as H.
  destruct (bool_decide _) eqn:Hb; [discriminate Hb|].
  destruct H as (r & E & _ & _ & _ & Hs & _). exists r. split; [exact E|]. split; [exact Hs|].
  rewrite toy_registry_ok in E. injection E as <-. vm.
Defined.

Lemma resolve_built_registry_witness :
  ∃ a, resolve warm_registry 3 1 = Ok (Some a) ∧ resolution warm_registry 3 1 (Some a).
Proof.
  destruct (resolve_built_registry toy_digest ltac:(discriminate) toy_plan true "flash" toy_registry
    toy_components warm_registry 3 1 ltac:(vm_compute; congruence) ltac:(vm_compute; congruence)
    toy_registry_ok warm_registry_ok) as ([a|] & E & H).
  - exists a. split; [exact E|exact H].
  - destruct H as [H|[H|H]]; [lia|lia|]. destruct (H _ toy_key_serves).
Defined.

Lemma planner_registry_ready_witness :
  ∃ r', with_warmed_components toy_registry toy_components = Ok r' ∧
    ready_keys r' = router_admitted_keys toy_registry.
Proof.
  apply (planner_registry_ready toy_digest 100 2 4 16 64 half half toy_plan true "flash"
    toy_registry toy_plan_ok ltac:(done) ltac:(done) toy_registry_ok).
Defined.

(** ** Speculative plans *)

Definition toy_torch : torch_dtypes :=
  mk_torch_dtypes (Some (mk_dtype true 1)) half (mk_dtype true 4) (mk_dtype true 8).

Lemma toy_torch_ok : torch_dtypes_ok toy_torch.
Proof. split; [by intros d [= <-]|done..]. Qed.

Lemma toy_digest_ok v : check_digest (toy_digest v) = Ok tt.
Proof. reflexivity. Qed.

Lemma toy_workspace : planned_workspace toy_torch toy_plan.
Proof.
  exists 100, 2, 4, 16, 64, half, half. split; [exact toy_plan_ok|]. split; by left.
Qed.

(** Three decode rows, the second with one token of draft catch-up. *)
Definition toy_row (id : nat) (draft : Z) : SpecPlanRow :=
  mk_plan_row id 10 9 draft 5 20 None None [0%nat; 1%nat; 2%nat].
Definition toy_rows : list SpecPlanRow := [toy_row 0 9; toy_row 1 8; toy_row 2 9].

Lemma toy_rows_ok : toy_rows ≠ [] ∧ NoDup (row_seq_id <$> toy_rows) ∧ Forall row_ok toy_rows.
Proof.
  split; [discriminate|]. split; [apply (bool_decide_unpack (NoDup (row_seq_id <$> toy_rows))); vm_compute; exact I|].
  repeat constructor; simpl; (lia || discriminate).
Qed.

Lemma toy_rows_decode r :
  r ∈ toy_rows → target_cached_tokens r = committed_tokens r - 1.
Proof. intros H. repeat (apply elem_of_cons in H as [->|H]; [reflexivity|]). by apply elem_of_nil in H. Qed.

Lemma derive_effective_k_witness :
  derive_speculative_effective_k toy_rows 2 64 2 = Ok 2 ∧ k_feasible toy_rows 2 64 2 2.
Proof.
  destruct (derive_effective_k_optimal toy_rows 2 64 2 ltac:(lia) ltac:(lia) ltac:(lia)
    (proj2 (proj2 toy_rows_ok))) as (k & E & _ & Hf & _).
  assert (derive_speculative_effective_k toy_rows 2 64 2 = Ok 2) as E2 by vm.
  rewrite E2 in E. injection E as <-. split; [exact E2|]. by apply Hf.
Defined.

Lemma toy_cycle : cycle_ok toy_torch toy_plan toy_rows 2 2 2 64
                    (plan_key true 4 2 PAGED_EAGER_DYNAMIC).
Proof.
  split.
  - exact toy_workspace.
  - exact toy_rows_ok.
  - exact toy_rows_decode.
  - split; [lia|]. destruct (derive_run toy_rows 2 64 2) as (k & E & _ & Hf & _);
      [lia..|exact (proj1 toy_rows_ok)|exact (proj2 (proj2 toy_rows_ok))|].
    assert (derive_speculative_effective_k toy_rows 2 64 2 = Ok 2) as E2 by vm.
    rewrite E2 in E. injection E as <-. apply Hf. lia.
  - vm_compute. congruence.
  - split; vm_compute; (reflexivity || (split; congruence)).
Qed.

Lemma build_speculative_step_plan_witness :
  ∃ p, build_speculative_step_plan toy_torch toy_digest 0 toy_rows 2 2 2 64 toy_plan
         (Some (plan_key true 4 2 PAGED_EAGER_DYNAMIC)) None = Ok p ∧
       total_model_positions p = 16.
Proof.
  destruct (build_speculative_step_plan_total toy_torch toy_digest toy_torch_ok toy_digest_ok
    0 _ _ _ _ _ _ _ toy_cycle) as (p & E & Hp).
  exists p. split; [exact E|].
  destruct (bp_work _ _ _ _ _ _ _ _ _ Hp) as (H1 & H2 & H3 & ->). rewrite H1, H2, H3. vm.
Defined.

Lemma toy_feasible cap : 1 <= cap → k_feasible toy_rows 2 64 cap 1.
Proof.
  intros Hc. split; [lia|]. split; [exact Hc|]. split; [|vm_compute; congruence].
  intros r Hr.
  repeat (apply elem_of_cons in Hr as [->|Hr]; [simpl; lia|]). by apply elem_of_nil in Hr.
Qed.

Lemma admitted_cycle_witness :
  ∃ a k key p, resolve warm_registry 3 1 = Ok (Some a) ∧ 0 < k ∧ key_for a k = Some key ∧
    build_speculative_step_plan toy_torch toy_digest 7 toy_rows 2 (max_effective_k a) k 64
      toy_plan (Some key) None = Ok p.
Proof.
  destruct (resolve_built_run toy_digest ltac:(discriminate) toy_plan true "flash" toy_registry
    toy_components warm_registry 3 1 ltac:(vm_compute; congruence) ltac:(vm_compute; congruence)
    toy_registry_ok warm_registry_ok) as ([a|] & E & H);
    [|destruct H as [H|[H|H]]; [lia|lia|]; destruct (H _ toy_key_serves)].
  destruct H as (_ & _ & _ & _ & _ & Hne & _).
  assert (1 <= max_effective_k a) as Ha
    by (unfold max_effective_k; clear -Hne; destruct (route_keys a); [destruct (Hne eq_refl)|simpl; lia]).
  destruct (derive_run toy_rows 2 64 (max_effective_k a) ltac:(lia) ltac:(lia) ltac:(lia)
    (proj1 toy_rows_ok) (proj2 (proj2 toy_rows_ok))) as (k & Ek & _ & _ & Hmax).
  assert (0 < k) as Hk.
  { assert (1 <= k) as H1 by exact (Hmax 1 ltac:(lia) (toy_feasible _ Ha)). lia. }
  destruct (admitted_cycle_builds toy_torch toy_digest toy_torch_ok toy_digest_ok toy_plan true
    "flash" toy_registry toy_components warm_registry toy_rows 2 64 a k 7 toy_workspace
    toy_registry_ok warm_registry_ok (proj1 toy_rows_ok) (proj1 (proj2 toy_rows_ok))
    (proj2 (proj2 toy_rows_ok)) toy_rows_decode ltac:(lia) ltac:(lia) E Ek Hk)
    as (key & p & Hkey & Hp & _).
  exists a, k, key, p. split; [exact E|]. split; [exact Hk|]. split; [exact Hkey|exact Hp].
Defined.

(** ** The engine loop *)

Lemma schedule_arrived :
  schedule toy_hash toy_clock arrived = (Ok ([0%nat; 1%nat], true), scheduled_state).
Proof. vm. Qed.


Lemma schedule_progress_witness :
  idle toy_hash (schedule toy_hash toy_clock fresh).2 ∧
  (schedule toy_hash toy_clock fresh).1 = Raise no_work.
Proof.
  assert (schedule toy_hash toy_clock fresh
          = (Raise no_work, (schedule toy_hash toy_clock fresh).2)) as E by vm.
  destruct (schedule_progress toy_hash toy_clock toy_hash_nonneg fresh no_work _
    (reachable_demo_idle fresh (rtc_refl _ _)) E) as [Hs _].
  split; [exact Hs|vm].
Defined.

Lemma postprocess_commits_witness :
  ∃ s', postprocess toy_hash toy_clock [0%nat; 1%nat] [21; 22] scheduled_state =
    (Ok [mk_StreamOutput 0 21 false; mk_StreamOutput 1 22 false], s') ∧ idle toy_hash s'.
Proof.
  pose proof (schedule_run toy_hash toy_clock (kv_inv toy_hash) arrived
    (reachable_demo_idle _ arrived_reachable)) as Hs.
  rewrite schedule_arrived in Hs. destruct Hs as (Hs & Hnd & _ & Hsub & _).
  pose proof (postprocess_commits toy_hash toy_clock toy_hash_nonneg scheduled_state
    [0%nat; 1%nat] [21; 22] Hs Hnd Hsub) as H.
  rewrite decide_True in H by (vm_compute; repeat constructor).
  destruct H as (s' & E & Hi & _). exists s'. split; [|exact Hi].
  rewrite E. f_equal.
Defined.

Lemma cancel_exact_witness :
  ∃ s', cancel [1%nat; 7%nat] served = (Ok [1%nat], s') ∧ EngineLoop.in_step toy_hash [] s' ∧
    running s' = [0%nat].
Proof.
  destruct (cancel_exact toy_hash toy_hash_nonneg [] [1%nat; 7%nat] served
    (reachable_demo_idle _ served_reachable)) as (s' & E & Hs & _ & Hr & _).
  exists s'. split; [|split; [exact Hs|]].
  - rewrite E. assert (cancel_targets [1%nat; 7%nat] served = [1%nat]) as -> by vm. reflexivity.
  - rewrite Hr. vm.
Defined.

Lemma reachable_invariant_witness : idle toy_hash served ∧ cache_ok toy_hash (sc_heap served).
Proof.
  destruct (reachable_invariant toy_hash toy_clock toy_hash_nonneg toy_config 8 served
    ltac:(done) ltac:(done) served_reachable) as (Hs & _ & Hc & _).
  split; [exact Hs|exact Hc].
Defined.

Lemma reachable_progress_witness :
  ∃ events s', postprocess toy_hash toy_clock [0%nat; 1%nat] [21; 22] scheduled_state
               = (Ok events, s').
Proof.
  destruct (reachable_progress toy_hash toy_clock toy_hash_nonneg toy_config 8 arrived []
    ltac:(done) ltac:(done) arrived_reachable) as [H _].
  rewrite schedule_arrived in H. apply H. vm_compute. repeat constructor.
Defined.

(** ** Detokenizer and transport *)

(** A tokenizer whose every token is one code point. *)
Definition toy_decode (toks : list Z) : text := toks.
Definition toy_detokenizer : detokenizer_config := mk_detokenizer_config 2 1.

Lemma stream_and_flush_witness :
  ∃ st', stream_and_flush toy_decode toy_detokenizer 3 [104; 105; 33; 63; 46] ∅
         = (Ok [104; 105; 33; 63; 46], st') ∧ st' !! 3%nat = None.
Proof.
  pose proof (stream_and_flush_exact toy_decode toy_detokenizer 3 [104; 105; 33; 63; 46] ∅
    ltac:(done) ltac:(done) ltac:(apply lookup_empty) ltac:(discriminate)) as H.
  assert (is_ok (stream_and_flush toy_decode toy_detokenizer 3 [104; 105; 33; 63; 46] ∅).1 = true)
    as Hok by vm.
  destruct (stream_and_flush _ _ _ _ _) as [[t|e] st']; [|discriminate Hok].
  destruct H as (-> & Hn & _). exists st'. split; [reflexivity|exact Hn].
Defined.

Lemma splittable_stream_witness :
  ∃ t' st', stream toy_decode toy_detokenizer 3 [104; 105; 33; 63; 46] [] ∅ = (Ok t', st') ∧
    bounded toy_detokenizer (default decode_state_init (st' !! 3%nat)).
Proof.
  apply (splittable_stream_total toy_decode toy_detokenizer 3 [104; 105; 33; 63; 46] ∅ []).
  - reflexivity.
  - done.
  - done.
  - split; [vm_compute; split; congruence|exists []; vm_compute; auto|reflexivity].
  - reflexivity.
  - reflexivity.
Defined.

Lemma from_sequence_witness :
  ∃ w, from_sequence (stored heap_in_step 1) = Ok w ∧
    ss_scheduled_token_ids w = [14; 15] ∧ ss_block_table w = [0%nat; 1%nat; 3%nat].
Proof.
  destruct in_step_kv as (Hok & _ & _).
  destruct (ok_seqs _ _ Hok 1%nat _ (stored_lookup heap_in_step 1 ltac:(vm))) as [_ Hwf].
  pose proof (from_sequence_exact (stored heap_in_step 1) Hwf) as H.
  destruct (from_sequence _) as [w|e] eqn:E.
  - exists w. split; [reflexivity|]. destruct H as (_ & _ & _ & Ht & _).
    split; [|rewrite Ht; vm]. clear -E. vm_compute in E. injection E as <-. reflexivity.
  - vm_compute in E. discriminate E.
Defined.
