(* ===== verification/EngineWitnesses.v ===== *)
(** * EngineWitnesses: the engine's properties at a concrete engine

    A resting engine over the demo scheduler, a runner that answers token 20
    for every row, and a batch of two prompts. *)
From Stdlib Require Import QArith.
From S2P Require Import Prelude SamplingParams Sequence Heap BlockManager Reservation.
From S2P Require Import SpecMemory SpecRoutes SpecPlan SpecResult Scheduler CacheInv KVContract.
From S2P Require Import SchedInv Progress EngineLoop Metrics Engine EngineSpec GenerateSpec Stream StreamSpec StreamLive Demo Witnesses.
#[local] Open Scope Z_scope.
#[local] Instance toy_contract : KVAllocator toy_hash (kv_inv toy_hash) :=
  block_manager_contract toy_hash toy_hash_nonneg.
#[local] Abbreviation queue e := (waiting (scheduler_of e) ++ running (scheduler_of e)).

Definition toy_limits : AdmissionLimits := mk_limits (Some 64) (Some 100) (Some 4) (Some 8).

Definition toy_runner : runner :=
  mk_runner false false toy_plan (λ _ _, Ok None) (λ _ qs _, Ok (replicate (length qs) 20))
    (λ _ _ _, Raise (RuntimeError "no speculation")) (λ _ _ _, Raise (RuntimeError "no speculation"))
    (λ _ _ _, false) None (λ _ _, Ok tt).

(** A runner that fails. *)
Definition broken_runner : runner :=
  mk_runner false false toy_plan (λ _ _, Ok None) (λ _ _ _, Raise (RuntimeError "CUDA error"))
    (λ _ _ _, Raise (RuntimeError "no speculation")) (λ _ _ _, Raise (RuntimeError "no speculation"))
    (λ _ _ _, false) None (λ _ _, Ok tt).

Definition toy_engine : engine := mk_engine fresh 0 None 0 0.
Definition toy_prompts : list prompt := [PromptTokens (VInt <$> prompt0); PromptTokens (VInt <$> prompt1)].
Definition toy_sampling : option SamplingParams :=
  Some (mk_SamplingParams (VInt 1) (VInt 3) (VBool false) (VInt (-1)) (VInt 1)).
Definition toy_encode (s : string) : list Z := [].
Definition toy_text (l : list Z) : string := EmptyString.
Definition toy_sha (p : payload) : string := EmptyString.

Lemma toy_resting : resting toy_hash toy_engine.
Proof.
  split; [split|done|done].
  - apply (init_idle toy_hash toy_hash_nonneg toy_config 8); done.
  - intros k [q Hq]. simpl in Hq. by rewrite lookup_empty in Hq.
Qed.

Lemma toy_limits_match : limits_match toy_limits toy_engine.
Proof. split; vm_compute; reflexivity. Qed.

Lemma toy_answers : answers toy_runner (sc_config (scheduler_of toy_engine)).
Proof.
  intros n qs hp. exists (replicate (length qs) 20). split; [done|].
  split; [apply length_replicate|]. apply Forall_replicate. vm_compute. reflexivity.
Qed.

Lemma toy_advancing : advancing toy_clock.
Proof. intros n. unfold toy_clock. lia. Qed.

Definition ok_value {A} (d : A) (o : outcome A) : A := match o with Ok a => a | Raise _ => d end.
Definition toy_requests : list (list Z * sampling) :=
  ok_value [] (requests_of toy_encode toy_limits toy_prompts (replicate 2 toy_sampling)).

Lemma toy_requests_of :
  requests_of toy_encode toy_limits toy_prompts (replicate 2 toy_sampling) = Ok toy_requests.
Proof. vm_compute. reflexivity. Qed.

Lemma generate_total_witness :
  toy_requests.*1 = [prompt0; prompt1] ∧
  ∃ n cs e', (∀ fuel, (n <= fuel)%nat →
    generate toy_hash toy_clock toy_torch toy_sha toy_encode toy_text toy_limits toy_runner fuel
      toy_prompts (inl toy_sampling) toy_engine = (Ok cs, e')) ∧
    length cs = 2%nat ∧ queue e' = [].
Proof.
  split; [vm|].
  destruct (generate_total toy_hash toy_clock toy_hash_nonneg toy_torch toy_sha toy_encode toy_text
    toy_limits toy_runner toy_engine toy_prompts (inl toy_sampling) (replicate 2 toy_sampling)
    toy_requests (conj eq_refl eq_refl) toy_answers toy_advancing toy_resting toy_limits_match
    ltac:(vm) ltac:(vm) ltac:(vm_compute; congruence) toy_requests_of)
    as (n & cs & e' & E & Hcs & Hr).
  exists n, cs, e'. split; [exact E|]. split; [|apply (rs_queue _ _ Hr)].
  symmetry. exact (Forall2_length _ _ _ Hcs).
Defined.

Lemma generate_cleans_up_witness :
  resting toy_hash (generate toy_hash toy_clock toy_torch toy_sha toy_encode toy_text toy_limits
    broken_runner 9 toy_prompts (inl toy_sampling) toy_engine).2.
Proof.
  exact (proj1 (generate_cleans_up toy_hash toy_clock toy_hash_nonneg toy_torch toy_sha toy_encode toy_text
    toy_limits broken_runner toy_engine 9 toy_prompts (inl toy_sampling)
    (ordinary_safe _ _ (kv_inv toy_hash) _ _ _ broken_runner (conj eq_refl eq_refl)) toy_resting)).
Defined.

Lemma toy_acceptable :
  acceptable toy_encode toy_limits (PromptTokens (VInt <$> prompt0)) toy_sampling prompt0
    (default toy_params (typed (default default_SamplingParams toy_sampling))).
Proof. apply request_of_iff. vm_compute. reflexivity. Qed.


Lemma admit_batch_witness :
  ∃ e', _admit_batch toy_clock toy_encode toy_limits toy_prompts (replicate 2 toy_sampling) 0 toy_engine
    = (Ok [0%nat; 1%nat], e') ∧ waiting (scheduler_of e') = [0%nat; 1%nat].
Proof.
  destruct (admit_batch_atomic toy_hash toy_clock toy_hash_nonneg toy_encode toy_limits toy_engine
    toy_prompts (replicate 2 toy_sampling) 0 (rs_idle _ _ toy_resting) eq_refl) as (_ & _ & H).
  assert (is_ok (_admit_batch toy_clock toy_encode toy_limits toy_prompts (replicate 2 toy_sampling) 0
    toy_engine).1 = true) as Hok by vm.
  destruct (_admit_batch _ _ _ _ _ _ _) as [[ks|x] e']; [|discriminate Hok]. cbn [fst snd] in *.
  destruct H as (-> & Hw & _). exists e'. split; [reflexivity|]. rewrite Hw. reflexivity.
Defined.

(** The demo session is opened, read once over a runner that fails, and the
    failed iteration has closed it with the engine at rest. *)
Lemma stream_cleans_up_witness :
  match stream toy_clock toy_encode toy_limits toy_prompts (inl toy_sampling) toy_engine with
  | (Raise _, _) => False
  | (Ok st, e') =>
      let w := (_next_locked toy_hash toy_clock toy_torch toy_sha toy_limits broken_runner 5
                  (mk_world e' st)).2 in
      _closed (w_stream w) = true ∧ resting toy_hash (w_engine w)
  end.
Proof.
  pose proof (stream_cleans_up toy_hash toy_clock toy_hash_nonneg toy_torch toy_sha toy_encode
    toy_limits broken_runner toy_engine toy_prompts (inl toy_sampling)
    (ordinary_safe _ _ (kv_inv toy_hash) _ _ _ broken_runner (conj eq_refl eq_refl)) toy_resting) as H.
  assert (match stream toy_clock toy_encode toy_limits toy_prompts (inl toy_sampling) toy_engine with
    | (Ok st, e') => _closed (w_stream (_next_locked toy_hash toy_clock toy_torch toy_sha toy_limits
        broken_runner 5 (mk_world e' st)).2) = true | _ => False end) as Hc by (vm_compute; reflexivity).
  destruct (stream _ _ _ _ _ _) as [[st|x] e']; [|done]. split; [exact Hc|].
  specialize (H _ (rtc_once _ _ (or_introl (ex_intro _ 5%nat eq_refl)))). rewrite Hc in H. exact H.
Defined.

Lemma stream_complete_witness :
  ∃ n st e1 D w', stream toy_clock toy_encode toy_limits toy_prompts (inl toy_sampling) toy_engine = (Ok st, e1) ∧
    (∀ m fuel, (n <= m)%nat → (n <= fuel)%nat → drain toy_hash toy_clock toy_torch toy_sha toy_limits
      toy_runner m fuel (mk_world e1 st) = (Ok D, w')) ∧
    Forall2 (delivered (sc_config (scheduler_of toy_engine)) D (st_metrics (w_stream w'))) (seq_ids st) toy_requests ∧
    shut toy_hash w'.
Proof.
  exact (stream_complete toy_hash toy_clock toy_hash_nonneg toy_torch toy_sha toy_encode toy_limits
    toy_runner (conj eq_refl eq_refl) toy_engine toy_prompts (inl toy_sampling) (replicate 2 toy_sampling)
    toy_requests toy_answers toy_resting toy_limits_match ltac:(vm) ltac:(vm) ltac:(vm_compute; congruence)
    toy_requests_of).
Defined.
