(* ===== verification/SpecWitnesses.v ===== *)
(** * SpecWitnesses: the speculative transaction at a concrete batch

    Two served requests with a common prefix, decoded together under a plan of
    two drafts: the batch is planned, its writes prepared, its result committed,
    and a failed cycle aborted. *)
From Stdlib Require Import QArith.
From S2P Require Import Prelude SamplingParams Sequence Heap BlockManager Reservation.
From S2P Require Import SpecMemory SpecRoutes RouteInv RouteSpec SpecPlan SpecResult Scheduler CacheInv KVContract.
From S2P Require Import SchedInv PrefillSpec StepSpec EngineLoop SpecScheduler SpecCommit CommitSpec.
From S2P Require Import AbortSpec TransactionSpec Metrics Engine EngineSpec SpecStep Demo Witnesses.
From S2P Require Import EngineWitnesses.
#[local] Open Scope Z_scope.

#[local] Instance spec_contract : KVAllocator toy_hash (kv_inv toy_hash) :=
  block_manager_contract toy_hash toy_hash_nonneg.

Definition spec_config : sched_config := mk_sched_config 4 64 2 (Some 100) 4 2 64 "strict".
Definition spec_params : sampling := mk_sampling 0%Q 8 false (-1) 1%Q.
Definition spec_request (k : nat) (toks : list Z) : sequence :=
  ok_value (request k toks) (Sequence_init k toks spec_params None None 0).

Definition spec_fresh : scheduler := Scheduler_init spec_config 12.
Definition spec_queued : scheduler :=
  (submit 1 (spec_request 1 prompt1) (submit 0 (spec_request 0 prompt0) spec_fresh).2).2.
Definition spec_served : scheduler := (step [20; 22] spec_queued).2.
Definition spec_batch : scheduler := (schedule toy_hash toy_clock spec_served).2.

Lemma spec_submit k toks s :
  idle toy_hash s → bool_decide (seqs s !! k = None) = true →
  is_ok (Sequence_init k toks spec_params None None 0) = true →
  idle toy_hash (submit k (spec_request k toks) s).2.
Proof.
  intros Hs Hk%bool_decide_eq_true Hq. unfold spec_request.
  destruct (Sequence_init _ _ _ _ _ _) as [q|] eqn:Eq; [|done].
  eapply (engine_step_idle toy_hash toy_clock toy_hash_nonneg); [exact Hs|].
  eapply step_submit; [exact Hk|exact Eq|apply surjective_pairing].
Qed.

Lemma spec_served_idle : idle toy_hash spec_served.
Proof.
  assert (idle toy_hash spec_queued) as Hq.
  { apply spec_submit; [apply spec_submit; [|reflexivity..]|reflexivity..].
    apply (init_idle toy_hash toy_hash_nonneg spec_config 12); [done|done]. }
  unfold spec_served. assert (is_ok (step [20; 22] spec_queued).1 = true) as Hok by vm.
  revert Hok. unfold step. destruct (schedule _ _ spec_queued) as [[[batch hp]|e] s1] eqn:E; [|done].
  destruct (postprocess _ _ _ _ _) as [[evs|e] s2] eqn:E2; [|done]. intros _.
  eapply (engine_step_idle toy_hash toy_clock toy_hash_nonneg); [exact Hq|].
  by eapply step_forward.
Qed.

Lemma spec_batch_sinv : sinv (kv_inv toy_hash) [] (running spec_batch) spec_batch.
Proof.
  pose proof (schedule_run toy_hash toy_clock (kv_inv toy_hash) _ spec_served_idle) as H.
  assert (schedule toy_hash toy_clock spec_served = (Ok ([0%nat; 1%nat], false), spec_batch)) as E
    by vm. rewrite E in H. destruct H as (Hs & _).
  assert (running spec_batch = [0%nat; 1%nat]) as -> by vm. exact Hs.
Qed.

(** ** The plan *)

Definition spec_key (k : Z) : DraftRouteKey := plan_key true 4 k PAGED_EAGER_DYNAMIC.
Definition spec_admission : DraftRouteAdmission :=
  mk_admission DRAFT_ROUTE_SCHEMA (toy_digest PNone) 2 19 [spec_key 1; spec_key 2].
Definition spec_undo : option DecodeScheduleRollback :=
  ok_value None (capture_decode_schedule_rollback (running spec_batch) false spec_batch).1.
Definition planned : outcome plan_ref * scheduler :=
  plan_speculative_step toy_torch toy_digest (running spec_batch) toy_plan (Some spec_admission)
    spec_undo spec_batch.
Definition no_plan : SpecStepPlan := mk_step_plan 0 [] 1 0 0 None 0 0 0 0 0 0 EmptyString false None.
Definition spec_plan : plan_ref := ok_value (mk_plan_ref 0 (StepPlan no_plan)) planned.1.
Definition step_plan : SpecStepPlan :=
  match pr_plan spec_plan with StepPlan p => p | _ => no_plan end.

Lemma planned_run : planned = (Ok spec_plan, planned.2).
Proof. vm_compute. reflexivity. Qed.

Lemma spec_opened : opened toy_hash spec_batch spec_plan planned.2.
Proof.
  pose proof (plan_step_run toy_hash toy_torch toy_digest spec_batch toy_plan (Some spec_admission)
    spec_undo spec_batch_sinv) as H.
  unfold wp in H. fold planned in H. rewrite planned_run in H. destruct H as [[(p & E & Hk) _]|H]; [|exact H].
  exfalso. apply (f_equal (λ d, match d with StepPlan p => plan_effective_k p | _ => 0 end)) in E.
  rewrite Hk in E. vm_compute in E. discriminate E.
Qed.

Lemma plan_speculative_step_witness :
  ∃ s', plan_speculative_step toy_torch toy_digest (running spec_batch) toy_plan
      (Some spec_admission) spec_undo spec_batch = (Ok spec_plan, s') ∧
    plan_effective_k step_plan = 2 ∧ opened toy_hash spec_batch spec_plan s'.
Proof.
  exists planned.2. split; [exact planned_run|]. split; [vm|].
  pose proof (plan_speculative_step_spec toy_hash toy_torch toy_digest spec_batch toy_plan
    (Some spec_admission) spec_undo spec_batch_sinv) as H.
  unfold wp in H. fold planned in H. rewrite planned_run in H. destruct H as [[(p & E & Hk) _]|H]; [|exact H].
  exfalso. apply (f_equal (λ d, match d with StepPlan p => plan_effective_k p | _ => 0 end)) in E.
  rewrite Hk in E. vm_compute in E. discriminate E.
Defined.

(** ** The commit *)

Definition spec_result : SpecExecutionResult :=
  mk_execution_result (cycle_id step_plan) (workspace_fingerprint step_plan)
    [mk_row_result 0 [30; 31] [30; 31; 32] 2 true 0; mk_row_result 1 [40; 41] [2] 0 false 0]
    (target_query_tokens step_plan)
    (plan_draft_catchup_tokens step_plan + draft_query_tokens step_plan).

Definition prepared : scheduler := (prepare_speculative_target_writes spec_plan planned.2).2.
Definition committed : outcome (list StreamOutput) * scheduler :=
  commit_speculative toy_hash toy_clock spec_plan spec_result prepared.

Lemma spec_prepared : ∃ p t, pr_plan spec_plan = StepPlan p ∧ tx_plan t = spec_plan ∧
  tx_open toy_hash true spec_batch p t prepared.
Proof.
  destruct spec_opened as (p & t & Ep & Et & Ho).
  destruct (prepare_target_writes_open toy_hash spec_batch p t _ spec_plan Ho)
    as (t' & s' & E & Et' & Ho').
  { rewrite Et. apply Nat.eqb_refl. }
  exists p, t'. split; [exact Ep|]. split; [congruence|]. unfold prepared. rewrite E. exact Ho'.
Qed.

(** Row 0 keeps its whole burst, row 1 stops at the end-of-sequence token. *)
Lemma commit_speculative_witness :
  ∃ events s', commit_speculative toy_hash toy_clock spec_plan spec_result prepared = (Ok events, s') ∧
    length events = 4%nat ∧ running s' = [0%nat] ∧ sinv (kv_inv toy_hash) [] [] s'.
Proof.
  destruct spec_prepared as (p & t & Ep & Et & Ho).
  destruct (commit_speculative_spec toy_hash toy_hash_nonneg toy_clock spec_batch p t spec_plan prepared
    spec_result Ho) as (qs & _ & H). rewrite Et in H.
  assert (is_ok committed.1 = true) as Hok by vm.
  assert (length (ok_value [] committed.1) = 4%nat) as Hlen by vm.
  assert (running committed.2 = [0%nat]) as Hrun by vm. unfold committed in Hok, Hlen, Hrun.
  destruct (same_plan _ _ && is_ok _).
  - destruct H as (ps & s' & E & Hd & _). exists (burst_stream spec_batch ps), s'.
    rewrite E in Hlen, Hrun. split; [exact E|]. split; [exact Hlen|]. split; [exact Hrun|].
    exact (bd_idle _ _ _ _ _ _ _ Hd).
  - destruct H as [e E]. rewrite E in Hok. discriminate Hok.
Defined.

(** ** The abort *)

Lemma abort_speculative_witness :
  ∃ s', abort_speculative_step prepared = (Ok true, s') ∧ running s' = [0%nat; 1%nat] ∧
    sinv (kv_inv toy_hash) [] [] s'.
Proof.
  destruct spec_prepared as (p & t & Ep & Et & Ho).
  destruct (abort_speculative_spec toy_hash toy_hash_nonneg true spec_batch p t prepared Ho)
    as (s' & E & Hd). exists s'. split; [exact E|]. split; [|apply Hd].
  destruct (us_queues _ _ _ Hd) as (_ & -> & _). vm.
Defined.

(** ** The engine step *)

Definition spec_engine : engine := mk_engine spec_served 2 None 0 0.
(** A verified runner whose speculative forward fails. *)
Definition spec_runner : runner :=
  mk_runner true true toy_plan (λ _ _, Ok (Some spec_admission))
    (λ _ qs _, Ok (replicate (length qs) 20)) (λ _ _ _, Raise (RuntimeError "CUDA error"))
    (λ _ _ _, Raise (RuntimeError "no discard")) (λ _ _ _, true) None (λ _ _, Ok tt).

Lemma spec_engine_ok : engine_ok (kv_inv toy_hash) [] spec_engine.
Proof.
  split; [exact spec_served_idle|]. intros k [q Hq].
  assert (bool_decide (map_Forall (λ j _, (j < 2)%nat) (EngineSpec.stored spec_engine)) = true) as H by vm.
  apply bool_decide_eq_true in H. exact (H k q Hq).
Qed.

