(* ===== verification/RunnerWitnesses.v ===== *)
(** * RunnerWitnesses: the model inputs of a concrete step

    The step that decodes one request of the demo and prefills another whose
    first two blocks come from the prefix cache. *)
From Stdlib Require Import QArith.
From S2P Require Import Prelude SamplingParams Sequence Heap BlockManager Reservation CacheInv.
From S2P Require Import SpecMemory SpecRoutes Scheduler KVContract SchedInv EngineLoop TpTransport.
From S2P Require Import SpecPlan SpecScheduler Metrics Engine RunnerInput RunnerSpec RunnerDraft RunnerDraftSpec Demo Witnesses.
From S2P Require Import RunnerTransport RunnerGraph RunnerRun RunnerRunSpec EngineWitnesses SpecWitnesses.
#[local] Open Scope Z_scope.

Definition mixed_step : scheduler := (schedule toy_hash toy_clock arrived).2.
Definition mixed_rows : list sequence := [stored (sc_heap mixed_step) 0; stored (sc_heap mixed_step) 1].

Lemma mixed_schedule : schedule toy_hash toy_clock arrived = (Ok ([0%nat; 1%nat], true), mixed_step).
Proof. vm_compute. reflexivity. Qed.

Lemma arrived_idle : sinv (kv_inv toy_hash) [] [] arrived.
Proof. apply reachable_demo_idle, arrived_reachable. Qed.

Lemma mixed_lookup : Forall2 (λ k q, seqs mixed_step !! k = Some q) [0%nat; 1%nat] mixed_rows.
Proof.
  apply Forall2_cons. split; [apply stored_lookup; vm_compute; reflexivity|].
  apply Forall2_cons. split; [apply stored_lookup; vm_compute; reflexivity|].
  apply Forall2_nil_2.
Qed.

(** Request 0 writes position 9, request 1 the two tokens past its 8 cached
    ones. *)
Lemma step_inputs_witness :
  ∃ c, prepare_inputs 4 true mixed_rows = Ok c ∧ input_ids c = [20; 14; 15] ∧
    positions c = [9; 8; 9] ∧ slot_mapping (call_context c) = Some [9; 12; 13].
Proof.
  destruct (step_inputs toy_hash toy_clock toy_hash_nonneg arrived _ _ _ arrived_idle mixed_schedule)
    as (qs & c & Hqs & Ec & H1 & H2 & H3 & _).
  assert (qs = mixed_rows) as ->.
  { eapply Forall2_unique; [exact Hqs|exact mixed_lookup|]. intros x y z ??. congruence. }
  exists c. split; [exact Ec|]. rewrite H1, H2, H3.
  split; [vm_compute; reflexivity|]. split; vm_compute; reflexivity.
Defined.

Lemma step_writes_private_witness :
  NoDup [9; 12; 13] ∧ slot_of 4 (block_table (stored (sc_heap mixed_step) 1)) 7 ∉ [9; 12; 13].
Proof.
  assert (∃ c, prepare_inputs 4 true mixed_rows = Ok c ∧
    slot_mapping (call_context c) = Some [9; 12; 13]) as (c & Ec & Esl)
    by (eexists; split; vm_compute; reflexivity).
  destruct (step_writes_private toy_hash toy_clock toy_hash_nonneg arrived _ _ _ mixed_rows c _
    arrived_idle mixed_schedule mixed_lookup Ec Esl) as (H1 & _ & H3).
  split; [exact H1|]. apply (H3 1%nat _ 7); [apply stored_lookup; vm_compute; reflexivity|].
  vm_compute. split; congruence.
Defined.

Lemma workers_prepare_witness :
  ∃ ws, compact_run_args (RunArgs mixed_rows true) = Ok (ws, true) ∧
    prepare_inputs 4 true ws = prepare_inputs 4 true mixed_rows.
Proof.
  exact (workers_prepare_same toy_hash toy_clock toy_hash_nonneg arrived _ _ _ mixed_rows
    arrived_idle mixed_schedule mixed_lookup).
Defined.

(** ** The same step on a captured graph *)

Definition blank_buffers : varlen_vars :=
  mk_varlen_vars (replicate 8 0) (replicate 8 0) (replicate 5 0) (replicate 5 0) (replicate 8 0)
    (replicate 4 (replicate 16 0)).

Definition mixed_call : model_call :=
  match prepare_inputs 4 true mixed_rows with
  | Ok c => c
  | Raise _ => mk_call [] [] empty_context
  end.

(** Three tokens of two rows replay the graph of four tokens and two slots. *)
Lemma ragged_replay_witness :
  ∃ v', _fill_varlen blank_buffers mixed_call (4, 2) = Ok v' ∧
    vv_slot_mapping v' = [9; 12; 13] ++ replicate 5 (-1).
Proof.
  assert (buffers_ok blank_buffers 8 4 16) as Hb.
  { split; try reflexivity. split; [reflexivity|]. simpl. repeat (constructor; [reflexivity|]). constructor. }
  assert (Forall (λ k : graph_key, k.1 <= 8 ∧ k.2 <= 4) [(8, 4); (4, 2)]) as Hk.
  { apply Forall_cons. split; [simpl; lia|]. apply Forall_cons. split; [simpl; lia|]. apply Forall_nil_2. }
  assert (ragged_graph [(8, 4); (4, 2)] (Some blank_buffers) 64 mixed_call = Some (4, 2)) as Hg
    by (vm_compute; reflexivity).
  assert (prepare_inputs 4 true mixed_rows = Ok mixed_call) as Ec by (vm_compute; reflexivity).
  destruct (ragged_replay_exact toy_hash toy_clock toy_hash_nonneg arrived _ _ mixed_rows mixed_call
    [(8, 4); (4, 2)] blank_buffers 64 (4, 2) 8%nat 4%nat 16%nat
    arrived_idle mixed_schedule mixed_lookup Ec Hb ltac:(lia) Hk Hg) as (_ & v' & Ev & Hv).
  exists v'. split; [exact Ev|].
  destruct Hv as [_ _ (slots & Es & Hs) _ _ _].
  assert (slot_mapping (call_context mixed_call) = Some [9; 12; 13]) as Em by (vm_compute; reflexivity).
  rewrite Em in Es. injection Es as <-. rewrite Hs. vm_compute. reflexivity.
Defined.

(** ** One call over the channel *)

(** A codec that knows the call [exit()]. *)
Definition toy_dumps (p : tp_payload) : list Z :=
  match p with PCall m [] => if bool_decide (m = "exit"%string) then [1; 2; 3] else [] | _ => [] end.
Definition toy_loads (l : list Z) : option tp_payload :=
  if bool_decide (l = [1; 2; 3]) then Some (PCall "exit" []) else None.
Definition toy_shm : shm := mk_shm (replicate 16 0) [false; false].

Definition framed : shm := (write_shm toy_dumps "exit" [] toy_shm).2.
Definition drained : shm := set_events [false; false] framed.

Lemma framed_reads :
  all_read toy_loads [1; 0]%nat framed [Ok ("exit"%string, []); Ok ("exit"%string, [])] drained.
Proof.
  eapply all_read_cons; [split; vm_compute; reflexivity|].
  eapply all_read_cons; [split; vm_compute; reflexivity|]. apply all_read_nil.
Qed.


(** ** A draft cycle *)

(** The route of one draft step for up to four rows, warmed. *)
Definition small_entries : list DraftRouteEntry :=
  filter (λ e, bool_decide (entry_key e = spec_key 1) = true) (entries toy_registry).
Definition small_registry : DraftRouteRegistry :=
  mk_registry DRAFT_ROUTE_SCHEMA (toy_digest PNone) small_entries
    (⋃ (required_warm_components <$> small_entries)).

Definition toy_draft_runner : draft_runner :=
  mk_draft_runner true 2 64 64 toy_plan (Some small_registry) true 4 (Some 12) (Some 12) 100.

Definition draft_rows : list sequence :=
  [stored (sc_heap spec_batch) 0; stored (sc_heap spec_batch) 1].
Definition draft_plan : cycle_plan :=
  DiscardPlan (_draft_discard_plan spec_config 1 draft_rows 1 1 None 19 (Some (spec_key 1))).

(** A draft model that always proposes token 7. *)
Definition toy_draft_env : draft_env unit :=
  mk_draft_env unit (λ _ _ _, Ok tt) (λ _ _ vs, Ok (replicate (length vs) 7, replicate (length vs) (replicate 100 1%Q))) [] None None.

Definition draft_views : list DraftCycleRow * Z * DraftRouteKey :=
  ok_value ([], 0, spec_key 1)
    (_validate_draft_discard_plan toy_torch toy_digest toy_draft_runner draft_plan draft_rows).

Lemma draft_plan_valid :
  _validate_draft_discard_plan toy_torch toy_digest toy_draft_runner draft_plan draft_rows =
    Ok (draft_views.1.1, 1, spec_key 1).
Proof. vm_compute. reflexivity. Qed.

Definition draft_log : list model_call :=
  (_execute_draft_proposals_validated toy_draft_env toy_draft_runner draft_views.1.1 1 (spec_key 1) []).2.

(** Two passes: the catch-up of 19 tokens and one proposal step. *)
Lemma validated_cycle_witness :
  length draft_log = 2%nat ∧
  Forall (λ c, Forall (λ p, 0 <= p < 64) (positions c)) draft_log.
Proof.
  split; [vm_compute; reflexivity|].
  destruct (validated_cycle_in_pool toy_torch toy_digest toy_draft_runner toy_draft_env draft_plan draft_rows
    draft_views.1.1 1 (spec_key 1) draft_log eq_refl draft_plan_valid eq_refl) as (nb & _ & H).
  eapply Forall_impl; [exact H|]. intros c [Hc _]. exact Hc.
Defined.

Lemma discard_result_witness :
  ∃ res cov, (run_speculative_discard_runner toy_draft_env toy_draft_runner toy_torch toy_digest
      draft_plan draft_rows []).1 = Ok res ∧
    _validate_draft_discard_result (mk_plan_ref 1 draft_plan) res draft_rows 100 = Ok cov.
Proof.
  set (run := run_speculative_discard_runner toy_draft_env toy_draft_runner toy_torch toy_digest
    draft_plan draft_rows []).
  assert (is_ok run.1 = true) as Hok by (vm_compute; reflexivity).
  destruct run as [[res|x] log] eqn:E; [|discriminate Hok].
  destruct (discard_result_accepted toy_torch toy_digest toy_draft_runner toy_draft_env 1 draft_plan draft_rows
    res log eq_refl E) as (cov & Ecov & _).
  exists res, cov. split; [exact eq_refl|exact Ecov].
Defined.

(** ** The step on a device *)

(** A device whose hidden states are the input tokens and whose projection is
    the token itself. *)
Definition echo : model_env Z Z :=
  mk_model_env Z Z (λ c, Ok (input_ids c)) (λ _ v, Ok (dv_input_ids v)) (λ _ v, Ok (vv_input_ids v))
    (λ h, h) (λ x, x `mod` 64) (λ x _ _, Ok x) (λ x _ _ _, Ok x)
    (λ x _ _, Ok ((λ t, t `mod` 64) <$> x)) (λ x _, Ok ((λ t, t `mod` 64) <$> x)).

Lemma echo_faithful : faithful echo.
Proof.
  split.
  - intros c hs [= <-]. reflexivity.
  - intros b v c n w [H _ _ _ _ _] _. cbn. by rewrite H.
  - intros key v c ns T S1 w [H _ _ _ _ _] _ _. cbn. by rewrite H.
Qed.

Lemma echo_answers : device_answers echo 64.
Proof.
  assert (∀ x, 0 <= x `mod` 64 < 64) as Hm by (intros x; apply Z.mod_pos_bound; lia).
  assert (∀ l : list Z, vocabulary 64 ((λ t, t `mod` 64) <$> l)) as Hv.
  { intros l. apply Forall_fmap, Forall_forall. intros x _. apply Hm. }
  split; try (intros; eexists; split; [reflexivity|]; done).
  - intros c. by eexists.
  - exact Hm.
  - intros x ts ps. eexists. split; [reflexivity|]. split; [apply length_fmap|apply Hv].
  - intros x ts. eexists. split; [reflexivity|]. split; [apply length_fmap|apply Hv].
Qed.

Definition runner_config : run_config := mk_run_config false false false 4 256 3 64 64.
Definition started_runner : run_state := ok_value eager_state (run_state_init runner_config).

Lemma started_runner_ok : state_ok runner_config started_runner.
Proof.
  apply init_state_ok; [vm_compute; reflexivity|]. vm_compute. reflexivity.
Qed.

Lemma mixed_batch :
  scheduled_batch toy_hash toy_clock runner_config arrived mixed_step [0%nat; 1%nat] true mixed_rows.
Proof.
  split; [exact arrived_idle|exact mixed_schedule|exact mixed_lookup|vm_compute; reflexivity|].
  apply Forall_cons. split; [vm_compute; congruence|].
  apply Forall_cons. split; [vm_compute; congruence|]. apply Forall_nil_2.
Qed.



(** A greedy request, in invariant mode. *)
Definition greedy_request : sequence :=
  ok_value (request 0 prompt0)
    (Sequence_init 0 prompt0 (mk_sampling 0%Q 3 false (-1) 1%Q) None None 0).
Definition greedy_queued : scheduler := (submit 0 greedy_request fresh).2.
Definition greedy_step : scheduler := (schedule toy_hash toy_clock greedy_queued).2.
Definition greedy_rows : list sequence := [stored (sc_heap greedy_step) 0].
Definition invariant_config : run_config := mk_run_config true false false 4 256 3 64 64.
Definition greedy_call : model_call :=
  ok_value (mk_call [] [] empty_context) (prepare_inputs 4 true greedy_rows).

Lemma greedy_batch :
  scheduled_batch toy_hash toy_clock invariant_config greedy_queued greedy_step [0%nat] true greedy_rows.
Proof.
  split; [|vm_compute; reflexivity| |vm_compute; reflexivity|].
  - apply reachable_demo_idle. eapply rtc_r; [constructor|].
    eapply (step_submit _ _ _ _ 0%nat prompt0); [reflexivity|reflexivity|apply surjective_pairing].
  - apply Forall2_cons. split; [apply stored_lookup; vm_compute; reflexivity|]. apply Forall2_nil_2.
  - apply Forall_cons. split; [vm_compute; congruence|]. apply Forall_nil_2.
Qed.


