(* ===== verification/SamplerWitnesses.v ===== *)
(** * SamplerWitnesses: the sampler's properties at concrete inputs

    One closed instance per property with hypotheses: a draft and a target over
    two tokens, a batch of two rows with two proposals over three tokens, and a
    stable merge sort as the order of a row. *)
From Stdlib Require Import QArith Lqa.
From stdpp Require Import sorting.
From S2P Require Import Prelude SamplingParams Sampler SamplerSpec SpecLaw AcceptSpec FilterSpec Demo.
#[local] Open Scope nat_scope.

(** ** The cycle *)

Definition even_target (_ : list nat) : list Q := [1; 3]%Q.
Definition even_draft (_ : list nat) : list Q := [2; 2]%Q.

Lemma speculative_sampling_exact_witness :
  (prob (completed even_target even_draft 2 1 [7]%nat) [1; 0]%nat == 3 # 16)%Q.
Proof.
  rewrite (speculative_sampling_exact even_target even_draft); [vm_compute; reflexivity|..];
    try (intros; split; [repeat constructor; easy|reflexivity]); [done|lia].
Defined.

(** ** Rejection *)

Definition row_data (l : list Q) : list fval := FNum <$> l.
Definition demo_float (shape : list nat) (l : list Q) : tensor fval :=
  mk_tensor Float32 0 shape 1 true (row_data l).
Definition demo_target : tensor fval := demo_float [2; 2; 3] [0;1;0; 1;0;0;  1;2;1; 1;1;2]%Q.
Definition demo_proposal : tensor fval := demo_float [2; 2; 3] [1;2;1; 1;1;2;  2;1;1; 1;1;2]%Q.
Definition demo_tokens : tensor Z := mk_tensor Int64 0 [2; 2] 2 true [1; 2; 0; 2]%Z.
Definition demo_uniforms : tensor fval := demo_float [2; 2] [0; 1 # 2; 3 # 4; 1 # 2]%Q.
Definition demo_noise : tensor fval := demo_float [2; 3] [1; 1; 1; 1; 2; 1]%Q.
Definition no_rand (_ _ : nat) : list (list Q) := [].
Definition no_exponential (_ _ : nat) : list (list fval) := [].

Lemma demo_call : valid_call 2 2 3 demo_target demo_proposal demo_tokens demo_uniforms demo_noise.
Proof.
  assert (∀ l, tn_dtype l = Float32 → tn_shape l = [2; 2; 3] → length (tn_data l) = 12 →
    forallb (λ x, isfinite x && negb (fless x 0)) (tn_data l) = true →
    forallb (forallb (λ row, Qltb 0 (Qsum (nums1 row)))) (rows3 l) = true → cube l 2 2 3) as Hc.
  { intros l ? Hs Hl Hf Hm. apply forallb_Forall in Hf. split; try done.
    - unfold wf_tensor. by rewrite Hs, Hl.
    - lia.
    - eapply Forall_impl; [exact Hf|]. intros x [? ?]%andb_true_iff. done.
    - eapply Forall_impl; [exact Hf|]. by intros x [? ?%negb_true_iff]%andb_true_iff.
    - apply forallb_Forall in Hm. eapply Forall_impl; [exact Hm|]. intros row. apply forallb_Forall. }
  split; try done.
  - by apply Hc.
  - by apply Hc.
  - repeat constructor; lia.
  - by repeat constructor.
  - by repeat constructor.
  - vm_compute. by repeat constructor.
Qed.

Lemma accept_trusted_agrees_witness :
  accepted_counts (accept_trusted no_rand no_exponential (nums3 (rows3 demo_target)) [[1; 2]; [0; 2]]
    (nums3 (rows3 demo_proposal)) (Some (nums2 (rows2 demo_uniforms))) (Some (rows2 demo_noise))) = [1; 0] ∧
  ∃ r, accept no_rand no_exponential (ATensor demo_target) (ATensor demo_tokens) (ATensor demo_proposal)
    (ATensor demo_uniforms) (ATensor demo_noise) = Ok r ∧ accepted_counts r = [1; 0].
Proof.
  destruct (accept_trusted_agrees no_rand no_exponential 2 2 3 _ _ _ _ _ demo_call) as (r & E & Hc & _).
  split; [vm|]. exists r. split; [exact E|]. rewrite Hc. vm.
Defined.


Lemma accept_greedy_witness :
  ∃ r n, accept no_rand no_exponential (ATensor demo_target) (ATensor demo_tokens) (ATensor demo_proposal)
    (ATensor demo_uniforms) (ATensor demo_noise) = Ok r ∧ accepted_counts r !! 0 = Some n ∧ n ≤ 2.
Proof.
  destruct (accept_greedy no_rand no_exponential 2 2 3 _ _ _ _ _ 0 (λ j, if j =? 0 then 1 else 0) demo_call)
    as (r & n & E & Hn & Hk & _); [lia| |by exists r, n].
  intros [|[|j]] Hj; [split; [simpl; lia|vm]|split; [simpl; lia|vm]|lia].
Defined.

(** ** The filters *)

Definition logit_le (row : list logit) (i j : nat) : Prop :=
  logit_ltb (nth j row None) (nth i row None) = false.
#[local] Instance logit_le_dec row : RelDecision (logit_le row).
Proof. intros i j. unfold logit_le. apply _. Defined.
#[local] Instance logit_le_transitive row : Transitive (logit_le row).
Proof. intros i j k. unfold logit_le. apply logit_le_trans. Qed.
#[local] Instance logit_le_total row : Total (logit_le row).
Proof.
  intros i j. unfold logit_le. destruct (nth i row None) as [x|], (nth j row None) as [y|]; try (by left); try by right.
  simpl. rewrite !Qltb_ge. destruct (Qlt_le_dec x y); [left; lra|by right].
Qed.
(** A merge sort of the indices. *)
Definition stable_argsort (row : list logit) : list nat :=
  merge_sort (logit_le row) (seq 0 (length row)).
Definition toy_exp (x : Q) : Q := (1 + x * x)%Q.

Lemma toy_exp_positive x : (0 < toy_exp x)%Q.
Proof. unfold toy_exp. nra. Qed.

Lemma stable_argsort_perm row : stable_argsort row ≡ₚ seq 0 (length row).
Proof. apply merge_sort_Permutation. Qed.

Lemma stable_argsort_sorted row i j x y :
  i ≤ j → stable_argsort row !! i = Some x → stable_argsort row !! j = Some y →
  logit_ltb (nth y row None) (nth x row None) = false.
Proof.
  intros Hij Hx Hy. destruct (decide (i = j)) as [->|Hne].
  { rewrite Hx in Hy. injection Hy as ->. apply logit_ltb_irrefl. }
  pose proof (Sorted_StronglySorted _ _ (Sorted_merge_sort (logit_le row) (seq 0 (length row)))) as Hs.
  fold (stable_argsort row) in Hs. rewrite <-(take_drop_middle _ _ _ Hx) in Hs.
  apply StronglySorted_app in Hs as (_ & _ & [Hs _]%StronglySorted_cons). rewrite Forall_forall in Hs. apply Hs.
  apply list_elem_of_lookup. exists (j - S i). rewrite lookup_drop. by replace (S i + (j - S i)) with j by lia.
Qed.

Definition demo_logits : tensor logit :=
  mk_tensor BFloat16 0 [2; 3] 7 true [Some 1; Some 3; Some 2; Some 2; None; Some 1]%Q.
Definition demo_temperatures : tensor fval := demo_float [2] [0; 1]%Q.
Definition demo_cutoffs : tensor fval := mk_tensor Float32 0 [1] 5 true [FNum (1 # 4)].
Definition demo_rows : tensor Z := mk_tensor Int64 0 [1] 6 true [1%Z].

Lemma exact_law_witness :
  ∃ ps, prepare_exact_probabilities toy_exp stable_argsort (ATensor demo_logits) (ATensor demo_temperatures)
      [Bucket (VInt 2) ANone] (Plan (ATensor demo_rows) (ATensor demo_cutoffs)) ANone = Ok ps ∧
    length ps = 2 ∧ ps !! 0 = Some [0; 1; 0]%Q.
Proof.
  destruct (exact_law toy_exp stable_argsort demo_logits (ATensor demo_temperatures) ANone
    demo_temperatures 2 3 [Bucket (VInt 2) ANone] (Plan (ATensor demo_rows) (ATensor demo_cutoffs))
    [0; 1] [(2, None)] (Some (Some [1], [1 # 4]%Q)) toy_exp_positive stable_argsort_perm
    stable_argsort_sorted) as (ps & E & _ & Hl & _ & Hg).
  - split; try done; [by repeat constructor|by repeat constructor|].
    repeat constructor; simpl; [exists 1%Q|exists 2%Q]; repeat constructor.
  - reflexivity.
  - reflexivity.
  - by intros rows c [= <- <-].
  - exists ps. split; [exact E|]. split; [exact Hl|]. apply (Hg 0 0%Q [Some 1; Some 3; Some 2]%Q); reflexivity.
Defined.

Lemma filters_exact_witness :
  top_k_kept stable_argsort 2 [Some 1; Some 3; Some 2]%Q [None; Some 3; Some 2]%Q ∧
  filter_top_p_row toy_exp stable_argsort 1 (1 # 4) [Some 1; Some 3; Some 2]%Q = [None; Some 3; Some 2]%Q.
Proof.
  destruct (filters_exact toy_exp stable_argsort 2 1 (1 # 4) [Some 1; Some 3; Some 2]%Q
    (normalize (weight toy_exp <$> scale 1 [Some 1; Some 3; Some 2]%Q)) toy_exp_positive stable_argsort_perm
    stable_argsort_sorted) as (Hk & _ & _); [simpl; lia|lra|reflexivity|].
  split; [exact Hk|vm].
Defined.
