(* ===== verification/VerifierWitnesses.v ===== *)
(** * VerifierWitnesses: a verified cycle at concrete inputs

    The two rows and two proposals of the speculative batch, over a target that
    always counts up from the last token, with a certificate issued by the
    warm-up. *)
From Stdlib Require Import QArith Lqa.
From S2P Require Import Prelude SamplingParams Sequence Heap SpecMemory SpecRoutes SpecPlan SpecResult.
From S2P Require Import ResultSpec Scheduler SpecScheduler Metrics Engine RunnerInput RunnerDraft RunnerDraftSpec.
From S2P Require Import Sampler Verifier VerifierSpec Demo Witnesses EngineWitnesses SpecWitnesses RunnerWitnesses.
#[local] Open Scope Z_scope.

(** ** The target *)

Definition count_up (t : Z) : list logit :=
  (λ i, Some (if Z.of_nat i =? (t + 1) `mod` 100 then 1 else 0)%Q) <$> seq 0 100.
Definition next_count (prefix : list Z) : list logit := count_up (default 0 (last prefix)).

Definition counting_target : target_env :=
  mk_target_env (λ c, Ok (count_up <$> input_ids c)) (λ c, Ok (count_up <$> take (length (positions c)) (input_ids c ++ positions c)))
    (λ x, 1 + x * x)%Q (λ row, seq 0 (length row))
    (λ n m, replicate n (replicate m (1 # 2))) (λ n m, replicate n (replicate m (FNum 1)))
    (λ n m, replicate n (replicate m 1%Q)).

Lemma replicate_matrix {A} (x : A) n m : matrix n m (replicate n (replicate m x)).
Proof. split; [apply length_replicate|]. apply Forall_replicate, length_replicate. Qed.

Lemma length_count_up t : Z.of_nat (length (count_up t)) = 100.
Proof. unfold count_up. by rewrite length_fmap, length_seq. Qed.

Lemma counting_ok : target_ok counting_target 100.
Proof.
  assert (∀ l : list Z, Forall (λ row : list logit, Z.of_nat (length row) = 100) (count_up <$> l)) as Hw.
  { intros l. apply Forall_fmap, Forall_true. intros t. apply length_count_up. }
  split; [split; intros; apply replicate_matrix| |].
  - intros c l [= <-]. apply Hw.
  - intros c l [= <-]. split; [apply Hw|]. rewrite length_fmap, length_take, length_app. lia.
Qed.

Lemma counting_row prefix p :
  causal_row next_count prefix p = count_up <$> (default 0 (last prefix) :: p).
Proof.
  revert prefix. induction p as [|x p IH]; intros prefix.
  - unfold causal_row. cbn [length seq fmap list_fmap take]. by rewrite app_nil_r.
  - rewrite causal_row_cons, IH, last_snoc. done.
Qed.

(** ** The verifier *)

Definition pair_entries : list DraftRouteEntry :=
  filter (λ e, bool_decide (entry_key e = spec_key 1 ∨ entry_key e = spec_key 2) = true) (entries toy_registry).
Definition pair_registry : DraftRouteRegistry := Eval vm_compute in
  mk_registry DRAFT_ROUTE_SCHEMA (toy_digest PNone) pair_entries
    (⋃ (required_warm_components <$> pair_entries)).
Definition pair_memory : SpeculativeMemoryPlan := Eval vm_compute in toy_plan.
Definition pair_runner : draft_runner :=
  mk_draft_runner true 2 64 64 pair_memory (Some pair_registry) true 4 (Some 12) (Some 12) 100.

Definition device_tensor (id : Z) (shape : list Z) (dtype : string) : option tensor_view :=
  Some (mk_tensor_view id (1000 * id) 4096 0 shape [] dtype "cuda:0" true).
Definition toy_tensors (name : string) : option tensor_view :=
  if bool_decide (name = "kv_cache") then device_tensor 1 [2; 1; 12; 4; 1; 8] "torch.float16" else
  if bool_decide (name = "draft_kv_cache") then device_tensor 2 [2; 1; 12; 4; 1; 8] "torch.float16" else
  if bool_decide (name = "_spec_q_rows") then device_tensor 3 [8; 100] "torch.float32" else
  if bool_decide (name = "_spec_proposal_ids") then device_tensor 4 [8] "torch.int64" else
  if bool_decide (name = "_spec_target_probability_rows") then device_tensor 5 [12; 100] "torch.float32" else
  if bool_decide (name = "_spec_bonus_noise") then device_tensor 6 [4; 100] "torch.float32" else
  if bool_decide (name = "_spec_result_rows") then device_tensor 7 [4; 5] "torch.int64" else None.

Definition cold_verifier (mode : string) : verifier :=
  mk_verifier pair_runner mode 9 (λ _, Dict []) toy_tensors (mk_certificate false [] None).
(** The certificate of the shapes of up to four rows and two proposals. *)
Definition warmed (mode : string) : verifier :=
  set_certificate (mk_certificate true [(1, 1); (1, 2); (2, 1); (2, 2); (3, 1); (3, 2); (4, 1); (4, 2)]
    (Some (toy_digest PNone))) (cold_verifier mode).

Definition warm_run_of (mode : string) : outcome unit * verifier :=
  warm_verifier counting_target toy_digest (λ _, Ok tt) 0 0 (cold_verifier mode).

Lemma warm_certifies_witness :
  vr_certificate (warm_run_of "fast").2 = vr_certificate (warmed "fast") ∧
  certified_shape (vr_runner (cold_verifier "fast")) 2 2.
Proof.
  pose proof (warm_certifies counting_target toy_digest (λ _, Ok tt) 0 0 (cold_verifier "fast")
    (warm_run_of "fast").1 (warm_run_of "fast").2 (surjective_pairing _)) as (Ho & Hs & _).
  assert (verifier_route_ready toy_digest (warm_run_of "fast").2 2 2 = true) as H by vm.
  split; [vm|]. apply (Hs (Ho _ _ H)). exact H.
Defined.

(** ** The cycle *)

Definition pair_plan : SpecStepPlan := Eval vm_compute in step_plan.
Definition cycle_rows : list sequence := Eval vm_compute in
  [stored (sc_heap prepared) 0; stored (sc_heap prepared) 1].

(** A draft that proposes 7 and then 8 for every row. *)
Definition pair_draft_env : draft_env unit :=
  mk_draft_env unit (λ _ _ _, Ok tt)
    (λ n _ vs, Ok (replicate (length vs) (if (n =? 2)%nat then 23 else 8),
                   replicate (length vs) (replicate 100 1%Q))) [] None None.

Definition cycle_views : list DraftCycleRow * Z * DraftRouteKey := Eval vm_compute in
  ok_value ([], 0, spec_key 2)
    (_validate_draft_discard_plan toy_torch toy_digest pair_runner (StepPlan pair_plan) cycle_rows).
Definition cycle_of (mode : string) : outcome SpecExecutionResult * list model_call :=
  execute pair_draft_env counting_target (warmed mode) toy_torch toy_digest pair_plan cycle_rows [].

Lemma cycle_validated :
  _validate_draft_discard_plan toy_torch toy_digest pair_runner (StepPlan pair_plan) cycle_rows =
    Ok (cycle_views.1.1, 2, spec_key 2).
Proof. vm_compute. reflexivity. Qed.

Definition cycle_rest (mode : string) : outcome SpecExecutionResult * list model_call :=
  execute_validated pair_draft_env counting_target (warmed mode) toy_digest pair_plan
    cycle_views.1.1 2 (spec_key 2) [].

Lemma cycle_rest_run mode : cycle_of mode = cycle_rest mode.
Proof.
  unfold cycle_of, execute, bind, lift. change (vr_runner (warmed mode)) with pair_runner.
  by rewrite cycle_validated.
Qed.

(** Row 0 keeps no proposal, row 1 keeps the first. *)
Lemma verified_result_accepted_witness :
  ∃ res log, cycle_of "fast" = (Ok res, log) ∧ accepted_draft_tokens <$> res_rows res = [0; 1] ∧
    validate_result pair_plan res cycle_rows (Some (dn_draft_vocab (vr_runner (warmed "fast")))) = Ok tt.
Proof.
  pose proof (cycle_rest_run "fast") as Er.
  assert (match (cycle_rest "fast").1 with
          | Ok res => bool_decide (accepted_draft_tokens <$> res_rows res = [0; 1]) | _ => false end = true) as Ha by vm.
  destruct (cycle_rest "fast") as [[res|e] log]; [|discriminate Ha].
  apply bool_decide_eq_true in Ha. exists res, log. split; [exact Er|]. split; [exact Ha|].
  assert (Forall (λ q, status q = RUNNING) cycle_rows) as Hrun by (repeat constructor).
  exact (verified_result_accepted pair_draft_env counting_target (warmed "fast") toy_torch toy_digest
    pair_plan cycle_rows res log eq_refl counting_ok Hrun Er).
Defined.

Lemma counting_causal k vs :
  omap_all last_token vs = Ok (tail_token <$> vs) → causal_target counting_target (warmed "invariant") next_count vs k.
Proof.
  intros Ht proposals c [Lp _] Hc. unfold target_call in Hc. apply obind_ok in Hc as (slots & _ & Hc).
  rewrite Ht in Hc. cbn [obind] in Hc. apply obind_ok in Hc as (tables & _ & [= <-]). simpl. f_equal.
  rewrite fmap_concat. f_equal. clear -Lp. revert vs Lp.
  induction proposals as [|p l IH]; intros [|w vs] Lp; try done. cbn [zip_with fmap list_fmap].
  rewrite counting_row. f_equal. apply IH. by injection Lp.
Qed.

Lemma cycle_tails : omap_all last_token cycle_views.1.1 = Ok (tail_token <$> cycle_views.1.1).
Proof. vm_compute. reflexivity. Qed.

Lemma verified_cycle_greedy_witness :
  ∃ res log, cycle_of "invariant" = (Ok res, log) ∧ length (res_rows res) = 2%nat ∧
    ∃ n rr, res_rows res !! 1%nat = Some rr ∧ committed_token_ids rr =
      greedy_tokens next_count n [5; 6; 7; 8; 9; 10; 11; 12; 14; 15; 22].
Proof.
  pose proof (cycle_rest_run "invariant") as Er.
  assert (is_ok (cycle_rest "invariant").1 = true) as Hok by vm.
  destruct (cycle_rest "invariant") as [[res|e] log]; [|discriminate Hok].
  pose proof (verified_cycle_greedy pair_draft_env counting_target (warmed "invariant") toy_torch toy_digest
    next_count pair_plan cycle_rows cycle_views.1.1 2 (spec_key 2) res log eq_refl eq_refl cycle_validated
    eq_refl (counting_causal 2 _ cycle_tails) Er) as [Hl H].
  exists res, log. split; [exact Er|]. split; [exact Hl|].
  destruct (lookup_lt_is_Some_2 (res_rows res) 1%nat) as [rr Hrr]; [rewrite Hl; repeat constructor|].
  destruct (H 1%nat _ rr eq_refl Hrr) as (n & _ & _ & _ & Hn).
  exists n, rr. split; [exact Hrr|exact Hn].
Defined.

(** ** The single pass *)

Lemma single_pass_witness :
  ∃ c, target_call pair_runner cycle_views.1.1 [[30; 31]; [40; 41]] 2 = Ok c ∧
    ∃ d, _prepare_draft_decode 4 cycle_views.1.1 [30; 40] 1 = Ok d ∧
      positions c !! 4%nat = positions d !! 1%nat ∧ input_ids c !! 4%nat = Some 40.
Proof.
  destruct (single_pass_is_decoding pair_runner 2 cycle_views.1.1 [[30; 31]; [40; 41]]) as (c & Ec & H).
  - reflexivity.
  - discriminate.
  - assert (length cycle_views.1.1 = 2%nat) as Hl by vm. intros E. rewrite E in Hl. discriminate Hl.
  - assert (forallb (λ w, (1 <=? cr_committed_len w) && negb (bool_decide (cr_token_ids w = []))
      && ((cr_committed_len w + 2 - 1) `div` 4 + 1 <=? Z.of_nat (length (cr_block_table w)))) cycle_views.1.1 = true)
      as Hb by vm.
    rewrite forallb_forall in Hb. apply Forall_forall. intros w Hw%list_elem_of_In.
    specialize (Hb w Hw). rewrite !andb_true_iff, negb_true_iff in Hb. destruct Hb as [[Hc Ht] Hd].
    split; [apply Z.leb_le, Hc|]. split; [by apply bool_decide_eq_false in Ht|]. apply Z.leb_le, Hd.
  - split; [vm|]. repeat constructor.
  - exists c. split; [exact Ec|]. destruct (H 1 ltac:(split; discriminate)) as (d & Ed & _ & Hrow).
    exists d. split; [exact Ed|].
    assert (length cycle_views.1.1 = 2%nat) as Hl by vm.
    destruct (lookup_lt_is_Some_2 cycle_views.1.1 1%nat) as [w Hw]; [rewrite Hl; repeat constructor|].
    destruct (Hrow 1%nat w Hw) as (Hi & Hp & _). split; [exact Hp|].
    transitivity (input_ids d !! 1%nat); [exact Hi|].
    assert (input_ids d = [30; 40]) as ->; [|reflexivity]. clear -Ed. revert Ed.
    generalize cycle_views.1.1. intros vs Ed. unfold _prepare_draft_decode in Ed.
    apply obind_ok in Ed as (? & _ & (? & _ & [= <-])%obind_ok). reflexivity.
Defined.
