(* ===== verification/PolicyWitnesses.v ===== *)
(** * PolicyWitnesses: the adaptive policy at a concrete calibration

    A policy loaded with one cell per K for a batch of two requests, and the
    admission of two routes that the speculative witnesses use. *)
From Stdlib Require Import QArith.
From S2P Require Import Prelude SamplingParams Sequence SpecRoutes Engine Policy PolicySpec.
From S2P Require Import Demo SpecWitnesses.
#[local] Open Scope Z_scope.

Definition calibration (k : Z) (expected cycle : Q) : cell_args :=
  mk_cell_args (VInt 2) (VStr "temperature") (VInt 16) (VInt 32) (VInt k) (VInt 10)
    (VFloat (Finite cycle)) (VFloat (Finite expected)).

(** K = 1 wins by a quarter, K = 2 by a third. *)
Definition calibrations : list (CalibrationCell + cell_args) :=
  [inr (calibration 1 (3 # 2) 12); inr (calibration 2 2 15)].

Definition calibrated : AdaptiveSpeculativePolicy := (load calibrations Policy_init).2.

Definition adaptive_rows : sequence * list sequence := (request 0 prompt0, [request 1 prompt1]).

Definition toy_choice (p : AdaptiveSpeculativePolicy) (n : nat) (rows : list sequence) (ks : list Z)
    (catchup : Z) : option Z :=
  match (choose rows ks catchup "fast" 100 64 p).1 with Ok d => selected_k d | Raise _ => None end.

Definition adaptive_runner : runner :=
  mk_runner true true (speculative_memory_plan spec_runner) (λ _ _, Ok (Some spec_admission))
    (run spec_runner) (run_speculative spec_runner) (run_speculative_discard spec_runner)
    (λ _ _ _, true) (Some (toy_choice calibrated)) (λ _ _, Ok tt).

Lemma calibrated_reachable : rtc policy_step Policy_init calibrated.
Proof. apply rtc_once, step_load. by repeat constructor. Qed.

